(* ===== verification/_CoqProject ===== *)
-Q . S2P
Prelude.v
Floats.v
Metrics.v
Plan.v
History.v
Focus.v
State.v
Notices.v
Iteration.v
Evidence.v
Transitions.v
Policy.v
Records.v
Rounds.v
ReadModel.v
Regex.v
Redactor.v
Issues.v
IssueThreads.v
BoardOwner.v
BoardTitle.v
IssueQueue.v
QueueRuns.v
CoreValues.v
CoreProofs.v
WaitClock.v
Requests.v
RequestLedger.v
LedgerSteps.v
LedgerRuns.v
LedgerCascade.v
Scheduling.v
Admission.v
Attempts.v
AdmissionPath.v
AdmissionExample.v
LedgerExample.v
Coroutines.v
Operations.v
Coordinator.v
CoordinatorLogic.v
CoordinatorTasks.v
CoordinatorCalls.v
CoordinatorRuns.v
CoordinatorExample.v
Processes.v
SlurmStates.v
SlurmTypes.v
EvalLedger.v
EvalStore.v
EvalProcs.v
EvalLogic.v
EvalTriples.v
EvalRuns.v
Formats.v
EvalExample.v
ClusterPort.v
ClusterLogic.v
ClusterTriples.v
ClusterCalls.v
ClusterRuns.v
ClusterExample.v
