(* ===== verification/Prelude.v ===== *)
(** * A verified model of the VibeSys search core

    VibeSys runs an optimization campaign. Two of its searches are modelled with what they rest on,
    the part of the event-sourced core under every search that decides what may run, the
    coordinator of durable asynchronous operations, the ledger of evaluations on a Slurm cluster
    that the runs of a project share, and the port through which jobs are submitted to that cluster.

    The hypothesis search works in rounds: a designer plans a hypothesis, an implementer works on
    it, a judge and the official gates decide what the round proved, and the result is appended to
    a persistent state from which every later decision is taken. The model is the pure package
    src/src/vibesys/hypothesis/ with the metric space it compares readings in
    (src/src/vibesys/metrics.py), the profile-guided focus policy (src/src/vibesys/profile_focus/)
    and the read model it is shown through (hypothesis/readmodel.py and the iteration trees of
    run/contracts.py).

    The issue-queue search works an issue board: it files the task, works open issues by urgency,
    measures, files what it finds, and adopts the last candidate it kept. The model is the search
    (src/src/vibesys/orchestration/issue_queue/search/) over the framework's context as an
    interface, the owner of its board operations (src/libs/vs-runtime,
    _issue_board_operations.py) and the tracker under it (src/libs/vs-issue-tracker). Text that
    crosses an operator-facing boundary goes through the redactors of src/libs/vs-redaction.

    The core (src/libs/vs-core) is a set of areas, each a pure function from its state, a read-only
    context of the others and one event to a new state and signals. Modelled are the scheduling area
    (scheduling.py: a first-in first-out queue of admission requests over bounded slots, the
    operator's controls, the run's deadline and drain), the proofs it rests on (_proofs.py,
    _adoption.py, _wait_clock.py), what the attempts area does with an admission
    (_attempt_acquisition.py), handed over by the kernel (_step.py), and the request ledger
    (_request_ledger.py, _request_forward.py, _dispatch_episode.py): the durable record of every
    request the core sends out, from its registration (_step.py) through dispatch, answers,
    retries, cancellation and closing.

    The coordinator of asynchronous operations (src/libs/vs-async-ops) keeps a durable record of
    each operation and runs it in a task: one operation per concurrency key at a time, within a
    bound on what is in flight, with cancellation, bounded waits, recovery of what a restart left
    and a close that ends on proof. Its model is concurrent: coroutines on an event loop.

    The evaluation ledger (src/libs/vs-slurm, src/libs/vs-sandbox slurm_ledger.py) records what every
    run of a project asked the cluster to evaluate, by the content of the request: an attempt is
    claimed, its job submitted, and its end recorded, by a compare-and-swap each, while leases say which
    run still wants it; runs attach to each other's jobs, sweep those nobody leases, and operators
    withdraw requests. Its model is concurrent too: processes over one store, which share nothing
    else, fail anywhere and read clocks of which nothing is assumed. Under it the cluster port (cluster.py,
    cluster_store.py, remote_operations.py, and what they call of runner.py) submits a job once under an
    identity its caller chose, finds it again and cancels it, by processes that share the cluster and,
    those of one state root, a cache. What a job did is inferred from squeue and sacct
    (scheduler_states.py, scheduler_read.py).

    ** How the code is modelled

    A Python function is a Rocq function. A function that can raise returns [result A]: [Ok] with
    the value, or [Err] with the exception; [let*] sequences calls and [raise e when c in k] is an
    early [raise]. A frozen or validated model class is a [Record]; assigning a field of a model
    with [validate_assignment] is a record update followed by that model's check, and
    [model_validate(x.model_dump())] runs the field constraints of every nested model again. A
    method that changes its object and can raise is a [SE S A]: an exception keeps the changes made
    before it ([let!]). A flow (an [async] function of the search) is a [Flow E A] over the
    environment [E]: it ends with a value or is cut short by a failure of the job, the operator's
    stop or an exception ([do x <- m ;; k]); what the framework answers it is the class [FlowCtx],
    and the theorems hold for every instance of it. Code that runs on asyncio (the coordinator) is a
    [coro]: it runs without interruption between its waits, a schedule ([Move]) says which task goes
    on, how its wait ends and who is cancelled, and a theorem holds for every schedule. What the
    code knows of its caller (a lock's holder, the tasks a lock entry counts, those the semaphore
    admitted) is named in the state; what the ports saw (writes, events, calls of the runner or the
    cluster) is recorded there. The processes of the ledger and of the cluster port are coroutines as
    well: a schedule interleaves them at every call of the store or the cluster, a call may fail before
    its effect or on the way back (Processes.v), and a process that the schedule leaves alone has died.
    Dicts are [gmap]s where order is irrelevant and association lists where it is not. A Python
    [int] is a [Z], a [str] is the list of its code points ([pystr]) and a [float] is a
    binary64 [float] of the kernel (Floats.v), so comparisons, rounding, overflow and NaN are
    those of the program. [sorted] is a stable insertion sort ([sort_by]). A regular expression is
    a [re] decided by derivatives and specified by its language (Regex.v), or a scanner written
    out where a match is not anchored. Deep copies of an immutable model are the model itself: the
    code clones before it mutates or hands out, so no claim depends on aliasing.

    ** Files, in dependency order

    - Prelude.v: strings, exceptions, the error monads, record update, list and sorting lemmas.
    - Floats.v: binary64 operations, the order on finite floats, exactness of the sign of a
      difference, two-decimal formatting.
    - Metrics.v (metrics.py): objectives, [compare] under a relative tolerance, [dominates],
      [frontier], [best], [compare_to_best].
    - Plan.v (plan.py): plans, strategy updates, skills, validators, titles.
    - History.v (history.py): round records, review normalization, portable JSON, rollback bases.
    - Focus.v (profile_focus/{state,config,focus,results}.py): components, [observe], [record],
      [focus].
    - State.v (state.py): measurements, hypotheses, the run aggregate and all their validators.
    - Notices.v (notices.py): the typed notices handed to prompts.
    - Iteration.v (run/contracts.py): iteration nodes, validation of a tree, [from_nodes].
    - Evidence.v (transitions.py): resolution, baselines, retention, the Pareto archive, the final
      candidate, plateau detection, terminal notices.
    - Transitions.v (transitions.py): the operations on the aggregate; the step relation
      [transition] and [reachable].
    - Policy.v (config.py, cadence.py, ending.py, results.py, search.py): the facade
      [HypothesisSearch].
    - Records.v (attempts.py, record.py): [build_round_record].
    - Rounds.v (rounds.py, reviewed.py): the serial ledger and its step relation [ledger_step].
    - ReadModel.v (readmodel.py): views and projections.
    - Regex.v: regular expressions, matching by derivatives, anchored search.
    - Redactor.v (vs-redaction _patterns.py, _stream.py, api): the streaming redactor, the
      redaction of a complete text; [reference] says character by character what the stream does,
      [hidden] what has to be hidden.
    - Issues.v (vs-issue-tracker core.py, policy.py, format.py): the board over a storage
      interface ([BoardStore]), the memory and the file store, the filing policy; [specified] is
      the specification of every request.
    - IssueThreads.v (core.py): the same requests in steps ([program], [program_performs]), which the
      threads of a board take in any order under its lock.
    - BoardOwner.v (_issue_board_operations.py, operations.py): keyed operations over a tracker
      interface ([IssueTracker], [TrackerLaws]), with the fault hooks of fake.py ([Faulty]).
    - BoardTitle.v (issue_queue/search/_board.py): the title of the first issue.
    - IssueQueue.v (issue_queue/search/): board readings, configuration and budget, keyed writes,
      the queue and its decisions, the flows of a job, an evaluation, the rounds and the search.
    - QueueRuns.v: a context that records the events of a run, the rules of what a flow emits, and
      the properties of whole runs.

    - CoreValues.v (vs-core types/): the values of the core that admission reads.
    - CoreProofs.v (_proofs.py, _adoption.py): receipts, the committed stop, the admission budget,
      the occupied episode, the adoption fence.
    - WaitClock.v (_wait_clock.py, parts of _request_ledger.py and _request_recovery.py): when waits
      and records end.
    - Requests.v (_proofs.py, _deadlines.py, _dispatch_episode.py): the proofs about requests, their
      limits, and whether a request still belongs to the episode that may send it.
    - RequestLedger.v (_request_ledger.py, _request_forward.py, _step.py): registration, the seven
      events of the ledger ([advance_record]) and the signals each fact sends to its owner.
    - LedgerSteps.v: the transitions of one record ([record_step]); every event is made of them.
    - LedgerRuns.v: runs of the ledger ([run_ledger]); closed records, retries, answers.
    - LedgerCascade.v: what a failure closes, and why closing it ends.
    - LedgerExample.v: a small run of the ledger, evaluated, at which those theorems are
      instantiated.
    - Scheduling.v (scheduling.py): every event of the area ([schedule]) and what it admits.
    - Admission.v: whole runs of the area ([scheduled], [ran]) and their properties.
    - Attempts.v (_attempt_acquisition.py, _step.py): registration and acquisition of a start.
    - AdmissionPath.v: scheduling, kernel and attempts area composed.
    - AdmissionExample.v: a small run, evaluated, at which those theorems are instantiated.

    - Coroutines.v: coroutines, tasks, cancellation, deadlines, [finish] of vs-async-ops settling.py;
      rely-guarantee reasoning ([wp]) and its soundness over schedules ([run_moves_ok]).
    - Operations.v (models.py, testing.py of vs-async-ops): policies, records and their validation, the
      store, and [follows], how a record may go on.
    - Coordinator.v (coordinator.py, [AsyncCloseOnce] of vs-sim release.py): the state and the methods.
    - CoordinatorLogic.v: the invariant ([inv]), what a task relies on ([rely], [kept]), and the steps
      of the methods that keep both; CoordinatorTasks.v and CoordinatorCalls.v: a triple for every
      method, up to [body_ok].
    - CoordinatorRuns.v: what every schedule of a coordinator guarantees.
    - CoordinatorExample.v: schedules, evaluated, at which those theorems are instantiated, and
      schedules at whose end the coordinator does not do what it means to.

    - Processes.v: calls of outside code that may fail before their effect or on the way back, and the rules
      for programs made of them ([does]).
    - SlurmStates.v (scheduler_states.py, scheduler_read.py, runner.py's [inspect_job]): the life of a job
      as its rows are read, the frame of a whole answer, and the reading of one job.
    - SlurmTypes.v (runner.py, cluster_types.py): requests, handles, results and outcomes of the cluster,
      with their validators.
    - EvalLedger.v (ledger.py): names and documents of the ledger, the state machine of an attempt
      ([check_transition]), settlement, leases and claims, what a submission does ([submit_step]).
    - EvalStore.v (fake_ledger.py, whose documents ledger_store.py keeps as files): the shared store and
      what is seen of the cluster ([Ledger]), reading and writing it.
    - EvalProcs.v (ledger_actions.py, slurm_ledger.py): every operation of a run or an operator, whole.
    - EvalLogic.v: what always holds of the store ([EvalLogic.inv]), that it only grows ([grows]), and the
      steps that keep both; EvalTriples.v: a triple for every operation.
    - EvalRuns.v: what every schedule of a project's processes guarantees.
    - Formats.v: text forms that read back, of which the codecs of the examples are made.
    - EvalExample.v: a codec that reads back what it writes, schedules, evaluated, at which those theorems
      are instantiated, and schedules that show their limits.
    - ClusterPort.v (cluster.py, cluster_store.py, remote_operations.py, runner.py): operations, the state
      roots and the files on the cluster ([Cluster]), and every call of a cluster, whole.
    - ClusterLogic.v: what always holds of a cluster ([ClusterLogic.inv]), what a process relies on
      ([ClusterLogic.rely]: nobody else submits for it, or gives up what it may submit), the steps that keep
      both; ClusterTriples.v and ClusterCalls.v: a triple for every operation, up to [call_ok].
    - ClusterRuns.v: what every schedule of a cluster's processes guarantees.
    - ClusterExample.v: schedules, evaluated, at which those theorems are instantiated, and schedules
      that show what the port does not do.

    A strategy calls Rounds.v; Rounds.v builds a record (Records.v) and asks the facade
    (Policy.v) for the next state; the facade composes the transitions (Transitions.v), which
    project each round's evidence (Evidence.v) and validate the aggregate (State.v). The flows of
    IssueQueue.v ask the owner (BoardOwner.v) through the context, the owner asks the tracker
    (Issues.v), and both interfaces are discharged by instances: [board_tracker_laws] for any
    store with [BoardStoreLaws], [memory_store_laws] and [file_store_laws] for the two stores.
    Names follow the source; a class whose name is taken has a trailing underscore
    ([Hypothesis_]), a field shared by two classes has a prefix, and a function defined in two
    files is qualified by its file.

    ** What the theorems show

    - Trust boundary. In a reachable state a hypothesis is proven only on a reviewed, passed,
      official reading the framework measured itself (Transitions), and the record builder
      cannot retain, compare or prove anything else (Records, Rounds, ReadModel). An issue's
      candidate is kept only when a judge's turn passed that very revision, and an issue is closed
      only when one passed what it was closed with ([kept_on_the_judges_word]).
    - The specification of the aggregate is [settled]: the state is valid and every summary
      of a hypothesis equals the replay of its rounds from nothing ([summarized]). Every
      operation preserves it, appending and starting are characterized exactly, and a run can be
      opened again: in its own metric space without effect, in another with the same rounds, once
      and for all ([reopening_is_safe]). That pydantic reads a stored document as what was written is
      not claimed: of a float that is no number, for one, it does not.
    - The tracker implements its specification: the threads of one board, however their steps
      interleave, are answered as one board in memory would answer them one at a time, and so are
      clients of a file that take turns ([threads_refine_memory], [clients_refine_memory]; boards of
      one file that do not take turns can lose an issue), the data stay well formed, an unreadable
      store is never overwritten, and a batch of keyed changes lands exactly once however often a
      fault interrupts it ([interrupted_batches_land_once]), given distinct keys, which the
      search's batches have ([batch_keys_distinct], [change_keys_say_the_job]).
    - Whole runs of the issue queue, for any framework, board and agents: they end, stay inside
      the configured budget, settle every workspace they open before the next, build each job on
      the last kept candidate and adopt it.
    - Admission. Whatever events arrive, what is occupied stays within the run's limits, requests
      are admitted first-in first-out and as soon as they can be, an episode is released and
      accounted once, and a stop drains ([capacity_kept], [admissions_in_arrival_order],
      [admission_is_greedy], [released_once], [stop_drains]). Scheduling and the attempts area, which
      decide separately, agree: an accepted start registers within one budget and an admitted start
      acquires ([accepted_start_registers], [admitted_start_acquires]).
    - The request ledger. Over any run a request is closed once and for good, an answer counts by its
      sequence, a request goes out again after failures at most as often as its limit says, and a
      failure closes, through every level of dependents, what waited on it; the recursion that
      does so ends ([closed_for_good], [answers_by_sequence], [resends_bounded],
      [failures_close_dependents], [cascade_terminates]).
    - The coordinator. However its tasks interleave, whoever is cancelled and however the store and
      the runner fail: calls of the runner are serialized per key and bounded
      ([runs_are_serialized]), a record only moves on and an operation runs at most once and only
      after it was recorded running ([records_only_move_on]), one that ended in the queue never
      runs ([ended_in_queue_never_runs]), nothing starts after the close and nothing is left
      after the release ([closed_admission_is_final]), and what a method answered is true and
      stays true ([answers_are_true]).
    - The evaluation ledger. Whatever processes of a project do, in whatever order, wherever they stop and
      whatever the cluster answers: a stored revision never changes, an attempt's revisions follow its
      state machine, and an attempt begins only when the one before has failed or was withdrawn
      ([attempts_are_histories]); the job of an attempt is submitted by the run that holds its claim
      alone ([one_run_submits]); it is settled on evidence ([settled_on_evidence], and [settlement_exact]
      says which); before an attempt that was not completed is recorded as withdrawn its job was reported
      ended or a cancel of it acknowledged, and a cancel outside a withdrawal is asked for only under an
      attempt on record as failed or withdrawn ([withdrawn_on_the_schedulers_word]); and what a process
      answers is on record ([replies_are_recorded]).
    - The cluster port. Whatever processes submit, inspect and cancel, from whatever state roots, and wherever
      their commands fail or they die: an operation has at most one job, and none once its rejection is
      recorded ([submitted_once]), nor if it was cancelled before it was published
      ([tombstone_stands]); and what a call answers is so: the job of the operation, a reading of it, the
      mark on the cluster with the job scancelled or seen to end ([cluster_answers_are_so]), so that
      all who are told their submission succeeded are told of one job ([submissions_agree]). Since the
      ledger gives every attempt an operation of its own, processes that submit one attempt at the
      same moment (which [equal_claims_both_submit] shows they can) start one job.
    - Readings of the scheduler. Folding any sequence of readings computes [SlurmStates.reference], the
      first ending that no earlier reading has overtaken or else the furthest reading of the newest
      attempt ([observe_computes_reference]); an answer cut off anywhere is refused
      ([cut_answers_refused]); and a job's reading says what some whole answer said
      ([inspect_says_what_was_read]).
    - Redaction. However the text is cut into fragments the stream computes [Redactor.reference]
      ([stream_reference]), which hides exactly what has to be hidden where secret names and the word
      bearer do not meet ([stream_computes_reference]); it holds a bounded buffer, and its output does
      not depend on the characters of a redacted value.
    - Decisions. The resolution table, causal baselines, the Pareto frontier and the final
      candidate, retention, plateau warnings, pending claims, terminal notices, rollback bases,
      parentage and the queue's decisions are each characterized on every branch.
    - Budgets. Review cadence, the official schedule, continuation leases, the focus
      plateau, the issues an evaluation files and a title's length are bounded.
    - The read model exists exactly when every round can be shown, and shows one entry per round.
    - Some theorems record behaviour that differs from what the code intends or documents:
      [final_candidate_can_be_lost], [abandoned_can_return], [unparsed_round_unresolved], the
      two status columns of [run_view_exact], [seal_is_overwritten],
      [stream_leaks_what_text_hides], [evaluations_stay_within_cap], [cancellation_can_deadlock],
      [final_write_can_wake_nobody], [cancelled_submit_strands_its_record],
      [unstarted_task_blocks_every_close], [deadline_waits_for_the_execution],
      [late_lease_is_withdrawn], [equal_claims_both_submit], [tombstone_hides_job],
      [rejected_although_submitted], [two_boards_lose_an_issue] and [pools_held_once] (a pool is held
      exclusively whatever capacity the limits give it).

    ** Parameters, fuel and bounds

    Code that is not in the repository, and effects, are parameters: pydantic's codecs (the class
    [JsonCodec] for the two ledger documents of Rounds.v, [BoardCodec] for the board's file, the
    record adapter in History.v, the dumped projection in ReadModel.v, [model_dump_json] of the
    replies and [repr] of a key in IssueQueue.v), the SHA-256 digest of a tree's canonical JSON
    (Iteration.v), [str.lower] and the non-ASCII word characters of Python's Unicode tables, the
    decoding of payloads and the texts of templates (BoardOwner.v), the sinks of lifecycle events
    (Coordinator.v; the runner, the waiter and the failures of the store are choices of the schedule), the canonical dump of a command
    or a request and its SHA-256 ([Digests], CoreProofs.v), the framework ([FlowCtx]), the JSON of the
    ledger's documents ([LedgerCodec], EvalLedger.v), and the cluster's answers, the clocks, the names and
    policies of the runs and the directories of their machines (EvalProcs.v), and, of the cluster port, the
    JSON of an operation ([OperationCodec]), the scheduler's names and what it prints ([SbatchLaw],
    [ListingLaw]), the digest of a request's trees, their staging and what is collected
    (ClusterPort.v). What is relied on is stated as a named hypothesis or as a class of laws, and
    discharged in a witness by a concrete function or instance.
    Recursion is structural except for decimal printing, whose fuel is the bit length
    ([nat_str_value] shows it suffices), the parent walk of a tree, whose fuel is one more
    than the number of ids ([walk_total]), the substitution of bold text ([bold_sub_fuel]), the
    substitution of assignments in a complete text, which consumes a character at every step, and
    the closing of dependents ([apply]: one more than there are records, [cascade_terminates]), and
    the loop of the rounds, for which the configured jobs and two more passes are enough
    ([run_ends]), and the loop of [wait_result], followed for any number of turns its call names (a
    turn is a wait for an event; after the last one the task waits for good). Exactness of [compare] and everything resting on it is stated for a zero
    tolerance or for finite readings as its hypotheses say; the behaviour under a positive
    tolerance is what [final_candidate_can_be_lost] is about.

    ** Not modelled

    profile_focus/attribution.py (parsing a profiler's output), the decoded evidence readings at
    the end of metrics.py, the tracker's GitHub adapter and agent session, failures of the write of a
    board's file (one step, the rename) and a change callback that calls its board, prompt rendering, the
    snapshots from which a restarted flow resumes, the refusal of a settlement inside the
    framework ([x_settle] answers what was retained in the end), and everything outside these
    packages: agent turns, sandboxes, servers and clients are effects around this core. Of
    vs-core, the recovery of open requests after a restart (_request_recovery.py, the other half of
    the records area, which never writes what a closed record holds), sessions, evaluation jobs,
    settlement, retirement and the kernel's transaction loop are not modelled; nor is the serial
    search. Of the Slurm library, transports, job scripts, file staging and the collection of results,
    requests of a single job (batches are modelled), the ledger's listing, the shell commands that keep
    it on a remote file system, and the SHA-256 digests from which a request's key and the scheduler's
    names are made are not modelled: they are process and file I/O around the ledger and the port. In the
    port's example schedules a lock may pass from a process that has died; its theorems allow it to pass
    at any time. Of asyncio, the order in which ready tasks go on is left to the
    schedule, which also admits schedules the event loop would not choose: what is proved holds for
    more than the program does, and the schedules of CoordinatorExample.v follow the loop. *)
From Stdlib Require Export ZArith Lia String Ascii Bool Sorting.Sorted.
From stdpp Require Export base list gmap sorting.

Open Scope Z_scope.

(** ** Python strings: sequences of code points *)

Abbreviation pystr := (list N).

(** A literal of the source, written as ASCII. *)
Definition py (s : string) : pystr := map N_of_ascii (list_ascii_of_string s).
Arguments py _%_string.

Definition pystr_eqb (a b : pystr) : bool := bool_decide (a = b).

Lemma pystr_eqb_true (a b : pystr) : pystr_eqb a b = true <-> a = b.
Proof. unfold pystr_eqb. apply bool_decide_eq_true. Qed.

Lemma pystr_eqb_refl (a : pystr) : pystr_eqb a a = true.
Proof. by apply pystr_eqb_true. Qed.

(** Truthiness of a [str] and of a [str | None]. *)
Definition str_truthy (s : pystr) : bool := match s with [] => false | _ => true end.
Definition opt_str_truthy (s : option pystr) : bool :=
  match s with Some s => str_truthy s | None => false end.
(** [a or b] on [str | None]. *)
Definition str_or (a b : option pystr) : option pystr := if opt_str_truthy a then a else b.

(** Code points for which [str.isspace] holds ([str.strip] and [str.split] without
    arguments use this set). *)
Definition is_space (c : N) : bool :=
  let z := Z.of_N c in
  ((9 <=? z) && (z <=? 13)) || ((28 <=? z) && (z <=? 32)) || (z =? 133) || (z =? 160)
  || (z =? 5760) || ((8192 <=? z) && (z <=? 8202)) || (z =? 8232) || (z =? 8233)
  || (z =? 8239) || (z =? 8287) || (z =? 12288).

Fixpoint lstrip_by (p : N -> bool) (s : pystr) : pystr :=
  match s with
  | [] => []
  | c :: s' => if p c then lstrip_by p s' else s
  end.
Definition rstrip_by (p : N -> bool) (s : pystr) : pystr := rev (lstrip_by p (rev s)).
Definition strip (s : pystr) : pystr := rstrip_by is_space (lstrip_by is_space s).

(** [s.split()]: the maximal runs of non-whitespace; [word] is the run being read, reversed. *)
Fixpoint split_words (s : pystr) (word : pystr) : list pystr :=
  match s with
  | [] => if str_truthy word then [rev word] else []
  | c :: s' =>
      if is_space c then (if str_truthy word then [rev word] else []) ++ split_words s' []
      else split_words s' (c :: word)
  end.

(** [" ".join(words)]. *)
Fixpoint join_space (words : list pystr) : pystr :=
  match words with
  | [] => []
  | [w] => w
  | w :: ws => w ++ 32%N :: join_space ws
  end.

(** The characters [str.splitlines] ends a line at. *)
Definition is_line_break (c : N) : bool :=
  let z := Z.of_N c in
  ((10 <=? z) && (z <=? 13)) || ((28 <=? z) && (z <=? 30)) || (z =? 133) || (z =? 8232)
  || (z =? 8233).

(** [s.splitlines()]; [line] is the line being read, reversed. *)
Fixpoint splitlines (line s : pystr) : list pystr :=
  match s with
  | [] => if str_truthy line then [rev line] else []
  | c :: s =>
      if is_line_break c then
        rev line :: match s with
                    | d :: s' => if ((c =? 13) && (d =? 10))%N then splitlines [] s' else splitlines [] s
                    | [] => splitlines [] s
                    end
      else splitlines (c :: line) s
  end.

(** [s.split(sep)] for one character. *)
Fixpoint split_on (sep : N) (s : pystr) : list pystr :=
  match s with
  | [] => [[]]
  | c :: s' =>
      match split_on sep s' with
      | part :: parts => if N.eqb c sep then [] :: part :: parts else (c :: part) :: parts
      | [] => []
      end
  end.
Lemma lstrip_by_idem p s : lstrip_by p (lstrip_by p s) = lstrip_by p s.
Proof. induction s as [|c s IH]; simpl; [done|]. destruct (p c) eqn:E; simpl; [done|]. by rewrite E. Qed.

Lemma lstrip_by_id p s : (forall c s', s = c :: s' -> p c = false) -> lstrip_by p s = s.
Proof. destruct s as [|c s]; simpl; intros H; [done|]. by rewrite (H c s). Qed.

Lemma lstrip_by_head p s c s' : lstrip_by p s = c :: s' -> p c = false.
Proof. induction s as [|d s IH]; simpl; [done|]. destruct (p d) eqn:E; [done|]. by intros [= <- <-]. Qed.

Lemma rstrip_by_idem p s : rstrip_by p (rstrip_by p s) = rstrip_by p s.
Proof. unfold rstrip_by. by rewrite rev_involutive, lstrip_by_idem. Qed.

(** Dropping a suffix keeps the first character. *)
Lemma rstrip_by_prefix p s : exists t, s = rstrip_by p s ++ t.
Proof.
  unfold rstrip_by. enough (H : exists t, rev (rev s) = rev (lstrip_by p (rev s)) ++ t)
    by by rewrite rev_involutive in H.
  generalize (rev s) as l. induction l as [|c l [t IH]]; simpl; [by exists []|].
  destruct (p c); simpl.
  - exists (t ++ [c]). by rewrite IH at 1; rewrite <- app_assoc.
  - exists []. by rewrite app_nil_r.
Qed.

Lemma strip_idem s : strip (strip s) = strip s.
Proof.
  unfold strip. rewrite (lstrip_by_id _ (rstrip_by _ _)); [apply rstrip_by_idem|].
  intros c s' H. destruct (rstrip_by_prefix is_space (lstrip_by is_space s)) as [t Ht].
  rewrite H in Ht. simpl in Ht. by apply lstrip_by_head in Ht.
Qed.

(** Decimal rendering of an [int]. *)
Fixpoint digits_fuel (fuel : nat) (n : N) (acc : pystr) : pystr :=
  match fuel with
  | O => acc
  | S fuel' =>
      let acc' := (48 + n mod 10)%N :: acc in
      if (n <? 10)%N then acc' else digits_fuel fuel' (n / 10)%N acc'
  end.
(** A decimal digit per binary digit is enough fuel. *)
Definition nat_str (n : N) : pystr := digits_fuel (S (N.to_nat (N.size n))) n [].
Definition int_str (z : Z) : pystr :=
  if z <? 0 then 45%N :: nat_str (Z.to_N (- z)) else nat_str (Z.to_N z).

(** The digits read back: rendering is injective on the naturals. *)
Definition digits_value (n : N) (s : pystr) : N := foldl (fun a c => a * 10 + (c - 48))%N n s.

Lemma digits_fuel_value fuel n acc :
  (n < 10 ^ N.of_nat fuel)%N -> digits_value 0 (digits_fuel fuel n acc) = digits_value n acc.
Proof.
  revert n acc. induction fuel as [|fuel IH]; intros n acc Hn; simpl.
  { simpl in Hn. by replace n with 0%N by lia. }
  pose proof (N.div_mod n 10 ltac:(done)) as Hdiv.
  pose proof (N.mod_lt n 10 ltac:(done)) as Hmod.
  destruct (N.ltb_spec n 10) as [Hlt|Hge].
  - unfold digits_value. cbn [foldl]. f_equal. rewrite N.mod_small by done. lia.
  - rewrite IH; [|rewrite Nat2N.inj_succ, N.pow_succ_r' in Hn; apply N.Div0.div_lt_upper_bound; lia].
    unfold digits_value. cbn [foldl]. f_equal.
    revert Hdiv Hmod. clear. generalize (n / 10)%N, (n mod 10)%N. intros q r ? ?. lia.
Qed.

Lemma nat_str_value n : digits_value 0 (nat_str n) = n.
Proof.
  unfold nat_str. rewrite digits_fuel_value; [done|].
  rewrite Nat2N.inj_succ, N2Nat.id, N.pow_succ_r'.
  pose proof (N.size_gt n). pose proof (N.pow_le_mono_l 2 10 (N.size n) ltac:(done)). lia.
Qed.

Lemma digits_fuel_digits fuel n acc :
  Forall (fun c => 48 <= c <= 57)%N acc -> Forall (fun c => 48 <= c <= 57)%N (digits_fuel fuel n acc).
Proof.
  revert n acc. induction fuel as [|fuel IH]; intros n acc Hacc; simpl; [done|].
  pose proof (N.mod_lt n 10 ltac:(done)).
  assert (Forall (fun c => 48 <= c <= 57)%N ((48 + n mod 10)%N :: acc)) by (constructor; [|done]; revert H; generalize (n mod 10)%N; lia).
  destruct (n <? 10)%N; auto.
Qed.

(** A natural's decimal text holds no separator. *)
Lemma int_str_digits z c : 0 <= z -> (c < 48 \/ 57 < c)%N -> c ∉ int_str z.
Proof.
  intros Hz Hc. unfold int_str. destruct (Z.ltb_spec z 0); [lia|].
  intros Hin. pose proof (digits_fuel_digits (S (N.to_nat (N.size (Z.to_N z)))) (Z.to_N z) [] (Forall_nil_2 _)) as H0.
  apply (proj1 (Forall_forall _ _) H0) in Hin. lia.
Qed.

(** A list is read back up to its first separator. *)
Lemma separated_inj {A} (c : A) s1 s2 t1 t2 :
  c ∉ s1 -> c ∉ s2 -> s1 ++ c :: t1 = s2 ++ c :: t2 -> s1 = s2 /\ t1 = t2.
Proof.
  revert s2. induction s1 as [|x s1 IH]; intros [|y s2] H1 H2; simpl; intros Heq; simplify_eq;
    rewrite ?elem_of_cons in *; [done|tauto..|].
  destruct (IH s2) as [-> ->]; tauto.
Qed.

Lemma int_str_inj a b : 0 <= a -> 0 <= b -> int_str a = int_str b -> a = b.
Proof.
  intros Ha Hb. unfold int_str.
  destruct (Z.ltb_spec a 0); [lia|]. destruct (Z.ltb_spec b 0); [lia|].
  intros Heq%(f_equal (digits_value 0)). rewrite !nat_str_value in Heq. lia.
Qed.

(** ** Exceptions and fallible computations

    [ValueError] carries the template of the source's message and the values the
    f-string interpolates; [ValidationError] is pydantic's subclass of [ValueError], raised by
    a field constraint or by a model validator. *)

Inductive arg :=
| AStr (s : pystr)
| AInt (z : Z).

Inductive exn :=
| ValueError (template : string) (args : list arg)
| ValidationError (template : string)
| TypeError (template : string)
| AssertionError
| KeyError (key : pystr)
| StopIteration
| OtherError (class : string) (args : list arg).

(** [except ValueError] also catches pydantic's [ValidationError]. *)
Definition is_value_error (e : exn) : bool :=
  match e with ValueError _ _ | ValidationError _ => true | _ => false end.

Inductive result (A : Type) :=
| Ok (a : A)
| Err (e : exn).
Arguments Ok {A} a.
Arguments Err {A} e.

Definition bind {A B} (m : result A) (k : A -> result B) : result B :=
  match m with Ok a => k a | Err e => Err e end.

Declare Scope py_scope.
Delimit Scope py_scope with py.
Notation "'let*' x := m 'in' k" := (bind m (fun x => k))
  (at level 10, x pattern, m at level 100, k at level 200) : py_scope.
(** [if c: raise e] followed by the rest of the body. *)
Notation "'raise' e 'when' c 'in' k" := (if c then Err e else k)
  (at level 10, e at level 0, c at level 100, k at level 200) : py_scope.
Open Scope py_scope.

Lemma bind_Ok {A B} (m : result A) (k : A -> result B) b :
  bind m k = Ok b <-> exists a, m = Ok a /\ k a = Ok b.
Proof. destruct m; simpl; split; [eauto| |done|]; by intros (? & [= ] & ?); subst. Qed.

Lemma guard_Ok {A} (c : bool) e (k : result A) b :
  (if c then Err e else k) = Ok b <-> c = false /\ k = Ok b.
Proof. destruct c; split; [done|by intros [??]|done|by intros [??]]. Qed.

Definition is_ok {A} (m : result A) : bool := match m with Ok _ => true | Err _ => false end.
Definition opt_all {A} (p : A -> bool) (x : option A) : bool :=
  match x with Some x => p x | None => true end.

(** Run [f] on each element in order and stop at the first exception. *)
Fixpoint mapM_result {A B} (f : A -> result B) (l : list A) : result (list B) :=
  match l with
  | [] => Ok []
  | x :: l' => let* y := f x in let* ys := mapM_result f l' in Ok (y :: ys)
  end.

Fixpoint foldM_result {A S} (f : S -> A -> result S) (s : S) (l : list A) : result S :=
  match l with
  | [] => Ok s
  | x :: l' => let* s' := f s x in foldM_result f s' l'
  end.

Lemma foldM_result_app {A S} (f : S -> A -> result S) s l1 l2 :
  foldM_result f s (l1 ++ l2) = bind (foldM_result f s l1) (fun s' => foldM_result f s' l2).
Proof. revert s. induction l1 as [|x l1 IH]; intros s; simpl; [done|]. by destruct (f s x); simpl. Qed.

Lemma mapM_result_id {A} (f : A -> result A) l :
  Forall (fun x => f x = Ok x) l -> mapM_result f l = Ok l.
Proof. induction 1 as [|x l Hx _ IH]; simpl; [done|]. by rewrite Hx; simpl; rewrite IH. Qed.

Lemma mapM_result_map {A B} (f : A -> result B) (g : A -> B) l :
  (forall x, x ∈ l -> f x = Ok (g x)) -> mapM_result f l = Ok (map g l).
Proof.
  induction l as [|x l IH]; intros H; simpl; [done|].
  rewrite (H x) by (by left). simpl. rewrite IH; [done|]. intros y Hy. apply H. by right.
Qed.

Lemma mapM_result_inv {A B} (f : A -> result B) l l' :
  mapM_result f l = Ok l' -> Forall2 (fun x y => f x = Ok y) l l'.
Proof.
  revert l'. induction l as [|x l IH]; intros l'; simpl; [by intros [= <-]; constructor|].
  intros (y & Hy & (ys & Hys & [= <-])%bind_Ok)%bind_Ok. constructor; [done|by apply IH].
Qed.

(** Invert every successful step of a monadic body. *)
Ltac inv_ok :=
  repeat match goal with
  | H : bind _ _ = Ok _ |- _ => apply bind_Ok in H as (? & ? & ?)
  | H : (if _ then Err _ else _) = Ok _ |- _ => apply guard_Ok in H as [? ?]
  | H : Ok _ = Ok _ |- _ => injection H as H; subst
  | H : Err _ = Ok _ |- _ => discriminate H
  end.

(** ** Stateful code that can raise

    [SE S A] is a method on an object of state [S]: an exception keeps the changes made before
    it was raised. *)

Definition SE (S A : Type) : Type := S -> result A * S.
Definition se_ret {S A} (a : A) : SE S A := fun s => (Ok a, s).
Definition se_raise {S A} (e : exn) : SE S A := fun s => (Err e, s).
Definition se_get {S A} (f : S -> A) : SE S A := fun s => (Ok (f s), s).
Definition se_modify {S} (f : S -> S) : SE S unit := fun s => (Ok tt, f s).
Definition se_lift {S A} (m : result A) : SE S A := fun s => (m, s).
Definition se_bind {S A B} (m : SE S A) (k : A -> SE S B) : SE S B := fun s =>
  match m s with
  | (Ok a, s') => k a s'
  | (Err e, s') => (Err e, s')
  end.
Notation "'let!' x := m 'in' k" := (se_bind m (fun x => k))
  (at level 10, x pattern, m at level 100, k at level 200) : py_scope.

(** ** Codecs

    Pydantic's JSON dump and validation of a type. *)
Class JsonCodec (A : Type) := {
  dump_json : A -> pystr;
  validate_json : pystr -> result A
}.

(** ** Record update: [r <| field := v |>]

    A record type declares its eta expansion once; the setter of a field is found by
    abstracting that projection in the expansion. *)

Class Eta (R : Type) := eta : R -> R.
Class Setter {R T : Type} (proj : R -> T) := upd : T -> R -> R.
Arguments upd {R T} proj {_} v r /.

Ltac derive_setter :=
  match goal with
  | |- @Setter ?R ?T ?proj =>
      let e := constr:(_ : Eta R) in
      let b := eval hnf in e in
      let v := fresh "v" in
      let r := fresh "r" in
      intros v r;
      let body := eval cbv beta in (b r) in
      match eval pattern (proj r) in body with
      | ?g _ => let t := eval cbv beta in (g v) in exact t
      end
  end.
#[export] Hint Extern 1 (@Setter _ _ _) => derive_setter : typeclass_instances.
Notation "r <| p := v |>" := (upd p v r) (at level 1, left associativity) : py_scope.

(** ** Lists *)

(** [next((i for i, x in enumerate(l) if p(x)), None)]. *)
Fixpoint find_index {A} (p : A -> bool) (l : list A) : option nat :=
  match l with
  | [] => None
  | x :: l' => if p x then Some O else option_map S (find_index p l')
  end.

Lemma find_index_Some {A} (p : A -> bool) l i :
  find_index p l = Some i <->
  (exists x, l !! i = Some x /\ p x = true) /\ (forall j x, (j < i)%nat -> l !! j = Some x -> p x = false).
Proof.
  revert i. induction l as [|x l IH]; intros i; simpl.
  - split; [done|]. intros [(x & H & _) _]. by rewrite lookup_nil in H.
  - destruct (p x) eqn:E.
    + split.
      * intros [= <-]. split; [by exists x|]. lia.
      * intros [_ H]. destruct i as [|i]; [done|]. by rewrite (H O x) in E by (done || lia).
    + destruct i as [|i]; simpl.
      * split; [by destruct (find_index p l)|]. intros [(y & [= <-] & H) _]. congruence.
      * transitivity (find_index p l = Some i); [destruct (find_index p l); naive_solver|].
        rewrite IH. split; intros [H1 H2]; (split; [done|]).
        -- intros [|j] y Hj Hy; simpl in Hy; [congruence|]. apply (H2 j); [lia|done].
        -- intros j y Hj Hy. apply (H2 (S j)); [lia|done].
Qed.

Lemma find_index_None {A} (p : A -> bool) l :
  find_index p l = None <-> forall x, x ∈ l -> p x = false.
Proof.
  induction l as [|x l IH]; simpl.
  - split; [by intros _ x ?%not_elem_of_nil|done].
  - destruct (p x) eqn:E; [split; [done|]; intros H; by rewrite H in E by set_solver|].
    destruct (find_index p l); simpl.
    + split; [done|]. intros H. assert (Some n = None) by (apply IH; set_solver). done.
    + split; [|done]. intros _ y [-> | Hy]%elem_of_cons; [done|]. by apply IH.
Qed.

Lemma find_index_lookup {A} (p : A -> bool) l i :
  find_index p l = Some i -> exists x, l !! i = Some x /\ find p l = Some x.
Proof.
  revert i. induction l as [|x l IH]; intros i; simpl; [done|].
  destruct (p x); [intros [= <-]; by exists x|].
  destruct (find_index p l) as [j|]; simpl; [|done]. intros [= <-]. simpl. by apply IH.
Qed.

(** [next((x for x in reversed(l) if p(x)), None)]. *)
Definition find_last {A} (p : A -> bool) (l : list A) : option A := find p (rev l).

(** [l[-1]] of a list that may be empty. *)
Definition last_opt {A} (l : list A) : option A := last l.

(** Membership in [map] and in the boolean [filter]. *)
Lemma elem_of_map {A B} (f : A -> B) l y : y ∈ map f l <-> exists x, y = f x /\ x ∈ l.
Proof. exact (list_elem_of_fmap f l y). Qed.

Lemma elem_of_map_1 {A B} (f : A -> B) l x : x ∈ l -> f x ∈ map f l.
Proof. intros H. apply elem_of_map. eauto. Qed.

Lemma elem_of_filter {A} (p : A -> bool) l x : x ∈ List.filter p l <-> x ∈ l /\ p x = true.
Proof. by rewrite !list_elem_of_In, filter_In. Qed.

(** [rounds == sorted(set(rounds))]: strictly increasing. *)
Fixpoint strictly_increasing (l : list Z) : bool :=
  match l with
  | [] => true
  | x :: l' =>
      match l' with [] => true | y :: _ => x <? y end && strictly_increasing l'
  end.

Lemma strictly_increasing_spec l : strictly_increasing l = true <-> StronglySorted Z.lt l.
Proof.
  induction l as [|x l IH]; simpl; [split; [constructor|done]|].
  rewrite andb_true_iff, IH. split.
  - intros [H Hs]. constructor; [done|]. destruct l as [|y l]; [constructor|].
    apply Z.ltb_lt in H. apply StronglySorted_inv in Hs as [_ Hall].
    constructor; [done|]. eapply Forall_impl; [exact Hall|]. simpl. lia.
  - intros [Hs Hall]%StronglySorted_inv. split; [|done]. destruct l as [|y l]; [done|].
    apply Z.ltb_lt. by apply (Forall_inv Hall).
Qed.

Lemma strictly_increasing_snoc l x :
  strictly_increasing (l ++ [x]) = true <->
  strictly_increasing l = true /\ (forall y, y ∈ l -> y < x).
Proof.
  induction l as [|y l IH]; simpl.
  - split; [|done]. intros _. split; [done|]. by intros y ?%not_elem_of_nil.
  - rewrite !andb_true_iff, IH. split.
    + intros (Hy & Hl & Hlt). split_and!; [|done|].
      * destruct l; [done|exact Hy].
      * intros z [-> | Hz]%elem_of_cons; [|auto]. destruct l as [|w l]; simpl in Hy; [lia|].
        apply Z.ltb_lt in Hy. specialize (Hlt w). set_solver by lia.
    + intros ((Hy & Hl) & Hlt). split_and!; [|done|set_solver].
      destruct l as [|w l]; simpl; [|done]. apply Z.ltb_lt, Hlt. set_solver.
Qed.

(** Python [<=] on strings: lexicographic by code point. *)
Fixpoint pystr_leb (a b : pystr) : bool :=
  match a, b with
  | [], _ => true
  | _ :: _, [] => false
  | c :: a', d :: b' => (c <? d)%N || ((c =? d)%N && pystr_leb a' b')
  end.

Lemma pystr_leb_total a b : pystr_leb a b = true \/ pystr_leb b a = true.
Proof.
  revert b. induction a as [|c a IH]; intros [|d b]; simpl; [auto..|].
  destruct (N.ltb_spec c d), (N.ltb_spec d c), (N.eqb_spec c d), (N.eqb_spec d c); simpl; auto; lia.
Qed.

Lemma pystr_leb_trans a b c : pystr_leb a b = true -> pystr_leb b c = true -> pystr_leb a c = true.
Proof.
  revert b c. induction a as [|x a IH]; intros [|y b] [|z c]; simpl; try done.
  rewrite !orb_true_iff, !andb_true_iff, !N.ltb_lt, !N.eqb_eq. intros [?|[-> ?]] [?|[-> ?]].
  - left. lia.
  - by left.
  - by left.
  - right. split; [done|]. by eapply IH.
Qed.

Lemma pystr_leb_antisym a b : pystr_leb a b = true -> pystr_leb b a = true -> a = b.
Proof.
  revert b. induction a as [|x a IH]; intros [|y b]; simpl; try done.
  rewrite !orb_true_iff, !andb_true_iff, !N.ltb_lt, !N.eqb_eq. intros [?|[-> ?]] [?|[? ?]]; try lia.
  f_equal. by apply IH.
Qed.

(** [d[k] = v] and [d.pop(k, None)] of an insertion-ordered dict. *)
Fixpoint dict_set {V} (k : pystr) (v : V) (d : list (pystr * V)) : list (pystr * V) :=
  match d with
  | [] => [(k, v)]
  | (k', v') :: d' => if pystr_eqb k' k then (k', v) :: d' else (k', v') :: dict_set k v d'
  end.
Fixpoint dict_pop {V} (k : pystr) (d : list (pystr * V)) : option V * list (pystr * V) :=
  match d with
  | [] => (None, [])
  | (k', v') :: d' =>
      if pystr_eqb k' k then (Some v', d')
      else let '(v, d'') := dict_pop k d' in (v, (k', v') :: d'')
  end.

(** A dict filled with distinct keys in order. *)
Lemma dict_set_fresh {V} k (v : V) d : k ∉ map fst d -> dict_set k v d = d ++ [(k, v)].
Proof.
  induction d as [|[k' v'] d IH]; simpl; intros H; [done|].
  unfold pystr_eqb. rewrite bool_decide_false by set_solver. rewrite IH by set_solver. done.
Qed.

Lemma dict_of_list {A} (key : A -> pystr) (l : list A) (d : list (pystr * A)) :
  NoDup (map fst d ++ map key l) ->
  fold_left (fun d x => dict_set (key x) x d) l d = d ++ map (fun x => (key x, x)) l.
Proof.
  revert d. induction l as [|x l IH]; intros d Hd; simpl; [by rewrite app_nil_r|].
  simpl in Hd. rewrite dict_set_fresh.
  - rewrite IH, <- app_assoc; [done|]. rewrite map_app, <- app_assoc. done.
  - apply NoDup_app in Hd as (_ & H & _). intros Hk. apply (H (key x) Hk). set_solver.
Qed.

Lemma dict_pop_of_list {A} (key : A -> pystr) (l : list A) k :
  NoDup (map key l) ->
  dict_pop k (map (fun x => (key x, x)) l)
  = (find (fun x => pystr_eqb (key x) k) l,
     map (fun x => (key x, x)) (List.filter (fun x => negb (pystr_eqb (key x) k)) l)).
Proof.
  induction l as [|x l IH]; simpl; intros Hl; [done|]. apply NoDup_cons in Hl as [Hx Hl].
  destruct (pystr_eqb (key x) k) eqn:E; simpl.
  - apply pystr_eqb_true in E. subst k. do 2 f_equal.
    clear IH Hl. induction l as [|y l IH]; simpl; [done|].
    unfold pystr_eqb at 1. rewrite bool_decide_false by set_solver. simpl.
    rewrite <- IH by set_solver. done.
  - by rewrite IH.
Qed.

(** [len(set(l)) == len(l)]. *)
Fixpoint nodupb {A} `{EqDecision A} (l : list A) : bool :=
  match l with
  | [] => true
  | x :: l' => negb (bool_decide (x ∈ l')) && nodupb l'
  end.

Lemma nodupb_spec {A} `{EqDecision A} (l : list A) : nodupb l = true <-> NoDup l.
Proof.
  induction l as [|x l IH]; simpl; [split; [constructor|done]|].
  rewrite andb_true_iff, IH, negb_true_iff, bool_decide_eq_false, NoDup_cons. done.
Qed.

Lemma elem_of_snoc {A} (l : list A) (x y : A) : y ∈ l ++ [x] <-> y ∈ l \/ y = x.
Proof. by rewrite elem_of_app, list_elem_of_singleton. Qed.

Lemma filter_split {A} (p : A -> bool) l l1 x l2 :
  List.filter p l = l1 ++ x :: l2 ->
  exists before after, l = before ++ x :: after /\ List.filter p before = l1.
Proof.
  revert l1. induction l as [|y l IH]; intros l1; simpl; [by destruct l1|].
  destruct (p y) eqn:Hp.
  - destruct l1 as [|z l1]; simpl; intros [= -> Hl]; [by exists [], l|].
    destruct (IH l1 Hl) as (b & a & -> & Hb). exists (z :: b), a. simpl. by rewrite Hp, Hb.
  - intros Hl. destruct (IH l1 Hl) as (b & a & -> & Hb). exists (y :: b), a. simpl. by rewrite Hp.
Qed.

Lemma NoDup_map_inj {A B} (f : A -> B) l x y :
  NoDup (map f l) -> x ∈ l -> y ∈ l -> f x = f y -> x = y.
Proof.
  induction l as [|z l IH]; simpl; [by intros _ ?%not_elem_of_nil|].
  intros [Hz Hl]%NoDup_cons. rewrite !elem_of_cons.
  intros [-> | Hx] [-> | Hy] E; [done| | |by apply IH].
  - exfalso. apply Hz. rewrite E. by apply elem_of_map_1.
  - exfalso. apply Hz. rewrite <- E. by apply elem_of_map_1.
Qed.

(** [x] is the last member of [l] that satisfies [p]. *)
Definition latest_such {A} (p : A -> bool) (l : list A) (x : A) : Prop :=
  exists pre post, l = pre ++ x :: post /\ p x = true /\ forall y, y ∈ post -> p y = false.

Lemma latest_such_last {A} (p : A -> bool) l x : p x = true -> latest_such p (l ++ [x]) x.
Proof. intros Hx. exists l, []. split_and!; [done|done|]. by intros y ?%not_elem_of_nil. Qed.

Lemma latest_such_skip {A} (p : A -> bool) l x y :
  p y = false -> latest_such p l x -> latest_such p (l ++ [y]) x.
Proof.
  intros Hy (pre & post & -> & Hx & Hpost). exists pre, (post ++ [y]).
  split_and!; [by rewrite <- app_assoc|done|]. intros z [Hz| ->]%elem_of_snoc; auto.
Qed.

Lemma find_None_elem {A} (p : A -> bool) l : find p l = None <-> forall x, x ∈ l -> p x = false.
Proof.
  induction l as [|x l IH]; simpl; [split; [by intros _ y ?%not_elem_of_nil|done]|].
  destruct (p x) eqn:E.
  - split; [done|]. intros H. rewrite (H x) in E by set_solver. done.
  - rewrite IH. split; [|set_solver]. intros H y [-> | ?]%elem_of_cons; auto.
Qed.

Lemma find_Some_elem {A} (p : A -> bool) l x : find p l = Some x -> x ∈ l /\ p x = true.
Proof. intros [H ?]%find_some. by apply list_elem_of_In in H. Qed.

Lemma sublist_List_filter {A} (p : A -> bool) l : sublist (List.filter p l) l.
Proof. induction l as [|x l IH]; simpl; [constructor|]. by destruct (p x); constructor. Qed.

Lemma sublist_map {A B} (f : A -> B) l1 l2 : sublist l1 l2 -> sublist (map f l1) (map f l2).
Proof. induction 1; simpl; by constructor. Qed.

Lemma sublist_Forall {A} (P : A -> Prop) l1 l2 : sublist l1 l2 -> Forall P l2 -> Forall P l1.
Proof. intros H. rewrite !Forall_forall. intros HP x Hx. apply HP. by eapply elem_of_sublist. Qed.

(** Filters that keep all, none, or the same elements. *)
Lemma List_filter_all {A} (p : A -> bool) l : (forall x, x ∈ l -> p x = true) -> List.filter p l = l.
Proof.
  induction l as [|x l IH]; simpl; [done|]. intros H. rewrite (H x) by set_solver. f_equal. apply IH. set_solver.
Qed.

Lemma List_filter_none {A} (p : A -> bool) l : (forall x, x ∈ l -> p x = false) -> List.filter p l = [].
Proof.
  induction l as [|x l IH]; simpl; [done|]. intros H. rewrite (H x) by set_solver. apply IH. set_solver.
Qed.

Lemma length_List_filter {A} (p : A -> bool) l x : x ∈ l -> p x = false -> (length (List.filter p l) < length l)%nat.
Proof.
  induction l as [|y l IH]; simpl; [set_solver|]. intros [->|Hin]%elem_of_cons Hx.
  - rewrite Hx. pose proof (sublist_length _ _ (sublist_List_filter p l)). lia.
  - destruct (p y); simpl; specialize (IH Hin Hx); lia.
Qed.

Lemma existsb_find {A} (p : A -> bool) l : existsb p l = true -> exists x, find p l = Some x.
Proof. induction l as [|x l IH]; simpl; [done|]. destruct (p x); [by exists x|done]. Qed.

Lemma find_split {A} (p : A -> bool) l x : find p l = Some x -> p x = true /\ exists l1 l2, l = l1 ++ x :: l2.
Proof.
  intros H. apply find_Some_elem in H as [Hin Hp]. split; [done|]. by apply list_elem_of_split in Hin.
Qed.

Lemma List_filter_ext {A} (p q : A -> bool) l : (forall x, p x = q x) -> List.filter p l = List.filter q l.
Proof. intros H. induction l as [|x l IH]; simpl; [done|]. by rewrite H, IH. Qed.

Lemma List_filter_true {A} (l : list A) : List.filter (fun _ => true) l = l.
Proof. induction l as [|x l IH]; simpl; by rewrite ?IH. Qed.

Lemma find_last_Some {A} (p : A -> bool) l x : find_last p l = Some x <-> latest_such p l x.
Proof.
  unfold find_last, latest_such. induction l as [|y l IH] using rev_ind.
  - split; [done|]. by intros ([|] & ? & [=] & _).
  - rewrite rev_app_distr. simpl. destruct (p y) eqn:E.
    + split.
      * intros [= <-]. exists l, []. split_and!; [done|done|]. by intros z ?%not_elem_of_nil.
      * intros (pre & post & Hl & Hp & Hpost). destruct post as [|z post] using rev_ind.
        { by apply app_inj_tail in Hl as [_ ->]. }
        rewrite app_comm_cons, app_assoc in Hl. apply app_inj_tail in Hl as [_ ->].
        rewrite Hpost in E; [done|]. set_solver.
    + rewrite IH. split.
      * intros (pre & post & -> & Hp & Hpost). exists pre, (post ++ [y]).
        rewrite <- app_assoc. split_and!; [done|done|].
        intros z [?| ->]%elem_of_snoc; [by apply Hpost|done].
      * intros (pre & post & Hl & Hp & Hpost). destruct post as [|z post] using rev_ind.
        { apply app_inj_tail in Hl as [_ ->]. congruence. }
        rewrite app_comm_cons, app_assoc in Hl. apply app_inj_tail in Hl as [-> ->].
        exists pre, post. split_and!; [done|done|]. set_solver.
Qed.

Lemma find_last_None {A} (p : A -> bool) l :
  find_last p l = None <-> forall x, x ∈ l -> p x = false.
Proof.
  unfold find_last. rewrite find_None_elem. split; intros H x Hx; apply H.
  - by rewrite list_elem_of_In, <- in_rev, <- list_elem_of_In.
  - by rewrite list_elem_of_In, in_rev, <- list_elem_of_In.
Qed.

Lemma latest_such_elem {A} (p : A -> bool) l x : latest_such p l x -> x ∈ l /\ p x = true.
Proof. intros (pre & post & -> & ? & _). split; [set_solver|done]. Qed.

(** Looking in a filtered list is looking for both conditions. *)
Lemma find_last_filter {A} (p q : A -> bool) l :
  find_last p (List.filter q l) = find_last (fun x => q x && p x) l.
Proof.
  unfold find_last. rewrite <- filter_rev. induction (rev l) as [|x l' IH]; simpl; [done|].
  destruct (q x); simpl; [by destruct (p x)|done].
Qed.

Lemma last_find_last {A} (l : list A) : last_opt l = find_last (fun _ => true) l.
Proof.
  unfold last_opt, find_last. destruct l as [|x l] using rev_ind; [done|].
  by rewrite last_snoc, rev_app_distr.
Qed.

(** Stable insertion sort: Python's [sorted] for a total preorder [le] on the keys. *)
Section Sort.
Context {A : Type} (le : A -> A -> bool).

Fixpoint insert_sorted (x : A) (l : list A) : list A :=
  match l with
  | [] => [x]
  | y :: l' => if le x y then x :: l else y :: insert_sorted x l'
  end.
Definition sort_by (l : list A) : list A := foldr insert_sorted [] l.

Lemma insert_sorted_perm x l : insert_sorted x l ≡ₚ x :: l.
Proof.
  induction l as [|y l IH]; simpl; [done|]. destruct (le x y); [done|].
  rewrite IH. constructor.
Qed.

Lemma sort_by_perm l : sort_by l ≡ₚ l.
Proof. induction l as [|x l IH]; simpl; [done|]. by rewrite insert_sorted_perm, IH. Qed.

Lemma elem_of_sort_by x l : x ∈ sort_by l <-> x ∈ l.
Proof. by rewrite sort_by_perm. Qed.

Context (le_total : forall x y, le x y = true \/ le y x = true).
Context (le_trans : forall x y z, le x y = true -> le y z = true -> le x z = true).

Lemma insert_sorted_sorted x l :
  StronglySorted (fun a b => le a b = true) l ->
  StronglySorted (fun a b => le a b = true) (insert_sorted x l).
Proof.
  induction 1 as [|y l Hs IH Hall]; simpl; [by repeat constructor|].
  destruct (le x y) eqn:E.
  - constructor; [by constructor|]. constructor; [done|].
    eapply Forall_impl; [exact Hall|]. intros z Hz. by apply (le_trans _ y).
  - constructor; [done|]. rewrite insert_sorted_perm. constructor; [|done].
    destruct (le_total x y); congruence.
Qed.

Lemma sort_by_sorted l : StronglySorted (fun a b => le a b = true) (sort_by l).
Proof. induction l; simpl; [constructor|]. by apply insert_sorted_sorted. Qed.

(** The head of the sorted list is the first minimal element. *)
Lemma head_sort_by l x :
  head (sort_by l) = Some x ->
  exists l1 l2, l = l1 ++ x :: l2 /\ (forall y, y ∈ l -> le x y = true)
                /\ (forall y, y ∈ l1 -> le y x = false).
Proof.
  assert (forall y, le y y = true) as Hrefl by (intros y; by destruct (le_total y y)).
  revert x. induction l as [|y l IH]; intros x; simpl; [done|].
  destruct (sort_by l) as [|z s] eqn:Hs; simpl.
  - intros [= <-]. pose proof (sort_by_perm l) as Hp. rewrite Hs in Hp.
    apply Permutation_nil_l in Hp. subst l. exists [], []. split_and!; [done| |by intros ? ?%elem_of_nil].
    by intros w ->%list_elem_of_singleton.
  - destruct (IH z eq_refl) as (l1 & l2 & -> & Hmin & Hfirst).
    destruct (le y z) eqn:Hyz; intros [= <-].
    + exists [], (l1 ++ z :: l2). split_and!; [done| |by intros ? ?%elem_of_nil].
      intros w [->|Hw]%elem_of_cons; [done|]. by apply (le_trans _ z), Hmin.
    + exists (y :: l1), l2. split_and!; [done| |].
      * intros w [->|Hw]%elem_of_cons; [|by apply Hmin].
        destruct (le_total y z); congruence.
      * intros w [->|Hw]%elem_of_cons; [done|by apply Hfirst].
Qed.

Lemma head_sort_by_None l : head (sort_by l) = None -> l = [].
Proof.
  intros H. pose proof (sort_by_perm l) as Hp. destruct (sort_by l); [|done].
  by apply Permutation_nil_l in Hp.
Qed.

(** Sorting is determined by the contents when distinct members have distinct keys. *)
Lemma sort_by_unique l1 l2 :
  (forall x y, x ∈ l1 -> y ∈ l1 -> le x y = true -> le y x = true -> x = y) ->
  StronglySorted (fun a b => le a b = true) l1 -> l2 ≡ₚ l1 -> sort_by l2 = l1.
Proof.
  intros Hanti Hs Hp.
  apply (StronglySorted_unique_strong (fun a b => le a b = true)); [|apply sort_by_sorted|done|].
  - intros x y Hx Hy. rewrite elem_of_sort_by, Hp in Hx. by apply Hanti.
  - by rewrite sort_by_perm.
Qed.

Lemma sort_by_id l : StronglySorted (fun a b => le a b = true) l -> sort_by l = l.
Proof.
  induction 1 as [|y l Hs IH Hall]; simpl; [done|]. rewrite IH.
  destruct l as [|z l]; simpl; [done|]. by rewrite (Forall_inv Hall).
Qed.
End Sort.
