(* ===== verification/Floats.v ===== *)
(** Python [float]: IEEE 754 binary64, as the executable specification [SpecFloat] of the
    standard library computes it (round to nearest even), with the order facts and the sign
    facts about subtraction and multiplication that metric comparison rests on. *)
From Stdlib Require Import SpecFloat.
From S2P Require Import Prelude.

Abbreviation float := spec_float.

(** ** Operations at binary64 *)

Definition f_zero : float := S754_zero false.
Definition f_add : float -> float -> float := SFadd 53 1024.
Definition f_sub : float -> float -> float := SFsub 53 1024.
Definition f_mul : float -> float -> float := SFmul 53 1024.
Definition f_div : float -> float -> float := SFdiv 53 1024.
Definition f_opp : float -> float := SFopp.
Definition f_abs : float -> float := SFabs.
(** [float(z)]. *)
Definition f_of_Z (z : Z) : float := binary_normalize 53 1024 z 0 false.

Definition f_lt : float -> float -> bool := SFltb.
Definition f_le : float -> float -> bool := SFleb.
Definition f_eq : float -> float -> bool := SFeqb.
(** [a > b] and [a >= b] evaluate as [b < a] and [b <= a]. *)
Definition f_gt (a b : float) : bool := f_lt b a.
Definition f_ge (a b : float) : bool := f_le b a.

Definition f_is_nan (x : float) : bool := match x with S754_nan => true | _ => false end.
(** [math.isfinite]. *)
Definition f_finite (x : float) : bool :=
  match x with S754_zero _ | S754_finite _ _ _ => true | _ => false end.
(** The bit patterns binary64 has. *)
Definition f_valid : float -> bool := valid_binary 53 1024.

(** [x == y] between the members of two containers: identity first, then [==]. A NaN of a
    copied container is the same object, so it compares equal there. *)
Definition f_same (x y : float) : bool := f_eq x y || (f_is_nan x && f_is_nan y).

#[export] Instance float_eq_dec : EqDecision float.
Proof. intros x y. unfold Decision. decide equality; apply bool_dec || apply Pos.eq_dec || apply Z.eq_dec. Defined.

(** Builtin [max] and [min] of a nonempty list: the first extreme wins. *)
Definition f_max (x : float) (l : list float) : float :=
  fold_left (fun acc y => if f_gt y acc then y else acc) l x.
Definition f_min (x : float) (l : list float) : float :=
  fold_left (fun acc y => if f_lt y acc then y else acc) l x.

(** ** Fixed-point formatting: [f"{x:.2f}"] *)

(** [|m * 2^e * 100|] rounded to the nearest integer, ties to even. *)
Definition hundredths (m : Z) (e : Z) : Z :=
  if 0 <=? e then m * 2 ^ e * 100
  else
    let d := 2 ^ (- e) in
    let q := (m * 100) / d in
    let r := (m * 100) mod d in
    match 2 * r ?= d with
    | Lt => q
    | Gt => q + 1
    | Eq => if Z.even q then q else q + 1
    end.
Definition format_hundredths (neg : bool) (h : Z) : pystr :=
  (if neg then [45%N] else []) ++ int_str (h / 100) ++ [46%N]
  ++ int_str ((h mod 100) / 10) ++ int_str (h mod 10).
Definition format_2f (x : float) : pystr :=
  match x with
  | S754_nan => py "nan"
  | S754_infinity s => if s then py "-inf" else py "inf"
  | S754_zero s => format_hundredths s 0
  | S754_finite s m e => format_hundredths s (hundredths (Zpos m) e)
  end.

(** ** Order *)

Lemma compare_cont_eq m n : Pos.compare_cont Eq m n = Pos.compare m n.
Proof. done. Qed.

Lemma SFcompare_antisym x y :
  SFcompare y x = option_map CompOpp (SFcompare x y).
Proof.
  destruct x as [[]|[]| |[] m e], y as [[]|[]| |[] n f]; simpl; try done;
    rewrite (Z.compare_antisym e f), ?compare_cont_eq, (Pos.compare_antisym m n);
    destruct (e ?= f); simpl; try done; by destruct (m ?= n)%positive.
Qed.

(** The key of a number: [SFcompare] is the lexicographic order on it. *)
Definition f_key (x : float) : option (Z * Z * Z) :=
  match x with
  | S754_nan => None
  | S754_infinity s => Some (if s then -2 else 2, 0, 0)
  | S754_zero _ => Some (0, 0, 0)
  | S754_finite s m e => Some (if s then (-1, - e, Zneg m) else (1, e, Zpos m))
  end.
Definition key_compare (a b : Z * Z * Z) : comparison :=
  let '(a1, a2, a3) := a in
  let '(b1, b2, b3) := b in
  match a1 ?= b1 with
  | Eq => match a2 ?= b2 with Eq => a3 ?= b3 | c => c end
  | c => c
  end.

Lemma SFcompare_key x y :
  SFcompare x y =
  match f_key x, f_key y with Some a, Some b => Some (key_compare a b) | _, _ => None end.
Proof.
  destruct x as [[]|[]| |[] m e], y as [[]|[]| |[] n f]; try done; cbn -[Z.compare].
  change (-1 ?= -1) with Eq. cbv iota. rewrite Z.compare_opp, (Z.compare_antisym e f).
  by destruct (e ?= f).
Qed.

Lemma key_lt_trans a b c :
  key_compare a b = Lt -> key_compare b c = Lt -> key_compare a c = Lt.
Proof.
  destruct a as [[a1 a2] a3], b as [[b1 b2] b3], c as [[c1 c2] c3]; unfold key_compare.
  destruct (Z.compare_spec a1 b1), (Z.compare_spec b1 c1), (Z.compare_spec a1 c1); try lia; try done;
  destruct (Z.compare_spec a2 b2), (Z.compare_spec b2 c2), (Z.compare_spec a2 c2); try lia; try done;
  rewrite !Z.compare_lt_iff; lia.
Qed.

Lemma key_compare_eq a b : key_compare a b = Eq -> a = b.
Proof.
  destruct a as [[a1 a2] a3], b as [[b1 b2] b3]; unfold key_compare.
  destruct (Z.compare_spec a1 b1), (Z.compare_spec a2 b2), (Z.compare_spec a3 b3);
    by try congruence.
Qed.

Lemma f_lt_key x y :
  f_lt x y = true <-> exists a b, f_key x = Some a /\ f_key y = Some b /\ key_compare a b = Lt.
Proof.
  unfold f_lt, SFltb. rewrite SFcompare_key.
  destruct (f_key x) as [a|], (f_key y) as [b|]; split; try done; try by intros (?&?&?&?&?).
  - destruct (key_compare a b) eqn:E; try done. by exists a, b.
  - intros (a' & b' & [= <-] & [= <-] & ->). done.
Qed.

Lemma f_lt_trans x y z : f_lt x y = true -> f_lt y z = true -> f_lt x z = true.
Proof.
  rewrite !f_lt_key. intros (a & b & Ha & Hb & H1) (b' & c & Hb' & Hc & H2).
  rewrite Hb in Hb'. injection Hb' as <-. exists a, c. by eauto using key_lt_trans.
Qed.

Lemma f_lt_asym x y : f_lt x y = true -> f_lt y x = false.
Proof. unfold f_lt, SFltb. rewrite (SFcompare_antisym x y). by destruct (SFcompare x y) as [[]|]. Qed.

Lemma f_lt_irrefl x : f_lt x x = false.
Proof. destruct (f_lt x x) eqn:E; [|done]. by rewrite (f_lt_asym _ _ E) in E. Qed.

(** Strictly below something that is not above: a mixed transitivity through [negb lt]. *)
Lemma f_lt_le_trans x y z :
  f_lt x y = true -> f_is_nan z = false -> f_lt z y = false -> f_lt x z = true.
Proof.
  unfold f_lt, SFltb. rewrite !SFcompare_key. intros H Hz Hle.
  destruct (f_key x) as [a|] eqn:Ha, (f_key y) as [b|] eqn:Hb; try done.
  destruct (f_key z) as [c|] eqn:Hc; [|by destruct z].
  destruct (key_compare a b) eqn:E; try done.
  assert (Hac : key_compare a c = Lt).
  { destruct (key_compare c b) eqn:E2; try done.
    - apply key_compare_eq in E2 as ->. done.
    - destruct a as [[a1 a2] a3], b as [[b1 b2] b3], c as [[c1 c2] c3]; unfold key_compare in *.
      destruct (Z.compare_spec a1 b1), (Z.compare_spec c1 b1), (Z.compare_spec a1 c1); try lia; try done;
      destruct (Z.compare_spec a2 b2), (Z.compare_spec c2 b2), (Z.compare_spec a2 c2); try lia; try done;
      rewrite Z.compare_lt_iff in *; rewrite Z.compare_gt_iff in *; lia. }
  by rewrite Hac.
Qed.

Lemma f_same_refl x : f_same x x = true.
Proof.
  unfold f_same, f_eq, SFeqb. rewrite SFcompare_key.
  destruct (f_key x) as [[[a b] c]|] eqn:E.
  - unfold key_compare. by rewrite !Z.compare_refl.
  - by destruct x.
Qed.

(** ** The sign of a rounded result

    Rounding to nearest never turns a nonzero integer multiple of a representable unit into
    zero: binary64 underflows gradually. *)

Lemma digits2_pos_bounds m :
  2 ^ (Zpos (digits2_pos m) - 1) <= Zpos m < 2 ^ (Zpos (digits2_pos m)).
Proof.
  induction m as [m IH|m IH|]; simpl digits2_pos; [| |done];
    rewrite Pos2Z.inj_succ, Z.pow_succ_r by lia;
    replace (Z.succ (Zpos (digits2_pos m)) - 1) with (Z.succ (Zpos (digits2_pos m) - 1)) by lia;
    rewrite Z.pow_succ_r by lia; lia.
Qed.

Lemma shr_1_nonneg mrs : 0 <= shr_m mrs -> shr_m (shr_1 mrs) = shr_m mrs / 2.
Proof.
  destruct mrs as [[|[p|p|]|p] r s]; simpl; intros H; try lia; try done.
  - rewrite Pos2Z.inj_xI, Z.mul_comm, Z.div_add_l by lia. rewrite (Z.div_small 1 2); lia.
  - rewrite Pos2Z.inj_xO, Z.mul_comm, Z.div_mul; lia.
Qed.

Lemma iter_shr_nonneg n mrs :
  0 <= shr_m mrs -> shr_m (SpecFloat.iter_pos shr_1 n mrs) = shr_m mrs / 2 ^ Zpos n.
Proof.
  revert mrs. induction n as [n IH|n IH|]; intros mrs H; simpl SpecFloat.iter_pos.
  - assert (H1 : 0 <= shr_m (shr_1 mrs)) by (rewrite shr_1_nonneg by done; apply Z.div_pos; lia).
    assert (H2 : 0 <= shr_m (SpecFloat.iter_pos shr_1 n (shr_1 mrs)))
      by (rewrite IH by done; apply Z.div_pos; lia).
    rewrite !IH, shr_1_nonneg, !Z.div_div by (done || lia). f_equal.
    replace (Zpos n~1) with (1 + Zpos n + Zpos n) by lia. rewrite !Z.pow_add_r by lia. change (2 ^ 1) with 2. lia.
  - assert (H2 : 0 <= shr_m (SpecFloat.iter_pos shr_1 n mrs))
      by (rewrite IH by done; apply Z.div_pos; lia).
    rewrite !IH, !Z.div_div by (done || lia). f_equal.
    replace (Zpos n~0) with (Zpos n + Zpos n) by lia. by rewrite Z.pow_add_r by lia.
  - by rewrite shr_1_nonneg by done.
Qed.

Lemma shr_fexp_pos m e l :
  0 < m -> emin 53 1024 <= e ->
  0 < shr_m (fst (shr_fexp 53 1024 m e l)) /\ emin 53 1024 <= snd (shr_fexp 53 1024 m e l).
Proof.
  intros Hm He. unfold shr_fexp.
  assert (Hr : shr_m (shr_record_of_loc m l) = m) by by destruct l as [|[]].
  destruct m as [|m|m]; try lia.
  pose proof (digits2_pos_bounds m) as [Hlo _].
  assert (Hk : fexp 53 1024 (Zdigits2 (Zpos m) + e) - e < Zpos (digits2_pos m))
    by (unfold fexp, emin in *; simpl Zdigits2; lia).
  unfold shr. destruct (fexp 53 1024 (Zdigits2 (Zpos m) + e) - e) as [|k|k] eqn:Ek; simpl fst; simpl snd; rewrite ?Hr; try (split; [lia|done]).
  rewrite iter_shr_nonneg, Hr by (rewrite Hr; lia). split; [|lia].
  apply Z.div_str_pos. split; [lia|].
  etransitivity; [|exact Hlo]. apply Z.pow_le_mono_r; lia.
Qed.

Lemma round_nearest_even_pos m l : 0 < m -> 0 < round_nearest_even m l.
Proof. intros H. destruct l as [|[]]; simpl; try lia. destruct (Z.even m); lia. Qed.

(** A positive real rounds to a positive float or to infinity, with the sign it came with. *)
Definition f_signed (s : bool) (x : float) : Prop :=
  match x with S754_finite t _ _ | S754_infinity t => t = s | _ => False end.

Lemma binary_round_aux_signed s m e l :
  0 < m -> emin 53 1024 <= e -> f_signed s (binary_round_aux 53 1024 s m e l).
Proof.
  intros Hm He. unfold binary_round_aux.
  pose proof (shr_fexp_pos m e l Hm He) as [H1 H2].
  destruct (shr_fexp 53 1024 m e l) as [mrs e']; simpl in H1, H2.
  pose proof (shr_fexp_pos (round_nearest_even (shr_m mrs) (loc_of_shr_record mrs)) e' loc_Exact
    (round_nearest_even_pos _ _ H1) H2) as [H3 _].
  destruct (shr_fexp _ _ _ e' _) as [mrs' e'']; simpl in H3.
  destruct (shr_m mrs') as [|p|p]; try lia. by destruct (e'' <=? 1024 - 53).
Qed.

Lemma shl_align_spec m e e' :
  Zpos (fst (shl_align m e e')) = Zpos m * 2 ^ (e - Z.min e e') /\
  snd (shl_align m e e') = Z.min e e'.
Proof.
  unfold shl_align. destruct (e' - e) as [|d|d] eqn:E; simpl.
  - split; [|lia]. replace (e - Z.min e e') with 0 by lia. lia.
  - split; [|lia]. replace (e - Z.min e e') with 0 by lia. lia.
  - split; [|lia]. replace (e - Z.min e e') with (Zpos d) by lia.
    clear E. induction d as [|d IH] using Pos.peano_ind; [simpl; lia|].
    rewrite Pos.iter_succ, Pos2Z.inj_xO, IH, Pos2Z.inj_succ, Z.pow_succ_r by lia. lia.
Qed.

Lemma binary_round_signed s d e :
  emin 53 1024 <= e -> f_signed s (binary_round 53 1024 s d e).
Proof.
  intros He. unfold binary_round.
  pose proof (shl_align_spec d e (fexp 53 1024 (Zpos (digits2_pos d) + e))) as [_ H2].
  destruct (shl_align _ _ _) as [mz ez]; simpl in H2. subst ez.
  apply binary_round_aux_signed; [lia|]. unfold fexp. lia.
Qed.

Lemma f_lt_zero_signed s x t : f_signed s x -> f_lt (S754_zero t) x = negb s.
Proof. destruct x as [?|[]| |[] m e]; simpl; intros H; try done; by subst s. Qed.

(** Canonical mantissas: comparing exponents first is comparing the numbers. *)
Lemma bounded_spec m e :
  SpecFloat.bounded 53 1024 m e = true ->
  emin 53 1024 <= e /\ Zpos m < 2 ^ 53 /\ (emin 53 1024 < e -> 2 ^ 52 <= Zpos m).
Proof.
  unfold SpecFloat.bounded, canonical_mantissa, fexp. rewrite andb_true_iff, Z.eqb_eq, Z.leb_le.
  intros [H _]. pose proof (digits2_pos_bounds m) as [H1 H2]. split; [lia|]. split.
  - eapply Z.lt_le_trans; [exact H2|]. apply Z.pow_le_mono_r; lia.
  - intros He. etransitivity; [|exact H1]. apply Z.pow_le_mono_r; lia.
Qed.

(** The integer a finite float stands for, in units of [2 ^ ez]. *)
Definition f_units (s : bool) (m : positive) (e ez : Z) : Z :=
  cond_Zopp s (Zpos m * 2 ^ (e - ez)).

Lemma f_lt_units s1 m1 e1 s2 m2 e2 ez :
  SpecFloat.bounded 53 1024 m1 e1 = true -> SpecFloat.bounded 53 1024 m2 e2 = true ->
  ez = Z.min e1 e2 ->
  f_lt (S754_finite s1 m1 e1) (S754_finite s2 m2 e2)
  = (f_units s1 m1 e1 ez <? f_units s2 m2 e2 ez).
Proof.
  intros B1 B2 ->. apply bounded_spec in B1 as (L1 & U1 & C1). apply bounded_spec in B2 as (L2 & U2 & C2).
  unfold f_lt, SFltb, SFcompare, f_units.
  pose proof (Z.pow_pos_nonneg 2 (e1 - Z.min e1 e2)) as P1.
  pose proof (Z.pow_pos_nonneg 2 (e2 - Z.min e1 e2)) as P2.
  assert (Hlt : forall m m' e e', emin 53 1024 <= e -> e < e' -> Zpos m < 2 ^ 53 ->
    2 ^ 52 <= Zpos m' -> Zpos m * 2 ^ (e - Z.min e e') < Zpos m' * 2 ^ (e' - Z.min e e')).
  { intros m m' e e' He Hee Hm Hm'. replace (e - Z.min e e') with 0 by lia.
    replace (e' - Z.min e e') with (1 + (e' - e - 1)) by lia.
    rewrite Z.pow_add_r by lia.
    pose proof (Z.pow_pos_nonneg 2 (e' - e - 1)). change (2 ^ 53) with (2 ^ 52 * 2) in Hm.
    change (2 ^ 0) with 1. change (2 ^ 1) with 2.
    set (k := 2 ^ (e' - e - 1)) in *. assert (0 < k) by lia. nia. }
  destruct s1, s2; cbn [cond_Zopp].
  - destruct (Z.compare_spec e1 e2) as [<-|H|H].
    + rewrite Z.min_id, Z.sub_diag, !Z.mul_1_r, compare_cont_eq.
      destruct (Pos.compare_spec m1 m2); simpl; symmetry; (apply Z.ltb_lt || apply Z.ltb_ge); subst; lia.
    + symmetry. apply Z.ltb_ge. specialize (Hlt m1 m2 e1 e2). lia.
    + symmetry. apply Z.ltb_lt. specialize (Hlt m2 m1 e2 e1). rewrite (Z.min_comm e2 e1) in Hlt. lia.
  - symmetry. apply Z.ltb_lt. nia.
  - symmetry. apply Z.ltb_ge. nia.
  - destruct (Z.compare_spec e1 e2) as [<-|H|H].
    + rewrite Z.min_id, Z.sub_diag, !Z.mul_1_r, compare_cont_eq.
      destruct (Pos.compare_spec m1 m2); simpl; symmetry; (apply Z.ltb_lt || apply Z.ltb_ge); subst; lia.
    + symmetry. apply Z.ltb_lt. specialize (Hlt m1 m2 e1 e2). lia.
    + symmetry. apply Z.ltb_ge. specialize (Hlt m2 m1 e2 e1). rewrite (Z.min_comm e2 e1) in Hlt. lia.
Qed.

Lemma binary_normalize_sign d e t :
  emin 53 1024 <= e ->
  f_lt (S754_zero t) (binary_normalize 53 1024 d e false) = (0 <? d) /\
  f_lt (binary_normalize 53 1024 d e false) (S754_zero t) = (d <? 0).
Proof.
  intros He. destruct d as [|d|d]; simpl binary_normalize; [by split| |];
    match goal with |- context [binary_round 53 1024 ?s d e] =>
      pose proof (binary_round_signed s d e He) as H end;
    destruct (binary_round _ _ _ _ _) as [?|[]| |[] ? ?]; simpl in H; by try done.
Qed.

(** [x - y > 0] decides [y < x] exactly, infinities and NaN included. *)
Lemma f_sub_sign x y t :
  f_valid x = true -> f_valid y = true ->
  f_lt (S754_zero t) (f_sub x y) = f_lt y x /\ f_lt (f_sub x y) (S754_zero t) = f_lt x y.
Proof.
  intros Vx Vy.
  destruct x as [s1|s1| |s1 m1 e1], y as [s2|s2| |s2 m2 e2];
    try (by repeat match goal with b : bool |- _ => destruct b end).
  simpl in Vx, Vy. rewrite (f_lt_units s1 m1 e1 s2 m2 e2 (Z.min e1 e2)) by done.
  rewrite (f_lt_units s2 m2 e2 s1 m1 e1 (Z.min e1 e2)) by (done || lia).
  apply bounded_spec in Vx as (L1 & _). apply bounded_spec in Vy as (L2 & _).
  unfold f_sub, SFsub.
  rewrite (proj1 (shl_align_spec m1 e1 _)), (proj1 (shl_align_spec m2 e2 _)).
  rewrite !(Z.min_r _ (Z.min e1 e2)) by lia. fold (f_units s1 m1 e1 (Z.min e1 e2)).
  fold (f_units s2 m2 e2 (Z.min e1 e2)).
  edestruct (binary_normalize_sign (f_units s1 m1 e1 (Z.min e1 e2) - f_units s2 m2 e2 (Z.min e1 e2))
    (Z.min e1 e2) t) as [-> ->]; [lia|].
  split; apply eq_true_iff_eq; rewrite !Z.ltb_lt; lia.
Qed.

(** A reading never differs from itself: [x - x] is zero or NaN. *)
Lemma f_sub_diag x : f_sub x x = S754_zero false \/ f_sub x x = S754_nan.
Proof.
  destruct x as [[]|[]| |[] m e]; try (by left); try (by right); left;
    unfold f_sub, SFsub; by rewrite Z.sub_diag.
Qed.

(** The tolerance [abs(y) * noise] of a non-negative noise is never below zero. *)
Definition f_nonneg (x : float) : Prop := f_lt x f_zero = false.

Lemma binary_round_aux_sign s m e l :
  match binary_round_aux 53 1024 s m e l with
  | S754_zero t | S754_infinity t | S754_finite t _ _ => t = s
  | S754_nan => True
  end.
Proof.
  unfold binary_round_aux. destruct (shr_fexp _ _ m e l) as [mrs e'].
  destruct (shr_fexp _ _ _ e' _) as [mrs' e'']. destruct (shr_m mrs'); try done.
  by destruct (e'' <=? 1024 - 53).
Qed.

Lemma f_mul_nonneg x y : f_nonneg x -> f_nonneg y -> f_nonneg (f_mul x y).
Proof.
  unfold f_nonneg. destruct x as [[]|[]| |[] m e], y as [[]|[]| |[] n f]; try done.
  intros _ _. unfold f_mul, SFmul.
  pose proof (binary_round_aux_sign false (Zpos (m * n)) (e + f) loc_Exact) as H.
  simpl xorb. destruct (binary_round_aux _ _ _ _ _ _); subst; done.
Qed.

Lemma f_abs_nonneg x : f_nonneg (f_abs x).
Proof. by destruct x. Qed.

Lemma f_lt_opp_nonneg t x : f_nonneg t -> f_lt x (f_opp t) = true -> f_lt t x = false.
Proof.
  intros Ht H. destruct t as [[]|[]| |[] m e], x as [[]|[]| |[] n f]; done.
Qed.

Lemma f_nonneg_lt_zero t x : f_nonneg t -> f_lt t x = true -> f_lt f_zero x = true.
Proof. intros Ht H. destruct t as [[]|[]| |[] m e], x as [[]|[]| |[] n f]; done. Qed.

Lemma f_nonneg_lt_opp_zero t x : f_nonneg t -> f_lt x (f_opp t) = true -> f_lt x f_zero = true.
Proof. intros Ht H. destruct t as [[]|[]| |[] m e], x as [[]|[]| |[] n f]; done. Qed.

(** A zero tolerance: [abs(y) * 0.0] is a zero for every finite [y]. *)
Lemma f_mul_zero x t : f_finite x = true -> exists s, f_mul (f_abs x) (S754_zero t) = S754_zero s.
Proof. destruct x as [s|s| |s m e]; try done; intros _; by eexists. Qed.

(** Decimal literals of the source, as the nearest binary64. *)
Definition f_five : float := f_of_Z 5.
Definition f_hundred : float := f_of_Z 100.
Definition f_two_hundredths : float := f_div (f_of_Z 2) (f_of_Z 100).

Create HintDb floats.
#[export] Hint Resolve f_mul_nonneg f_abs_nonneg f_same_refl f_lt_irrefl : floats.
