(* ===== verification/Metrics.v ===== *)
(** Metric spaces (src/vibesys/metrics.py): directed objective axes, the relative benchmark
    tolerance, and every comparison the hypothesis search makes with them: ordering two
    readings, the best reading of a history, Pareto dominance and the Pareto frontier. *)
From Stdlib Require Import SpecFloat.
From S2P Require Import Prelude Floats.

(** ** Data *)

Inductive Direction := Max | Min.
#[export] Instance Direction_eq_dec : EqDecision Direction.
Proof. solve_decision. Defined.
Definition direction_value (d : Direction) : pystr :=
  match d with Max => py "max" | Min => py "min" end.

Inductive MetricComparison := BETTER | WORSE | WITHIN_NOISE | INCOMPARABLE.
#[export] Instance MetricComparison_eq_dec : EqDecision MetricComparison.
Proof. solve_decision. Defined.

Record FrameworkBenchmarkOutcome := mk_FrameworkBenchmarkOutcome {
  fb_feedback : option pystr;
  fb_metric_name : option pystr;
  fb_metric_value : option float;
  fb_metric_direction : option Direction;
  fb_metric_unit : option pystr;
  fb_row : option (gmap pystr float)
}.

Record Objective := mk_Objective { o_name : pystr; o_direction : Direction }.

Record Measurement := mk_Measurement {
  m_metric : pystr;
  m_value : float;
  m_direction : option Direction
}.

Record MetricSpace := mk_MetricSpace { objectives : list Objective; relative_noise : float }.

Definition empty_space : MetricSpace := mk_MetricSpace [] f_zero.

(** ** Operations *)

Definition signed (o : Objective) (value : float) : float :=
  match o_direction o with Max => value | Min => f_opp value end.

(** The field constraint on [relative_noise] and the model validator on the axes. *)
Definition space_valid (s : MetricSpace) : bool :=
  f_finite (relative_noise s) && f_ge (relative_noise s) f_zero
  && f_lt (relative_noise s) (f_of_Z 1)
  && nodupb (map o_name (objectives s)).

Definition primary (s : MetricSpace) : option Objective := head (objectives s).

Definition axis (s : MetricSpace) (metric : option pystr) : option Objective :=
  match metric with
  | None => None
  | Some m => find (fun item => pystr_eqb (o_name item) m) (objectives s)
  end.

Definition signed_primary (s : MetricSpace) (value : float) : float :=
  match primary s with None => value | Some o => signed o value end.

Definition direction (s : MetricSpace) (measurement : option Measurement) : option Direction :=
  match measurement with
  | None => None
  | Some m =>
      match m_direction m with
      | Some d => Some d
      | None => option_map o_direction (axis s (Some (m_metric m)))
      end
  end.

(** The ordering of two readings on one axis, once direction and tolerance are resolved. *)
Definition compare_values (noise : float) (d : Direction) (candidate baseline : float)
  : MetricComparison :=
  let improvement :=
    match d with Max => f_sub candidate baseline | Min => f_sub baseline candidate end in
  let tolerance := f_mul (f_abs baseline) noise in
  if f_gt improvement tolerance then BETTER
  else if f_lt improvement (f_opp tolerance) then WORSE
  else WITHIN_NOISE.

Definition compare (s : MetricSpace) (candidate baseline : option Measurement)
  : MetricComparison :=
  match direction s candidate, candidate, baseline with
  | Some d, Some c, Some b =>
      if pystr_eqb (m_metric c) (m_metric b)
      then compare_values (relative_noise s) d (m_value c) (m_value b)
      else INCOMPARABLE
  | _, _, _ => INCOMPARABLE
  end.

Section Best.
Context {T : Type} (s : MetricSpace) (reading : T -> option Measurement).

Definition best_step (acc : option (T * Measurement)) (point : T)
  : option (T * Measurement) :=
  match reading point with
  | None => acc
  | Some item =>
      match direction s (Some item) with
      | None => acc
      | Some _ =>
          match acc with
          | None => Some (point, item)
          | Some (_, best_reading) =>
              match compare s (Some item) (Some best_reading) with
              | BETTER => Some (point, item)
              | _ => acc
              end
          end
      end
  end.

Definition best (points : list T) : option T :=
  option_map fst (fold_left best_step points None).
End Best.

Definition compare_to_best (s : MetricSpace) (candidate : option Measurement)
  (prior : list Measurement) : MetricComparison :=
  match candidate, direction s candidate with
  | Some c, Some _ =>
      match best s Some (List.filter (fun item => pystr_eqb (m_metric item) (m_metric c)) prior) with
      | None => BETTER
      | Some b => compare s candidate (Some b)
      end
  | _, _ => INCOMPARABLE
  end.

Definition reading_on (o : Objective) (row : gmap pystr float) : option Measurement :=
  match row !! o_name o with
  | None => None
  | Some value => Some (mk_Measurement (o_name o) value (Some (o_direction o)))
  end.

Fixpoint dominates_loop (s : MetricSpace) (axes : list Objective) (a b : gmap pystr float)
  (materially_better : bool) : bool :=
  match axes with
  | [] => materially_better
  | o :: axes' =>
      match compare s (reading_on o a) (reading_on o b) with
      | INCOMPARABLE | WORSE => false
      | BETTER => dominates_loop s axes' a b true
      | WITHIN_NOISE => dominates_loop s axes' a b materially_better
      end
  end.

Definition dominates (s : MetricSpace) (a b : gmap pystr float) : bool :=
  match objectives s with
  | [] => false
  | axes => dominates_loop s axes a b false
  end.

(** [other is not point] over a list of distinct objects compares positions. *)
Definition frontier {T : Type} (s : MetricSpace) (points : list T) (row : T -> gmap pystr float)
  : list T :=
  let indexed := combine (seq 0 (length points)) points in
  map snd
    (List.filter
       (fun '(i, point) =>
          negb (existsb (fun '(j, other) => negb (j =? i)%nat && dominates s (row other) (row point))
                  indexed))
       indexed).

Definition has_key (row : gmap pystr float) (k : pystr) : bool :=
  match row !! k with Some _ => true | None => false end.

Definition complete (s : MetricSpace) (row : gmap pystr float) : bool :=
  match objectives s with
  | [] => false
  | os => forallb (fun o => has_key row (o_name o)) os
  end.

(** ** Strict comparison: no tolerance, or no scale for one *)

Definition f_is_zero (x : float) : bool := match x with S754_zero _ => true | _ => false end.

(** A reading the comparison theorems speak about: a finite binary64. *)
Definition sound_value (x : float) : bool := f_finite x && f_valid x.

(** [x] is strictly better than [y] on an axis. *)
Definition better (d : Direction) (x y : float) : bool :=
  match d with Max => f_lt y x | Min => f_lt x y end.

Definition strict_comparison (d : Direction) (candidate baseline : float) : MetricComparison :=
  if better d candidate baseline then BETTER
  else if better d baseline candidate then WORSE
  else WITHIN_NOISE.

Lemma sound_value_spec x : sound_value x = true -> f_finite x = true /\ f_valid x = true.
Proof. unfold sound_value. by rewrite andb_true_iff. Qed.

Lemma sound_not_nan x : sound_value x = true -> f_is_nan x = false.
Proof. by destruct x. Qed.

Lemma better_trans d x y z : better d x y = true -> better d y z = true -> better d x z = true.
Proof. destruct d; simpl; eauto using f_lt_trans. Qed.

Lemma better_irrefl d x : better d x x = false.
Proof. destruct d; apply f_lt_irrefl. Qed.

Lemma better_asym d x y : better d x y = true -> better d y x = false.
Proof. destruct d; apply f_lt_asym. Qed.

Lemma better_not_worse_trans d x y z :
  f_is_nan z = false -> better d x y = true -> better d z y = false -> better d x z = true.
Proof.
  destruct d; simpl; intros Hz Hxy Hzy.
  - destruct (f_lt z x) eqn:E; [done|].
    destruct (f_is_nan x) eqn:Hx; [by destruct x, y|].
    by rewrite (f_lt_le_trans y x z) in Hzy.
  - by apply (f_lt_le_trans x y z).
Qed.

Lemma not_worse_better_trans d x y z :
  f_is_nan x = false -> f_is_nan y = false -> f_is_nan z = false ->
  better d y x = false -> better d y z = true -> better d x z = true.
Proof.
  intros Hx Hy Hz H1 H2. destruct (better d x z) eqn:E; [done|].
  by rewrite (better_not_worse_trans d y z x) in H1.
Qed.

Lemma not_worse_trans d x y z :
  f_is_nan x = false -> f_is_nan y = false -> f_is_nan z = false ->
  better d y x = false -> better d z y = false -> better d z x = false.
Proof.
  intros Hx Hy Hz H1 H2. destruct (better d z x) eqn:E; [|done].
  by rewrite (not_worse_better_trans d y z x) in H1.
Qed.

Lemma compare_values_zero_tolerance noise d c b t :
  sound_value c = true -> sound_value b = true ->
  f_mul (f_abs b) noise = S754_zero t -> compare_values noise d c b = strict_comparison d c b.
Proof.
  intros [_ Vc]%sound_value_spec [_ Vb]%sound_value_spec Ht.
  unfold compare_values, strict_comparison, f_gt. rewrite Ht.
  change (f_opp (S754_zero t)) with (S754_zero (negb t)).
  destruct d; simpl.
  - by rewrite (proj1 (f_sub_sign c b t Vc Vb)), (proj2 (f_sub_sign c b (negb t) Vc Vb)).
  - by rewrite (proj1 (f_sub_sign b c t Vb Vc)), (proj2 (f_sub_sign b c (negb t) Vb Vc)).
Qed.

Lemma zero_tolerance noise b :
  sound_value b = true -> f_finite noise = true -> f_is_zero noise || f_is_zero b = true ->
  exists t, f_mul (f_abs b) noise = S754_zero t.
Proof.
  intros [Fb _]%sound_value_spec Fn H.
  destruct noise as [tn|tn| |tn m e]; try done; [by apply f_mul_zero|].
  destruct b; try done. by eexists.
Qed.

(** No reading is better, or worse, than itself, under any tolerance. *)
Lemma compare_values_refl noise d v :
  f_nonneg noise -> compare_values noise d v v = WITHIN_NOISE.
Proof.
  intros Hn. unfold compare_values, f_gt.
  assert (Ht : f_nonneg (f_mul (f_abs v) noise)) by auto with floats.
  set (t := f_mul (f_abs v) noise) in *.
  assert (Hd : match d with Max => f_sub v v | Min => f_sub v v end = f_sub v v) by by destruct d.
  rewrite Hd. destruct (f_sub_diag v) as [-> | ->]; destruct t as [[]|[]| |[] m e]; done.
Qed.

(** ** Dominance *)

Definition axis_comparison (s : MetricSpace) (a b : gmap pystr float) (o : Objective)
  : MetricComparison := compare s (reading_on o a) (reading_on o b).

Definition not_worse (c : MetricComparison) : bool :=
  match c with BETTER | WITHIN_NOISE => true | _ => false end.

Lemma dominates_loop_spec s axes a b m :
  dominates_loop s axes a b m = true <->
  (forall o, o ∈ axes -> not_worse (axis_comparison s a b o) = true) /\
  (m = true \/ exists o, o ∈ axes /\ axis_comparison s a b o = BETTER).
Proof.
  revert m. induction axes as [|o axes IH]; intros m; simpl.
  - split; [by intros ->; split; [intros o ?%not_elem_of_nil|left]|].
    intros (_ & [?|(o & ?%not_elem_of_nil & _)]); done.
  - fold (axis_comparison s a b o). setoid_rewrite elem_of_cons.
    destruct (axis_comparison s a b o) eqn:E; rewrite ?IH.
    + split; [|naive_solver].
      intros [H _]. split; [intros o' [->|?]; [by rewrite E|auto]|]. right. eauto.
    + split; [done|]. intros [H _]. specialize (H o). rewrite E in H. naive_solver.
    + split.
      * intros [H1 H2]. split; [intros o' [->|?]; [by rewrite E|auto]|]. naive_solver.
      * intros [H1 H2]. split; [auto|]. destruct H2 as [?|(o' & [->|?] & ?)]; [auto|congruence|eauto].
    + split; [done|]. intros [H _]. specialize (H o). rewrite E in H. naive_solver.
Qed.

Lemma dominates_spec s a b :
  dominates s a b = true <->
  (forall o, o ∈ objectives s -> not_worse (axis_comparison s a b o) = true) /\
  (exists o, o ∈ objectives s /\ axis_comparison s a b o = BETTER).
Proof.
  unfold dominates. destruct (objectives s) as [|o os].
  - split; [done|]. by intros (_ & o & ?%not_elem_of_nil & _).
  - rewrite dominates_loop_spec. naive_solver.
Qed.

Lemma space_valid_noise s :
  space_valid s = true -> f_nonneg (relative_noise s) /\ f_finite (relative_noise s) = true.
Proof.
  unfold space_valid. rewrite !andb_true_iff. intros [[[H1 H2] _] _]. split; [|done].
  unfold f_nonneg, f_ge in *. by destruct (relative_noise s) as [[]|[]| |[] m e].
Qed.

Lemma compare_refl s m : space_valid s = true -> compare s m m <> BETTER.
Proof.
  intros [Hn _]%space_valid_noise. unfold compare. destruct m as [m|]; [|by destruct (direction s None)].
  destruct (direction s (Some m)) as [d|]; [|done]. rewrite pystr_eqb_refl.
  by rewrite compare_values_refl.
Qed.

Lemma dominates_irrefl s a : space_valid s = true -> dominates s a a = false.
Proof.
  intros Hv. destruct (dominates s a a) eqn:E; [|done].
  apply dominates_spec in E as (_ & o & _ & H). by apply compare_refl in H.
Qed.

(** ** The frontier

    Because no row dominates itself, the identity test of the source never matters: the
    frontier is the filter by [dominates] alone. *)

Definition undominated {T} (s : MetricSpace) (points : list T) (row : T -> gmap pystr float)
  (point : T) : bool :=
  negb (existsb (fun other => dominates s (row other) (row point)) points).

Lemma undominated_spec {T} s (points : list T) row p :
  undominated s points row p = true <->
  forall q, q ∈ points -> dominates s (row q) (row p) = false.
Proof.
  unfold undominated. rewrite negb_true_iff. rewrite <- not_true_iff_false, existsb_exists.
  setoid_rewrite <- list_elem_of_In. split.
  - intros H q Hq. apply not_true_iff_false. intros Hd. apply H. eauto.
  - intros H (q & Hq & Hd). by rewrite H in Hd.
Qed.

Lemma elem_of_indexed {T} (l : list T) n i x :
  (i, x) ∈ combine (seq n (length l)) l <-> (n <= i)%nat /\ l !! (i - n)%nat = Some x.
Proof.
  revert n. induction l as [|y l IH]; intros n; simpl.
  - split; [by intros ?%not_elem_of_nil|]. intros [_ H]. by rewrite lookup_nil in H.
  - rewrite elem_of_cons, IH. split.
    + intros [[= -> ->]|[H1 H2]]; [rewrite Nat.sub_diag; split; [lia|done]|].
      split; [lia|]. replace (i - n)%nat with (S (i - S n)) by lia. done.
    + intros [H1 H2]. destruct (i - n)%nat as [|k] eqn:E; simpl in H2.
      * left. injection H2 as ->. f_equal. lia.
      * right. split; [lia|]. by replace (i - S n)%nat with k by lia.
Qed.

Lemma filter_indexed {T} (f : T -> bool) (g : nat * T -> bool) (l : list T) n :
  (forall i x, (i, x) ∈ combine (seq n (length l)) l -> g (i, x) = f x) ->
  map snd (List.filter g (combine (seq n (length l)) l)) = List.filter f l.
Proof.
  revert n. induction l as [|x l IH]; intros n H; simpl; [done|].
  rewrite (H n x) by (simpl; set_solver).
  assert (IH' : map snd (List.filter g (combine (seq (S n) (length l)) l)) = List.filter f l).
  { apply IH. intros i y Hy. apply H. simpl. set_solver. }
  destruct (f x); simpl; congruence.
Qed.

Lemma frontier_eq_filter {T} s (points : list T) row :
  space_valid s = true ->
  frontier s points row = List.filter (undominated s points row) points.
Proof.
  intros Hv. unfold frontier. apply filter_indexed. intros i x Hx.
  unfold undominated. f_equal. apply eq_true_iff_eq. rewrite !existsb_exists.
  setoid_rewrite <- list_elem_of_In. split.
  - intros ([j q] & Hq & [_ Hd]%andb_true_iff). exists q. split; [|done].
    apply elem_of_indexed in Hq as [_ Hq]. by eapply list_elem_of_lookup_2.
  - intros (q & [j Hq]%list_elem_of_lookup_1 & Hd). exists (j, q). split.
    + apply elem_of_indexed. split; [lia|]. by rewrite Nat.sub_0_r.
    + rewrite Hd, andb_true_r, negb_true_iff. apply Nat.eqb_neq. intros ->.
      apply elem_of_indexed in Hx as [_ Hx]. rewrite Nat.sub_0_r in Hx.
      rewrite Hq in Hx. injection Hx as ->. by rewrite dominates_irrefl in Hd.
Qed.

Lemma elem_of_frontier {T} s (points : list T) row p :
  space_valid s = true ->
  p ∈ frontier s points row <-> p ∈ points /\ undominated s points row p = true.
Proof. intros Hv. rewrite frontier_eq_filter by done. by rewrite !list_elem_of_In, filter_In. Qed.

(** *** Strict dominance is a strict partial order *)

Definition sound_row (s : MetricSpace) (row : gmap pystr float) : Prop :=
  forall o, o ∈ objectives s -> exists v, row !! o_name o = Some v /\ sound_value v = true.

Section Strict.
Context (s : MetricSpace).
Context (Hvalid : space_valid s = true) (Hzero : f_is_zero (relative_noise s) = true).

Lemma compare_strict_values d c b :
  sound_value c = true -> sound_value b = true ->
  compare_values (relative_noise s) d c b = strict_comparison d c b.
Proof.
  intros Hc Hb. destruct (space_valid_noise s Hvalid) as [_ Hf].
  destruct (zero_tolerance (relative_noise s) b) as [t Ht]; [done|done|by rewrite Hzero|].
  by eapply compare_values_zero_tolerance.
Qed.

Lemma axis_comparison_strict a b o va vb :
  a !! o_name o = Some va -> b !! o_name o = Some vb ->
  sound_value va = true -> sound_value vb = true ->
  axis_comparison s a b o = strict_comparison (o_direction o) va vb.
Proof.
  intros Ha Hb Sa Sb. unfold axis_comparison, compare, reading_on. rewrite Ha, Hb. simpl.
  rewrite pystr_eqb_refl. by apply compare_strict_values.
Qed.

Lemma dominates_trans a b c :
  sound_row s a -> sound_row s b -> sound_row s c ->
  dominates s a b = true -> dominates s b c = true -> dominates s a c = true.
Proof.
  intros Ra Rb Rc [Hab _]%dominates_spec [Hbc (o & Ho & Hbetter)]%dominates_spec.
  apply dominates_spec.
  assert (Hax : forall o', o' ∈ objectives s ->
    not_worse (axis_comparison s a c o') = true /\
    (axis_comparison s b c o' = BETTER -> axis_comparison s a c o' = BETTER)).
  { intros o' Ho'. specialize (Hab o' Ho'). specialize (Hbc o' Ho').
    destruct (Ra o' Ho') as (va & Ha & Sa), (Rb o' Ho') as (vb & Hb & Sb),
      (Rc o' Ho') as (vc & Hc & Sc).
    rewrite (axis_comparison_strict a b o' va vb) in Hab by done.
    rewrite (axis_comparison_strict b c o' vb vc) in * by done.
    rewrite (axis_comparison_strict a c o' va vc) by done.
    pose proof (sound_not_nan _ Sa). pose proof (sound_not_nan _ Sb). pose proof (sound_not_nan _ Sc).
    unfold strict_comparison in *.
    set (d := o_direction o') in *.
    destruct (better d vb va) eqn:Wab.
    { by rewrite (better_asym _ _ _ Wab) in Hab. }
    destruct (better d vc vb) eqn:Wbc.
    { by rewrite (better_asym _ _ _ Wbc) in Hbc. }
    rewrite (not_worse_trans d va vb vc) by done. split; [by destruct (better d va vc)|].
    destruct (better d vb vc) eqn:Ebc; [|done]. intros _.
    by rewrite (not_worse_better_trans d va vb vc). }
  split; [intros o' Ho'; by apply Hax|]. exists o. split; [done|]. by apply Hax.
Qed.
End Strict.

(** Every excluded point is dominated by a member of the frontier: the number of a point's
    dominators decreases along dominance. *)
Lemma filter_length_lt {T} (f g : T -> bool) (l : list T) x :
  (forall y, y ∈ l -> f y = true -> g y = true) -> x ∈ l -> f x = false -> g x = true ->
  (length (List.filter f l) < length (List.filter g l))%nat.
Proof.
  intros Hfg Hx Hf Hg. induction l as [|y l IH]; [by apply not_elem_of_nil in Hx|].
  assert (Hle : (length (List.filter f l) <= length (List.filter g l))%nat).
  { clear IH Hx. induction l as [|z l IH]; simpl; [lia|].
    assert (length (List.filter f l) <= length (List.filter g l))%nat
      by (apply IH; intros w Hw; apply Hfg; set_solver).
    destruct (f z) eqn:E; [rewrite (Hfg z) by (done || set_solver); simpl; lia|].
    destruct (g z); simpl; lia. }
  simpl. apply elem_of_cons in Hx as [<-|Hx].
  - rewrite Hf, Hg. simpl. lia.
  - assert (Hlt : (length (List.filter f l) < length (List.filter g l))%nat)
      by (apply IH; [intros w Hw; apply Hfg; set_solver|done]).
    destruct (f y) eqn:E; [rewrite (Hfg y) by (done || set_solver); simpl; lia|].
    destruct (g y); simpl; lia.
Qed.

Lemma frontier_covers {T} s (points : list T) row :
  space_valid s = true -> f_is_zero (relative_noise s) = true ->
  (forall p, p ∈ points -> sound_row s (row p)) ->
  forall p, p ∈ points ->
    p ∈ frontier s points row \/
    exists q, q ∈ frontier s points row /\ dominates s (row q) (row p) = true.
Proof.
  intros Hv Hz Hrows p.
  remember (length (List.filter (fun q => dominates s (row q) (row p)) points)) as n eqn:Hn.
  revert p Hn. induction (lt_wf n) as [n _ IH]. intros p -> Hp.
  destruct (undominated s points row p) eqn:Hu; [left; by apply elem_of_frontier|].
  right. unfold undominated in Hu. apply negb_false_iff, existsb_exists in Hu as (q & Hq & Hd).
  apply list_elem_of_In in Hq.
  assert (Hstep : forall r, r ∈ points -> dominates s (row r) (row q) = true ->
    dominates s (row r) (row p) = true).
  { intros r Hr Hrq. eapply (dominates_trans s Hv Hz _ (row q)); eauto. }
  destruct (IH _ (filter_length_lt _ (fun r => dominates s (row r) (row p)) points q Hstep Hq
    (dominates_irrefl _ _ Hv) Hd) q eq_refl Hq) as [Hf|(r & Hr & Hrq)]; [eauto|].
  exists r. split; [done|]. apply Hstep; [|done]. by apply elem_of_frontier in Hr as [? _].
Qed.

(** ** The best reading *)

Section BestStrict.
Context {T : Type} (s : MetricSpace) (reading : T -> option Measurement).
Context (Hvalid : space_valid s = true) (Hzero : f_is_zero (relative_noise s) = true).
Context (k : pystr) (d : Direction).

(** A point whose reading, if the fold looks at it, is a sound reading of [k]. *)
Definition on_axis (p : T) : Prop :=
  forall m, reading p = Some m -> direction s (Some m) <> None ->
    m_metric m = k /\ direction s (Some m) = Some d /\ sound_value (m_value m) = true.

(** The reading of a point, when the point takes part in the comparison. *)
Definition candidate_reading (p : T) : option Measurement :=
  match reading p with
  | Some m => match direction s (Some m) with Some _ => Some m | None => None end
  | None => None
  end.

(** [p] is the first of the leading readings of [points]. *)
Definition first_leader (points : list T) (p : T) (r : Measurement) : Prop :=
  exists pre post, points = pre ++ p :: post /\ candidate_reading p = Some r /\
    (forall q m, q ∈ pre -> candidate_reading q = Some m ->
      better d (m_value r) (m_value m) = true) /\
    (forall q m, q ∈ post -> candidate_reading q = Some m ->
      better d (m_value m) (m_value r) = false).

Lemma candidate_reading_sound p m :
  on_axis p -> candidate_reading p = Some m ->
  reading p = Some m /\ m_metric m = k /\ direction s (Some m) = Some d /\
  sound_value (m_value m) = true.
Proof.
  unfold on_axis, candidate_reading. destruct (reading p) as [m'|]; [|done]. intros H.
  destruct (direction s (Some m')) as [d'|] eqn:E; [|done]. intros [= <-].
  destruct (H m' eq_refl) as (? & Hd & ?); [by rewrite E|done].
Qed.

Lemma best_step_eq acc p :
  best_step s reading acc p =
  match candidate_reading p, acc with
  | None, _ => acc
  | Some m, None => Some (p, m)
  | Some m, Some (_, r) =>
      match compare s (Some m) (Some r) with BETTER => Some (p, m) | _ => acc end
  end.
Proof.
  unfold best_step, candidate_reading. destruct (reading p) as [m|]; [|done].
  by destruct (direction s (Some m)).
Qed.

Lemma compare_on_axis m r :
  m_metric m = k -> m_metric r = k -> direction s (Some m) = Some d ->
  sound_value (m_value m) = true -> sound_value (m_value r) = true ->
  compare s (Some m) (Some r) = strict_comparison d (m_value m) (m_value r).
Proof.
  intros Hm Hr Hd Sm Sr. unfold compare. rewrite Hd, Hm, Hr, pystr_eqb_refl.
  by apply compare_strict_values.
Qed.

Lemma best_fold_spec points :
  (forall p, p ∈ points -> on_axis p) ->
  match fold_left (best_step s reading) points None with
  | None => forall p, p ∈ points -> candidate_reading p = None
  | Some (p, r) => first_leader points p r
  end.
Proof.
  induction points as [|x points IH] using rev_ind; intros Hax.
  { by intros p ?%not_elem_of_nil. }
  rewrite fold_left_app. simpl. rewrite best_step_eq.
  assert (IH' := IH ltac:(intros p Hp; apply Hax; set_solver)). clear IH.
  destruct (candidate_reading x) as [m|] eqn:Ex.
  2:{ destruct (fold_left _ points None) as [[p r]|].
      - destruct IH' as (pre & post & -> & Hp & Hpre & Hpost). exists pre, (post ++ [x]).
        rewrite <- app_assoc. split_and!; try done. intros q mq Hq.
        apply elem_of_snoc in Hq as [?| ->]; [by apply Hpost|congruence].
      - intros p Hp. apply elem_of_snoc in Hp as [?| ->]; auto. }
  destruct (candidate_reading_sound x m ltac:(apply Hax; set_solver) Ex) as (_ & Hk & Hd & Hs).
  destruct (fold_left _ points None) as [[p r]|].
  2:{ exists points, []. split_and!; try done.
      - intros q mq Hq Hcq. rewrite (IH' q Hq) in Hcq. done.
      - by intros q mq ?%not_elem_of_nil. }
  destruct IH' as (pre & post & -> & Hp & Hpre & Hpost).
  destruct (candidate_reading_sound p r ltac:(apply Hax; set_solver) Hp) as (_ & Hkr & Hdr & Hsr).
  rewrite (compare_on_axis m r) by done. unfold strict_comparison.
  destruct (better d (m_value m) (m_value r)) eqn:Eb.
  - exists (pre ++ p :: post), []. split_and!; try done; [|by intros q mq ?%not_elem_of_nil].
    intros q mq Hq Hcq.
    destruct (candidate_reading_sound q mq ltac:(apply Hax; set_solver) Hcq) as (_ & _ & _ & Hsq).
    apply elem_of_app in Hq as [Hq|Hq].
    + eapply better_trans; [exact Eb|]. by eapply Hpre.
    + apply elem_of_cons in Hq as [->|Hq]; [congruence|].
      apply (better_not_worse_trans d _ (m_value r)); [by apply sound_not_nan|done|by eapply Hpost].
  - assert (Hfl : first_leader ((pre ++ p :: post) ++ [x]) p r).
    { exists pre, (post ++ [x]). rewrite <- app_assoc. split_and!; try done.
      intros q mq Hq Hcq.
      apply elem_of_snoc in Hq as [?| ->]; [by eapply Hpost|congruence]. }
    by destruct (better d (m_value r) (m_value m)).
Qed.
End BestStrict.

Lemma best_leader {T} (s : MetricSpace) (reading : T -> option Measurement)
  (k : pystr) (d : Direction) (points : list T) :
  space_valid s = true -> f_is_zero (relative_noise s) = true ->
  (forall p, p ∈ points -> on_axis s reading k d p) ->
  match best s reading points with
  | None => forall p, p ∈ points -> candidate_reading s reading p = None
  | Some p => exists r, first_leader s reading d points p r
  end.
Proof.
  intros Hv Hz Hax. pose proof (best_fold_spec s reading Hv Hz k d points Hax) as H.
  unfold best. destruct (fold_left _ points None) as [[p r]|]; simpl; eauto.
Qed.

Lemma best_elem {T} (s : MetricSpace) (reading : T -> option Measurement) points p :
  best s reading points = Some p -> p ∈ points /\ candidate_reading s reading p <> None.
Proof.
  unfold best.
  assert (H : match fold_left (best_step s reading) points None with
              | Some (q, _) => q ∈ points /\ candidate_reading s reading q <> None
              | None => True end).
  { induction points as [|x points IH] using rev_ind; [done|].
    rewrite fold_left_app. simpl. rewrite best_step_eq.
    set (acc := fold_left _ points None) in *.
    assert (Hin : forall q, q ∈ points -> q ∈ points ++ [x]) by set_solver.
    assert (Hx : x ∈ points ++ [x]) by set_solver.
    destruct (candidate_reading s reading x) as [m|] eqn:Ex;
      [|destruct acc as [[q r]|]; naive_solver].
    destruct acc as [[q r]|]; [destruct (compare s _ _)|]; naive_solver congruence. }
  destruct (fold_left _ points None) as [[q r]|]; [|done]. simpl. by intros [= <-].
Qed.

Lemma best_None {T} (s : MetricSpace) (reading : T -> option Measurement) points :
  best s reading points = None <->
  forall p, p ∈ points -> candidate_reading s reading p = None.
Proof.
  unfold best. induction points as [|x points IH] using rev_ind.
  { split; [by intros _ p ?%not_elem_of_nil|done]. }
  rewrite fold_left_app. simpl. rewrite best_step_eq. setoid_rewrite elem_of_snoc.
  destruct (fold_left _ points None) as [[q r]|]; simpl in *.
  - split; [destruct (candidate_reading s reading x) as [m|]; [by destruct (compare s (Some m) (Some r))|done]|].
    intros H. assert (Some q = None) by (apply IH; auto). done.
  - destruct (candidate_reading s reading x) eqn:Ex; simpl.
    + split; [done|]. intros H. by rewrite (H x (or_intror eq_refl)) in Ex.
    + split; [|done]. intros _ p [Hp | ->]; [by apply IH|done].
Qed.

(** ** Properties *)

(** With a zero relative noise, or against a zero baseline, [compare] is exact: two finite
    readings of one axis compare as BETTER, WORSE or WITHIN_NOISE as their binary64 values are
    ordered on that axis, although the code decides it by subtracting and multiplying floats. *)
Theorem compare_exact (s : MetricSpace) (c b : Measurement) (d : Direction) :
  space_valid s = true ->
  direction s (Some c) = Some d -> m_metric c = m_metric b ->
  sound_value (m_value c) = true -> sound_value (m_value b) = true ->
  f_is_zero (relative_noise s) || f_is_zero (m_value b) = true ->
  compare s (Some c) (Some b) = strict_comparison d (m_value c) (m_value b).
Proof.
  intros Hv Hd Hm Sc Sb Hz. unfold compare. rewrite Hd, Hm, pystr_eqb_refl.
  destruct (space_valid_noise s Hv) as [_ Hf].
  destruct (zero_tolerance (relative_noise s) (m_value b)) as [t Ht]; [done|done|done|].
  by eapply compare_values_zero_tolerance.
Qed.

(** Two readings are INCOMPARABLE exactly when a reading is missing, the candidate's axis
    has no known direction, or the readings are on different axes. *)
Theorem compare_incomparable (s : MetricSpace) (c b : option Measurement) :
  compare s c b = INCOMPARABLE <->
  b = None \/ direction s c = None \/ option_map m_metric c <> option_map m_metric b.
Proof.
  unfold compare. destruct c as [c|]; [|by destruct b; simpl; split; auto].
  destruct (direction s (Some c)) as [d|]; [|by split; auto].
  destruct b as [b|]; [|by split; auto]. simpl. unfold pystr_eqb.
  case_bool_decide as E.
  - unfold compare_values. destruct (f_gt _ _); [|destruct (f_lt _ _)];
      (split; [done|intros [?|[?|H]]; try done; rewrite E in H; done]).
  - split; [|done]. intros _. right. right. congruence.
Qed.

(** Dominance is irreflexive in every valid space, whatever the tolerance, so the frontier
    is the filter by [dominates] alone: the object-identity test of the source cannot change
    which points survive. *)
Theorem frontier_is_undominated {T} (s : MetricSpace) (points : list T) row :
  space_valid s = true ->
  frontier s points row = List.filter (undominated s points row) points /\
  forall a, dominates s a a = false.
Proof. intros Hv. split; [by apply frontier_eq_filter|]. intros a. by apply dominates_irrefl. Qed.

(** In a strict space over complete finite rows the frontier of a nonempty list is nonempty,
    and every point left out is dominated by a member of the frontier. *)
Theorem frontier_complete {T} (s : MetricSpace) (points : list T) row :
  space_valid s = true -> f_is_zero (relative_noise s) = true ->
  (forall p, p ∈ points -> sound_row s (row p)) ->
  (points <> [] -> frontier s points row <> []) /\
  (forall p, p ∈ points -> p ∉ frontier s points row ->
     exists q, q ∈ frontier s points row /\ dominates s (row q) (row p) = true).
Proof.
  intros Hv Hz Hrows. split.
  - intros Hne Hf. destruct points as [|p points]; [done|].
    destruct (frontier_covers s (p :: points) row Hv Hz Hrows p) as [H|(q & H & _)];
      [set_solver| |]; rewrite Hf in H; by apply not_elem_of_nil in H.
  - intros p Hp Hnf. by destruct (frontier_covers s points row Hv Hz Hrows p Hp).
Qed.

(** [best] over readings of one axis in a strict space returns the first of the leading
    points: every earlier reading is strictly worse and no later one is better; it returns
    nothing exactly when no point has an orderable reading. *)
Theorem best_first_leader {T} (s : MetricSpace) (reading : T -> option Measurement)
  (k : pystr) (d : Direction) (points : list T) :
  space_valid s = true -> f_is_zero (relative_noise s) = true ->
  (forall p, p ∈ points -> on_axis s reading k d p) ->
  match best s reading points with
  | None => forall p, p ∈ points -> candidate_reading s reading p = None
  | Some p => exists r, first_leader s reading d points p r
  end.
Proof.
  apply best_leader.
Qed.

(** In a strict space a candidate advances the best of its axis's history exactly when it is
    strictly better than every prior reading of that axis; an empty history is always
    advanced. *)
Theorem compare_to_best_strict (s : MetricSpace) (c : Measurement) (d : Direction)
  (prior : list Measurement) :
  space_valid s = true -> f_is_zero (relative_noise s) = true ->
  direction s (Some c) = Some d -> sound_value (m_value c) = true ->
  (forall m, m ∈ prior -> m_metric m = m_metric c ->
     direction s (Some m) = Some d /\ sound_value (m_value m) = true) ->
  compare_to_best s (Some c) prior = BETTER <->
  forall m, m ∈ prior -> m_metric m = m_metric c -> better d (m_value c) (m_value m) = true.
Proof.
  intros Hv Hz Hd Hs Hprior. unfold compare_to_best. rewrite Hd.
  set (same := List.filter _ prior).
  assert (Hin : forall m, m ∈ same <-> m ∈ prior /\ m_metric m = m_metric c).
  { intros m. subst same. by rewrite !list_elem_of_In, filter_In, pystr_eqb_true. }
  assert (Hax : forall m, m ∈ same -> on_axis s Some (m_metric c) d m).
  { intros m [Hm Hk]%Hin m' [= <-] _. destruct (Hprior m Hm Hk). done. }
  pose proof (best_leader s Some (m_metric c) d same Hv Hz Hax) as Hbest.
  assert (Hcr : forall m, m ∈ same -> candidate_reading s Some m = Some m).
  { intros m [Hm Hk]%Hin. unfold candidate_reading. by rewrite (proj1 (Hprior m Hm Hk)). }
  destruct (best s Some same) as [p|].
  - destruct Hbest as (r & pre & post & Hsplit & Hp & Hpre & Hpost).
    assert (Hps : p ∈ same) by (rewrite Hsplit; set_solver).
    rewrite Hcr in Hp by done. injection Hp as <-.
    pose proof Hps as [Hpp Hpk]%Hin. destruct (Hprior p Hpp Hpk) as [Hpd Hpsound].
    rewrite (compare_on_axis s Hv Hz (m_metric c) d c p) by done.
    unfold strict_comparison. split.
    + destruct (better d (m_value c) (m_value p)) eqn:E;
        [|by destruct (better d (m_value p) (m_value c))].
      intros _ m Hm Hk. assert (Hms : m ∈ same) by by apply Hin.
      destruct (Hprior m Hm Hk) as [_ Hms'].
      pose proof Hms as Hm2. rewrite Hsplit in Hm2. apply elem_of_app in Hm2 as [Hm2|Hm2].
      * eapply better_trans; [exact E|]. by apply (Hpre m m), Hcr.
      * apply elem_of_cons in Hm2 as [->|Hm2]; [done|].
        apply (better_not_worse_trans d _ (m_value p)); [by apply sound_not_nan|done|].
        by apply (Hpost m m), Hcr.
    + intros H. by rewrite (H p).
  - split; [|done]. intros _ m Hm Hk.
    assert (Hms : m ∈ same) by by apply Hin. specialize (Hbest m Hms). by rewrite (Hcr m Hms) in Hbest.
Qed.

(** ** Concrete spaces and rows *)

Definition sound_rowb (s : MetricSpace) (row : gmap pystr float) : bool :=
  forallb (fun o => match row !! o_name o with Some v => sound_value v | None => false end)
    (objectives s).

Lemma sound_rowb_spec s row : sound_rowb s row = true -> sound_row s row.
Proof.
  unfold sound_rowb, sound_row. rewrite forallb_forall. intros H o Ho.
  specialize (H o). rewrite <- list_elem_of_In in H. specialize (H Ho).
  destruct (row !! o_name o); [eauto|done].
Qed.

Lemma forall_of_forallb {A} (P : A -> Prop) (f : A -> bool) (l : list A) :
  (forall x, f x = true -> P x) -> forallb f l = true -> forall x, x ∈ l -> P x.
Proof. intros HP Hl x Hx. apply HP. rewrite forallb_forall in Hl. by apply Hl, list_elem_of_In. Qed.

Definition two_axes (noise : float) : MetricSpace :=
  mk_MetricSpace [mk_Objective (py "throughput") Max; mk_Objective (py "goodput") Max] noise.
Definition row_of (throughput goodput : float) : gmap pystr float :=
  <[py "throughput" := throughput]> (<[py "goodput" := goodput]> ∅).
Definition latency_reading (v : Z) : Measurement :=
  mk_Measurement (py "latency") (f_of_Z v) (Some Min).

(** A positive tolerance makes dominance symmetric on some pairs: with a declared noise of
    0.1 two complete finite rows dominate each other, and the frontier of the two is empty. *)
Theorem frontier_can_be_empty :
  exists (s : MetricSpace) (a b : gmap pystr float),
    space_valid s = true /\ sound_row s a /\ sound_row s b /\
    dominates s a b = true /\ dominates s b a = true /\
    frontier s [a; b] (fun row => row) = [].
Proof.
  exists (two_axes (f_div (f_of_Z 1) (f_of_Z 10))),
    (row_of (f_div (f_of_Z 221) (f_of_Z 2)) (f_of_Z 100)),
    (row_of (f_of_Z 100) (f_div (f_of_Z 221) (f_of_Z 2))).
  split_and!; try (apply sound_rowb_spec); vm_compute; reflexivity.
Qed.

Lemma compare_exact_witness :
  space_valid (two_axes f_zero) = true /\
  compare (two_axes f_zero) (Some (latency_reading 9)) (Some (latency_reading 10)) = BETTER.
Proof.
  split; [vm_compute; reflexivity|].
  exact (compare_exact (two_axes f_zero) (latency_reading 9) (latency_reading 10) Min
    ltac:(vm_compute; reflexivity) eq_refl eq_refl
    ltac:(vm_compute; reflexivity) ltac:(vm_compute; reflexivity) ltac:(vm_compute; reflexivity)).
Defined.

Lemma frontier_is_undominated_witness :
  frontier (two_axes f_zero) [row_of (f_of_Z 2) (f_of_Z 2); row_of (f_of_Z 1) (f_of_Z 2)] id
  = [row_of (f_of_Z 2) (f_of_Z 2)].
Proof.
  destruct (frontier_is_undominated (two_axes f_zero)
    [row_of (f_of_Z 2) (f_of_Z 2); row_of (f_of_Z 1) (f_of_Z 2)] id
    ltac:(vm_compute; reflexivity)) as [H _].
  rewrite H. vm_compute. reflexivity.
Defined.

Lemma frontier_complete_witness :
  let points := [row_of (f_of_Z 2) (f_of_Z 2); row_of (f_of_Z 1) (f_of_Z 2)] in
  frontier (two_axes f_zero) points id <> [] /\
  exists q, q ∈ frontier (two_axes f_zero) points id /\
    dominates (two_axes f_zero) q (row_of (f_of_Z 1) (f_of_Z 2)) = true.
Proof.
  intros points.
  destruct (frontier_complete (two_axes f_zero) points id ltac:(vm_compute; reflexivity) eq_refl
    (forall_of_forallb _ (sound_rowb (two_axes f_zero)) points
      (fun r => sound_rowb_spec (two_axes f_zero) r) ltac:(vm_compute; reflexivity))) as [H1 H2].
  split; [by apply H1|].
  apply (H2 (row_of (f_of_Z 1) (f_of_Z 2))); [set_solver|].
  replace (frontier (two_axes f_zero) points id) with [row_of (f_of_Z 2) (f_of_Z 2)]
    by (vm_compute; reflexivity).
  intros H%list_elem_of_singleton. apply (f_equal (lookup (py "throughput"))) in H.
  vm_compute in H. discriminate H.
Defined.

Lemma best_first_leader_witness :
  best (two_axes f_zero) Some [latency_reading 12; latency_reading 9; latency_reading 9]
  = Some (latency_reading 9) /\
  exists r, first_leader (two_axes f_zero) Some Min
    [latency_reading 12; latency_reading 9; latency_reading 9] (latency_reading 9) r.
Proof.
  split; [vm_compute; reflexivity|].
  apply (best_first_leader (two_axes f_zero) Some (py "latency") Min
    [latency_reading 12; latency_reading 9; latency_reading 9]
    ltac:(vm_compute; reflexivity) eq_refl).
  intros p Hp m [= <-] _. repeat (apply elem_of_cons in Hp as [-> | Hp]; [done|]).
  by apply not_elem_of_nil in Hp.
Defined.

Lemma compare_to_best_strict_witness :
  compare_to_best (two_axes f_zero) (Some (latency_reading 8))
    [latency_reading 12; latency_reading 9] = BETTER.
Proof.
  apply (compare_to_best_strict (two_axes f_zero) (latency_reading 8) Min
    [latency_reading 12; latency_reading 9] ltac:(vm_compute; reflexivity) eq_refl eq_refl eq_refl);
    intros m Hm _; repeat (apply elem_of_cons in Hm as [-> | Hm]; [done|]);
    by apply not_elem_of_nil in Hm.
Defined.
