(* ===== verification/Plan.v ===== *)
(** The designer's round plan (src/vibesys/hypothesis/plan.py): the plan record with the field
    validators that run when it is parsed, and the normalization of its display title. *)
From S2P Require Import Prelude.

(** ** Data *)

Inductive HypothesisStrategyDisposition := parked | abandoned.
#[export] Instance HypothesisStrategyDisposition_eq_dec : EqDecision HypothesisStrategyDisposition.
Proof. solve_decision. Defined.

Record SkillResourceSelection := mk_SkillResourceSelection {
  skill : pystr;
  resource_paths : list pystr;
  purpose : pystr
}.
#[export] Instance SkillResourceSelection_eq_dec : EqDecision SkillResourceSelection.
Proof. solve_decision. Defined.

(** [u_hypothesis_id] has the type [AgentId]: a string the agent-output parser accepted. *)
Record HypothesisStrategyUpdate := mk_HypothesisStrategyUpdate {
  u_hypothesis_id : pystr;
  u_disposition : HypothesisStrategyDisposition;
  u_reason : pystr
}.
#[export] Instance HypothesisStrategyUpdate_eq_dec : EqDecision HypothesisStrategyUpdate.
Proof. solve_decision. Defined.

Record OrchestratorPlan := mk_OrchestratorPlan {
  plan_hypothesis_id : pystr;
  plan_hypothesis_updates : list HypothesisStrategyUpdate;
  plan_hypothesis : pystr;
  plan_title : pystr;
  plan_activation_evidence : pystr;
  plan_falsification_criteria : pystr;
  plan_expected_effect : pystr;
  plan_minimum_acceptance_criteria : pystr;
  plan_invariants : pystr;
  plan_recommended_skills : list SkillResourceSelection;
  plan_task : pystr;
  plan_pass_criteria : pystr;
  plan_request_official_evaluation : bool;
  plan_revert_to_round : option Z;
  plan_reasoning : pystr
}.
#[export] Instance OrchestratorPlan_eq_dec : EqDecision OrchestratorPlan.
Proof. solve_decision. Defined.
#[export] Instance eta_OrchestratorPlan : Eta OrchestratorPlan := fun r =>
  mk_OrchestratorPlan (plan_hypothesis_id r) (plan_hypothesis_updates r) (plan_hypothesis r)
    (plan_title r) (plan_activation_evidence r) (plan_falsification_criteria r)
    (plan_expected_effect r) (plan_minimum_acceptance_criteria r) (plan_invariants r)
    (plan_recommended_skills r) (plan_task r) (plan_pass_criteria r)
    (plan_request_official_evaluation r) (plan_revert_to_round r) (plan_reasoning r).

(** ** Parsing a plan: the field validators *)

(** [_strip_required_text] on [skill] and [purpose]. *)
Definition validate_skill (s : SkillResourceSelection) : result SkillResourceSelection :=
  let sk := strip (skill s) in
  let pu := strip (purpose s) in
  raise (ValidationError "must contain non-whitespace text")
    when negb (str_truthy sk && str_truthy pu) in
  Ok (mk_SkillResourceSelection sk (resource_paths s) pu).

(** [_strip_non_empty] on [reason]. *)
Definition validate_update (u : HypothesisStrategyUpdate) : result HypothesisStrategyUpdate :=
  let reason := strip (u_reason u) in
  raise (ValidationError "must not be blank") when negb (str_truthy reason) in
  Ok (mk_HypothesisStrategyUpdate (u_hypothesis_id u) (u_disposition u) reason).

Definition validate_orchestrator_plan (p : OrchestratorPlan) : result OrchestratorPlan :=
  let* updates := mapM_result validate_update (plan_hypothesis_updates p) in
  let* skills := mapM_result validate_skill (plan_recommended_skills p) in
  raise (ValidationError "revert_to_round must be greater than or equal to 0")
    when (match plan_revert_to_round p with Some r => r <? 0 | None => false end) in
  Ok (p <| plan_hypothesis_updates := updates |> <| plan_recommended_skills := skills |>).

(** [InvalidPlanError], a [ValueError]. *)
Definition duplicate_updates : exn :=
  ValueError "hypothesis_updates names one hypothesis more than once" [].
Definition self_reference : exn :=
  ValueError "hypothesis_updates includes the new hypothesis" [].
Definition reused_id (hypothesis_id : pystr) : exn :=
  ValueError "hypothesis ID {hypothesis_id!r} was already used" [AStr hypothesis_id].

(** ** Titles *)

Definition HYPOTHESIS_TITLE_MAX_LEN : nat := 60.
(** The ellipsis the source appends. *)
Definition ELLIPSIS : N := 8230.

(** [s.rfind(" ")], [-1] when there is none. *)
Definition rfind_space (s : pystr) : Z :=
  match find_index (fun c => (c =? 32)%N) (rev s) with
  | Some i => Z.of_nat (length s) - 1 - Z.of_nat i
  | None => -1
  end.

Definition truncate_hypothesis_title (text : pystr) : pystr :=
  if (length text <=? HYPOTHESIS_TITLE_MAX_LEN)%nat then text
  else
    let truncated := firstn (HYPOTHESIS_TITLE_MAX_LEN - 1) text in
    let boundary := rfind_space truncated in
    let truncated := if 0 <? boundary then firstn (Z.to_nat boundary) truncated else truncated in
    rstrip_by is_space truncated ++ [ELLIPSIS].

Definition normalize_hypothesis_title (title : pystr) : pystr :=
  truncate_hypothesis_title (join_space (split_words title [])).

Fixpoint take_until (p : N -> bool) (s : pystr) : pystr :=
  match s with
  | [] => []
  | c :: s' => if p c then [] else c :: take_until p s'
  end.

(** [s.split(". ", 1)[0]]. *)
Fixpoint before_sentence_end (s : pystr) : pystr :=
  match s with
  | [] => []
  | c :: s' =>
      match s' with
      | d :: _ => if ((c =? 46) && (d =? 32))%N then [] else c :: before_sentence_end s'
      | [] => [c]
      end
  end.

Definition derive_hypothesis_title (claim : pystr) : option pystr :=
  let stripped := strip claim in
  if negb (str_truthy stripped) then None
  else
    let first_line := take_until is_line_break stripped in
    let first_sentence :=
      rstrip_by (fun c => ((c =? 46) || (c =? 32))%N) (before_sentence_end first_line) in
    let collapsed := join_space (split_words first_sentence []) in
    if negb (str_truthy collapsed) then None
    else Some (truncate_hypothesis_title collapsed).

(** ** Parsing is idempotent *)

Lemma validate_skill_idem s s' : validate_skill s = Ok s' -> validate_skill s' = Ok s'.
Proof.
  unfold validate_skill. intros [Hc [= <-]]%guard_Ok. simpl. by rewrite !strip_idem, Hc.
Qed.

Lemma validate_update_idem u u' : validate_update u = Ok u' -> validate_update u' = Ok u'.
Proof.
  unfold validate_update. intros [Hc [= <-]]%guard_Ok. simpl. by rewrite strip_idem, Hc.
Qed.

Lemma mapM_result_idem {A} (f : A -> result A) l l' :
  (forall x y, f x = Ok y -> f y = Ok y) -> mapM_result f l = Ok l' -> mapM_result f l' = Ok l'.
Proof.
  intros Hf. revert l'. induction l as [|x l IH]; simpl; intros l' H; inv_ok; [done|].
  simpl. erewrite Hf by eassumption. simpl. by erewrite IH by eassumption.
Qed.

Lemma validate_plan_idem p p' :
  validate_orchestrator_plan p = Ok p' -> validate_orchestrator_plan p' = Ok p'.
Proof.
  unfold validate_orchestrator_plan. intros H. inv_ok. simpl.
  erewrite (mapM_result_idem validate_update); [|apply validate_update_idem|eassumption].
  simpl. erewrite (mapM_result_idem validate_skill); [|apply validate_skill_idem|eassumption].
  simpl. match goal with H : _ = false |- _ => rewrite H end. done.
Qed.

(** Plans the validators accept unchanged. *)
Definition plan_wf (p : OrchestratorPlan) : Prop := validate_orchestrator_plan p = Ok p.

Lemma plan_wf_rename p id : plan_wf p -> plan_wf (p <| plan_hypothesis_id := id |>).
Proof.
  unfold plan_wf, validate_orchestrator_plan. intros H. inv_ok. simpl in *.
  repeat match goal with H : mapM_result _ _ = Ok _ |- _ => rewrite H; clear H end. simpl.
  match goal with H : _ = false |- _ => rewrite H end.
  match goal with H : _ = p |- _ => destruct p; injection H as -> -> end. done.
Qed.

(** ** Properties *)

Lemma lstrip_by_length p s : (length (lstrip_by p s) <= length s)%nat.
Proof. induction s as [|c s IH]; simpl; [lia|]. destruct (p c); simpl; lia. Qed.

Lemma rstrip_by_length p s : (length (rstrip_by p s) <= length s)%nat.
Proof.
  unfold rstrip_by. rewrite length_rev. etransitivity; [apply lstrip_by_length|]. by rewrite length_rev.
Qed.

Lemma truncate_length text : (length (truncate_hypothesis_title text) <= 60)%nat.
Proof.
  unfold truncate_hypothesis_title, HYPOTHESIS_TITLE_MAX_LEN.
  destruct (length text <=? 60)%nat eqn:E; [by apply Nat.leb_le in E|].
  rewrite length_app. simpl.
  assert (H : forall b : bool, (length (if b then firstn (Z.to_nat (rfind_space (firstn 59 text)))
    (firstn 59 text) else firstn 59 text) <= 59)%nat).
  { intros []; rewrite !length_firstn; lia. }
  specialize (H (0 <? rfind_space (firstn 59 text))).
  pose proof (rstrip_by_length is_space (if 0 <? rfind_space (firstn 59 text)
    then firstn (Z.to_nat (rfind_space (firstn 59 text))) (firstn 59 text) else firstn 59 text)).
  lia.
Qed.

(** Every title shown is at most HYPOTHESIS_TITLE_MAX_LEN characters, the ellipsis included,
    whether it is the designer's normalized title or derived from the claim. *)
Theorem title_bounded (title claim : pystr) :
  (length (normalize_hypothesis_title title) <= HYPOTHESIS_TITLE_MAX_LEN)%nat /\
  match derive_hypothesis_title claim with
  | Some t => (length t <= HYPOTHESIS_TITLE_MAX_LEN)%nat
  | None => True
  end.
Proof.
  split; [apply truncate_length|]. unfold derive_hypothesis_title.
  destruct (negb _); [done|]. destruct (negb _); [done|]. apply truncate_length.
Qed.
