(* ===== verification/History.v ===== *)
(** Round records (src/vibesys/hypothesis/history.py): the vocabularies a round is described
    in, the record with the validator that keeps its review state in one place, its portable
    JSON form, and the in-memory history with rollback-base resolution. *)
From S2P Require Import Prelude Floats Metrics.

(** ** Vocabularies *)

Inductive JudgeVerdict := v_pass | v_fail | v_deferred.
Inductive PerfProvenance := framework | implementer.
Inductive HypothesisOutcome :=
| CONTINUE | SUPPORTED | NOMINATED | DISPROVEN | IMPLEMENTATION_FAILED | INCONCLUSIVE | BLOCKED.
Inductive CandidateDisposition := UNASSESSED | DISCARD | PREREQUISITE | PARETO_FRONTIER.
Inductive PerfDeltaReason := NO_BASELINE_YET | BASELINE_UNRESOLVED | NOT_FRAMEWORK_MEASURED.
Inductive HypothesisResolution :=
| R_PROVEN | R_DISPROVEN | R_INCONCLUSIVE | R_IMPLEMENTATION_FAILED | R_BLOCKED | R_REJECTED
| R_UNMEASURED.

#[export] Instance JudgeVerdict_eq_dec : EqDecision JudgeVerdict. Proof. solve_decision. Defined.
#[export] Instance PerfProvenance_eq_dec : EqDecision PerfProvenance. Proof. solve_decision. Defined.
#[export] Instance HypothesisOutcome_eq_dec : EqDecision HypothesisOutcome.
Proof. solve_decision. Defined.
#[export] Instance CandidateDisposition_eq_dec : EqDecision CandidateDisposition.
Proof. solve_decision. Defined.
#[export] Instance PerfDeltaReason_eq_dec : EqDecision PerfDeltaReason. Proof. solve_decision. Defined.
#[export] Instance HypothesisResolution_eq_dec : EqDecision HypothesisResolution.
Proof. solve_decision. Defined.

(** The [value] of a member, and the member a value names ([Enum(value)]). *)
Definition verdict_value (v : JudgeVerdict) : pystr :=
  match v with v_pass => py "pass" | v_fail => py "fail" | v_deferred => py "deferred" end.

Definition outcome_value (o : HypothesisOutcome) : pystr :=
  match o with
  | CONTINUE => py "continue"
  | SUPPORTED => py "supported"
  | NOMINATED => py "nominated"
  | DISPROVEN => py "disproven"
  | IMPLEMENTATION_FAILED => py "implementation_failed"
  | INCONCLUSIVE => py "inconclusive"
  | BLOCKED => py "blocked"
  end.
Definition all_outcomes : list HypothesisOutcome :=
  [CONTINUE; SUPPORTED; NOMINATED; DISPROVEN; IMPLEMENTATION_FAILED; INCONCLUSIVE; BLOCKED].
Definition outcome_of (value : pystr) : option HypothesisOutcome :=
  find (fun o => pystr_eqb (outcome_value o) value) all_outcomes.

Definition disposition_value (d : CandidateDisposition) : pystr :=
  match d with
  | UNASSESSED => py "unassessed"
  | DISCARD => py "discard"
  | PREREQUISITE => py "prerequisite"
  | PARETO_FRONTIER => py "pareto_frontier"
  end.
Definition all_dispositions : list CandidateDisposition :=
  [UNASSESSED; DISCARD; PREREQUISITE; PARETO_FRONTIER].
Definition disposition_of (value : pystr) : option CandidateDisposition :=
  find (fun d => pystr_eqb (disposition_value d) value) all_dispositions.

Definition resolution_value (r : HypothesisResolution) : pystr :=
  match r with
  | R_PROVEN => py "proven"
  | R_DISPROVEN => py "disproven"
  | R_INCONCLUSIVE => py "inconclusive"
  | R_IMPLEMENTATION_FAILED => py "implementation_failed"
  | R_BLOCKED => py "blocked"
  | R_REJECTED => py "rejected"
  | R_UNMEASURED => py "unmeasured"
  end.
Definition all_resolutions : list HypothesisResolution :=
  [R_PROVEN; R_DISPROVEN; R_INCONCLUSIVE; R_IMPLEMENTATION_FAILED; R_BLOCKED; R_REJECTED;
   R_UNMEASURED].
Definition resolution_of (value : pystr) : option HypothesisResolution :=
  find (fun r => pystr_eqb (resolution_value r) value) all_resolutions.

Lemma outcome_of_value o : outcome_of (outcome_value o) = Some o.
Proof. by destruct o. Qed.
Lemma disposition_of_value d : disposition_of (disposition_value d) = Some d.
Proof. by destruct d. Qed.
Lemma resolution_of_value r : resolution_of (resolution_value r) = Some r.
Proof. by destruct r. Qed.

(** ** The record *)

Record RoundRecord := mk_RoundRecord {
  round_number : Z;
  commit : option pystr;
  perf_metric : option float;
  perf_unit : option pystr;
  passed : bool;
  profile_skipped : bool;
  legacy_reviewed : bool;
  r_hypothesis_id : option pystr;
  hypothesis_declared_outcome : option pystr;
  judge_verdict : option JudgeVerdict;
  hypothesis_outcome : option pystr;
  hypothesis_claim : option pystr;
  hypothesis_task : option pystr;
  hypothesis_parent_round : option Z;
  hypothesis_parent_commit : option pystr;
  r_metrics : gmap pystr float;
  evaluation_artifact : option pystr;
  official_evaluation : bool;
  official_evaluation_reason : option pystr;
  candidate_disposition : pystr;
  candidate_metrics : gmap pystr float;
  candidate_evaluation_artifact : option pystr;
  candidate_operating_point : pystr;
  candidate_retention_reason : pystr;
  candidate_retained : option bool;
  perf_direction : option Direction;
  perf_baseline_round : option Z;
  perf_baseline_commit : option pystr;
  perf_baseline_metric : option float;
  perf_delta_pct : option float;
  perf_comparison : option MetricComparison;
  perf_provenance : option PerfProvenance;
  implementer_provider : option pystr;
  implementer_model : option pystr;
  attempts : Z
}.
#[export] Instance RoundRecord_eq_dec : EqDecision RoundRecord. Proof. solve_decision. Defined.
#[export] Instance eta_RoundRecord : Eta RoundRecord := fun r =>
  mk_RoundRecord (round_number r) (commit r) (perf_metric r) (perf_unit r) (passed r)
    (profile_skipped r) (legacy_reviewed r) (r_hypothesis_id r) (hypothesis_declared_outcome r)
    (judge_verdict r) (hypothesis_outcome r) (hypothesis_claim r) (hypothesis_task r)
    (hypothesis_parent_round r) (hypothesis_parent_commit r) (r_metrics r)
    (evaluation_artifact r) (official_evaluation r) (official_evaluation_reason r)
    (candidate_disposition r) (candidate_metrics r) (candidate_evaluation_artifact r)
    (candidate_operating_point r) (candidate_retention_reason r) (candidate_retained r)
    (perf_direction r) (perf_baseline_round r) (perf_baseline_commit r) (perf_baseline_metric r)
    (perf_delta_pct r) (perf_comparison r) (perf_provenance r) (implementer_provider r)
    (implementer_model r) (attempts r).

(** A record with the dataclass defaults for every field after [passed]. *)
Definition new_round (round_number : Z) (commit : option pystr) (perf_metric : option float)
  (perf_unit : option pystr) (passed : bool) : RoundRecord :=
  mk_RoundRecord round_number commit perf_metric perf_unit passed false true None None None None
    None None None None ∅ None false None (py "unassessed") ∅ None [] [] None None None None None
    None None None None None 1.

(** The model validator that runs whenever a record is constructed or parsed. *)
Definition normalize_review (r : RoundRecord) : RoundRecord :=
  match judge_verdict r with
  | None => r
  | Some v =>
      let v' := if negb (bool_decide (v = v_deferred)) && negb (legacy_reviewed r)
                then v_deferred else v in
      r <| judge_verdict := Some v' |>
        <| legacy_reviewed := negb (bool_decide (v' = v_deferred)) |>
  end.

(** The [reviewed] property. *)
Definition reviewed (r : RoundRecord) : bool :=
  match judge_verdict r with
  | None => legacy_reviewed r
  | Some v => negb (bool_decide (v = v_deferred))
  end.

(** ** Portable JSON form

    [dump_python] and [validate_python] are the pydantic adapter of the record type; the code
    around them renames one key and drops a retired one. *)

Section Portable.
Context {json : Type}.
Context (dump_python : RoundRecord -> gmap pystr json).
Context (validate_python : gmap pystr json -> result RoundRecord).

(** [dumped.pop] raises KeyError without the key; the adapter always writes it. *)
Definition serialize_round_record (r : RoundRecord) : option (gmap pystr json) :=
  let dumped := dump_python r in
  match dumped !! py "round_number" with
  | None => None
  | Some n =>
      let rest := delete (py "round_number") dumped in
      Some (rest ∪ {[py "round" := n]})
  end.

Definition parse_round_record (data : gmap pystr json) : result RoundRecord :=
  let data :=
    match data !! py "round_number", data !! py "round" with
    | None, Some n => <[py "round_number" := n]> (delete (py "round") data)
    | _, _ => data
    end in
  let data :=
    match data !! py "implementer_driver" with
    | Some _ => delete (py "implementer_driver") data
    | None => data
    end in
  validate_python data.

(** What the code relies on of the adapter, for the record at hand. *)
Definition adapter_round_trips (r : RoundRecord) : Prop :=
  validate_python (dump_python r) = Ok r /\ is_Some (dump_python r !! py "round_number") /\
  dump_python r !! py "round" = None /\ dump_python r !! py "implementer_driver" = None.

(** A serialized record parses back to itself, and so does one an older release wrote with
    the retired [implementer_driver] key. *)
Theorem portable_round_trip (r : RoundRecord) (driver : json) :
  adapter_round_trips r ->
  exists data, serialize_round_record r = Some data /\
    data !! py "round_number" = None /\
    parse_round_record data = Ok r /\
    parse_round_record (<[py "implementer_driver" := driver]> data) = Ok r.
Proof.
  intros (Hv & [n Hn] & Hr & Hd). unfold serialize_round_record. rewrite Hn. eexists. split; [done|].
  set (data := _ ∪ _).
  assert (Hnum : data !! py "round_number" = None).
  { subst data. rewrite lookup_union, lookup_delete_eq, lookup_singleton_ne by done. done. }
  assert (Hround : data !! py "round" = Some n).
  { subst data. rewrite lookup_union, lookup_delete_ne, Hr, lookup_singleton_eq by done. done. }
  assert (Hdrv : data !! py "implementer_driver" = None).
  { subst data. rewrite lookup_union, lookup_delete_ne, Hd, lookup_singleton_ne by done. done. }
  assert (Hback : <[py "round_number" := n]> (delete (py "round") data) = dump_python r).
  { apply map_eq. intros k. destruct (decide (k = py "round_number")) as [->|Hk].
    { by rewrite lookup_insert_eq, Hn. }
    rewrite lookup_insert_ne by done. destruct (decide (k = py "round")) as [->|Hk'].
    { by rewrite lookup_delete_eq, Hr. }
    rewrite lookup_delete_ne by done. subst data.
    rewrite lookup_union, lookup_delete_ne, lookup_singleton_ne by done.
    by destruct (dump_python r !! k). }
  split_and!; [done| |]; unfold parse_round_record.
  - rewrite Hnum, Hround, Hback, Hd. done.
  - rewrite !lookup_insert_ne, Hnum, Hround by done.
    rewrite delete_insert_ne, insert_insert_ne, Hback, lookup_insert_eq by done.
    rewrite delete_insert_id by done. done.
Qed.
End Portable.

(** ** Rollback bases *)

(** FAILED_HYPOTHESIS_OUTCOMES of transitions.py, as a membership test. *)
Definition failed_outcome (value : pystr) : bool :=
  existsb (fun o =>
      negb (bool_decide (o = CONTINUE)) && negb (bool_decide (o = SUPPORTED))
      && negb (bool_decide (o = NOMINATED)) && pystr_eqb (outcome_value o) value)
    all_outcomes
  || pystr_eqb value (py "rejected").

Record RoundHistory := mk_RoundHistory { records : list RoundRecord }.

Definition history_append (h : RoundHistory) (r : RoundRecord) : RoundHistory :=
  mk_RoundHistory (records h ++ [r]).

Definition resolve_rollback_commit (h : RoundHistory) (target : RoundRecord)
  (failed_outcomes : pystr -> bool) : option pystr * option Z :=
  match last (records h) with
  | None => (commit target, None)
  | Some latest =>
      if (round_number target <? round_number latest)
         && bool_decide (hypothesis_parent_round latest = Some (round_number target))
         && bool_decide (hypothesis_parent_commit latest <> None)
         && (match hypothesis_outcome latest with
             | Some o => failed_outcomes o
             | None => false
             end)
      then (hypothesis_parent_commit latest, Some (round_number latest))
      else (commit target, None)
  end.

(** ** Properties *)

Lemma normalize_review_idem r : normalize_review (normalize_review r) = normalize_review r.
Proof. unfold normalize_review. by destruct r as [??????[] ?? [[]|]]. Qed.

(** Records every construction and parse leaves behind. *)
Definition review_normal (r : RoundRecord) : Prop := normalize_review r = r.

(** The validator leaves one review state: on a normalized record the stored boolean is
    exactly the [reviewed] property, a pass or fail verdict means a judge ran, a verdict on an
    unreviewed record becomes deferred, and normalizing again changes nothing. *)
Theorem review_state_single (r : RoundRecord) :
  normalize_review (normalize_review r) = normalize_review r /\
  legacy_reviewed (normalize_review r) = reviewed (normalize_review r) /\
  (forall v, judge_verdict r = Some v -> v <> v_deferred -> legacy_reviewed r = false ->
     judge_verdict (normalize_review r) = Some v_deferred) /\
  (judge_verdict r = None -> normalize_review r = r).
Proof.
  split_and!.
  - apply normalize_review_idem.
  - unfold normalize_review, reviewed. by destruct r as [??????[] ?? [[]|]].
  - intros v Hv Hne Hl. unfold normalize_review. rewrite Hv, Hl. by destruct v.
  - intros Hn. unfold normalize_review. by rewrite Hn.
Qed.

(** A rollback target resolves to its own historical commit unless the latest round is a
    later, failed child of exactly that round that recorded its pre-hypothesis tree; then the
    child's recorded base is restored and the child is named. *)
Theorem rollback_base (h : RoundHistory) (target : RoundRecord) (c : option pystr)
  (failed_child : option Z) :
  resolve_rollback_commit h target failed_outcome = (c, failed_child) <->
  (exists latest base outcome,
     last (records h) = Some latest /\
     round_number target < round_number latest /\
     hypothesis_parent_round latest = Some (round_number target) /\
     hypothesis_parent_commit latest = Some base /\
     hypothesis_outcome latest = Some outcome /\ failed_outcome outcome = true /\
     c = Some base /\ failed_child = Some (round_number latest)) \/
  (c = commit target /\ failed_child = None /\
   forall latest base outcome,
     last (records h) = Some latest -> round_number target < round_number latest ->
     hypothesis_parent_round latest = Some (round_number target) ->
     hypothesis_parent_commit latest = Some base -> hypothesis_outcome latest = Some outcome ->
     failed_outcome outcome = false).
Proof.
  unfold resolve_rollback_commit. destruct (last (records h)) as [latest|].
  2:{ split; [intros [= <- <-]; right; by split_and!|].
      intros [(?&?&?&?&_)|(-> & -> & _)]; done. }
  destruct (_ && _) eqn:E.
  - rewrite !andb_true_iff, !bool_decide_eq_true, Z.ltb_lt in E. destruct E as [[[E1 E2] E3] E4].
    destruct (hypothesis_parent_commit latest) as [base|] eqn:Eb; [|done].
    destruct (hypothesis_outcome latest) as [o|] eqn:Eo; [|done]. split.
    + intros [= <- <-]. left. exists latest, base, o. by split_and!.
    + intros [(l & b & o' & [= <-] & ?)|(-> & -> & H)]; [naive_solver|].
      by rewrite (H latest base o) in E4.
  - split.
    + intros [= <- <-]. right. split_and!; [done|done|].
      intros l base o [= <-] H1 H2 H3 H4. rewrite H2, H3, H4 in E.
      apply Z.ltb_lt in H1. rewrite H1, !bool_decide_true in E by done. done.
    + intros [(l & b & o & [= <-] & H1 & H2 & H3 & H4 & H5 & -> & ->)|(-> & -> & _)]; [|done].
      apply Z.ltb_lt in H1. rewrite H1, H2, H3, H4, H5, !bool_decide_true in E by done. done.
Qed.

(** ** Witnesses *)

Definition sample_round : RoundRecord :=
  (new_round 3 (Some (py "abc")) None None true) <| judge_verdict := Some v_pass |>.

Lemma portable_round_trip_witness :
  exists data,
    serialize_round_record (fun _ => {[py "round_number" := 3]}) sample_round = Some data /\
    parse_round_record (fun _ => Ok sample_round) data = Ok sample_round.
Proof.
  destruct (portable_round_trip (fun _ => {[py "round_number" := 3]})
    (fun _ => Ok sample_round) sample_round 0) as (data & H1 & _ & H2 & _).
  - split_and!; try (vm_compute; reflexivity). vm_compute. eauto.
  - exists data. split; assumption.
Defined.
