(* ===== verification/Focus.v ===== *)
(** Profile focus (src/vibesys/profile_focus/): the persisted cursor over profiled components
    (state.py), the plateau configuration (config.py), and the pure policy that merges an
    attribution, selects one open component, and retires a stalled one (focus.py). *)
From S2P Require Import Prelude Floats.

(** ** State (state.py) *)

Inductive ProfileGuidanceStatus := OPEN | ACTIVE | EXHAUSTED.
#[export] Instance ProfileGuidanceStatus_eq_dec : EqDecision ProfileGuidanceStatus.
Proof. solve_decision. Defined.

Record ProfileBottleneck := mk_ProfileBottleneck {
  b_name : pystr; b_cost : float; b_share : float; b_evidence : list pystr
}.
Record ProfileAttributionSample := mk_ProfileAttributionSample {
  as_round : Z; as_cost : float; as_share : float; as_evidence : list pystr
}.
Record ProfileImprovementSample := mk_ProfileImprovementSample {
  is_round : Z; is_relative_improvement : float
}.
Record ProfileGuidedComponent := mk_ProfileGuidedComponent {
  c_name : pystr;
  c_status : ProfileGuidanceStatus;
  c_rounds_spent : Z;
  c_stalled_rounds : Z;
  c_latest_cost : option float;
  c_latest_share : option float;
  c_attribution_history : list ProfileAttributionSample;
  c_improvement_history : list ProfileImprovementSample
}.
Record ProfileFocusState := mk_ProfileFocusState {
  active_component : option pystr;
  components : list ProfileGuidedComponent;
  ranking_round : option Z
}.
#[export] Instance ProfileAttributionSample_eq_dec : EqDecision ProfileAttributionSample.
Proof. solve_decision. Defined.
#[export] Instance ProfileImprovementSample_eq_dec : EqDecision ProfileImprovementSample.
Proof. solve_decision. Defined.
#[export] Instance ProfileGuidedComponent_eq_dec : EqDecision ProfileGuidedComponent.
Proof. solve_decision. Defined.
#[export] Instance ProfileFocusState_eq_dec : EqDecision ProfileFocusState.
Proof. solve_decision. Defined.
#[export] Instance eta_component : Eta ProfileGuidedComponent := fun c =>
  mk_ProfileGuidedComponent (c_name c) (c_status c) (c_rounds_spent c) (c_stalled_rounds c)
    (c_latest_cost c) (c_latest_share c) (c_attribution_history c) (c_improvement_history c).
#[export] Instance eta_focus : Eta ProfileFocusState := fun s =>
  mk_ProfileFocusState (active_component s) (components s) (ranking_round s).

(** [ProfileGuidedComponent(name=name)]. *)
Definition new_component (name : pystr) : ProfileGuidedComponent :=
  mk_ProfileGuidedComponent name OPEN 0 0 None None [] [].

(** Field constraints: [Field(ge=0)] and [Field(ge=0, le=1)] on a [FiniteFloat]. *)
Definition cost_ok (x : float) : bool := f_finite x && f_ge x f_zero.
Definition share_ok (x : float) : bool := f_finite x && f_ge x f_zero && f_le x (f_of_Z 1).
Definition opt_ok {A} (p : A -> bool) (x : option A) : bool :=
  match x with Some x => p x | None => true end.

Definition attribution_sample_ok (s : ProfileAttributionSample) : bool :=
  (0 <? as_round s) && cost_ok (as_cost s) && share_ok (as_share s).
Definition improvement_sample_ok (s : ProfileImprovementSample) : bool :=
  (0 <? is_round s) && f_finite (is_relative_improvement s).

(** [_ordered_history]. *)
Definition ordered_history (c : ProfileGuidedComponent) : bool :=
  strictly_increasing (map as_round (c_attribution_history c))
  && strictly_increasing (map is_round (c_improvement_history c)).

Definition component_ok (c : ProfileGuidedComponent) : bool :=
  str_truthy (c_name c) && (0 <=? c_rounds_spent c) && (0 <=? c_stalled_rounds c)
  && opt_ok cost_ok (c_latest_cost c) && opt_ok share_ok (c_latest_share c)
  && forallb attribution_sample_ok (c_attribution_history c)
  && forallb improvement_sample_ok (c_improvement_history c)
  && ordered_history c.

Definition is_active (c : ProfileGuidedComponent) : bool := bool_decide (c_status c = ACTIVE).
Definition is_open (c : ProfileGuidedComponent) : bool := negb (bool_decide (c_status c = EXHAUSTED)).

(** [_valid_cursor]. *)
Definition valid_cursor (s : ProfileFocusState) : bool :=
  nodupb (map c_name (components s))
  && bool_decide (map c_name (List.filter is_active (components s))
                  = match active_component s with Some a => [a] | None => [] end).

(** Constructing a state runs its own validators; parsing a dump also runs the components'. *)
Definition construct_focus_state (s : ProfileFocusState) : result ProfileFocusState :=
  raise (ValidationError "profile focus state")
    when negb (opt_ok (fun r => 0 <? r) (ranking_round s) && valid_cursor s) in
  Ok s.
Definition validate_focus_state (s : ProfileFocusState) : result ProfileFocusState :=
  raise (ValidationError "profile guided component")
    when negb (forallb component_ok (components s)) in
  construct_focus_state s.

(** ** Configuration (config.py) *)

Record ProfileFocusConfig := mk_ProfileFocusConfig {
  plateau_min_rounds : Z;
  min_relative_improvement : float
}.

Definition focus_config (plateau : Z) (improvement : float) : result ProfileFocusConfig :=
  raise (ValueError "plateau_min_rounds must be positive" []) when plateau <? 1 in
  raise (ValueError "min_relative_improvement must be non-negative" [])
    when f_lt improvement f_zero in
  Ok (mk_ProfileFocusConfig plateau improvement).

(** ** Policy (focus.py) *)

Definition focus_initial : ProfileFocusState := mk_ProfileFocusState None [] None.

(** One iteration of the loop over the attribution. *)
Definition merge_bottleneck (round_number : Z)
  (acc : list (pystr * ProfileGuidedComponent) * list ProfileGuidedComponent)
  (item : ProfileBottleneck) : list (pystr * ProfileGuidedComponent) * list ProfileGuidedComponent :=
  let '(existing, ordered) := acc in
  let '(found, existing) := dict_pop (b_name item) existing in
  let component := match found with Some c => c | None => new_component (b_name item) end in
  let history :=
    List.filter (fun sample => negb (as_round sample =? round_number))
      (c_attribution_history component)
    ++ [mk_ProfileAttributionSample round_number (b_cost item) (b_share item) (b_evidence item)] in
  let component := component <| c_latest_cost := Some (b_cost item) |>
    <| c_latest_share := Some (b_share item) |> <| c_attribution_history := history |> in
  (existing, ordered ++ [component]).

Definition merge_attribution (s : ProfileFocusState) (attribution : list ProfileBottleneck)
  (round_number : Z) : result ProfileFocusState :=
  let existing :=
    fold_left (fun d c => dict_set (c_name c) c d) (components s) [] in
  let '(existing, ordered) := fold_left (merge_bottleneck round_number) attribution (existing, []) in
  construct_focus_state
    (mk_ProfileFocusState (active_component s) (ordered ++ map snd existing) (Some round_number)).

(** The position of the component to force active: the override, the current one, then the
    first open one. *)
Definition choose_component (s : ProfileFocusState) (override : option pystr) : option nat :=
  let named (name : option pystr) := find_index
    (fun c => bool_decide (Some (c_name c) = name) && is_open c) (components s) in
  match named override with
  | Some i => Some i
  | None =>
      match named (active_component s) with
      | Some i => Some i
      | None => find_index is_open (components s)
      end
  end.

Definition close_active (c : ProfileGuidedComponent) : ProfileGuidedComponent :=
  if is_active c then c <| c_status := OPEN |> else c.

Definition select_component (s : ProfileFocusState) (override : option pystr)
  : result ProfileFocusState :=
  let closed := map close_active (components s) in
  match choose_component s override with
  | None => validate_focus_state (s <| components := closed |> <| active_component := None |>)
  | Some i =>
      validate_focus_state
        (s <| components := alter (fun c => c <| c_status := ACTIVE |>) i closed |>
           <| active_component := option_map c_name (closed !! i) |>)
  end.

Definition observe (s : ProfileFocusState) (round_number : Z)
  (bottlenecks : list ProfileBottleneck) (override : option pystr) : result ProfileFocusState :=
  let* merged := merge_attribution s bottlenecks round_number in
  select_component merged override.

(** The update of the active component by one measured round. *)
Definition apply_round (cfg : ProfileFocusConfig) (round_number : Z) (improvement : float)
  (c : ProfileGuidedComponent) : ProfileGuidedComponent :=
  let stalled := if f_ge improvement (min_relative_improvement cfg) then 0
                 else c_stalled_rounds c + 1 in
  let c := c <| c_rounds_spent := c_rounds_spent c + 1 |>
    <| c_improvement_history :=
         c_improvement_history c ++ [mk_ProfileImprovementSample round_number improvement] |>
    <| c_stalled_rounds := stalled |> in
  if plateau_min_rounds cfg <=? stalled then c <| c_status := EXHAUSTED |> else c.

Definition record (cfg : ProfileFocusConfig) (s : ProfileFocusState) (round_number : Z)
  (passed : bool) (relative_improvement : option float) : result ProfileFocusState :=
  match active_component s, relative_improvement with
  | Some active, Some improvement =>
      if negb passed then Ok s
      else
        match find_index (fun c => pystr_eqb (c_name c) active) (components s) with
        | None => Err StopIteration
        | Some i =>
            let updated := alter (apply_round cfg round_number improvement) i (components s) in
            let exhausted :=
              match updated !! i with
              | Some c => plateau_min_rounds cfg <=? c_stalled_rounds c
              | None => false
              end in
            validate_focus_state
              (mk_ProfileFocusState (if exhausted then None else Some active) updated None)
        end
  | _, _ => Ok s
  end.

(** *** Prompt data (results.py) *)

Record FocusLedgerRow := mk_FocusLedgerRow {
  l_name : pystr; l_status : ProfileGuidanceStatus; l_rounds_spent : Z;
  l_latest_share : option float; l_stalled_rounds : Z
}.
Record FocusView := mk_FocusView {
  fv_active_component : pystr;
  fv_ledger : list FocusLedgerRow;
  fv_ranked_bottlenecks : list ProfileBottleneck
}.

Definition ledger (s : ProfileFocusState) : list FocusLedgerRow :=
  map (fun c => mk_FocusLedgerRow (c_name c) (c_status c) (c_rounds_spent c) (c_latest_share c)
                  (c_stalled_rounds c)) (components s).

(** The sort key [(-item.cost, item.name)], compared as tuples are. *)
Definition bottleneck_le (a b : ProfileBottleneck) : bool :=
  if f_eq (f_opp (b_cost a)) (f_opp (b_cost b)) then pystr_leb (b_name a) (b_name b)
  else f_lt (f_opp (b_cost a)) (f_opp (b_cost b)).

Definition ranked_bottlenecks (s : ProfileFocusState) : list ProfileBottleneck :=
  match ranking_round s with
  | None => []
  | Some r =>
      sort_by bottleneck_le
        (omap (fun c =>
           option_map (fun sample =>
               mk_ProfileBottleneck (c_name c) (as_cost sample) (as_share sample) (as_evidence sample))
             (find (fun sample => as_round sample =? r) (c_attribution_history c)))
           (components s))
  end.

Definition focus (s : ProfileFocusState) : FocusView :=
  mk_FocusView (match active_component s with Some a => a | None => [] end)
    (ledger s) (ranked_bottlenecks s).

(** ** Lemmas *)

Definition valid_focus (s : ProfileFocusState) : Prop := validate_focus_state s = Ok s.

Lemma validate_focus_Ok s s' :
  validate_focus_state s = Ok s' <->
  s' = s /\ (forall c, c ∈ components s -> component_ok c = true) /\
  opt_ok (fun r => 0 <? r) (ranking_round s) = true /\ valid_cursor s = true.
Proof.
  unfold validate_focus_state, construct_focus_state. rewrite !guard_Ok, !negb_false_iff.
  rewrite forallb_forall, andb_true_iff. setoid_rewrite <- list_elem_of_In. naive_solver.
Qed.

Lemma valid_cursor_spec s :
  valid_cursor s = true <->
  NoDup (map c_name (components s)) /\
  map c_name (List.filter is_active (components s))
  = match active_component s with Some a => [a] | None => [] end.
Proof. unfold valid_cursor. by rewrite andb_true_iff, nodupb_spec, bool_decide_eq_true. Qed.


(** *** Merging an attribution

    On a state whose component names are distinct, the dict of the source is the component
    list, and an attribution with distinct names reorders it: the profiled components first,
    in attribution order, then the rest. *)

Definition profiled (s : ProfileFocusState) (round_number : Z) (item : ProfileBottleneck)
  : ProfileGuidedComponent :=
  let component :=
    match find (fun c => pystr_eqb (c_name c) (b_name item)) (components s) with
    | Some c => c
    | None => new_component (b_name item)
    end in
  component <| c_latest_cost := Some (b_cost item) |>
    <| c_latest_share := Some (b_share item) |>
    <| c_attribution_history :=
         List.filter (fun sample => negb (as_round sample =? round_number))
           (c_attribution_history component)
         ++ [mk_ProfileAttributionSample round_number (b_cost item) (b_share item)
               (b_evidence item)] |>.

Definition unprofiled (bs : list ProfileBottleneck) (c : ProfileGuidedComponent) : bool :=
  negb (bool_decide (c_name c ∈ map b_name bs)).

Definition merged_components (s : ProfileFocusState) (round_number : Z)
  (bs : list ProfileBottleneck) : list ProfileGuidedComponent :=
  map (profiled s round_number) bs ++ List.filter (unprofiled bs) (components s).

Lemma NoDup_map_filter {A B} (f : A -> B) (p : A -> bool) l :
  NoDup (map f l) -> NoDup (map f (List.filter p l)).
Proof.
  induction l as [|x l IH]; simpl; intros H; [done|]. apply NoDup_cons in H as [Hx Hl].
  destruct (p x); simpl; [|auto]. apply NoDup_cons. split; [|auto].
  intros Hin. apply Hx. rewrite elem_of_map in Hin |- *.
  destruct Hin as (y & Hy & [Hin _]%elem_of_filter). eauto.
Qed.

Lemma merge_fold s r bs done_bs :
  NoDup (map c_name (components s)) -> NoDup (map b_name (done_bs ++ bs)) ->
  fold_left (merge_bottleneck r) bs
    (map (fun c => (c_name c, c)) (List.filter (unprofiled done_bs) (components s)),
     map (profiled s r) done_bs)
  = (map (fun c => (c_name c, c)) (List.filter (unprofiled (done_bs ++ bs)) (components s)),
     map (profiled s r) (done_bs ++ bs)).
Proof.
  intros Hs. revert done_bs. induction bs as [|b bs IH]; intros done_bs Hbs; simpl.
  { by rewrite app_nil_r. }
  rewrite dict_pop_of_list by (by apply NoDup_map_filter).
  assert (Hb : b_name b ∉ map b_name done_bs).
  { rewrite map_app in Hbs. apply NoDup_app in Hbs as (_ & H & _).
    intros Hin. apply (H _ Hin). set_solver. }
  replace (find (fun c => pystr_eqb (c_name c) (b_name b))
             (List.filter (unprofiled done_bs) (components s)))
    with (find (fun c => pystr_eqb (c_name c) (b_name b)) (components s)).
  2:{ clear IH Hs. induction (components s) as [|c cs IHc]; simpl; [done|].
      destruct (pystr_eqb (c_name c) (b_name b)) eqn:E.
      - pose proof (proj1 (pystr_eqb_true _ _) E) as Hn. unfold unprofiled at 1.
        rewrite bool_decide_false by (by rewrite Hn). simpl. by rewrite E.
      - destruct (unprofiled done_bs c); simpl; by rewrite ?E. }
  replace (List.filter (fun x => negb (pystr_eqb (c_name x) (b_name b)))
             (List.filter (unprofiled done_bs) (components s)))
    with (List.filter (unprofiled (done_bs ++ [b])) (components s)).
  2:{ clear. induction (components s) as [|c cs IHc]; simpl; [done|].
      assert (Hu : unprofiled (done_bs ++ [b]) c
                   = unprofiled done_bs c && negb (pystr_eqb (c_name c) (b_name b))).
      { unfold unprofiled, pystr_eqb. rewrite map_app. simpl. rewrite <- negb_orb. f_equal.
        rewrite <- bool_decide_or. apply bool_decide_ext. by rewrite elem_of_snoc. }
      rewrite Hu. destruct (unprofiled done_bs c); simpl; [|done].
      destruct (pystr_eqb (c_name c) (b_name b)); simpl; by rewrite IHc. }
  specialize (IH (done_bs ++ [b])). rewrite <- !app_assoc in IH. simpl in IH.
  rewrite (map_app (profiled s r) done_bs [b]) in IH. apply IH. done.
Qed.

Lemma merge_attribution_eq s bs r :
  NoDup (map c_name (components s)) -> NoDup (map b_name bs) ->
  merge_attribution s bs r
  = construct_focus_state
      (mk_ProfileFocusState (active_component s) (merged_components s r bs) (Some r)).
Proof.
  intros Hs Hbs. unfold merge_attribution. rewrite dict_of_list by done. simpl.
  pose proof (merge_fold s r bs [] Hs Hbs) as H. simpl in H.
  replace (List.filter (unprofiled []) (components s)) with (components s) in H.
  2:{ clear. induction (components s) as [|c cs IH]; simpl; [done|]. by rewrite <- IH. }
  rewrite H. by rewrite map_map, map_id.
Qed.

Lemma profiled_name s r item : c_name (profiled s r item) = b_name item.
Proof.
  unfold profiled. simpl. destruct (find _ _) as [c|] eqn:E; [|done].
  apply find_some in E as [_ E]. by apply pystr_eqb_true.
Qed.

(** A profiled component keeps everything but its attribution. *)
Lemma profiled_origin s r item c :
  find (fun c => pystr_eqb (c_name c) (b_name item)) (components s) = Some c ->
  c_name (profiled s r item) = c_name c /\ c_status (profiled s r item) = c_status c /\
  c_rounds_spent (profiled s r item) = c_rounds_spent c /\
  c_stalled_rounds (profiled s r item) = c_stalled_rounds c /\
  c_improvement_history (profiled s r item) = c_improvement_history c.
Proof. intros H. unfold profiled. by rewrite H. Qed.

Lemma find_name_Some (cs : list ProfileGuidedComponent) c :
  NoDup (map c_name cs) -> c ∈ cs ->
  find (fun x => pystr_eqb (c_name x) (c_name c)) cs = Some c.
Proof.
  induction cs as [|x cs IH]; simpl; intros Hn Hc; [by apply not_elem_of_nil in Hc|].
  apply NoDup_cons in Hn as [Hx Hn]. apply elem_of_cons in Hc as [-> | Hc].
  - by rewrite pystr_eqb_refl.
  - unfold pystr_eqb at 1. rewrite bool_decide_false; [by apply IH|].
    intros E. apply Hx. rewrite E. by apply elem_of_map_1.
Qed.

(** Distinct names identify components. *)
Lemma component_unique (cs : list ProfileGuidedComponent) c1 c2 :
  NoDup (map c_name cs) -> c1 ∈ cs -> c2 ∈ cs -> c_name c1 = c_name c2 -> c1 = c2.
Proof.
  intros Hn H1 H2 He. pose proof (find_name_Some cs c1 Hn H1) as E1.
  rewrite He, (find_name_Some cs c2 Hn H2) in E1. congruence.
Qed.

Lemma merged_names s r bs :
  map c_name (merged_components s r bs)
  = map b_name bs ++ map c_name (List.filter (unprofiled bs) (components s)).
Proof.
  unfold merged_components. rewrite map_app, map_map. f_equal.
  apply map_ext. intros b. apply profiled_name.
Qed.

Lemma merged_names_NoDup s r bs :
  NoDup (map c_name (components s)) -> NoDup (map b_name bs) ->
  NoDup (map c_name (merged_components s r bs)).
Proof.
  intros Hs Hb. rewrite merged_names. apply NoDup_app. split_and!; [done| |by apply NoDup_map_filter].
  intros n Hn Hc. rewrite elem_of_map in Hc. destruct Hc as (c & -> & [_ Hc]%elem_of_filter). unfold unprofiled in Hc.
  by rewrite bool_decide_true in Hc.
Qed.

(** Every component of the state survives a merge, with its status and counters. *)
Lemma merged_keeps s r bs c :
  NoDup (map c_name (components s)) -> c ∈ components s ->
  exists c', c' ∈ merged_components s r bs /\ c_name c' = c_name c /\ c_status c' = c_status c /\
    c_rounds_spent c' = c_rounds_spent c /\ c_stalled_rounds c' = c_stalled_rounds c /\
    c_improvement_history c' = c_improvement_history c.
Proof.
  intros Hs Hc. unfold merged_components. setoid_rewrite elem_of_app.
  destruct (unprofiled bs c) eqn:E.
  - exists c. split; [right|done]. by apply elem_of_filter.
  - unfold unprofiled in E. rewrite negb_false_iff, bool_decide_eq_true in E.
    rewrite elem_of_map in E. destruct E as (b & Hn & Hb).
    exists (profiled s r b). split; [left; by apply elem_of_map_1|].
    apply profiled_origin. rewrite <- Hn. by apply find_name_Some.
Qed.

(** Conversely a merged component is a kept one, or a new open one. *)
Lemma merged_origin s r bs c' :
  c' ∈ merged_components s r bs ->
  (exists c, c ∈ components s /\ c_name c' = c_name c /\ c_status c' = c_status c) \/
  c_status c' = OPEN.
Proof.
  unfold merged_components. rewrite elem_of_app, elem_of_map, elem_of_filter.
  intros [(b & -> & _)|[Hc _]]; [|by left; exists c'].
  destruct (find (fun c => pystr_eqb (c_name c) (b_name b)) (components s)) as [c|] eqn:E.
  - left. exists c. destruct (profiled_origin s r b c E) as (? & ? & _).
    apply find_some in E as [? _]. by rewrite list_elem_of_In.
  - right. unfold profiled. by rewrite E.
Qed.

(** A list of distinct names with exactly the members of [l]. *)
Lemma NoDup_same_members {A} (l1 l2 : list A) :
  NoDup l1 -> NoDup l2 -> length l2 = 1%nat \/ l2 = [] ->
  (forall x, x ∈ l1 <-> x ∈ l2) -> l1 = l2.
Proof.
  intros H1 H2 Hl Hx. assert (Hp : l1 ≡ₚ l2) by by apply NoDup_Permutation.
  destruct Hl as [Hl | ->]; [|by apply Permutation_nil_r in Hp].
  destruct l2 as [|y [|]]; try done. by apply Permutation_singleton_r in Hp.
Qed.

Lemma active_names_spec s :
  valid_cursor s = true -> forall n,
  active_component s = Some n <-> exists c, c ∈ components s /\ c_name c = n /\ c_status c = ACTIVE.
Proof.
  intros [_ Ha]%valid_cursor_spec n.
  assert (Hm : n ∈ map c_name (List.filter is_active (components s)) <->
    exists c, c ∈ components s /\ c_name c = n /\ c_status c = ACTIVE).
  { rewrite elem_of_map. setoid_rewrite elem_of_filter. unfold is_active.
    setoid_rewrite bool_decide_eq_true. naive_solver. }
  rewrite <- Hm, Ha. destruct (active_component s); set_solver.
Qed.

Lemma merge_cursor s bs r :
  valid_cursor s = true -> NoDup (map b_name bs) ->
  valid_cursor (mk_ProfileFocusState (active_component s) (merged_components s r bs) (Some r)) = true.
Proof.
  intros Hv Hb. pose proof (proj1 (valid_cursor_spec s) Hv) as [Hs Ha].
  apply valid_cursor_spec. simpl. pose proof (merged_names_NoDup s r bs Hs Hb) as Hn.
  split; [done|]. apply NoDup_same_members.
  - by apply NoDup_map_filter.
  - destruct (active_component s); [apply NoDup_singleton|constructor].
  - destruct (active_component s); [by left|by right].
  - intros n. rewrite elem_of_map. setoid_rewrite elem_of_filter.
    unfold is_active. setoid_rewrite bool_decide_eq_true.
    transitivity (active_component s = Some n); [|destruct (active_component s); set_solver].
    rewrite (active_names_spec s Hv n). split.
    + intros (c' & -> & Hc' & Hact).
      destruct (merged_origin s r bs c' Hc') as [(c & ? & ? & ?)|?]; [|congruence].
      exists c. split_and!; congruence.
    + intros (c & Hc & <- & Hact). destruct (merged_keeps s r bs c Hs Hc) as (c' & ? & ? & ? & _).
      exists c'. split_and!; congruence.
Qed.

(** *** Selecting a component *)

Definition selected (s : ProfileFocusState) (override : option pystr) : ProfileFocusState :=
  let closed := map close_active (components s) in
  match choose_component s override with
  | None => s <| components := closed |> <| active_component := None |>
  | Some i => s <| components := alter (fun c => c <| c_status := ACTIVE |>) i closed |>
                <| active_component := option_map c_name (closed !! i) |>
  end.

Lemma select_component_eq s o : select_component s o = validate_focus_state (selected s o).
Proof. unfold select_component, selected. by destruct (choose_component s o). Qed.

Lemma close_active_name c : c_name (close_active c) = c_name c.
Proof. unfold close_active. by destruct (is_active c). Qed.

Lemma close_active_inactive c : c_status (close_active c) <> ACTIVE.
Proof.
  unfold close_active, is_active. by case_bool_decide.
Qed.

Lemma close_active_open c : is_open (close_active c) = is_open c.
Proof. unfold close_active, is_active, is_open. by destruct c as [? []]. Qed.

Lemma close_active_ok c : component_ok (close_active c) = component_ok c.
Proof. unfold close_active. by destruct (is_active c). Qed.

Lemma choose_component_open s o i :
  choose_component s o = Some i -> exists c, components s !! i = Some c /\ is_open c = true.
Proof.
  unfold choose_component.
  destruct (find_index _ (components s)) as [j|] eqn:E1; [|
    destruct (find_index _ (components s)) as [j|] eqn:E2 in |- * ]; intros H;
    try (injection H as ->);
    match goal with H : find_index _ _ = Some _ |- _ =>
      apply find_index_Some in H as [(c & Hc & Hp) _] end; exists c;
    rewrite ?andb_true_iff in Hp; naive_solver.
Qed.

Lemma map_alter_name (f : ProfileGuidedComponent -> ProfileGuidedComponent) i cs :
  (forall c, c_name (f c) = c_name c) -> map c_name (alter f i cs) = map c_name cs.
Proof.
  intros Hf. revert i. induction cs as [|c cs IH]; intros [|i]; simpl; try done.
  - by rewrite Hf.
  - unfold alter in IH. by rewrite IH.
Qed.

Lemma elem_of_alter {A} (f : A -> A) i (l : list A) x :
  x ∈ alter f i l -> x ∈ l \/ exists y, y ∈ l /\ x = f y.
Proof.
  revert i. induction l as [|y l IH]; intros [|i] H; simpl in H; try by apply not_elem_of_nil in H.
  - apply elem_of_cons in H as [-> | H]; set_solver.
  - apply elem_of_cons in H as [-> | H]; [set_solver|]. apply IH in H. set_solver.
Qed.

Lemma filter_active_alter i cs c :
  (forall x, x ∈ cs -> is_active x = false) -> cs !! i = Some c ->
  List.filter is_active (alter (fun c => c <| c_status := ACTIVE |>) i cs)
  = [c <| c_status := ACTIVE |>].
Proof.
  revert i. induction cs as [|x cs IH]; intros [|i] Hc Hi; simpl in Hi |- *; try done.
  - injection Hi as ->. f_equal. clear IH. induction cs as [|y cs IH]; simpl; [done|].
    rewrite (Hc y) by set_solver. apply IH. set_solver.
  - rewrite (Hc x) by set_solver. apply IH; [set_solver|done].
Qed.

Lemma selected_names s o : map c_name (components (selected s o)) = map c_name (components s).
Proof.
  unfold selected. destruct (choose_component s o) as [i|]; simpl; rewrite ?map_alter_name by done;
    rewrite map_map; apply map_ext; apply close_active_name.
Qed.

Lemma closed_inactive cs x : x ∈ map close_active cs -> is_active x = false.
Proof.
  intros (c & -> & _)%elem_of_map. unfold is_active. apply bool_decide_eq_false.
  apply close_active_inactive.
Qed.

Lemma selected_cursor s o : NoDup (map c_name (components s)) -> valid_cursor (selected s o) = true.
Proof.
  intros Hs. apply valid_cursor_spec. rewrite selected_names. split; [done|].
  unfold selected. destruct (choose_component s o) as [i|] eqn:E; simpl.
  - apply choose_component_open in E as (c & Hc & _).
    assert (Hl : map close_active (components s) !! i = Some (close_active c))
      by (by rewrite list_lookup_fmap, Hc).
    rewrite (filter_active_alter i _ (close_active c)) by (done || apply closed_inactive).
    by rewrite Hl.
  - assert (H : List.filter is_active (map close_active (components s)) = []); [|by rewrite H].
    pose proof (closed_inactive (components s)) as Hi.
    induction (map close_active (components s)) as [|x l IH]; simpl; [done|].
    rewrite (Hi x) by set_solver. apply IH. set_solver.
Qed.

Lemma selected_ok s o :
  (forall c, c ∈ components s -> component_ok c = true) ->
  forall c, c ∈ components (selected s o) -> component_ok c = true.
Proof.
  intros H c Hc. unfold selected in Hc. destruct (choose_component s o) as [i|]; simpl in Hc.
  - apply elem_of_alter in Hc as [Hc|(c0 & Hc & ->)]; apply elem_of_map in Hc as (c1 & -> & Hc1).
    + rewrite close_active_ok. auto.
    + change (component_ok (close_active c1) = true). rewrite close_active_ok. auto.
  - apply elem_of_map in Hc as (c1 & -> & Hc1). rewrite close_active_ok. auto.
Qed.

Lemma select_component_Ok s o :
  NoDup (map c_name (components s)) -> (forall c, c ∈ components s -> component_ok c = true) ->
  opt_ok (fun r => 0 <? r) (ranking_round s) = true -> select_component s o = Ok (selected s o).
Proof.
  intros Hn Hc Hr. rewrite select_component_eq. apply validate_focus_Ok. split_and!; [done| | |].
  - by apply selected_ok.
  - unfold selected. by destruct (choose_component s o).
  - by apply selected_cursor.
Qed.

(** A round's attribution sample replaces the ones of the same round, so the history stays
    ordered as long as rounds do not go backwards. *)
Lemma profiled_ok s r b :
  (forall c, c ∈ components s -> component_ok c = true /\
     forall x, x ∈ c_attribution_history c -> as_round x <= r) ->
  0 < r -> str_truthy (b_name b) = true -> cost_ok (b_cost b) = true -> share_ok (b_share b) = true ->
  component_ok (profiled s r b) = true.
Proof.
  intros Hc Hr Hn Hcost Hshare. unfold profiled.
  set (c := match find _ _ with Some c => c | None => _ end).
  assert (Hok : component_ok c = true /\ forall x, x ∈ c_attribution_history c -> as_round x <= r).
  { subst c. destruct (find _ _) as [c|] eqn:E.
    - apply find_some in E as [E _]. apply Hc. by apply list_elem_of_In.
    - split; [|by intros x ?%not_elem_of_nil]. unfold component_ok. simpl. by rewrite Hn. }
  destruct Hok as [Hok Hle]. unfold component_ok in Hok |- *.
  rewrite !andb_true_iff in Hok. destruct Hok as [[[[[[[H1 H2] H3] H4] H5] H6] H7] H8].
  unfold ordered_history in H8 |- *. apply andb_true_iff in H8 as [H8 H9]. simpl.
  rewrite H1, H2, H3, Hcost, Hshare, H7, H9, andb_true_r. simpl.
  rewrite forallb_app. simpl. unfold attribution_sample_ok at 2. simpl.
  rewrite (proj2 (Z.ltb_lt 0 r) Hr), Hcost, Hshare, !andb_true_r. simpl.
  apply andb_true_iff. split.
  - rewrite forallb_forall in H6 |- *. intros x [Hx _]%filter_In. auto.
  - rewrite map_app. simpl. apply strictly_increasing_snoc. split.
    + apply strictly_increasing_spec. apply strictly_increasing_spec in H8.
      clear - H8. induction (c_attribution_history c) as [|x l IH]; simpl in *; [constructor|].
      apply StronglySorted_inv in H8 as [H8 Hx]. destruct (negb _); simpl; [|auto].
      constructor; [auto|]. rewrite List.Forall_forall in *. intros y Hy.
      apply Hx. apply in_map_iff in Hy as (z & <- & [Hz _]%filter_In). by apply in_map.
    + intros y (x & -> & [Hx Hne]%elem_of_filter)%elem_of_map.
      apply negb_true_iff, Z.eqb_neq in Hne. specialize (Hle x Hx). lia.
Qed.

(** What [observe] returns on well-formed input. *)
Definition observed (s : ProfileFocusState) (r : Z) (bs : list ProfileBottleneck)
  (o : option pystr) : ProfileFocusState :=
  selected (mk_ProfileFocusState (active_component s) (merged_components s r bs) (Some r)) o.

(** The attribution of one round, as the profiler's parser hands it over. *)
Definition attribution_ok (r : Z) (bs : list ProfileBottleneck) (s : ProfileFocusState) : Prop :=
  0 < r /\ NoDup (map b_name bs) /\
  (forall b, b ∈ bs -> str_truthy (b_name b) = true /\ cost_ok (b_cost b) = true /\
     share_ok (b_share b) = true) /\
  (forall c x, c ∈ components s -> x ∈ c_attribution_history c -> as_round x <= r).

Lemma observe_Ok s r bs o :
  valid_focus s -> attribution_ok r bs s -> observe s r bs o = Ok (observed s r bs o).
Proof.
  intros (_ & Hc & _ & Hcur)%validate_focus_Ok (Hr & Hnd & Hbs & Hle).
  pose proof (proj1 (valid_cursor_spec s) Hcur) as [Hn _].
  unfold observe. rewrite merge_attribution_eq by done.
  unfold construct_focus_state. rewrite merge_cursor by done. simpl.
  rewrite (proj2 (Z.ltb_lt 0 r) Hr). simpl. apply select_component_Ok.
  - by apply merged_names_NoDup.
  - intros c Hin. simpl in Hin. unfold merged_components in Hin.
    apply elem_of_app in Hin as [(b & -> & Hb)%elem_of_map|[Hin _]%elem_of_filter]; [|auto].
    destruct (Hbs b Hb) as (? & ? & ?). apply profiled_ok; try done. eauto.
  - simpl. by apply Z.ltb_lt.
Qed.

(** *** Openness survives observation *)

Definition exhausted (s : ProfileFocusState) (n : pystr) : Prop :=
  exists c, c ∈ components s /\ c_name c = n /\ c_status c = EXHAUSTED.
Definition open_component (s : ProfileFocusState) (n : pystr) : Prop :=
  exists c, c ∈ components s /\ c_name c = n /\ is_open c = true.

Definition openness (cs : list ProfileGuidedComponent) : list (pystr * bool) :=
  map (fun c => (c_name c, is_open c)) cs.

Lemma is_open_false c : is_open c = false <-> c_status c = EXHAUSTED.
Proof. unfold is_open. by rewrite negb_false_iff, bool_decide_eq_true. Qed.

Lemma openness_alter i cs c :
  cs !! i = Some c -> is_open c = true ->
  openness (alter (fun c => c <| c_status := ACTIVE |>) i cs) = openness cs.
Proof.
  revert i. induction cs as [|x cs IH]; intros [|i] Hi Ho; simpl in Hi |- *; try done.
  - injection Hi as ->. by rewrite Ho.
  - f_equal. by apply IH.
Qed.

Lemma openness_selected s o : openness (components (selected s o)) = openness (components s).
Proof.
  assert (Hclosed : openness (map close_active (components s)) = openness (components s)).
  { unfold openness. rewrite map_map. apply map_ext. intros c.
    by rewrite close_active_name, close_active_open. }
  unfold selected. destruct (choose_component s o) as [i|] eqn:E; simpl; [|done].
  apply choose_component_open in E as (c & Hc & Ho).
  rewrite (openness_alter i _ (close_active c)); [done| |by rewrite close_active_open].
  by rewrite list_lookup_fmap, Hc.
Qed.

Lemma openness_elem cs n b :
  (n, b) ∈ openness cs <-> exists c, c ∈ cs /\ c_name c = n /\ is_open c = b.
Proof. unfold openness. rewrite elem_of_map. naive_solver. Qed.

Lemma selected_open s o n b :
  (exists c, c ∈ components (selected s o) /\ c_name c = n /\ is_open c = b) <->
  (exists c, c ∈ components s /\ c_name c = n /\ is_open c = b).
Proof. by rewrite <- !openness_elem, openness_selected. Qed.

Lemma choose_component_spec s o i :
  choose_component s o = Some i ->
  exists c, components s !! i = Some c /\ active_component (selected s o) = Some (c_name c) /\
    is_open c = true.
Proof.
  intros E. pose proof (choose_component_open _ _ _ E) as (c & Hc & Ho). exists c.
  unfold selected. rewrite E. simpl. rewrite list_lookup_fmap, Hc. simpl.
  by rewrite close_active_name.
Qed.

(** The component a name selects, when one is open. *)
Lemma named_index (cs : list ProfileGuidedComponent) (name : option pystr) :
  match find_index (fun c => bool_decide (Some (c_name c) = name) && is_open c) cs with
  | Some i => exists c, cs !! i = Some c /\ Some (c_name c) = name /\ is_open c = true
  | None => forall c, c ∈ cs -> Some (c_name c) = name -> is_open c = false
  end.
Proof.
  destruct (find_index _ cs) as [i|] eqn:E.
  - apply find_index_Some in E as [(c & Hc & Hp) _]. exists c.
    apply andb_true_iff in Hp as [Hp ?]. by apply bool_decide_eq_true in Hp.
  - rewrite find_index_None in E. intros c Hc Hn. specialize (E c Hc). rewrite bool_decide_true in E by done. done.
Qed.

Lemma selected_active s o :
  (forall n, o = Some n -> open_component s n -> active_component (selected s o) = Some n) /\
  (forall a, active_component s = Some a -> (forall n, o = Some n -> ~ open_component s n) ->
     open_component s a -> active_component (selected s o) = Some a) /\
  (active_component (selected s o) = None <-> forall c, c ∈ components s -> c_status c = EXHAUSTED).
Proof.
  pose proof (named_index (components s) o) as Ho.
  pose proof (named_index (components s) (active_component s)) as Ha.
  assert (Hchoose : forall i, choose_component s o = Some i ->
    forall c, components s !! i = Some c -> active_component (selected s o) = Some (c_name c)).
  { intros i Hi c Hc. destruct (choose_component_spec s o i Hi) as (c' & Hc' & ? & _). congruence. }
  unfold choose_component in Hchoose.
  destruct (find_index (fun c => bool_decide (Some (c_name c) = o) && is_open c) (components s)) as [i|] eqn:E1.
  { destruct Ho as (c & Hc & Hn & Hopen). specialize (Hchoose i eq_refl c Hc). split_and!.
    - intros n -> _. congruence.
    - intros a _ Hno _. exfalso. apply (Hno (c_name c) (eq_sym Hn)). exists c.
      split_and!; [by eapply list_elem_of_lookup_2|done|done].
    - split; [congruence|]. intros Hall. apply list_elem_of_lookup_2, Hall, is_open_false in Hc. congruence. }
  split.
  { intros n -> (c & Hc & <- & Hopen). by rewrite (Ho c Hc eq_refl) in Hopen. }
  destruct (find_index (fun c => bool_decide (Some (c_name c) = active_component s) && is_open c)
    (components s)) as [i|] eqn:E2.
  { destruct Ha as (c & Hc & Hn & Hopen). specialize (Hchoose i eq_refl c Hc). split.
    - intros a Ha' _ _. congruence.
    - split; [congruence|]. intros Hall. apply list_elem_of_lookup_2, Hall, is_open_false in Hc. congruence. }
  split.
  { intros a Ha' _ (c & Hc & <- & Hopen). by rewrite (Ha c Hc (eq_sym Ha')) in Hopen. }
  destruct (find_index is_open (components s)) as [i|] eqn:E3.
  - pose proof (proj1 (find_index_Some _ _ _) E3) as [(c & Hc & Hopen) _].
    specialize (Hchoose i eq_refl c Hc). split; [congruence|].
    intros Hall. apply list_elem_of_lookup_2, Hall, is_open_false in Hc. congruence.
  - split; [|intros _; unfold selected, choose_component; by rewrite E1, E2, E3].
    intros _ c Hc. apply is_open_false. by apply (proj1 (find_index_None _ _) E3).
Qed.

(** *** A measured round *)

Lemma apply_round_name cfg r x c : c_name (apply_round cfg r x c) = c_name c.
Proof. unfold apply_round. by destruct (_ <=? _). Qed.

Lemma apply_round_stalled cfg r x c :
  c_stalled_rounds (apply_round cfg r x c)
  = if f_ge x (min_relative_improvement cfg) then 0 else c_stalled_rounds c + 1.
Proof. unfold apply_round. by destruct (_ <=? _). Qed.

Lemma apply_round_status cfg r x c :
  c_status (apply_round cfg r x c)
  = if plateau_min_rounds cfg <=? c_stalled_rounds (apply_round cfg r x c) then EXHAUSTED
    else c_status c.
Proof. rewrite apply_round_stalled. unfold apply_round. by destruct (_ <=? _). Qed.

Lemma apply_round_ok cfg r x c :
  component_ok c = true -> 0 < r -> f_finite x = true ->
  (forall y, y ∈ c_improvement_history c -> is_round y < r) ->
  component_ok (apply_round cfg r x c) = true.
Proof.
  intros Hok Hr Hx Hlt.
  assert (H : component_ok (apply_round cfg r x c)
    = component_ok (c <| c_rounds_spent := c_rounds_spent c + 1 |>
        <| c_improvement_history := c_improvement_history c ++ [mk_ProfileImprovementSample r x] |>
        <| c_stalled_rounds := if f_ge x (min_relative_improvement cfg) then 0
                               else c_stalled_rounds c + 1 |>))
    by (unfold apply_round; by destruct (_ <=? _)).
  rewrite H. unfold component_ok, ordered_history in *. simpl.
  rewrite !andb_true_iff in *. destruct Hok as (((((((H1 & H2) & H3) & H4) & H5) & H6) & H7) & H8 & H9).
  rewrite !Z.leb_le in *. split_and!; try done; try lia.
  - destruct (f_ge _ _); lia.
  - rewrite forallb_app, H7. simpl. unfold improvement_sample_ok. simpl.
    by rewrite (proj2 (Z.ltb_lt 0 r) Hr), Hx.
  - rewrite map_app. apply strictly_increasing_snoc. split; [done|].
    intros y (z & -> & Hz)%elem_of_map. auto.
Qed.

(** The state [record] commits for an active component. *)
Definition recorded (cfg : ProfileFocusConfig) (s : ProfileFocusState) (i : nat)
  (c : ProfileGuidedComponent) (r : Z) (x : float) : ProfileFocusState :=
  mk_ProfileFocusState
    (if plateau_min_rounds cfg <=? c_stalled_rounds (apply_round cfg r x c) then None
     else Some (c_name c))
    (alter (apply_round cfg r x) i (components s)) None.

Lemma active_index s a :
  valid_cursor s = true -> active_component s = Some a ->
  exists i c, find_index (fun c => pystr_eqb (c_name c) a) (components s) = Some i /\
    components s !! i = Some c /\ c_name c = a /\ c_status c = ACTIVE.
Proof.
  intros Hv Ha. pose proof (proj1 (valid_cursor_spec s) Hv) as [Hn _].
  apply (active_names_spec s Hv) in Ha as (c & Hc & <- & Hst).
  destruct (find_index (fun c0 => pystr_eqb (c_name c0) (c_name c)) (components s)) as [i|] eqn:E.
  - exists i, c. split_and!; try done.
    apply find_index_Some in E as [(c' & Hc' & Heq%pystr_eqb_true) _].
    apply list_elem_of_lookup in Hc as [j Hj].
    assert (i = j) as ->; [|done].
    eapply NoDup_lookup; [exact Hn| |]; rewrite list_lookup_fmap; [by rewrite Hc'|].
    rewrite Hj. simpl. by rewrite Heq.
  - rewrite find_index_None in E. specialize (E c Hc). by rewrite pystr_eqb_refl in E.
Qed.

Lemma alter_active_names cfg r x i c s :
  components s !! i = Some c -> valid_cursor s = true -> c_status c = ACTIVE ->
  valid_cursor (recorded cfg s i c r x) = true.
Proof.
  intros Hi Hv Hst. pose proof (proj1 (valid_cursor_spec s) Hv) as [Hn _].
  assert (Hname : map c_name (alter (apply_round cfg r x) i (components s)) = map c_name (components s))
    by (apply map_alter_name; apply apply_round_name).
  apply valid_cursor_spec. unfold recorded. simpl. rewrite Hname. split; [done|].
  apply NoDup_same_members.
  - apply NoDup_map_filter. by rewrite Hname.
  - destruct (_ <=? _); [constructor|apply NoDup_singleton].
  - destruct (_ <=? _); [by right|by left].
  - intros n. rewrite elem_of_map. setoid_rewrite elem_of_filter. unfold is_active.
    setoid_rewrite bool_decide_eq_true.
    assert (Huniq : forall j y, components s !! j = Some y -> c_status y = ACTIVE -> j = i).
    { intros j y Hj Hy. eapply NoDup_lookup; [exact Hn| |]; rewrite list_lookup_fmap; [by rewrite Hj|].
      rewrite Hi. simpl. f_equal.
      assert (H1 : active_component s = Some (c_name c))
        by (apply (active_names_spec s Hv); exists c; split_and!; [by eapply list_elem_of_lookup_2|done|done]).
      assert (H2 : active_component s = Some (c_name y))
        by (apply (active_names_spec s Hv); exists y; split_and!; [by eapply list_elem_of_lookup_2|done|done]).
      congruence. }
    transitivity (n = c_name c /\ c_status (apply_round cfg r x c) = ACTIVE).
    + split.
      * intros (y & -> & Hy & Hact). apply list_elem_of_lookup in Hy as [j Hj].
        destruct (decide (j = i)) as [->|Hne].
        -- rewrite list_lookup_alter_eq, Hi in Hj. injection Hj as <-.
           by rewrite apply_round_name.
        -- rewrite list_lookup_alter_ne in Hj by done. by rewrite (Huniq j y Hj Hact) in Hne.
      * intros [-> Hact]. exists (apply_round cfg r x c). rewrite apply_round_name. split_and!; try done.
        apply (list_elem_of_lookup_2 _ i). by rewrite list_lookup_alter_eq, Hi.
    + rewrite apply_round_status. destruct (_ <=? _); set_solver.
Qed.

(** The measured improvement arrives in a later round than every recorded one. *)
Definition measurement_ok (s : ProfileFocusState) (r : Z) (x : float) : Prop :=
  0 < r /\ f_finite x = true /\
  forall c y, c ∈ components s -> y ∈ c_improvement_history c -> is_round y < r.

Lemma record_Ok cfg s a r x :
  valid_focus s -> active_component s = Some a -> measurement_ok s r x ->
  exists i c, components s !! i = Some c /\ c_name c = a /\ c_status c = ACTIVE /\
    record cfg s r true (Some x) = Ok (recorded cfg s i c r x) /\ valid_focus (recorded cfg s i c r x).
Proof.
  intros (_ & Hc & _ & Hcur)%validate_focus_Ok Ha (Hr & Hx & Hlt).
  destruct (active_index s a Hcur Ha) as (i & c & Hf & Hi & Hn & Hst).
  exists i, c.
  assert (Hval : valid_focus (recorded cfg s i c r x)).
  { apply validate_focus_Ok. split_and!; [done| |done|by apply alter_active_names].
    intros y Hy. simpl in Hy. apply list_elem_of_lookup in Hy as [j Hj].
    destruct (decide (j = i)) as [->|Hne].
    - rewrite list_lookup_alter_eq, Hi in Hj. injection Hj as <-.
      apply list_elem_of_lookup_2 in Hi. apply apply_round_ok; eauto.
    - rewrite list_lookup_alter_ne in Hj by done. apply Hc. by eapply list_elem_of_lookup_2. }
  split_and!; try done.
  unfold record. rewrite Ha, Hf. simpl. rewrite list_lookup_alter_eq, Hi. simpl.
  subst a. exact Hval.
Qed.

(** ** Properties *)

(** On a valid state and an attribution whose names are distinct and whose round is not older
    than the history, [observe] returns a valid state that ranks this round and still tracks
    every component. *)
Theorem observe_total (s : ProfileFocusState) (r : Z) (bs : list ProfileBottleneck)
  (o : option pystr) :
  valid_focus s -> attribution_ok r bs s ->
  exists s', observe s r bs o = Ok s' /\ valid_focus s' /\ ranking_round s' = Some r /\
    forall n, n ∈ map c_name (components s) -> n ∈ map c_name (components s').
Proof.
  intros Hv Hb. exists (observed s r bs o). pose proof (observe_Ok s r bs o Hv Hb) as H.
  split_and!; [done| |by unfold observed, selected; destruct (choose_component _ o)|].
  - unfold valid_focus. unfold observe in H. destruct (merge_attribution s bs r) as [m|]; [|done].
    simpl in H. rewrite select_component_eq in H.
    pose proof H as (Heq & _)%validate_focus_Ok. rewrite Heq at 1. exact H.
  - intros n (c & -> & Hc)%elem_of_map. unfold observed. rewrite selected_names. simpl.
    apply validate_focus_Ok in Hv as (_ & _ & _ & [Hn _]%valid_cursor_spec).
    destruct (merged_keeps s r bs c Hn Hc) as (c' & Hc' & <- & _). by apply elem_of_map_1.
Qed.

(** [observe] activates the override when it names an open component, else keeps the current
    component while it is open, and leaves no component active exactly when all are
    exhausted. *)
Theorem observe_selects (s s' : ProfileFocusState) (r : Z) (bs : list ProfileBottleneck)
  (o : option pystr) :
  valid_focus s -> attribution_ok r bs s -> observe s r bs o = Ok s' ->
  (forall n, o = Some n -> open_component s' n -> active_component s' = Some n) /\
  (forall a, active_component s = Some a -> (forall n, o = Some n -> ~ open_component s' n) ->
     open_component s' a -> active_component s' = Some a) /\
  (active_component s' = None <-> forall c, c ∈ components s' -> c_status c = EXHAUSTED).
Proof.
  intros Hv Hb H. rewrite observe_Ok in H by done. injection H as <-.
  set (m := mk_ProfileFocusState (active_component s) (merged_components s r bs) (Some r)).
  destruct (selected_active m o) as (H1 & H2 & H3). change (observed s r bs o) with (selected m o).
  unfold open_component in *. split_and!.
  - intros n Hn Hopen. by apply H1, (selected_open m o n true).
  - intros a Ha Hno Hopen. apply H2; [done| |by apply (selected_open m o a true)].
    intros n Hn Hm. by apply (Hno n Hn), (selected_open m o n true).
  - rewrite H3. split; intros Hall c Hc.
    + apply is_open_false. destruct (is_open c) eqn:E; [|done].
      destruct (proj1 (selected_open m o (c_name c) true)) as (c' & Hc' & _ & Ho'); [by exists c|].
      by rewrite (proj2 (is_open_false c') (Hall c' Hc')) in Ho'.
    + apply is_open_false. destruct (is_open c) eqn:E; [|done].
      destruct (proj2 (selected_open m o (c_name c) true)) as (c' & Hc' & _ & Ho'); [by exists c|].
      by rewrite (proj2 (is_open_false c') (Hall c' Hc')) in Ho'.
Qed.

(** One call of the policy on a persisted state. *)
Inductive focus_step (cfg : ProfileFocusConfig) : ProfileFocusState -> ProfileFocusState -> Prop :=
| step_observe s s' r bs o :
    attribution_ok r bs s -> observe s r bs o = Ok s' -> focus_step cfg s s'
| step_record s s' r x :
    measurement_ok s r x -> record cfg s r true (Some x) = Ok s' -> focus_step cfg s s'
| step_unmeasured s s' r passed x :
    passed = false \/ x = None -> record cfg s r passed x = Ok s' -> focus_step cfg s s'.

Lemma focus_step_safe cfg s s' :
  focus_step cfg s s' -> valid_focus s ->
  valid_focus s' /\ forall n, exhausted s n -> exhausted s' n.
Proof.
  intros [s0 s1 r bs o Hb H|s0 s1 r x Hm H|s0 s1 r p x Hp H] Hv.
  - destruct (observe_total s0 r bs o Hv Hb) as (s2 & H2 & Hv2 & _). rewrite H in H2.
    injection H2 as <-. split; [done|]. intros n (c & Hc & <- & Hex).
    rewrite observe_Ok in H by done. injection H as <-.
    set (m := mk_ProfileFocusState (active_component s0) (merged_components s0 r bs) (Some r)).
    apply validate_focus_Ok in Hv as (_ & _ & _ & [Hn _]%valid_cursor_spec).
    destruct (merged_keeps s0 r bs c Hn Hc) as (c' & Hc' & Hname & Hst & _).
    destruct (proj2 (selected_open m o (c_name c) false)) as (c2 & Hc2 & Hn2 & Ho2).
    + exists c'. split_and!; [done|done|]. apply is_open_false. congruence.
    + exists c2. split_and!; [done|done|]. by apply is_open_false.
  - destruct (active_component s0) as [a|] eqn:Ha.
    2:{ unfold record in H. rewrite Ha in H. injection H as <-. done. }
    destruct (record_Ok cfg s0 a r x Hv Ha Hm) as (i & c & Hi & Hn & Hst & Hr & Hv').
    rewrite H in Hr. injection Hr as ->. split; [done|].
    intros n (y & Hy & <- & Hex). apply list_elem_of_lookup in Hy as [j Hj].
    exists y. split_and!; [|done|done]. apply (list_elem_of_lookup_2 _ j).
    simpl. rewrite list_lookup_alter_ne; [done|]. intros ->. congruence.
  - unfold record in H. destruct (active_component s0), x as [x|];
      try (injection H as <-; done). destruct Hp as [-> | ]; [|done]. simpl in H.
    injection H as <-. done.
Qed.

(** Along every sequence of observations and measured rounds from the initial state the
    cursor stays valid, and a component once exhausted stays exhausted and is never the active
    component again. *)
Theorem exhausted_is_final (cfg : ProfileFocusConfig) (s s' : ProfileFocusState) (n : pystr) :
  rtc (focus_step cfg) focus_initial s -> exhausted s n -> rtc (focus_step cfg) s s' ->
  valid_focus s' /\ exhausted s' n /\ active_component s' <> Some n.
Proof.
  intros Hinit Hex Hs.
  assert (Hv : valid_focus s).
  { assert (Hv0 : valid_focus focus_initial) by (vm_compute; reflexivity).
    clear Hex Hs. induction Hinit as [|s0 s1 s2 Hstep _ IH]; [done|].
    apply IH. by apply (focus_step_safe _ _ _ Hstep). }
  assert (Hall : valid_focus s' /\ exhausted s' n).
  { clear Hinit. induction Hs as [|s0 s1 s2 Hstep _ IH]; [done|].
    destruct (focus_step_safe _ _ _ Hstep Hv) as [Hv1 Hex1]. auto. }
  destruct Hall as [Hv' Hex']. split_and!; [done|done|]. intros Ha.
  apply validate_focus_Ok in Hv' as (_ & _ & _ & Hcur).
  pose proof (proj1 (valid_cursor_spec s') Hcur) as [Hn _].
  apply (active_names_spec s' Hcur) in Ha as (c & Hc & Hname & Hst).
  destruct Hex' as (c' & Hc' & Hname' & Hst').
  assert (c = c') as ->; [|congruence].
  apply (component_unique (components s')); [done|done|done|congruence].
Qed.

(** A measured round of the active component counts it, resets its stall counter exactly when
    the improvement reaches the configured minimum and otherwise advances it, exhausts the
    component and clears the cursor exactly when the counter reaches the plateau length, leaves
    every other component alone and clears the ranking. *)
Theorem record_step (cfg : ProfileFocusConfig) (s : ProfileFocusState) (a : pystr) (r : Z)
  (x : float) :
  valid_focus s -> active_component s = Some a -> measurement_ok s r x ->
  exists i c c', components s !! i = Some c /\ c_name c = a /\ c_name c' = a /\
    c_rounds_spent c' = c_rounds_spent c + 1 /\
    c_stalled_rounds c' =
      (if f_ge x (min_relative_improvement cfg) then 0 else c_stalled_rounds c + 1) /\
    c_status c' = (if plateau_min_rounds cfg <=? c_stalled_rounds c' then EXHAUSTED else ACTIVE) /\
    record cfg s r true (Some x) = Ok (mk_ProfileFocusState
      (if plateau_min_rounds cfg <=? c_stalled_rounds c' then None else Some a)
      (<[i:=c']> (components s)) None).
Proof.
  intros Hv Ha Hm. destruct (record_Ok cfg s a r x Hv Ha Hm) as (i & c & Hi & Hn & Hst & Hr & _).
  exists i, c, (apply_round cfg r x c). rewrite apply_round_name, apply_round_stalled, apply_round_status,
    apply_round_stalled, Hst, Hr. split_and!; try done.
  - unfold apply_round. by destruct (_ <=? _).
  - unfold recorded. rewrite apply_round_stalled, Hn. do 2 f_equal.
    apply list_eq. intros j. destruct (decide (i = j)) as [<-|Hne].
    + rewrite list_lookup_alter_eq, Hi, list_lookup_insert_eq; [done|]. by eapply lookup_lt_Some.
    + by rewrite list_lookup_alter_ne, list_lookup_insert_ne.
Qed.

(** The active component, and how long it has stalled. *)
Definition stalled_for (s : ProfileFocusState) (k : Z) : Prop :=
  forall a, active_component s = Some a ->
    exists c, c ∈ components s /\ c_name c = a /\ k <= c_stalled_rounds c.

(** Consecutive measured rounds: each improvement with the round it was measured in. *)
Definition record_rounds (cfg : ProfileFocusConfig) (s : ProfileFocusState) (l : list (Z * float))
  : result ProfileFocusState :=
  foldM_result (fun s '(r, x) => record cfg s r true (Some x)) s l.

Lemma record_below cfg s r x k :
  valid_focus s -> measurement_ok s r x -> f_ge x (min_relative_improvement cfg) = false ->
  stalled_for s k ->
  exists s', record cfg s r true (Some x) = Ok s' /\ valid_focus s' /\
    (active_component s = None -> active_component s' = None) /\
    stalled_for s' (k + 1) /\ (plateau_min_rounds cfg <= k + 1 -> active_component s' = None) /\
    (forall r', r < r' -> forall y, f_finite y = true -> measurement_ok s' r' y).
Proof.
  intros Hv Hm Hx Hk. destruct (active_component s) as [a|] eqn:Ha.
  2:{ exists s. unfold record. rewrite Ha. split_and!; try done.
      - intros a' Ha'. congruence.
      - intros r' Hr' y Hy. destruct Hm as (? & _ & Hlt). split_and!; [lia|done|].
        intros c z Hc Hz. specialize (Hlt c z Hc Hz). lia. }
  destruct (record_Ok cfg s a r x Hv Ha Hm) as (i & c & Hi & Hn & Hst & Hr & Hv').
  pose proof (proj1 (validate_focus_Ok _ _) Hv) as (_ & _ & _ & [Hnd _]%valid_cursor_spec).
  exists (recorded cfg s i c r x). split_and!; try done.
  - intros a' Ha'. unfold recorded in *. simpl in *. destruct (_ <=? _); [done|].
    injection Ha' as <-. exists (apply_round cfg r x c). split_and!.
    + apply (list_elem_of_lookup_2 _ i). by rewrite list_lookup_alter_eq, Hi.
    + apply apply_round_name.
    + rewrite apply_round_stalled, Hx. destruct (Hk a Ha) as (c2 & Hc2 & Hn2 & Hle).
      assert (c2 = c) as ->; [|lia]. apply list_elem_of_lookup_2 in Hi.
      apply (component_unique (components s)); [done|done|done|congruence].
  - intros Hp. unfold recorded. simpl. rewrite apply_round_stalled, Hx.
    destruct (Hk a Ha) as (c2 & Hc2 & Hn2 & Hle).
    assert (c2 = c) as ->; [|by rewrite (proj2 (Z.leb_le _ _)) by lia].
    apply list_elem_of_lookup_2 in Hi.
    apply (component_unique (components s)); [done|done|done|congruence].
  - intros r' Hr' y Hy. destruct Hm as (? & _ & Hlt). split_and!; [lia|done|].
    intros c2 z Hc2 Hz. simpl in Hc2. apply elem_of_alter in Hc2 as [Hc2|(c3 & Hc3 & ->)].
    + specialize (Hlt c2 z Hc2 Hz). lia.
    + assert (Hh : c_improvement_history (apply_round cfg r x c3)
        = c_improvement_history c3 ++ [mk_ProfileImprovementSample r x])
        by (unfold apply_round; by destruct (_ <=? _)).
      rewrite Hh in Hz. apply elem_of_snoc in Hz as [Hz | ->]; [|done].
      specialize (Hlt c3 z Hc3 Hz). lia.
Qed.

(** The walk never stays on a component that stopped improving: as many consecutive measured
    rounds below the minimum improvement as the plateau length always run to completion and
    leave no component active. *)
Theorem plateau_terminates (cfg : ProfileFocusConfig) (s : ProfileFocusState)
  (l : list (Z * float)) :
  valid_focus s ->
  StronglySorted Z.lt (map fst l) ->
  (forall r x, (r, x) ∈ l -> measurement_ok s r x /\ f_ge x (min_relative_improvement cfg) = false) ->
  plateau_min_rounds cfg <= Z.of_nat (length l) -> l <> [] ->
  exists s', record_rounds cfg s l = Ok s' /\ active_component s' = None.
Proof.
  intros Hv Hsort Hl Hlen Hne.
  assert (Hk : stalled_for s 0).
  { intros a Ha. pose proof (proj1 (validate_focus_Ok _ _) Hv) as (_ & Hok & _ & Hcur).
    apply (active_names_spec s Hcur) in Ha as (c & Hc & Hn & _). exists c. split_and!; [done|done|].
    specialize (Hok c Hc). unfold component_ok in Hok. rewrite !andb_true_iff, !Z.leb_le in Hok. tauto. }
  assert (Hgen : forall k, stalled_for s k ->
    plateau_min_rounds cfg <= k + Z.of_nat (length l) \/ active_component s = None ->
    exists s', record_rounds cfg s l = Ok s' /\ active_component s' = None); [|by apply (Hgen 0); [|left]].
  clear Hk Hlen. revert s Hv Hsort Hl Hne. induction l as [|[r x] l IH]; [done|].
  intros s Hv Hsort Hl _ k Hk Hlen. simpl in Hsort. apply StronglySorted_inv in Hsort as [Hsort Hr].
  destruct (Hl r x ltac:(set_solver)) as [Hm Hx].
  destruct (record_below cfg s r x k Hv Hm Hx Hk) as (s1 & H1 & Hv1 & Hnone & Hk1 & Hdone & Hlater).
  unfold record_rounds. simpl. rewrite H1. simpl.
  destruct l as [|p l].
  { exists s1. split; [done|]. simpl in Hlen. destruct Hlen as [Hlen|Hlen]; [apply Hdone; lia|auto]. }
  apply (IH s1 Hv1 Hsort) with (k := k + 1); [| done | done |].
  - intros r' x' Hin. destruct (Hl r' x' ltac:(set_solver)) as [(_ & Hfin & _) Hx']. split; [|done].
    apply Hlater; [|done]. rewrite List.Forall_forall in Hr. apply Hr.
    rewrite <- list_elem_of_In. by apply (elem_of_map_1 fst _ (r', x')).
  - destruct Hlen as [Hlen|Hlen]; [left; simpl in *; lia|right; auto].
Qed.

(** ** Witnesses *)

Definition sample_bottleneck (name : string) (cost : Z) : ProfileBottleneck :=
  mk_ProfileBottleneck (py name) (f_of_Z cost) (f_div (f_of_Z 1) (f_of_Z 2)) [].
Definition sample_attribution : list ProfileBottleneck :=
  [sample_bottleneck "attention" 30; sample_bottleneck "mlp" 20].
Definition sample_focus_config : ProfileFocusConfig := mk_ProfileFocusConfig 2 f_two_hundredths.
(** The state after one observation in round 1: [attention] is active. *)
Definition sample_focus : ProfileFocusState := observed focus_initial 1 sample_attribution None.

Lemma sample_attribution_ok : attribution_ok 1 sample_attribution focus_initial.
Proof.
  split_and!; [lia|apply nodupb_spec; vm_compute; reflexivity| |].
  - intros b Hb. repeat (apply elem_of_cons in Hb as [-> | Hb]; [by vm_compute|]).
    by apply not_elem_of_nil in Hb.
  - by intros c x ?%not_elem_of_nil.
Qed.

Lemma sample_measurement_ok r x : 0 < r -> f_finite x = true -> measurement_ok sample_focus r x.
Proof.
  intros Hr Hx. split_and!; [done|done|]. intros c y Hc Hy.
  assert (Hall : forallb (fun c => match c_improvement_history c with [] => true | _ => false end)
    (components sample_focus) = true) by (vm_compute; reflexivity).
  rewrite forallb_forall in Hall. specialize (Hall c (proj1 (list_elem_of_In _ _) Hc)).
  destruct (c_improvement_history c); [by apply not_elem_of_nil in Hy|done].
Qed.

Lemma observe_total_witness :
  exists s', observe focus_initial 1 sample_attribution None = Ok s' /\ ranking_round s' = Some 1.
Proof.
  destruct (observe_total focus_initial 1 sample_attribution None ltac:(vm_compute; reflexivity)
    sample_attribution_ok) as (s' & H1 & _ & H2 & _).
  exists s'. split; assumption.
Defined.

Lemma observe_selects_witness : active_component sample_focus = Some (py "attention").
Proof.
  destruct (observe_selects focus_initial sample_focus 1 sample_attribution None
    ltac:(vm_compute; reflexivity) sample_attribution_ok ltac:(vm_compute; reflexivity))
    as (_ & _ & H).
  vm_compute. reflexivity.
Defined.

Lemma record_step_witness :
  exists c', record sample_focus_config sample_focus 1 true (Some f_zero)
    = Ok (mk_ProfileFocusState (Some (py "attention")) (<[0%nat:=c']> (components sample_focus)) None)
    /\ c_stalled_rounds c' = 1.
Proof.
  destruct (record_step sample_focus_config sample_focus (py "attention") 1 f_zero
    ltac:(vm_compute; reflexivity) ltac:(vm_compute; reflexivity)
    (sample_measurement_ok 1 f_zero eq_refl eq_refl))
    as (i & c & c' & Hi & Hn & _ & _ & Hst & _ & Hrec).
  destruct i as [|[|i]]; simpl in Hi; [|injection Hi as <-; discriminate Hn|discriminate Hi].
  assert (Hst1 : c_stalled_rounds c' = 1) by (rewrite Hst; vm_compute in Hi; by injection Hi as <-).
  exists c'. rewrite Hst1 in Hrec. split; [exact Hrec|exact Hst1].
Defined.

Lemma plateau_terminates_witness :
  exists s', record_rounds sample_focus_config sample_focus [(1, f_zero); (2, f_zero)] = Ok s' /\
    active_component s' = None.
Proof.
  apply (plateau_terminates sample_focus_config sample_focus [(1, f_zero); (2, f_zero)]).
  - vm_compute. reflexivity.
  - apply strictly_increasing_spec. reflexivity.
  - intros r x Hin. split; [|].
    + apply sample_measurement_ok;
        repeat (apply elem_of_cons in Hin as [[= -> ->] | Hin]; [by vm_compute|]);
        by apply not_elem_of_nil in Hin.
    + repeat (apply elem_of_cons in Hin as [[= -> ->] | Hin]; [by vm_compute|]);
        by apply not_elem_of_nil in Hin.
  - vm_compute. discriminate.
  - discriminate.
Defined.

Definition after_round (s : ProfileFocusState) (r : Z) : ProfileFocusState :=
  match record sample_focus_config s r true (Some f_zero) with Ok s' => s' | Err _ => s end.
Definition sample_stalled : ProfileFocusState := after_round sample_focus 1.
Definition sample_exhausted : ProfileFocusState := after_round sample_stalled 2.

Lemma sample_stalled_measurement_ok : measurement_ok sample_stalled 2 f_zero.
Proof.
  split_and!; [lia|done|]. intros c y Hc Hy.
  assert (Hall : forallb (fun c => forallb (fun y => is_round y <? 2) (c_improvement_history c))
    (components sample_stalled) = true) by (vm_compute; reflexivity).
  rewrite forallb_forall in Hall. specialize (Hall c (proj1 (list_elem_of_In _ _) Hc)).
  rewrite forallb_forall in Hall. apply Z.ltb_lt, Hall. by apply list_elem_of_In.
Qed.

Lemma sample_reachable : rtc (focus_step sample_focus_config) focus_initial sample_exhausted.
Proof.
  eapply rtc_l; [apply (step_observe _ _ sample_focus 1 sample_attribution None sample_attribution_ok);
    vm_compute; reflexivity|].
  eapply rtc_l; [apply (step_record _ _ sample_stalled 1 f_zero
    (sample_measurement_ok 1 f_zero eq_refl eq_refl)); vm_compute; reflexivity|].
  eapply rtc_l; [apply (step_record _ _ sample_exhausted 2 f_zero sample_stalled_measurement_ok);
    vm_compute; reflexivity|].
  apply rtc_refl.
Qed.

Lemma exhausted_is_final_witness :
  exhausted sample_exhausted (py "attention") /\
  active_component sample_exhausted <> Some (py "attention").
Proof.
  assert (Hex : exhausted sample_exhausted (py "attention")).
  { exists (List.hd (new_component []) (components sample_exhausted)).
    split_and!; [apply list_elem_of_In; vm_compute; left|vm_compute|vm_compute]; reflexivity. }
  split; [exact Hex|].
  apply (exhausted_is_final sample_focus_config sample_exhausted sample_exhausted (py "attention")
    sample_reachable Hex). apply rtc_refl.
Defined.
