(* ===== verification/State.v ===== *)
(** The hypothesis search's persisted state (src/vibesys/hypothesis/state.py): a hypothesis with
    its plan, round evidence and restart checkpoint, the run aggregate, and the validators that
    every construction, assignment and parse of them runs. *)
From S2P Require Import Prelude Floats Metrics Plan History.
From S2P Require Focus.

(** ** Data *)

Inductive HypothesisReview := PENDING | PASS | FAIL | DEFERRED.
Inductive HypothesisStrategy := AVAILABLE | PARKED | ABANDONED.
#[export] Instance HypothesisReview_eq_dec : EqDecision HypothesisReview. Proof. solve_decision. Defined.
#[export] Instance HypothesisStrategy_eq_dec : EqDecision HypothesisStrategy.
Proof. solve_decision. Defined.

Definition review_value (r : HypothesisReview) : pystr :=
  match r with
  | PENDING => py "pending" | PASS => py "pass" | FAIL => py "fail" | DEFERRED => py "deferred"
  end.
Definition strategy_value (s : HypothesisStrategy) : pystr :=
  match s with AVAILABLE => py "available" | PARKED => py "parked" | ABANDONED => py "abandoned" end.

Record HypothesisMeasurement := mk_HypothesisMeasurement {
  hm_round : Z;
  hm_metric : pystr;
  hm_value : float;
  hm_unit : option pystr;
  hm_direction : option Direction;
  hm_baseline_round : option Z;
  hm_baseline_commit : option pystr;
  hm_baseline_value : option float;
  hm_delta_pct : option float;
  hm_delta_reason : option PerfDeltaReason
}.
#[export] Instance HypothesisMeasurement_eq_dec : EqDecision HypothesisMeasurement.
Proof. solve_decision. Defined.

Record Hypothesis_ := mk_Hypothesis {
  hypothesis_id : pystr;
  plan : OrchestratorPlan;
  started_round : Z;
  parent_round : option Z;
  parent_commit : option pystr;
  h_rounds : list RoundRecord;
  feedback : option pystr;
  next_step : option pystr;
  continuation_rounds : Z;
  revert_applied : bool;
  revert_commit : option pystr;
  gate_revalidation_pending : bool;
  gate_approved_perf_metric : option float;
  gate_approved_perf_unit : option pystr;
  gate_approved_metrics : gmap pystr float;
  gate_approved_evaluation_artifact : option pystr;
  gate_approved_candidate_disposition : pystr;
  gate_approved_candidate_metrics : gmap pystr float;
  gate_approved_candidate_evaluation_artifact : option pystr;
  gate_approved_candidate_operating_point : pystr;
  gate_approved_candidate_retention_reason : pystr;
  gate_candidate_commit : option pystr;
  gate_accuracy_passed : bool;
  declared_outcome : option HypothesisOutcome;
  review : HypothesisReview;
  resolution : option HypothesisResolution;
  measurement : option HypothesisMeasurement;
  h_candidate_retained : option bool;
  strategy : HypothesisStrategy;
  strategy_reason : option pystr;
  last_experiment_revision : Z
}.
#[export] Instance eta_Hypothesis : Eta Hypothesis_ := fun h =>
  mk_Hypothesis (hypothesis_id h) (plan h) (started_round h) (parent_round h) (parent_commit h)
    (h_rounds h) (feedback h) (next_step h) (continuation_rounds h) (revert_applied h)
    (revert_commit h) (gate_revalidation_pending h) (gate_approved_perf_metric h)
    (gate_approved_perf_unit h) (gate_approved_metrics h) (gate_approved_evaluation_artifact h)
    (gate_approved_candidate_disposition h) (gate_approved_candidate_metrics h)
    (gate_approved_candidate_evaluation_artifact h) (gate_approved_candidate_operating_point h)
    (gate_approved_candidate_retention_reason h) (gate_candidate_commit h)
    (gate_accuracy_passed h) (declared_outcome h) (review h) (resolution h) (measurement h)
    (h_candidate_retained h) (strategy h) (strategy_reason h) (last_experiment_revision h).

(** [Hypothesis(...)] with the defaults of every field [start_hypothesis] does not give. *)
Definition new_hypothesis (id : pystr) (p : OrchestratorPlan) (started : Z)
  (parent_round : option Z) (parent_commit : option pystr) : Hypothesis_ :=
  mk_Hypothesis id p started parent_round parent_commit [] None None 0 false None false None None ∅
    None (disposition_value UNASSESSED) ∅ None [] [] None false None PENDING None None None
    AVAILABLE None 0.

Record HypothesisState := mk_HypothesisState {
  experiment_revision : Z;
  active_hypothesis_id : option pystr;
  metrics : MetricSpace;
  hypotheses : list Hypothesis_;
  profile_guidance : option Focus.ProfileFocusState
}.
#[export] Instance eta_HypothesisState : Eta HypothesisState := fun s =>
  mk_HypothesisState (experiment_revision s) (active_hypothesis_id s) (metrics s) (hypotheses s)
    (profile_guidance s).

(** [HypothesisState()]. *)
Definition initial_state : HypothesisState := mk_HypothesisState 0 None empty_space [] None.

(** ** Validators *)

(** [_validate_round_contract]: a value outside an enum raises the enum's ValueError. *)
Definition validate_round_contract (r : RoundRecord) : result unit :=
  raise (ValueError "round records must carry a judge_verdict" [])
    when bool_decide (judge_verdict r = None) in
  raise (ValueError "{value!r} is not a valid HypothesisOutcome" [])
    when (match hypothesis_declared_outcome r with
          | Some v => bool_decide (outcome_of v = None)
          | None => false
          end) in
  raise (ValueError "{value!r} is not a valid HypothesisResolution" [])
    when (match hypothesis_outcome r with
          | Some v => bool_decide (outcome_of v = None) && bool_decide (resolution_of v = None)
          | None => false
          end) in
  raise (ValueError "{value!r} is not a valid CandidateDisposition" [])
    when bool_decide (disposition_of (candidate_disposition r) = None) in
  raise (ValueError "round records with a headline metric must carry perf_provenance" [])
    when bool_decide (perf_metric r <> None) && bool_decide (perf_provenance r = None) in
  raise (ValueError "trusted official round records must carry perf_comparison" [])
    when official_evaluation r && bool_decide (perf_metric r <> None)
         && bool_decide (perf_provenance r = Some framework)
         && bool_decide (perf_comparison r = None) in
  Ok tt.

(** [Hypothesis._valid_identity]; pydantic reports a validator's ValueError as a
    ValidationError. *)
Definition hypothesis_identity (h : Hypothesis_) : bool :=
  pystr_eqb (plan_hypothesis_id (plan h)) (hypothesis_id h)
  && strictly_increasing (map round_number (h_rounds h))
  && forallb (fun r => bool_decide (r_hypothesis_id r = Some (hypothesis_id h))) (h_rounds h)
  && forallb (fun r => is_ok (validate_round_contract r)) (h_rounds h).

Definition check_hypothesis (h : Hypothesis_) : result Hypothesis_ :=
  raise (ValidationError "hypothesis identity") when negb (hypothesis_identity h) in Ok h.

Definition positive (z : Z) : bool := 0 <? z.
Definition finite_row (row : gmap pystr float) : bool :=
  forallb (fun '(_, v) => f_finite v) (map_to_list row).

(** The field constraints of [HypothesisMeasurement] and [Hypothesis]. *)
Definition measurement_fields (m : HypothesisMeasurement) : bool :=
  positive (hm_round m) && str_truthy (hm_metric m) && f_finite (hm_value m)
  && opt_all positive (hm_baseline_round m) && opt_all f_finite (hm_baseline_value m)
  && opt_all f_finite (hm_delta_pct m).

Definition hypothesis_fields (h : Hypothesis_) : bool :=
  str_truthy (hypothesis_id h) && positive (started_round h) && opt_all positive (parent_round h)
  && (0 <=? continuation_rounds h)
  && opt_all f_finite (gate_approved_perf_metric h)
  && finite_row (gate_approved_metrics h) && finite_row (gate_approved_candidate_metrics h)
  && opt_all measurement_fields (measurement h)
  && (0 <=? last_experiment_revision h).

(** [Hypothesis.model_validate(h.model_dump())]: every nested model is parsed again. *)
Definition validate_hypothesis (h : Hypothesis_) : result Hypothesis_ :=
  let* p := validate_orchestrator_plan (plan h) in
  raise (ValidationError "hypothesis fields") when negb (hypothesis_fields h) in
  check_hypothesis (h <| plan := p |> <| h_rounds := map normalize_review (h_rounds h) |>).

(** [by_id]: deep copies of an immutable model are equal to it. *)
Definition by_id (s : HypothesisState) (id : pystr) : option Hypothesis_ :=
  find (fun item => pystr_eqb (hypothesis_id item) id) (hypotheses s).

Definition active_hypothesis (s : HypothesisState) : option Hypothesis_ :=
  match active_hypothesis_id s with None => None | Some id => by_id s id end.

Definition round_le (a b : RoundRecord) : bool := round_number a <=? round_number b.

(** [rounds]: the completed rounds of every hypothesis in chronological order. *)
Definition all_rounds (s : HypothesisState) : list RoundRecord := flat_map h_rounds (hypotheses s).
Definition rounds (s : HypothesisState) : list RoundRecord := sort_by round_le (all_rounds s).

(** [HypothesisState._valid_identity]. *)
Definition state_identity (s : HypothesisState) : bool :=
  nodupb (map hypothesis_id (hypotheses s))
  && (match active_hypothesis_id s with
      | None => true
      | Some id =>
          match by_id s id with
          | None => false
          | Some active => bool_decide (strategy active = AVAILABLE)
          end
      end)
  && nodupb (map round_number (all_rounds s)).

(** What an assignment to a field of the state runs ([validate_assignment]). *)
Definition check_state (s : HypothesisState) : result HypothesisState :=
  raise (ValidationError "hypothesis state identity") when negb (state_identity s) in Ok s.

Definition state_fields (s : HypothesisState) : bool :=
  (0 <=? experiment_revision s) && space_valid (metrics s)
  && opt_all (fun g => is_ok (Focus.validate_focus_state g)) (profile_guidance s).

(** [_validated_state] of transitions.py: [HypothesisState.model_validate(state.model_dump())]. *)
Definition validated_state (s : HypothesisState) : result HypothesisState :=
  raise (ValidationError "hypothesis state fields") when negb (state_fields s) in
  let* hs := mapM_result validate_hypothesis (hypotheses s) in
  check_state (s <| hypotheses := hs |>).

(** ** Equality of two aggregates

    [==] on the models compares field by field; floats inside compare as members of
    containers do. *)

Class PyEq (A : Type) := py_eq : A -> A -> bool.
#[export] Instance pyeq_float : PyEq float := f_same.
#[export] Instance pyeq_option `{PyEq A} : PyEq (option A) := fun a b =>
  match a, b with Some x, Some y => py_eq x y | None, None => true | _, _ => false end.
#[export] Instance pyeq_list `{PyEq A} : PyEq (list A) := fix eqb a b :=
  match a, b with
  | [], [] => true
  | x :: a', y :: b' => py_eq x y && eqb a' b'
  | _, _ => false
  end.
#[export] Instance pyeq_row : PyEq (gmap pystr float) := fun a b =>
  bool_decide (dom a =@{gset pystr} dom b)
  && forallb (fun '(k, x) => match b !! k with Some y => f_same x y | None => false end)
       (map_to_list a).

Definition round_eqb (a b : RoundRecord) : bool :=
  bool_decide (round_number a = round_number b) && bool_decide (commit a = commit b)
  && py_eq (perf_metric a) (perf_metric b) && bool_decide (perf_unit a = perf_unit b)
  && bool_decide (passed a = passed b) && bool_decide (profile_skipped a = profile_skipped b)
  && bool_decide (legacy_reviewed a = legacy_reviewed b)
  && bool_decide (r_hypothesis_id a = r_hypothesis_id b)
  && bool_decide (hypothesis_declared_outcome a = hypothesis_declared_outcome b)
  && bool_decide (judge_verdict a = judge_verdict b)
  && bool_decide (hypothesis_outcome a = hypothesis_outcome b)
  && bool_decide (hypothesis_claim a = hypothesis_claim b)
  && bool_decide (hypothesis_task a = hypothesis_task b)
  && bool_decide (hypothesis_parent_round a = hypothesis_parent_round b)
  && bool_decide (hypothesis_parent_commit a = hypothesis_parent_commit b)
  && py_eq (r_metrics a) (r_metrics b)
  && bool_decide (evaluation_artifact a = evaluation_artifact b)
  && bool_decide (official_evaluation a = official_evaluation b)
  && bool_decide (official_evaluation_reason a = official_evaluation_reason b)
  && bool_decide (candidate_disposition a = candidate_disposition b)
  && py_eq (candidate_metrics a) (candidate_metrics b)
  && bool_decide (candidate_evaluation_artifact a = candidate_evaluation_artifact b)
  && bool_decide (candidate_operating_point a = candidate_operating_point b)
  && bool_decide (candidate_retention_reason a = candidate_retention_reason b)
  && bool_decide (candidate_retained a = candidate_retained b)
  && bool_decide (perf_direction a = perf_direction b)
  && bool_decide (perf_baseline_round a = perf_baseline_round b)
  && bool_decide (perf_baseline_commit a = perf_baseline_commit b)
  && py_eq (perf_baseline_metric a) (perf_baseline_metric b)
  && py_eq (perf_delta_pct a) (perf_delta_pct b)
  && bool_decide (perf_comparison a = perf_comparison b)
  && bool_decide (perf_provenance a = perf_provenance b)
  && bool_decide (implementer_provider a = implementer_provider b)
  && bool_decide (implementer_model a = implementer_model b)
  && bool_decide (attempts a = attempts b).
#[export] Instance pyeq_round : PyEq RoundRecord := round_eqb.

Definition measurement_eqb (a b : HypothesisMeasurement) : bool :=
  bool_decide (hm_round a = hm_round b) && bool_decide (hm_metric a = hm_metric b)
  && py_eq (hm_value a) (hm_value b) && bool_decide (hm_unit a = hm_unit b)
  && bool_decide (hm_direction a = hm_direction b)
  && bool_decide (hm_baseline_round a = hm_baseline_round b)
  && bool_decide (hm_baseline_commit a = hm_baseline_commit b)
  && py_eq (hm_baseline_value a) (hm_baseline_value b) && py_eq (hm_delta_pct a) (hm_delta_pct b)
  && bool_decide (hm_delta_reason a = hm_delta_reason b).
#[export] Instance pyeq_measurement : PyEq HypothesisMeasurement := measurement_eqb.

Definition hypothesis_eqb (a b : Hypothesis_) : bool :=
  bool_decide (hypothesis_id a = hypothesis_id b) && bool_decide (plan a = plan b)
  && bool_decide (started_round a = started_round b) && bool_decide (parent_round a = parent_round b)
  && bool_decide (parent_commit a = parent_commit b) && py_eq (h_rounds a) (h_rounds b)
  && bool_decide (feedback a = feedback b) && bool_decide (next_step a = next_step b)
  && bool_decide (continuation_rounds a = continuation_rounds b)
  && bool_decide (revert_applied a = revert_applied b)
  && bool_decide (revert_commit a = revert_commit b)
  && bool_decide (gate_revalidation_pending a = gate_revalidation_pending b)
  && py_eq (gate_approved_perf_metric a) (gate_approved_perf_metric b)
  && bool_decide (gate_approved_perf_unit a = gate_approved_perf_unit b)
  && py_eq (gate_approved_metrics a) (gate_approved_metrics b)
  && bool_decide (gate_approved_evaluation_artifact a = gate_approved_evaluation_artifact b)
  && bool_decide (gate_approved_candidate_disposition a = gate_approved_candidate_disposition b)
  && py_eq (gate_approved_candidate_metrics a) (gate_approved_candidate_metrics b)
  && bool_decide (gate_approved_candidate_evaluation_artifact a
                  = gate_approved_candidate_evaluation_artifact b)
  && bool_decide (gate_approved_candidate_operating_point a
                  = gate_approved_candidate_operating_point b)
  && bool_decide (gate_approved_candidate_retention_reason a
                  = gate_approved_candidate_retention_reason b)
  && bool_decide (gate_candidate_commit a = gate_candidate_commit b)
  && bool_decide (gate_accuracy_passed a = gate_accuracy_passed b)
  && bool_decide (declared_outcome a = declared_outcome b) && bool_decide (review a = review b)
  && bool_decide (resolution a = resolution b) && py_eq (measurement a) (measurement b)
  && bool_decide (h_candidate_retained a = h_candidate_retained b)
  && bool_decide (strategy a = strategy b) && bool_decide (strategy_reason a = strategy_reason b)
  && bool_decide (last_experiment_revision a = last_experiment_revision b).

(** ** Validated hypotheses and states *)

(** A hypothesis that parsing accepts unchanged, and what that means field by field. *)
Definition hypothesis_ok (h : Hypothesis_) : Prop := validate_hypothesis h = Ok h.
Definition state_ok (s : HypothesisState) : Prop := validated_state s = Ok s.

Lemma map_id_Forall {A} (f : A -> A) l : map f l = l <-> Forall (fun x => f x = x) l.
Proof.
  induction l as [|x l IH]; simpl; [split; constructor|]. rewrite Forall_cons, <- IH.
  split; [by intros [= -> ->]|by intros [-> ->]].
Qed.

Lemma check_hypothesis_Ok h h' : check_hypothesis h = Ok h' <-> hypothesis_identity h = true /\ h' = h.
Proof.
  unfold check_hypothesis. rewrite guard_Ok, negb_false_iff. split; intros [? H]; (split; [done|]).
  - by injection H.
  - by rewrite H.
Qed.

Lemma check_state_Ok s s' : check_state s = Ok s' <-> state_identity s = true /\ s' = s.
Proof.
  unfold check_state. rewrite guard_Ok, negb_false_iff. split; intros [? H]; (split; [done|]).
  - by injection H.
  - by rewrite H.
Qed.

Lemma validate_hypothesis_Ok h h' :
  validate_hypothesis h = Ok h' <->
  exists p, validate_orchestrator_plan (plan h) = Ok p /\ hypothesis_fields h = true /\
    h' = h <| plan := p |> <| h_rounds := map normalize_review (h_rounds h) |> /\
    hypothesis_identity h' = true.
Proof.
  unfold validate_hypothesis. rewrite bind_Ok. setoid_rewrite guard_Ok.
  setoid_rewrite negb_false_iff. setoid_rewrite check_hypothesis_Ok. naive_solver.
Qed.

Lemma hypothesis_ok_spec h :
  hypothesis_ok h <-> plan_wf (plan h) /\ hypothesis_fields h = true /\
    Forall review_normal (h_rounds h) /\ hypothesis_identity h = true.
Proof.
  unfold hypothesis_ok. rewrite validate_hypothesis_Ok. unfold plan_wf, review_normal.
  rewrite <- map_id_Forall. split.
  - intros (p & Hp & Hf & Hh & Hi).
    pose proof (f_equal plan Hh) as H1. pose proof (f_equal h_rounds Hh) as H2. simpl in H1, H2.
    split_and!; [congruence|done|congruence|done].
  - intros (Hp & Hf & Hr & Hi). exists (plan h). split_and!; [done|done| |done].
    rewrite Hr. by destruct h.
Qed.

Lemma validate_hypothesis_idem h h' : validate_hypothesis h = Ok h' -> hypothesis_ok h'.
Proof.
  rewrite validate_hypothesis_Ok. intros (p & Hp & Hf & -> & Hi). apply hypothesis_ok_spec.
  split_and!; [by apply (validate_plan_idem (plan h))|done| |done].
  simpl. apply Forall_map, Forall_true. apply normalize_review_idem.
Qed.

Lemma validated_state_Ok s s' :
  validated_state s = Ok s' <->
  state_fields s = true /\ exists hs, mapM_result validate_hypothesis (hypotheses s) = Ok hs /\
    s' = s <| hypotheses := hs |> /\ state_identity s' = true.
Proof.
  unfold validated_state. rewrite guard_Ok, bind_Ok, negb_false_iff.
  setoid_rewrite check_state_Ok. naive_solver.
Qed.

Lemma mapM_result_Forall {A B} (f : A -> result B) l l' :
  mapM_result f l = Ok l' <-> Forall2 (fun x y => f x = Ok y) l l'.
Proof.
  revert l'. induction l as [|x l IH]; intros l'; simpl.
  - split; [by intros [= <-]|]. by intros ->%Forall2_nil_inv_l.
  - rewrite bind_Ok. setoid_rewrite bind_Ok. split.
    + intros (y & Hy & ys & Hys & [= <-]). constructor; [done|]. by apply IH.
    + intros (y & ys & Hy & Hys & ->)%Forall2_cons_inv_l. exists y. split; [done|].
      exists ys. split; [by apply IH|done].
Qed.

Lemma state_ok_spec s :
  state_ok s <-> state_fields s = true /\ Forall hypothesis_ok (hypotheses s) /\
    state_identity s = true.
Proof.
  unfold state_ok. rewrite validated_state_Ok. setoid_rewrite mapM_result_Forall. split.
  - intros (Hf & hs & Hm & Hs & Hi). split_and!; [done| |done].
    pose proof (f_equal hypotheses Hs) as H1. simpl in H1. subst hs.
    clear -Hm. induction (hypotheses s) as [|h l IH]; [constructor|].
    apply Forall2_cons in Hm as [? ?]. constructor; [done|]. by apply IH.
  - intros (Hf & Hm & Hi). split; [done|]. exists (hypotheses s). split_and!; [|by destruct s|done].
    induction Hm; by constructor.
Qed.

(** Every value [_validated_state] returns is valid, so every transition that ends with it
    keeps the state valid. *)
Lemma validated_state_valid s s' : validated_state s = Ok s' -> state_ok s'.
Proof.
  rewrite validated_state_Ok. intros (Hf & hs & Hm & -> & Hi). apply state_ok_spec.
  split_and!; [done| |done]. simpl. apply mapM_result_Forall in Hm.
  clear -Hm. induction Hm; constructor; [by eapply validate_hypothesis_idem|done].
Qed.

(** [_validated_state] only rewrites plans and rounds: identities survive. *)
Lemma validated_state_id s : state_ok s -> validated_state s = Ok s.
Proof. done. Qed.

Lemma initial_state_ok : state_ok initial_state.
Proof. vm_compute. reflexivity. Qed.

(** ** Equality is reflexive *)

Lemma pyeq_option_refl {A} `{PyEq A} (Hr : forall x : A, py_eq x x = true) (x : option A) :
  py_eq x x = true.
Proof. destruct x; [apply Hr|done]. Qed.

Lemma pyeq_list_refl {A} `{PyEq A} (Hr : forall x : A, py_eq x x = true) (l : list A) :
  py_eq l l = true.
Proof.
  induction l as [|x l IH]; [done|]. change (py_eq x x && py_eq l l = true). by rewrite Hr, IH.
Qed.

Lemma pyeq_row_refl (row : gmap pystr float) : py_eq row row = true.
Proof.
  unfold py_eq, pyeq_row. rewrite bool_decide_true by done. simpl. apply forallb_forall.
  intros [k x] Hin. apply list_elem_of_In, elem_of_map_to_list in Hin. rewrite Hin. apply f_same_refl.
Qed.

Lemma pyeq_ofloat_refl (x : option float) : py_eq x x = true.
Proof. apply pyeq_option_refl. apply f_same_refl. Qed.

Lemma round_eqb_refl r : round_eqb r r = true.
Proof. unfold round_eqb. by rewrite !bool_decide_true, !pyeq_ofloat_refl, !pyeq_row_refl by done. Qed.

Lemma measurement_eqb_refl m : measurement_eqb m m = true.
Proof.
  unfold measurement_eqb. rewrite !bool_decide_true, !pyeq_ofloat_refl by done.
  unfold py_eq, pyeq_float. by rewrite f_same_refl.
Qed.

Lemma hypothesis_eqb_refl h : hypothesis_eqb h h = true.
Proof.
  unfold hypothesis_eqb. rewrite !bool_decide_true, !pyeq_ofloat_refl, !pyeq_row_refl by done.
  rewrite (pyeq_list_refl round_eqb_refl), (pyeq_option_refl measurement_eqb_refl). done.
Qed.
