(* ===== verification/Notices.v ===== *)
(** Typed notices (src/vibesys/hypothesis/notices.py): the frozen records the search policy
    hands to prompt templates. *)
From S2P Require Import Prelude Floats Metrics.

Record ArchiveAxis := mk_ArchiveAxis { ax_name : pystr; ax_direction : Direction }.

Record ArchiveMetric := mk_ArchiveMetric {
  am_name : pystr;
  am_value : float;
  am_direction : Direction
}.

Record ArchiveScalarReading := mk_ArchiveScalarReading {
  as_value : float;
  as_unit : option pystr
}.

Record ArchiveLatestRound := mk_ArchiveLatestRound {
  al_round_number : Z;
  al_commit : option pystr;
  al_official_metrics : list ArchiveMetric;
  al_official_scalar : option ArchiveScalarReading;
  al_retained : option bool
}.

Record ArchiveTrustedParent := mk_ArchiveTrustedParent {
  tp_round_number : Z;
  tp_commit : pystr;
  tp_official : bool;
  tp_metrics : list ArchiveMetric;
  tp_operating_point : pystr;
  tp_artifact : option pystr
}.

Record ArchivePendingClaim := mk_ArchivePendingClaim {
  pc_round_number : Z;
  pc_commit : pystr;
  pc_metrics : list ArchiveMetric;
  pc_operating_point : pystr;
  pc_artifact : option pystr;
  pc_reason : pystr
}.

Record OmittedPendingClaims := mk_OmittedPendingClaims {
  om_count : nat;
  om_first_round : Z;
  om_last_round : Z
}.

Record ParetoArchiveView := mk_ParetoArchiveView {
  av_axes : list ArchiveAxis;
  av_relative_noise : float;
  av_latest : option ArchiveLatestRound;
  av_trusted_parents : list ArchiveTrustedParent;
  av_pending_claims : list ArchivePendingClaim;
  av_omitted_claims : option OmittedPendingClaims
}.
#[export] Instance eta_ParetoArchiveView : Eta ParetoArchiveView := fun v =>
  mk_ParetoArchiveView (av_axes v) (av_relative_noise v) (av_latest v) (av_trusted_parents v)
    (av_pending_claims v) (av_omitted_claims v).

Record ArchiveDominator := mk_ArchiveDominator {
  ad_round_number : Z;
  ad_metrics : list ArchiveMetric
}.

Record ArchiveConflict := mk_ArchiveConflict { dominators : list ArchiveDominator }.

(** [RegressionNotice]: the union of three notices, discriminated by their [kind]. *)
Record WorkspaceCheckpoint := mk_WorkspaceCheckpoint {
  wc_round_number : Z;
  wc_outcome : option pystr;
  wc_reviewed : bool
}.

Inductive RegressionNotice :=
| RetainedTerminalCheckpoint (hypothesis_id : option pystr) (outcome : pystr) (round_number : Z)
    (reviewed : bool) (candidate_metrics : gmap pystr float) (commit : option pystr)
| TerminalWorkspaceEdits (hypothesis_id : option pystr) (outcome : pystr) (round_number : Z)
    (parent_round : option Z) (checkpoint : option WorkspaceCheckpoint)
| OfficialCandidateNotRetained (round_number : Z) (perf_metric : option float)
    (perf_unit : option pystr).

Record ExhaustionNotice := mk_ExhaustionNotice {
  ex_round_number : Z;
  ex_attempts : Z;
  ex_feedback : option pystr
}.
