(* ===== verification/Iteration.v ===== *)
(** Iteration navigation (src/vibesys/run/contracts.py): the bounded tree of rounds, candidates
    or work items a policy shows, the validation every tree passes, and the constructor that
    orders its nodes. *)
From S2P Require Import Prelude Floats Metrics.

(** ** Data *)

Inductive IterationKind :=
| KIND_ROUND | KIND_WORKSTREAM | KIND_ATTEMPT | KIND_GENERATION | KIND_CANDIDATE | KIND_BOARD
| KIND_ITEM.
Inductive IterationStatus :=
| IT_PENDING | IT_ACTIVE | IT_COMPLETED | IT_FAILED | IT_CANCELLED.

Record IterationMetric := mk_IterationMetric {
  im_id : pystr;
  im_value : option float;
  im_unit : option pystr;
  im_direction : option Direction
}.

Record IterationSummary := mk_IterationSummary {
  it_id : pystr;
  it_parent_id : option pystr;
  it_kind : IterationKind;
  it_label : pystr;
  it_ordinal : Z;
  it_status : IterationStatus;
  it_child_count : Z;
  it_headline_metrics : list IterationMetric
}.

Record IterationTree := mk_IterationTree { tree_revision : pystr; tree_nodes : list IterationSummary }.

Definition MAX_HEADLINE_METRICS : nat := 4.

(** ** Construction of a metric and of a node: their field constraints and validators *)

Definition construct_metric (m : IterationMetric) : result IterationMetric :=
  raise (ValidationError "value must be finite") when negb (opt_all f_finite (im_value m)) in
  raise (ValidationError "id must not be empty") when negb (str_truthy (im_id m)) in
  Ok m.

Definition construct_summary (n : IterationSummary) : result IterationSummary :=
  raise (ValidationError "ordinal >= 0") when it_ordinal n <? 0 in
  raise (ValidationError "child_count >= 0") when it_child_count n <? 0 in
  raise (ValidationError "must not be empty")
    when negb (str_truthy (it_id n)) || negb (str_truthy (it_label n)) in
  raise (ValidationError "headline_metrics must contain at most 4 items")
    when (MAX_HEADLINE_METRICS <? length (it_headline_metrics n))%nat in
  Ok n.

(** ** Validation of a tree *)

(** The three dicts [_index_iteration_nodes] fills. *)
Record TreeIndex := mk_TreeIndex {
  ti_by_id : gmap pystr IterationSummary;
  ti_sibling_ordinals : gmap (option pystr) (gset Z);
  ti_child_counts : gmap pystr Z
}.
Definition empty_index : TreeIndex := mk_TreeIndex ∅ ∅ ∅.

Definition sibling_ordinals (ix : TreeIndex) (parent : option pystr) : gset Z :=
  default ∅ (ti_sibling_ordinals ix !! parent).
Definition child_counts (ix : TreeIndex) (id : pystr) : Z := default 0 (ti_child_counts ix !! id).

(** The dicts after one node that passed the two duplicate tests. *)
Definition add_node (ix : TreeIndex) (node : IterationSummary) : TreeIndex :=
  mk_TreeIndex (<[it_id node := node]> (ti_by_id ix))
    (<[it_parent_id node := {[it_ordinal node]} ∪ sibling_ordinals ix (it_parent_id node)]>
       (ti_sibling_ordinals ix))
    (match it_parent_id node with
     | Some p => <[p := child_counts ix p + 1]> (ti_child_counts ix)
     | None => ti_child_counts ix
     end).

Fixpoint index_iteration_nodes (index : Z) (ix : TreeIndex) (nodes : list IterationSummary)
  : result TreeIndex :=
  match nodes with
  | [] => Ok ix
  | node :: nodes' =>
      raise (ValueError "nodes[{index}].id duplicates {node.id!r}" [AInt index; AStr (it_id node)])
        when bool_decide (is_Some (ti_by_id ix !! it_id node)) in
      raise (ValueError "nodes[{index}].ordinal duplicates {node.ordinal} under parent"
               [AInt index; AInt (it_ordinal node)])
        when bool_decide (it_ordinal node ∈ sibling_ordinals ix (it_parent_id node)) in
      index_iteration_nodes (index + 1) (add_node ix node) nodes'
  end.

(** The first loop of [_validate_iteration_links]. *)
Fixpoint check_links (index : Z) (ix : TreeIndex) (nodes : list IterationSummary) : result unit :=
  match nodes with
  | [] => Ok tt
  | node :: nodes' =>
      raise (ValueError "nodes[{index}].parent_id references unknown id" [AInt index])
        when (match it_parent_id node with
              | Some p => bool_decide (ti_by_id ix !! p = None)
              | None => false
              end) in
      raise (ValueError "nodes[{index}].child_count is {node.child_count}, expected {n}"
               [AInt index; AInt (it_child_count node); AInt (child_counts ix (it_id node))])
        when negb (it_child_count node =? child_counts ix (it_id node)) in
      check_links (index + 1) ix nodes'
  end.

(** The [while] loop of the second: [None] when the fuel runs out. *)
Fixpoint walk_parents (fuel : nat) (index : Z) (by_id : gmap pystr IterationSummary)
  (visited : gset pystr) (parent_id : option pystr) : option (result unit) :=
  match parent_id, fuel with
  | None, _ => Some (Ok tt)
  | Some _, O => None
  | Some p, S fuel' =>
      if bool_decide (p ∈ visited) then
        Some (Err (ValueError "nodes[{index}].parent_id creates a cycle" [AInt index; AStr p]))
      else
        match by_id !! p with
        | None => Some (Err (KeyError p))
        | Some node => walk_parents fuel' index by_id ({[p]} ∪ visited) (it_parent_id node)
        end
  end.

(** Every pass of the loop adds an id of the tree to [visited], so one more than the number of
    ids is enough fuel ([walk_total]). *)
Definition walk_fuel (by_id : gmap pystr IterationSummary) : nat := S (size by_id).

Fixpoint check_cycles (index : Z) (by_id : gmap pystr IterationSummary)
  (nodes : list IterationSummary) : result unit :=
  match nodes with
  | [] => Ok tt
  | node :: nodes' =>
      let* _ := from_option id (Err AssertionError)
                  (walk_parents (walk_fuel by_id) index by_id {[it_id node]} (it_parent_id node)) in
      check_cycles (index + 1) by_id nodes'
  end.

Definition validate_iteration_links (nodes : list IterationSummary) (ix : TreeIndex) : result unit :=
  let* _ := check_links 0 ix nodes in
  check_cycles 0 (ti_by_id ix) nodes.

Definition validate_tree (nodes : list IterationSummary) : result unit :=
  let* ix := index_iteration_nodes 0 empty_index nodes in
  validate_iteration_links nodes ix.

(** [IterationTree(revision=..., nodes=...)]: pydantic reports a validator's [ValueError] as its
    own [ValidationError]. *)
Definition reported {A} (m : result A) : result A :=
  match m with Err (ValueError template _) => Err (ValidationError template) | _ => m end.

Definition construct_tree (revision : pystr) (nodes : list IterationSummary) : result IterationTree :=
  raise (ValidationError "revision must not be empty") when negb (str_truthy revision) in
  let* _ := reported (validate_tree nodes) in
  Ok (mk_IterationTree revision nodes).

(** The sort key of [from_nodes]: roots first, then parent id, ordinal and id, compared as a
    Python tuple. *)
Definition node_le (a b : IterationSummary) : bool :=
  match it_parent_id a, it_parent_id b with
  | None, Some _ => true
  | Some _, None => false
  | pa, pb =>
      let ka := default [] pa in
      let kb := default [] pb in
      if pystr_eqb ka kb then
        (it_ordinal a <? it_ordinal b)
        || ((it_ordinal a =? it_ordinal b) && pystr_leb (it_id a) (it_id b))
      else pystr_leb ka kb
  end.

Section FromNodes.
(** The hexadecimal SHA-256 of the nodes' canonical JSON. *)
Context (digest : list IterationSummary -> pystr).

Definition from_nodes (nodes : list IterationSummary) : result IterationTree :=
  let ordered := sort_by node_le nodes in
  construct_tree (digest ordered) ordered.
End FromNodes.

(** ** What a valid tree is *)

(** A node whose chain of parents within [nodes] ends at a root after [depth] steps. *)
Inductive rooted (nodes : list IterationSummary) : nat -> IterationSummary -> Prop :=
| rooted_root node : it_parent_id node = None -> rooted nodes 0 node
| rooted_step depth node parent :
    it_parent_id node = Some (it_id parent) -> parent ∈ nodes -> rooted nodes depth parent ->
    rooted nodes (S depth) node.

Definition children (nodes : list IterationSummary) (id : pystr) : list IterationSummary :=
  List.filter (fun n => bool_decide (it_parent_id n = Some id)) nodes.
Definition place (n : IterationSummary) : option pystr * Z := (it_parent_id n, it_ordinal n).

Record tree_wf (nodes : list IterationSummary) : Prop := {
  wf_ids : NoDup (map it_id nodes);
  wf_places : NoDup (map place nodes);
  wf_counts : forall n, n ∈ nodes -> it_child_count n = Z.of_nat (length (children nodes (it_id n)));
  wf_rooted : forall n, n ∈ nodes -> exists depth, rooted nodes depth n
}.

(** ** Lemmas: the index *)

(** [ix] is the index of the nodes seen so far. *)
Record indexes (seen : list IterationSummary) (ix : TreeIndex) : Prop := {
  ixs_by_id : forall k, ti_by_id ix !! k = find (fun n => pystr_eqb (it_id n) k) seen;
  ixs_ordinals : forall p z, z ∈ sibling_ordinals ix p <-> (p, z) ∈ map place seen;
  ixs_counts : forall k, child_counts ix k = Z.of_nat (length (children seen k))
}.

Lemma indexes_empty : indexes [] empty_index.
Proof. split; [done| |done]. intros p z. split; [|set_solver]. by intros ?%not_elem_of_empty. Qed.

Lemma nodup_snoc {A} (l : list A) x : NoDup (l ++ [x]) <-> (x ∉ l) /\ NoDup l.
Proof.
  rewrite NoDup_app, NoDup_cons. split.
  - intros (? & Hx & _). split; [|done]. intros Hin. apply (Hx x Hin). by left.
  - intros [Hx ?]. split_and!; [done| |by apply not_elem_of_nil|constructor].
    by intros y Hy ->%list_elem_of_singleton.
Qed.

Lemma children_app l1 l2 k : children (l1 ++ l2) k = children l1 k ++ children l2 k.
Proof. apply List.filter_app. Qed.

Lemma find_app_id (l : list IterationSummary) x k :
  find (fun n => pystr_eqb (it_id n) k) (l ++ [x]) =
  match find (fun n => pystr_eqb (it_id n) k) l with
  | Some n => Some n
  | None => if pystr_eqb (it_id x) k then Some x else None
  end.
Proof. induction l as [|y l IH]; simpl; [done|]. by destruct (pystr_eqb (it_id y) k). Qed.

Lemma indexes_snoc seen ix x :
  indexes seen ix -> it_id x ∉ map it_id seen -> indexes (seen ++ [x]) (add_node ix x).
Proof.
  intros [Hid Ho Hc] Hx. split.
  - intros k. rewrite find_app_id. simpl. destruct (decide (it_id x = k)) as [<-|Hk].
    + rewrite lookup_insert_eq, pystr_eqb_refl.
      rewrite (proj2 (find_None_elem _ _)); [done|]. intros n Hn. apply bool_decide_false.
      intros Heq. apply Hx. rewrite <- Heq. by apply list_elem_of_fmap_2.
    + rewrite lookup_insert_ne, Hid by done.
      assert (pystr_eqb (it_id x) k = false) as -> by (by apply bool_decide_false). by destruct (find _ seen).
  - intros p z. rewrite map_app. simpl. rewrite elem_of_snoc, <- Ho. unfold sibling_ordinals. simpl.
    unfold place. destruct (decide (it_parent_id x = p)) as [<-|Hp].
    + rewrite lookup_insert_eq. simpl. unfold sibling_ordinals. split; [|intros [?|[= ->]]; set_solver].
      intros [->%elem_of_singleton|?]%elem_of_union; auto.
    + rewrite lookup_insert_ne by done. split; [auto|]. intros [?|[=]]; congruence.
  - intros k. rewrite children_app, length_app, Nat2Z.inj_add, <- Hc. unfold child_counts, children. simpl.
    destruct (it_parent_id x) as [p|]; [|simpl; lia].
    destruct (decide (p = k)) as [->|Hk].
    + rewrite lookup_insert_eq, bool_decide_true by done. simpl. unfold child_counts. lia.
    + rewrite lookup_insert_ne, bool_decide_false by congruence. simpl. lia.
Qed.

Lemma id_seen seen ix k : indexes seen ix -> is_Some (ti_by_id ix !! k) <-> k ∈ map it_id seen.
Proof.
  intros [-> _ _]. split.
  - intros [n [Hn <-%pystr_eqb_true]%find_Some_elem]. by apply list_elem_of_fmap_2.
  - intros (n & -> & Hn)%list_elem_of_fmap. destruct (find _ seen) eqn:E; [done|].
    rewrite find_None_elem in E. specialize (E n Hn). by rewrite pystr_eqb_refl in E.
Qed.

(** Indexing succeeds exactly on distinct ids and distinct places, and then indexes all nodes. *)
Lemma index_nodes_exact nodes : forall i seen ix ix',
  indexes seen ix -> NoDup (map it_id seen) -> NoDup (map place seen) ->
  index_iteration_nodes i ix nodes = Ok ix' ->
  indexes (seen ++ nodes) ix' /\ NoDup (map it_id (seen ++ nodes)) /\
  NoDup (map place (seen ++ nodes)).
Proof.
  induction nodes as [|x nodes IH]; intros i seen ix ix' Hix Hid Hpl; simpl.
  { intros [= <-]. by rewrite app_nil_r. }
  intros [Hnew%bool_decide_eq_false [Hord%bool_decide_eq_false H]%guard_Ok]%guard_Ok.
  rewrite (id_seen _ _ _ Hix) in Hnew.
  replace (seen ++ x :: nodes) with ((seen ++ [x]) ++ nodes) by (by rewrite <- app_assoc).
  apply (IH (i + 1) (seen ++ [x]) (add_node ix x)); [by apply indexes_snoc| | |done].
  - rewrite map_app. apply nodup_snoc. done.
  - rewrite map_app. apply nodup_snoc. split; [|done]. intros Hin. apply Hord. by apply Hix.
Qed.

Lemma index_nodes_total nodes : forall i seen ix,
  indexes seen ix -> NoDup (map it_id (seen ++ nodes)) -> NoDup (map place (seen ++ nodes)) ->
  exists ix', index_iteration_nodes i ix nodes = Ok ix'.
Proof.
  induction nodes as [|x nodes IH]; intros i seen ix Hix Hid Hpl; simpl; [by eexists|].
  replace (seen ++ x :: nodes) with ((seen ++ [x]) ++ nodes) in Hid, Hpl by (by rewrite <- app_assoc).
  assert (Hx : (it_id x ∉ map it_id seen) /\ (place x ∉ map place seen)).
  { rewrite !map_app in Hid, Hpl. apply NoDup_app in Hid as [Hid _], Hpl as [Hpl _].
    apply nodup_snoc in Hid as [? _], Hpl as [? _]. done. }
  destruct Hx as [Hx Ho]. rewrite !bool_decide_false.
  - eapply IH; [by apply indexes_snoc|done|done].
  - intros Hin. apply Ho. by apply Hix.
  - by rewrite (id_seen _ _ _ Hix).
Qed.

(** ** Lemmas: links and the walk to a root *)

Lemma check_links_Ok ix nodes i :
  check_links i ix nodes = Ok tt <->
  forall n, n ∈ nodes ->
    (forall p, it_parent_id n = Some p -> is_Some (ti_by_id ix !! p)) /\
    it_child_count n = child_counts ix (it_id n).
Proof.
  revert i. induction nodes as [|x nodes IH]; intros i; simpl.
  { split; [by intros _ n ?%not_elem_of_nil|done]. }
  rewrite !guard_Ok, IH, negb_false_iff, Z.eqb_eq. split.
  - intros (Hp & Hc & H) n [->|Hn]%elem_of_cons; [|auto]. split; [|done]. intros p Hpar.
    rewrite Hpar in Hp. apply bool_decide_eq_false in Hp. by apply not_eq_None_Some.
  - intros H. split_and!; [|apply H; set_solver|intros n Hn; apply H; set_solver].
    destruct (it_parent_id x) as [p|] eqn:E; [|done]. apply bool_decide_false, not_eq_None_Some.
    apply (H x); [set_solver|done].
Qed.

Section Walk.
Context (nodes : list IterationSummary) (ix : TreeIndex).
Context (Hix : indexes nodes ix) (Hids : NoDup (map it_id nodes)).

Lemma by_id_Some k n : ti_by_id ix !! k = Some n <-> n ∈ nodes /\ it_id n = k.
Proof.
  rewrite (ixs_by_id _ _ Hix). split.
  - intros [? ?%pystr_eqb_true]%find_Some_elem. done.
  - intros [Hn <-]. destruct (find _ nodes) as [m|] eqn:E.
    + apply find_Some_elem in E as [Hm Heq%pystr_eqb_true]. f_equal. by apply (NoDup_map_inj it_id nodes).
    + rewrite find_None_elem in E. specialize (E n Hn). by rewrite pystr_eqb_refl in E.
Qed.

Lemma rooted_unique d1 n : rooted nodes d1 n -> forall d2, rooted nodes d2 n -> d1 = d2.
Proof.
  induction 1 as [n H|d n p H Hp _ IH]; intros d2 H2; inversion H2; subst; try congruence.
  f_equal. apply IH. assert (Some p = Some parent) as [= ->]; [|done].
  rewrite <- (proj2 (by_id_Some (it_id p) p)) by done.
  apply by_id_Some. split; congruence.
Qed.

Lemma walk_total fuel i visited parent :
  visited ⊆ dom (ti_by_id ix) -> (size (ti_by_id ix) < fuel + size visited)%nat ->
  is_Some (walk_parents fuel i (ti_by_id ix) visited parent).
Proof.
  revert visited parent. induction fuel as [|fuel IH]; intros visited [p|] Hsub Hf; simpl; [|done| |done].
  - apply subseteq_size in Hsub. rewrite size_dom in Hsub. lia.
  - destruct (bool_decide_reflect (p ∈ visited)) as [|Hp]; [done|].
    destruct (ti_by_id ix !! p) as [n|] eqn:E; [|done]. apply IH.
    + apply elem_of_dom_2 in E. set_solver.
    + rewrite size_union by set_solver. rewrite size_singleton. lia.
Qed.

(** Why a walk succeeds: only by reaching a root. *)
Lemma walk_rooted fuel i visited node :
  walk_parents fuel i (ti_by_id ix) visited (it_parent_id node) = Some (Ok tt) ->
  exists depth, rooted nodes depth node.
Proof.
  revert visited node. induction fuel as [|fuel IH]; intros visited node;
    destruct (it_parent_id node) as [p|] eqn:E; simpl; try done;
    try (intros _; exists 0%nat; by constructor).
  destruct (bool_decide _); [done|].
  destruct (ti_by_id ix !! p) as [m|] eqn:Em; [|done]. intros H.
  apply by_id_Some in Em as [Hm <-]. destruct (IH _ _ H) as [d Hd].
  exists (S d). by econstructor.
Qed.

(** Every visited node lies deeper than the current one, so a rooted walk meets no cycle. *)
Lemma rooted_walk fuel i visited depth node res :
  rooted nodes depth node ->
  (forall v, v ∈ visited -> exists n d, n ∈ nodes /\ it_id n = v /\ rooted nodes d n /\ (depth <= d)%nat) ->
  walk_parents fuel i (ti_by_id ix) visited (it_parent_id node) = Some res -> res = Ok tt.
Proof.
  revert visited depth node. induction fuel as [|fuel IH]; intros visited depth node Hr Hv;
    destruct Hr as [node ->|depth node p -> Hp Hr]; simpl; try done; try (by intros [= <-]).
  rewrite bool_decide_false.
  - rewrite (proj2 (by_id_Some (it_id p) p)) by done. apply IH with (depth := depth); [done|].
    intros v [->%elem_of_singleton|Hin]%elem_of_union; [by exists p, depth|].
    destruct (Hv v Hin) as (n & d & ? & ? & ? & ?). exists n, d. split_and!; [done..|lia].
  - intros (n & d & Hn & Heq & Hd & Hle)%Hv.
    assert (n = p) as ->.
    { assert (Some n = Some p) as [= ->]; [|done].
      rewrite <- (proj2 (by_id_Some (it_id p) n)) by done. by apply by_id_Some. }
    pose proof (rooted_unique _ _ Hr _ Hd). lia.
Qed.

Lemma check_cycles_Ok l i :
  (forall n, n ∈ l -> n ∈ nodes) ->
  check_cycles i (ti_by_id ix) l = Ok tt <->
  forall n, n ∈ l -> exists depth, rooted nodes depth n.
Proof.
  revert i. induction l as [|x l IH]; intros i Hsub; cbn [check_cycles].
  { split; [by intros _ n ?%not_elem_of_nil|done]. }
  destruct (walk_total (walk_fuel (ti_by_id ix)) i {[it_id x]} (it_parent_id x)) as [res Hres].
  { assert (is_Some (ti_by_id ix !! it_id x)) as [y Hy].
    { apply (id_seen _ _ _ Hix), list_elem_of_fmap_2, Hsub. set_solver. }
    apply elem_of_dom_2 in Hy. set_solver. }
  { rewrite size_singleton. unfold walk_fuel. lia. }
  assert (Hl : forall n, n ∈ l -> n ∈ nodes) by set_solver.
  rewrite Hres. cbn [from_option]. unfold id. rewrite bind_Ok. split.
  - intros ([] & -> & H). rewrite (IH _ Hl) in H.
    intros n [->|Hn]%elem_of_cons; [|auto]. by eapply walk_rooted.
  - intros H. destruct (H x ltac:(set_solver)) as [d Hd]. exists tt. split.
    + eapply rooted_walk; [exact Hd| |exact Hres].
      intros v ->%elem_of_singleton. exists x, d. split_and!; [|done..]. apply Hsub. set_solver.
    + rewrite (IH _ Hl). set_solver.
Qed.
End Walk.

Lemma parent_in_tree nodes n p :
  (exists depth, rooted nodes depth n) -> it_parent_id n = Some p -> p ∈ map it_id nodes.
Proof.
  intros [d Hr] Hp. destruct Hr as [|d n q Hq Hin _]; [congruence|].
  assert (p = it_id q) as -> by congruence. by apply list_elem_of_fmap_2.
Qed.

(** ** Lemmas: the order of nodes *)

Lemma node_le_total a b : node_le a b = true \/ node_le b a = true.
Proof.
  unfold node_le. pose proof (pystr_leb_total (it_id a) (it_id b)).
  destruct (it_parent_id a) as [pa|], (it_parent_id b) as [pb|]; auto; simpl.
  - unfold pystr_eqb. pose proof (pystr_leb_total pa pb).
    destruct (decide (pa = pb)) as [->|Hne].
    + rewrite !bool_decide_true by done.
      destruct (Z.ltb_spec (it_ordinal a) (it_ordinal b)), (Z.ltb_spec (it_ordinal b) (it_ordinal a)),
        (Z.eqb_spec (it_ordinal a) (it_ordinal b)), (Z.eqb_spec (it_ordinal b) (it_ordinal a));
        simpl; auto; lia.
    + rewrite !bool_decide_false by congruence. done.
  - destruct (Z.ltb_spec (it_ordinal a) (it_ordinal b)), (Z.ltb_spec (it_ordinal b) (it_ordinal a)),
      (Z.eqb_spec (it_ordinal a) (it_ordinal b)), (Z.eqb_spec (it_ordinal b) (it_ordinal a));
      simpl; auto; lia.
Qed.

(** The key as a lexicographic comparison. *)
Lemma node_le_spec a b :
  node_le a b = true <->
  match it_parent_id a, it_parent_id b with
  | None, Some _ => True
  | Some _, None => False
  | pa, pb =>
      (default [] pa <> default [] pb /\ pystr_leb (default [] pa) (default [] pb) = true) \/
      (default [] pa = default [] pb /\
       (it_ordinal a < it_ordinal b \/
        it_ordinal a = it_ordinal b /\ pystr_leb (it_id a) (it_id b) = true))
  end.
Proof.
  unfold node_le, pystr_eqb.
  destruct (it_parent_id a) as [pa|], (it_parent_id b) as [pb|]; simpl; try done.
  - destruct (decide (pa = pb)) as [->|Hne].
    + rewrite bool_decide_true, orb_true_iff, andb_true_iff, Z.ltb_lt, Z.eqb_eq by done. naive_solver.
    + rewrite bool_decide_false by done. naive_solver.
  - rewrite orb_true_iff, andb_true_iff, Z.ltb_lt, Z.eqb_eq. naive_solver.
Qed.

Lemma node_le_trans a b c : node_le a b = true -> node_le b c = true -> node_le a c = true.
Proof.
  rewrite !node_le_spec.
  destruct (it_parent_id a) as [pa|], (it_parent_id b) as [pb|], (it_parent_id c) as [pc|]; simpl;
    try done.
  - intros [[Hn H]|[-> H]] [[Hn' H']|[<- H']].
    + left. split; [|by eapply pystr_leb_trans]. intros ->. apply Hn. by apply pystr_leb_antisym.
    + by left.
    + by left.
    + right. split; [done|]. destruct H as [?|[? ?]], H' as [?|[? ?]]; try (left; lia).
      right. split; [lia|]. by eapply pystr_leb_trans.
  - intros [[Hn H]|[_ H]] [[Hn' H']|[_ H']]; try done.
    right. split; [done|]. destruct H as [?|[? ?]], H' as [?|[? ?]]; try (left; lia).
    right. split; [lia|]. by eapply pystr_leb_trans.
Qed.

Lemma node_le_id a b : node_le a b = true -> node_le b a = true -> it_id a = it_id b.
Proof.
  rewrite !node_le_spec.
  destruct (it_parent_id a) as [pa|], (it_parent_id b) as [pb|]; simpl; try done.
  - intros [[Hn H]|[Heq H]] [[Hn' H']|[Heq' H']]; try congruence.
    + by destruct Hn; apply pystr_leb_antisym.
    + apply pystr_leb_antisym; destruct H as [?|[? ?]], H' as [?|[? ?]]; (done || lia).
  - intros [[Hn H]|[_ H]] [[Hn' H']|[_ H']]; try done.
    apply pystr_leb_antisym; destruct H as [?|[? ?]], H' as [?|[? ?]]; (done || lia).
Qed.

(** Whether a forest is well formed does not depend on the order its nodes are listed in. *)
#[export] Instance children_perm : Proper ((≡ₚ) ==> eq ==> (≡ₚ)) children.
Proof.
  intros l l' Hp k k' <-. unfold children. induction Hp; simpl.
  - done.
  - destruct (bool_decide _); [by constructor|done].
  - do 2 destruct (bool_decide _); (done || constructor).
  - by etrans.
Qed.

Lemma rooted_perm l l' d n : l ≡ₚ l' -> rooted l d n -> rooted l' d n.
Proof.
  intros Hp. induction 1 as [|d n p H Hin _ IH]; [by constructor|].
  econstructor; [done| |done]. by rewrite <- Hp.
Qed.

Lemma tree_wf_perm l l' : l ≡ₚ l' -> tree_wf l -> tree_wf l'.
Proof.
  intros Hp [H1 H2 H3 H4]. split.
  - by rewrite <- Hp.
  - by rewrite <- Hp.
  - intros n Hn. rewrite <- Hp in Hn. rewrite <- (children_perm _ _ Hp _ _ eq_refl). by apply H3.
  - intros n Hn. rewrite <- Hp in Hn. destruct (H4 n Hn) as [d Hd]. exists d. by eapply rooted_perm.
Qed.

Lemma reported_Ok {A} (m : result A) a : reported m = Ok a <-> m = Ok a.
Proof. destruct m as [?|[]]; simpl; split; done. Qed.

Lemma validate_tree_wf nodes : validate_tree nodes = Ok tt <-> tree_wf nodes.
Proof.
  unfold validate_tree, validate_iteration_links. rewrite bind_Ok. split.
  - intros (ix & Hi & ([] & Hl & Hc)%bind_Ok).
    apply (index_nodes_exact _ _ [] _ _ indexes_empty) in Hi as (Hix & Hids & Hpl); [|constructor..].
    simpl in *. rewrite check_links_Ok in Hl. rewrite (check_cycles_Ok nodes) in Hc by done.
    split; [done|done| |done]. intros n Hn. rewrite (proj2 (Hl n Hn)). apply Hix.
  - intros [Hids Hpl Hcounts Hroot].
    destruct (index_nodes_total nodes 0 [] _ indexes_empty Hids Hpl) as [ix Hi].
    pose proof Hi as Hix. apply (index_nodes_exact _ _ [] _ _ indexes_empty) in Hix as (Hix & _ & _);
      [|constructor..]. simpl in Hix.
    exists ix. split; [done|]. apply bind_Ok. exists tt. split.
    + apply check_links_Ok. intros n Hn. split.
      * intros p Hp. apply (id_seen _ _ _ Hix). by eapply parent_in_tree; [apply Hroot|].
      * rewrite (ixs_counts _ _ Hix). by apply Hcounts.
    + by apply (check_cycles_Ok nodes).
Qed.

(** ** Properties *)

(** Validation accepts exactly the well-formed forests: ids are distinct, no two siblings
    share an ordinal, every declared child count is the number of nodes naming that parent, and
    from every node the chain of parents stays inside the tree and reaches a root. The walk that
    looks for cycles always has fuel left. *)
Theorem validate_tree_exact (nodes : list IterationSummary) :
  validate_tree nodes = Ok tt <-> tree_wf nodes.
Proof. apply validate_tree_wf. Qed.

Lemma from_nodes_Ok (digest : list IterationSummary -> pystr) (nodes : list IterationSummary)
  (t : IterationTree) :
  (forall l, str_truthy (digest l) = true) ->
  from_nodes digest nodes = Ok t <->
  tree_wf nodes /\ tree_nodes t ≡ₚ nodes /\
  StronglySorted (fun a b => node_le a b = true) (tree_nodes t) /\
  tree_revision t = digest (tree_nodes t).
Proof.
  intros Hd. unfold from_nodes, construct_tree. rewrite Hd. simpl. rewrite bind_Ok. split.
  - intros ([] & H & [= <-]). apply reported_Ok, validate_tree_wf in H. simpl. split_and!.
    + apply (tree_wf_perm (sort_by node_le nodes)); [apply sort_by_perm|done].
    + apply sort_by_perm.
    + apply sort_by_sorted; [apply node_le_total|apply node_le_trans].
    + done.
  - intros (Hwf & Hp & Hs & Hr). exists tt. split.
    + apply reported_Ok, validate_tree_wf. apply (tree_wf_perm nodes); [by rewrite sort_by_perm|done].
    + assert (sort_by node_le nodes = tree_nodes t) as ->; [|destruct t; simpl in *; by subst].
      apply sort_by_unique; [apply node_le_total|apply node_le_trans| |done|done].
      intros x y Hx Hy Hxy Hyx. rewrite Hp in Hx, Hy. apply (NoDup_map_inj it_id nodes); [apply Hwf|done..|].
      by apply node_le_id.
Qed.

(** [from_nodes] builds a tree from exactly the well-formed forests; the tree lists the
    given nodes, roots first and siblings by ordinal, and stamps them with the digest of that
    order. Its result therefore depends on the set of nodes alone, not on the order a policy
    lists them in. *)
Theorem from_nodes_exact (digest : list IterationSummary -> pystr) (nodes : list IterationSummary)
  (t : IterationTree) :
  (forall l, str_truthy (digest l) = true) ->
  from_nodes digest nodes = Ok t <->
  tree_wf nodes /\ tree_nodes t ≡ₚ nodes /\
  StronglySorted (fun a b => node_le a b = true) (tree_nodes t) /\
  tree_revision t = digest (tree_nodes t).
Proof. apply from_nodes_Ok. Qed.

(** ** Witnesses *)

Definition sample_node (id : pystr) (parent : option pystr) (ordinal count : Z) : IterationSummary :=
  mk_IterationSummary id parent KIND_ROUND id ordinal IT_COMPLETED count [].
Definition sample_nodes : list IterationSummary :=
  [sample_node (py "c") (Some (py "a")) 1 0; sample_node (py "b") None 2 0;
   sample_node (py "a") None 1 1].

Lemma from_nodes_exact_witness :
  exists t, from_nodes (fun _ => py "0") sample_nodes = Ok t /\
    map it_id (tree_nodes t) = [py "a"; py "b"; py "c"] /\ tree_wf sample_nodes.
Proof.
  eexists. split; [vm_compute; reflexivity|]. split; [vm_compute; reflexivity|].
  apply (from_nodes_exact (fun _ => py "0") sample_nodes
           (mk_IterationTree (py "0") (sort_by node_le sample_nodes))); [done|].
  vm_compute. reflexivity.
Defined.
