(* ===== verification/Evidence.v ===== *)
(** Round evidence (src/vibesys/hypothesis/transitions.py): the trust rule, hypothesis
    resolution, causal baselines, the trusted archive and its Pareto frontier, the final
    candidate, plateau detection and the notices derived from the records. *)
From S2P Require Import Prelude Floats Metrics History State Notices.

(** ** Trust and resolution *)

Definition trusted_perf_provenance (provenance : option PerfProvenance) : bool :=
  bool_decide (provenance = Some framework).

Record ResolutionEvidence := mk_ResolutionEvidence {
  ev_declared : option HypothesisOutcome;
  ev_passed : bool;
  ev_reviewed : bool;
  ev_comparison : option MetricComparison
}.

Definition resolve_metric_evidence (comparison : MetricComparison) : HypothesisResolution :=
  match comparison with
  | BETTER => R_PROVEN
  | WORSE => R_DISPROVEN
  | WITHIN_NOISE | INCOMPARABLE => R_INCONCLUSIVE
  end.

(** The dictionary of direct resolutions. *)
Definition declared_resolution (o : HypothesisOutcome) : option HypothesisResolution :=
  match o with
  | DISPROVEN => Some R_DISPROVEN
  | IMPLEMENTATION_FAILED => Some R_IMPLEMENTATION_FAILED
  | INCONCLUSIVE => Some R_INCONCLUSIVE
  | BLOCKED => Some R_BLOCKED
  | _ => None
  end.

Definition resolve_hypothesis_outcome (e : ResolutionEvidence) : option HypothesisResolution :=
  if negb (ev_reviewed e) then None
  else if negb (ev_passed e) then Some R_REJECTED
  else
    match ev_declared e with
    | None => None
    | Some CONTINUE => None
    | Some declared =>
        match declared_resolution declared with
        | Some resolution => Some resolution
        | None =>
            match ev_comparison e with
            | None => Some R_UNMEASURED
            | Some comparison => Some (resolve_metric_evidence comparison)
            end
        end
    end.

Definition scalar_candidate_retained (comparison : MetricComparison) : option bool :=
  match comparison with
  | BETTER => Some true
  | WORSE | WITHIN_NOISE => Some false
  | INCOMPARABLE => None
  end.

(** ** Baselines *)

Definition is_some {A} (x : option A) : bool := match x with Some _ => true | None => false end.

Definition record_metric_value (r : RoundRecord) (metric : option pystr) : option float :=
  let fallback :=
    match perf_metric r with
    | Some v =>
        if bool_decide (metric = None) || bool_decide (perf_unit r = metric)
           || bool_decide (r_metrics r = ∅)
        then Some v else None
    | None => None
    end in
  match metric with
  | Some m => match r_metrics r !! m with Some v => Some v | None => fallback end
  | None => fallback
  end.

(** A round that carries an official headline reading the framework took. *)
Definition trusted_reading (r : RoundRecord) : bool :=
  official_evaluation r && is_some (perf_metric r) && trusted_perf_provenance (perf_provenance r).

Definition baseline_candidate (metric : option pystr) (r : RoundRecord) : bool :=
  trusted_reading r
  && (bool_decide (perf_unit r = metric)
      || match metric with Some m => has_key (r_metrics r) m | None => false end).

Definition baseline_candidates (metric : option pystr) (rounds : list RoundRecord)
  : list RoundRecord := List.filter (baseline_candidate metric) rounds.

Definition metric_baseline (parent_round : option Z) (parent_commit metric : option pystr)
  (rounds : list RoundRecord) : option RoundRecord :=
  let comparable := baseline_candidates metric rounds in
  let exact :=
    match parent_commit with
    | Some c => find_last (fun item => bool_decide (commit item = Some c)) comparable
    | None => None
    end in
  match comparable with
  | [] => None
  | _ =>
      match exact with
      | Some item => Some item
      | None =>
          match parent_round with
          | Some n => find_last (fun item => round_number item <=? n) comparable
          | None => match parent_commit with Some _ => None | None => last_opt comparable end
          end
      end
  end.

Definition measurement_delta_reason (h : Hypothesis_) : option PerfDeltaReason :=
  match measurement h with
  | Some m => hm_delta_reason m
  | None =>
      if existsb (fun r => official_evaluation r && is_some (perf_metric r)
                           && negb (trusted_perf_provenance (perf_provenance r))) (h_rounds h)
      then Some NOT_FRAMEWORK_MEASURED else None
  end.

Definition round_comparison (r : RoundRecord) : option MetricComparison :=
  if trusted_reading r then perf_comparison r else None.

(** ** Summaries of one record *)

Definition declared_outcome_of (value : option pystr) : result (option HypothesisOutcome) :=
  match value with
  | None => Ok None
  | Some v =>
      match outcome_of v with
      | Some o => Ok (Some o)
      | None => Err (ValueError "{value!r} is not a valid HypothesisOutcome" [AStr v])
      end
  end.

Definition review_member (v : JudgeVerdict) : HypothesisReview :=
  match v with v_pass => PASS | v_fail => FAIL | v_deferred => DEFERRED end.

Definition review_of (r : RoundRecord) : result HypothesisReview :=
  match judge_verdict r with
  | None => Err (ValueError "round record requires judge_verdict" [])
  | Some v => Ok (review_member v)
  end.

(** [_measurement]. Constructing the strict model validates its fields. *)
Definition measure (r : RoundRecord) (prior_rounds : list RoundRecord) (space : MetricSpace)
  : result (option HypothesisMeasurement) :=
  match perf_metric r, perf_unit r with
  | Some value, Some unit =>
      if official_evaluation r && trusted_perf_provenance (perf_provenance r) then
        let d := direction space (Some (mk_Measurement unit value (perf_direction r))) in
        let delta_reason :=
          if bool_decide (perf_delta_pct r = None) && bool_decide (perf_baseline_round r = None)
             && bool_decide (perf_baseline_commit r = None)
             && bool_decide (perf_baseline_metric r = None)
          then
            match baseline_candidates (perf_unit r) prior_rounds with
            | [] => Some NO_BASELINE_YET
            | _ => Some BASELINE_UNRESOLVED
            end
          else None in
        let m := mk_HypothesisMeasurement (round_number r) unit value (Some unit) d
                   (perf_baseline_round r) (perf_baseline_commit r) (perf_baseline_metric r)
                   (perf_delta_pct r) delta_reason in
        raise (ValidationError "HypothesisMeasurement") when negb (measurement_fields m) in
        Ok (Some m)
      else Ok None
  | _, _ => Ok None
  end.

(** ** Retention and the trusted archive *)

Definition record_candidate_retained (r : RoundRecord) : option bool := candidate_retained r.

Definition record_candidate_metrics (r : RoundRecord) : gmap pystr float :=
  if official_evaluation r && negb (bool_decide (r_metrics r = ∅)) then r_metrics r
  else if bool_decide (record_candidate_retained r = Some true) then candidate_metrics r
  else ∅.

Definition unmeasured_candidate_retained (d : CandidateDisposition) : option bool :=
  match d with UNASSESSED => None | _ => Some false end.

Definition trusted_candidate (space : MetricSpace) (r : RoundRecord) : bool :=
  complete space (record_candidate_metrics r)
  && (opt_str_truthy (commit r) && passed r && reviewed r)
  && trusted_perf_provenance (perf_provenance r)
  && bool_decide (record_candidate_retained r = Some true).

Definition trusted_candidate_records (records : list RoundRecord) (space : MetricSpace)
  : list RoundRecord := List.filter (trusted_candidate space) records.

Definition pareto_frontier_records (records : list RoundRecord) (space : MetricSpace)
  : list RoundRecord :=
  frontier space (trusted_candidate_records records space) record_candidate_metrics.

Definition pareto_archive_dominators (metrics : gmap pystr float) (records : list RoundRecord)
  (space : MetricSpace) : list RoundRecord :=
  if negb (complete space metrics) then []
  else List.filter (fun r => dominates space (record_candidate_metrics r) metrics)
         (trusted_candidate_records records space).

(** ** The archive view *)

Definition archive_metrics (metrics : gmap pystr float) (space : MetricSpace)
  : list ArchiveMetric :=
  flat_map (fun o => match metrics !! o_name o with
                     | Some v => [mk_ArchiveMetric (o_name o) v (o_direction o)]
                     | None => []
                     end) (objectives space).

Definition archive_latest (latest : RoundRecord) (space : MetricSpace) : ArchiveLatestRound :=
  let trusted_official :=
    official_evaluation latest && trusted_perf_provenance (perf_provenance latest) in
  let '(official_metrics, official_scalar) :=
    if trusted_official && negb (bool_decide (length (objectives space) = 0%nat))
       && complete space (r_metrics latest)
    then (archive_metrics (r_metrics latest) space, None)
    else
      match perf_metric latest with
      | Some v =>
          if trusted_official then ([], Some (mk_ArchiveScalarReading v (perf_unit latest)))
          else ([], None)
      | None => ([], None)
      end in
  mk_ArchiveLatestRound (round_number latest) (commit latest) official_metrics official_scalar
    (record_candidate_retained latest).

(** [max(records, key=round_number, default=None)]: the first of the largest. *)
Definition max_round (records : list RoundRecord) : option RoundRecord :=
  fold_left (fun acc r =>
      match acc with
      | None => Some r
      | Some best => if round_number best <? round_number r then Some r else acc
      end) records None.

Definition PENDING_CLAIM_LIMIT : nat := 8.

(** [l[:-n]] and [l[-n:]] for a positive [n]. *)
Definition drop_last {A} (n : nat) (l : list A) : list A := firstn (length l - n) l.
Definition take_last {A} (n : nat) (l : list A) : list A := skipn (length l - n) l.

Definition trusted_parent (space : MetricSpace) (r : RoundRecord) : list ArchiveTrustedParent :=
  match commit r with
  | Some c =>
      [mk_ArchiveTrustedParent (round_number r) c (official_evaluation r)
         (archive_metrics (record_candidate_metrics r) space) (candidate_operating_point r)
         (str_or (candidate_evaluation_artifact r) (evaluation_artifact r))]
  | None => []
  end.

Definition pending_claim (space : MetricSpace) (r : RoundRecord) : list ArchivePendingClaim :=
  match commit r with
  | Some c =>
      [mk_ArchivePendingClaim (round_number r) c (archive_metrics (candidate_metrics r) space)
         (candidate_operating_point r) (candidate_evaluation_artifact r)
         (candidate_retention_reason r)]
  | None => []
  end.

Definition is_pending (space : MetricSpace) (trusted_rounds : list Z) (r : RoundRecord) : bool :=
  negb (bool_decide (round_number r ∈ trusted_rounds)) && opt_str_truthy (commit r)
  && bool_decide (record_candidate_retained r = Some true)
  && forallb (fun o => has_key (candidate_metrics r) (o_name o)) (objectives space).

Definition pending_records (records : list RoundRecord) (space : MetricSpace) : list RoundRecord :=
  let trusted_rounds := map round_number (trusted_candidate_records records space) in
  sort_by round_le (List.filter (is_pending space trusted_rounds) records).

Definition omitted_claims (omitted : list RoundRecord) : option OmittedPendingClaims :=
  match omitted with
  | [] => None
  | first :: _ =>
      Some (mk_OmittedPendingClaims (length omitted) (round_number first)
              (round_number (List.last omitted first)))
  end.

Definition pareto_archive_view (records : list RoundRecord) (space : MetricSpace)
  : ParetoArchiveView :=
  let view :=
    mk_ParetoArchiveView (map (fun o => mk_ArchiveAxis (o_name o) (o_direction o)) (objectives space))
      (relative_noise space)
      (option_map (fun latest => archive_latest latest space) (max_round records)) [] [] None in
  match objectives space with
  | [] => view
  | _ =>
      let pending := pending_records records space in
      view <| av_trusted_parents :=
                flat_map (trusted_parent space) (pareto_frontier_records records space) |>
           <| av_pending_claims :=
                flat_map (pending_claim space) (take_last PENDING_CLAIM_LIMIT pending) |>
           <| av_omitted_claims := omitted_claims (drop_last PENDING_CLAIM_LIMIT pending) |>
  end.

Definition pareto_archive_conflict (disposition : CandidateDisposition)
  (metrics : gmap pystr float) (records : list RoundRecord) (space : MetricSpace)
  : option ArchiveConflict :=
  if negb (bool_decide (disposition = PARETO_FRONTIER)) then None
  else
    match pareto_archive_dominators metrics records space with
    | [] => None
    | ds =>
        Some (mk_ArchiveConflict
                (map (fun r => mk_ArchiveDominator (round_number r)
                                 (archive_metrics (record_candidate_metrics r) space)) ds))
    end.

(** ** The final candidate *)

Definition headline_measurement (r : RoundRecord) : option Measurement :=
  match perf_metric r, perf_unit r with
  | Some v, Some u => Some (mk_Measurement u v (perf_direction r))
  | _, _ => None
  end.

Definition trusted_final (space : MetricSpace) (r : RoundRecord) : bool :=
  opt_str_truthy (commit r) && passed r && reviewed r && official_evaluation r
  && trusted_perf_provenance (perf_provenance r)
  && bool_decide (record_candidate_retained r = Some true)
  && match objectives space with
     | [] => is_some (direction space (headline_measurement r))
     | _ => complete space (r_metrics r)
     end.

Definition trusted_final_records (records : list RoundRecord) (space : MetricSpace)
  : list RoundRecord := List.filter (trusted_final space) records.

Definition newer (a b : RoundRecord) : bool := round_number b <=? round_number a.

(** [record.metrics[primary.name]]: the filters before it make the key present. *)
Definition primary_measurement (p : Objective) (r : RoundRecord) : option Measurement :=
  match r_metrics r !! o_name p with
  | Some v => Some (mk_Measurement (o_name p) v (Some (o_direction p)))
  | None => None
  end.

Definition select_final_candidate (records : list RoundRecord) (space : MetricSpace)
  : option RoundRecord :=
  let newest_first := sort_by newer (trusted_final_records records space) in
  match primary space with
  | Some p =>
      let frontier_rounds := map round_number (pareto_frontier_records newest_first space) in
      let candidates :=
        List.filter (fun r => bool_decide (round_number r ∈ frontier_rounds)) newest_first in
      best space (primary_measurement p) candidates
  | None => best space headline_measurement newest_first
  end.

(** ** Plateaus *)

Definition PLATEAU_MIN_STREAK : nat := 3.
Definition PLATEAU_THRESHOLD_PCT : float := f_five.
Definition EN_DASH : N := 8211.
Definition EM_DASH : N := 8212.

Definition fresh_reading (r : RoundRecord) : bool :=
  passed r && official_evaluation r && is_some (perf_metric r)
  && trusted_perf_provenance (perf_provenance r) && negb (profile_skipped r).

Definition plateau_message (first last : Z) (lo hi spread_pct : float) (unit : option pystr)
  : pystr :=
  py "The last " ++ int_str (Z.of_nat PLATEAU_MIN_STREAK)
  ++ py " rounds with a fresh perf measurement (rounds "
  ++ int_str first ++ [EN_DASH] ++ int_str last ++ py ") all landed in "
  ++ format_2f lo ++ [EN_DASH] ++ format_2f hi
  ++ (if opt_str_truthy unit then 32%N :: from_option id [] unit else [])
  ++ py " " ++ [EM_DASH] ++ py " a " ++ format_2f spread_pct
  ++ py "% spread, well within bench noise. Whatever you've been working on for those rounds is not actually moving the headline metric.".

(** The window the warning is about: the last readings in the unit of the newest one. *)
Definition plateau_window (records : list RoundRecord) : option (list RoundRecord) :=
  let fresh := List.filter fresh_reading records in
  if (length fresh <? PLATEAU_MIN_STREAK)%nat then None
  else
    match last_opt fresh with
    | None => None
    | Some newest =>
        let same_unit := List.filter (fun r => bool_decide (perf_unit r = perf_unit newest)) fresh in
        if (length same_unit <? PLATEAU_MIN_STREAK)%nat then None
        else Some (take_last PLATEAU_MIN_STREAK same_unit)
    end.

Definition spread_pct (lo hi : float) : float := f_mul (f_div (f_sub hi lo) hi) f_hundred.

Definition detect_plateau (records : list RoundRecord) : option pystr :=
  match plateau_window records with
  | None => None
  | Some tail =>
      match omap perf_metric tail with
      | [] => None
      | p :: perfs =>
          let hi := f_max p perfs in
          let lo := f_min p perfs in
          if f_le hi f_zero then None
          else
            let spread := spread_pct lo hi in
            if f_ge spread PLATEAU_THRESHOLD_PCT then None
            else
              match tail, last_opt tail with
              | first :: _, Some newest =>
                  Some (plateau_message (round_number first) (round_number newest) lo hi spread
                          (perf_unit newest))
              | _, _ => None
              end
      end
  end.

(** ** Counting provisional candidates *)

Definition provisional_candidate (r : RoundRecord) : bool :=
  passed r && reviewed r
  && (bool_decide (record_candidate_retained r = Some true)
      || bool_decide (hypothesis_outcome r = Some (resolution_value R_PROVEN))
      || bool_decide (hypothesis_outcome r = Some (resolution_value R_UNMEASURED))).

(** The loop over [reversed(records)] with its [break]. *)
Fixpoint provisional_loop (newest_first : list RoundRecord) (count : nat) : nat :=
  match newest_first with
  | [] => count
  | r :: older =>
      if official_evaluation r then count
      else provisional_loop older (if provisional_candidate r then S count else count)
  end.

Definition provisional_candidates_since_official (records : list RoundRecord) : nat :=
  provisional_loop (rev records) 0.

(** ** Terminal workspaces *)

Definition terminal_outcomes : list pystr :=
  map outcome_value [DISPROVEN; IMPLEMENTATION_FAILED; INCONCLUSIVE; BLOCKED].

(** The records of [id] at the end of [newest_first], oldest first. *)
Fixpoint campaign_loop (id : option pystr) (newest_first campaign : list RoundRecord)
  : list RoundRecord :=
  match newest_first with
  | [] => campaign
  | r :: older =>
      if bool_decide (r_hypothesis_id r = id) then campaign_loop id older (r :: campaign)
      else campaign
  end.

Definition campaign_parent_round (latest : RoundRecord) (campaign : list RoundRecord) : option Z :=
  match find (fun r => is_some (hypothesis_parent_round r)) campaign with
  | Some r => hypothesis_parent_round r
  | None =>
      let started := round_number (hd latest campaign) in
      if 1 <? started then Some (started - 1) else None
  end.

Definition nonterminal_checkpoint (r : RoundRecord) : bool :=
  is_some (commit r)
  && (bool_decide (hypothesis_outcome r = Some (outcome_value CONTINUE))
      || bool_decide (hypothesis_outcome r = Some (py "proven"))).

Definition terminal_workspace_notice (records : list RoundRecord) : option RegressionNotice :=
  match last_opt records with
  | None => None
  | Some latest =>
      match hypothesis_outcome latest with
      | Some outcome =>
          if negb (bool_decide (outcome ∈ terminal_outcomes)) then None
          else if bool_decide (record_candidate_retained latest = Some true) then
            Some (RetainedTerminalCheckpoint (r_hypothesis_id latest) outcome
                    (round_number latest) (passed latest && reviewed latest)
                    (candidate_metrics latest) (commit latest))
          else
            let earlier := removelast records in
            let campaign := campaign_loop (r_hypothesis_id latest) (rev earlier) [latest] in
            let parent_round := campaign_parent_round latest campaign in
            let checkpoint :=
              match find nonterminal_checkpoint (rev earlier) with
              | Some c =>
                  if bool_decide (Some (round_number c) = parent_round) then None
                  else Some (mk_WorkspaceCheckpoint (round_number c) (hypothesis_outcome c)
                               (reviewed c))
              | None => None
              end in
            Some (TerminalWorkspaceEdits (r_hypothesis_id latest) outcome (round_number latest)
                    parent_round checkpoint)
      | None => None
      end
  end.

(** [CarryOver]: the record-derived guidance of the next planning turn. *)
Record CarryOver := mk_CarryOver {
  regression : option RegressionNotice;
  exhaustion : option ExhaustionNotice
}.
Definition empty_carry : CarryOver := mk_CarryOver None None.

(** ** Helper lemmas *)

Lemma trusted_perf_provenance_spec p : trusted_perf_provenance p = true <-> p = Some framework.
Proof. apply bool_decide_eq_true. Qed.

Lemma is_some_spec {A} (x : option A) : is_some x = true <-> x <> None.
Proof. by destruct x. Qed.

Lemma baseline_has_value metric b :
  baseline_candidate metric b = true -> is_some (record_metric_value b metric) = true.
Proof.
  unfold baseline_candidate, trusted_reading, record_metric_value.
  rewrite !andb_true_iff, orb_true_iff, bool_decide_eq_true. intros [[[_ Hp] _] H].
  destruct (perf_metric b) as [v|]; [|done].
  destruct H as [H|H].
  - rewrite (bool_decide_true (perf_unit b = metric)) by done. rewrite orb_true_r. simpl.
    destruct metric as [m|]; [by destruct (r_metrics b !! m)|done].
  - destruct metric as [m|]; [|done]. unfold has_key in H. by destruct (r_metrics b !! m).
Qed.

Lemma complete_nonempty space row : complete space row = true -> row <> ∅.
Proof.
  unfold complete. destruct (objectives space) as [|o os]; [done|]. simpl.
  intros [H _]%andb_true_iff ->. unfold has_key in H. by rewrite lookup_empty in H.
Qed.

(** On a trusted final record the compared row is the official one, and the record is in the
    trusted archive. *)
Lemma trusted_final_row space r :
  objectives space <> [] -> trusted_final space r = true ->
  record_candidate_metrics r = r_metrics r /\ complete space (r_metrics r) = true /\
  trusted_candidate space r = true.
Proof.
  unfold trusted_final, trusted_candidate. rewrite !andb_true_iff.
  intros Ho [[[[[[Hc Hp] Hr] Hof] Ht] Hret] Hd].
  assert (Hcomp : complete space (r_metrics r) = true) by (by destruct (objectives space)).
  assert (Hrow : record_candidate_metrics r = r_metrics r).
  { unfold record_candidate_metrics. rewrite Hof, bool_decide_false; [done|].
    by eapply complete_nonempty. }
  rewrite Hrow, Hc, Hp, Hr, Ht, Hret. done.
Qed.

Lemma newer_total a b : newer a b = true \/ newer b a = true.
Proof. unfold newer. rewrite !Z.leb_le. lia. Qed.
Lemma newer_trans a b c : newer a b = true -> newer b c = true -> newer a c = true.
Proof. unfold newer. rewrite !Z.leb_le. lia. Qed.

Lemma elem_of_newest_first records space r :
  r ∈ sort_by newer (trusted_final_records records space) <->
  r ∈ records /\ trusted_final space r = true.
Proof. rewrite elem_of_sort_by. apply elem_of_filter. Qed.

Lemma NoDup_lfilter {A} (p : A -> bool) (l : list A) : NoDup l -> NoDup (List.filter p l).
Proof.
  induction 1 as [|x l Hx _ IH]; simpl; [constructor|].
  destruct (p x); [|done]. constructor; [|done]. by rewrite elem_of_filter; intros [? _].
Qed.

Section Final.
Context (space : MetricSpace) (records : list RoundRecord).
Context (Hobj : objectives space <> []) (Hvalid : space_valid space = true).
Context (Hnodup : NoDup (map round_number records)).
Let newest_first := sort_by newer (trusted_final_records records space).
Let front := pareto_frontier_records newest_first space.

Lemma trusted_newest_first : trusted_candidate_records newest_first space = newest_first.
Proof.
  unfold trusted_candidate_records.
  assert (H : forall r, r ∈ newest_first -> trusted_candidate space r = true).
  { intros r [_ Hr]%elem_of_newest_first. by apply (trusted_final_row space r Hobj Hr). }
  revert H. generalize newest_first. intros l. induction l as [|x l IH]; simpl; intros H; [done|].
  rewrite (H x) by set_solver. rewrite IH; [done|]. set_solver.
Qed.

Lemma elem_of_front r :
  r ∈ front <-> r ∈ newest_first /\
    forall q, q ∈ newest_first ->
      dominates space (record_candidate_metrics q) (record_candidate_metrics r) = false.
Proof.
  unfold front, pareto_frontier_records.
  by rewrite elem_of_frontier, trusted_newest_first, undominated_spec.
Qed.

Lemma candidates_are_front r :
  r ∈ List.filter (fun x => bool_decide (round_number x ∈ map round_number front)) newest_first
  <-> r ∈ front.
Proof.
  rewrite elem_of_filter, bool_decide_eq_true, elem_of_map. split.
  - intros [Hr (q & Hq & Hf)]. pose proof Hf as [Hqn _]%elem_of_front.
    apply elem_of_newest_first in Hr as [Hr _], Hqn as [Hqn _].
    by rewrite (NoDup_map_inj round_number records r q).
  - intros Hf. split; [by apply elem_of_front in Hf as [? _]|]. eauto.
Qed.

Let cands :=
  List.filter (fun r => bool_decide (round_number r ∈ map round_number front)) newest_first.

Lemma final_row r : r ∈ newest_first -> record_candidate_metrics r = r_metrics r.
Proof. intros [_ Hr]%elem_of_newest_first. by apply (trusted_final_row space r Hobj Hr). Qed.

Lemma elem_of_cands r :
  r ∈ cands <-> r ∈ newest_first /\
    forall q, q ∈ newest_first -> dominates space (r_metrics q) (r_metrics r) = false.
Proof.
  unfold cands. rewrite candidates_are_front, elem_of_front.
  split; intros [Hr H]; (split; [done|]); intros q Hq; specialize (H q Hq);
    rewrite !final_row in * by done; done.
Qed.

Context (Hzero : f_is_zero (relative_noise space) = true).
Context (Hsound : forall r, r ∈ records -> trusted_final space r = true ->
  sound_row space (r_metrics r)).
Context (p : Objective) (Hp : p ∈ objectives space).

Lemma final_reading r :
  r ∈ newest_first -> exists v, r_metrics r !! o_name p = Some v /\ sound_value v = true.
Proof. intros [Hr Ht]%elem_of_newest_first. by apply (Hsound r Hr Ht). Qed.

Lemma primary_reading r v :
  r_metrics r !! o_name p = Some v ->
  candidate_reading space (primary_measurement p) r
  = Some (mk_Measurement (o_name p) v (Some (o_direction p))).
Proof. intros E. unfold candidate_reading, primary_measurement. by rewrite E. Qed.

Lemma cands_on_axis r :
  r ∈ cands -> on_axis space (primary_measurement p) (o_name p) (o_direction p) r.
Proof.
  intros [Hr _]%elem_of_cands m. unfold primary_measurement.
  destruct (final_reading r Hr) as (v & -> & Hs). intros [= <-] _. by split_and!.
Qed.

Lemma cands_cover q :
  q ∈ newest_first -> q ∈ cands \/
  exists q', q' ∈ cands /\ dominates space (r_metrics q') (r_metrics q) = true.
Proof.
  intros Hq.
  assert (Hrows : forall r, r ∈ newest_first -> sound_row space (r_metrics r)).
  { intros r [Hr Ht]%elem_of_newest_first. by apply Hsound. }
  destruct (frontier_covers space newest_first r_metrics Hvalid Hzero Hrows q Hq)
    as [H|(q' & H & Hd)]; apply elem_of_frontier in H as [H Hu]; try done;
    rewrite undominated_spec in Hu; [left|right; exists q']; rewrite elem_of_cands; done.
Qed.

(** Dominance does not worsen the primary reading. *)
Lemma dominated_not_better a b u w :
  dominates space a b = true -> a !! o_name p = Some u -> b !! o_name p = Some w ->
  sound_value u = true -> sound_value w = true -> better (o_direction p) w u = false.
Proof.
  intros [Hd _]%dominates_spec Eu Ew Su Sw. specialize (Hd p Hp).
  unfold axis_comparison, reading_on in Hd. rewrite Eu, Ew in Hd.
  erewrite (compare_on_axis space Hvalid Hzero) in Hd by done. simpl in Hd.
  unfold strict_comparison in Hd.
  destruct (better (o_direction p) u w) eqn:E1; [by apply better_asym|].
  by destruct (better (o_direction p) w u).
Qed.

Lemma front_leads q r v w :
  first_leader space (primary_measurement p) (o_direction p) cands r
    (mk_Measurement (o_name p) v (Some (o_direction p))) ->
  r_metrics r !! o_name p = Some v -> sound_value v = true ->
  q ∈ newest_first -> r_metrics q !! o_name p = Some w -> better (o_direction p) w v = false.
Proof.
  intros (pre & post & Hsplit & _ & Hpre & Hpost) Ev Sv Hq Ew. simpl in Hpre, Hpost.
  assert (Hlead : forall x u, x ∈ cands -> r_metrics x !! o_name p = Some u ->
    better (o_direction p) u v = false).
  { intros x u Hx Eu. rewrite Hsplit in Hx. apply elem_of_app in Hx as [Hx|Hx].
    - apply better_asym. by apply (Hpre x _ Hx (primary_reading x u Eu)).
    - apply elem_of_cons in Hx as [->|Hx]; [|by apply (Hpost x _ Hx (primary_reading x u Eu))].
      simplify_eq. apply better_irrefl. }
  destruct (cands_cover q Hq) as [Hqc|(q' & Hqc & Hd)]; [by eapply Hlead|].
  pose proof Hqc as [Hqn' _]%elem_of_cands.
  destruct (final_reading q' Hqn') as (u & Eu & Su), (final_reading q Hq) as (w' & Ew' & Sw).
  simplify_eq. apply (not_worse_trans _ _ u); [by apply sound_not_nan..|by eapply Hlead|].
  by eapply dominated_not_better.
Qed.
End Final.

(** ** Properties *)

(** The resolution table, exactly: a hypothesis is PROVEN only by a reviewed, passed,
    supportive declaration whose official reading compared BETTER; without a trusted comparison
    the same declaration is UNMEASURED; REJECTED means reviewed and not passed; and it stays
    unresolved exactly when unreviewed, or passed without a final declaration. *)
Theorem resolution_table (e : ResolutionEvidence) :
  let supportive := ev_declared e = Some SUPPORTED \/ ev_declared e = Some NOMINATED in
  let settled := ev_reviewed e = true /\ ev_passed e = true in
  (resolve_hypothesis_outcome e = Some R_PROVEN <->
     settled /\ supportive /\ ev_comparison e = Some BETTER) /\
  (resolve_hypothesis_outcome e = Some R_UNMEASURED <->
     settled /\ supportive /\ ev_comparison e = None) /\
  (resolve_hypothesis_outcome e = Some R_DISPROVEN <->
     settled /\ (ev_declared e = Some DISPROVEN \/
                 supportive /\ ev_comparison e = Some WORSE)) /\
  (resolve_hypothesis_outcome e = Some R_REJECTED <->
     ev_reviewed e = true /\ ev_passed e = false) /\
  (resolve_hypothesis_outcome e = None <->
     ev_reviewed e = false \/
     settled /\ (ev_declared e = None \/ ev_declared e = Some CONTINUE)).
Proof.
  destruct e as [d p r c]. unfold resolve_hypothesis_outcome. simpl.
  destruct r, p, d as [[]|], c as [[]|]; simpl; naive_solver.
Qed.

(** The causal baseline is exactly the latest framework-measured official round of the
    metric at the parent commit or, when no such round has that commit, the latest one not newer
    than the parent round; a commit without a round number never falls back; and the round found
    always has a value for the metric. *)
Theorem baseline_causal (parent_round : option Z) (parent_commit metric : option pystr)
  (rounds : list RoundRecord) (b : RoundRecord) :
  let at_commit := fun r => baseline_candidate metric r
    && match parent_commit with Some c => bool_decide (commit r = Some c) | None => false end in
  let bounded := fun r => baseline_candidate metric r
    && match parent_round with Some n => round_number r <=? n | None => true end in
  (metric_baseline parent_round parent_commit metric rounds = Some b <->
     latest_such at_commit rounds b \/
     ((forall r, r ∈ rounds -> at_commit r = false) /\
      (parent_round = None -> parent_commit = None) /\ latest_such bounded rounds b)) /\
  (metric_baseline parent_round parent_commit metric rounds = Some b ->
     trusted_perf_provenance (perf_provenance b) = true /\
     is_some (record_metric_value b metric) = true).
Proof.
  intros at_commit bounded.
  assert (Hb : metric_baseline parent_round parent_commit metric rounds =
    match find_last at_commit rounds with
    | Some x => Some x
    | None => if bool_decide (parent_round = None -> parent_commit = None)
              then find_last bounded rounds else None
    end).
  { unfold metric_baseline, at_commit, bounded.
    assert (Hnil : forall X : option RoundRecord,
      (baseline_candidates metric rounds = [] -> X = None) ->
      match baseline_candidates metric rounds with [] => None | _ => X end = X).
    { intros X HX. destruct (baseline_candidates metric rounds); [by rewrite HX|done]. }
    assert (Hfalse : find_last (fun r => baseline_candidate metric r && false) rounds = None).
    { apply find_last_None. intros. apply andb_false_r. }
    rewrite Hnil.
    - rewrite last_find_last. unfold baseline_candidates.
      destruct parent_commit as [c|], parent_round as [n|]; rewrite ?find_last_filter, ?Hfalse.
      + rewrite bool_decide_true by done. by destruct (find_last _ rounds).
      + rewrite bool_decide_false by naive_solver. by destruct (find_last _ rounds).
      + by rewrite bool_decide_true by done.
      + by rewrite bool_decide_true by done.
    - intros ->. by destruct parent_commit, parent_round. }
  rewrite Hb. split.
  - destruct (find_last at_commit rounds) as [x|] eqn:E.
    + pose proof E as E'. apply find_last_Some in E'. split.
      * intros [= <-]. by left.
      * intros [H|(H & _)]; [by apply find_last_Some in H; congruence|].
        apply latest_such_elem in E' as [Hx Hp]. by rewrite H in Hp.
    + rewrite find_last_None in E. case_bool_decide as Hd.
      * rewrite find_last_Some. split; [by right|]. intros [H|(_ & _ & H)]; [|done].
        apply latest_such_elem in H as [Hx Hp]. by rewrite E in Hp.
      * split; [done|]. intros [H|(_ & H & _)]; [|done].
        apply latest_such_elem in H as [Hx Hp]. by rewrite E in Hp.
  - intros H.
    assert (Hc : baseline_candidate metric b = true).
    { destruct (find_last at_commit rounds) eqn:E; [|case_bool_decide; [|done]].
      - apply find_last_Some, latest_such_elem in E as [_ Hp]. injection H as ->.
        by apply andb_true_iff in Hp as [? _].
      - apply find_last_Some, latest_such_elem in H as [_ Hp]. by apply andb_true_iff in Hp as [? _]. }
    split; [|by apply baseline_has_value].
    unfold baseline_candidate, trusted_reading in Hc. by rewrite !andb_true_iff in Hc; destruct Hc as [[_ ?] _].
Qed.

(** In a strict space with objectives the final candidate is a trusted, reviewed, retained
    official record that no trusted final record dominates or beats on the primary objective;
    and one is found whenever any trusted final record exists. *)
Lemma final_candidate_optimal (space : MetricSpace) (p : Objective) (records : list RoundRecord) :
  space_valid space = true -> f_is_zero (relative_noise space) = true ->
  primary space = Some p -> NoDup (map round_number records) ->
  (forall r, r ∈ records -> trusted_final space r = true -> sound_row space (r_metrics r)) ->
  match select_final_candidate records space with
  | Some r =>
      r ∈ records /\ trusted_final space r = true /\
      forall q, q ∈ records -> trusted_final space q = true ->
        dominates space (r_metrics q) (r_metrics r) = false /\
        forall v w, r_metrics r !! o_name p = Some v -> r_metrics q !! o_name p = Some w ->
          better (o_direction p) w v = false
  | None => forall q, q ∈ records -> trusted_final space q = false
  end.
Proof.
  intros Hv Hz Hp Hnd Hsound.
  assert (Hpo : p ∈ objectives space).
  { unfold primary in Hp. destruct (objectives space); [done|]. injection Hp as ->. set_solver. }
  assert (Hobj : objectives space <> []) by (intros E; rewrite E in Hpo; set_solver).
  unfold select_final_candidate. rewrite Hp. cbv zeta.
  set (cands := List.filter _ _).
  pose proof (best_leader space (primary_measurement p) _ _ cands Hv Hz
    (cands_on_axis space records Hobj Hv Hnd Hsound p Hpo)) as Hbest.
  destruct (best space (primary_measurement p) cands) as [r|].
  - destruct Hbest as (m & Hlead).
    assert (Hr : r ∈ cands) by (destruct Hlead as (? & ? & -> & _); set_solver).
    apply elem_of_cands in Hr as [Hrn Hdom]; [|done..].
    pose proof Hrn as [Hrr Hrt]%elem_of_newest_first.
    split_and!; [done|done|]. intros q Hq Hqt.
    assert (Hqn : q ∈ sort_by newer (trusted_final_records records space)) by by apply elem_of_newest_first.
    split; [by apply Hdom|]. intros v w Ev Ew.
    destruct (final_reading space records Hsound p Hpo r Hrn) as (v' & Ev' & Sv).
    assert (v' = v) by congruence. subst v'.
    assert (Hm : m = mk_Measurement (o_name p) v (Some (o_direction p))).
    { destruct Hlead as (? & ? & _ & Hm & _). rewrite (primary_reading _ _ _ v) in Hm by done. congruence. }
    subst m. by eapply (front_leads space records Hobj Hv Hnd Hz Hsound p Hpo q r).
  - intros q Hq. destruct (trusted_final space q) eqn:Hqt; [|done].
    assert (Hqn : q ∈ sort_by newer (trusted_final_records records space)) by by apply elem_of_newest_first.
    assert (Hsome : exists c, c ∈ cands).
    { destruct (cands_cover space records Hobj Hv Hnd Hz Hsound q Hqn) as [?|(? & ? & _)]; eauto. }
    destruct Hsome as [c Hc]. pose proof Hc as [Hn _]%elem_of_cands; [|done..].
    destruct (final_reading space records Hsound p Hpo c Hn) as (v & Ev & _).
    specialize (Hbest c Hc). by rewrite (primary_reading space p c v) in Hbest.
Qed.

(** *** The archive view *)

Lemma round_le_total a b : round_le a b = true \/ round_le b a = true.
Proof. unfold round_le. rewrite !Z.leb_le. lia. Qed.
Lemma round_le_trans a b c : round_le a b = true -> round_le b c = true -> round_le a c = true.
Proof. unfold round_le. rewrite !Z.leb_le. lia. Qed.

Lemma sorted_split l n x y :
  StronglySorted (fun a b => round_le a b = true) l ->
  x ∈ firstn n l -> y ∈ skipn n l -> round_number x <= round_number y.
Proof.
  intros Hs. revert n. induction Hs as [|z l Hs IH Hall]; intros n.
  - rewrite firstn_nil. by intros ?%not_elem_of_nil.
  - destruct n as [|n]; simpl; [by intros ?%not_elem_of_nil|].
    intros [-> | Hx]%elem_of_cons Hy; [|by eapply IH].
    rewrite Forall_forall in Hall. apply Z.leb_le, (Hall y).
    rewrite <- (firstn_skipn n l). set_solver.
Qed.

Lemma pending_has_commit records space r :
  r ∈ pending_records records space -> exists c, commit r = Some c.
Proof.
  unfold pending_records. rewrite elem_of_sort_by, elem_of_filter. unfold is_pending.
  rewrite !andb_true_iff. intros [_ [[[_ Hc] _] _]]. destruct (commit r) as [c|]; [eauto|done].
Qed.

Lemma pending_claims_rounds space l :
  (forall r, r ∈ l -> exists c, commit r = Some c) ->
  map pc_round_number (flat_map (pending_claim space) l) = map round_number l.
Proof.
  induction l as [|r l IH]; simpl; intros H; [done|]. unfold pending_claim at 1.
  destruct (H r) as [c ->]; [set_solver|]. simpl. rewrite IH; [done|]. set_solver.
Qed.

Lemma omitted_claims_count l :
  match omitted_claims l with Some o => om_count o | None => 0%nat end = length l.
Proof. by destruct l. Qed.

(** The archive view shows at most eight pending claims, the newest ones in round order; the
    omitted count accounts for every other pending claim, all of them no newer; and a claim is
    never pending and a trusted archive point at once. *)
Theorem archive_view_pending (records : list RoundRecord) (space : MetricSpace) :
  objectives space <> [] ->
  let view := pareto_archive_view records space in
  let pending := pending_records records space in
  let omitted := match av_omitted_claims view with Some o => om_count o | None => 0%nat end in
  (length (av_pending_claims view) <= PENDING_CLAIM_LIMIT)%nat /\
  map pc_round_number (av_pending_claims view)
    = map round_number (take_last PENDING_CLAIM_LIMIT pending) /\
  (omitted + length (av_pending_claims view))%nat = length pending /\
  (forall x y, x ∈ drop_last PENDING_CLAIM_LIMIT pending ->
     y ∈ take_last PENDING_CLAIM_LIMIT pending -> round_number x <= round_number y) /\
  (forall r t, r ∈ pending -> t ∈ trusted_candidate_records records space ->
     round_number r <> round_number t).
Proof.
  intros Hobj view pending omitted.
  assert (Hpend : av_pending_claims view = flat_map (pending_claim space) (take_last PENDING_CLAIM_LIMIT pending)
    /\ av_omitted_claims view = omitted_claims (drop_last PENDING_CLAIM_LIMIT pending)).
  { unfold view, pareto_archive_view. by destruct (objectives space). }
  destruct Hpend as [Hpend Hom].
  assert (Hrounds : map pc_round_number (av_pending_claims view)
    = map round_number (take_last PENDING_CLAIM_LIMIT pending)).
  { rewrite Hpend. apply pending_claims_rounds. intros r Hr. apply (pending_has_commit records space).
    unfold take_last in Hr. fold pending. rewrite <- (firstn_skipn (length pending - PENDING_CLAIM_LIMIT) pending).
    set_solver. }
  assert (Hlen : length (av_pending_claims view) = length (take_last PENDING_CLAIM_LIMIT pending)).
  { rewrite <- (length_map pc_round_number), Hrounds. apply length_map. }
  assert (Homit : omitted = length (drop_last PENDING_CLAIM_LIMIT pending)).
  { unfold omitted. rewrite Hom. apply omitted_claims_count. }
  split_and!.
  - rewrite Hlen. unfold take_last. rewrite length_skipn. lia.
  - done.
  - rewrite Homit, Hlen. unfold take_last, drop_last. rewrite length_skipn, length_firstn. lia.
  - intros x y. apply sorted_split. apply sort_by_sorted; [apply round_le_total|apply round_le_trans].
  - intros r t Hr Ht E. unfold pending, pending_records in Hr.
    rewrite elem_of_sort_by, elem_of_filter in Hr. destruct Hr as [_ Hr].
    unfold is_pending in Hr. rewrite !andb_true_iff in Hr. destruct Hr as [[[Hr _] _] _].
    rewrite negb_true_iff, bool_decide_eq_false in Hr. apply Hr. rewrite E. by apply elem_of_map_1.
Qed.

(** A frontier claim conflicts exactly when its row is complete and some trusted archive
    point dominates it, and the notice names exactly those points, in record order. Claims of
    any other disposition, and records that are not trusted, never raise a conflict. *)
Theorem archive_conflict_exact (d : CandidateDisposition) (row : gmap pystr float)
  (records : list RoundRecord) (space : MetricSpace) :
  (pareto_archive_conflict d row records space <> None <->
     d = PARETO_FRONTIER /\ complete space row = true /\
     exists r, r ∈ records /\ trusted_candidate space r = true /\
       dominates space (record_candidate_metrics r) row = true) /\
  (forall c, pareto_archive_conflict d row records space = Some c ->
     map ad_round_number (dominators c) =
     map round_number (List.filter (fun r => trusted_candidate space r
       && dominates space (record_candidate_metrics r) row) records)).
Proof.
  assert (Hf : forall l, List.filter (fun r => dominates space (record_candidate_metrics r) row)
      (List.filter (trusted_candidate space) l) =
    List.filter (fun r => trusted_candidate space r
      && dominates space (record_candidate_metrics r) row) l).
  { induction l as [|r l IH]; simpl; [done|].
    destruct (trusted_candidate space r); simpl; [|done]. rewrite IH. done. }
  unfold pareto_archive_conflict, pareto_archive_dominators, trusted_candidate_records.
  rewrite Hf. set (l := List.filter _ records).
  assert (Hl : l <> [] <-> exists r, r ∈ records /\ trusted_candidate space r = true /\
    dominates space (record_candidate_metrics r) row = true).
  { transitivity (exists r, r ∈ l).
    - destruct l as [|r l']; [by split; [|intros [? ?%not_elem_of_nil]]|].
      split; [|done]. exists r. set_solver.
    - unfold l. split; intros (r & Hr); exists r; rewrite elem_of_filter, andb_true_iff in *; tauto. }
  case_bool_decide as Ed; simpl; [|naive_solver]. subst d. rewrite <- Hl.
  destruct (complete space row); simpl; [|naive_solver].
  split; [by destruct l; naive_solver|]. intros c. destruct l as [|r l']; [done|].
  intros [= <-]. simpl. f_equal. rewrite map_map. done.
Qed.

(** *** Plateaus *)

Lemma filter_andb {A} (p q : A -> bool) l :
  List.filter q (List.filter p l) = List.filter (fun x => p x && q x) l.
Proof. induction l as [|x l IH]; simpl; [done|]. destruct (p x); simpl; [destruct (q x)|]; congruence. Qed.

Lemma take_last_3 {A} (l : list A) :
  (3 <= length l)%nat <-> exists pre a b c, l = pre ++ [a; b; c] /\ take_last 3 l = [a; b; c].
Proof.
  split.
  - intros H. unfold take_last.
    assert (Hlen : length (skipn (length l - 3) l) = 3%nat) by (rewrite length_skipn; lia).
    destruct (skipn (length l - 3) l) as [|a [|b [|c [|]]]] eqn:E; try done.
    exists (firstn (length l - 3) l), a, b, c. split; [|done]. by rewrite <- E, firstn_skipn.
  - intros (pre & a & b & c & -> & _). rewrite length_app. simpl. lia.
Qed.

Lemma take_last_app3 {A} pre (a b c : A) : take_last 3 (pre ++ [a; b; c]) = [a; b; c].
Proof.
  unfold take_last. rewrite length_app. simpl.
  replace (length pre + 3 - 3)%nat with (length pre) by lia. apply drop_app_length.
Qed.

(** The window exists exactly when the newest fresh reading ends three of its unit. *)
Lemma plateau_window_spec records tail :
  plateau_window records = Some tail <->
  exists newest pre a b c,
    last (List.filter fresh_reading records) = Some newest /\ tail = [a; b; c] /\
    List.filter (fun r => fresh_reading r && bool_decide (perf_unit r = perf_unit newest)) records
    = pre ++ [a; b; c].
Proof.
  unfold plateau_window, last_opt. change PLATEAU_MIN_STREAK with 3%nat.
  set (fresh := List.filter fresh_reading records).
  assert (Hf : forall newest, List.filter (fun r => bool_decide (perf_unit r = perf_unit newest)) fresh
    = List.filter (fun r => fresh_reading r && bool_decide (perf_unit r = perf_unit newest)) records).
  { intros newest. apply filter_andb. }
  assert (Hle : forall newest, (length (List.filter (fun r => bool_decide (perf_unit r = perf_unit newest)) fresh)
    <= length fresh)%nat) by (intros; apply filter_length_le).
  destruct (last fresh) as [newest|] eqn:El.
  2:{ split; [by destruct (_ <? _)%nat|naive_solver]. }
  specialize (Hf newest). specialize (Hle newest).
  set (same := List.filter _ fresh) in *. transitivity ((3 <= length same)%nat /\ take_last 3 same = tail).
  - destruct (length fresh <? 3)%nat eqn:E1; [apply Nat.ltb_lt in E1; split; [done|lia]|].
    destruct (length same <? 3)%nat eqn:E2; [apply Nat.ltb_lt in E2; split; [done|lia]|].
    apply Nat.ltb_ge in E2. naive_solver.
  - rewrite take_last_3. split.
    + intros [(pre & a & b & c & Hs & Ht) <-]. exists newest, pre, a, b, c. rewrite <- Hf. done.
    + intros (n & pre & a & b & c & [= <-] & -> & Hs). rewrite <- Hf in Hs. rewrite Hs, take_last_app3.
      split; [|done]. exists pre, a, b, c. done.
Qed.

(** The plateau warning, exactly: it is raised when the three newest fresh readings in the
    unit of the newest one, all taken by the framework in passed official rounds, have a
    positive maximum and a spread below the threshold; nothing else in the records matters. *)
Theorem plateau_exact (records : list RoundRecord) :
  detect_plateau records <> None <->
  exists newest pre a b c pa pb pc,
    last (List.filter fresh_reading records) = Some newest /\
    List.filter (fun r => fresh_reading r && bool_decide (perf_unit r = perf_unit newest)) records
    = pre ++ [a; b; c] /\
    perf_metric a = Some pa /\ perf_metric b = Some pb /\ perf_metric c = Some pc /\
    f_le (f_max pa [pb; pc]) f_zero = false /\
    f_ge (spread_pct (f_min pa [pb; pc]) (f_max pa [pb; pc])) PLATEAU_THRESHOLD_PCT = false.
Proof.
  unfold detect_plateau. destruct (plateau_window records) as [tail|] eqn:E.
  - apply plateau_window_spec in E as (newest & pre & a & b & c & Hn & -> & Hs).
    assert (Hfresh : forall r, r ∈ [a; b; c] -> exists v, perf_metric r = Some v).
    { intros r Hr. assert (Hin : r ∈ pre ++ [a; b; c]) by set_solver. rewrite <- Hs in Hin.
      apply elem_of_filter in Hin as [_ [Hr' _]%andb_true_iff]. unfold fresh_reading in Hr'.
      rewrite !andb_true_iff in Hr'. destruct (perf_metric r); [eauto|naive_solver]. }
    destruct (Hfresh a) as [pa Ha], (Hfresh b) as [pb Hb], (Hfresh c) as [pc Hc]; [set_solver..|].
    assert (Ho : omap perf_metric [a; b; c] = [pa; pb; pc]) by (simpl; by rewrite Ha, Hb, Hc).
    rewrite Ho. clear Ho. split.
    + intros H. exists newest, pre, a, b, c, pa, pb, pc.
      destruct (f_le _ _); [done|]. destruct (f_ge _ _); [done|]. by split_and!.
    + intros (n & pre' & a' & b' & c' & ? & ? & ? & Hn' & Hs' & Ha' & Hb' & Hc' & H1 & H2).
      assert (n = newest) by congruence. subst n. rewrite Hs in Hs'.
      assert (Ht : take_last 3 (pre ++ [a; b; c]) = take_last 3 (pre' ++ [a'; b'; c'])) by by rewrite Hs'.
      rewrite !take_last_app3 in Ht. injection Ht as <- <- <-.
      rewrite Ha in Ha'. rewrite Hb in Hb'. rewrite Hc in Hc'. injection Ha' as <-. injection Hb' as <-. injection Hc' as <-.
      rewrite H1, H2. done.
  - split; [done|]. intros (n & pre & a & b & c & _ & _ & _ & Hn & Hs & _).
    assert (Hw : plateau_window records = Some [a; b; c]).
    { apply plateau_window_spec. exists n, pre, a, b, c. done. }
    congruence.
Qed.

(** *** Provisional candidates and terminal workspaces *)

(** The provisional count is the number of accepted candidates in the suffix after the latest
    official round, whatever happened before it. *)
Theorem provisional_count (older newer : list RoundRecord) :
  (older = [] \/ exists r, last older = Some r /\ official_evaluation r = true) ->
  (forall r, r ∈ newer -> official_evaluation r = false) ->
  provisional_candidates_since_official (older ++ newer)
  = length (List.filter provisional_candidate newer).
Proof.
  intros Hold Hnew. unfold provisional_candidates_since_official. rewrite rev_app_distr.
  assert (Hstop : forall n, provisional_loop (rev older) n = n).
  { intros n. destruct Hold as [->|(r & Hr & Ho)]; [done|].
    apply last_Some in Hr as [l ->]. rewrite rev_app_distr. simpl. by rewrite Ho. }
  assert (Hloop : forall n, provisional_loop (rev newer ++ rev older) n
    = (n + length (List.filter provisional_candidate newer))%nat); [|by apply Hloop].
  induction newer as [|r newer IH] using rev_ind; intros n; simpl.
  - rewrite Hstop. lia.
  - rewrite rev_app_distr, List.filter_app, length_app. simpl.
    rewrite (Hnew r) by set_solver. rewrite IH by set_solver.
    destruct (provisional_candidate r); simpl; lia.
Qed.

Lemma campaign_loop_spec id older campaign acc :
  match last older with Some r => r_hypothesis_id r <> id | None => True end ->
  (forall r, r ∈ campaign -> r_hypothesis_id r = id) ->
  campaign_loop id (rev (older ++ campaign)) acc = campaign ++ acc.
Proof.
  intros Hold. revert acc. induction campaign as [|r c IH] using rev_ind; intros acc Hc.
  - rewrite app_nil_r. destruct older as [|x older _] using rev_ind; [done|].
    rewrite last_snoc in Hold. rewrite rev_app_distr. simpl. by rewrite bool_decide_false.
  - rewrite app_assoc, rev_app_distr. simpl. rewrite bool_decide_true by (apply Hc; set_solver).
    rewrite IH by set_solver. by rewrite <- app_assoc.
Qed.

(** When the last campaign ended without keeping a checkpoint, the notice names its parent:
    the first parent its rounds recorded, otherwise the round before the campaign's first; and
    the checkpoint it mentions is the latest committed nonterminal round of the whole history,
    left out when it is the parent itself. *)
Theorem terminal_notice_edits (older campaign : list RoundRecord) (latest first : RoundRecord)
  (outcome : pystr) :
  (forall r, r ∈ campaign -> r_hypothesis_id r = r_hypothesis_id latest) ->
  match last older with Some r => r_hypothesis_id r <> r_hypothesis_id latest | None => True end ->
  head (campaign ++ [latest]) = Some first ->
  hypothesis_outcome latest = Some outcome -> outcome ∈ terminal_outcomes ->
  candidate_retained latest <> Some true ->
  exists parent checkpoint,
    terminal_workspace_notice (older ++ campaign ++ [latest])
    = Some (TerminalWorkspaceEdits (r_hypothesis_id latest) outcome (round_number latest)
              parent checkpoint) /\
    parent = match find (fun r => is_some (hypothesis_parent_round r)) (campaign ++ [latest]) with
             | Some r => hypothesis_parent_round r
             | None => if 1 <? round_number first then Some (round_number first - 1) else None
             end /\
    (forall c, checkpoint = Some c ->
       Some (wc_round_number c) <> parent /\
       exists r, latest_such nonterminal_checkpoint (older ++ campaign) r /\
         c = mk_WorkspaceCheckpoint (round_number r) (hypothesis_outcome r) (reviewed r)).
Proof.
  intros Hc Hold Hfirst Ho Hout Hret. unfold terminal_workspace_notice, last_opt.
  rewrite app_assoc, last_snoc, Ho, bool_decide_true by done. simpl.
  unfold record_candidate_retained. rewrite bool_decide_false by done.
  rewrite removelast_last, campaign_loop_spec by done.
  set (parent := campaign_parent_round latest (campaign ++ [latest])).
  eexists parent, _. split_and!; [done| |].
  - unfold parent, campaign_parent_round. destruct (find _ _); [done|].
    destruct (campaign ++ [latest]) as [|x l]; [done|]. by injection Hfirst as ->.
  - intros c. destruct (find nonterminal_checkpoint (rev (older ++ campaign))) as [r|] eqn:E; [|done].
    case_bool_decide as Hp; [done|]. intros [= <-]. simpl. split; [done|].
    exists r. split; [|done]. by apply find_last_Some.
Qed.

(** ** Concrete records *)

Definition official_round (n : Z) (row : gmap pystr float) : RoundRecord :=
  (new_round n (Some (py "c1")) (Some (f_of_Z 1)) (Some (py "throughput")) true)
    <| judge_verdict := Some v_pass |> <| official_evaluation := true |>
    <| perf_provenance := Some framework |> <| candidate_retained := Some true |>
    <| r_metrics := row |>.

(** A positive tolerance can lose the winner: two retained official records that dominate each
    other leave an empty frontier, and no final candidate is selected although both are
    trusted. *)
Lemma final_candidate_can_be_lost :
  exists (space : MetricSpace) (a b : RoundRecord),
    space_valid space = true /\ round_number a <> round_number b /\
    trusted_final space a = true /\ trusted_final space b = true /\
    select_final_candidate [a; b] space = None.
Proof.
  exists (two_axes (f_div (f_of_Z 1) (f_of_Z 10))),
    (official_round 1 (row_of (f_div (f_of_Z 221) (f_of_Z 2)) (f_of_Z 100))),
    (official_round 2 (row_of (f_of_Z 100) (f_div (f_of_Z 221) (f_of_Z 2)))).
  split_and!; [vm_compute; reflexivity|done|vm_compute; reflexivity..].
Qed.

Definition two_finals : list RoundRecord :=
  [official_round 1 (row_of (f_of_Z 1) (f_of_Z 2)); official_round 2 (row_of (f_of_Z 3) (f_of_Z 1))].

Lemma final_candidate_optimal_witness :
  match select_final_candidate two_finals (two_axes f_zero) with
  | Some r => round_number r = 2 /\ trusted_final (two_axes f_zero) r = true
  | None => False
  end.
Proof.
  pose proof (final_candidate_optimal (two_axes f_zero) (mk_Objective (py "throughput") Max) two_finals
    eq_refl eq_refl eq_refl) as H.
  assert (Hnd : NoDup (map round_number two_finals)) by (apply nodupb_spec; reflexivity).
  assert (Hs : forall r, r ∈ two_finals -> trusted_final (two_axes f_zero) r = true ->
    sound_row (two_axes f_zero) (r_metrics r)).
  { intros r Hr _. apply sound_rowb_spec. revert r Hr.
    apply (forall_of_forallb _ (fun r => sound_rowb (two_axes f_zero) (r_metrics r))); [done|].
    vm_compute. reflexivity. }
  specialize (H Hnd Hs).
  destruct (select_final_candidate two_finals (two_axes f_zero)) as [r|] eqn:E.
  - destruct H as (_ & Ht & _). split; [|exact Ht].
    vm_compute in E. injection E as <-. reflexivity.
  - vm_compute in E. discriminate E.
Defined.

Lemma archive_view_pending_witness :
  (length (av_pending_claims (pareto_archive_view two_finals (two_axes f_zero)))
   <= PENDING_CLAIM_LIMIT)%nat.
Proof. apply (archive_view_pending two_finals (two_axes f_zero)). discriminate. Defined.

Lemma provisional_count_witness :
  provisional_candidates_since_official
    ([official_round 1 ∅] ++ [sample_round <| hypothesis_outcome := Some (py "proven") |>]) = 1%nat.
Proof.
  rewrite provisional_count.
  - vm_compute. reflexivity.
  - right. exists (official_round 1 ∅). split; reflexivity.
  - intros r Hr. apply list_elem_of_singleton in Hr. subst r. reflexivity.
Defined.

Definition blocked_round : RoundRecord :=
  sample_round <| hypothesis_outcome := Some (py "blocked") |> <| r_hypothesis_id := Some (py "h") |>.

Lemma terminal_notice_edits_witness :
  exists parent checkpoint,
    terminal_workspace_notice [blocked_round]
    = Some (TerminalWorkspaceEdits (Some (py "h")) (py "blocked") 3 parent checkpoint) /\
    parent = Some 2.
Proof.
  destruct (terminal_notice_edits [] [] blocked_round blocked_round (py "blocked"))
    as (parent & checkpoint & H1 & H2 & _).
  - by intros r Hr%not_elem_of_nil.
  - exact I.
  - reflexivity.
  - reflexivity.
  - apply (bool_decide_unpack _). vm_compute. exact I.
  - discriminate.
  - exists parent, checkpoint. split; [exact H1|]. rewrite H2. reflexivity.
Defined.
