(* ===== verification/Transitions.v ===== *)
(** Hypothesis-lifecycle transitions (src/vibesys/hypothesis/transitions.py): starting,
    checkpointing, closing and re-treating hypotheses, and rebuilding every summary from the
    round evidence when a run's metric space is adopted. *)
From S2P Require Import Prelude Floats Metrics Plan History State Evidence.

(** ** Assignments

    The models validate an assignment: the assigned field, then the model validator. *)

Definition set_experiment_revision (s : HypothesisState) (n : Z) : result HypothesisState :=
  raise (ValidationError "experiment_revision") when negb (0 <=? n) in
  check_state (s <| experiment_revision := n |>).

Definition set_last_experiment_revision (h : Hypothesis_) (n : Z) : result Hypothesis_ :=
  raise (ValidationError "last_experiment_revision") when negb (0 <=? n) in
  check_hypothesis (h <| last_experiment_revision := n |>).

(** [next(index for index, item in enumerate(...) if item.hypothesis_id == id)]. *)
Definition index_of (hs : list Hypothesis_) (id : pystr) : option nat :=
  find_index (fun item => pystr_eqb (hypothesis_id item) id) hs.

Definition advance_experiment_revision (s : HypothesisState) (ids : list pystr)
  : result HypothesisState :=
  let* s := set_experiment_revision s (experiment_revision s + 1) in
  let* hs := mapM_result (fun h =>
      if bool_decide (hypothesis_id h ∈ ids)
      then set_last_experiment_revision h (experiment_revision s) else Ok h) (hypotheses s) in
  Ok (s <| hypotheses := hs |>).

(** [Hypothesis(...)]. *)
Definition construct_hypothesis (h : Hypothesis_) : result Hypothesis_ :=
  raise (ValidationError "hypothesis fields") when negb (hypothesis_fields h) in
  check_hypothesis h.

(** ** Strategy *)

Definition disposition_strategy (d : HypothesisStrategyDisposition) : HypothesisStrategy :=
  match d with parked => PARKED | abandoned => ABANDONED end.
Definition disposition_text (d : HypothesisStrategyDisposition) : pystr :=
  match d with parked => py "parked" | abandoned => py "abandoned" end.

(** One iteration of the loop over [updates], with the [seen] set. *)
Definition apply_strategy_update (active_id : option pystr)
  (acc : list pystr * list Hypothesis_) (change : HypothesisStrategyUpdate)
  : result (list pystr * list Hypothesis_) :=
  let '(seen, hs) := acc in
  let id := u_hypothesis_id change in
  raise (ValueError "duplicate strategy update for hypothesis {!r}" [AStr id])
    when bool_decide (id ∈ seen) in
  match index_of hs id with
  | None => Err (ValueError "strategy update names unknown hypothesis {!r}" [AStr id])
  | Some i =>
      raise (ValueError "cannot {} active hypothesis {!r}"
               [AStr (disposition_text (u_disposition change)); AStr id])
        when bool_decide (active_id = Some id) in
      match hs !! i with
      | None => Err StopIteration
      | Some item =>
          raise (ValueError "cannot update incomplete hypothesis {!r}" [AStr id])
            when bool_decide (h_rounds item = []) in
          let* item := check_hypothesis
            (item <| strategy := disposition_strategy (u_disposition change) |>) in
          let* item := check_hypothesis
            (item <| strategy_reason := Some (strip (u_reason change)) |>) in
          Ok (id :: seen, <[i := item]> hs)
      end
  end.

Definition apply_strategy_updates (s : HypothesisState) (updates : list HypothesisStrategyUpdate)
  : result HypothesisState :=
  let* acc := foldM_result (apply_strategy_update (active_hypothesis_id s))
                ([], hypotheses s) updates in
  validated_state (s <| hypotheses := snd acc |>).

Definition reopen_parked_hypothesis (s : HypothesisState) (id : pystr) : result HypothesisState :=
  match by_id s id with
  | None => Err (ValueError "cannot reopen unknown hypothesis {!r}" [AStr id])
  | Some item =>
      match strategy item with
      | AVAILABLE => Ok s
      | ABANDONED => Err (ValueError "cannot reopen abandoned hypothesis {!r}" [AStr id])
      | PARKED =>
          let* hs := mapM_result (fun entry =>
              if pystr_eqb (hypothesis_id entry) id then
                let* entry := check_hypothesis (entry <| strategy := AVAILABLE |>) in
                check_hypothesis (entry <| strategy_reason := None |>)
              else Ok entry) (hypotheses s) in
          validated_state (s <| hypotheses := hs |>)
      end
  end.

(** ** Starting and checkpointing *)

Definition start_hypothesis (s : HypothesisState) (p : OrchestratorPlan) (started_round : Z)
  (parent_round : option Z) (parent_commit : option pystr) : result HypothesisState :=
  raise (ValueError "cannot start a hypothesis while another is active" [])
    when bool_decide (active_hypothesis_id s <> None) in
  let identifier := strip (plan_hypothesis_id p) in
  raise (ValueError "hypothesis ID must not be blank" []) when negb (str_truthy identifier) in
  raise (ValueError "hypothesis ID {!r} already exists" [AStr identifier])
    when is_some (by_id s identifier) in
  let* updated := apply_strategy_updates s (plan_hypothesis_updates p) in
  let* h := construct_hypothesis
    (new_hypothesis identifier (p <| plan_hypothesis_id := identifier |>) started_round
       parent_round parent_commit) in
  let* updated := check_state
    (updated <| hypotheses := hypotheses updated ++ [h] |>
             <| active_hypothesis_id := Some identifier |>) in
  let* updated := advance_experiment_revision updated
    (identifier :: map u_hypothesis_id (plan_hypothesis_updates p)) in
  validated_state updated.

Definition update_active_hypothesis (s : HypothesisState) (h : Hypothesis_)
  : result HypothesisState :=
  match active_hypothesis_id s with
  | None => Err (ValueError "cannot update an active hypothesis when none is active" [])
  | Some id =>
      raise (ValueError "updated hypothesis must preserve the active hypothesis ID" [])
        when negb (pystr_eqb (hypothesis_id h) id) in
      match index_of (hypotheses s) id with
      | None => Err StopIteration
      | Some i => validated_state (s <| hypotheses := <[i := h]> (hypotheses s) |>)
      end
  end.

Definition finish_hypothesis (s : HypothesisState) : result HypothesisState :=
  match active_hypothesis_id s with
  | None => Ok s
  | Some id =>
      let* updated := check_state (s <| active_hypothesis_id := None |>) in
      let* updated := advance_experiment_revision updated [id] in
      validated_state updated
  end.

(** ** Round evidence *)

Definition project_round_evidence (h : Hypothesis_) (r : RoundRecord)
  (prior_rounds : list RoundRecord) (space : MetricSpace) : result Hypothesis_ :=
  raise (ValueError "round hypothesis_id must match its owning hypothesis" [])
    when negb (bool_decide (r_hypothesis_id r = Some (hypothesis_id h))) in
  raise (ValueError "round {} already belongs to hypothesis" [AInt (round_number r)])
    when existsb (fun item => round_number item =? round_number r) (h_rounds h) in
  let updated := h <| h_rounds := h_rounds h ++ [r] |> in
  let* declared := declared_outcome_of (hypothesis_declared_outcome r) in
  let* updated := check_hypothesis (updated <| declared_outcome := declared |>) in
  let* review_state := review_of r in
  let* updated := check_hypothesis (updated <| review := review_state |>) in
  let* m := measure r prior_rounds space in
  let comparison := round_comparison r in
  let* updated := check_hypothesis
    (updated <| resolution := resolve_hypothesis_outcome
       (mk_ResolutionEvidence (declared_outcome updated) (passed r)
          (negb (bool_decide (review updated = PENDING))
           && negb (bool_decide (review updated = DEFERRED))) comparison) |>) in
  let* updated :=
    match m with
    | Some _ => check_hypothesis (updated <| measurement := m |>)
    | None => Ok updated
    end in
  let* updated :=
    match candidate_retained r with
    | Some _ => check_hypothesis (updated <| h_candidate_retained := candidate_retained r |>)
    | None => Ok updated
    end in
  validate_hypothesis updated.

Definition append_round (s : HypothesisState) (r : RoundRecord) (keep_active : bool)
  : result HypothesisState :=
  match active_hypothesis s with
  | None => Err (ValueError "cannot append a round when no hypothesis is active" [])
  | Some active =>
      raise (ValueError "round hypothesis_id must match the active hypothesis" [])
        when negb (bool_decide (r_hypothesis_id r = Some (hypothesis_id active))) in
      raise (ValueError "round {} already exists" [AInt (round_number r)])
        when existsb (fun item => round_number item =? round_number r) (rounds s) in
      let* projected := project_round_evidence active r (rounds s) (metrics s) in
      match index_of (hypotheses s) (hypothesis_id projected) with
      | None => Err StopIteration
      | Some i =>
          let updated := s <| hypotheses := <[i := projected]> (hypotheses s) |> in
          let* updated :=
            if keep_active then Ok updated
            else check_state (updated <| active_hypothesis_id := None |>) in
          let* updated := advance_experiment_revision updated [hypothesis_id projected] in
          validated_state updated
      end
  end.

(** A hypothesis stripped of everything its rounds decide. *)
Definition blank (h : Hypothesis_) : Hypothesis_ :=
  h <| h_rounds := [] |> <| declared_outcome := None |> <| review := PENDING |>
    <| resolution := None |> <| measurement := None |> <| h_candidate_retained := None |>.

Definition reproject_step (space : MetricSpace) (acc : list Hypothesis_ * list RoundRecord)
  (r : RoundRecord) : result (list Hypothesis_ * list RoundRecord) :=
  let '(hs, prior_rounds) := acc in
  match find_index (fun h => bool_decide (r_hypothesis_id r = Some (hypothesis_id h))) hs with
  | None => Err (ValueError "round {} names unknown hypothesis {!r}" [AInt (round_number r)])
  | Some i =>
      match hs !! i with
      | None => Err StopIteration
      | Some h =>
          let* h := project_round_evidence h r prior_rounds space in
          Ok (<[i := h]> hs, prior_rounds ++ [r])
      end
  end.

Definition reproject_run_evidence (s : HypothesisState) : result HypothesisState :=
  let* updated := check_state (s <| hypotheses := map blank (hypotheses s) |>) in
  let* acc := foldM_result (reproject_step (metrics s)) (hypotheses updated, []) (rounds s) in
  validated_state (updated <| hypotheses := fst acc |>).

Definition changed_hypotheses (current previous : list Hypothesis_) : list pystr :=
  flat_map (fun '(c, p) => if hypothesis_eqb c p then [] else [hypothesis_id c])
    (combine current previous).

Definition adopt_metric_space (s : HypothesisState) (space : MetricSpace)
  : result HypothesisState :=
  let* updated := check_state (s <| metrics := space |>) in
  let* reprojected := reproject_run_evidence updated in
  let changed := changed_hypotheses (hypotheses reprojected) (hypotheses s) in
  let* reprojected :=
    match changed with
    | [] => Ok reprojected
    | _ => advance_experiment_revision reprojected changed
    end in
  validated_state reprojected.

(** ** The evidence a hypothesis carries

    Everything its rounds decide, and how one more round changes it. *)

Record EvidenceOf := mk_EvidenceOf {
  e_rounds : list RoundRecord;
  e_declared : option HypothesisOutcome;
  e_review : HypothesisReview;
  e_resolution : option HypothesisResolution;
  e_measurement : option HypothesisMeasurement;
  e_retained : option bool
}.

Definition evidence_of (h : Hypothesis_) : EvidenceOf :=
  mk_EvidenceOf (h_rounds h) (declared_outcome h) (review h) (resolution h) (measurement h)
    (h_candidate_retained h).

Definition with_evidence (h : Hypothesis_) (e : EvidenceOf) : Hypothesis_ :=
  h <| h_rounds := e_rounds e |> <| declared_outcome := e_declared e |> <| review := e_review e |>
    <| resolution := e_resolution e |> <| measurement := e_measurement e |>
    <| h_candidate_retained := e_retained e |>.

Definition no_evidence : EvidenceOf := mk_EvidenceOf [] None PENDING None None None.

Definition declared_of (r : RoundRecord) : option HypothesisOutcome :=
  match hypothesis_declared_outcome r with Some v => outcome_of v | None => None end.
Definition reviewed_state (r : RoundRecord) : HypothesisReview :=
  match judge_verdict r with Some v => review_member v | None => PENDING end.
Definition measured (r : RoundRecord) (prior : list RoundRecord) (space : MetricSpace)
  : option HypothesisMeasurement :=
  match measure r prior space with Ok m => m | Err _ => None end.

Definition project_evidence (space : MetricSpace) (prior : list RoundRecord) (e : EvidenceOf)
  (r : RoundRecord) : EvidenceOf :=
  mk_EvidenceOf (e_rounds e ++ [r]) (declared_of r) (reviewed_state r)
    (resolve_hypothesis_outcome
       (mk_ResolutionEvidence (declared_of r) (passed r) (reviewed r) (round_comparison r)))
    (match measured r prior space with Some m => Some m | None => e_measurement e end)
    (match candidate_retained r with Some b => Some b | None => e_retained e end).

(** A record [id] may own: normalized, under its contract, with a constructible measurement. *)
Definition measurable (r : RoundRecord) : bool := is_ok (measure r [] empty_space).
Definition owned_round (id : pystr) (r : RoundRecord) : Prop :=
  r_hypothesis_id r = Some id /\ review_normal r /\ is_ok (validate_round_contract r) = true /\
  measurable r = true.

(** ** Lemmas: projecting one round *)

Lemma with_evidence_of h : with_evidence h (evidence_of h) = h.
Proof. by destruct h. Qed.
Lemma evidence_of_with h e : evidence_of (with_evidence h e) = e.
Proof. by destruct e. Qed.
Lemma with_evidence_twice h e e' : with_evidence (with_evidence h e) e' = with_evidence h e'.
Proof. done. Qed.
Lemma with_evidence_id h e : hypothesis_id (with_evidence h e) = hypothesis_id h.
Proof. done. Qed.
Lemma blank_eq h : blank h = with_evidence h no_evidence.
Proof. done. Qed.

Lemma measure_eq r prior space :
  measurable r = true -> measure r prior space = Ok (measured r prior space).
Proof.
  unfold measurable, measured, measure.
  destruct (perf_metric r), (perf_unit r); try done. destruct (_ && _); [|done].
  unfold measurement_fields. simpl. by destruct (negb _).
Qed.

Lemma measured_fields r prior space m :
  measured r prior space = Some m -> measurement_fields m = true.
Proof.
  unfold measured, measure. destruct (perf_metric r), (perf_unit r); try done.
  destruct (_ && _); [|done]. destruct (negb _) eqn:E; [done|]. intros [= <-].
  by apply negb_false_iff.
Qed.

Lemma contract_judge r :
  is_ok (validate_round_contract r) = true -> exists v, judge_verdict r = Some v.
Proof. unfold validate_round_contract. destruct (judge_verdict r); [eauto|done]. Qed.

Lemma contract_declared r :
  is_ok (validate_round_contract r) = true ->
  declared_outcome_of (hypothesis_declared_outcome r) = Ok (declared_of r).
Proof.
  unfold validate_round_contract, declared_of, declared_outcome_of.
  destruct (judge_verdict r); [|done]. simpl.
  destruct (hypothesis_declared_outcome r) as [v|]; [|done]. by destruct (outcome_of v).
Qed.

Lemma reviewed_as_state r :
  is_ok (validate_round_contract r) = true ->
  negb (bool_decide (reviewed_state r = PENDING)) && negb (bool_decide (reviewed_state r = DEFERRED))
  = reviewed r.
Proof.
  intros [v Hv]%contract_judge. unfold reviewed_state, reviewed. rewrite Hv. by destruct v.
Qed.

Lemma identity_snoc h r :
  hypothesis_identity (h <| h_rounds := h_rounds h ++ [r] |>) = true <->
  hypothesis_identity h = true /\ (forall x, x ∈ h_rounds h -> round_number x < round_number r) /\
  r_hypothesis_id r = Some (hypothesis_id h) /\ is_ok (validate_round_contract r) = true.
Proof.
  unfold hypothesis_identity. simpl.
  rewrite map_app, !forallb_app, !andb_true_iff. simpl.
  rewrite strictly_increasing_snoc, !andb_true_iff, bool_decide_eq_true.
  assert (H : (forall y, y ∈ map round_number (h_rounds h) -> y < round_number r) <->
              (forall x, x ∈ h_rounds h -> round_number x < round_number r)).
  { split; [intros H x Hx; by apply H, elem_of_map_1|].
    intros H y (x & -> & Hx)%elem_of_map. by apply H. }
  rewrite H. tauto.
Qed.

Lemma check_ok h : hypothesis_identity h = true -> check_hypothesis h = Ok h.
Proof. intros H. by apply check_hypothesis_Ok. Qed.

Lemma evidence_fields h e :
  hypothesis_fields h = true -> opt_all measurement_fields (e_measurement e) = true ->
  hypothesis_fields (with_evidence h e) = true.
Proof. unfold hypothesis_fields. simpl. rewrite !andb_true_iff. tauto. Qed.

Lemma fields_measurement h :
  hypothesis_fields h = true -> opt_all measurement_fields (measurement h) = true.
Proof. unfold hypothesis_fields. rewrite !andb_true_iff. tauto. Qed.

Lemma project_evidence_ok h r prior space :
  hypothesis_ok h -> owned_round (hypothesis_id h) r ->
  (forall x, x ∈ h_rounds h -> round_number x < round_number r) ->
  hypothesis_ok (with_evidence h (project_evidence space prior (evidence_of h) r)).
Proof.
  rewrite !hypothesis_ok_spec. intros (Hp & Hf & Hn & Hi) (Hid & Hr & Hc & Hm) Hlt.
  split_and!.
  - done.
  - apply evidence_fields; [done|]. simpl.
    destruct (measured r prior space) eqn:E; [by eapply measured_fields|by apply fields_measurement].
  - apply Forall_app. split; [done|]. by constructor.
  - by apply identity_snoc.
Qed.

(** The functional description of a projection. *)
Lemma project_eq h r prior space :
  hypothesis_ok h -> owned_round (hypothesis_id h) r ->
  (forall x, x ∈ h_rounds h -> round_number x < round_number r) ->
  project_round_evidence h r prior space
  = Ok (with_evidence h (project_evidence space prior (evidence_of h) r)).
Proof.
  intros Hh Ho Hlt. pose proof (project_evidence_ok h r prior space Hh Ho Hlt) as Hok.
  apply hypothesis_ok_spec in Hh as (_ & _ & _ & Hi). destruct Ho as (Hid & _ & Hc & Hm).
  assert (Hi' : hypothesis_identity (h <| h_rounds := h_rounds h ++ [r] |>) = true)
    by by apply identity_snoc.
  unfold project_round_evidence. rewrite bool_decide_true by done. simpl.
  assert (Hex : existsb (fun item => round_number item =? round_number r) (h_rounds h) = false).
  { apply not_true_iff_false. rewrite existsb_exists. intros (x & Hx & E).
    apply list_elem_of_In, Hlt in Hx. lia. }
  destruct (contract_judge r Hc) as [v Hv].
  rewrite Hex, contract_declared by done. simpl. rewrite check_ok by exact Hi'. simpl.
  unfold review_of. rewrite Hv. simpl. rewrite check_ok by exact Hi'. simpl.
  rewrite measure_eq by done. simpl. rewrite check_ok by exact Hi'. simpl.
  assert (Hs : review_member v = reviewed_state r) by (unfold reviewed_state; by rewrite Hv).
  rewrite Hs, reviewed_as_state by done. unfold hypothesis_ok, project_evidence, with_evidence in *.
  simpl in *.
  destruct (measured r prior space), (candidate_retained r); simpl;
    repeat (rewrite check_ok by exact Hi'; simpl); exact Hok.
Qed.

(** ** Lemmas: replaying the rounds of a run *)

(** What the rounds [rs], read after [prior], make of the evidence of hypothesis [id]. *)
Fixpoint replay (space : MetricSpace) (prior : list RoundRecord) (rs : list RoundRecord)
  (id : pystr) (e : EvidenceOf) : EvidenceOf :=
  match rs with
  | [] => e
  | r :: rs' =>
      replay space (prior ++ [r]) rs' id
        (if bool_decide (r_hypothesis_id r = Some id) then project_evidence space prior e r else e)
  end.

Lemma replay_snoc space prior rs r id e :
  replay space prior (rs ++ [r]) id e =
  (if bool_decide (r_hypothesis_id r = Some id)
   then project_evidence space (prior ++ rs) (replay space prior rs id e) r
   else replay space prior rs id e).
Proof.
  revert prior e. induction rs as [|x rs IH]; intros prior e; simpl.
  - by rewrite app_nil_r.
  - by rewrite IH, <- app_assoc.
Qed.

Definition owned_by (id : pystr) (r : RoundRecord) : bool :=
  bool_decide (r_hypothesis_id r = Some id).

Lemma replay_rounds space prior rs id e :
  e_rounds (replay space prior rs id e) = e_rounds e ++ List.filter (owned_by id) rs.
Proof.
  revert prior e. induction rs as [|x rs IH]; intros prior e; simpl; [by rewrite app_nil_r|].
  unfold owned_by at 1. rewrite IH. destruct (bool_decide _); [|done]. simpl. by rewrite <- app_assoc.
Qed.

(** Updating the one hypothesis of an id, as a map over all of them. *)
Lemma insert_by_id (g : Hypothesis_ -> Hypothesis_) (hs : list Hypothesis_) i h :
  NoDup (map hypothesis_id hs) -> hs !! i = Some h ->
  <[i := g h]> hs
  = map (fun x => if pystr_eqb (hypothesis_id x) (hypothesis_id h) then g x else x) hs.
Proof.
  revert i. induction hs as [|x hs IH]; intros i; simpl; [done|].
  intros [Hx Hnd]%NoDup_cons. destruct i as [|i]; simpl.
  - intros [= ->]. rewrite pystr_eqb_refl. f_equal. symmetry. rewrite <- (map_id hs) at 2.
    apply map_ext_in. intros y Hy%list_elem_of_In. unfold pystr_eqb.
    rewrite bool_decide_false; [done|]. intros E. apply Hx. rewrite <- E. by apply elem_of_map_1.
  - intros Hi. rewrite IH by done. unfold pystr_eqb at 2. rewrite bool_decide_false; [done|].
    intros E. apply Hx. rewrite E. apply elem_of_map_1. by eapply list_elem_of_lookup_2.
Qed.

Lemma index_of_Some hs id i : index_of hs id = Some i -> exists h, hs !! i = Some h /\ hypothesis_id h = id.
Proof.
  unfold index_of. rewrite find_index_Some. intros [(h & Hh & E%pystr_eqb_true) _]. eauto.
Qed.

Lemma index_of_elem hs h : h ∈ hs -> exists i, index_of hs (hypothesis_id h) = Some i.
Proof.
  intros Hh. destruct (index_of hs (hypothesis_id h)) eqn:E; [eauto|].
  unfold index_of in E. rewrite find_index_None in E. specialize (E h Hh).
  by rewrite pystr_eqb_refl in E.
Qed.

(** A round record finds its hypothesis by the same test as [index_of]. *)
Lemma find_owner hs r id :
  r_hypothesis_id r = Some id ->
  find_index (fun h => bool_decide (r_hypothesis_id r = Some (hypothesis_id h))) hs = index_of hs id.
Proof.
  intros Hr. unfold index_of. induction hs as [|h hs IH]; simpl; [done|]. rewrite IH.
  replace (bool_decide _) with (pystr_eqb (hypothesis_id h) id); [done|].
  unfold pystr_eqb. rewrite Hr. apply bool_decide_ext. naive_solver.
Qed.

Definition replayed (space : MetricSpace) (prior rs : list RoundRecord) (h : Hypothesis_)
  : Hypothesis_ :=
  with_evidence h (replay space prior rs (hypothesis_id h) (evidence_of h)).

Lemma replayed_cons space prior r rs h :
  replayed space prior (r :: rs) h =
  replayed space (prior ++ [r]) rs
    (if owned_by (hypothesis_id h) r then with_evidence h (project_evidence space prior (evidence_of h) r)
     else h).
Proof.
  unfold replayed, owned_by. simpl. destruct (bool_decide _); [|done].
  rewrite evidence_of_with. by rewrite with_evidence_twice.
Qed.

(** One more round, on the hypothesis it names. *)
Definition absorb (space : MetricSpace) (prior : list RoundRecord) (r : RoundRecord)
  (h : Hypothesis_) : Hypothesis_ :=
  if owned_by (hypothesis_id h) r
  then with_evidence h (project_evidence space prior (evidence_of h) r) else h.

Lemma absorb_id space prior r h : hypothesis_id (absorb space prior r h) = hypothesis_id h.
Proof. unfold absorb. by destruct (owned_by _ _). Qed.

Lemma map_absorb_ids space prior r hs :
  map hypothesis_id (map (absorb space prior r) hs) = map hypothesis_id hs.
Proof. rewrite map_map. apply map_ext. intros h. apply absorb_id. Qed.

(** The precondition of the loop: distinct valid hypotheses, none ahead of the coming rounds. *)
Record loop_ready (rs : list RoundRecord) (hs : list Hypothesis_) : Prop := {
  ready_nodup : NoDup (map hypothesis_id hs);
  ready_ok : Forall hypothesis_ok hs;
  ready_sorted : StronglySorted Z.lt (map round_number rs);
  ready_ahead : forall h x r, h ∈ hs -> x ∈ h_rounds h -> r ∈ rs -> round_number x < round_number r;
  ready_owned : forall r, r ∈ rs -> exists h, h ∈ hs /\ owned_round (hypothesis_id h) r
}.

Lemma ready_owner rs hs r h :
  loop_ready rs hs -> h ∈ hs -> owned_by (hypothesis_id h) r = true ->
  forall x, x ∈ hs -> owned_by (hypothesis_id x) r = true -> x = h.
Proof.
  intros Hl Hh E x Hx E'. unfold owned_by in *. apply bool_decide_eq_true in E, E'.
  eapply (NoDup_map_inj hypothesis_id hs); [apply (ready_nodup _ _ Hl)|done|done|congruence].
Qed.

Lemma reproject_step_eq space prior r rs hs :
  loop_ready (r :: rs) hs ->
  reproject_step space (hs, prior) r = Ok (map (absorb space prior r) hs, prior ++ [r]).
Proof.
  intros Hl. destruct (ready_owned _ _ Hl r) as (h & Hh & Ho); [set_solver|].
  pose proof Ho as (Hid & _). unfold reproject_step. rewrite (find_owner hs r _ Hid).
  destruct (index_of_elem hs h Hh) as [i Hi]. rewrite Hi.
  destruct (index_of_Some _ _ _ Hi) as (h2 & Hlk & E).
  assert (h2 = h) as ->.
  { eapply (NoDup_map_inj hypothesis_id hs); [apply (ready_nodup _ _ Hl)|by eapply list_elem_of_lookup_2|done|done]. }
  rewrite Hlk, project_eq; [|eapply Forall_forall; [apply (ready_ok _ _ Hl)|done]|done|].
  2:{ intros x Hx. eapply (ready_ahead _ _ Hl); [exact Hh|exact Hx|set_solver]. }
  simpl. do 2 f_equal.
  set (g := fun h => with_evidence h (project_evidence space prior (evidence_of h) r)).
  change (with_evidence h _) with (g h). rewrite insert_by_id by (done || apply (ready_nodup _ _ Hl)).
  apply map_ext. intros x. unfold absorb, owned_by, pystr_eqb. rewrite Hid.
  destruct (decide (hypothesis_id x = hypothesis_id h)) as [E'|E'].
  - rewrite !bool_decide_true by congruence. done.
  - rewrite !bool_decide_false by congruence. done.
Qed.

Lemma ready_step space prior r rs hs :
  loop_ready (r :: rs) hs -> loop_ready rs (map (absorb space prior r) hs).
Proof.
  intros Hl. pose proof (ready_sorted _ _ Hl) as Hs. simpl in Hs.
  apply StronglySorted_inv in Hs as [Hs Hall]. rewrite Forall_forall in Hall.
  split; [rewrite map_absorb_ids; apply (ready_nodup _ _ Hl)| |done| |].
  - rewrite Forall_forall. intros y (x & -> & Hx)%elem_of_map. unfold absorb.
    pose proof (ready_ok _ _ Hl) as Hok. rewrite Forall_forall in Hok.
    destruct (owned_by (hypothesis_id x) r) eqn:E; [|by apply Hok].
    destruct (ready_owned _ _ Hl r) as (h & Hh & Ho); [set_solver|].
    assert (x = h) as ->.
    { eapply ready_owner; [exact Hl|done| |done|done]. apply bool_decide_eq_true. by destruct Ho. }
    apply project_evidence_ok; [by apply Hok|done|].
    intros y Hy. eapply (ready_ahead _ _ Hl); [exact Hh|exact Hy|set_solver].
  - intros x' y r' (x & -> & Hx)%elem_of_map Hy Hr'. unfold absorb in Hy.
    assert (Hahead : forall y, y ∈ h_rounds x -> round_number y < round_number r').
    { intros z Hz. eapply (ready_ahead _ _ Hl); [exact Hx|exact Hz|set_solver]. }
    destruct (owned_by (hypothesis_id x) r); [|by apply Hahead].
    apply elem_of_snoc in Hy as [Hy| ->]; [by apply Hahead|]. by apply Hall, elem_of_map_1.
  - intros r' Hr'. destruct (ready_owned _ _ Hl r') as (x & Hx & Hox); [set_solver|].
    exists (absorb space prior r x). rewrite absorb_id. split; [by apply elem_of_map_1|done].
Qed.

(** The loop of [reproject_run_evidence] computes [replayed] on every hypothesis. *)
Lemma reproject_fold space rs hs prior :
  loop_ready rs hs ->
  foldM_result (reproject_step space) (hs, prior) rs
  = Ok (map (replayed space prior rs) hs, prior ++ rs) /\
  Forall hypothesis_ok (map (replayed space prior rs) hs).
Proof.
  revert hs prior. induction rs as [|r rs IH]; intros hs prior Hl.
  - assert (E : map (replayed space prior []) hs = hs).
    { rewrite <- (map_id hs) at 2. apply map_ext. intros h. apply with_evidence_of. }
    rewrite E. simpl. rewrite app_nil_r. split; [done|apply (ready_ok _ _ Hl)].
  - assert (E : map (replayed space prior (r :: rs)) hs
                = map (replayed space (prior ++ [r]) rs) (map (absorb space prior r) hs)).
    { rewrite map_map. apply map_ext. intros h. apply replayed_cons. }
    rewrite E. change (foldM_result (reproject_step space) (hs, prior) (r :: rs))
      with (bind (reproject_step space (hs, prior) r) (fun s' => foldM_result (reproject_step space) s' rs)).
    rewrite (reproject_step_eq _ _ _ _ _ Hl). simpl.
    destruct (IH _ (prior ++ [r]) (ready_step space prior r rs hs Hl)) as [-> ?].
    split; [by rewrite <- app_assoc|done].
Qed.

(** ** Lemmas: the rounds of a valid state *)

Definition earlier (a b : RoundRecord) : Prop := round_number a < round_number b.

Lemma earlier_map l : StronglySorted Z.lt (map round_number l) <-> StronglySorted earlier l.
Proof.
  induction l as [|x l IH]; simpl; [split; constructor|]. split; intros [H1 H2]%StronglySorted_inv;
    (constructor; [by apply IH|]); rewrite Forall_forall in H2; rewrite Forall_forall.
  - intros y Hy. by apply H2, elem_of_map_1.
  - intros y (z & -> & Hz)%elem_of_map. by apply H2.
Qed.

Lemma earlier_perm_eq l1 l2 :
  StronglySorted earlier l1 -> StronglySorted earlier l2 -> l1 ≡ₚ l2 -> l1 = l2.
Proof.
  intros H1 H2 Hp. apply (StronglySorted_unique_strong earlier); [|done|done|done].
  intros x y _ _ H H'. unfold earlier in *. lia.
Qed.

Lemma NoDup_sorted_earlier l :
  NoDup (map round_number l) -> StronglySorted (fun a b => round_le a b = true) l ->
  StronglySorted earlier l.
Proof.
  intros Hnd Hs. induction Hs as [|x l Hs IH Hall]; [constructor|].
  simpl in Hnd. apply NoDup_cons in Hnd as [Hx Hnd]. constructor; [by apply IH|].
  rewrite Forall_forall in Hall. rewrite Forall_forall. intros y Hy. specialize (Hall y Hy). apply Z.leb_le in Hall.
  unfold earlier. destruct (decide (round_number x = round_number y)) as [E|E]; [|lia].
  exfalso. apply Hx. rewrite E. by apply elem_of_map_1.
Qed.

Lemma filter_sorted (p : RoundRecord -> bool) l : StronglySorted earlier l -> StronglySorted earlier (List.filter p l).
Proof.
  induction 1 as [|x l Hs IH Hall]; simpl; [constructor|]. destruct (p x); [|done].
  constructor; [done|]. rewrite Forall_forall in Hall. rewrite Forall_forall. intros y [Hy _]%elem_of_filter. by apply Hall.
Qed.

Lemma lfilter_perm {A} (p : A -> bool) l l' : l ≡ₚ l' -> List.filter p l ≡ₚ List.filter p l'.
Proof.
  induction 1 as [|x l l' _ IH|x y l|l1 l2 l3 _ IH1 _ IH2]; simpl; [done| | |by etransitivity].
  - by destruct (p x); [constructor|].
  - destruct (p x), (p y); try done. constructor.
Qed.

Lemma state_identity_spec s :
  state_identity s = true <->
  NoDup (map hypothesis_id (hypotheses s)) /\
  match active_hypothesis_id s with
  | None => True
  | Some id => exists h, by_id s id = Some h /\ strategy h = AVAILABLE
  end /\
  NoDup (map round_number (all_rounds s)).
Proof.
  unfold state_identity. rewrite !andb_true_iff, !nodupb_spec.
  destruct (active_hypothesis_id s) as [id|]; [|tauto].
  destruct (by_id s id) as [h|].
  - rewrite bool_decide_eq_true. split; [|naive_solver]. intros [[? ?] ?]. eauto.
  - split; [naive_solver|]. intros (_ & (h & ? & _) & _). done.
Qed.

Section ValidState.
Context (s : HypothesisState) (Hok : state_ok s).

Lemma valid_nodup : NoDup (map hypothesis_id (hypotheses s)).
Proof. apply state_ok_spec in Hok as (_ & _ & H). by apply state_identity_spec in H as (? & _). Qed.

Lemma valid_hypothesis h : h ∈ hypotheses s -> hypothesis_ok h.
Proof. apply state_ok_spec in Hok as (_ & H & _). rewrite Forall_forall in H. apply H. Qed.

Lemma valid_rounds_nodup : NoDup (map round_number (all_rounds s)).
Proof. apply state_ok_spec in Hok as (_ & _ & H). by apply state_identity_spec in H as (_ & _ & ?). Qed.

Lemma rounds_perm : rounds s ≡ₚ all_rounds s.
Proof. apply sort_by_perm. Qed.

Lemma rounds_sorted : StronglySorted earlier (rounds s).
Proof.
  apply NoDup_sorted_earlier.
  - rewrite rounds_perm. apply valid_rounds_nodup.
  - apply sort_by_sorted; [apply round_le_total|apply round_le_trans].
Qed.

Lemma elem_of_rounds r : r ∈ rounds s <-> exists h, h ∈ hypotheses s /\ r ∈ h_rounds h.
Proof.
  rewrite rounds_perm. unfold all_rounds. rewrite list_elem_of_In, in_flat_map.
  by setoid_rewrite <- list_elem_of_In.
Qed.

Lemma valid_round h r :
  h ∈ hypotheses s -> r ∈ h_rounds h ->
  r_hypothesis_id r = Some (hypothesis_id h) /\ review_normal r /\
  is_ok (validate_round_contract r) = true.
Proof.
  intros Hh Hr. apply valid_hypothesis, hypothesis_ok_spec in Hh as (_ & _ & Hn & Hi).
  unfold hypothesis_identity in Hi. rewrite !andb_true_iff, !forallb_forall in Hi.
  destruct Hi as [[_ Hid] Hc]. rewrite Forall_forall in Hn. rewrite list_elem_of_In in Hr.
  specialize (Hid r Hr). apply bool_decide_eq_true in Hid. split_and!; [done| |by apply Hc].
  apply Hn. by apply list_elem_of_In.
Qed.

Lemma valid_rounds_sorted h : h ∈ hypotheses s -> StronglySorted earlier (h_rounds h).
Proof.
  intros Hh. apply valid_hypothesis, hypothesis_ok_spec in Hh as (_ & _ & _ & Hi).
  unfold hypothesis_identity in Hi. rewrite !andb_true_iff in Hi. destruct Hi as [[[_ Hi] _] _].
  by apply earlier_map, strictly_increasing_spec.
Qed.

Lemma owned_all_rounds hs h :
  (forall x, x ∈ hs -> x ∈ hypotheses s) -> NoDup (map hypothesis_id hs) -> h ∈ hs ->
  List.filter (owned_by (hypothesis_id h)) (flat_map h_rounds hs) = h_rounds h.
Proof.
  assert (Hall : forall x id, x ∈ hypotheses s -> List.filter (owned_by id) (h_rounds x)
    = if pystr_eqb (hypothesis_id x) id then h_rounds x else []).
  { intros x id Hx. pose proof (valid_round x) as Hv. revert Hv.
    induction (h_rounds x) as [|r l IH]; simpl; intros Hv; [by destruct (pystr_eqb _ _)|].
    destruct (Hv r Hx) as (Hid & _); [set_solver|]. rewrite IH by (intros; apply Hv; set_solver).
    unfold owned_by at 1, pystr_eqb. rewrite Hid. 
    destruct (decide (hypothesis_id x = id)) as [E|E].
    - by rewrite !bool_decide_true by congruence.
    - by rewrite !bool_decide_false by congruence. }
  induction hs as [|x hs IH]; simpl; intros Hsub Hnd; [by intros ?%not_elem_of_nil|].
  apply NoDup_cons in Hnd as [Hx Hnd]. rewrite List.filter_app, Hall by set_solver.
  unfold pystr_eqb. intros [-> | Hh]%elem_of_cons.
  - rewrite bool_decide_true by done.
    enough (List.filter (owned_by (hypothesis_id x)) (flat_map h_rounds hs) = []) as -> by apply app_nil_r.
    clear IH Hnd. induction hs as [|y hs IH]; simpl; [done|].
    rewrite List.filter_app, Hall by set_solver. unfold pystr_eqb. rewrite bool_decide_false by set_solver.
    apply IH; set_solver.
  - rewrite bool_decide_false.
    + apply IH; [set_solver|done|done].
    + intros E. apply Hx. rewrite E. by apply elem_of_map_1.
Qed.

Lemma owned_rounds h :
  h ∈ hypotheses s -> List.filter (owned_by (hypothesis_id h)) (rounds s) = h_rounds h.
Proof.
  intros Hh. apply earlier_perm_eq; [by apply filter_sorted, rounds_sorted|by apply valid_rounds_sorted|].
  rewrite <- (owned_all_rounds (hypotheses s) h) by (done || apply valid_nodup).
  apply lfilter_perm, rounds_perm.
Qed.
End ValidState.

(** ** Lemmas: maps over the hypotheses of a state *)

Lemma by_id_map s (f : Hypothesis_ -> Hypothesis_) id :
  (forall h, hypothesis_id (f h) = hypothesis_id h) ->
  by_id (s <| hypotheses := map f (hypotheses s) |>) id = option_map f (by_id s id).
Proof.
  intros Hf. unfold by_id. simpl. induction (hypotheses s) as [|h hs IH]; simpl; [done|].
  rewrite Hf. by destruct (pystr_eqb _ _).
Qed.

Lemma state_identity_map s (f : Hypothesis_ -> Hypothesis_) :
  state_identity s = true -> (forall h, hypothesis_id (f h) = hypothesis_id h) ->
  (forall h, strategy (f h) = strategy h) ->
  NoDup (map round_number (flat_map h_rounds (map f (hypotheses s)))) ->
  state_identity (s <| hypotheses := map f (hypotheses s) |>) = true.
Proof.
  rewrite !state_identity_spec. intros (H1 & H2 & _) Hid Hst Hnd. simpl. split_and!; [|  |done].
  - rewrite map_map. by rewrite (map_ext _ hypothesis_id).
  - destruct (active_hypothesis_id s) as [id|]; [|done]. destruct H2 as (h & Hh & Ha).
    exists (f h). split; [|by rewrite Hst].
    transitivity (option_map f (by_id s id)); [by apply by_id_map|by rewrite Hh].
Qed.

Lemma flat_rounds_same (f : Hypothesis_ -> Hypothesis_) hs :
  (forall h, h ∈ hs -> h_rounds (f h) = h_rounds h) ->
  flat_map h_rounds (map f hs) = flat_map h_rounds hs.
Proof.
  induction hs as [|h hs IH]; simpl; intros H; [done|]. rewrite H by set_solver. rewrite IH; [done|].
  set_solver.
Qed.

Lemma check_state_ok s : state_identity s = true -> check_state s = Ok s.
Proof. intros H. by apply check_state_Ok. Qed.

(** [_advance_experiment_revision] on a valid state. *)
Definition touch (ids : list pystr) (n : Z) (h : Hypothesis_) : Hypothesis_ :=
  if bool_decide (hypothesis_id h ∈ ids) then h <| last_experiment_revision := n |> else h.

Definition advanced (s : HypothesisState) (ids : list pystr) : HypothesisState :=
  s <| experiment_revision := experiment_revision s + 1 |>
    <| hypotheses := map (touch ids (experiment_revision s + 1)) (hypotheses s) |>.

Lemma touch_id ids n h : hypothesis_id (touch ids n h) = hypothesis_id h.
Proof. unfold touch. by destruct (bool_decide _). Qed.
Lemma touch_rounds ids n h : h_rounds (touch ids n h) = h_rounds h.
Proof. unfold touch. by destruct (bool_decide _). Qed.
Lemma touch_strategy ids n h : strategy (touch ids n h) = strategy h.
Proof. unfold touch. by destruct (bool_decide _). Qed.
Lemma touch_evidence ids n h : evidence_of (touch ids n h) = evidence_of h.
Proof. unfold touch. by destruct (bool_decide _). Qed.

Lemma touch_ok ids n h : 0 <= n -> hypothesis_ok h -> hypothesis_ok (touch ids n h).
Proof.
  intros Hn. unfold touch. destruct (bool_decide _); [|done].
  rewrite !hypothesis_ok_spec. intros (? & Hf & ? & ?). split_and!; try done.
  apply Z.leb_le in Hn. unfold hypothesis_fields in *. simpl. rewrite !andb_true_iff in *. tauto.
Qed.

Lemma state_revision_nonneg s : state_ok s -> 0 <= experiment_revision s.
Proof.
  rewrite state_ok_spec. intros (Hf & _). unfold state_fields in Hf.
  rewrite !andb_true_iff in Hf. apply Z.leb_le. tauto.
Qed.

Lemma advanced_rounds s ids : all_rounds (advanced s ids) = all_rounds s.
Proof. unfold all_rounds, advanced. simpl. apply flat_rounds_same. intros. apply touch_rounds. Qed.

Lemma advanced_ok s ids : state_ok s -> state_ok (advanced s ids).
Proof.
  intros Hok. pose proof (state_revision_nonneg s Hok) as Hn. pose proof Hok as Hs.
  apply state_ok_spec in Hs as (Hf & Hh & Hi). apply state_ok_spec. split_and!.
  - unfold state_fields in *. rewrite !andb_true_iff in Hf. destruct Hf as [[_ Hm] Hg].
    simpl. rewrite !andb_true_iff. split_and!; [apply Z.leb_le; lia|exact Hm|exact Hg].
  - unfold advanced. simpl. rewrite Forall_forall in *. intros x (h & -> & Hx)%elem_of_map.
    apply touch_ok; [lia|by apply Hh].
  - set (s1 := s <| experiment_revision := experiment_revision s + 1 |>).
    assert (Hi1 : state_identity s1 = true) by exact Hi.
    refine (state_identity_map s1 (touch ids (experiment_revision s + 1)) Hi1 _ _ _).
    + intros; apply touch_id.
    + intros; apply touch_strategy.
    + simpl. rewrite flat_rounds_same by (intros; apply touch_rounds). by apply valid_rounds_nodup.
Qed.

Lemma advance_eq s ids : state_ok s -> advance_experiment_revision s ids = Ok (advanced s ids).
Proof.
  intros Hok. pose proof (state_revision_nonneg s Hok) as Hn.
  pose proof Hok as Hs. apply state_ok_spec in Hs as (_ & Hh & Hi).
  unfold advance_experiment_revision, set_experiment_revision.
  assert (Hle : (0 <=? experiment_revision s + 1) = true) by (apply Z.leb_le; lia).
  rewrite Hle. simpl.
  rewrite check_state_ok by exact Hi. simpl. rewrite (mapM_result_map _ (touch ids (experiment_revision s + 1))); [done|].
  intros h Hin. unfold touch. destruct (bool_decide _); [|done].
  unfold set_last_experiment_revision. rewrite Hle. simpl. apply check_ok.
  rewrite Forall_forall in Hh. apply Hh, hypothesis_ok_spec in Hin as (_ & _ & _ & ?). done.
Qed.

(** ** Lemmas: reprojection *)

(** The hypothesis whose summaries are exactly what [rs] says about it. *)
Definition summarized (space : MetricSpace) (rs : list RoundRecord) (h : Hypothesis_) : Hypothesis_ :=
  with_evidence h (replay space [] rs (hypothesis_id h) no_evidence).

Definition reprojected (s : HypothesisState) : HypothesisState :=
  s <| hypotheses := map (summarized (metrics s) (rounds s)) (hypotheses s) |>.

Definition measurable_state (s : HypothesisState) : Prop :=
  forall r, r ∈ rounds s -> measurable r = true.

(** Every summary of the state is what its own rounds say, in its own metric space. *)
Record settled (s : HypothesisState) : Prop := {
  settled_ok : state_ok s;
  settled_measurable : measurable_state s;
  settled_summaries : forall h, h ∈ hypotheses s -> summarized (metrics s) (rounds s) h = h
}.

Lemma blank_ok h : hypothesis_ok h -> hypothesis_ok (blank h).
Proof.
  rewrite !hypothesis_ok_spec. intros (Hp & Hf & _ & Hi). split_and!; [done| |constructor|].
  - rewrite blank_eq. apply evidence_fields; [exact Hf|reflexivity].
  - unfold hypothesis_identity in *. simpl. rewrite !andb_true_iff in *. tauto.
Qed.

Lemma replayed_blank space rs h : replayed space [] rs (blank h) = summarized space rs h.
Proof. done. Qed.

Lemma owned_valid s h r :
  state_ok s -> measurable_state s -> h ∈ hypotheses s -> r ∈ h_rounds h ->
  owned_round (hypothesis_id h) r.
Proof.
  intros Hok Hm Hh Hr. destruct (valid_round s Hok h r Hh Hr) as (? & ? & ?). split_and!; try done.
  apply Hm. apply elem_of_rounds. eauto.
Qed.

Lemma ready_blank s :
  state_ok s -> measurable_state s -> loop_ready (rounds s) (map blank (hypotheses s)).
Proof.
  intros Hok Hm. split.
  - rewrite map_map. by apply valid_nodup.
  - rewrite Forall_forall. intros x (h & -> & Hh)%elem_of_map. by apply blank_ok, (valid_hypothesis s).
  - by apply earlier_map, rounds_sorted.
  - by intros h' x r (h & -> & Hh)%elem_of_map ?%not_elem_of_nil.
  - intros r (h & Hh & Hr)%elem_of_rounds. exists (blank h). split; [by apply elem_of_map_1|].
    exact (owned_valid s h r Hok Hm Hh Hr).
Qed.

Lemma summarized_rounds s h :
  state_ok s -> h ∈ hypotheses s -> h_rounds (summarized (metrics s) (rounds s) h) = h_rounds h.
Proof.
  intros Hok Hh. simpl. rewrite replay_rounds. simpl. by apply owned_rounds.
Qed.

Lemma reprojected_all_rounds s : state_ok s -> all_rounds (reprojected s) = all_rounds s.
Proof. intros Hok. apply flat_rounds_same. intros h Hh. by apply summarized_rounds. Qed.

Lemma reprojected_rounds s : state_ok s -> rounds (reprojected s) = rounds s.
Proof. intros Hok. unfold rounds. by rewrite reprojected_all_rounds. Qed.

Lemma identity_blanked s :
  state_ok s -> state_identity (s <| hypotheses := map blank (hypotheses s) |>) = true.
Proof.
  intros Hok. apply state_identity_map; [by apply state_ok_spec in Hok as (_ & _ & ?)|done|done|].
  enough (flat_map h_rounds (map blank (hypotheses s)) = []) as -> by constructor.
  by induction (hypotheses s).
Qed.

Lemma reprojected_ok s : state_ok s -> measurable_state s -> state_ok (reprojected s).
Proof.
  intros Hok Hm. pose proof (reproject_fold (metrics s) _ _ [] (ready_blank s Hok Hm)) as [_ Hall].
  rewrite map_map in Hall. apply state_ok_spec. pose proof Hok as (Hf & _ & Hi)%state_ok_spec.
  split_and!; [exact Hf|exact Hall|].
  unfold reprojected. apply state_identity_map; [done|done|done|].
  change (NoDup (map round_number (all_rounds (reprojected s)))).
  rewrite reprojected_all_rounds by done. by apply valid_rounds_nodup.
Qed.

Lemma reproject_eq s :
  state_ok s -> measurable_state s -> reproject_run_evidence s = Ok (reprojected s).
Proof.
  intros Hok Hm. pose proof (reproject_fold (metrics s) _ _ [] (ready_blank s Hok Hm)) as [Hfold _].
  unfold reproject_run_evidence.
  rewrite check_state_ok by (by apply identity_blanked). simpl. rewrite Hfold. simpl.
  rewrite map_map. exact (reprojected_ok s Hok Hm).
Qed.

Lemma summarized_idem space rs h : summarized space rs (summarized space rs h) = summarized space rs h.
Proof. unfold summarized. by rewrite with_evidence_twice, with_evidence_id. Qed.

Lemma reprojected_settled s : state_ok s -> measurable_state s -> settled (reprojected s).
Proof.
  intros Hok Hm. split; [by apply reprojected_ok| |].
  - unfold measurable_state. by rewrite reprojected_rounds.
  - intros x Hx. rewrite reprojected_rounds by done. simpl in *.
    apply elem_of_map in Hx as (h & -> & Hh). apply summarized_idem.
Qed.

Lemma settled_reprojected s : settled s -> reprojected s = s.
Proof.
  intros [_ _ Hs]. unfold reprojected.
  assert (E : map (summarized (metrics s) (rounds s)) (hypotheses s) = hypotheses s).
  { rewrite <- (map_id (hypotheses s)) at 2. apply map_ext_in. intros h Hh%list_elem_of_In. by apply Hs. }
  rewrite E. by destruct s.
Qed.

Lemma summarized_touch space rs ids n h :
  summarized space rs (touch ids n h) = touch ids n (summarized space rs h).
Proof. unfold touch. simpl. by destruct (bool_decide _). Qed.

Lemma advanced_settled s ids : settled s -> settled (advanced s ids).
Proof.
  intros [Hok Hm Hs].
  assert (Hr : rounds (advanced s ids) = rounds s) by (unfold rounds; by rewrite advanced_rounds).
  split; [by apply advanced_ok|unfold measurable_state; by rewrite Hr|].
  intros x Hx. rewrite Hr. simpl in *. apply elem_of_map in Hx as (h & -> & Hh).
  by rewrite summarized_touch, Hs.
Qed.

Lemma with_metrics_ok s space :
  state_ok s -> space_valid space = true -> state_ok (s <| metrics := space |>).
Proof.
  rewrite !state_ok_spec. intros (Hf & Hh & Hi) Hv. split_and!; [|done|exact Hi].
  unfold state_fields in *. simpl. rewrite !andb_true_iff in *. tauto.
Qed.

Lemma rounds_with_metrics s space : rounds (s <| metrics := space |>) = rounds s.
Proof. unfold rounds, all_rounds. simpl. done. Qed.

(** The state [adopt_metric_space] reaches. *)
Definition adopted (s : HypothesisState) (space : MetricSpace) : HypothesisState :=
  let r := reprojected (s <| metrics := space |>) in
  match changed_hypotheses (hypotheses r) (hypotheses s) with
  | [] => r
  | changed => advanced r changed
  end.

Lemma adopt_eq s space :
  state_ok s -> measurable_state s -> space_valid space = true ->
  adopt_metric_space s space = Ok (adopted s space) /\ settled (adopted s space) /\
  rounds (adopted s space) = rounds s.
Proof.
  intros Hok Hm Hv. pose proof (with_metrics_ok s space Hok Hv) as Hok'.
  assert (Hm' : measurable_state (s <| metrics := space |>))
    by (unfold measurable_state; by rewrite rounds_with_metrics).
  pose proof (reprojected_settled _ Hok' Hm') as Hset.
  pose proof (reprojected_rounds _ Hok') as Hr. rewrite rounds_with_metrics in Hr.
  pose proof Hok as (_ & _ & Hi)%state_ok_spec.
  unfold adopt_metric_space. rewrite check_state_ok by exact Hi.
  cbn [bind]. rewrite reproject_eq by done. cbn [bind]. unfold adopted.
  destruct (changed_hypotheses _ _) as [|id ids]; cbn [bind].
  - split; [apply (settled_ok _ Hset)|done].
  - rewrite advance_eq by apply (settled_ok _ Hset). cbn [bind].
    split; [|split; [by apply advanced_settled|]].
    + by apply validated_state_id, advanced_ok, (settled_ok _ Hset).
    + rewrite <- Hr. unfold rounds. by rewrite advanced_rounds.
Qed.

Lemma changed_self hs : changed_hypotheses hs hs = [].
Proof.
  unfold changed_hypotheses. induction hs as [|h hs IH]; [reflexivity|].
  cbn [combine flat_map]. rewrite hypothesis_eqb_refl, IH. reflexivity.
Qed.

Lemma adopted_settled_id s : settled s -> adopted s (metrics s) = s.
Proof.
  intros Hs. unfold adopted. assert (E : s <| metrics := metrics s |> = s) by (by destruct s).
  rewrite E, settled_reprojected by done. by rewrite changed_self.
Qed.

(** ** Lemmas: transitions keep summaries settled *)

(** What [_validated_state] needs to find to return a settled state. *)
Record presettled (s : HypothesisState) : Prop := {
  pre_normal : forall h, h ∈ hypotheses s -> Forall review_normal (h_rounds h);
  pre_measurable : measurable_state s;
  pre_summaries : forall h, h ∈ hypotheses s -> summarized (metrics s) (rounds s) h = h
}.

Lemma settled_pre s : settled s -> presettled s.
Proof.
  intros [Hok Hm Hs]. split; [|done|done].
  intros h Hh. by apply (valid_hypothesis s Hok), hypothesis_ok_spec in Hh as (_ & _ & ? & _).
Qed.

Lemma summarized_plan space rs h p :
  summarized space rs (h <| plan := p |>) = (summarized space rs h) <| plan := p |>.
Proof. done. Qed.

Lemma validate_normal h h' :
  Forall review_normal (h_rounds h) -> validate_hypothesis h = Ok h' ->
  exists p, h' = h <| plan := p |>.
Proof.
  rewrite validate_hypothesis_Ok. intros Hn (p & _ & _ & -> & _). exists p.
  apply map_id_Forall in Hn. rewrite Hn. by destruct h.
Qed.

Lemma validated_replans s s' :
  presettled s -> validated_state s = Ok s' ->
  exists hs, s' = s <| hypotheses := hs |> /\
    Forall2 (fun h h' => h ∈ hypotheses s /\ exists p, h' = h <| plan := p |>) (hypotheses s) hs.
Proof.
  intros Hpre Hv. apply validated_state_Ok in Hv as (_ & hs & Hm & -> & _).
  exists hs. split; [done|]. apply mapM_result_Forall in Hm.
  pose proof (pre_normal s Hpre) as Hn. revert Hm Hn. clear.
  generalize (hypotheses s) as l. intros l H. induction H as [|x y l l' Hxy H IH]; intros Hn; constructor.
  - split; [set_solver|]. eapply validate_normal; [|exact Hxy]. apply Hn. set_solver.
  - eapply Forall2_impl; [apply IH; intros; apply Hn; set_solver|]. set_solver.
Qed.

Lemma validated_rounds s s' : presettled s -> validated_state s = Ok s' -> rounds s' = rounds s.
Proof.
  intros Hpre Hv. destruct (validated_replans s s' Hpre Hv) as (hs & -> & Hrel).
  unfold rounds, all_rounds. f_equal. simpl. clear -Hrel.
  induction Hrel as [|x y l l' [_ [p ->]] _ IH]; simpl; [done|]. by rewrite IH.
Qed.

Lemma validated_presettled s s' : presettled s -> validated_state s = Ok s' -> settled s'.
Proof.
  intros Hpre Hv. pose proof (validated_rounds s s' Hpre Hv) as Hr.
  pose proof (validated_state_valid s s' Hv) as Hok'.
  destruct (validated_replans s s' Hpre Hv) as (hs & -> & Hrel).
  split; [done|unfold measurable_state; rewrite Hr; apply (pre_measurable s Hpre)|].
  rewrite Hr. simpl. intros h' Hh'. apply list_elem_of_lookup_1 in Hh' as [i Hi].
  destruct (Forall2_lookup_r _ _ _ _ _ Hrel Hi) as (h & Hl & Hh & p & ->).
  rewrite summarized_plan. by rewrite (pre_summaries s Hpre h Hh).
Qed.

Lemma validated_from s0 s s' :
  presettled s -> rounds s = rounds s0 -> validated_state s = Ok s' ->
  settled s' /\ rounds s' = rounds s0.
Proof.
  intros Hpre Hr Hv. split; [by eapply validated_presettled|]. by rewrite (validated_rounds s s').
Qed.

(** Hypotheses with the same identity and the same evidence. *)
Definition alike (h h' : Hypothesis_) : Prop :=
  hypothesis_id h' = hypothesis_id h /\ evidence_of h' = evidence_of h.
#[export] Instance alike_preorder : PreOrder alike.
Proof.
  split; [by intros h|]. intros h1 h2 h3 [? ?] [? ?]. split; congruence.
Qed.

Lemma alike_rounds h h' : alike h h' -> h_rounds h' = h_rounds h.
Proof. intros [_ H]. by injection H. Qed.

Lemma alike_flat hs hs' : Forall2 alike hs hs' -> flat_map h_rounds hs' = flat_map h_rounds hs.
Proof. induction 1 as [|h h' l l' H _ IH]; simpl; [done|]. by rewrite (alike_rounds h h' H), IH. Qed.

Lemma alike_insert hs i h h' : hs !! i = Some h -> alike h h' -> Forall2 alike hs (<[i := h']> hs).
Proof.
  revert i. induction hs as [|x hs IH]; intros [|i]; simpl; try done.
  - intros [= ->] H. by constructor.
  - intros Hi H. constructor; [done|]. by eapply IH.
Qed.

Lemma alike_map (f : Hypothesis_ -> Hypothesis_) hs :
  (forall h, h ∈ hs -> alike h (f h)) -> Forall2 alike hs (map f hs).
Proof. induction hs as [|h hs IH]; simpl; intros H; constructor; [apply H|apply IH; intros; apply H]; set_solver. Qed.

Lemma presettled_alike s s' :
  presettled s -> metrics s' = metrics s -> Forall2 alike (hypotheses s) (hypotheses s') ->
  presettled s' /\ rounds s' = rounds s.
Proof.
  intros Hpre Hmet Ha.
  assert (Hr : rounds s' = rounds s).
  { unfold rounds, all_rounds. f_equal. by apply alike_flat. }
  assert (Hinv : forall h', h' ∈ hypotheses s' -> exists h, h ∈ hypotheses s /\ alike h h').
  { intros h' [i Hi]%list_elem_of_lookup_1. destruct (Forall2_lookup_r _ _ _ _ _ Ha Hi) as (h & Hl & Hh).
    exists h. split; [by eapply list_elem_of_lookup_2|done]. }
  split; [|done]. split.
  - intros h' (h & Hh & Hal)%Hinv. rewrite (alike_rounds h h' Hal). by apply (pre_normal s).
  - unfold measurable_state. rewrite Hr. apply (pre_measurable s Hpre).
  - rewrite Hr, Hmet. intros h' (h & Hh & Hid & He)%Hinv.
    unfold summarized. rewrite Hid. pose proof (pre_summaries s Hpre h Hh) as Hs.
    apply (f_equal evidence_of) in Hs. unfold summarized in Hs. rewrite evidence_of_with in Hs.
    rewrite Hs, <- He. apply with_evidence_of.
Qed.

Lemma advance_inv s s' ids :
  advance_experiment_revision s ids = Ok s' -> s' = advanced s ids.
Proof.
  unfold advance_experiment_revision, set_experiment_revision.
  rewrite bind_Ok. intros (s1 & (_ & (_ & ->)%check_state_Ok)%guard_Ok & H).
  apply bind_Ok in H as (hs & H & [= <-]). unfold advanced. simpl in *. f_equal.
  apply mapM_result_Forall in H. induction H as [|h h' l l' Hh _ IH]; [done|]. simpl. f_equal; [|done].
  unfold touch. destruct (bool_decide _); [|congruence].
  unfold set_last_experiment_revision in Hh. by apply guard_Ok in Hh as [_ [_ ->]%check_hypothesis_Ok].
Qed.

Lemma advanced_alike s ids : Forall2 alike (hypotheses s) (hypotheses (advanced s ids)).
Proof. apply alike_map. intros h _. split; [apply touch_id|apply touch_evidence]. Qed.

Lemma advanced_presettled s ids :
  presettled s -> presettled (advanced s ids) /\ rounds (advanced s ids) = rounds s.
Proof. intros Hpre. by apply presettled_alike; [|done|apply advanced_alike]. Qed.

Lemma apply_updates_fold active us acc acc' :
  foldM_result (apply_strategy_update active) acc us = Ok acc' ->
  Forall2 alike (snd acc) (snd acc') /\
  (forall h, h ∈ snd acc -> h_rounds h = [] -> h ∈ snd acc').
Proof.
  revert acc. induction us as [|u us IH]; intros acc; simpl.
  - intros [= <-]. split; [reflexivity|done].
  - rewrite bind_Ok. intros (acc1 & H1 & H2). apply IH in H2 as [H2 H3]. clear IH.
    destruct acc as [seen hs]. unfold apply_strategy_update in H1.
    apply guard_Ok in H1 as [_ H1]. destruct (index_of hs _) as [i|]; [|done].
    apply guard_Ok in H1 as [_ H1]. destruct (hs !! i) as [item|] eqn:Hi; [|done].
    apply guard_Ok in H1 as [Hne H1]. apply bind_Ok in H1 as (h1 & [_ ->]%check_hypothesis_Ok & H1).
    apply bind_Ok in H1 as (h2 & [_ ->]%check_hypothesis_Ok & [= <-]). simpl in *. split.
    + etransitivity; [|exact H2]. by eapply alike_insert.
    + intros h Hh Hr. apply H3; [|done]. apply list_elem_of_lookup_1 in Hh as [j Hj].
      destruct (decide (i = j)) as [<-|Hij].
      * rewrite Hi in Hj. injection Hj as ->. by rewrite bool_decide_eq_false in Hne.
      * apply list_elem_of_lookup. exists j. by rewrite list_lookup_insert_ne.
Qed.

Lemma alike_settled s u s' :
  settled s -> metrics u = metrics s -> Forall2 alike (hypotheses s) (hypotheses u) ->
  validated_state u = Ok s' -> settled s' /\ rounds s' = rounds s.
Proof.
  intros Hs Hmet Ha Hv. destruct (presettled_alike s u (settled_pre s Hs) Hmet Ha).
  by apply (validated_from s u).
Qed.

Lemma apply_updates_settled s us s' :
  settled s -> apply_strategy_updates s us = Ok s' -> settled s' /\ rounds s' = rounds s.
Proof.
  intros Hs H. apply bind_Ok in H as (acc & H & Hv). apply apply_updates_fold in H as [H _].
  by eapply (alike_settled s); [done|..|exact Hv].
Qed.

Lemma reopen_settled s id s' :
  settled s -> reopen_parked_hypothesis s id = Ok s' -> settled s' /\ rounds s' = rounds s.
Proof.
  intros Hs. unfold reopen_parked_hypothesis. destruct (by_id s id) as [item|]; [|done].
  destruct (strategy item); [by intros [= <-]| |done].
  intros H. apply bind_Ok in H as (hs & H & Hv). apply mapM_result_Forall in H.
  eapply (alike_settled s); [done| | |exact Hv]; [done|]. simpl.
  eapply Forall2_impl; [exact H|]. simpl. intros h h'. destruct (pystr_eqb _ _); [|by intros [= <-]].
  intros (h1 & [_ ->]%check_hypothesis_Ok & [_ ->]%check_hypothesis_Ok)%bind_Ok. done.
Qed.

Lemma finish_settled s s' :
  settled s -> finish_hypothesis s = Ok s' -> settled s' /\ rounds s' = rounds s.
Proof.
  intros Hs. unfold finish_hypothesis. destruct (active_hypothesis_id s) as [id|]; [|by intros [= <-]].
  intros (s1 & [_ ->]%check_state_Ok & (s2 & ->%advance_inv & Hv)%bind_Ok)%bind_Ok.
  eapply (alike_settled s); [done| | |exact Hv]; [done|].
  pose proof (advanced_alike (s <| active_hypothesis_id := None |>) [id]) as H. exact H.
Qed.

(** A checkpoint of the active hypothesis keeps its identity and its evidence. *)
Lemma update_settled s h s' :
  settled s -> (forall a, active_hypothesis s = Some a -> evidence_of h = evidence_of a) ->
  update_active_hypothesis s h = Ok s' -> settled s' /\ rounds s' = rounds s.
Proof.
  intros Hs Hsame. unfold update_active_hypothesis.
  destruct (active_hypothesis_id s) as [id|] eqn:Ea; [|done].
  intros (Hid & H)%guard_Ok. apply negb_false_iff, pystr_eqb_true in Hid.
  destruct (index_of (hypotheses s) id) as [i|] eqn:Hi; [|done].
  eapply (alike_settled s); [done| | |exact H]; [done|]. simpl.
  destruct (index_of_Some _ _ _ Hi) as (a & Hl & Ha). apply (alike_insert _ _ a); [done|].
  split; [congruence|]. apply Hsame. unfold active_hypothesis. rewrite Ea. unfold by_id.
  apply find_index_lookup in Hi as (a' & Hl' & ->). congruence.
Qed.

Lemma sorted_nodup l : StronglySorted earlier l -> NoDup (map round_number l).
Proof.
  induction 1 as [|x l Hs IH Hall]; simpl; constructor; [|done].
  intros (y & E & Hy)%elem_of_map. rewrite Forall_forall in Hall. specialize (Hall y Hy).
  unfold earlier in Hall. lia.
Qed.

Lemma rounds_of_perm s l : all_rounds s ≡ₚ l -> StronglySorted earlier l -> rounds s = l.
Proof.
  intros Hp Hs. apply earlier_perm_eq; [|done|by rewrite rounds_perm].
  apply NoDup_sorted_earlier; [|apply sort_by_sorted; [apply round_le_total|apply round_le_trans]].
  unfold rounds. rewrite sort_by_perm, Hp. by apply sorted_nodup.
Qed.

Lemma sorted_snoc l r :
  StronglySorted earlier l -> (forall x, x ∈ l -> round_number x < round_number r) ->
  StronglySorted earlier (l ++ [r]).
Proof.
  induction 1 as [|x l Hs IH Hall]; simpl; intros Hr; [repeat constructor|].
  constructor; [apply IH; intros; apply Hr; set_solver|].
  apply Forall_app. split; [done|]. constructor; [|done]. apply Hr. set_solver.
Qed.

Lemma replay_unowned space prior rs id e :
  (forall r, r ∈ rs -> r_hypothesis_id r <> Some id) -> replay space prior rs id e = e.
Proof.
  revert prior e. induction rs as [|r rs IH]; intros prior e H; simpl; [done|].
  rewrite bool_decide_false by (apply H; set_solver). apply IH. intros; apply H; set_solver.
Qed.

Lemma presettled_new s s' h :
  presettled s -> state_identity s' = true -> (forall x r, x ∈ hypotheses s -> r ∈ h_rounds x ->
    r_hypothesis_id r = Some (hypothesis_id x)) ->
  metrics s' = metrics s -> hypotheses s' = hypotheses s ++ [h] -> evidence_of h = no_evidence ->
  presettled s' /\ rounds s' = rounds s.
Proof.
  intros Hpre Hi Hown Hmet Hhs He. assert (Hnil : h_rounds h = []) by by injection He.
  assert (Hr : rounds s' = rounds s).
  { unfold rounds, all_rounds. by rewrite Hhs, flat_map_app; simpl; rewrite Hnil, !app_nil_r. }
  apply state_identity_spec in Hi as (Hnd & _ & _). rewrite Hhs, map_app in Hnd.
  apply NoDup_app in Hnd as (_ & Hnd & _). split; [|done]. split.
  - rewrite Hhs. intros x [Hx| ->]%elem_of_snoc; [by apply (pre_normal s)|]. rewrite Hnil. constructor.
  - unfold measurable_state. rewrite Hr. apply (pre_measurable s Hpre).
  - rewrite Hhs, Hmet, Hr. intros x [Hx| ->]%elem_of_snoc; [by apply (pre_summaries s)|].
    unfold summarized. rewrite replay_unowned; [rewrite <- He; apply with_evidence_of|].
    intros r (x & Hx & Hxr)%elem_of_rounds. rewrite (Hown x r Hx Hxr). intros [= E].
    apply (Hnd (hypothesis_id x)); [by apply elem_of_map_1|]. simpl. rewrite E. set_solver.
Qed.

Lemma start_settled s p n pr pc s' :
  settled s -> start_hypothesis s p n pr pc = Ok s' -> settled s' /\ rounds s' = rounds s.
Proof.
  intros Hs. unfold start_hypothesis. intros (_ & (_ & (_ & H)%guard_Ok)%guard_Ok)%guard_Ok.
  apply bind_Ok in H as (u & Hu & H). apply apply_updates_settled in Hu as [Hu Hur]; [|done].
  apply bind_Ok in H as (h & Hh & H). unfold construct_hypothesis in Hh.
  apply guard_Ok in Hh as [_ [_ ->]%check_hypothesis_Ok].
  apply bind_Ok in H as (u2 & [Hi ->]%check_state_Ok & H).
  apply bind_Ok in H as (u3 & ->%advance_inv & Hv).
  match type of Hi with state_identity ?u2 = _ => destruct (presettled_new u u2
    (new_hypothesis (strip (plan_hypothesis_id p)) (p <| plan_hypothesis_id := strip (plan_hypothesis_id p) |>)
       n pr pc) (settled_pre u Hu) Hi) as [Hp2 Hr2] end; [|done..|].
  - intros x r Hx Hr. by apply (valid_round u (settled_ok u Hu) x r).
  - destruct (advanced_presettled _ (strip (plan_hypothesis_id p)
      :: map u_hypothesis_id (plan_hypothesis_updates p)) Hp2) as [Hp3 Hr3].
    eapply validated_from; [exact Hp3| |exact Hv]. by rewrite Hr3, Hr2.
Qed.

(** A successful projection of a normalized record tells what it checked. *)
Lemma project_inv h r prior space h' :
  review_normal r -> project_round_evidence h r prior space = Ok h' ->
  owned_round (hypothesis_id h) r /\ (forall x, x ∈ h_rounds h -> round_number x < round_number r).
Proof.
  unfold project_round_evidence. intros Hn (Hid & (_ & H)%guard_Ok)%guard_Ok.
  apply negb_false_iff, bool_decide_eq_true in Hid.
  apply bind_Ok in H as (d & _ & H). apply bind_Ok in H as (h1 & [Hi _]%check_hypothesis_Ok & H).
  apply (identity_snoc h r) in Hi as (_ & Hlt & _ & Hc).
  apply bind_Ok in H as (rv & _ & H). apply bind_Ok in H as (h2 & _ & H).
  apply bind_Ok in H as (m & Hm & _). split; [|done]. split_and!; try done.
  unfold measurable. clear -Hm. unfold measure in *.
  destruct (perf_metric r), (perf_unit r); try done. destruct (_ && _); [|done].
  unfold measurement_fields in *. simpl in *. by destruct (negb _).
Qed.

Lemma flat_insert (hs : list Hypothesis_) i h h' r :
  hs !! i = Some h -> h_rounds h' = h_rounds h ++ [r] ->
  flat_map h_rounds (<[i := h']> hs) ≡ₚ flat_map h_rounds hs ++ [r].
Proof.
  intros Hi Hr. revert i Hi. induction hs as [|x hs IH]; intros [|i]; simpl; try done.
  - intros [= ->]. rewrite Hr, <- !app_assoc. by rewrite (Permutation_app_comm [r]).
  - intros Hi. rewrite (IH i Hi). by rewrite app_assoc.
Qed.

Lemma presettled_append s s' i a r :
  settled s -> hypotheses s !! i = Some a -> owned_round (hypothesis_id a) r ->
  (forall x, x ∈ rounds s -> round_number x < round_number r) ->
  metrics s' = metrics s ->
  hypotheses s' = <[i := with_evidence a (project_evidence (metrics s) (rounds s) (evidence_of a) r)]>
                    (hypotheses s) ->
  presettled s' /\ rounds s' = rounds s ++ [r].
Proof.
  intros Hs Hi (Hid & Hn & Hc & Hm) Hnew Hmet Hhs. pose proof (settled_ok s Hs) as Hok.
  assert (Hr : rounds s' = rounds s ++ [r]).
  { apply rounds_of_perm; [|by apply sorted_snoc; [apply rounds_sorted|]].
    unfold all_rounds. rewrite Hhs, (flat_insert _ _ a _ r) by done. by rewrite rounds_perm. }
  set (g := fun h => with_evidence h (project_evidence (metrics s) (rounds s) (evidence_of h) r)) in *.
  change (with_evidence a _) with (g a) in Hhs. rewrite insert_by_id in Hhs by (done || by apply valid_nodup).
  split; [|done]. split.
  - rewrite Hhs. intros x (h & -> & Hh)%elem_of_map. destruct (pystr_eqb _ _).
    + apply Forall_app. split; [by apply (pre_normal s (settled_pre s Hs))|by constructor].
    + by apply (pre_normal s (settled_pre s Hs)).
  - unfold measurable_state. rewrite Hr. intros x [Hx| ->]%elem_of_snoc; [by apply (settled_measurable s Hs)|done].
  - rewrite Hhs, Hr, Hmet. intros x (h & -> & Hh)%elem_of_map.
    pose proof (settled_summaries s Hs h Hh) as E. apply (f_equal evidence_of) in E.
    unfold summarized in E. rewrite evidence_of_with in E.
    unfold summarized. rewrite replay_snoc. unfold pystr_eqb. case_bool_decide as Ea.
    + unfold g. rewrite with_evidence_twice, with_evidence_id. rewrite bool_decide_true by congruence.
      by rewrite E.
    + rewrite bool_decide_false by congruence. rewrite E. apply with_evidence_of.
Qed.

Lemma active_lookup s a :
  active_hypothesis s = Some a ->
  active_hypothesis_id s = Some (hypothesis_id a) /\
  exists i, index_of (hypotheses s) (hypothesis_id a) = Some i /\ hypotheses s !! i = Some a.
Proof.
  unfold active_hypothesis, by_id. destruct (active_hypothesis_id s) as [id|]; [|done].
  intros H. pose proof (find_Some_elem _ _ _ H) as [Ha E%pystr_eqb_true]. subst id. split; [done|].
  destruct (index_of_elem _ _ Ha) as [i Hi]. exists i. split; [done|].
  apply find_index_lookup in Hi as (x & Hx & Hf). congruence.
Qed.

Lemma append_settled s r ka s' :
  settled s -> review_normal r -> (forall x, x ∈ rounds s -> round_number x < round_number r) ->
  append_round s r ka = Ok s' -> settled s' /\ rounds s' = rounds s ++ [r].
Proof.
  intros Hs Hn Hnew. unfold append_round. destruct (active_hypothesis s) as [a|] eqn:Ea; [|done].
  intros (_ & (_ & H)%guard_Ok)%guard_Ok. apply bind_Ok in H as (h & Hp & H).
  destruct (active_lookup s a Ea) as (_ & i & Hi & Hl).
  pose proof (project_inv _ _ _ _ _ Hn Hp) as [Ho Hlt].
  assert (Ha : hypothesis_ok a) by (eapply (valid_hypothesis s (settled_ok s Hs)); by eapply list_elem_of_lookup_2).
  rewrite project_eq in Hp by done. injection Hp as <-. rewrite with_evidence_id, Hi in H.
  apply bind_Ok in H as (u & Hu & H). apply bind_Ok in H as (u2 & ->%advance_inv & Hv).
  assert (Hx : hypotheses u = <[i := with_evidence a (project_evidence (metrics s) (rounds s) (evidence_of a) r)]>
                    (hypotheses s) /\ metrics u = metrics s).
  { destruct ka; [by injection Hu as <-|by apply check_state_Ok in Hu as [_ ->]]. }
  destruct Hx as [Hx1 Hx2].
  destruct (presettled_append s u i a r Hs Hl Ho Hnew Hx2 Hx1) as [Hpre Hr].
  destruct (advanced_presettled u [hypothesis_id a] Hpre) as [Hpre' Hr'].
  split; [by eapply validated_presettled|]. by rewrite (validated_rounds _ _ Hpre' Hv), Hr', Hr.
Qed.

(** ** Lemmas: appending a round, exactly *)

Definition appended (s : HypothesisState) (a : Hypothesis_) (r : RoundRecord) (keep_active : bool)
  : HypothesisState :=
  advanced (s <| hypotheses := map (absorb (metrics s) (rounds s) r) (hypotheses s) |>
              <| active_hypothesis_id := if keep_active then Some (hypothesis_id a) else None |>)
    [hypothesis_id a].

(** When a round may be appended to the active hypothesis [a]. *)
Definition appendable (s : HypothesisState) (a : Hypothesis_) (r : RoundRecord) : Prop :=
  active_hypothesis s = Some a /\ owned_round (hypothesis_id a) r /\
  (forall x, x ∈ h_rounds a -> round_number x < round_number r) /\
  (forall x, x ∈ rounds s -> round_number x <> round_number r).

Lemma absorb_insert s i a r :
  state_ok s -> hypotheses s !! i = Some a -> r_hypothesis_id r = Some (hypothesis_id a) ->
  <[i := with_evidence a (project_evidence (metrics s) (rounds s) (evidence_of a) r)]> (hypotheses s)
  = map (absorb (metrics s) (rounds s) r) (hypotheses s).
Proof.
  intros Hok Hl Hid.
  set (g := fun h => with_evidence h (project_evidence (metrics s) (rounds s) (evidence_of h) r)).
  change (with_evidence a _) with (g a). rewrite insert_by_id by (done || by apply valid_nodup).
  apply map_ext. intros x. unfold absorb, owned_by, pystr_eqb. rewrite Hid.
  destruct (decide (hypothesis_id x = hypothesis_id a)).
  - by rewrite !bool_decide_true by congruence.
  - by rewrite !bool_decide_false by congruence.
Qed.

Lemma appended_base_ok s a r (ka : bool) :
  state_ok s -> appendable s a r ->
  state_ok (s <| hypotheses := map (absorb (metrics s) (rounds s) r) (hypotheses s) |>
              <| active_hypothesis_id := if ka then Some (hypothesis_id a) else None |>).
Proof.
  intros Hok (Ha & Ho & Hlt & Hne). destruct (active_lookup s a Ha) as (Haid & i & _ & Hl).
  pose proof Hok as (Hf & Hh & Hi)%state_ok_spec. rewrite Forall_forall in Hh.
  apply state_ok_spec. split_and!; [exact Hf| |].
  - simpl. rewrite Forall_forall. intros x (h & -> & Hx)%elem_of_map. unfold absorb.
    destruct (owned_by (hypothesis_id h) r) eqn:E; [|by apply Hh].
    assert (h = a) as ->.
    { apply (NoDup_map_inj hypothesis_id (hypotheses s)); [by apply valid_nodup|done|by eapply list_elem_of_lookup_2|].
      apply bool_decide_eq_true in E. destruct Ho as [Hid _]. congruence. }
    apply project_evidence_ok; [by apply Hh|done|done].
  - set (s1 := s <| hypotheses := map (absorb (metrics s) (rounds s) r) (hypotheses s) |>).
    assert (Hi1 : state_identity s1 = true).
    { apply state_identity_map; [done|intros; apply absorb_id|intros h; by unfold absorb; destruct (owned_by _ _)|].
      rewrite <- (absorb_insert s i a r) by (done || by destruct Ho).
      rewrite (flat_insert _ _ a _ r) by done. rewrite map_app. apply NoDup_app. split_and!.
      - by apply valid_rounds_nodup.
      - intros n (x & -> & Hx)%elem_of_map E. apply list_elem_of_singleton in E.
        apply (Hne x); [by rewrite rounds_perm|done].
      - apply NoDup_singleton. }
    apply state_identity_spec in Hi1 as (H1 & H2 & H3). apply state_identity_spec.
    split_and!; [exact H1| |exact H3]. simpl in H2. rewrite Haid in H2. destruct ka; [exact H2|done].
Qed.

Lemma append_eq s a r (ka : bool) :
  state_ok s -> appendable s a r -> append_round s r ka = Ok (appended s a r ka).
Proof.
  intros Hok Hap. pose proof (appended_base_ok s a r ka Hok Hap) as Hbase.
  pose proof Hap as (Ha & Ho & Hlt & Hne). destruct (active_lookup s a Ha) as (Haid & i & Hidx & Hl).
  unfold append_round. rewrite Ha. pose proof Ho as (Hid & _). rewrite bool_decide_true by done. cbn [negb].
  assert (Hex : existsb (fun item => round_number item =? round_number r) (rounds s) = false).
  { apply not_true_iff_false. rewrite existsb_exists. intros (x & Hx%list_elem_of_In & E).
    apply Z.eqb_eq in E. by apply (Hne x). }
  rewrite Hex, project_eq; [|by eapply (valid_hypothesis s Hok), list_elem_of_lookup_2|done|done].
  cbn [bind]. rewrite with_evidence_id, Hidx, (absorb_insert s i a r) by done.
  set (s1 := s <| hypotheses := map (absorb (metrics s) (rounds s) r) (hypotheses s) |>).
  assert (Hclear : (if ka then Ok s1 else check_state (s1 <| active_hypothesis_id := None |>))
    = Ok (s1 <| active_hypothesis_id := if ka then Some (hypothesis_id a) else None |>)).
  { destruct ka; [by rewrite <- Haid; destruct s|].
    apply check_state_ok. apply state_ok_spec in Hbase as (_ & _ & H). exact H. }
  rewrite Hclear. cbn [bind]. rewrite advance_eq by exact Hbase. cbn [bind].
  apply validated_state_id. by apply advanced_ok.
Qed.

Lemma append_inv s r ka s' :
  review_normal r -> append_round s r ka = Ok s' -> exists a, appendable s a r.
Proof.
  unfold append_round. intros Hn. destruct (active_hypothesis s) as [a|] eqn:Ea; [|done].
  intros (_ & (Hex & H)%guard_Ok)%guard_Ok. apply bind_Ok in H as (h & Hp & _).
  apply project_inv in Hp as [Ho Hlt]; [|done]. exists a. split_and!; try done; [by destruct Ho..|].
  intros x Hx E. apply not_true_iff_false in Hex. apply Hex, existsb_exists.
  exists x. split; [by apply list_elem_of_In|lia].
Qed.

(** ** Properties *)

(** The steps of a run's hypothesis state: planning, checkpointing the active hypothesis
    without touching its evidence, closing the newest round, finishing, re-treating, and adopting
    the metric space on open. *)
Inductive transition (s s' : HypothesisState) : Prop :=
| T_start p started parent_round parent_commit
    (H : start_hypothesis s p started parent_round parent_commit = Ok s')
| T_checkpoint h
    (Hsame : forall a, active_hypothesis s = Some a -> evidence_of h = evidence_of a)
    (H : update_active_hypothesis s h = Ok s')
| T_append r keep_active
    (Hnormal : review_normal r)
    (Hnewest : forall x, x ∈ rounds s -> round_number x < round_number r)
    (H : append_round s r keep_active = Ok s')
| T_finish (H : finish_hypothesis s = Ok s')
| T_updates updates (H : apply_strategy_updates s updates = Ok s')
| T_reopen id (H : reopen_parked_hypothesis s id = Ok s')
| T_adopt space (H : adopt_metric_space s space = Ok s').

Definition reachable (s : HypothesisState) : Prop := rtc transition initial_state s.

Lemma initial_settled : settled initial_state.
Proof. split; [apply initial_state_ok|by intros r ?%not_elem_of_nil|by intros h ?%not_elem_of_nil]. Qed.

Lemma adopt_space_valid s space s' : adopt_metric_space s space = Ok s' -> space_valid space = true.
Proof.
  intros (s1 & [_ ->]%check_state_Ok & (s2 & H2 & H)%bind_Ok)%bind_Ok.
  assert (E : metrics s2 = space).
  { apply bind_Ok in H2 as (s3 & [_ ->]%check_state_Ok & (acc & _ & H2)%bind_Ok).
    by apply validated_state_Ok in H2 as (_ & hs & _ & -> & _). }
  apply bind_Ok in H as (s4 & H4 & H).
  assert (E' : metrics s4 = space).
  { destruct (changed_hypotheses _ _); [by injection H4 as <-|]. by apply advance_inv in H4 as ->. }
  apply validated_state_Ok in H as (Hf & _). unfold state_fields in Hf.
  rewrite !andb_true_iff, E' in Hf. tauto.
Qed.

Lemma adopt_settled s space s' :
  settled s -> adopt_metric_space s space = Ok s' -> settled s' /\ rounds s' = rounds s.
Proof.
  intros Hs H. pose proof (adopt_space_valid _ _ _ H) as Hv.
  destruct (adopt_eq s space (settled_ok s Hs) (settled_measurable s Hs) Hv) as (E & Hset & Hr).
  split; congruence.
Qed.

Lemma transition_settled s s' :
  settled s -> transition s s' ->
  settled s' /\ (rounds s' = rounds s \/ exists r, rounds s' = rounds s ++ [r]).
Proof.
  intros Hs [p n pr pc H|h Hsame H|r ka Hn Hnew H|H|us H|id H|space H].
  - destruct (start_settled _ _ _ _ _ _ Hs H); auto.
  - destruct (update_settled _ _ _ Hs Hsame H); auto.
  - destruct (append_settled _ _ _ _ Hs Hn Hnew H); eauto.
  - destruct (finish_settled _ _ Hs H); auto.
  - destruct (apply_updates_settled _ _ _ Hs H); auto.
  - destruct (reopen_settled _ _ _ Hs H); auto.
  - destruct (adopt_settled _ _ _ Hs H); auto.
Qed.

Lemma reachable_is_settled s : reachable s -> settled s.
Proof.
  apply (rtc_ind_r settled initial_state); [apply initial_settled|].
  intros s1 s2 _ H12 IH. by apply (transition_settled s1 s2).
Qed.

Lemma settled_adopt_noop s : settled s -> adopt_metric_space s (metrics s) = Ok s.
Proof.
  intros Hs. pose proof (settled_ok s Hs) as Hok.
  pose proof Hok as (Hf & _ & _)%state_ok_spec. unfold state_fields in Hf.
  rewrite !andb_true_iff in Hf. destruct Hf as [[_ Hv] _].
  destruct (adopt_eq s (metrics s) Hok (settled_measurable s Hs) Hv) as [-> _].
  by rewrite adopted_settled_id.
Qed.

(** Resuming a run in its own metric space changes nothing: on every reachable state the
    reprojection of [adopt_metric_space] is a no-op, revision included. *)
Theorem resume_is_noop (s : HypothesisState) :
  reachable s -> adopt_metric_space s (metrics s) = Ok s.
Proof. intros Hs. by apply settled_adopt_noop, reachable_is_settled. Qed.

(** C7. Every reachable state is valid and says nothing its rounds do not say: a hypothesis's
    rounds are the run's rounds with its id in strictly increasing order, and its declaration,
    review, resolution, measurement and retention are the replay of those rounds from nothing. *)
Theorem reachable_summaries (s : HypothesisState) :
  reachable s ->
  state_ok s /\ StronglySorted earlier (rounds s) /\
  forall h, h ∈ hypotheses s ->
    h_rounds h = List.filter (owned_by (hypothesis_id h)) (rounds s) /\
    evidence_of h = replay (metrics s) [] (rounds s) (hypothesis_id h) no_evidence.
Proof.
  intros Hs%reachable_is_settled. pose proof (settled_ok s Hs) as Hok.
  split_and!; [done|by apply rounds_sorted|]. intros h Hh.
  split; [by rewrite owned_rounds|].
  pose proof (settled_summaries s Hs h Hh) as E. apply (f_equal evidence_of) in E.
  unfold summarized in E. by rewrite evidence_of_with in E.
Qed.

(** The round history of a run is append-only: any further transitions extend it and keep
    every recorded round as it is. *)
Theorem history_append_only (s s' : HypothesisState) :
  reachable s -> rtc transition s s' -> exists later, rounds s' = rounds s ++ later.
Proof.
  intros Hs%reachable_is_settled H.
  enough (settled s' /\ exists later, rounds s' = rounds s ++ later) by tauto.
  revert s' H. apply rtc_ind_r.
  - split; [done|]. exists []. by rewrite app_nil_r.
  - intros s1 s2 _ H12 [Hs1 [later E]]. destruct (transition_settled s1 s2 Hs1 H12) as [Hs2 Hr].
    split; [done|]. destruct Hr as [->|[r ->]]; [by exists later|].
    exists (later ++ [r]). by rewrite E, app_assoc.
Qed.

(** Adopting a metric space on any valid state with constructible measurements succeeds,
    keeps every round, re-derives every summary in the new space, and is idempotent. *)
Theorem adopt_rederives (s : HypothesisState) (space : MetricSpace) :
  state_ok s -> measurable_state s -> space_valid space = true ->
  exists s', adopt_metric_space s space = Ok s' /\ metrics s' = space /\ rounds s' = rounds s /\
    (forall h, h ∈ hypotheses s' ->
       evidence_of h = replay space [] (rounds s) (hypothesis_id h) no_evidence) /\
    adopt_metric_space s' space = Ok s'.
Proof.
  intros Hok Hm Hv. destruct (adopt_eq s space Hok Hm Hv) as (E & Hs & Hr).
  assert (Hmet : metrics (adopted s space) = space).
  { unfold adopted. by destruct (changed_hypotheses _ _). }
  exists (adopted s space). split_and!; [done|done|done| |].
  - intros h Hh. pose proof (settled_summaries _ Hs h Hh) as Hsum.
    apply (f_equal evidence_of) in Hsum. unfold summarized in Hsum.
    by rewrite evidence_of_with, Hmet, Hr in Hsum.
  - destruct (adopt_eq _ space (settled_ok _ Hs) (settled_measurable _ Hs) Hv) as (E' & _).
    rewrite E'. f_equal. rewrite <- Hmet at 2. by apply adopted_settled_id.
Qed.

(** [append_round] succeeds exactly when the round is new to the run, belongs to the active
    hypothesis, follows its earlier rounds and satisfies the round contract; and then it adds
    that round's evidence to that one hypothesis, keeps or clears the active pointer as asked
    and advances the revision. *)
Lemma append_round_exact (s s' : HypothesisState) (r : RoundRecord) (keep_active : bool) :
  state_ok s -> review_normal r ->
  append_round s r keep_active = Ok s' <->
  exists a, appendable s a r /\ s' = appended s a r keep_active.
Proof.
  intros Hok Hn. split.
  - intros H. destruct (append_inv s r keep_active s' Hn H) as [a Ha]. exists a. split; [done|].
    rewrite (append_eq s a r keep_active Hok Ha) in H. congruence.
  - intros (a & Ha & ->). by apply append_eq.
Qed.

Lemma replay_resolution space rs id :
  e_resolution (replay space [] rs id no_evidence) =
  match last (List.filter (owned_by id) rs) with
  | Some r => resolve_hypothesis_outcome
      (mk_ResolutionEvidence (declared_of r) (passed r) (reviewed r) (round_comparison r))
  | None => None
  end.
Proof.
  induction rs as [|r rs IH] using rev_ind; [done|].
  rewrite replay_snoc, List.filter_app. simpl. unfold owned_by at 2. destruct (bool_decide _).
  - simpl. by rewrite last_snoc.
  - by rewrite app_nil_r.
Qed.

(** C2. The trust boundary of the loop: in a reachable state a hypothesis is PROVEN only on its
    latest round, a reviewed and passed one whose supportive declaration rests on an official
    reading the framework itself measured and found better than its baseline. *)
Theorem proven_needs_trusted_reading (s : HypothesisState) (h : Hypothesis_) :
  reachable s -> h ∈ hypotheses s -> resolution h = Some R_PROVEN ->
  exists r, last (h_rounds h) = Some r /\ passed r = true /\ reviewed r = true /\
    (declared_of r = Some SUPPORTED \/ declared_of r = Some NOMINATED) /\
    trusted_reading r = true /\ perf_provenance r = Some framework /\
    perf_comparison r = Some BETTER.
Proof.
  intros Hs%reachable_is_settled Hh Hres. pose proof (settled_ok s Hs) as Hok.
  pose proof (settled_summaries s Hs h Hh) as E. apply (f_equal evidence_of) in E.
  unfold summarized in E. rewrite evidence_of_with in E. apply (f_equal e_resolution) in E.
  rewrite replay_resolution, owned_rounds in E by done. simpl in E. rewrite Hres in E.
  destruct (last (h_rounds h)) as [r|]; [|done]. exists r. split; [done|].
  unfold resolve_hypothesis_outcome in E. simpl in E.
  destruct (reviewed r); [|done]. destruct (passed r); [|done]. simpl in E.
  assert (Hc : round_comparison r = Some BETTER /\
    (declared_of r = Some SUPPORTED \/ declared_of r = Some NOMINATED)).
  { destruct (declared_of r) as [[]|]; simpl in E; try done;
      destruct (round_comparison r) as [[]|]; naive_solver. }
  destruct Hc as [Hc Hd]. unfold round_comparison in Hc.
  destruct (trusted_reading r) eqn:Et; [|done]. split_and!; try done.
  unfold trusted_reading in Et. rewrite !andb_true_iff in Et.
  apply trusted_perf_provenance_spec. tauto.
Qed.

(** *** Starting a hypothesis *)

Lemma validated_ids s s' :
  validated_state s = Ok s' ->
  map hypothesis_id (hypotheses s') = map hypothesis_id (hypotheses s) /\
  active_hypothesis_id s' = active_hypothesis_id s /\
  experiment_revision s' = experiment_revision s.
Proof.
  intros (_ & hs & Hm & -> & _)%validated_state_Ok. split_and!; [|done|done].
  apply mapM_result_Forall in Hm. simpl. induction Hm as [|h h' l l' Hh _ IH]; simpl; [done|].
  apply validate_hypothesis_Ok in Hh as (p & _ & _ & -> & _). by rewrite IH.
Qed.

Lemma apply_updates_ids s us u :
  apply_strategy_updates s us = Ok u ->
  state_ok u /\ map hypothesis_id (hypotheses u) = map hypothesis_id (hypotheses s) /\
  active_hypothesis_id u = active_hypothesis_id s /\
  experiment_revision u = experiment_revision s.
Proof.
  intros (acc & H & Hv)%bind_Ok. pose proof (validated_state_valid _ _ Hv) as Hok.
  apply validated_ids in Hv as (Hids & Ha & Hr). split_and!; [done| |done|done].
  rewrite Hids. apply apply_updates_fold in H as [H _]. simpl in *. clear -H.
  induction H as [|h h' l l' [E _] _ IH]; simpl; congruence.
Qed.

Lemma by_id_None s id : by_id s id = None <-> id ∉ map hypothesis_id (hypotheses s).
Proof.
  unfold by_id. rewrite find_None_elem. split.
  - intros H (h & E & Hh)%elem_of_map. specialize (H h Hh). apply not_true_iff_false in H.
    apply H, pystr_eqb_true. done.
  - intros H h Hh. apply not_true_iff_false. intros E%pystr_eqb_true. apply H.
    rewrite <- E. by apply elem_of_map_1.
Qed.

Definition fresh_hypothesis (p : OrchestratorPlan) (started_round : Z) (parent_round : option Z)
  (parent_commit : option pystr) : Hypothesis_ :=
  new_hypothesis (strip (plan_hypothesis_id p))
    (p <| plan_hypothesis_id := strip (plan_hypothesis_id p) |>) started_round parent_round
    parent_commit.

Definition started (u : HypothesisState) (p : OrchestratorPlan) (started_round : Z)
  (parent_round : option Z) (parent_commit : option pystr) : HypothesisState :=
  advanced (u <| hypotheses := hypotheses u
                   ++ [fresh_hypothesis p started_round parent_round parent_commit] |>
              <| active_hypothesis_id := Some (strip (plan_hypothesis_id p)) |>)
    (strip (plan_hypothesis_id p) :: map u_hypothesis_id (plan_hypothesis_updates p)).

Lemma fresh_ok p n pr pc :
  plan_wf p -> str_truthy (strip (plan_hypothesis_id p)) = true -> 0 < n ->
  opt_all positive pr = true -> hypothesis_ok (fresh_hypothesis p n pr pc).
Proof.
  intros Hp Hid Hn Hpr. apply hypothesis_ok_spec. split_and!.
  - by apply plan_wf_rename.
  - unfold hypothesis_fields. simpl. rewrite Hid, Hpr. unfold positive.
    rewrite (proj2 (Z.ltb_lt 0 n) Hn). reflexivity.
  - constructor.
  - unfold hypothesis_identity. simpl. by rewrite pystr_eqb_refl.
Qed.

Lemma started_base_ok u p n pr pc :
  state_ok u -> hypothesis_ok (fresh_hypothesis p n pr pc) ->
  by_id u (strip (plan_hypothesis_id p)) = None ->
  state_ok (u <| hypotheses := hypotheses u ++ [fresh_hypothesis p n pr pc] |>
              <| active_hypothesis_id := Some (strip (plan_hypothesis_id p)) |>).
Proof.
  intros Hu Hf Hnone. set (id := strip (plan_hypothesis_id p)) in *.
  pose proof Hu as (Hfields & Hh & _)%state_ok_spec. apply state_ok_spec.
  split_and!; [exact Hfields|apply Forall_app; split; [done|by constructor]|].
  apply state_identity_spec. simpl. split_and!.
  - rewrite map_app. apply NoDup_app. split_and!; [by apply valid_nodup| |apply NoDup_singleton].
    intros x Hx E. apply list_elem_of_singleton in E as ->. by apply by_id_None in Hnone.
  - exists (fresh_hypothesis p n pr pc). split; [|done]. unfold by_id in *. simpl. clear -Hnone.
    induction (hypotheses u) as [|x l IH]; simpl in *; [by unfold id; rewrite pystr_eqb_refl|].
    destruct (pystr_eqb (hypothesis_id x) id); [done|]. by apply IH.
  - unfold all_rounds. simpl. rewrite flat_map_app. simpl. rewrite app_nil_r. by apply valid_rounds_nodup.
Qed.

Lemma start_exact (s s' : HypothesisState) (p : OrchestratorPlan) (n : Z)
  (parent_round : option Z) (parent_commit : option pystr) :
  state_ok s -> plan_wf p ->
  start_hypothesis s p n parent_round parent_commit = Ok s' <->
  active_hypothesis_id s = None /\ str_truthy (strip (plan_hypothesis_id p)) = true /\
  by_id s (strip (plan_hypothesis_id p)) = None /\ 0 < n /\ opt_all positive parent_round = true /\
  exists u, apply_strategy_updates s (plan_hypothesis_updates p) = Ok u /\
    s' = started u p n parent_round parent_commit.
Proof.
  intros Hok Hp. unfold start_hypothesis. rewrite !guard_Ok.
  rewrite bool_decide_eq_false, negb_false_iff.
  set (id := strip (plan_hypothesis_id p)). set (h := fresh_hypothesis p n parent_round parent_commit).
  assert (Hby : is_some (by_id s id) = false <-> by_id s id = None) by (by destruct (by_id s id)).
  rewrite Hby.
  assert (Hgo : forall u, apply_strategy_updates s (plan_hypothesis_updates p) = Ok u ->
    by_id s id = None -> hypothesis_ok h ->
    (let* u2 := check_state (u <| hypotheses := hypotheses u ++ [h] |> <| active_hypothesis_id := Some id |>) in
     let* u3 := advance_experiment_revision u2 (id :: map u_hypothesis_id (plan_hypothesis_updates p)) in
     validated_state u3) = Ok (started u p n parent_round parent_commit)).
  { intros u Hu Hnone Hh. apply apply_updates_ids in Hu as (Huok & Hids & _).
    assert (Hbase := started_base_ok u p n parent_round parent_commit Huok Hh
      ltac:(apply by_id_None; rewrite Hids; by apply by_id_None)).
    pose proof Hbase as (_ & _ & Hi)%state_ok_spec.
    rewrite check_state_ok by exact Hi. cbn [bind]. rewrite advance_eq by exact Hbase. cbn [bind].
    by apply validated_state_id, advanced_ok. }
  split.
  - intros (Hact & Hid & Hnone & H). apply bind_Ok in H as (u & Hu & H).
    apply bind_Ok in H as (h1 & Hc & H). unfold construct_hypothesis in Hc.
    apply guard_Ok in Hc as [Hf [_ ->]%check_hypothesis_Ok]. apply negb_false_iff in Hf.
    assert (Hpos : 0 < n /\ opt_all positive parent_round = true).
    { unfold hypothesis_fields in Hf. simpl in Hf. rewrite !andb_true_iff in Hf.
      destruct Hf as [[[[[[[[_ Hn] Hpr] _] _] _] _] _] _]. split; [by apply Z.ltb_lt in Hn|done]. }
    split_and!; [destruct (active_hypothesis_id s); [exfalso; by apply Hact|done]|done|done|apply Hpos|apply Hpos|].
    exists u. split; [done|]. change (new_hypothesis _ _ n parent_round parent_commit) with h in H.
    rewrite (Hgo u Hu Hnone (fresh_ok p n _ parent_commit Hp Hid (proj1 Hpos) (proj2 Hpos))) in H.
    congruence.
  - intros (Hact & Hid & Hnone & Hn & Hpr & u & Hu & ->). rewrite Hact. split_and!; [by intros H|done|done|].
    rewrite Hu. cbn [bind]. pose proof (fresh_ok p n _ parent_commit Hp Hid Hn Hpr) as Hf.
    assert (Hc : construct_hypothesis h = Ok h).
    { unfold construct_hypothesis. apply hypothesis_ok_spec in Hf as (_ & Hff & _ & Hi).
      fold h in Hff, Hi. rewrite Hff. by apply check_ok. }
    change (new_hypothesis _ _ n parent_round parent_commit) with h. rewrite Hc. cbn [bind]. by apply Hgo.
Qed.

(** The hypothesis [start_hypothesis] leaves active. *)
Lemma started_active u p n pr pc :
  by_id u (strip (plan_hypothesis_id p)) = None ->
  active_hypothesis (started u p n pr pc)
  = Some ((fresh_hypothesis p n pr pc) <| last_experiment_revision := experiment_revision u + 1 |>).
Proof.
  intros Hnone. set (id := strip (plan_hypothesis_id p)) in *.
  set (u1 := u <| hypotheses := hypotheses u ++ [fresh_hypothesis p n pr pc] |>
               <| active_hypothesis_id := Some id |>).
  assert (Hby : by_id u1 id = Some (fresh_hypothesis p n pr pc)).
  { unfold by_id in *. simpl. clear -Hnone.
    induction (hypotheses u) as [|x l IH]; simpl in *; [by unfold id; rewrite pystr_eqb_refl|].
    destruct (pystr_eqb (hypothesis_id x) id); [done|]. by apply IH. }
  set (f := touch (id :: map u_hypothesis_id (plan_hypothesis_updates p)) (experiment_revision u + 1)).
  transitivity (option_map f (by_id u1 id)).
  - set (u2 := u1 <| experiment_revision := experiment_revision u + 1 |>).
    pose proof (by_id_map u2 f id (touch_id _ _)) as E. exact E.
  - rewrite Hby. simpl. unfold f, touch. rewrite bool_decide_true; [done|]. simpl. set_solver.
Qed.

(** [start_hypothesis] succeeds exactly when nothing is active, the trimmed id is neither
    blank nor taken, the plan's strategy updates apply, and the round numbers are positive; and
    then the new hypothesis, without rounds and available, is the active one, stamped with the
    advanced revision together with every hypothesis the plan re-treated. *)
Theorem start_hypothesis_exact (s s' : HypothesisState) (p : OrchestratorPlan) (n : Z)
  (parent_round : option Z) (parent_commit : option pystr) :
  state_ok s -> plan_wf p ->
  start_hypothesis s p n parent_round parent_commit = Ok s' <->
  active_hypothesis_id s = None /\ str_truthy (strip (plan_hypothesis_id p)) = true /\
  by_id s (strip (plan_hypothesis_id p)) = None /\ 0 < n /\ opt_all positive parent_round = true /\
  exists u, apply_strategy_updates s (plan_hypothesis_updates p) = Ok u /\
    s' = started u p n parent_round parent_commit.
Proof. apply start_exact. Qed.

(** *** Strategy updates *)

Definition treated (u : HypothesisStrategyUpdate) (h : Hypothesis_) : Hypothesis_ :=
  h <| strategy := disposition_strategy (u_disposition u) |>
    <| strategy_reason := Some (strip (u_reason u)) |>.

(** What a batch of updates makes of one hypothesis. *)
Definition retreated (us : list HypothesisStrategyUpdate) (h : Hypothesis_) : Hypothesis_ :=
  match find (fun u => pystr_eqb (u_hypothesis_id u) (hypothesis_id h)) us with
  | Some u => treated u h
  | None => h
  end.

(** An update the loop accepts. *)
Definition updatable (active_id : option pystr) (hs : list Hypothesis_) (id : pystr) : Prop :=
  active_id <> Some id /\ exists h, h ∈ hs /\ hypothesis_id h = id /\ h_rounds h <> [].

Lemma retreated_id us h : hypothesis_id (retreated us h) = hypothesis_id h.
Proof. unfold retreated. by destruct (find _ us). Qed.
Lemma retreated_rounds us h : h_rounds (retreated us h) = h_rounds h.
Proof. unfold retreated. by destruct (find _ us). Qed.

Definition treat_one (u : HypothesisStrategyUpdate) (h : Hypothesis_) : Hypothesis_ :=
  if pystr_eqb (hypothesis_id h) (u_hypothesis_id u) then treated u h else h.

Lemma treat_one_id u h : hypothesis_id (treat_one u h) = hypothesis_id h.
Proof. unfold treat_one. by destruct (pystr_eqb _ _). Qed.

Lemma retreated_cons u us h :
  u_hypothesis_id u ∉ map u_hypothesis_id us -> retreated us (treat_one u h) = retreated (u :: us) h.
Proof.
  intros Hu. unfold retreated at 1. rewrite treat_one_id. unfold retreated, treat_one. cbn [find].
  destruct (decide (u_hypothesis_id u = hypothesis_id h)) as [E|E].
  - rewrite E, pystr_eqb_refl. rewrite (proj2 (find_None_elem _ _)); [done|].
    intros x Hx. apply not_true_iff_false. rewrite pystr_eqb_true. intros Ex. apply Hu.
    rewrite E, <- Ex. by apply elem_of_map_1.
  - assert (E1 : pystr_eqb (u_hypothesis_id u) (hypothesis_id h) = false) by (by apply bool_decide_false).
    assert (E2 : pystr_eqb (hypothesis_id h) (u_hypothesis_id u) = false) by (apply bool_decide_false; congruence).
    by rewrite E1, E2.
Qed.

Lemma update_step_eq active seen hs u acc :
  NoDup (map hypothesis_id hs) -> (forall h, h ∈ hs -> hypothesis_identity h = true) ->
  apply_strategy_update active (seen, hs) u = Ok acc <->
  (u_hypothesis_id u ∉ seen) /\ updatable active hs (u_hypothesis_id u) /\
  acc = (u_hypothesis_id u :: seen, map (treat_one u) hs).
Proof.
  intros Hnd Hid. unfold apply_strategy_update. rewrite guard_Ok, bool_decide_eq_false.
  destruct (index_of hs (u_hypothesis_id u)) as [i|] eqn:Hi.
  2:{ split; [by intros [_ ?]|]. intros (_ & (_ & h & Hh & E & _) & _).
      destruct (index_of_elem hs h Hh) as [j Hj]. congruence. }
  destruct (index_of_Some _ _ _ Hi) as (h & Hl & E). rewrite Hl.
  assert (Hh : h ∈ hs) by by eapply list_elem_of_lookup_2.
  rewrite !guard_Ok, !bool_decide_eq_false.
  assert (Hc : forall h', hypothesis_identity h = hypothesis_identity h' -> check_hypothesis h' = Ok h').
  { intros h' Eh. apply check_ok. rewrite <- Eh. by apply Hid. }
  rewrite Hc by done. cbn [bind]. rewrite Hc by done. cbn [bind].
  assert (Hins : <[i := treated u h]> hs = map (treat_one u) hs).
  { rewrite insert_by_id by done. apply map_ext. intros x. unfold treat_one. by rewrite E. }
  fold (treated u h). rewrite Hins.
  split.
  - intros (Hs & Ha & Hr & [= <-]). split; [done|]. split; [|done]. split; [done|by exists h].
  - intros (Hs & (Ha & h' & Hh' & E' & Hr) & ->). split; [done|]. split; [done|]. split; [|done].
    rewrite (NoDup_map_inj hypothesis_id hs h h'); [done|done|done|done|congruence].
Qed.

Lemma treat_one_identity u h : hypothesis_identity (treat_one u h) = hypothesis_identity h.
Proof. unfold treat_one. by destruct (pystr_eqb _ _). Qed.

Lemma updates_fold_exact active us seen hs hs' :
  NoDup (map hypothesis_id hs) -> (forall h, h ∈ hs -> hypothesis_identity h = true) ->
  (exists seen', foldM_result (apply_strategy_update active) (seen, hs) us = Ok (seen', hs')) <->
  NoDup (map u_hypothesis_id us) /\ (forall u, u ∈ us -> u_hypothesis_id u ∉ seen) /\
  (forall u, u ∈ us -> updatable active hs (u_hypothesis_id u)) /\ hs' = map (retreated us) hs.
Proof.
  revert seen hs. induction us as [|u us IH]; intros seen hs Hnd Hid.
  - assert (E : map (retreated []) hs = hs) by (rewrite <- (map_id hs) at 2; by apply map_ext).
    rewrite E. simpl. split.
    + intros [? [= _ <-]]. split_and!; [constructor|..]; (by intros u ?%not_elem_of_nil) || done.
    + intros (_ & _ & _ & ->). by exists seen.
  - change (foldM_result (apply_strategy_update active) (seen, hs) (u :: us)) with
      (bind (apply_strategy_update active (seen, hs) u)
         (fun acc => foldM_result (apply_strategy_update active) acc us)).
    setoid_rewrite bind_Ok. setoid_rewrite update_step_eq; [|done|done].
    assert (Hnd' : NoDup (map hypothesis_id (map (treat_one u) hs))).
    { rewrite map_map. by rewrite (map_ext _ hypothesis_id) by apply treat_one_id. }
    assert (Hid' : forall h, h ∈ map (treat_one u) hs -> hypothesis_identity h = true).
    { intros x (h & -> & Hh)%elem_of_map. rewrite treat_one_identity. by apply Hid. }
    assert (Hup : forall id, updatable active (map (treat_one u) hs) id <-> updatable active hs id).
    { intros id. unfold updatable. split; intros (Ha & h & Hh & E & Hr); (split; [done|]).
      - apply elem_of_map in Hh as (x & -> & Hx). exists x. rewrite treat_one_id in E.
        split_and!; [done|done|]. unfold treat_one in Hr. by destruct (pystr_eqb _ _).
      - exists (treat_one u h). rewrite treat_one_id. split_and!; [by apply elem_of_map_1|done|].
        unfold treat_one. by destruct (pystr_eqb _ _). }
    specialize (IH (u_hypothesis_id u :: seen) (map (treat_one u) hs) Hnd' Hid').
    setoid_rewrite Hup in IH. simpl. rewrite NoDup_cons. setoid_rewrite elem_of_cons.
    assert (Hmap : u_hypothesis_id u ∉ map u_hypothesis_id us ->
      map (retreated us) (map (treat_one u) hs) = map (retreated (u :: us)) hs).
    { intros Hu. rewrite map_map. apply map_ext. intros h. by apply retreated_cons. }
    split.
    + intros (seen' & acc & (Hs & Hu & ->) & H).
      destruct (proj1 IH (ex_intro _ seen' H)) as (H1 & H2 & H3 & ->).
      assert (Hnu : u_hypothesis_id u ∉ map u_hypothesis_id us).
      { intros (x & E & Hx)%elem_of_map. apply (H2 x Hx). rewrite E. set_solver. }
      split_and!; [done|done| | |by apply Hmap]; intros x [-> | Hx]; try done.
      * specialize (H2 x Hx). set_solver.
      * by apply H3.
    + intros ((Hnu & H1) & H2 & H3 & ->).
      destruct (proj2 IH) as [seen' H].
      { split_and!; [done| | |by rewrite Hmap]; intros x Hx; [|apply H3; by right].
        rewrite elem_of_cons. intros [E|E]; [|by apply (H2 x); [by right|]].
        apply Hnu. rewrite <- E. by apply elem_of_map_1. }
      exists seen', (u_hypothesis_id u :: seen, map (treat_one u) hs).
      split; [split_and!; [apply H2; by left|apply H3; by left|done]|exact H].
Qed.

Lemma retreated_ok us h : hypothesis_ok h -> hypothesis_ok (retreated us h).
Proof.
  unfold retreated. destruct (find _ us); [|done]. rewrite !hypothesis_ok_spec.
  intros (? & ? & ? & ?). by split_and!.
Qed.

(** A batch of strategy updates is accepted exactly when no hypothesis is named twice and each
    one named exists, has completed a round and is not the active one; the result re-treats
    exactly those hypotheses and changes nothing else. *)
Theorem strategy_updates_exact (s s' : HypothesisState) (us : list HypothesisStrategyUpdate) :
  state_ok s ->
  apply_strategy_updates s us = Ok s' <->
  NoDup (map u_hypothesis_id us) /\
  (forall u, u ∈ us -> updatable (active_hypothesis_id s) (hypotheses s) (u_hypothesis_id u)) /\
  s' = s <| hypotheses := map (retreated us) (hypotheses s) |>.
Proof.
  intros Hok. pose proof Hok as (Hf & Hh & Hi)%state_ok_spec. rewrite Forall_forall in Hh.
  pose proof (updates_fold_exact (active_hypothesis_id s) us [] (hypotheses s)) as Hfold.
  assert (Hids : forall h, h ∈ hypotheses s -> hypothesis_identity h = true).
  { intros h Hin. by apply Hh, hypothesis_ok_spec in Hin as (_ & _ & _ & ?). }
  assert (Hvalid : (forall u, u ∈ us -> updatable (active_hypothesis_id s) (hypotheses s) (u_hypothesis_id u)) ->
    state_ok (s <| hypotheses := map (retreated us) (hypotheses s) |>)).
  { intros Hup. apply state_ok_spec. split_and!; [exact Hf| |].
    - simpl. rewrite Forall_forall. intros x (h & -> & Hin)%elem_of_map. by apply retreated_ok, Hh.
    - apply state_identity_spec in Hi as (H1 & H2 & H3). apply state_identity_spec. split_and!.
      + simpl. rewrite map_map. by rewrite (map_ext _ hypothesis_id) by apply retreated_id.
      + simpl. destruct (active_hypothesis_id s) as [id|] eqn:Ea; [|done].
        destruct H2 as (h & Hb & Hav). exists (retreated us h). split.
        * transitivity (option_map (retreated us) (by_id s id)); [apply by_id_map, retreated_id|by rewrite Hb].
        * unfold retreated. destruct (find _ us) as [u|] eqn:Eu; [|done]. exfalso.
          apply find_Some_elem in Eu as [Hu E%pystr_eqb_true].
          apply find_Some_elem in Hb as [_ Eh%pystr_eqb_true].
          destruct (Hup u Hu) as [Hna _]. apply Hna. congruence.
      + unfold all_rounds. simpl. rewrite flat_rounds_same by (intros; apply retreated_rounds). done. }
  unfold apply_strategy_updates. rewrite bind_Ok. split.
  - intros ([seen' hs'] & H & Hv).
    destruct (proj1 (Hfold hs' (valid_nodup s Hok) Hids) (ex_intro _ seen' H)) as (H1 & _ & H3 & ->).
    split_and!; [done|done|]. cbn [snd] in Hv. pose proof (Hvalid H3) as Hst. unfold state_ok in Hst.
    rewrite Hst in Hv. injection Hv as Hv. symmetry. exact Hv.
  - intros (H1 & H3 & ->).
    destruct (proj2 (Hfold (map (retreated us) (hypotheses s)) (valid_nodup s Hok) Hids)) as [seen' H].
    { split_and!; [done| |done|done]. by intros u _ ?%not_elem_of_nil. }
    exists (seen', map (retreated us) (hypotheses s)). split; [done|]. exact (Hvalid H3).
Qed.

(** Along any run the experiment revision never goes back. *)
Theorem revision_monotone (s s' : HypothesisState) :
  rtc transition s s' -> experiment_revision s <= experiment_revision s'.
Proof.
  intros H. induction H as [|s1 s2 s3 H12 _ IH]; [lia|].
  enough (experiment_revision s1 <= experiment_revision s2) by lia. clear IH.
  assert (Hadv : forall a ids b, validated_state (advanced a ids) = Ok b ->
    experiment_revision b = experiment_revision a + 1).
  { intros a ids b Hv. apply validated_ids in Hv as (_ & _ & ->). done. }
  destruct H12 as [p n pr pc H|h _ H|r ka _ _ H|H|us H|id H|space H].
  - unfold start_hypothesis in H. rewrite !guard_Ok in H. destruct H as (_ & _ & _ & H).
    apply bind_Ok in H as (u & Hu & H). apply apply_updates_ids in Hu as (_ & _ & _ & Hr).
    apply bind_Ok in H as (h & _ & H). apply bind_Ok in H as (u2 & [_ ->]%check_state_Ok & H).
    apply bind_Ok in H as (u3 & ->%advance_inv & Hv). apply Hadv in Hv. simpl in Hv. lia.
  - unfold update_active_hypothesis in H. destruct (active_hypothesis_id s1); [|done].
    apply guard_Ok in H as [_ H]. destruct (index_of _ _); [|done].
    apply validated_ids in H as (_ & _ & ->). simpl. lia.
  - unfold append_round in H. destruct (active_hypothesis s1); [|done].
    rewrite !guard_Ok in H. destruct H as (_ & _ & H). apply bind_Ok in H as (hp & _ & H).
    destruct (index_of _ _); [|done]. apply bind_Ok in H as (u & Hu & H).
    apply bind_Ok in H as (u2 & ->%advance_inv & Hv). apply Hadv in Hv.
    enough (experiment_revision u = experiment_revision s1) by lia.
    destruct ka; [by injection Hu as <-|by apply check_state_Ok in Hu as [_ ->]].
  - unfold finish_hypothesis in H. destruct (active_hypothesis_id s1); [|injection H as <-; lia].
    apply bind_Ok in H as (u & [_ ->]%check_state_Ok & H).
    apply bind_Ok in H as (u2 & ->%advance_inv & Hv). apply Hadv in Hv. simpl in Hv. lia.
  - apply apply_updates_ids in H as (_ & _ & _ & ->). lia.
  - unfold reopen_parked_hypothesis in H. destruct (by_id s1 id) as [x|]; [|done].
    destruct (strategy x); [injection H as <-; lia| |done].
    apply bind_Ok in H as (hs & _ & H). apply validated_ids in H as (_ & _ & ->). simpl. lia.
  - apply bind_Ok in H as (u & [_ ->]%check_state_Ok & H). apply bind_Ok in H as (r & Hr & H).
    apply bind_Ok in H as (u2 & H2 & H). apply validated_ids in H as (_ & _ & ->).
    assert (E : experiment_revision r = experiment_revision s1).
    { apply bind_Ok in Hr as (u & [_ ->]%check_state_Ok & (acc & _ & Hr)%bind_Ok).
      by apply validated_ids in Hr as (_ & _ & ->). }
    destruct (changed_hypotheses _ _); [injection H2 as <-; lia|].
    apply advance_inv in H2 as ->. simpl. lia.
Qed.

(** ** A concrete run *)

Definition sample_plan (id : pystr) (us : list HypothesisStrategyUpdate) : OrchestratorPlan :=
  mk_OrchestratorPlan id us (py "claim") [] [] [] [] [] [] [] (py "task") (py "criteria") false None [].

(** The first hypothesis of a run, then its only round: an official framework reading that beat
    its baseline. *)
Definition sample_space : MetricSpace := two_axes f_zero.
Definition measured_round (n : Z) (id : pystr) : RoundRecord :=
  (official_round n (row_of (f_of_Z 2) (f_of_Z 2)))
    <| r_hypothesis_id := Some id |> <| hypothesis_declared_outcome := Some (py "supported") |>
    <| perf_comparison := Some BETTER |>.

Definition get {A} (m : result A) (default : A) : A := match m with Ok a => a | Err _ => default end.

Definition opened : HypothesisState := get (adopt_metric_space initial_state sample_space) initial_state.
Definition planned : HypothesisState :=
  get (start_hypothesis opened (sample_plan (py " h1 ") []) 1 None (Some (py "c0"))) initial_state.
Definition closed : HypothesisState :=
  get (append_round planned (measured_round 1 (py "h1")) false) initial_state.

Lemma ok_get {A} (m : result A) default : is_ok m = true -> m = Ok (get m default).
Proof. by destruct m. Qed.

Lemma opened_reachable : reachable opened.
Proof. apply rtc_once. eapply T_adopt. apply ok_get. vm_compute. reflexivity. Qed.

Lemma planned_reachable : reachable planned.
Proof.
  eapply rtc_r; [exact opened_reachable|]. eapply T_start. apply ok_get. vm_compute. reflexivity.
Qed.

Lemma planned_no_rounds : rounds planned = [].
Proof. vm_compute. reflexivity. Qed.

Lemma measured_round_normal n id : review_normal (measured_round n id).
Proof. vm_compute. reflexivity. Qed.

Lemma closed_reachable : reachable closed.
Proof.
  eapply rtc_r; [exact planned_reachable|]. eapply T_append.
  - apply measured_round_normal.
  - intros x Hx. rewrite planned_no_rounds in Hx. by apply not_elem_of_nil in Hx.
  - apply ok_get. vm_compute. reflexivity.
Qed.

(** Abandonment is not final in the code: a later strategy update may park an abandoned
    hypothesis, and a parked one can be reopened, although [reopen_parked_hypothesis] refuses
    an abandoned one. *)
Theorem abandoned_can_return :
  exists s1 s2 s3 h,
    apply_strategy_updates closed [mk_HypothesisStrategyUpdate (py "h1") abandoned (py "no")] = Ok s1 /\
    is_ok (reopen_parked_hypothesis s1 (py "h1")) = false /\
    apply_strategy_updates s1 [mk_HypothesisStrategyUpdate (py "h1") parked (py "later")] = Ok s2 /\
    reopen_parked_hypothesis s2 (py "h1") = Ok s3 /\
    by_id s3 (py "h1") = Some h /\ strategy h = AVAILABLE.
Proof.
  do 4 eexists. split_and!; [vm_compute; reflexivity..].
Qed.

Lemma resume_is_noop_witness : adopt_metric_space closed (metrics closed) = Ok closed.
Proof. apply resume_is_noop. exact closed_reachable. Defined.

Lemma reachable_summaries_witness :
  length (hypotheses closed) = 1%nat /\
  forall h, h ∈ hypotheses closed ->
    evidence_of h = replay (metrics closed) [] (rounds closed) (hypothesis_id h) no_evidence.
Proof.
  split; [vm_compute; reflexivity|]. intros h Hh.
  exact (proj2 (proj2 (proj2 (reachable_summaries closed closed_reachable)) h Hh)).
Defined.

Lemma history_append_only_witness :
  rounds planned = [] /\ exists later, rounds closed = rounds planned ++ later.
Proof.
  split; [vm_compute; reflexivity|].
  apply history_append_only; [exact planned_reachable|]. apply rtc_once. eapply T_append.
  - apply (measured_round_normal 1 (py "h1")).
  - intros x Hx. rewrite planned_no_rounds in Hx. by apply not_elem_of_nil in Hx.
  - apply ok_get. vm_compute. reflexivity.
Defined.

Lemma adopt_rederives_witness :
  exists s', adopt_metric_space closed empty_space = Ok s' /\ rounds s' = rounds closed.
Proof.
  destruct (adopt_rederives closed empty_space) as (s' & H1 & _ & H2 & _).
  - vm_compute. reflexivity.
  - intros r Hr. assert (Hall : forallb measurable (rounds closed) = true) by (vm_compute; reflexivity).
    rewrite forallb_forall in Hall. apply Hall. by apply list_elem_of_In.
  - vm_compute. reflexivity.
  - exists s'. split; [exact H1|exact H2].
Defined.

Lemma append_round_exact_witness :
  exists a, appendable planned a (measured_round 1 (py "h1")) /\
    closed = appended planned a (measured_round 1 (py "h1")) false.
Proof.
  apply append_round_exact; [vm_compute; reflexivity|apply measured_round_normal|vm_compute; reflexivity].
Defined.

Lemma proven_needs_trusted_reading_witness :
  exists h, h ∈ hypotheses closed /\ resolution h = Some R_PROVEN /\
    exists r, last (h_rounds h) = Some r /\ perf_provenance r = Some framework.
Proof.
  destruct (by_id closed (py "h1")) as [h|] eqn:E; [|vm_compute in E; discriminate].
  exists h. pose proof (find_Some_elem _ _ _ E) as [Hh _].
  assert (Hr : resolution h = Some R_PROVEN) by (vm_compute in E; by injection E as <-).
  split; [exact Hh|]. split; [exact Hr|].
  destruct (proven_needs_trusted_reading closed h closed_reachable Hh Hr)
    as (r & Hl & _ & _ & _ & _ & Hp & _).
  exists r. split; [exact Hl|exact Hp].
Defined.

Lemma start_hypothesis_exact_witness :
  exists u, apply_strategy_updates opened [] = Ok u /\
    planned = started u (sample_plan (py " h1 ") []) 1 None (Some (py "c0")).
Proof.
  destruct (proj1 (start_hypothesis_exact opened planned (sample_plan (py " h1 ") []) 1 None (Some (py "c0"))
    ltac:(vm_compute; reflexivity) ltac:(vm_compute; reflexivity))) as (_ & _ & _ & _ & _ & H).
  - apply ok_get. vm_compute. reflexivity.
  - exact H.
Defined.

Lemma strategy_updates_exact_witness :
  is_ok (apply_strategy_updates closed [mk_HypothesisStrategyUpdate (py "h1") parked (py "later")]) = true /\
  NoDup (map u_hypothesis_id [mk_HypothesisStrategyUpdate (py "h1") parked (py "later")]).
Proof.
  split; [vm_compute; reflexivity|].
  eapply (proj1 (strategy_updates_exact closed
    (get (apply_strategy_updates closed [mk_HypothesisStrategyUpdate (py "h1") parked (py "later")]) closed)
    [mk_HypothesisStrategyUpdate (py "h1") parked (py "later")] ltac:(vm_compute; reflexivity))).
  apply ok_get. vm_compute. reflexivity.
Defined.

Lemma revision_monotone_witness : 0 <= experiment_revision closed.
Proof. apply (revision_monotone initial_state closed). exact closed_reachable. Defined.
