(* ===== verification/Policy.v ===== *)
(** The search policy (src/vibesys/hypothesis/{config,cadence,ending,results,search}.py): the
    run's budgets, the review and official-evaluation cadence, how a run ends, and the facade
    that plans, starts and closes rounds. *)
From S2P Require Import Prelude Floats Metrics Plan History State Notices Evidence Transitions.

(** ** Configuration *)

Record HypothesisConfig := mk_HypothesisConfig {
  max_rounds : Z;
  judge_every : Z;
  official_eval_every : Z;
  max_retries_per_round : Z;
  max_continuation_rounds : Z
}.

(** [__post_init__]. *)
Definition construct_config (c : HypothesisConfig) : result HypothesisConfig :=
  raise (ValueError "max_rounds must be positive" []) when max_rounds c <? 1 in
  raise (ValueError "judge_every must be positive" []) when judge_every c <? 1 in
  raise (ValueError "official_eval_every must be positive" []) when official_eval_every c <? 1 in
  raise (ValueError "max_retries_per_round must be positive" [])
    when max_retries_per_round c <? 1 in
  raise (ValueError "max_continuation_rounds must be non-negative" [])
    when max_continuation_rounds c <? 0 in
  Ok c.

(** ** Cadence *)

Definition continuation_outcome (o : HypothesisOutcome) : bool :=
  match o with CONTINUE | IMPLEMENTATION_FAILED | INCONCLUSIVE => true | _ => false end.

Definition continuation_requested (outcome : option HypothesisOutcome) (next_step : pystr) : bool :=
  match outcome with
  | Some o => continuation_outcome o && str_truthy (strip next_step)
  | None => false
  end.

Definition keeps_hypothesis_active (outcome : option HypothesisOutcome) (next_step : pystr)
  (continuation_rounds max_continuation_rounds : Z) : bool :=
  continuation_requested outcome next_step && (continuation_rounds <? max_continuation_rounds).

Definition candidate_evidence_fresh (metrics : gmap pystr float) (artifact : option pystr)
  (records : list RoundRecord) : bool :=
  if bool_decide (metrics = ∅) then false
  else if negb (opt_str_truthy artifact) then true
  else
    negb (existsb (fun r =>
        bool_decide (str_or (candidate_evaluation_artifact r) (evaluation_artifact r) = artifact)
        && py_eq (candidate_metrics r) metrics) records).

Definition review_due (c : HypothesisConfig) (round_number : Z) (outcome : HypothesisOutcome)
  (candidate_evidence_is_fresh review_started requests_continuation pareto_frontier_claim
   revalidation_required : bool) : bool :=
  let due :=
    (round_number =? max_rounds c) || (round_number mod judge_every c =? 0)
    || bool_decide (outcome = SUPPORTED) || bool_decide (outcome = NOMINATED)
    || candidate_evidence_is_fresh in
  let due := if review_started && negb requests_continuation then true else due in
  if review_started && negb (round_number =? max_rounds c) && requests_continuation
     && negb pareto_frontier_claim && negb revalidation_required
  then false else due.

Definition official_due (c : HypothesisConfig) (records : list RoundRecord) (round_number : Z)
  (requested candidate_ready : bool) : option pystr :=
  if round_number =? max_rounds c then Some (py "final_round")
  else if negb candidate_ready then None
  else if requested then Some (py "orchestrator_request")
  else if official_eval_every c <=? Z.of_nat (provisional_candidates_since_official records) + 1
  then Some (py "cadence")
  else None.

(** ** Endings *)

Inductive RunEnding := ADOPTED | NO_IMPROVEMENT | NO_TRUSTED_RESULT.

Definition succeeded (e : RunEnding) : bool :=
  match e with ADOPTED | NO_IMPROVEMENT => true | NO_TRUSTED_RESULT => false end.

Definition ending_of (adopted trusted_reading : bool) : RunEnding :=
  if adopted then ADOPTED else if trusted_reading then NO_IMPROVEMENT else NO_TRUSTED_RESULT.

Definition has_trusted_reading (r : RoundRecord) : bool :=
  passed r && official_evaluation r && negb (profile_skipped r)
  && trusted_perf_provenance (perf_provenance r)
  && (is_some (perf_metric r) || negb (bool_decide (r_metrics r = ∅))).

Definition derive_ending (records : list RoundRecord) (space : MetricSpace) : RunEnding :=
  ending_of (is_some (select_final_candidate records space)) (existsb has_trusted_reading records).

(** ** Results *)

Record PlanningContext := mk_PlanningContext {
  ctx_round_number : Z;
  ctx_records : list RoundRecord;
  ctx_carry : CarryOver;
  ctx_plateau_warning : option pystr;
  ctx_provisional_candidates : nat
}.

Inductive NextRoundDecision :=
| NewHypothesis (default_parent_round : option Z) (context : PlanningContext)
| Continue (hypothesis : Hypothesis_) (context : PlanningContext)
| Finished.

Record AttemptBudget := mk_AttemptBudget { retry : Z; max_retries : Z }.
Definition remaining (b : AttemptBudget) : Z := Z.max (max_retries b - retry b) 0.
Definition exhausted (b : AttemptBudget) : bool := max_retries b <? retry b.

Record RollbackTarget := mk_RollbackTarget {
  rb_commit : option pystr;
  rb_failed_child_round : option Z;
  rb_resolved : bool
}.

Record StartedHypothesis := mk_StartedHypothesis {
  sh_state : HypothesisState;
  sh_hypothesis : Hypothesis_;
  sh_rollback : option RollbackTarget
}.

Record ClosedRound := mk_ClosedRound {
  cr_state : HypothesisState;
  cr_next_active : option Hypothesis_;
  cr_carry : CarryOver;
  cr_exhaustion_feedback : option pystr
}.

(** ** The facade *)

Definition resume (s : option HypothesisState) (space : MetricSpace) : result HypothesisState :=
  adopt_metric_space (from_option id initial_state s) space.

Definition initial_carry (records : list RoundRecord) : CarryOver :=
  mk_CarryOver (terminal_workspace_notice records) None.

Definition default_parent_round (round_number : Z) : option Z :=
  if 1 <? round_number then Some (round_number - 1) else None.

Definition next_round (c : HypothesisConfig) (s : HypothesisState) (round_number : Z)
  (records : list RoundRecord) (carry : CarryOver) : NextRoundDecision :=
  if max_rounds c <? round_number then Finished
  else
    let context :=
      mk_PlanningContext round_number records carry (detect_plateau records)
        (provisional_candidates_since_official records) in
    match active_hypothesis s with
    | Some active => Continue active context
    | None => NewHypothesis (default_parent_round round_number) context
    end.

(** The parent round, parent commit and rollback target [start] resolves from the plan. *)
Definition start_parent_round (revert_to_round : option Z) (round_number : Z) : option Z :=
  match revert_to_round with
  | None => default_parent_round round_number
  | Some n => if n =? 0 then None else Some n
  end.

Definition start_parent (records : list RoundRecord) (parent_round : option Z)
  : option RoundRecord :=
  find_last (fun r => bool_decide (Some (round_number r) = parent_round)) records.

Definition start_parent_commit (revert_to_round : option Z) (parent : option RoundRecord)
  (current_commit input_baseline : option pystr) : option pystr :=
  if bool_decide (revert_to_round = Some 0) then str_or input_baseline current_commit
  else
    match parent with
    | Some p => match commit p with Some c => Some c | None => current_commit end
    | None => current_commit
    end.

Definition start_rollback (revert_to_round : option Z) (parent : option RoundRecord)
  (records : list RoundRecord) (input_baseline : option pystr) : option RollbackTarget :=
  match revert_to_round with
  | None => None
  | Some n =>
      if n =? 0 then Some (mk_RollbackTarget input_baseline None (is_some input_baseline))
      else
        match parent with
        | Some p =>
            if opt_str_truthy (commit p) then
              let '(commit, failed_child) :=
                resolve_rollback_commit (mk_RoundHistory records) p failed_outcome in
              Some (mk_RollbackTarget commit failed_child (is_some commit))
            else Some (mk_RollbackTarget None None false)
        | None => Some (mk_RollbackTarget None None false)
        end
  end.

Definition start (s : HypothesisState) (p : OrchestratorPlan) (round_number : Z)
  (current_commit : option pystr) (records : list RoundRecord) (input_baseline : option pystr)
  : result StartedHypothesis :=
  let revert := plan_revert_to_round p in
  let parent_round := start_parent_round revert round_number in
  let parent := start_parent records parent_round in
  let parent_commit := start_parent_commit revert parent current_commit input_baseline in
  let rollback := start_rollback revert parent records input_baseline in
  let* new_state := start_hypothesis s p round_number parent_round parent_commit in
  match active_hypothesis new_state with
  | None => Err AssertionError
  | Some h => Ok (mk_StartedHypothesis new_state h rollback)
  end.

Definition attempts_budget (c : HypothesisConfig) (retry : Z) : AttemptBudget :=
  mk_AttemptBudget retry (max_retries_per_round c).

(** Assignments to the fields of a cloned hypothesis. *)
Definition set_feedback (h : Hypothesis_) (v : option pystr) : result Hypothesis_ :=
  check_hypothesis (h <| feedback := v |>).
Definition set_next_step (h : Hypothesis_) (v : option pystr) : result Hypothesis_ :=
  check_hypothesis (h <| next_step := v |>).
Definition count_continuation (h : Hypothesis_) : result Hypothesis_ :=
  raise (ValidationError "continuation_rounds") when negb (0 <=? continuation_rounds h + 1) in
  check_hypothesis (h <| continuation_rounds := continuation_rounds h + 1 |>).

(** [_next_active]. *)
Definition next_active (h : Hypothesis_)
  (keeps_active passed reviewed requests_continuation has_implementation : bool)
  (next_step feedback : option pystr) (max_continuation_rounds : Z)
  : result (option Hypothesis_) :=
  if keeps_active then
    let* h := set_feedback h (if reviewed && negb passed then feedback else None) in
    let* h := set_next_step h next_step in
    let* h := count_continuation h in
    Ok (Some h)
  else if passed then Ok None
  else if reviewed && (continuation_rounds h <? max_continuation_rounds) then
    let* h := set_feedback h feedback in
    let* h := set_next_step h (if requests_continuation then next_step else None) in
    let* h := count_continuation h in
    Ok (Some h)
  else if reviewed || has_implementation then Ok None
  else
    let* h := set_feedback h None in
    let* h := set_next_step h next_step in
    Ok (Some h).

(** [_carry_over]: [feedback or ""] goes back to the implementer of an exhausted round. *)
Definition carry_over (passed_ reviewed_ : bool) (r : RoundRecord) (all_records : list RoundRecord)
  (max_retries : Z) (feedback : option pystr)
  (terminal_needs_parent_choice keeps_active : bool) : CarryOver * option pystr :=
  if negb passed_ && reviewed_ then
    (mk_CarryOver None (Some (mk_ExhaustionNotice (round_number r) max_retries feedback)),
     Some (from_option id [] feedback))
  else if passed_ then
    (mk_CarryOver
       (if terminal_needs_parent_choice then terminal_workspace_notice all_records
        else if official_evaluation r && bool_decide (candidate_retained r = Some false)
        then Some (OfficialCandidateNotRetained (round_number r) (perf_metric r) (perf_unit r))
        else None) None, None)
  else
    (mk_CarryOver (if keeps_active then None else terminal_workspace_notice all_records) None, None).

Definition close_round (c : HypothesisConfig) (s : HypothesisState) (h : Hypothesis_)
  (r : RoundRecord) (records : list RoundRecord) (passed reviewed : bool)
  (feedback : option pystr) (keeps_active requests_continuation : bool) (next_step : option pystr)
  (terminal_needs_parent_choice has_implementation : bool) : result ClosedRound :=
  let* next := next_active h keeps_active passed reviewed requests_continuation has_implementation
    next_step feedback (max_continuation_rounds c) in
  let* updated :=
    match next with Some n => update_active_hypothesis s n | None => Ok s end in
  let* updated := append_round updated r (is_some next) in
  let '(carry, exhaustion_feedback) :=
    carry_over passed reviewed r (records ++ [r]) (max_retries_per_round c) feedback
      terminal_needs_parent_choice keeps_active in
  Ok (mk_ClosedRound updated next carry exhaustion_feedback).

Definition validate_updates (s : HypothesisState) (updates : list HypothesisStrategyUpdate)
  : result unit :=
  let* _ := apply_strategy_updates s updates in Ok tt.

(** The remaining methods of the facade, each one call. *)
Definition initial : HypothesisState := initial_state.
Definition finish (s : HypothesisState) : result HypothesisState := finish_hypothesis s.
Definition update_active (s : HypothesisState) (h : Hypothesis_) : result HypothesisState :=
  update_active_hypothesis s h.
Definition frontier (records : list RoundRecord) (space : MetricSpace) : list RoundRecord :=
  pareto_frontier_records records space.
Definition best (records : list RoundRecord) (space : MetricSpace) : option RoundRecord :=
  select_final_candidate records space.
Definition pareto_conflict (disposition : CandidateDisposition) (metrics : gmap pystr float)
  (records : list RoundRecord) (space : MetricSpace) : option ArchiveConflict :=
  pareto_archive_conflict disposition metrics records space.
Definition archive_view (records : list RoundRecord) (space : MetricSpace) : ParetoArchiveView :=
  pareto_archive_view records space.
Definition delta_reason (h : Hypothesis_) : option PerfDeltaReason := measurement_delta_reason h.

(** ** Helper lemmas *)

Lemma config_ok c : construct_config c = Ok c <->
  1 <= max_rounds c /\ 1 <= judge_every c /\ 1 <= official_eval_every c /\
  1 <= max_retries_per_round c /\ 0 <= max_continuation_rounds c.
Proof. unfold construct_config. rewrite !guard_Ok, !Z.ltb_ge. tauto. Qed.

Lemma provisional_snoc records r :
  provisional_candidates_since_official (records ++ [r]) =
  if official_evaluation r then 0%nat
  else (provisional_candidates_since_official records + (if provisional_candidate r then 1 else 0))%nat.
Proof.
  unfold provisional_candidates_since_official. rewrite rev_app_distr. simpl.
  destruct (official_evaluation r); [done|].
  assert (H : forall l n, provisional_loop l n = (provisional_loop l 0 + n)%nat).
  { induction l as [|x l IH]; intros n; simpl; [done|]. destruct (official_evaluation x); [done|].
    rewrite IH. rewrite (IH (if provisional_candidate x then 1%nat else 0%nat)).
    destruct (provisional_candidate x); lia. }
  apply H.
Qed.

(** What the facade may change on the active hypothesis: its restart checkpoint. *)
Record checkpoint (h h' : Hypothesis_) : Prop := {
  cp_id : hypothesis_id h' = hypothesis_id h;
  cp_evidence : evidence_of h' = evidence_of h;
  cp_strategy : strategy h' = strategy h;
  cp_ok : hypothesis_ok h -> hypothesis_ok h'
}.

Lemma checkpoint_refl h : checkpoint h h.
Proof. by split. Qed.

Lemma checkpoint_trans h1 h2 h3 : checkpoint h1 h2 -> checkpoint h2 h3 -> checkpoint h1 h3.
Proof. intros [A1 B1 C1 D1] [A2 B2 C2 D2]. split; [congruence..|auto]. Qed.

Lemma ok_identity h : hypothesis_ok h -> hypothesis_identity h = true.
Proof. by intros (_ & _ & _ & ?)%hypothesis_ok_spec. Qed.

Lemma set_feedback_ok h v :
  hypothesis_ok h -> set_feedback h v = Ok (h <| feedback := v |>) /\ checkpoint h (h <| feedback := v |>).
Proof.
  intros Hok. split; [apply check_ok; exact (ok_identity h Hok)|]. split; try done.
  by rewrite !hypothesis_ok_spec.
Qed.

Lemma set_next_step_ok h v :
  hypothesis_ok h -> set_next_step h v = Ok (h <| next_step := v |>) /\ checkpoint h (h <| next_step := v |>).
Proof.
  intros Hok. split; [apply check_ok; exact (ok_identity h Hok)|]. split; try done.
  by rewrite !hypothesis_ok_spec.
Qed.

Lemma continuation_nonneg h : hypothesis_ok h -> 0 <= continuation_rounds h.
Proof.
  intros (_ & Hf & _)%hypothesis_ok_spec. unfold hypothesis_fields in Hf.
  rewrite !andb_true_iff in Hf. apply Z.leb_le. tauto.
Qed.

Lemma count_continuation_ok h :
  hypothesis_ok h ->
  count_continuation h = Ok (h <| continuation_rounds := continuation_rounds h + 1 |>) /\
  checkpoint h (h <| continuation_rounds := continuation_rounds h + 1 |>).
Proof.
  intros Hok. pose proof (continuation_nonneg h Hok) as Hn.
  assert (Hle : (0 <=? continuation_rounds h + 1) = true) by (apply Z.leb_le; lia).
  split.
  - unfold count_continuation. rewrite Hle. apply check_ok. exact (ok_identity h Hok).
  - split; try done. rewrite !hypothesis_ok_spec. intros (Hp & Hf & Hr & Hi). split_and!; try done.
    unfold hypothesis_fields in *. simpl. rewrite !andb_true_iff in *. tauto.
Qed.

(** [_next_active] on a valid hypothesis never fails and only writes the checkpoint. *)
Definition continues (h : Hypothesis_) (keeps_active passed reviewed has_implementation : bool)
  (max_continuation : Z) : bool :=
  keeps_active
  || (negb passed && ((reviewed && (continuation_rounds h <? max_continuation))
                      || (negb reviewed && negb has_implementation))).

Lemma next_active_spec h keeps passed_ reviewed_ requests impl step fb m :
  hypothesis_ok h ->
  exists out, next_active h keeps passed_ reviewed_ requests impl step fb m = Ok out /\
    match out with
    | Some h' =>
        continues h keeps passed_ reviewed_ impl m = true /\ checkpoint h h' /\
        continuation_rounds h' = continuation_rounds h + (if keeps || reviewed_ then 1 else 0)
    | None => continues h keeps passed_ reviewed_ impl m = false
    end.
Proof.
  intros Hok. unfold next_active, continues.
  assert (Hthree : forall v w, exists h', (let* h := set_feedback h v in
      let* h := set_next_step h w in let* h := count_continuation h in Ok (Some h)) = Ok (Some h') /\
      checkpoint h h' /\ continuation_rounds h' = continuation_rounds h + 1).
  { intros v w. destruct (set_feedback_ok h v Hok) as [-> C1]. cbn [bind].
    destruct (set_next_step_ok _ w (cp_ok _ _ C1 Hok)) as [-> C2]. cbn [bind].
    pose proof (checkpoint_trans _ _ _ C1 C2) as C12.
    destruct (count_continuation_ok _ (cp_ok _ _ C12 Hok)) as [-> C3]. cbn [bind].
    eexists. split; [done|]. split; [by eapply checkpoint_trans|done]. }
  destruct keeps; simpl.
  - destruct (Hthree (if reviewed_ && negb passed_ then fb else None) step) as (h' & E & C & N).
    exists (Some h'). by split_and!.
  - destruct passed_; simpl; [by eexists|].
    destruct reviewed_; simpl.
    + destruct (continuation_rounds h <? m); simpl; [|by eexists].
      destruct (Hthree fb (if requests then step else None)) as (h' & E & C & N).
      exists (Some h'). by split_and!.
    + destruct impl; simpl; [by eexists|].
      destruct (set_feedback_ok h None Hok) as [-> C1]. cbn [bind].
      destruct (set_next_step_ok _ step (cp_ok _ _ C1 Hok)) as [-> C2]. cbn [bind].
      eexists. split; [done|]. split; [done|]. split; [by eapply checkpoint_trans|simpl; lia].
Qed.

(** Checkpointing the active hypothesis of a valid state. *)
Lemma update_active_ok s a h' :
  state_ok s -> active_hypothesis s = Some a -> checkpoint a h' ->
  exists s', update_active_hypothesis s h' = Ok s' /\ state_ok s' /\
    active_hypothesis s' = Some h' /\ rounds s' = rounds s /\ metrics s' = metrics s.
Proof.
  intros Hok Ha C. destruct (active_lookup s a Ha) as (Haid & i & Hi & Hl).
  assert (Hain : a ∈ hypotheses s) by by eapply list_elem_of_lookup_2.
  set (f := fun x => if pystr_eqb (hypothesis_id x) (hypothesis_id a) then h' else x).
  assert (Hins : <[i := h']> (hypotheses s) = map f (hypotheses s)).
  { apply (insert_by_id (fun _ => h')); [by apply valid_nodup|done]. }
  assert (Hf : forall x, x ∈ hypotheses s -> f x = x \/ (x = a /\ f x = h')).
  { intros x Hx. unfold f. destruct (pystr_eqb _ _) eqn:E; [|by left]. right. split; [|done].
    apply pystr_eqb_true in E. by apply (NoDup_map_inj hypothesis_id (hypotheses s)); [apply valid_nodup|..]. }
  assert (Hrounds : forall x, x ∈ hypotheses s -> h_rounds (f x) = h_rounds x).
  { intros x Hx. destruct (Hf x Hx) as [->|[-> ->]]; [done|]. pose proof (cp_evidence _ _ C) as E. by injection E. }
  assert (Hfid : forall x, hypothesis_id (f x) = hypothesis_id x).
  { intros x. unfold f. destruct (pystr_eqb _ _) eqn:E; [|done]. apply pystr_eqb_true in E.
    rewrite E. apply C. }
  set (s' := s <| hypotheses := map f (hypotheses s) |>).
  assert (Hby : by_id s' (hypothesis_id a) = Some h').
  { transitivity (option_map f (by_id s (hypothesis_id a))); [by apply by_id_map|].
    unfold active_hypothesis in Ha. rewrite Haid in Ha. rewrite Ha. simpl. unfold f. by rewrite pystr_eqb_refl. }
  pose proof Hok as (Hfs & Hh & (H1 & H2 & H3)%state_identity_spec)%state_ok_spec.
  rewrite Forall_forall in Hh.
  assert (Hall : all_rounds s' = all_rounds s) by by apply flat_rounds_same.
  assert (Hok' : state_ok s').
  { apply state_ok_spec. split_and!; [exact Hfs| |].
    - simpl. rewrite Forall_forall. intros y (x & -> & Hx)%elem_of_map.
      destruct (Hf x Hx) as [->|[-> ->]]; [by apply Hh|]. by apply C, Hh.
    - apply state_identity_spec. split_and!.
      + simpl. rewrite map_map. by rewrite (map_ext _ hypothesis_id).
      + change (active_hypothesis_id s') with (active_hypothesis_id s). rewrite Haid. exists h'.
        split; [done|]. rewrite (cp_strategy _ _ C). rewrite Haid in H2. destruct H2 as (x & Hx & Hs).
        unfold active_hypothesis in Ha. rewrite Haid, Hx in Ha. congruence.
      + by rewrite Hall. }
  exists s'. split_and!; [|done| |by unfold rounds; rewrite Hall|done].
  - unfold update_active_hypothesis. rewrite Haid, (cp_id _ _ C), pystr_eqb_refl. cbn [negb].
    rewrite Hi, Hins. exact Hok'.
  - unfold active_hypothesis. change (active_hypothesis_id s') with (active_hypothesis_id s).
    by rewrite Haid.
Qed.

(** ** Properties *)

(** Review cadence: a review is due exactly when it is the final or a cadence round, the
    outcome is supportive, the candidate evidence is fresh, or a started review must finish,
    unless a started review continues the same hypothesis with nothing new to judge; and the
    final round is always reviewed. *)
Theorem review_due_exact (c : HypothesisConfig) (n : Z) (o : HypothesisOutcome)
  (fresh begun requests claim revalidation : bool) :
  construct_config c = Ok c ->
  (review_due c n o fresh begun requests claim revalidation = true <->
     (n = max_rounds c \/ (judge_every c | n) \/ o = SUPPORTED \/ o = NOMINATED \/ fresh = true \/
      (begun = true /\ requests = false)) /\
     ~ (begun = true /\ n <> max_rounds c /\ requests = true /\ claim = false /\
        revalidation = false)) /\
  (n = max_rounds c -> review_due c n o fresh begun requests claim revalidation = true).
Proof.
  intros (_ & Hj & _)%config_ok. rewrite <- Z.mod_divide by lia. unfold review_due.
  destruct (Z.eqb_spec n (max_rounds c)) as [E|E], (Z.eqb_spec (n mod judge_every c) 0) as [E'|E'],
    fresh, begun, requests, claim, revalidation; simpl;
    destruct (decide (o = SUPPORTED)), (decide (o = NOMINATED));
    rewrite ?bool_decide_true, ?bool_decide_false by done; simpl; naive_solver.
Qed.

(** A history the schedule produced: an accepted candidate closed its round without an official
    evaluation only when none was due. *)
Inductive scheduled (c : HypothesisConfig) : list RoundRecord -> Prop :=
| scheduled_nil : scheduled c []
| scheduled_snoc records r requested :
    scheduled c records ->
    (provisional_candidate r = true -> official_evaluation r = false ->
     official_due c records (round_number r) requested true = None) ->
    scheduled c (records ++ [r]).

(** The official schedule bounds how far acceptance runs ahead of measurement: in every
    scheduled history fewer than [official_eval_every] accepted candidates wait for an official
    evaluation, and none is accepted without one in the final round. *)
Theorem official_schedule_bounded (c : HypothesisConfig) (records : list RoundRecord) :
  construct_config c = Ok c -> scheduled c records ->
  Z.of_nat (provisional_candidates_since_official records) < official_eval_every c /\
  forall r, r ∈ records -> round_number r = max_rounds c -> provisional_candidate r = true ->
    official_evaluation r = true.
Proof.
  intros (_ & _ & He & _)%config_ok. induction 1 as [|records r requested Hs [IH1 IH2] Hdue].
  - split; [change (provisional_candidates_since_official []) with 0%nat; lia|]. by intros r ?%not_elem_of_nil.
  - rewrite provisional_snoc. unfold official_due in Hdue. split.
    + destruct (official_evaluation r); [lia|]. destruct (provisional_candidate r); [|lia].
      specialize (Hdue eq_refl eq_refl). destruct (_ =? _); [done|]. simpl in Hdue.
      destruct requested; [done|]. destruct (_ <=? _) eqn:E; [done|]. apply Z.leb_gt in E. lia.
    + intros x [Hx| ->]%elem_of_snoc Hn Hp; [by apply IH2|].
      destruct (official_evaluation r); [done|]. specialize (Hdue Hp eq_refl).
      by rewrite (proj2 (Z.eqb_eq _ _) Hn) in Hdue.
Qed.

(** A successful ending means something was measured: the operator holds a passed official
    round the framework measured itself; and without objective axes ADOPTED means exactly that
    some trusted, reviewed and retained record exists. *)
Lemma ending_sound (records : list RoundRecord) (space : MetricSpace) :
  (succeeded (derive_ending records space) = true ->
     exists r, r ∈ records /\ passed r = true /\ official_evaluation r = true /\
       perf_provenance r = Some framework) /\
  (objectives space = [] ->
     derive_ending records space = ADOPTED <->
     exists r, r ∈ records /\ trusted_final space r = true) /\
  (derive_ending records space = NO_IMPROVEMENT ->
     select_final_candidate records space = None /\
     exists r, r ∈ records /\ has_trusted_reading r = true).
Proof.
  assert (Hsel : forall r, select_final_candidate records space = Some r ->
    r ∈ records /\ trusted_final space r = true).
  { intros r. unfold select_final_candidate. destruct (primary space) as [p|].
    - intros [H _]%best_elem. apply elem_of_filter in H as [H _]. by apply elem_of_newest_first.
    - intros [H _]%best_elem. by apply elem_of_newest_first. }
  assert (Hread : existsb has_trusted_reading records = true ->
    exists r, r ∈ records /\ has_trusted_reading r = true).
  { intros (r & Hr%list_elem_of_In & H)%existsb_exists. eauto. }
  unfold derive_ending, ending_of. split_and!.
  - destruct (select_final_candidate records space) as [r|]; simpl.
    + intros _. destruct (Hsel r eq_refl) as [Hr Ht]. exists r. unfold trusted_final in Ht.
      rewrite !andb_true_iff, trusted_perf_provenance_spec in Ht. split_and!; tauto.
    + destruct (existsb _ _); [|done]. intros _. destruct (Hread eq_refl) as (r & Hr & H).
      exists r. unfold has_trusted_reading in H.
      rewrite !andb_true_iff, trusted_perf_provenance_spec in H. split_and!; tauto.
  - intros Hobj. destruct (select_final_candidate records space) as [r|] eqn:E; simpl.
    + split; [|done]. intros _. exists r. by apply Hsel.
    + split; [by destruct (existsb _ _)|]. intros (r & Hr & Ht). exfalso.
      unfold select_final_candidate, primary in E. rewrite Hobj in E. simpl in E.
      rewrite best_None in E. specialize (E r). rewrite elem_of_newest_first in E.
      specialize (E (conj Hr Ht)). unfold trusted_final in Ht. rewrite Hobj in Ht.
      rewrite !andb_true_iff in Ht. destruct Ht as [_ Ht]. unfold candidate_reading in E.
      destruct (headline_measurement r) as [m|]; [|done].
      by destruct (direction space (Some m)).
  - destruct (select_final_candidate records space) as [r|]; [done|]. simpl.
    destruct (existsb _ _); [|done]. intros _. split; [done|]. by apply Hread.
Qed.

(** Continuation is bounded: when the implementer's lease is granted by
    [keeps_hypothesis_active], a reviewed or leased round that keeps its hypothesis active raises
    the continuation count by one and never past [max_continuation_rounds]; and the only other
    way to stay active is an unreviewed round that produced no implementation. *)
Theorem continuation_bounded (h : Hypothesis_) (outcome : option HypothesisOutcome)
  (lease : pystr) (passed reviewed requests impl : bool) (step fb : option pystr) (m : Z) :
  hypothesis_ok h ->
  let keeps := keeps_hypothesis_active outcome lease (continuation_rounds h) m in
  exists out, next_active h keeps passed reviewed requests impl step fb m = Ok out /\
    match out with
    | Some h' =>
        evidence_of h' = evidence_of h /\
        (continuation_rounds h' = continuation_rounds h + 1 /\ continuation_rounds h' <= m \/
         continuation_rounds h' = continuation_rounds h /\ keeps = false /\ passed = false /\
         reviewed = false /\ impl = false)
    | None => keeps = false
    end.
Proof.
  intros Hok keeps. destruct (next_active_spec h keeps passed reviewed requests impl step fb m Hok)
    as (out & E & H). exists out. split; [done|].
  assert (Hk : keeps = true -> continuation_rounds h < m).
  { unfold keeps, keeps_hypothesis_active. rewrite andb_true_iff, Z.ltb_lt. tauto. }
  destruct out as [h'|]; [|unfold continues in H; by destruct keeps].
  destruct H as (Hc & C & N). split; [by apply C|]. unfold continues in Hc.
  destruct keeps; simpl in *; [left; specialize (Hk eq_refl); lia|].
  destruct passed, reviewed; simpl in *; try done.
  - left. rewrite orb_false_r in Hc. apply Z.ltb_lt in Hc. lia.
  - right. destruct impl; [done|]. split_and!; (done || lia).
Qed.

Lemma close_round_ok (c : HypothesisConfig) (s : HypothesisState) (h : Hypothesis_)
  (r : RoundRecord) (records : list RoundRecord) (passed reviewed : bool) (fb : option pystr)
  (keeps requests : bool) (step : option pystr) (needs_parent impl : bool) :
  state_ok s -> appendable s h r -> (forall x, x ∈ rounds s -> round_number x < round_number r) ->
  exists out,
    close_round c s h r records passed reviewed fb keeps requests step needs_parent impl = Ok out /\
    active_hypothesis_id (cr_state out)
    = (if continues h keeps passed reviewed impl (max_continuation_rounds c)
       then Some (hypothesis_id h) else None) /\
    rounds (cr_state out) = rounds s ++ [r] /\ rtc transition s (cr_state out).
Proof.
  intros Hok Hap Hnew. pose proof Hap as (Ha & Ho & Hlt & Hne).
  destruct (active_lookup s h Ha) as (Haid & i & Hi & Hl).
  assert (Hh : hypothesis_ok h) by (eapply (valid_hypothesis s Hok); by eapply list_elem_of_lookup_2).
  destruct (next_active_spec h keeps passed reviewed requests impl step fb (max_continuation_rounds c) Hh)
    as (out & E & Hout).
  assert (Hstep : exists u a, (match out with Some n => update_active_hypothesis s n | None => Ok s end) = Ok u /\
    state_ok u /\ appendable u a r /\ hypothesis_id a = hypothesis_id h /\ rounds u = rounds s /\
    rtc transition s u).
  { destruct out as [n|]; [|exists s, h; by split_and!].
    destruct Hout as (_ & C & _). destruct (update_active_ok s h n Hok Ha C) as (u & Hu & Huok & Hact & Hr & _).
    assert (Hnr : h_rounds n = h_rounds h) by (pose proof (cp_evidence _ _ C) as Ev; by injection Ev).
    exists u, n. split_and!; [done|done| |apply C|done|].
    - split; [done|]. rewrite (cp_id _ _ C), Hnr, Hr. by split_and!; try apply Ho.
    - apply rtc_once. eapply T_checkpoint; [|exact Hu]. intros a Ha'.
      rewrite Ha in Ha'. injection Ha' as <-. apply C. }
  destruct Hstep as (u & a & Hu & Huok & Hapu & Hid & Hr & Hrtc).
  pose proof (append_eq u a r (is_some out) Huok Hapu) as Happ.
  unfold close_round. rewrite E. cbn [bind]. rewrite Hu. cbn [bind]. rewrite Happ. cbn [bind].
  destruct (carry_over _ _ _ _ _ _ _ _) as [carry ef]. eexists. split; [done|]. cbn [cr_state].
  split_and!.
  - unfold appended. simpl. rewrite Hid. destruct out; simpl; [by destruct Hout as [-> _]|by rewrite Hout].
  - apply rounds_of_perm; [|by apply sorted_snoc; [apply rounds_sorted|]].
    rewrite <- Hr. destruct Hapu as (Hua & Huo & _). destruct (active_lookup u a Hua) as (_ & j & _ & Hj).
    rewrite rounds_perm. unfold appended. rewrite advanced_rounds. unfold all_rounds. simpl.
    rewrite <- (absorb_insert u j a r) by (done || by destruct Huo). by rewrite (flat_insert _ _ a _ r).
  - eapply rtc_r; [exact Hrtc|]. eapply T_append; [by destruct Hapu as (_ & (_ & ? & _) & _)| |exact Happ].
    by rewrite Hr.
Qed.

(** Closing a round never fails on a valid state when its record may be appended to the
    active hypothesis, whatever the policy decided; the round joins the history, the hypothesis
    stays active exactly when the policy continues it, and the result is reached by ordinary
    transitions. *)
Theorem close_round_total (c : HypothesisConfig) (s : HypothesisState) (h : Hypothesis_)
  (r : RoundRecord) (records : list RoundRecord) (passed reviewed : bool) (fb : option pystr)
  (keeps requests : bool) (step : option pystr) (needs_parent impl : bool) :
  state_ok s -> appendable s h r -> (forall x, x ∈ rounds s -> round_number x < round_number r) ->
  exists out,
    close_round c s h r records passed reviewed fb keeps requests step needs_parent impl = Ok out /\
    active_hypothesis_id (cr_state out)
    = (if continues h keeps passed reviewed impl (max_continuation_rounds c)
       then Some (hypothesis_id h) else None) /\
    rounds (cr_state out) = rounds s ++ [r] /\ rtc transition s (cr_state out).
Proof. apply close_round_ok. Qed.

(** Where a started hypothesis begins: round 0 of a requested revert is the input
    implementation, with no parent round and the input baseline as its base; another round is
    its own parent, at that round's recorded commit; and without a revert the parent is the
    previous round. The rollback target is resolved exactly when there is a commit to check
    out, and absent exactly when no revert was requested. *)
Theorem start_parentage (s : HypothesisState) (p : OrchestratorPlan) (n : Z)
  (current : option pystr) (records : list RoundRecord) (baseline : option pystr)
  (out : StartedHypothesis) :
  state_ok s -> plan_wf p -> start s p n current records baseline = Ok out ->
  active_hypothesis (sh_state out) = Some (sh_hypothesis out) /\
  started_round (sh_hypothesis out) = n /\ h_rounds (sh_hypothesis out) = [] /\
  (sh_rollback out = None <-> plan_revert_to_round p = None) /\
  (forall rb, sh_rollback out = Some rb -> rb_resolved rb = is_some (rb_commit rb)) /\
  match plan_revert_to_round p with
  | None => parent_round (sh_hypothesis out) = if 1 <? n then Some (n - 1) else None
  | Some 0 => parent_round (sh_hypothesis out) = None /\
      parent_commit (sh_hypothesis out) = str_or baseline current
  | Some k => parent_round (sh_hypothesis out) = Some k /\
      forall r c, latest_such (fun r => round_number r =? k) records r -> commit r = Some c ->
        parent_commit (sh_hypothesis out) = Some c
  end.
Proof.
  intros Hok Hp H. unfold start in H. apply bind_Ok in H as (s' & Hs & H).
  apply start_exact in Hs as (_ & _ & Hnone & _ & _ & u & Hu & ->); [|done|done].
  apply apply_updates_ids in Hu as (_ & Hids & _).
  rewrite started_active in H by (apply by_id_None; rewrite Hids; by apply by_id_None).
  injection H as <-. cbn [sh_state sh_hypothesis sh_rollback].
  split_and!; [|done|done| | |].
  - apply started_active. apply by_id_None. rewrite Hids. by apply by_id_None.
  - unfold start_rollback. destruct (plan_revert_to_round p) as [k|]; [|done].
    destruct (k =? 0); [done|]. destruct (start_parent _ _) as [r|]; [|done].
    destruct (opt_str_truthy _); [|done]. by destruct (resolve_rollback_commit _ _ _).
  - intros rb. unfold start_rollback. destruct (plan_revert_to_round p) as [k|]; [|done].
    destruct (k =? 0); [by intros [= <-]|]. destruct (start_parent _ _) as [r|]; [|by intros [= <-]].
    destruct (opt_str_truthy _); [|by intros [= <-]].
    destruct (resolve_rollback_commit _ _ _). by intros [= <-].
  - simpl. unfold start_parent_round, start_parent_commit.
    destruct (plan_revert_to_round p) as [k|] eqn:Ek; [|done].
    assert (Hk : k <> 0 -> start_parent_round (Some k) n = Some k /\
      forall r c, latest_such (fun r => round_number r =? k) records r -> commit r = Some c ->
        match start_parent records (Some k) with
        | Some p0 => match commit p0 with Some c => Some c | None => current end
        | None => current
        end = Some c).
    { intros Hne. unfold start_parent_round. rewrite (proj2 (Z.eqb_neq k 0) Hne). split; [done|].
      intros r c Hr Hc. apply find_last_Some in Hr. unfold start_parent.
      assert (E : find_last (fun r => bool_decide (Some (round_number r) = Some k)) records = Some r).
      { rewrite <- Hr. unfold find_last. induction (rev records) as [|x l IH]; simpl; [done|]. rewrite IH.
        destruct (decide (round_number x = k)) as [E|E].
        - by rewrite bool_decide_true, (proj2 (Z.eqb_eq _ _) E) by congruence.
        - by rewrite bool_decide_false, (proj2 (Z.eqb_neq _ _) E) by congruence. }
      by rewrite E, Hc. }
    destruct k as [|k|k]; [done| |]; (destruct Hk as [H1 H2]; [done|]);
      (split; [done|]; intros r c Hr Hc; rewrite bool_decide_false by done; exact (H2 r c Hr Hc)).
Qed.

(** ** Witnesses *)

Definition sample_config : HypothesisConfig := mk_HypothesisConfig 4 2 2 1 1.

Lemma review_due_exact_witness :
  review_due sample_config 4 BLOCKED false true true false false = true /\
  review_due sample_config 2 BLOCKED false true true false false = false.
Proof.
  split.
  - apply (review_due_exact sample_config 4 BLOCKED false true true false false); reflexivity.
  - vm_compute. reflexivity.
Defined.

Lemma official_schedule_bounded_witness :
  Z.of_nat (provisional_candidates_since_official
    [sample_round <| hypothesis_outcome := Some (py "proven") |>]) < 2.
Proof.
  apply (official_schedule_bounded sample_config); [reflexivity|].
  apply (scheduled_snoc sample_config [] _ false); [constructor|]. intros _ _. vm_compute. reflexivity.
Defined.

Definition active_sample : Hypothesis_ :=
  match active_hypothesis planned with Some h => h | None => fresh_hypothesis (sample_plan [] []) 1 None None end.

Lemma active_sample_ok : active_hypothesis planned = Some active_sample /\ hypothesis_ok active_sample.
Proof. split; vm_compute; reflexivity. Qed.

Lemma continuation_bounded_witness :
  exists out, next_active active_sample true false false true true (Some (py "more")) None 1 = Ok out.
Proof.
  destruct (continuation_bounded active_sample (Some CONTINUE) (py "more") false false true true
    (Some (py "more")) None 1 (proj2 active_sample_ok)) as (out & H & _).
  exists out. exact H.
Defined.

Lemma close_round_total_witness :
  exists out, close_round sample_config planned active_sample (measured_round 1 (py "h1")) [] true true
    None false false None false true = Ok out.
Proof.
  destruct (close_round_total sample_config planned active_sample (measured_round 1 (py "h1")) [] true true
    None false false None false true) as (out & H & _).
  - vm_compute. reflexivity.
  - split; [exact (proj1 active_sample_ok)|]. split; [|split].
    + split; [vm_compute; reflexivity|]. split; [apply measured_round_normal|].
      split; vm_compute; reflexivity.
    + intros x Hx. assert (E : h_rounds active_sample = []) by (vm_compute; reflexivity).
      rewrite E in Hx. by apply not_elem_of_nil in Hx.
    + intros x Hx. rewrite planned_no_rounds in Hx. by apply not_elem_of_nil in Hx.
  - intros x Hx. rewrite planned_no_rounds in Hx. by apply not_elem_of_nil in Hx.
  - exists out. exact H.
Defined.

Lemma start_parentage_witness :
  exists out, start opened (sample_plan (py "h1") []) 1 (Some (py "c0")) [] None = Ok out /\
    active_hypothesis (sh_state out) = Some (sh_hypothesis out).
Proof.
  destruct (start opened (sample_plan (py "h1") []) 1 (Some (py "c0")) [] None) as [out|] eqn:E.
  - exists out. split; [reflexivity|].
    apply (start_parentage opened (sample_plan (py "h1") []) 1 (Some (py "c0")) [] None out);
      [vm_compute; reflexivity|vm_compute; reflexivity|exact E].
  - vm_compute in E. discriminate E.
Defined.
