(* ===== verification/Records.v ===== *)
(** Attempts and round records (src/vibesys/hypothesis/{attempts,record}.py): the facts of the
    final implementer attempt, and the one place that turns them into a round record with its
    causal comparison and its retention. *)
From S2P Require Import Prelude Floats Metrics Plan History State Evidence Transitions.

(** ** Attempt facts *)

Inductive JudgeSkipReason := NOT_REACHED | UNPARSEABLE_IMPLEMENTATION | SPARSE_REVIEW_POLICY.
Inductive ReviewVerdict := rv_pass | rv_fail.
Inductive JudgeOutcome :=
| JudgeReviewed (verdict : ReviewVerdict)
| JudgeSkipped (reason : JudgeSkipReason).

Definition attempt_was_reviewed (o : JudgeOutcome) : bool :=
  match o with JudgeReviewed _ => true | JudgeSkipped _ => false end.

Definition recorded_judge_verdict (o : JudgeOutcome) : JudgeVerdict :=
  match o with
  | JudgeReviewed rv_pass => v_pass
  | JudgeReviewed rv_fail => v_fail
  | JudgeSkipped _ => v_deferred
  end.

(** The fields of a reply the attempt policies read. *)
Record CandidateReply := mk_CandidateReply {
  rp_candidate_disposition : CandidateDisposition;
  rp_candidate_metrics : gmap pystr float;
  rp_candidate_evaluation_artifact : option pystr;
  rp_candidate_operating_point : pystr;
  rp_candidate_retention_reason : pystr
}.

Record ImplementerReply := mk_ImplementerReply {
  ir_candidate : CandidateReply;
  ir_hypothesis_outcome : HypothesisOutcome;
  ir_next_step : pystr;
  ir_perf_metric : option float;
  ir_perf_unit : option pystr;
  ir_metrics : gmap pystr float;
  ir_evaluation_artifact : option pystr;
  ir_validation_recipe_artifact : option pystr
}.

Record SingleAgentReply := mk_SingleAgentReply {
  sr_candidate : CandidateReply;
  sr_perf_metric : option float;
  sr_perf_unit : option pystr;
  sr_profile_analysis : pystr;
  sr_bottlenecks : pystr;
  sr_suggestions : pystr
}.

Record AttemptState := mk_AttemptState {
  at_agent_run_state : HypothesisState;
  at_feedback : option pystr;
  at_implementation : option ImplementerReply;
  at_single_agent_response : option SingleAgentReply;
  at_judge : JudgeOutcome;
  at_passed : bool;
  at_review_started : bool;
  at_revalidation_required : bool;
  at_official_reason : option pystr;
  at_framework_benchmark : FrameworkBenchmarkOutcome;
  at_framework_perf_metric : option float;
  at_retry : Z
}.

Record PerformanceProjection := mk_PerformanceProjection {
  pp_metric : option float;
  pp_unit : option pystr;
  pp_provenance : option PerfProvenance;
  pp_profile_skipped : bool;
  pp_accepted_metrics : gmap pystr float;
  pp_accepted_evaluation_artifact : option pystr;
  pp_next_single_response : option SingleAgentReply
}.

(** ** Record inputs *)

Record AgentAttribution := mk_AgentAttribution {
  aa_backend : pystr;
  aa_provider : option pystr;
  aa_model : option pystr
}.

Record RecordInput := mk_RecordInput {
  in_state : HypothesisState;
  in_records : list RoundRecord;
  in_round_number : Z;
  in_hypothesis : Hypothesis_;
  in_plan : OrchestratorPlan;
  in_attempt : AttemptState;
  in_projection : PerformanceProjection;
  in_reviewed : bool;
  in_framework_benchmark_configured : bool;
  in_accuracy_configured : bool;
  in_candidate_commit : option pystr;
  in_implementer : option AgentAttribution
}.

Record CandidateEvidence := mk_CandidateEvidence {
  ce_disposition : pystr;
  ce_metrics : gmap pystr float;
  ce_artifact : option pystr;
  ce_operating_point : pystr;
  ce_retention_reason : pystr
}.

Record MeasurementEvidence := mk_MeasurementEvidence {
  me_accepted_metrics : gmap pystr float;
  me_metric_name : option pystr;
  me_metric_direction : option Direction;
  me_official_metric : option float;
  me_parent_record : option RoundRecord;
  me_baseline_metric : option float;
  me_comparison : option MetricComparison;
  me_delta_pct : option float;
  me_trusted : bool
}.

(** ** Building the record *)

Definition reply_candidate (a : AttemptState) : option CandidateReply :=
  match at_implementation a with
  | Some i => Some (ir_candidate i)
  | None => option_map sr_candidate (at_single_agent_response a)
  end.

(** [_candidate]. *)
Definition candidate_of (d : RecordInput) : CandidateEvidence :=
  let result :=
    match reply_candidate (in_attempt d) with
    | None => mk_CandidateEvidence (disposition_value UNASSESSED) ∅ None [] []
    | Some reply =>
        mk_CandidateEvidence (disposition_value (rp_candidate_disposition reply))
          (rp_candidate_metrics reply) (rp_candidate_evaluation_artifact reply)
          (rp_candidate_operating_point reply) (rp_candidate_retention_reason reply)
    end in
  let h := in_hypothesis d in
  if pystr_eqb (ce_disposition result) (disposition_value UNASSESSED)
     && gate_revalidation_pending h
     && pystr_eqb (gate_approved_candidate_disposition h) (disposition_value PARETO_FRONTIER)
  then mk_CandidateEvidence (gate_approved_candidate_disposition h)
         (gate_approved_candidate_metrics h) (gate_approved_candidate_evaluation_artifact h)
         (gate_approved_candidate_operating_point h) (gate_approved_candidate_retention_reason h)
  else result.

(** [_accepted_metrics]. *)
Definition accepted_metrics (d : RecordInput) : gmap pystr float :=
  let p := in_projection d in
  let metrics := pp_accepted_metrics p in
  match pp_metric p, fb_row (at_framework_benchmark (in_attempt d)), pp_unit p with
  | Some _, Some row, _ => row
  | Some value, None, Some unit => if bool_decide (metrics = ∅) then {[unit := value]} else metrics
  | _, _, _ => metrics
  end.

Definition named_measurement (name : option pystr) (value : option float)
  (d : option Direction) : option Measurement :=
  match name, value with
  | Some n, Some v => Some (mk_Measurement n v d)
  | _, _ => None
  end.

(** [(official - baseline) / abs(baseline) * 100]. *)
Definition delta_percent (official baseline : float) : float :=
  f_mul (f_div (f_sub official baseline) (f_abs baseline)) f_hundred.

(** [baseline not in {None, 0}]: membership of a set compares with [==]. *)
Definition usable_baseline (baseline : option float) : option float :=
  match baseline with
  | Some b => if f_eq b f_zero then None else Some b
  | None => None
  end.

(** [_measurement]. *)
Definition measurement_of (d : RecordInput) (accepted : gmap pystr float) (official : bool)
  : MeasurementEvidence :=
  let p := in_projection d in
  let benchmark := at_framework_benchmark (in_attempt d) in
  let space := metrics (in_state d) in
  let metric_name := str_or (fb_metric_name benchmark) (option_map o_name (primary space)) in
  let metric_name := str_or metric_name (pp_unit p) in
  let dir :=
    match fb_metric_direction benchmark with
    | Some x => Some x
    | None => option_map o_direction (primary space)
    end in
  let official_metric :=
    match metric_name with Some n => accepted !! n | None => pp_metric p end in
  let official_metric :=
    match official_metric with
    | None => if bool_decide (accepted = ∅) then pp_metric p else None
    | Some v => Some v
    end in
  let parent :=
    metric_baseline (parent_round (in_hypothesis d)) (parent_commit (in_hypothesis d)) metric_name
      (in_records d) in
  let baseline :=
    match parent with Some b => record_metric_value b metric_name | None => None end in
  let trusted := trusted_perf_provenance (pp_provenance p) in
  let reading := named_measurement metric_name official_metric dir in
  let comparison :=
    if official && is_some official_metric && trusted
    then Some (compare space reading (named_measurement metric_name baseline dir))
    else None in
  let delta :=
    match official_metric, usable_baseline baseline with
    | Some o, Some b => if trusted then Some (delta_percent o b) else None
    | _, _ => None
    end in
  mk_MeasurementEvidence accepted metric_name dir official_metric parent baseline comparison delta
    trusted.

(** [CandidateDisposition(value)]. *)
Definition parse_disposition (value : pystr) : result CandidateDisposition :=
  match disposition_of value with
  | Some x => Ok x
  | None => Err (ValueError "{value!r} is not a valid CandidateDisposition" [AStr value])
  end.

(** The prior trusted readings of the metric, as [_candidate_retained] collects them. *)
Definition prior_readings (records : list RoundRecord) (m : MeasurementEvidence)
  : list Measurement :=
  match me_metric_name m with
  | None => []
  | Some name =>
      flat_map (fun r =>
          if official_evaluation r && trusted_perf_provenance (perf_provenance r) then
            match record_metric_value r (Some name) with
            | Some v => [mk_Measurement name v (me_metric_direction m)]
            | None => []
            end
          else []) records
  end.

(** [_candidate_retained]. *)
Definition retained_of (d : RecordInput) (c : CandidateEvidence) (m : MeasurementEvidence)
  (official reviewed : bool) : result (option bool) :=
  let space := metrics (in_state d) in
  let unmeasured :=
    let* disposition := parse_disposition (ce_disposition c) in
    Ok (unmeasured_candidate_retained disposition) in
  if negb reviewed then unmeasured
  else if negb (at_passed (in_attempt d)) then Ok (Some false)
  else if official && me_trusted m && negb (bool_decide (length (objectives space) = 0%nat))
          && negb (bool_decide (me_accepted_metrics m = ∅))
  then
    match pareto_archive_dominators (me_accepted_metrics m) (in_records d) space with
    | [] => Ok (Some true)
    | _ => Ok (Some false)
    end
  else if official && me_trusted m
  then
    Ok (scalar_candidate_retained
          (compare_to_best space
             (named_measurement (me_metric_name m) (me_official_metric m) (me_metric_direction m))
             (prior_readings (in_records d) m)))
  else unmeasured.

Definition is_official (d : RecordInput) : bool :=
  at_passed (in_attempt d) && is_some (at_official_reason (in_attempt d))
  && match in_implementer d with
     | Some i => negb (pystr_eqb (aa_backend i) (py "stub"))
     | None => false
     end
  && (in_accuracy_configured d || in_framework_benchmark_configured d).

Definition declared_of_attempt (a : AttemptState) : option HypothesisOutcome :=
  match at_implementation a with
  | Some i => Some (ir_hypothesis_outcome i)
  | None => match at_single_agent_response a with Some _ => Some NOMINATED | None => None end
  end.

(** [s or None] of a string. *)
Definition text_or_none (s : pystr) : option pystr := if str_truthy s then Some s else None.

Definition build_round_record (d : RecordInput) : result RoundRecord :=
  let a := in_attempt d in
  let p := in_projection d in
  let h := in_hypothesis d in
  let candidate := candidate_of d in
  let official := is_official d in
  let m := measurement_of d (accepted_metrics d) official in
  let declared := declared_of_attempt a in
  let resolution :=
    resolve_hypothesis_outcome
      (mk_ResolutionEvidence declared (at_passed a) (in_reviewed d) (me_comparison m)) in
  let* retained := retained_of d candidate m official (in_reviewed d) in
  Ok (normalize_review
    (mk_RoundRecord
      (in_round_number d) (in_candidate_commit d) (pp_metric p) (pp_unit p) (at_passed a)
      (pp_profile_skipped p) true (Some (plan_hypothesis_id (in_plan d)))
      (option_map outcome_value declared) (Some (recorded_judge_verdict (at_judge a)))
      (match resolution with
       | Some x => Some (resolution_value x)
       | None => option_map outcome_value declared
       end)
      (text_or_none (plan_hypothesis (in_plan d))) (text_or_none (plan_task (in_plan d)))
      (parent_round h) (parent_commit h) (me_accepted_metrics m)
      (pp_accepted_evaluation_artifact p) official
      (if official then at_official_reason a else None)
      (ce_disposition candidate) (ce_metrics candidate) (ce_artifact candidate)
      (ce_operating_point candidate) (ce_retention_reason candidate) retained
      (me_metric_direction m) (option_map round_number (me_parent_record m))
      (match me_parent_record m with Some b => commit b | None => None end)
      (me_baseline_metric m) (me_delta_pct m) (me_comparison m) (pp_provenance p)
      (match in_implementer d with Some i => aa_provider i | None => None end)
      (match in_implementer d with Some i => aa_model i | None => None end)
      (at_retry a))).

(** ** Helper lemmas *)

Lemma candidate_disposition_valid d :
  exists x, disposition_of (ce_disposition (candidate_of d)) = Some x.
Proof.
  unfold candidate_of. cbv zeta.
  match goal with |- context [if ?c then _ else _] => destruct c eqn:E end.
  - apply andb_true_iff in E as [_ E%pystr_eqb_true]. cbn [ce_disposition]. rewrite E.
    eexists. apply disposition_of_value.
  - destruct (reply_candidate _) as [r|]; cbn [ce_disposition]; eexists; apply disposition_of_value.
Qed.

Lemma retained_total d m official reviewed_ :
  exists x, retained_of d (candidate_of d) m official reviewed_ = Ok x /\
    (x = Some true -> reviewed_ = true /\ at_passed (in_attempt d) = true /\ official = true /\
       me_trusted m = true).
Proof.
  destruct (candidate_disposition_valid d) as [x Hx].
  assert (Hun : parse_disposition (ce_disposition (candidate_of d)) = Ok x)
    by (unfold parse_disposition; by rewrite Hx).
  assert (Hne : unmeasured_candidate_retained x <> Some true) by by destruct x.
  unfold retained_of. rewrite Hun. cbn [bind].
  destruct reviewed_; cbn [negb]; [|by eexists].
  destruct (at_passed _); cbn [negb]; [|by eexists].
  destruct official, (me_trusted m); cbn [andb]; try (by eexists).
  destruct (_ && _); [|by eexists].
  destruct (pareto_archive_dominators _ _ _); by eexists.
Qed.

Lemma declared_value_valid (o : option HypothesisOutcome) :
  match option_map outcome_value o with
  | Some v => bool_decide (outcome_of v = None)
  | None => false
  end = false.
Proof. by destruct o as [[]|]. Qed.

Lemma outcome_value_valid (o : option HypothesisOutcome) (r : option HypothesisResolution) :
  match match r with Some x => Some (resolution_value x) | None => option_map outcome_value o end with
  | Some v => bool_decide (outcome_of v = None) && bool_decide (resolution_of v = None)
  | None => false
  end = false.
Proof. destruct r as [[]|], o as [[]|]; reflexivity. Qed.

(** The headline a benchmark row must contain for the round to be comparable. *)
Definition headline_name (d : RecordInput) : option pystr :=
  str_or (str_or (fb_metric_name (at_framework_benchmark (in_attempt d)))
            (option_map o_name (primary (metrics (in_state d))))) (pp_unit (in_projection d)).
Definition headline_present (d : RecordInput) : bool :=
  match headline_name d with
  | Some n => bool_decide (accepted_metrics d = ∅) || has_key (accepted_metrics d) n
  | None => true
  end.

Lemma official_metric_present d official :
  headline_present d = true -> is_some (pp_metric (in_projection d)) = true ->
  is_some (me_official_metric (measurement_of d (accepted_metrics d) official)) = true.
Proof.
  unfold headline_present. fold (headline_name d). unfold measurement_of. simpl.
  change (str_or (str_or _ _) _) with (headline_name d).
  intros Hh Hp. destruct (headline_name d) as [n|].
  - apply orb_true_iff in Hh as [Hh|Hh].
    + apply bool_decide_eq_true in Hh. rewrite Hh, lookup_empty. by rewrite bool_decide_true.
    + unfold has_key in Hh. by destruct (accepted_metrics d !! n).
  - by destruct (pp_metric (in_projection d)).
Qed.

Lemma comparison_trusted d official :
  me_comparison (measurement_of d (accepted_metrics d) official) =
  if official && is_some (me_official_metric (measurement_of d (accepted_metrics d) official))
     && trusted_perf_provenance (pp_provenance (in_projection d))
  then Some (compare (metrics (in_state d))
    (named_measurement (headline_name d)
       (me_official_metric (measurement_of d (accepted_metrics d) official))
       (me_metric_direction (measurement_of d (accepted_metrics d) official)))
    (named_measurement (headline_name d)
       (me_baseline_metric (measurement_of d (accepted_metrics d) official))
       (me_metric_direction (measurement_of d (accepted_metrics d) official))))
  else None.
Proof. done. Qed.

(** ** Properties *)

Lemma build_record_ok (d : RecordInput) :
  (pp_metric (in_projection d) <> None -> pp_provenance (in_projection d) <> None) ->
  headline_present d = true ->
  exists r, build_round_record d = Ok r /\ review_normal r /\
    is_ok (validate_round_contract r) = true /\
    r_hypothesis_id r = Some (plan_hypothesis_id (in_plan d)) /\
    round_number r = in_round_number d /\ passed r = at_passed (in_attempt d) /\
    judge_verdict r = Some (recorded_judge_verdict (at_judge (in_attempt d))).
Proof.
  intros Hprov Hhead. unfold build_round_record. cbv zeta.
  set (m := measurement_of d (accepted_metrics d) (is_official d)).
  destruct (retained_total d m (is_official d) (in_reviewed d)) as (x & -> & _). cbn [bind].
  eexists. split; [reflexivity|]. split; [apply normalize_review_idem|].
  assert (Hj : forall r v, judge_verdict r = Some v -> legacy_reviewed r = true ->
    normalize_review r = r <| legacy_reviewed := negb (bool_decide (v = v_deferred)) |>).
  { intros r v Hv Hl. unfold normalize_review. rewrite Hv, Hl, andb_false_r.
    destruct r. simpl in *. by rewrite Hv. }
  rewrite (Hj _ (recorded_judge_verdict (at_judge (in_attempt d)))) by reflexivity. simpl.
  split_and!; try done. unfold validate_round_contract. simpl.
  rewrite declared_value_valid, outcome_value_valid.
  destruct (candidate_disposition_valid d) as [y Hy]. rewrite Hy. simpl.
  assert (Hp : bool_decide (pp_metric (in_projection d) <> None)
    && bool_decide (pp_provenance (in_projection d) = None) = false).
  { destruct (pp_metric (in_projection d)); [|done].
    rewrite (bool_decide_false (pp_provenance (in_projection d) = None)) by by apply Hprov.
    apply andb_false_r. }
  rewrite Hp.
  assert (Hc : is_official d && bool_decide (pp_metric (in_projection d) <> None)
    && bool_decide (pp_provenance (in_projection d) = Some framework) = true -> me_comparison m <> None).
  { rewrite !andb_true_iff. intros [[Eo Em%bool_decide_eq_true] Ef]. unfold m.
    rewrite comparison_trusted, Eo. unfold trusted_perf_provenance. rewrite Ef.
    rewrite official_metric_present; [done|done|]. by apply is_some_spec. }
  destruct (is_official d && _ && _); [|done]. simpl.
  by rewrite bool_decide_false by by apply Hc.
Qed.

(** Building a record never fails, and what it produces is in normal form and satisfies the
    round contract whenever the projection names its provenance and an official row contains
    its headline metric. *)
Theorem build_record_total (d : RecordInput) :
  (pp_metric (in_projection d) <> None -> pp_provenance (in_projection d) <> None) ->
  headline_present d = true ->
  exists r, build_round_record d = Ok r /\ review_normal r /\
    is_ok (validate_round_contract r) = true /\
    r_hypothesis_id r = Some (plan_hypothesis_id (in_plan d)) /\
    round_number r = in_round_number d /\ passed r = at_passed (in_attempt d) /\
    judge_verdict r = Some (recorded_judge_verdict (at_judge (in_attempt d))).
Proof. apply build_record_ok. Qed.

(** C10. The trust boundary of the record: a checkpoint is retained, a comparison is stored and an
    outcome is proven only in a passed official round whose headline the framework measured
    itself; and a round is official only with a due reason, a configured gate and a real
    implementer. An agent's own report decides none of them. *)
Theorem build_record_trust (d : RecordInput) (r : RoundRecord) :
  build_round_record d = Ok r ->
  let trusted := official_evaluation r = true /\ passed r = true /\
                 perf_provenance r = Some framework in
  (candidate_retained r = Some true -> trusted /\ in_reviewed d = true) /\
  (perf_comparison r <> None -> trusted) /\
  (hypothesis_outcome r = Some (resolution_value R_PROVEN) ->
     trusted /\ in_reviewed d = true /\ perf_comparison r = Some BETTER) /\
  (official_evaluation r = true ->
     at_passed (in_attempt d) = true /\ at_official_reason (in_attempt d) <> None /\
     (exists i, in_implementer d = Some i /\ aa_backend i <> py "stub") /\
     (in_accuracy_configured d = true \/ in_framework_benchmark_configured d = true)).
Proof.
  unfold build_round_record. cbv zeta.
  set (m := measurement_of d (accepted_metrics d) (is_official d)).
  destruct (retained_total d m (is_official d) (in_reviewed d)) as (x & -> & Hret). cbn [bind].
  intros E. match type of E with Ok ?x = Ok _ => assert (Er : r = x) by (by inversion E) end.
  clear E. subst r.
  assert (Hoff : is_official d = true -> at_passed (in_attempt d) = true /\
     at_official_reason (in_attempt d) <> None /\
     (exists i, in_implementer d = Some i /\ aa_backend i <> py "stub") /\
     (in_accuracy_configured d = true \/ in_framework_benchmark_configured d = true)).
  { unfold is_official. rewrite !andb_true_iff, orb_true_iff, is_some_spec.
    intros [[[Hp Hr] Hi] Hc]. split_and!; [done|done| |done].
    destruct (in_implementer d) as [i|]; [|done]. exists i. split; [done|].
    apply negb_true_iff in Hi. intros E. apply pystr_eqb_true in E. congruence. }
  assert (Hcmp : me_comparison m <> None -> is_official d = true /\ at_passed (in_attempt d) = true /\
    pp_provenance (in_projection d) = Some framework).
  { unfold m. rewrite comparison_trusted. destruct (is_official d) eqn:Eo; [|done].
    destruct (is_some _); [|done]. simpl. destruct (trusted_perf_provenance _) eqn:Et; [|done].
    intros _. split_and!; [done|by apply Hoff|by apply trusted_perf_provenance_spec]. }
  assert (Htr : me_trusted m = trusted_perf_provenance (pp_provenance (in_projection d))) by reflexivity.
  clearbody m.
  match goal with |- context [normalize_review ?r0] => set (r1 := r0) end.
  assert (Hn : normalize_review r1 = r1 <| judge_verdict := judge_verdict (normalize_review r1) |>
      <| legacy_reviewed := legacy_reviewed (normalize_review r1) |>) by reflexivity.
  rewrite Hn. simpl. clear Hn.
  split_and!.
  - intros E. destruct (Hret E) as (Hr & Hp & Ho & Ht). split_and!; try done.
    rewrite Htr in Ht. by apply trusted_perf_provenance_spec in Ht.
  - exact Hcmp.
  - intros E.
    assert (Hres : resolve_hypothesis_outcome (mk_ResolutionEvidence (declared_of_attempt (in_attempt d))
      (at_passed (in_attempt d)) (in_reviewed d) (me_comparison m)) = Some R_PROVEN).
    { destruct (resolve_hypothesis_outcome _) as [[]|]; try discriminate E; [done|].
      destruct (declared_of_attempt _) as [[]|]; discriminate E. }
    unfold resolve_hypothesis_outcome in Hres. cbn in Hres.
    destruct (in_reviewed d); [|done]. destruct (at_passed (in_attempt d)); [|done].
    assert (Hc : me_comparison m = Some BETTER).
    { destruct (declared_of_attempt _) as [[]|]; cbn in Hres; try done;
        destruct (me_comparison m) as [[]|]; cbn in Hres; done. }
    destruct (Hcmp ltac:(by rewrite Hc)) as (H1 & _ & H3). by split_and!.
  - exact Hoff.
Qed.
