(* ===== verification/Rounds.v ===== *)
(** The serial round machine (src/vibesys/hypothesis/{rounds,reviewed}.py): the ledger a strategy
    stores, its encoding, and the functions that decode it, apply one transition and return the
    result, for self-reviewed and for judged rounds. *)
From S2P Require Import Prelude Floats Metrics Plan History State Notices Evidence Transitions Policy Records.
From S2P Require Focus.

(** ** The ledger *)

Record Ledger := mk_Ledger { search : HypothesisState; carry : CarryOver }.
Definition ledger_records (l : Ledger) : list RoundRecord := rounds (search l).

Record EncodedLedger := mk_EncodedLedger { search_json : pystr; carry_json : pystr }.

(** The codecs of the state aggregate and of the carry-over are pydantic's. *)
Section Codec.
Context `{!JsonCodec HypothesisState, !JsonCodec CarryOver}.

Definition decode (encoded : EncodedLedger) (space : option MetricSpace) : result Ledger :=
  let* s := if str_truthy (search_json encoded) then validate_json (search_json encoded)
            else Ok initial_state in
  let* s := match space with Some sp => resume (Some s) sp | None => Ok s end in
  let* c := if str_truthy (carry_json encoded) then validate_json (carry_json encoded)
            else Ok empty_carry in
  Ok (mk_Ledger s c).

Definition encode (l : Ledger) : EncodedLedger :=
  mk_EncodedLedger (dump_json (search l)) (dump_json (carry l)).

End Codec.

(** ** One transition on the ledger *)

Definition next_round (c : HypothesisConfig) (l : Ledger) (round_number : Z) : NextRoundDecision :=
  Policy.next_round c (search l) round_number (ledger_records l) (carry l).

Definition start (l : Ledger) (p : OrchestratorPlan) (round_number : Z)
  (current_commit input_baseline : option pystr) : result (Ledger * StartedHypothesis) :=
  let* out := Policy.start (search l) p round_number current_commit (ledger_records l)
                input_baseline in
  Ok (mk_Ledger (sh_state out) (carry l), out).

Definition validate_plan (l : Ledger) (updates : list HypothesisStrategyUpdate) : result unit :=
  validate_updates (search l) updates.

Definition official_reason (c : HypothesisConfig) (l : Ledger) (round_number : Z)
  (requested candidate_ready : bool) : option pystr :=
  official_due c (ledger_records l) round_number requested candidate_ready.

Definition pareto_conflict (l : Ledger) (reply : CandidateReply) : option ArchiveConflict :=
  Policy.pareto_conflict (rp_candidate_disposition reply) (rp_candidate_metrics reply)
    (ledger_records l) (metrics (search l)).

Record ClosingFacts := mk_ClosingFacts {
  cf_round_number : Z;
  cf_plan : OrchestratorPlan;
  cf_reply : option SingleAgentReply;
  cf_passed : bool;
  cf_feedback : option pystr;
  cf_official_reason : option pystr;
  cf_benchmark : FrameworkBenchmarkOutcome;
  cf_benchmark_metric : option float;
  cf_candidate_commit : option pystr;
  cf_attempts : Z;
  cf_accuracy_configured : bool;
  cf_benchmark_configured : bool;
  cf_implementer : option AgentAttribution;
  cf_revalidation_required : bool;
  cf_verdict_pass : option bool;
  cf_profile_guidance : option Focus.ProfileFocusState
}.

Definition closing_attempt (l : Ledger) (f : ClosingFacts) : AttemptState :=
  mk_AttemptState (search l) (cf_feedback f) None (cf_reply f)
    (match cf_reply f with
     | None => JudgeSkipped UNPARSEABLE_IMPLEMENTATION
     | Some _ =>
         JudgeReviewed (match cf_verdict_pass f with Some true => rv_pass | _ => rv_fail end)
     end)
    (cf_passed f) false (cf_revalidation_required f) (cf_official_reason f) (cf_benchmark f)
    (cf_benchmark_metric f) (cf_attempts f).

Definition closing_projection (f : ClosingFacts) : PerformanceProjection :=
  let official := cf_passed f && is_some (cf_official_reason f) in
  let metric := if official then cf_benchmark_metric f else None in
  mk_PerformanceProjection metric
    (if official then fb_metric_name (cf_benchmark f) else None)
    (match metric with
     | Some _ => if is_some (cf_benchmark_metric f) then Some framework else Some implementer
     | None => None
     end)
    (match cf_reply f with None => true | Some r => negb (is_some (sr_perf_metric r)) end)
    ∅ None (cf_reply f).

Definition closing_input (l : Ledger) (h : Hypothesis_) (f : ClosingFacts) : RecordInput :=
  mk_RecordInput (search l) (ledger_records l) (cf_round_number f) h (cf_plan f)
    (closing_attempt l f) (closing_projection f) true (cf_benchmark_configured f)
    (cf_accuracy_configured f) (cf_candidate_commit f) (cf_implementer f).

Definition close_round (c : HypothesisConfig) (l : Ledger) (f : ClosingFacts) : result Ledger :=
  match active_hypothesis (search l) with
  | None => Err (ValueError "no active hypothesis to close" [])
  | Some h =>
      let* r := build_round_record (closing_input l h f) in
      let s :=
        match cf_profile_guidance f with
        | Some g => (search l) <| profile_guidance := Some g |>
        | None => search l
        end in
      let* closed := Policy.close_round c s h r (ledger_records l) (cf_passed f) true
                       (cf_feedback f) false false None false true in
      Ok (mk_Ledger (cr_state closed) (cr_carry closed))
  end.

Record GateFailure := mk_GateFailure {
  gf_candidate_commit : option pystr;
  gf_accuracy_passed : bool
}.

Definition note_attempt_failure (l : Ledger) (fb : pystr) (gate : option GateFailure)
  : result Ledger :=
  match active_hypothesis (search l) with
  | None => Err (ValueError "no active hypothesis to checkpoint" [])
  | Some h =>
      let* updated := set_feedback h (Some fb) in
      let* updated :=
        match gate with
        | Some g =>
            let* u := check_hypothesis (updated <| gate_revalidation_pending := true |>) in
            let* u := check_hypothesis (u <| gate_candidate_commit := gf_candidate_commit g |>) in
            check_hypothesis (u <| gate_accuracy_passed := gf_accuracy_passed g |>)
        | None => Ok updated
        end in
      let* s := update_active_hypothesis (search l) updated in
      Ok (mk_Ledger s (carry l))
  end.

Definition archive_view (l : Ledger) : ParetoArchiveView :=
  Policy.archive_view (ledger_records l) (metrics (search l)).

Definition planning (c : HypothesisConfig) (l : Ledger) (round_number : Z)
  : result PlanningContext :=
  match next_round c l round_number with
  | Finished => Err (TypeError "no round to plan past the round budget")
  | NewHypothesis _ context | Continue _ context => Ok context
  end.

(** ** Judged rounds *)

Definition code_outcome (o : HypothesisOutcome) : bool :=
  match o with SUPPORTED | NOMINATED => true | _ => false end.

Definition claims_frontier (reply : ImplementerReply) : bool :=
  bool_decide (rp_candidate_disposition (ir_candidate reply) = PARETO_FRONTIER).

Definition candidate_ready (reply : ImplementerReply) : bool :=
  code_outcome (ir_hypothesis_outcome reply) || claims_frontier reply.

Definition review_due (c : HypothesisConfig) (l : Ledger) (reply : ImplementerReply)
  (round_number : Z) (review_started revalidation_required : bool) : bool :=
  Policy.review_due c round_number (ir_hypothesis_outcome reply)
    (candidate_evidence_fresh (rp_candidate_metrics (ir_candidate reply))
       (rp_candidate_evaluation_artifact (ir_candidate reply)) (ledger_records l))
    review_started
    (continuation_requested (Some (ir_hypothesis_outcome reply)) (ir_next_step reply))
    (claims_frontier reply) revalidation_required.

Definition with_active (l : Ledger) (updated : Hypothesis_) : result Ledger :=
  let* s := update_active_hypothesis (search l) updated in
  Ok (mk_Ledger s (carry l)).

(** A validated assignment to a [FiniteFloat] row. *)
Definition set_row (set : gmap pystr float -> Hypothesis_) (row : gmap pystr float)
  : result Hypothesis_ :=
  raise (ValidationError "finite number") when negb (finite_row row) in
  check_hypothesis (set row).

Definition approve_candidate (l : Ledger) (reply : ImplementerReply) : result Ledger :=
  match active_hypothesis (search l) with
  | None => Ok l
  | Some h =>
      if negb (claims_frontier reply) then Ok l
      else
        let r := ir_candidate reply in
        let* u := check_hypothesis (h <| gate_approved_candidate_disposition :=
                    disposition_value (rp_candidate_disposition r) |>) in
        let* u := set_row (fun row => u <| gate_approved_candidate_metrics := row |>)
                    (rp_candidate_metrics r) in
        let* u := check_hypothesis (u <| gate_approved_candidate_evaluation_artifact :=
                    rp_candidate_evaluation_artifact r |>) in
        let* u := check_hypothesis (u <| gate_approved_candidate_operating_point :=
                    rp_candidate_operating_point r |>) in
        let* u := check_hypothesis (u <| gate_approved_candidate_retention_reason :=
                    rp_candidate_retention_reason r |>) in
        with_active l u
  end.

Definition approve_performance (l : Ledger) (reply : ImplementerReply) : result Ledger :=
  match active_hypothesis (search l), ir_perf_metric reply with
  | Some h, Some v =>
      raise (ValidationError "finite number") when negb (f_finite v) in
      let* u := check_hypothesis (h <| gate_approved_perf_metric := Some v |>) in
      let* u := check_hypothesis (u <| gate_approved_perf_unit := ir_perf_unit reply |>) in
      let* u := set_row (fun row => u <| gate_approved_metrics := row |>) (ir_metrics reply) in
      let* u := check_hypothesis (u <| gate_approved_evaluation_artifact :=
                  ir_evaluation_artifact reply |>) in
      with_active l u
  | _, _ => Ok l
  end.

Record ReviewedClosing := mk_ReviewedClosing {
  rc_round_number : Z;
  rc_plan : OrchestratorPlan;
  rc_reply : option ImplementerReply;
  rc_judge : JudgeOutcome;
  rc_passed : bool;
  rc_feedback : option pystr;
  rc_official_reason : option pystr;
  rc_benchmark : FrameworkBenchmarkOutcome;
  rc_benchmark_metric : option float;
  rc_candidate_commit : option pystr;
  rc_attempts : Z;
  rc_accuracy_configured : bool;
  rc_benchmark_configured : bool;
  rc_implementer : option AgentAttribution;
  rc_revalidation_required : bool
}.

(** The implementer's own number, only in an official round: its reply's, or the one approved
    before a gate retry. *)
Definition implementation_metric (h : Hypothesis_) (a : AttemptState) : option float :=
  let official := at_passed a && is_some (at_official_reason a) in
  match at_implementation a with
  | Some reply =>
      if official then
        match ir_perf_metric reply with
        | Some v => Some v
        | None =>
            if code_outcome (ir_hypothesis_outcome reply) && gate_revalidation_pending h
            then gate_approved_perf_metric h else None
        end
      else None
  | None => None
  end.

(** [_projection]. *)
Definition reviewed_projection (h : Hypothesis_) (a : AttemptState) : PerformanceProjection :=
  let official := at_passed a && is_some (at_official_reason a) in
  let implementation := implementation_metric h a in
  let profile_skipped :=
    negb (is_some (at_framework_perf_metric a)) && negb (is_some implementation) in
  if is_some (at_framework_perf_metric a) && official then
    mk_PerformanceProjection (at_framework_perf_metric a)
      (fb_metric_name (at_framework_benchmark a)) (Some framework) profile_skipped ∅ None None
  else
    match implementation with
    | None => mk_PerformanceProjection None None None profile_skipped ∅ None None
    | Some v =>
        match at_implementation a with
        | Some reply =>
            if is_some (ir_perf_metric reply) then
              mk_PerformanceProjection (Some v) (ir_perf_unit reply) (Some implementer)
                profile_skipped (ir_metrics reply) (ir_evaluation_artifact reply) None
            else
              mk_PerformanceProjection (Some v) (gate_approved_perf_unit h) (Some implementer)
                profile_skipped (gate_approved_metrics h) (gate_approved_evaluation_artifact h)
                None
        | None =>
            mk_PerformanceProjection (Some v) (gate_approved_perf_unit h) (Some implementer)
              profile_skipped (gate_approved_metrics h) (gate_approved_evaluation_artifact h)
                None
        end
    end.

Definition keeps_active (c : HypothesisConfig) (h : Hypothesis_) (reply : option ImplementerReply)
  : bool :=
  keeps_hypothesis_active (option_map ir_hypothesis_outcome reply)
    (match reply with Some r => ir_next_step r | None => [] end)
    (continuation_rounds h) (max_continuation_rounds c).

Definition reviewed_attempt (l : Ledger) (f : ReviewedClosing) : AttemptState :=
  mk_AttemptState (search l) (rc_feedback f) (rc_reply f) None (rc_judge f) (rc_passed f) false
    (rc_revalidation_required f) (rc_official_reason f) (rc_benchmark f) (rc_benchmark_metric f)
    (rc_attempts f).

Definition reviewed_input (l : Ledger) (h : Hypothesis_) (f : ReviewedClosing) : RecordInput :=
  mk_RecordInput (search l) (ledger_records l) (rc_round_number f) h (rc_plan f)
    (reviewed_attempt l f) (reviewed_projection h (reviewed_attempt l f))
    (attempt_was_reviewed (rc_judge f)) (rc_benchmark_configured f) (rc_accuracy_configured f)
    (rc_candidate_commit f) (rc_implementer f).

Definition close_reviewed_round (c : HypothesisConfig) (l : Ledger) (f : ReviewedClosing)
  : result Ledger :=
  match active_hypothesis (search l) with
  | None => Err (ValueError "no active hypothesis to close" [])
  | Some h =>
      let reply := rc_reply f in
      let* r := build_round_record (reviewed_input l h f) in
      let keeps := keeps_active c h reply in
      let continuation :=
        match reply with
        | Some x => continuation_requested (Some (ir_hypothesis_outcome x)) (ir_next_step x)
        | None => false
        end in
      let* closed := Policy.close_round c (search l) h r (ledger_records l) (rc_passed f)
        (attempt_was_reviewed (rc_judge f)) (rc_feedback f) keeps continuation
        (option_map ir_next_step reply)
        (match reply with
         | Some x => negb keeps && negb (bool_decide (ir_hypothesis_outcome x = NOMINATED))
         | None => false
         end) (is_some reply) in
      Ok (mk_Ledger (cr_state closed) (cr_carry closed))
  end.

(** ** Helper lemmas *)

(** A state with other profile guidance is settled alike. *)
Definition with_guidance (s : HypothesisState) (g : option Focus.ProfileFocusState)
  : HypothesisState :=
  match g with Some g => s <| profile_guidance := Some g |> | None => s end.
Definition guidance_ok (g : option Focus.ProfileFocusState) : bool :=
  opt_all (fun g => is_ok (Focus.validate_focus_state g)) g.

Lemma with_guidance_same s g :
  hypotheses (with_guidance s g) = hypotheses s /\ metrics (with_guidance s g) = metrics s /\
  active_hypothesis (with_guidance s g) = active_hypothesis s /\
  rounds (with_guidance s g) = rounds s.
Proof. by destruct g. Qed.

Lemma with_guidance_settled s g : settled s -> guidance_ok g = true -> settled (with_guidance s g).
Proof.
  destruct g as [g|]; [|done]. intros [Hok Hm Hs] Hg. split; [|exact Hm|exact Hs].
  apply state_ok_spec in Hok as (Hf & Hh & Hi). apply state_ok_spec. split_and!; [|exact Hh|exact Hi].
  unfold state_fields in *. simpl. rewrite !andb_true_iff in *. split; [tauto|exact Hg].
Qed.

(** The record a closing builds is the one the state receives. *)
Lemma policy_close_settled c s h r records passed reviewed fb keeps requests step needs impl out :
  settled s -> active_hypothesis s = Some h -> review_normal r ->
  (forall x, x ∈ rounds s -> round_number x < round_number r) ->
  Policy.close_round c s h r records passed reviewed fb keeps requests step needs impl = Ok out ->
  settled (cr_state out) /\ rounds (cr_state out) = rounds s ++ [r].
Proof.
  intros Hs Ha Hn Hnew H. unfold Policy.close_round in H. apply bind_Ok in H as (next & Hnext & H).
  destruct (active_lookup s h Ha) as (_ & i & _ & Hl).
  assert (Hh : hypothesis_ok h) by (eapply (valid_hypothesis s (settled_ok s Hs)); by eapply list_elem_of_lookup_2).
  destruct (next_active_spec h keeps passed reviewed requests impl step fb (max_continuation_rounds c) Hh)
    as (next' & E & Hspec).
  assert (next' = next) as -> by congruence.
  apply bind_Ok in H as (u & Hu & H). apply bind_Ok in H as (s' & Happ & H).
  destruct (carry_over _ _ _ _ _ _ _ _). injection H as <-. cbn [cr_state].
  assert (Hus : settled u /\ rounds u = rounds s).
  { destruct next as [n|]; [|by injection Hu as <-]. destruct Hspec as (_ & C & _).
    eapply update_settled; [done| |exact Hu]. intros a Ha'. rewrite Ha in Ha'. injection Ha' as <-. apply C. }
  destruct Hus as [Hus Hur]. rewrite <- Hur in Hnew.
  destruct (append_settled u r (is_some next) s' Hus Hn Hnew Happ) as [? E']. by rewrite E', Hur.
Qed.

Lemma build_facts d r :
  build_round_record d = Ok r -> review_normal r /\ round_number r = in_round_number d.
Proof.
  unfold build_round_record. cbv zeta. intros (x & _ & H)%bind_Ok.
  match type of H with Ok ?y = Ok _ => assert (E : r = y) by (by inversion H) end.
  rewrite E. split; [apply normalize_review_idem|reflexivity].
Qed.

Lemma update_checkpoint_settled s h h' s' :
  settled s -> active_hypothesis s = Some h -> evidence_of h' = evidence_of h ->
  update_active_hypothesis s h' = Ok s' -> settled s' /\ rounds s' = rounds s.
Proof.
  intros Hs Ha He H. eapply update_settled; [done| |exact H]. intros a Ha'. congruence.
Qed.

(** Every operation of the round machine, with rounds closed in order. *)
Inductive ledger_step (c : HypothesisConfig) (l : Ledger) : Ledger -> Prop :=
| LS_start p n current baseline l' out (H : start l p n current baseline = Ok (l', out)) :
    ledger_step c l l'
| LS_note fb gate l' (H : note_attempt_failure l fb gate = Ok l') : ledger_step c l l'
| LS_approve_candidate reply l' (H : approve_candidate l reply = Ok l') : ledger_step c l l'
| LS_approve_performance reply l' (H : approve_performance l reply = Ok l') : ledger_step c l l'
| LS_close f l'
    (Hnew : forall x, x ∈ ledger_records l -> round_number x < cf_round_number f)
    (Hg : guidance_ok (cf_profile_guidance f) = true)
    (H : close_round c l f = Ok l') : ledger_step c l l'
| LS_close_reviewed f l'
    (Hnew : forall x, x ∈ ledger_records l -> round_number x < rc_round_number f)
    (H : close_reviewed_round c l f = Ok l') : ledger_step c l l'
| LS_open space s' (H : resume (Some (search l)) space = Ok s') :
    ledger_step c l (mk_Ledger s' (carry l)).

Definition fresh_ledger : Ledger := mk_Ledger initial_state empty_carry.

Lemma check_evidence h h' e :
  check_hypothesis h = Ok h' -> evidence_of h = e -> evidence_of h' = e.
Proof. by intros [_ ->]%check_hypothesis_Ok. Qed.

Lemma close_round_inv c l f l' :
  close_round c l f = Ok l' ->
  exists h r out, active_hypothesis (search l) = Some h /\
    build_round_record (closing_input l h f) = Ok r /\
    Policy.close_round c (with_guidance (search l) (cf_profile_guidance f)) h r (ledger_records l)
      (cf_passed f) true (cf_feedback f) false false None false true = Ok out /\
    l' = mk_Ledger (cr_state out) (cr_carry out).
Proof.
  unfold close_round. destruct (active_hypothesis (search l)) as [h|]; [|done].
  intros (r & Hr & (out & Hout & [= <-])%bind_Ok)%bind_Ok.
  exists h, r, out. split_and!; try done.
Qed.

Lemma note_settled l fb gate l' :
  settled (search l) -> note_attempt_failure l fb gate = Ok l' ->
  settled (search l') /\ ledger_records l' = ledger_records l.
Proof.
  unfold note_attempt_failure. intros Hs H.
  destruct (active_hypothesis (search l)) as [h|] eqn:Ha; [|done].
  apply bind_Ok in H as (u1 & [_ ->]%check_hypothesis_Ok & H). apply bind_Ok in H as (u2 & Hu & H).
  apply bind_Ok in H as (s' & Hs' & [= <-]). unfold ledger_records. simpl.
  apply (update_checkpoint_settled _ h u2 _ Hs Ha); [|done].
  destruct gate as [g|]; [|by injection Hu as <-].
  apply bind_Ok in Hu as (v1 & [_ ->]%check_hypothesis_Ok & Hu).
  by apply bind_Ok in Hu as (v2 & [_ ->]%check_hypothesis_Ok & [_ ->]%check_hypothesis_Ok).
Qed.

Lemma with_active_settled l h u l' :
  settled (search l) -> active_hypothesis (search l) = Some h -> evidence_of u = evidence_of h ->
  with_active l u = Ok l' -> settled (search l') /\ ledger_records l' = ledger_records l.
Proof.
  intros Hs Ha He (s' & Hs' & [= <-])%bind_Ok. unfold ledger_records. simpl.
  by apply (update_checkpoint_settled _ h u).
Qed.

Lemma approve_candidate_settled l reply l' :
  settled (search l) -> approve_candidate l reply = Ok l' ->
  settled (search l') /\ ledger_records l' = ledger_records l.
Proof.
  unfold approve_candidate. intros Hs H.
  destruct (active_hypothesis (search l)) as [h|] eqn:Ha; [|by injection H as <-].
  destruct (negb (claims_frontier reply)); [by injection H as <-|].
  apply bind_Ok in H as (u1 & [_ ->]%check_hypothesis_Ok & H).
  apply bind_Ok in H as (u2 & (_ & [_ ->]%check_hypothesis_Ok)%guard_Ok & H).
  apply bind_Ok in H as (u3 & [_ ->]%check_hypothesis_Ok & H).
  apply bind_Ok in H as (u4 & [_ ->]%check_hypothesis_Ok & H).
  apply bind_Ok in H as (u5 & [_ ->]%check_hypothesis_Ok & H).
  by eapply with_active_settled; [exact Hs|exact Ha| |exact H].
Qed.

Lemma approve_performance_settled l reply l' :
  settled (search l) -> approve_performance l reply = Ok l' ->
  settled (search l') /\ ledger_records l' = ledger_records l.
Proof.
  unfold approve_performance. intros Hs H.
  destruct (active_hypothesis (search l)) as [h|] eqn:Ha; [|by injection H as <-].
  destruct (ir_perf_metric reply) as [v|]; [|by injection H as <-].
  apply guard_Ok in H as [_ H]. apply bind_Ok in H as (u1 & [_ ->]%check_hypothesis_Ok & H).
  apply bind_Ok in H as (u2 & [_ ->]%check_hypothesis_Ok & H).
  apply bind_Ok in H as (u3 & (_ & [_ ->]%check_hypothesis_Ok)%guard_Ok & H).
  apply bind_Ok in H as (u4 & [_ ->]%check_hypothesis_Ok & H).
  by eapply with_active_settled; [exact Hs|exact Ha| |exact H].
Qed.

Lemma close_settled c l f l' :
  settled (search l) -> (forall x, x ∈ ledger_records l -> round_number x < cf_round_number f) ->
  guidance_ok (cf_profile_guidance f) = true -> close_round c l f = Ok l' ->
  settled (search l') /\ exists r, ledger_records l' = ledger_records l ++ [r].
Proof.
  intros Hs Hnew Hg (h & r & out & Ha & Hr & Hout & ->)%close_round_inv.
  unfold ledger_records in *. simpl. apply build_facts in Hr as [Hn Hrn]. simpl in Hrn.
  destruct (with_guidance_same (search l) (cf_profile_guidance f)) as (_ & _ & Hga & Hgr).
  apply policy_close_settled in Hout as [? E]; [|by apply with_guidance_settled|congruence|done|].
  - rewrite Hgr in E. eauto.
  - rewrite Hgr, Hrn. exact Hnew.
Qed.

Lemma close_reviewed_settled c l f l' :
  settled (search l) -> (forall x, x ∈ ledger_records l -> round_number x < rc_round_number f) ->
  close_reviewed_round c l f = Ok l' ->
  settled (search l') /\ exists r, ledger_records l' = ledger_records l ++ [r].
Proof.
  unfold close_reviewed_round. intros Hs Hnew H.
  destruct (active_hypothesis (search l)) as [h|] eqn:Ha; [|done].
  apply bind_Ok in H as (r & Hr & H). apply bind_Ok in H as (out & Hout & [= <-]).
  unfold ledger_records in *. simpl. apply build_facts in Hr as [Hn Hrn]. simpl in Hrn.
  apply policy_close_settled in Hout as [? E]; [eauto|done|done|done|].
  rewrite Hrn. exact Hnew.
Qed.

Lemma ledger_step_settled c l l' :
  settled (search l) -> ledger_step c l l' ->
  settled (search l') /\ exists later, ledger_records l' = ledger_records l ++ later.
Proof.
  intros Hs Hstep.
  assert (Hkeep : settled (search l') /\ ledger_records l' = ledger_records l ->
    settled (search l') /\ exists later, ledger_records l' = ledger_records l ++ later).
  { intros [? ->]. split; [done|]. exists []. by rewrite app_nil_r. }
  assert (Hsnoc : (settled (search l') /\ exists r, ledger_records l' = ledger_records l ++ [r]) ->
    settled (search l') /\ exists later, ledger_records l' = ledger_records l ++ later).
  { intros [? [r ->]]. split; [done|]. by exists [r]. }
  destruct Hstep as [p n cc b l' out H|fb g l' H|reply l' H|reply l' H|f l' Hnew Hg H|f l' Hnew H|sp s' H].
  - apply Hkeep. unfold start in H. apply bind_Ok in H as (st & H & [= <- _]). unfold Policy.start in H.
    apply bind_Ok in H as (s' & H & H'). destruct (active_hypothesis s'); [|done].
    injection H' as <-. by apply (start_settled _ _ _ _ _ _ Hs H).
  - by apply Hkeep, (note_settled l fb g).
  - by apply Hkeep, (approve_candidate_settled l reply).
  - by apply Hkeep, (approve_performance_settled l reply).
  - by apply Hsnoc, (close_settled c l f).
  - by apply Hsnoc, (close_reviewed_settled c l f).
  - apply Hkeep. by apply (adopt_settled _ _ _ Hs H).
Qed.

Lemma run_settled c l l' :
  settled (search l) -> rtc (ledger_step c) l l' ->
  settled (search l') /\ exists later, ledger_records l' = ledger_records l ++ later.
Proof.
  intros Hs H. revert l' H. apply rtc_ind_r.
  - split; [done|]. exists []. by rewrite app_nil_r.
  - intros l1 l2 _ H12 [H1 [later E]]. destruct (ledger_step_settled c l1 l2 H1 H12) as [H2 [more E']].
    split; [done|]. exists (later ++ more). by rewrite E', E, app_assoc.
Qed.

(** ** Properties *)

Lemma decode_inv `{!JsonCodec HypothesisState, !JsonCodec CarryOver} encoded l space :
  decode encoded None = Ok l ->
  decode encoded (Some space) = (let* s := resume (Some (search l)) space in Ok (mk_Ledger s (carry l))).
Proof.
  unfold decode. intros (s & Hs & (s' & [= <-] & (c & Hc & [= <-])%bind_Ok)%bind_Ok)%bind_Ok.
  rewrite Hs, Hc. cbn [bind search carry]. by destruct (resume (Some s) space).
Qed.

Lemma adopted_same_search s space :
  active_hypothesis_id (adopted s space) = active_hypothesis_id s
  /\ map hypothesis_id (hypotheses (adopted s space)) = map hypothesis_id (hypotheses s)
  /\ experiment_revision s <= experiment_revision (adopted s space) <= experiment_revision s + 1.
Proof.
  assert (forall hs rs, map hypothesis_id (map (summarized space rs) hs) = map hypothesis_id hs) as E
    by (intros hs rs; by rewrite map_map).
  unfold adopted. destruct (changed_hypotheses _ _) as [|i ids]; simpl.
  - split; [done|split; [apply E|lia]].
  - split; [done|split; [|lia]]. rewrite map_map.
    etransitivity; [apply map_ext; intros h; apply touch_id|apply E].
Qed.

(** C8. Opening a run again is safe. After any sequence of round-machine operations that closes rounds
    in order, resuming the search in the run's own metric space changes nothing; and resuming it in any
    other valid space always succeeds, keeps every round, every hypothesis and the active one, advances
    the revision at most once, and resuming the result there once more changes nothing. So a stored
    ledger that a read-only view reads as this one is also what the run that opens it works on: that the
    stored text is read as the ledger that was written is pydantic's part, and not claimed here. *)
Theorem reopening_is_safe (c : HypothesisConfig) (l : Ledger) :
  rtc (ledger_step c) fresh_ledger l ->
  resume (Some (search l)) (metrics (search l)) = Ok (search l)
  /\ (forall space, space_valid space = true ->
        exists s, resume (Some (search l)) space = Ok s
          /\ metrics s = space /\ rounds s = rounds (search l)
          /\ map hypothesis_id (hypotheses s) = map hypothesis_id (hypotheses (search l))
          /\ active_hypothesis_id s = active_hypothesis_id (search l)
          /\ experiment_revision (search l) <= experiment_revision s <= experiment_revision (search l) + 1
          /\ resume (Some s) space = Ok s)
  /\ (forall (state_codec : JsonCodec HypothesisState) (carry_codec : JsonCodec CarryOver) encoded,
        decode encoded None = Ok l -> decode encoded (Some (metrics (search l))) = Ok l).
Proof.
  intros Hrun. destruct (run_settled c fresh_ledger l initial_settled Hrun) as [Hs _].
  assert (resume (Some (search l)) (metrics (search l)) = Ok (search l)) as Hsame by apply (settled_adopt_noop _ Hs).
  split; [done|]. split.
  - intros space Hv. destruct (adopt_eq (search l) space (settled_ok _ Hs) (settled_measurable _ Hs) Hv) as (E & Hs' & Hr).
    destruct (adopted_same_search (search l) space) as (Ha & Hi & He).
    assert (metrics (adopted (search l) space) = space) as Hm by (unfold adopted; by destruct (changed_hypotheses _ _)).
    exists (adopted (search l) space). split_and!; try done; [apply He..|].
    unfold resume. cbn [from_option id]. rewrite <- Hm at 2. by apply settled_adopt_noop.
  - intros state_codec carry_codec encoded Hd. rewrite (decode_inv _ _ _ Hd), Hsame. cbn [bind]. by destruct l.
Qed.

(** Closing a self-reviewed round always succeeds on a recovered ledger with an active
    hypothesis: for a new round of its plan whose official row contains the headline and whose
    measurement is representable, exactly one record is appended, the one built from the facts;
    and the hypothesis is released when the round passed, retried while the continuation
    budget lasts, and released otherwise. *)
Lemma close_round_records (c : HypothesisConfig) (l : Ledger) (h : Hypothesis_)
  (f : ClosingFacts) (r : RoundRecord) :
  rtc (ledger_step c) fresh_ledger l -> active_hypothesis (search l) = Some h ->
  plan_hypothesis_id (cf_plan f) = hypothesis_id h ->
  (forall x, x ∈ ledger_records l -> round_number x < cf_round_number f) ->
  guidance_ok (cf_profile_guidance f) = true ->
  headline_present (closing_input l h f) = true ->
  build_round_record (closing_input l h f) = Ok r -> measurable r = true ->
  exists l', close_round c l f = Ok l' /\ ledger_records l' = ledger_records l ++ [r] /\
    active_hypothesis_id (search l')
    = (if negb (cf_passed f) && (continuation_rounds h <? max_continuation_rounds c)
       then Some (hypothesis_id h) else None) /\
    (is_some (exhaustion (carry l')) = negb (cf_passed f)).
Proof.
  intros Hrun Ha Hplan Hnew Hg Hhead Hr Hm.
  destruct (run_settled c fresh_ledger l initial_settled Hrun) as [Hs _].
  destruct (with_guidance_same (search l) (cf_profile_guidance f)) as (_ & _ & Hga & Hgr).
  destruct (build_record_ok (closing_input l h f)) as (r' & Hr' & Hn & Hc & Hid & Hrn & _);
    [|done|].
  { simpl. unfold closing_projection. simpl. by destruct (cf_passed f && _), (cf_benchmark_metric f). }
  assert (r' = r) as -> by congruence. simpl in Hid, Hrn.
  assert (Hall : forall x, x ∈ rounds (search l) -> round_number x < round_number r) by by rewrite Hrn.
  destruct (active_lookup _ _ Ha) as (_ & i & _ & Hl).
  assert (Hap : appendable (with_guidance (search l) (cf_profile_guidance f)) h r).
  { split; [congruence|]. split; [split_and!; [congruence|done|done|done]|]. rewrite Hgr. split.
    - intros x Hx. apply Hall, elem_of_rounds. exists h. split; [by eapply list_elem_of_lookup_2|done].
    - intros x Hx. specialize (Hall x Hx). lia. }
  destruct (close_round_ok c _ h r (ledger_records l) (cf_passed f) true (cf_feedback f) false false None
    false true (settled_ok _ (with_guidance_settled _ _ Hs Hg)) Hap) as (out & Hout & Hact & Hrounds & _);
    [by rewrite Hgr|].
  exists (mk_Ledger (cr_state out) (cr_carry out)). split_and!.
  - unfold close_round. rewrite Ha, Hr. cbn [bind]. fold (with_guidance (search l) (cf_profile_guidance f)).
    by rewrite Hout.
  - unfold ledger_records. simpl. by rewrite Hrounds, Hgr.
  - simpl. rewrite Hact. unfold continues. simpl. by rewrite orb_false_r.
  - simpl. unfold Policy.close_round in Hout. apply bind_Ok in Hout as (n & _ & Hout).
    apply bind_Ok in Hout as (u & _ & Hout). apply bind_Ok in Hout as (u' & _ & Hout).
    unfold carry_over in Hout. rewrite andb_true_r in Hout.
    destruct (cf_passed f); simpl in Hout; by injection Hout as <-.
Qed.

(** Provenance of a judged round's headline: a number is recorded only in an official round;
    it is the framework's exactly when the framework measured one, and otherwise it is marked
    as the implementer's. *)
Theorem reviewed_provenance (h : Hypothesis_) (a : AttemptState) :
  let p := reviewed_projection h a in
  let official := at_passed a = true /\ at_official_reason a <> None in
  (pp_metric p <> None -> official) /\
  (pp_provenance p = Some framework <-> official /\ at_framework_perf_metric a <> None) /\
  (pp_provenance p = Some framework -> pp_metric p = at_framework_perf_metric a) /\
  (pp_metric p <> None <-> pp_provenance p <> None) /\
  (pp_profile_skipped p = true -> pp_metric p = None).
Proof.
  unfold reviewed_projection, implementation_metric. cbv zeta.
  destruct (at_framework_perf_metric a) as [v|], (at_passed a), (at_official_reason a) as [o|],
    (at_implementation a) as [reply|]; simpl; try naive_solver;
    destruct (ir_perf_metric reply) as [w|] eqn:Ew; simpl; rewrite ?Ew; simpl; try naive_solver;
    destruct (code_outcome _ && _); simpl; rewrite ?Ew; simpl; try naive_solver;
    destruct (gate_approved_perf_metric h); simpl; rewrite ?Ew; simpl; naive_solver.
Qed.

(** ** A concrete run of the round machine *)

Definition run_config : HypothesisConfig := mk_HypothesisConfig 4 1 1 2 1.
Definition ledger0 : Ledger := mk_Ledger opened empty_carry.
Definition plan1 : OrchestratorPlan := sample_plan (py "h1") [].
Definition ledger1 : Ledger :=
  match start ledger0 plan1 1 (Some (py "c0")) None with Ok (l, _) => l | Err _ => ledger0 end.

Definition sample_reply : SingleAgentReply :=
  mk_SingleAgentReply (mk_CandidateReply UNASSESSED ∅ None [] []) (Some (f_of_Z 9)) None
    [] [] [].
Definition sample_benchmark : FrameworkBenchmarkOutcome :=
  mk_FrameworkBenchmarkOutcome None (Some (py "throughput")) (Some (f_of_Z 3)) (Some Max) None
    (Some (row_of (f_of_Z 3) (f_of_Z 3))).
Definition sample_implementer : AgentAttribution :=
  mk_AgentAttribution (py "codex") (Some (py "openai")) None.

(** A passed, officially measured round, and a round whose implementer produced nothing. *)
Definition good_facts : ClosingFacts :=
  mk_ClosingFacts 1 plan1 (Some sample_reply) true None (Some (py "cadence")) sample_benchmark
    (Some (f_of_Z 3)) (Some (py "c1")) 1 true true (Some sample_implementer) false (Some true)
    None.
Definition unparsed_facts : ClosingFacts :=
  mk_ClosingFacts 1 plan1 None false (Some (py "no reply")) None sample_benchmark None None 2 true
    true (Some sample_implementer) false None None.

Definition ledger2 : Ledger := get (close_round run_config ledger1 good_facts) ledger1.
Definition ledger2' : Ledger := get (close_round run_config ledger1 unparsed_facts) ledger1.

Lemma ledger1_no_records : ledger_records ledger1 = [].
Proof. vm_compute. reflexivity. Qed.

Lemma ledger1_reachable : rtc (ledger_step run_config) fresh_ledger ledger1.
Proof.
  eapply rtc_l; [|apply rtc_once].
  - apply (LS_open run_config fresh_ledger sample_space opened). vm_compute. reflexivity.
  - change (mk_Ledger opened (carry fresh_ledger)) with ledger0. unfold ledger1.
    destruct (start ledger0 plan1 1 (Some (py "c0")) None) as [[l out]|] eqn:E;
      [|vm_compute in E; discriminate E].
    eapply LS_start. exact E.
Qed.

Lemma ledger2_reachable : rtc (ledger_step run_config) fresh_ledger ledger2.
Proof.
  eapply rtc_r; [exact ledger1_reachable|]. apply (LS_close run_config ledger1 good_facts).
  - intros x Hx. rewrite ledger1_no_records in Hx. by apply not_elem_of_nil in Hx.
  - reflexivity.
  - apply ok_get. vm_compute. reflexivity.
Qed.

(** A round whose implementer produced no reply is recorded in two minds: its record is
    [rejected] and exhausts the round, yet its review is [deferred], so the hypothesis itself
    stays unresolved. *)
Theorem unparsed_round_unresolved :
  exists l' h r,
    close_round run_config ledger1 unparsed_facts = Ok l' /\
    last (ledger_records l') = Some r /\ by_id (search l') (py "h1") = Some h /\
    hypothesis_outcome r = Some (resolution_value R_REJECTED) /\ reviewed r = false /\
    judge_verdict r = Some v_deferred /\ resolution h = None /\
    is_some (exhaustion (carry l')) = true.
Proof.
  destruct (close_round run_config ledger1 unparsed_facts) as [l'|] eqn:E; [|vm_compute in E; discriminate E].
  destruct (last (ledger_records l')) as [r|] eqn:Er, (by_id (search l') (py "h1")) as [h|] eqn:Eh;
    vm_compute in E; injection E as <-; vm_compute in Er, Eh; try discriminate.
  injection Er as <-. injection Eh as <-. do 3 eexists. split_and!; vm_compute; reflexivity.
Qed.

(** ** Witnesses *)

(** The run that closed a round, opened in its own space and in one without axes. *)
Lemma reopening_is_safe_witness :
  length (rounds (search ledger2)) = 1%nat
  /\ resume (Some (search ledger2)) (metrics (search ledger2)) = Ok (search ledger2)
  /\ metrics (search ledger2) <> empty_space
  /\ exists s, resume (Some (search ledger2)) empty_space = Ok s /\ length (rounds s) = 1%nat.
Proof.
  destruct (reopening_is_safe run_config ledger2 ledger2_reachable) as (Hsame & Hother & _).
  split; [vm_compute; reflexivity|]. split; [exact Hsame|]. split.
  - intros H. apply (f_equal (fun s => length (objectives s))) in H. vm_compute in H. discriminate H.
  - destruct (Hother empty_space) as (s & Hs & _ & Hr & _); [vm_compute; reflexivity|].
    exists s. split; [exact Hs|]. rewrite Hr. vm_compute. reflexivity.
Defined.

Definition ledger1_active : Hypothesis_ := active_sample.

Lemma close_round_records_witness :
  exists h r l', active_hypothesis (search ledger1) = Some h /\
    close_round run_config ledger1 good_facts = Ok l' /\
    ledger_records l' = ledger_records ledger1 ++ [r].
Proof.
  destruct (active_hypothesis (search ledger1)) as [h|] eqn:Ha; [|vm_compute in Ha; discriminate Ha].
  assert (Hid : hypothesis_id h = py "h1") by (vm_compute in Ha; injection Ha as <-; reflexivity).
  destruct (build_round_record (closing_input ledger1 h good_facts)) as [r|] eqn:Hr;
    [|vm_compute in Ha; injection Ha as <-; vm_compute in Hr; discriminate Hr].
  assert (Hm : measurable r = true)
    by (vm_compute in Ha; injection Ha as <-; vm_compute in Hr; injection Hr as <-; vm_compute; reflexivity).
  destruct (close_round_records run_config ledger1 h good_facts r) as (l' & H1 & H2 & _).
  - exact ledger1_reachable.
  - exact Ha.
  - rewrite Hid. reflexivity.
  - intros x Hx. rewrite ledger1_no_records in Hx. by apply not_elem_of_nil in Hx.
  - reflexivity.
  - vm_compute. reflexivity.
  - exact Hr.
  - exact Hm.
  - exists h, r, l'. split; [reflexivity|]. split; [exact H1|exact H2].
Defined.

Lemma sample_input_witness_base (h : Hypothesis_) : headline_present (closing_input ledger1 h good_facts) = true.
Proof. vm_compute. reflexivity. Qed.

Lemma build_record_total_witness :
  exists r, build_round_record (closing_input ledger1 active_sample good_facts) = Ok r /\ review_normal r.
Proof.
  destruct (build_record_total (closing_input ledger1 active_sample good_facts)) as (r & H1 & H2 & _).
  - intros _. vm_compute. discriminate.
  - apply sample_input_witness_base.
  - exists r. split; [exact H1|exact H2].
Defined.

Lemma build_record_trust_witness :
  exists r, build_round_record (closing_input ledger1 active_sample good_facts) = Ok r /\
    candidate_retained r = Some true /\ perf_provenance r = Some framework.
Proof.
  destruct (build_round_record (closing_input ledger1 active_sample good_facts)) as [r|] eqn:Hr;
    [|vm_compute in Hr; discriminate Hr].
  assert (Hret : candidate_retained r = Some true)
    by (vm_compute in Hr; injection Hr as <-; vm_compute; reflexivity).
  exists r. split; [reflexivity|]. split; [exact Hret|].
  destruct (build_record_trust (closing_input ledger1 active_sample good_facts) r Hr) as (H & _).
  exact (proj2 (proj2 (proj1 (H Hret)))).
Defined.
