(* ===== verification/ReadModel.v ===== *)
(** The read model of a hypothesis search (src/vibesys/hypothesis/readmodel.py): the typed views
    a run shows outside the package, projected from the authoritative state without inferring
    anything. *)
From S2P Require Import Prelude Floats Metrics Plan History State Evidence Transitions Policy Iteration.

(** ** Views *)

Record HypothesisRoundView := mk_HypothesisRoundView {
  rv_round_number : Z;
  rv_passed : bool;
  rv_reviewed : bool;
  rv_hypothesis_outcome : option pystr;
  rv_judge_verdict : option JudgeVerdict;
  rv_perf_metric : option float;
  rv_perf_unit : option pystr;
  rv_perf_delta_pct : option float;
  rv_commit : option pystr;
  rv_official_evaluation : bool;
  rv_candidate_disposition : option pystr
}.

(** A terminal verdict, as the boundary reports one, and a finished round's. *)
Inductive TerminalVerdict := t_pass | t_fail.
Inductive FinishedVerdict := f_pass | f_fail | f_skipped.

Record HypothesisView := mk_HypothesisView {
  hv_hypothesis_id : pystr;
  hv_title : option pystr;
  hv_claim : option pystr;
  hv_action : option pystr;
  hv_first_round : Z;
  hv_last_round : Z;
  hv_rounds : list HypothesisRoundView;
  hv_resolved_outcome : option pystr;
  hv_judge_verdict : option TerminalVerdict;
  hv_perf_metric : option float;
  hv_perf_unit : option pystr;
  hv_perf_delta_pct : option float;
  hv_perf_metric_round : option Z;
  hv_perf_metric_name : option pystr;
  hv_perf_direction : option Direction;
  hv_perf_baseline_value : option float;
  hv_perf_baseline_round : option Z;
  hv_perf_baseline_commit : option pystr;
  hv_perf_delta_reason : option PerfDeltaReason;
  hv_kept : option bool;
  hv_strategy_disposition : pystr;
  hv_strategy_reason : option pystr;
  hv_active : bool;
  hv_last_experiment_revision : Z;
  hv_parent_commit : option pystr
}.

Record RoundView := mk_RoundView {
  vw_round_number : Z;
  vw_commit : option pystr;
  vw_perf_metric : option float;
  vw_perf_unit : option pystr;
  vw_passed : bool;
  vw_profile_skipped : bool;
  vw_official_evaluation : bool;
  vw_attempts : Z;
  vw_judge_verdict : option FinishedVerdict
}.

Record AgentRunProjection := mk_AgentRunProjection {
  ap_current_round : Z;
  ap_objectives : list pystr;
  ap_active_hypothesis_id : option pystr;
  ap_experiment_revision : Z;
  ap_hypotheses : list HypothesisView;
  ap_rounds : list RoundView
}.

(** [RoundSummary], [PluginProjection] and [RunView] of run/contracts.py. *)
Inductive SummaryStatus := s_completed | s_failed.
Record RoundSummary := mk_RoundSummary {
  rs_number : Z;
  rs_status : SummaryStatus;
  rs_attempts : Z;
  rs_judge_verdict : option FinishedVerdict;
  rs_perf_metric : option float;
  rs_perf_unit : option pystr;
  rs_profile_skipped : bool
}.
Inductive RunStatus := RS_UNKNOWN | RS_ACTIVE | RS_COMPLETED | RS_FAILED | RS_STOPPED.

Record PluginProjection (J : Type) := mk_PluginProjection {
  pj_payload : option J;
  pj_iterations : IterationTree;
  pj_rounds : list RoundSummary;
  pj_experiment_revision : option Z
}.
Arguments mk_PluginProjection {J}.

Record RunView (J : Type) := mk_RunView {
  run_id : pystr;
  loop : pystr;
  status : RunStatus;
  projection : option J;
  iterations : IterationTree;
  run_rounds : list RoundSummary;
  run_experiment_revision : option Z
}.
Arguments mk_RunView {J}.
Arguments projection {J}.
Arguments iterations {J}.
Arguments run_rounds {J}.

(** ** Copying one record *)

(** [_text]: [value or None]. *)
Definition text (value : option pystr) : option pystr := str_or value None.

Definition outcome (value : option pystr) : result (option pystr) :=
  match text value with
  | None => Ok None
  | Some v =>
      match outcome_of v with
      | Some o => Ok (Some (outcome_value o))
      | None =>
          match resolution_of v with
          | Some r => Ok (Some (resolution_value r))
          | None => Err (ValueError "{value!r} is not a valid HypothesisResolution" [AStr v])
          end
      end
  end.

Definition disposition (value : pystr) : result (option pystr) :=
  if str_truthy value then
    match disposition_of value with
    | Some d => Ok (Some (disposition_value d))
    | None => Err (ValueError "{value!r} is not a valid CandidateDisposition" [AStr value])
    end
  else Ok None.

(** [_judge_verdict]: the review states that are terminal verdicts. *)
Definition terminal_verdict (r : HypothesisReview) : option TerminalVerdict :=
  match r with PASS => Some t_pass | FAIL => Some t_fail | PENDING | DEFERRED => None end.

Definition round_finished_verdict (value : option JudgeVerdict) : result FinishedVerdict :=
  match value with
  | None => Err (ValueError "round record requires judge_verdict" [])
  | Some v_pass => Ok f_pass
  | Some v_fail => Ok f_fail
  | Some v_deferred => Ok f_skipped
  end.

Definition hypothesis_round_view (r : RoundRecord) : result HypothesisRoundView :=
  let* o := outcome (hypothesis_outcome r) in
  let* d := disposition (candidate_disposition r) in
  Ok (mk_HypothesisRoundView (round_number r) (passed r) (reviewed r) o (judge_verdict r)
        (perf_metric r) (text (perf_unit r)) (perf_delta_pct r) (text (commit r))
        (official_evaluation r) d).

Definition round_view (r : RoundRecord) : result RoundView :=
  let* v := round_finished_verdict (judge_verdict r) in
  Ok (mk_RoundView (round_number r) (text (commit r)) (perf_metric r) (text (perf_unit r)) (passed r)
        (profile_skipped r) (official_evaluation r) (attempts r) (Some v)).

Definition round_summary (v : RoundView) : RoundSummary :=
  mk_RoundSummary (vw_round_number v)
    (match vw_judge_verdict v with Some f_fail => s_failed | _ => s_completed end)
    (vw_attempts v) (vw_judge_verdict v) (vw_perf_metric v) (vw_perf_unit v) (vw_profile_skipped v).

(** ** One hypothesis *)

Definition hypothesis_view (h : Hypothesis_) (active_id : option pystr) : result HypothesisView :=
  let m := measurement h in
  let* views := mapM_result hypothesis_round_view (h_rounds h) in
  Ok (mk_HypothesisView (hypothesis_id h)
        (match text (Some (plan_title (plan h))) with
         | Some t => Some t
         | None => derive_hypothesis_title (plan_hypothesis (plan h))
         end)
        (text (Some (plan_hypothesis (plan h)))) (text (Some (plan_task (plan h))))
        (started_round h)
        (match last (h_rounds h) with Some r => round_number r | None => started_round h end)
        views
        (option_map resolution_value (resolution h))
        (terminal_verdict (review h))
        (option_map hm_value m)
        (match m with Some m => text (hm_unit m) | None => None end)
        (match m with Some m => hm_delta_pct m | None => None end)
        (option_map hm_round m)
        (match m with Some m => text (Some (hm_metric m)) | None => None end)
        (match m with Some m => hm_direction m | None => None end)
        (match m with Some m => hm_baseline_value m | None => None end)
        (match m with Some m => hm_baseline_round m | None => None end)
        (match m with Some m => text (hm_baseline_commit m) | None => None end)
        (delta_reason h)
        (h_candidate_retained h) (strategy_value (strategy h)) (strategy_reason h)
        (bool_decide (Some (hypothesis_id h) = active_id))
        (last_experiment_revision h) (parent_commit h)).

(** ** The projection *)

Definition objective_text (o : Objective) : pystr :=
  o_name o ++ py ":" ++ direction_value (o_direction o).

(** [_agent_run_projection]. *)
Definition agent_run_projection (s : HypothesisState) (experiment_revision : Z)
  : result AgentRunProjection :=
  let* hs := mapM_result (fun h => hypothesis_view h (active_hypothesis_id s)) (hypotheses s) in
  let* rs := mapM_result round_view (rounds s) in
  Ok (mk_AgentRunProjection (Z.of_nat (length (rounds s)))
        (map objective_text (objectives (metrics s))) (active_hypothesis_id s) experiment_revision
        hs rs).

(** The id of a headline metric: [metric_id or record.perf_unit or "performance"]. *)
Definition headline_id (metric_id unit : option pystr) : pystr :=
  match text metric_id with
  | Some m => m
  | None => match text unit with Some u => u | None => py "performance" end
  end.

Definition round_node (metric_id : option pystr) (metric_direction : option Direction)
  (v : RoundView) : result IterationSummary :=
  let number := int_str (vw_round_number v) in
  let* headline :=
    match vw_perf_metric v with
    | None => Ok []
    | Some value =>
        let* m := construct_metric
                    (mk_IterationMetric (headline_id metric_id (vw_perf_unit v)) (Some value)
                       (vw_perf_unit v) metric_direction) in
        Ok [m]
    end in
  construct_summary
    (mk_IterationSummary (py "round:" ++ number) None KIND_ROUND (py "Round " ++ number)
       (vw_round_number v) (if vw_passed v then IT_COMPLETED else IT_FAILED) 0 headline).

Section Projection.
(** The digest of a node list, and pydantic's JSON dump and validation of the projection. *)
Context (digest : list IterationSummary -> pystr).
Context {J : Type} (model_dump : AgentRunProjection -> J).

Definition iteration_tree_from_agent_projection (p : AgentRunProjection)
  (metric_id : option pystr) (metric_direction : option Direction) : result IterationTree :=
  let* nodes := mapM_result (round_node metric_id metric_direction) (ap_rounds p) in
  from_nodes digest nodes.

(** The tree under the primary axis of the state's own space. *)
Definition state_tree (s : HypothesisState) (p : AgentRunProjection) : result IterationTree :=
  iteration_tree_from_agent_projection p (option_map o_name (primary (metrics s)))
    (option_map o_direction (primary (metrics s))).

Definition project_run_view (s : HypothesisState) (id : pystr) (st : RunStatus)
  (experiment_revision : Z) (lp : pystr) : result (RunView J) :=
  let* p := agent_run_projection s experiment_revision in
  let* tree := state_tree s p in
  Ok (mk_RunView id lp st (Some (model_dump p)) tree (map round_summary (ap_rounds p))
        (Some experiment_revision)).

Definition project_hypothesis_state (s : HypothesisState) : result (PluginProjection J) :=
  let* p := agent_run_projection s (State.experiment_revision s) in
  let* tree := state_tree s p in
  Ok (mk_PluginProjection (Some (model_dump p)) tree (map round_summary (ap_rounds p))
        (Some (State.experiment_revision s))).

(** [payload.get("kind") == "agent"] and [AgentRunProjection.model_validate]. *)
Context (kind_is_agent : J -> bool) (model_validate : J -> result AgentRunProjection).

Definition agent_projection (view : RunView J) : result (option AgentRunProjection) :=
  match projection view with
  | None => Ok None
  | Some payload =>
      if kind_is_agent payload then
        let* p := model_validate payload in Ok (Some p)
      else Ok None
  end.
End Projection.

(** ** Lemmas: what each record projects to *)

Lemma outcome_of_Some v o : outcome_of v = Some o -> outcome_value o = v.
Proof. intros [_ H%pystr_eqb_true]%find_Some_elem. done. Qed.
Lemma resolution_of_Some v r : resolution_of v = Some r -> resolution_value r = v.
Proof. intros [_ H%pystr_eqb_true]%find_Some_elem. done. Qed.
Lemma disposition_of_Some v d : disposition_of v = Some d -> disposition_value d = v.
Proof. intros [_ H%pystr_eqb_true]%find_Some_elem. done. Qed.

(** Under the round contract the stored vocabulary strings are copied verbatim. *)
Lemma contract_vocabulary r :
  is_ok (validate_round_contract r) = true ->
  outcome (hypothesis_outcome r) = Ok (hypothesis_outcome r) /\
  disposition (candidate_disposition r) = Ok (Some (candidate_disposition r)).
Proof.
  destruct (validate_round_contract r) as [[]|] eqn:E; [intros _|done].
  unfold validate_round_contract in E. rewrite !guard_Ok in E. destruct E as (_ & _ & Ho & Hd & _).
  apply bool_decide_eq_false in Hd. split.
  - destruct (hypothesis_outcome r) as [[|c v]|]; [done| |done]. unfold outcome, text, str_or. simpl.
    destruct (outcome_of (c :: v)) eqn:E; [by rewrite (outcome_of_Some _ _ E)|].
    destruct (resolution_of (c :: v)) eqn:E'; [by rewrite (resolution_of_Some _ _ E')|done].
  - unfold disposition. destruct (disposition_of (candidate_disposition r)) as [d|] eqn:E; [|done].
    apply disposition_of_Some in E. rewrite <- E. by destruct d.
Qed.

Definition round_view_of (r : RoundRecord) : HypothesisRoundView :=
  mk_HypothesisRoundView (round_number r) (passed r) (reviewed r) (hypothesis_outcome r)
    (judge_verdict r) (perf_metric r) (text (perf_unit r)) (perf_delta_pct r) (text (commit r))
    (official_evaluation r) (Some (candidate_disposition r)).

Lemma hypothesis_round_view_eq r :
  is_ok (validate_round_contract r) = true -> hypothesis_round_view r = Ok (round_view_of r).
Proof.
  intros [Ho Hd]%contract_vocabulary. unfold hypothesis_round_view. rewrite Ho. cbn [bind].
  by rewrite Hd.
Qed.

Definition finished (r : RoundRecord) : FinishedVerdict :=
  match judge_verdict r with Some v_pass => f_pass | Some v_fail => f_fail | _ => f_skipped end.
Definition run_round_of (r : RoundRecord) : RoundView :=
  mk_RoundView (round_number r) (text (commit r)) (perf_metric r) (text (perf_unit r)) (passed r)
    (profile_skipped r) (official_evaluation r) (attempts r) (Some (finished r)).

Lemma round_view_eq r :
  is_ok (validate_round_contract r) = true -> round_view r = Ok (run_round_of r).
Proof.
  intros [v Hv]%contract_judge. unfold round_view, run_round_of, finished. rewrite Hv. by destruct v.
Qed.

(** ** Lemmas: the tree of a run *)

(** What a round needs to be shown: a number that can be an ordinal and a finite headline. *)
Definition showable (r : RoundRecord) : bool :=
  (0 <=? round_number r) && opt_all f_finite (perf_metric r).

Definition node_of (metric_id : option pystr) (d : option Direction) (r : RoundRecord)
  : IterationSummary :=
  mk_IterationSummary (py "round:" ++ int_str (round_number r)) None KIND_ROUND
    (py "Round " ++ int_str (round_number r)) (round_number r)
    (if passed r then IT_COMPLETED else IT_FAILED) 0
    (match perf_metric r with
     | Some x => [mk_IterationMetric (headline_id metric_id (text (perf_unit r))) (Some x)
                    (text (perf_unit r)) d]
     | None => []
     end).

Lemma text_truthy v t : text v = Some t -> str_truthy t = true.
Proof. by destruct v as [[|c v]|]; intros [= <-]. Qed.

Lemma headline_id_truthy metric_id unit : str_truthy (headline_id metric_id unit) = true.
Proof.
  unfold headline_id. destruct (text metric_id) eqn:E; [by eapply text_truthy|].
  destruct (text unit) eqn:E'; [by eapply text_truthy|done].
Qed.

Lemma round_node_exact metric_id d r n :
  round_node metric_id d (run_round_of r) = Ok n <-> showable r = true /\ n = node_of metric_id d r.
Proof.
  unfold round_node, node_of, showable, construct_metric, construct_summary. simpl.
  rewrite Z.ltb_antisym.
  destruct (perf_metric r) as [x|]; simpl; [rewrite headline_id_truthy; destruct (f_finite x)|];
    simpl; destruct (0 <=? round_number r); simpl; naive_solver.
Qed.

Lemma nodes_mapM metric_id d rs nodes :
  mapM_result (round_node metric_id d) (map run_round_of rs) = Ok nodes <->
  (forall r, r ∈ rs -> showable r = true) /\ nodes = map (node_of metric_id d) rs.
Proof.
  revert nodes. induction rs as [|r rs IH]; intros nodes; cbn [map mapM_result].
  { split; [intros [= <-]; split; [by intros r ?%not_elem_of_nil|done]|by intros [_ ->]]. }
  rewrite bind_Ok. split.
  - intros (n & [Hs ->]%round_node_exact & (ns & [Hall ->]%IH & [= <-])%bind_Ok).
    split; [|done]. intros x [->|Hx]%elem_of_cons; auto.
  - intros [Hall ->]. exists (node_of metric_id d r). split.
    + apply round_node_exact. split; [apply Hall; set_solver|done].
    + apply bind_Ok. exists (map (node_of metric_id d) rs). split; [|done]. apply IH.
      split; [|done]. intros x Hx. apply Hall. set_solver.
Qed.

Section Tree.
Context (metric_id : option pystr) (d : option Direction) (rs : list RoundRecord).
Context (Hsorted : StronglySorted earlier rs) (Hshow : forall r, r ∈ rs -> showable r = true).

Lemma nodes_wf : tree_wf (map (node_of metric_id d) rs).
Proof.
  assert (Hnd : NoDup rs).
  { clear Hshow. induction Hsorted as [|r l Hs IH Hall]; constructor; [|by apply IH].
    intros Hr. rewrite Forall_forall in Hall. specialize (Hall r Hr). unfold earlier in Hall. lia. }
  assert (Hnum : NoDup (map round_number rs)) by by apply sorted_nodup.
  split.
  - rewrite map_map. apply NoDup_fmap_2_strong; [|done]. simpl. intros x y Hx Hy [= E].
    apply (NoDup_map_inj round_number rs); [done..|]. apply int_str_inj; [| |done].
    + specialize (Hshow x Hx). unfold showable in Hshow. rewrite andb_true_iff in Hshow. lia.
    + specialize (Hshow y Hy). unfold showable in Hshow. rewrite andb_true_iff in Hshow. lia.
  - rewrite map_map. unfold place. simpl. apply NoDup_fmap_2_strong; [|done].
    intros x y Hx Hy [= E]. by apply (NoDup_map_inj round_number rs).
  - intros n (r & -> & Hr)%list_elem_of_fmap. simpl. unfold children. clear.
    induction rs as [|x l IH]; simpl; [done|]. exact IH.
  - intros n (r & -> & Hr)%list_elem_of_fmap. exists 0%nat. by constructor.
Qed.

Lemma nodes_sorted : StronglySorted (fun a b => node_le a b = true) (map (node_of metric_id d) rs).
Proof.
  clear Hshow. induction Hsorted as [|r l Hs IH Hall]; simpl; constructor; [by apply IH|].
  rewrite Forall_forall in Hall. apply Forall_forall. intros n (x & -> & Hx)%list_elem_of_fmap.
  apply node_le_spec. simpl. right. split; [done|]. left. by apply Hall.
Qed.
End Tree.

Section Projected.
Context (digest : list IterationSummary -> pystr) {J : Type} (model_dump : AgentRunProjection -> J).
Context (Hdigest : forall l, str_truthy (digest l) = true).
Context (s : HypothesisState) (Hok : state_ok s).

Lemma round_contract r : r ∈ rounds s -> is_ok (validate_round_contract r) = true.
Proof. intros (h & Hh & Hr)%elem_of_rounds. by destruct (valid_round s Hok h r Hh Hr) as (_ & _ & ?). Qed.

Definition hypothesis_view_of (h : Hypothesis_) : HypothesisView :=
  match hypothesis_view h (active_hypothesis_id s) with
  | Ok v => v
  | Err _ => mk_HypothesisView [] None None None 0 0 [] None None None None None None None None None
               None None None None [] None false 0 None
  end.

Lemma hypothesis_view_total h :
  h ∈ hypotheses s ->
  hypothesis_view h (active_hypothesis_id s) = Ok (hypothesis_view_of h) /\
  hv_rounds (hypothesis_view_of h) = map round_view_of (h_rounds h).
Proof.
  intros Hh. unfold hypothesis_view_of, hypothesis_view.
  rewrite (mapM_result_map _ round_view_of); [done|]. intros r Hr.
  apply hypothesis_round_view_eq. by destruct (valid_round s Hok h r Hh Hr) as (_ & _ & ?).
Qed.

Lemma agent_run_projection_eq revision :
  agent_run_projection s revision =
  Ok (mk_AgentRunProjection (Z.of_nat (length (rounds s)))
        (map objective_text (objectives (metrics s))) (active_hypothesis_id s) revision
        (map hypothesis_view_of (hypotheses s)) (map run_round_of (rounds s))).
Proof.
  unfold agent_run_projection. rewrite (mapM_result_map _ hypothesis_view_of).
  - cbn [bind]. rewrite (mapM_result_map _ run_round_of); [done|].
    intros r Hr. by apply round_view_eq, round_contract.
  - intros h Hh. by apply hypothesis_view_total.
Qed.

Lemma state_tree_exact revision p t :
  agent_run_projection s revision = Ok p ->
  state_tree digest s p = Ok t <->
  (forall r, r ∈ rounds s -> showable r = true) /\
  t = mk_IterationTree
        (digest (map (node_of (option_map o_name (primary (metrics s)))
                        (option_map o_direction (primary (metrics s)))) (rounds s)))
        (map (node_of (option_map o_name (primary (metrics s)))
                (option_map o_direction (primary (metrics s)))) (rounds s)).
Proof.
  rewrite agent_run_projection_eq. intros [= <-].
  unfold state_tree, iteration_tree_from_agent_projection. cbn [ap_rounds].
  set (mid := option_map o_name _). set (dir := option_map o_direction _).
  pose proof (rounds_sorted s Hok) as Hsorted.
  rewrite bind_Ok. split.
  - intros (ns & [Hshow ->]%nodes_mapM & Ht). split; [done|].
    apply from_nodes_Ok in Ht as (_ & Hp & Hs & Hr); [|done].
    assert (tree_nodes t = map (node_of mid dir) (rounds s)) as E.
    { rewrite <- (sort_by_id node_le (tree_nodes t)) by done.
      apply sort_by_unique; [apply node_le_total|apply node_le_trans| |by apply nodes_sorted|done].
      intros x y Hx Hy Hxy Hyx. apply (NoDup_map_inj it_id _ x y (wf_ids _ (nodes_wf mid dir _ Hsorted Hshow)));
        [done..|]. by apply node_le_id. }
    destruct t as [rev ns]. simpl in *. congruence.
  - intros [Hshow ->]. exists (map (node_of mid dir) (rounds s)). split; [by apply nodes_mapM|].
    apply from_nodes_Ok; [done|]. simpl. split_and!; [by apply nodes_wf|done|by apply nodes_sorted|done].
Qed.
End Projected.

(** ** Lemmas: the headline of a hypothesis *)

(** A round that carries a headline measurement. *)
Definition headline_round (r : RoundRecord) : bool :=
  official_evaluation r && trusted_perf_provenance (perf_provenance r)
  && is_some (perf_metric r) && is_some (perf_unit r).

Lemma measured_headline r prior space :
  measurable r = true ->
  match measured r prior space with
  | Some m => headline_round r = true /\ perf_metric r = Some (hm_value m) /\
      hm_round m = round_number r /\ hm_unit m = perf_unit r /\ hm_delta_pct m = perf_delta_pct r /\
      hm_baseline_round m = perf_baseline_round r /\ hm_baseline_commit m = perf_baseline_commit r /\
      hm_baseline_value m = perf_baseline_metric r
  | None => headline_round r = false
  end.
Proof.
  intros Hm. pose proof (measure_eq r prior space Hm) as E. unfold headline_round.
  destruct (measured r prior space) as [m|]; unfold measure in E;
    destruct (perf_metric r), (perf_unit r), (official_evaluation r), (perf_provenance r) as [[]|];
    simpl in E |- *; try discriminate E; try done; try (by destruct (negb _); discriminate E).
  apply guard_Ok in E as [_ [= <-]]. done.
Qed.

Lemma replay_headline space id rs :
  (forall r, r ∈ rs -> measurable r = true) ->
  match e_measurement (replay space [] rs id no_evidence) with
  | Some m => exists r prior, latest_such (fun r => owned_by id r && headline_round r) rs r /\
      measured r prior space = Some m
  | None => forall r, r ∈ rs -> owned_by id r && headline_round r = false
  end.
Proof.
  induction rs as [|r rs IH] using rev_ind; intros Hm; [by intros r ?%not_elem_of_nil|].
  rewrite replay_snoc.
  assert (Hrm : measurable r = true) by (apply Hm, elem_of_snoc; by right).
  assert (IH' := IH (fun x Hx => Hm x (proj2 (elem_of_snoc rs r x) (or_introl Hx)))). clear IH.
  set (e := replay space [] rs id no_evidence) in *.
  change (bool_decide (r_hypothesis_id r = Some id)) with (owned_by id r).
  pose proof (measured_headline r rs space Hrm) as Hr.
  assert (Hold : owned_by id r && headline_round r = false ->
    match e_measurement e with
    | Some m => exists x prior,
        latest_such (fun r => owned_by id r && headline_round r) (rs ++ [r]) x /\
        measured x prior space = Some m
    | None => forall x, x ∈ rs ++ [r] -> owned_by id x && headline_round x = false
    end).
  { intros Hno. destruct (e_measurement e) as [m|].
    - destruct IH' as (x & prior & Hx & Hmx). exists x, prior. split; [by apply latest_such_skip|done].
    - intros x [Hx| ->]%elem_of_snoc; [by apply IH'|done]. }
  destruct (owned_by id r) eqn:Eo; [|by apply Hold]. cbn [project_evidence e_measurement].
  simpl app. destruct (measured r rs space) as [m|] eqn:Em.
  - exists r, rs. split; [|done]. apply latest_such_last. rewrite Eo. by destruct Hr as [-> _].
  - apply Hold. by rewrite Hr.
Qed.

Lemma latest_such_lfilter {A} (p q : A -> bool) l x :
  latest_such (fun y => q y && p y) l x -> latest_such p (List.filter q l) x.
Proof.
  intros (pre & post & -> & [Hq Hp]%andb_true_iff & Hpost).
  exists (List.filter q pre), (List.filter q post). rewrite List.filter_app. simpl. rewrite Hq.
  split_and!; [done|done|]. intros y [Hy Hqy]%elem_of_filter. specialize (Hpost y Hy).
  by rewrite Hqy in Hpost.
Qed.

Lemma headline_of_settled s h :
  settled s -> h ∈ hypotheses s ->
  match measurement h with
  | Some m => exists r, latest_such headline_round (h_rounds h) r /\
      perf_metric r = Some (hm_value m) /\ hm_round m = round_number r /\
      hm_unit m = perf_unit r /\ hm_delta_pct m = perf_delta_pct r /\
      hm_baseline_round m = perf_baseline_round r /\ hm_baseline_commit m = perf_baseline_commit r /\
      hm_baseline_value m = perf_baseline_metric r
  | None => forall r, r ∈ h_rounds h -> headline_round r = false
  end.
Proof.
  intros [Hok Hm Hsum] Hh. specialize (Hsum h Hh). apply (f_equal evidence_of) in Hsum.
  unfold summarized in Hsum. rewrite evidence_of_with in Hsum.
  pose proof (f_equal e_measurement Hsum) as E. cbn [evidence_of e_measurement] in E.
  pose proof (replay_headline (metrics s) (hypothesis_id h) (rounds s) Hm) as H. rewrite E in H.
  rewrite <- (owned_rounds s Hok h Hh). destruct (measurement h) as [m|].
  - destruct H as (r & prior & Hr & Hmr). exists r. split; [by apply latest_such_lfilter|].
    assert (Hin : r ∈ rounds s) by (destruct Hr as (pre & post & -> & _); set_solver).
    pose proof (measured_headline r prior (metrics s) (Hm r Hin)) as Hf. rewrite Hmr in Hf. apply Hf.
  - intros r [Hr Hq]%elem_of_filter. specialize (H r Hr). by rewrite Hq in H.
Qed.

(** ** Properties *)

(** The read model of a valid state exists exactly when every round has a nonnegative
    number and a finite headline; then its navigation tree and its round list hold one entry per
    round, in chronological order. The tree calls a round completed exactly when it passed,
    while the round list calls it failed only on a fail verdict. *)
Lemma run_view_exact {J} (digest : list IterationSummary -> pystr)
  (model_dump : AgentRunProjection -> J) (s : HypothesisState) (id lp : pystr) (st : RunStatus)
  (revision : Z) :
  (forall l, str_truthy (digest l) = true) -> state_ok s ->
  ((exists view, project_run_view digest model_dump s id st revision lp = Ok view) <->
   forall r, r ∈ rounds s -> showable r = true) /\
  forall view, project_run_view digest model_dump s id st revision lp = Ok view ->
    map it_ordinal (tree_nodes (iterations view)) = map round_number (rounds s) /\
    map it_status (tree_nodes (iterations view))
    = map (fun r => if passed r then IT_COMPLETED else IT_FAILED) (rounds s) /\
    map rs_number (run_rounds view) = map round_number (rounds s) /\
    map rs_status (run_rounds view)
    = map (fun r => if bool_decide (judge_verdict r = Some v_fail) then s_failed else s_completed)
        (rounds s).
Proof.
  intros Hd Hok. unfold project_run_view. pose proof (agent_run_projection_eq s Hok revision) as Hp.
  pose proof (fun t => state_tree_exact digest Hd s Hok revision _ t Hp) as Ht. rewrite Hp.
  cbn [bind]. split; [split|].
  - intros (view & (t & Htree & _)%bind_Ok). by apply Ht in Htree as [? _].
  - intros Hshow. eexists. apply bind_Ok. eexists. split; [by apply Ht|done].
  - intros view (t & Htree & [= <-])%bind_Ok. apply Ht in Htree as [_ ->].
    cbn [iterations run_rounds tree_nodes ap_rounds]. rewrite !map_map.
    split_and!; apply map_ext; intros r; try done. cbn. unfold finished.
    by destruct (judge_verdict r) as [[]|].
Qed.

(** C40. The headline a view shows is never invented: on a reachable state it is, as one tuple,
    the reading of the latest official round of that hypothesis the framework itself measured,
    and a hypothesis without such a round shows none. *)
Theorem headline_traceable (s : HypothesisState) (h : Hypothesis_) (v : HypothesisView) :
  reachable s -> h ∈ hypotheses s -> hypothesis_view h (active_hypothesis_id s) = Ok v ->
  (forall x, hv_perf_metric v = Some x ->
     exists r, latest_such headline_round (h_rounds h) r /\ perf_metric r = Some x /\
       hv_perf_metric_round v = Some (round_number r) /\ hv_perf_unit v = text (perf_unit r) /\
       hv_perf_delta_pct v = perf_delta_pct r /\ hv_perf_baseline_value v = perf_baseline_metric r /\
       hv_perf_baseline_round v = perf_baseline_round r /\
       hv_perf_baseline_commit v = text (perf_baseline_commit r)) /\
  (hv_perf_metric v = None <-> forall r, r ∈ h_rounds h -> headline_round r = false).
Proof.
  intros Hs%reachable_is_settled Hh (views & _ & [= <-])%bind_Ok.
  pose proof (headline_of_settled s h Hs Hh) as H. cbn -[text].
  destruct (measurement h) as [m|]; cbn -[text].
  - destruct H as (r & Hr & Hv & Hn & Hu & Hdl & Hbr & Hbc & Hbv). split.
    + intros x [= <-]. exists r. rewrite Hn, Hu, Hdl, Hbr, Hbc, Hbv. split_and!; done.
    + split; [done|]. intros Hno. destruct Hr as (pre & post & Hl & Hr & _).
      rewrite (Hno r) in Hr; [done|]. rewrite Hl. set_solver.
  - split; [done|]. split; [by intros _|done].
Qed.

(** ** Witnesses *)

Lemma run_view_exact_witness :
  exists view, project_run_view (fun _ => py "0") id closed (py "run") RS_ACTIVE 3 (py "loop") = Ok view /\
    map it_ordinal (tree_nodes (iterations view)) = [1] /\
    map rs_status (run_rounds view) = [s_completed].
Proof.
  destruct (run_view_exact (fun _ => py "0") id closed (py "run") (py "loop") RS_ACTIVE 3) as [H1 H2].
  - intros l. reflexivity.
  - vm_compute. reflexivity.
  - assert (Hall : forallb showable (rounds closed) = true) by (vm_compute; reflexivity).
    rewrite forallb_forall in Hall. destruct (proj2 H1) as [view Hview].
    { intros r Hr. apply Hall. by apply list_elem_of_In. }
    destruct (H2 view Hview) as (Ho & _ & _ & Hs).
    exists view. split; [exact Hview|]. rewrite Ho, Hs. split; vm_compute; reflexivity.
Defined.

Lemma headline_traceable_witness :
  exists h v, h ∈ hypotheses closed /\ hypothesis_view h (active_hypothesis_id closed) = Ok v /\
    exists x r, hv_perf_metric v = Some x /\ latest_such headline_round (h_rounds h) r /\
      perf_metric r = Some x.
Proof.
  destruct (by_id closed (py "h1")) as [h|] eqn:E; [|vm_compute in E; discriminate].
  pose proof (find_Some_elem _ _ _ E) as [Hh _].
  destruct (hypothesis_view h (active_hypothesis_id closed)) as [v|] eqn:Ev.
  - exists h, v. split; [exact Hh|]. split; [exact Ev|].
    destruct (headline_traceable closed h v closed_reachable Hh Ev) as [H _].
    destruct (hv_perf_metric v) as [x|] eqn:Ex.
    + destruct (H x eq_refl) as (r & Hr & Hx & _). exists x, r. split_and!; done.
    + exfalso. vm_compute in E. injection E as <-. vm_compute in Ev. injection Ev as <-.
      vm_compute in Ex. discriminate Ex.
  - exfalso. vm_compute in E. injection E as <-. vm_compute in Ev. discriminate Ev.
Defined.
