(* ===== verification/Regex.v ===== *)
(** Regular expressions over code points, as far as the sources use Python's [re]: character
    classes, sequence, alternation and repetition, decided by derivatives ([matches]) and
    specified by the language they denote ([lang]). [search_end] is [re.search] of a pattern
    anchored by a word boundary on the left and by [$] on the right. *)
From S2P Require Import Prelude.

Inductive re :=
| Void
| Eps
| Cls (p : N -> bool)
| Cat (r s : re)
| Alt (r s : re)
| Star (r : re).

Inductive lang : re -> pystr -> Prop :=
| lang_eps : lang Eps []
| lang_cls p c : p c = true -> lang (Cls p) [c]
| lang_cat r s u v : lang r u -> lang s v -> lang (Cat r s) (u ++ v)
| lang_altl r s u : lang r u -> lang (Alt r s) u
| lang_altr r s u : lang s u -> lang (Alt r s) u
| lang_nil r : lang (Star r) []
| lang_star r u v : lang r u -> lang (Star r) v -> lang (Star r) (u ++ v).

Fixpoint nullable (r : re) : bool :=
  match r with
  | Void | Cls _ => false
  | Eps | Star _ => true
  | Cat r s => nullable r && nullable s
  | Alt r s => nullable r || nullable s
  end.

(** Smart constructors keep derivatives small. *)
Definition cat (r s : re) : re :=
  match r, s with
  | Void, _ | _, Void => Void
  | Eps, s => s
  | r, s => Cat r s
  end.

Definition alt (r s : re) : re :=
  match r, s with
  | Void, s => s
  | r, Void => r
  | r, s => Alt r s
  end.

Fixpoint deriv (c : N) (r : re) : re :=
  match r with
  | Void | Eps => Void
  | Cls p => if p c then Eps else Void
  | Cat r s => alt (cat (deriv c r) s) (if nullable r then deriv c s else Void)
  | Alt r s => alt (deriv c r) (deriv c s)
  | Star r => cat (deriv c r) (Star r)
  end.

(** [re.fullmatch] as a decision. *)
Fixpoint matches (r : re) (s : pystr) : bool :=
  match s with
  | [] => nullable r
  | c :: s' => matches (deriv c r) s'
  end.

(** ** The matcher decides the language *)

Create HintDb re.
#[export] Hint Constructors lang : re.

Lemma nullable_lang r : nullable r = true <-> lang r [].
Proof.
  induction r; simpl; rewrite ?andb_true_iff, ?orb_true_iff.
  - split; [done|by inversion 1].
  - split; [by constructor|done].
  - split; [done|by inversion 1].
  - rewrite IHr1, IHr2. split; [intros [??]; by apply (lang_cat _ _ [] [])|].
    inversion 1 as [| |? ? u v| | | |]; subst.
    match goal with H : _ ++ _ = [] |- _ => apply app_eq_nil in H as [-> ->] end. done.
  - rewrite IHr1, IHr2. split; [intros [?|?]; auto with re|by inversion 1; subst; [left|right]].
  - split; [auto with re|done].
Qed.

Lemma lang_void s : ~ lang Void s.
Proof. inversion 1. Qed.

Lemma lang_cat_void_l s w : ~ lang (Cat Void s) w.
Proof. inversion 1; subst. by eapply lang_void. Qed.

Lemma lang_cat_void_r r w : ~ lang (Cat r Void) w.
Proof. inversion 1; subst. by eapply lang_void. Qed.

Lemma lang_cat_eps_l s w : lang (Cat Eps s) w <-> lang s w.
Proof.
  split; [inversion 1; subst; by match goal with H : lang Eps _ |- _ => inversion H end|].
  intros ?. apply (lang_cat _ _ [] w); auto with re.
Qed.

Lemma lang_alt_split r s w : lang (Alt r s) w <-> lang r w \/ lang s w.
Proof. split; [by inversion 1; subst; [left|right]|intros [?|?]; auto with re]. Qed.

Ltac void_side :=
  split; intros Hv; exfalso;
  first [exact (lang_void _ Hv) | exact (lang_cat_void_l _ _ Hv) | exact (lang_cat_void_r _ _ Hv)].

Lemma lang_cat_iff r s w : lang (cat r s) w <-> lang (Cat r s) w.
Proof.
  destruct r; [void_side| |..]; destruct s; simpl;
    first [reflexivity | by rewrite lang_cat_eps_l | void_side].
Qed.

Lemma lang_alt_iff r s w : lang (alt r s) w <-> lang r w \/ lang s w.
Proof.
  pose proof (lang_void w) as Hw.
  destruct r; [simpl; tauto|..]; destruct s; simpl; first [apply lang_alt_split | tauto].
Qed.

Lemma lang_star_cons r c w :
  lang (Star r) (c :: w) <-> exists u v, w = u ++ v /\ lang r (c :: u) /\ lang (Star r) v.
Proof.
  split; [|intros (u & v & -> & Hu & Hv); by apply (lang_star r (c :: u) v)].
  intros H. remember (Star r) as R eqn:HR. remember (c :: w) as W eqn:HW.
  induction H as [| | | | | |r' u v Hu _ Hv IH]; try discriminate.
  injection HR as ->. destruct u as [|c' u]; simpl in HW; [by apply IH|].
  injection HW as -> <-. by exists u, v.
Qed.

Lemma lang_cat_cons r s c w :
  lang (Cat r s) (c :: w) <->
  (exists u v, w = u ++ v /\ lang r (c :: u) /\ lang s v) \/ (lang r [] /\ lang s (c :: w)).
Proof.
  split.
  - inversion 1 as [| |? ? u v Hu Hv Hr Huv| | | |]; subst.
    destruct u as [|c' u]; simpl in Huv; [right; by subst|].
    injection Huv as -> <-. left. by exists u, v.
  - intros [(u & v & -> & Hu & Hv)|[Hr Hs]]; [by apply (lang_cat r s (c :: u) v)|].
    by apply (lang_cat r s [] (c :: w)).
Qed.

Lemma deriv_lang c r w : lang (deriv c r) w <-> lang r (c :: w).
Proof.
  revert w. induction r as [| |p|r IHr s IHs|r IHr s IHs|r IHr]; intros w; simpl.
  - split; inversion 1.
  - split; inversion 1.
  - destruct (p c) eqn:Hp; split; inversion 1; subst; try constructor; congruence.
  - rewrite lang_alt_iff, lang_cat_iff, lang_cat_cons, <- nullable_lang.
    assert (lang (Cat (deriv c r) s) w <->
            exists u v, w = u ++ v /\ lang r (c :: u) /\ lang s v) as ->.
    { split.
      - inversion 1 as [| |? ? u v Hu Hv| | | |]; subst. exists u, v. by rewrite <- IHr.
      - intros (u & v & -> & Hu & Hv). constructor; [by apply IHr|done]. }
    destruct (nullable r); [rewrite IHs; naive_solver|].
    split; [intros [?|Hf]; [by left|inversion Hf]|intros [?|[? _]]; [by left|done]].
  - rewrite lang_alt_iff, IHr, IHs.
    split; [intros [?|?]; auto with re|by inversion 1; subst; [left|right]].
  - rewrite lang_cat_iff, lang_star_cons. split.
    + inversion 1 as [| |? ? u v Hu Hv| | | |]; subst. exists u, v. by rewrite <- IHr.
    + intros (u & v & -> & Hu & Hv). constructor; [by apply IHr|done].
Qed.

Lemma matches_lang r s : matches r s = true <-> lang r s.
Proof.
  revert r. induction s as [|c s IH]; intros r; simpl; [apply nullable_lang|].
  by rewrite IH, deriv_lang.
Qed.

(** ** Derived forms *)

Definition Plus (r : re) : re := Cat r (Star r).
Definition Opt (r : re) : re := Alt r Eps.
Fixpoint Alts (rs : list re) : re :=
  match rs with [] => Void | [r] => r | r :: rs => Alt r (Alts rs) end.

Definition range (lo hi c : N) : bool := ((lo <=? c) && (c <=? hi))%N.
Definition is_digit (c : N) : bool := range 48 57 c.
Definition is_lower (c : N) : bool := range 97 122 c.
Definition is_upper (c : N) : bool := range 65 90 c.
Definition one_of (s : pystr) (c : N) : bool := bool_decide (c ∈ s).

(** ASCII lower-casing; under [(?i)] a literal of ASCII letters matches the characters whose
    lower-case form it is. The four non-ASCII characters that Python folds onto ASCII letters
    are given by [folds_to]. *)
Definition ascii_lower (c : N) : N := if is_upper c then (c + 32)%N else c.
Definition folds_to (c : N) : N :=
  if one_of [304; 305]%N c then 105 else if (c =? 383)%N then 115
  else if (c =? 8490)%N then 107 else ascii_lower c.

Fixpoint Lit (s : pystr) : re :=
  match s with [] => Eps | [c] => Cls (N.eqb c) | c :: s => Cat (Cls (N.eqb c)) (Lit s) end.
(** A lower-case literal under [(?i)]. *)
Fixpoint LitI (s : pystr) : re :=
  match s with
  | [] => Eps
  | [c] => Cls (fun d => N.eqb c (folds_to d))
  | c :: s => Cat (Cls (fun d => N.eqb c (folds_to d))) (LitI s)
  end.

(** ** Anchored search *)

(** [\b] between two neighbours, [None] standing for the end of the text. *)
Definition boundary (word : N -> bool) (a b : option N) : bool :=
  let w x := match x with Some c => word c | None => false end in xorb (w a) (w b).

(** The leftmost split [p ++ n] of [s] where a boundary lies between [p] and [n] and [ok n]. *)
Fixpoint search_end (word : N -> bool) (ok : pystr -> bool) (prev : option N) (s : pystr) :
  option (pystr * pystr) :=
  if boundary word prev (head s) && ok s then Some ([], s)
  else match s with
       | [] => None
       | c :: s' =>
           match search_end word ok (Some c) s' with
           | Some (p, n) => Some (c :: p, n)
           | None => None
           end
       end.

Lemma search_end_split word ok prev s p n :
  search_end word ok prev s = Some (p, n) -> s = p ++ n /\ ok n = true.
Proof.
  revert prev p. induction s as [|c s IH]; intros prev p; simpl.
  - destruct (boundary _ _ _ && ok []) eqn:Hb; [|done].
    apply andb_true_iff in Hb as [_ Hb]. by intros [= <- <-].
  - destruct (boundary word prev (Some c) && ok (c :: s)) eqn:Hb.
    { apply andb_true_iff in Hb as [_ Hb]. by intros [= <- <-]. }
    destruct (search_end word ok (Some c) s) as [[p' n']|] eqn:Hs; [|done].
    intros [= <- <-]. by destruct (IH _ _ Hs) as [-> ?].
Qed.

Lemma search_end_whole word ok s c s' :
  s = c :: s' -> word c = true -> ok s = true -> search_end word ok None s = Some ([], s).
Proof. intros -> Hw Hok. simpl. unfold boundary. by rewrite Hw, Hok. Qed.
