(* ===== verification/Redactor.v ===== *)
(** Credential redaction (src/libs/vs-redaction): the grammar of secret names, the incremental
    redactor of a diagnostic stream ([DiagnosticRedactor], a per-character state machine with a
    bounded private buffer) and the redaction of a complete text. [reference] is the
    specification of the stream: what an onlooker who sees the whole text decides. *)
From S2P Require Import Prelude Regex.

(** ** The grammar of secret names *)

Definition COMPACT_SECRET_NAMES : list pystr := map (fun s => py s) [
  "accesskey"; "accesstoken"; "apikey"; "authtoken"; "awsaccesskeyid"; "awssecretaccesskey";
  "bearertoken"; "clientkey"; "clientsecret"; "databasepassword"; "dbpassword"; "githubtoken";
  "idtoken"; "openaiapikey"; "privatekey"; "refreshtoken"; "secretkey"; "sessiontoken"]%string.

Definition ascii_alnum (c : N) : bool := is_digit c || is_lower c || is_upper c.
(** [[a-z0-9]] under [(?i:...)]. *)
Definition alnum_i : re := Cls (fun c => is_digit c || is_lower (folds_to c)).
Definition joiner : re := Cls (one_of (py "_-")).

Definition SECRET_NAME : re :=
  Alt
    (Alts
       [Cat (Plus (Cat (Plus alnum_i) joiner))
          (Cat (Alts (map (fun s => LitI (py s)) ["token"; "password"; "secret"; "key"]%string))
             (Star (Cat joiner (Plus alnum_i))));
        Alts (map LitI COMPACT_SECRET_NAMES);
        LitI (py "password"); LitI (py "secret"); LitI (py "token")])
    (Cat (Star (Cls ascii_alnum))
       (Cat (Alts (map (fun s => Lit (py s)) ["Token"; "Password"; "Secret"; "Key"]%string))
          (Opt (Cat (Cls is_upper) (Star (Cls ascii_alnum)))))).

(** [\w] on the ASCII characters. *)
Definition ascii_word (c : N) : bool := ascii_alnum c || (c =? 95)%N.

(** [_SECRET_AT_END.search] and [_BEARER_AT_END.search] on a token: the text before the name and
    the name. *)
Definition SECRET_AT_END (token : pystr) : option (pystr * pystr) :=
  search_end ascii_word
    (fun n => matches SECRET_NAME n && boundary ascii_word (last n) None) None token.
Definition BEARER_AT_END (token : pystr) : option (pystr * pystr) :=
  search_end ascii_word (matches (LitI (py "bearer"))) None token.

(** ** The stream *)

Definition MAX_PENDING_CHARACTERS : Z := 1024 * 1024.
Definition OVERSIZED_CANDIDATE : pystr :=
  py "[vibesys-redaction] oversized diagnostic token omitted".
Definition REDACTED : pystr := py "[REDACTED]".

Inductive Mode :=
| TEXT
| ASSIGNMENT_SEPARATOR
| ASSIGNMENT_VALUE
| BEARER_VALUE
| SECRET_VALUE
| SEALED.
#[export] Instance Mode_eq_dec : EqDecision Mode.
Proof. solve_decision. Defined.

Definition is_token_character (c : N) : bool := ascii_alnum c || one_of (py "_-") c.

Record DiagnosticRedactor := mk_DiagnosticRedactor {
  rd_mode : Mode;
  rd_pending : list pystr;
  rd_pending_size : Z;
  rd_finished : bool
}.
#[export] Instance eta_DiagnosticRedactor : Eta DiagnosticRedactor := fun r =>
  mk_DiagnosticRedactor (rd_mode r) (rd_pending r) (rd_pending_size r) (rd_finished r).

Definition fresh_redactor : DiagnosticRedactor := mk_DiagnosticRedactor TEXT [] 0 false.

(** Each method returns the new state and the pieces it appends to [emitted]. *)
Abbreviation emits := (DiagnosticRedactor * list pystr)%type.

Definition clear_pending (r : DiagnosticRedactor) : DiagnosticRedactor :=
  r <| rd_pending := [] |> <| rd_pending_size := 0 |>.

Definition replace_pending (text : pystr) (r : DiagnosticRedactor) : DiagnosticRedactor :=
  r <| rd_pending := [text] |> <| rd_pending_size := Z.of_nat (length text) |>.

Definition emit_pending (r : DiagnosticRedactor) : emits := (clear_pending r, rd_pending r).

Definition hold (text : pystr) (r : DiagnosticRedactor) : emits :=
  let r := r <| rd_pending := rd_pending r ++ [text] |>
             <| rd_pending_size := rd_pending_size r + Z.of_nat (length text) |> in
  if rd_pending_size r <=? MAX_PENDING_CHARACTERS then (r, [])
  else ((clear_pending r) <| rd_mode := SEALED |>, [OVERSIZED_CANDIDATE]).

Definition finish_token (separator : N) (r : DiagnosticRedactor) : emits :=
  let token := concat (rd_pending r) in
  match SECRET_AT_END token with
  | Some (before, name) =>
      let r := replace_pending name r in
      if is_space separator then
        let '(r, e) := hold [separator] r in
        (r <| rd_mode := ASSIGNMENT_SEPARATOR |>, before :: e)
      else if one_of (py ":=") separator then
        let '(r, e) := hold [separator] r in
        (r <| rd_mode := ASSIGNMENT_VALUE |>, before :: e)
      else
        let '(r, e) := emit_pending r in (r, before :: e ++ [[separator]])
  | None =>
      match BEARER_AT_END token, is_space separator with
      | Some (before, name), true =>
          let '(r, e) := hold [separator] (replace_pending name r) in
          (r <| rd_mode := BEARER_VALUE |>, before :: e)
      | _, _ => let '(r, e) := emit_pending r in (r, e ++ [[separator]])
      end
  end.

Definition consume_text (c : N) (r : DiagnosticRedactor) : emits :=
  if is_token_character c then hold [c] r else finish_token c r.

Definition consume_secret_value (c : N) (r : DiagnosticRedactor) : emits :=
  if is_space c || one_of (py ",;") c then (r <| rd_mode := TEXT |>, [[c]]) else (r, []).

(** In the last branch the mode is TEXT when [_consume] is called again. *)
Definition consume_assignment_separator (c : N) (r : DiagnosticRedactor) : emits :=
  if is_space c then hold [c] r
  else if one_of (py ":=") c then
    let '(r, e) := hold [c] r in (r <| rd_mode := ASSIGNMENT_VALUE |>, e)
  else
    let '(r, e) := emit_pending r in
    let '(r, e') := consume_text c (r <| rd_mode := TEXT |>) in
    (r, e ++ e').

Definition consume_value_prefix (c : N) (r : DiagnosticRedactor) : emits :=
  if is_space c then hold [c] r
  else if one_of (py ",;") c then
    let '(r, e) := emit_pending r in (r <| rd_mode := TEXT |>, e ++ [[c]])
  else
    let '(r, e) := emit_pending r in (r <| rd_mode := SECRET_VALUE |>, e ++ [REDACTED]).

Definition consume (c : N) (r : DiagnosticRedactor) : emits :=
  match rd_mode r with
  | SEALED => (r, [])
  | SECRET_VALUE => consume_secret_value c r
  | ASSIGNMENT_SEPARATOR => consume_assignment_separator c r
  | ASSIGNMENT_VALUE | BEARER_VALUE => consume_value_prefix c r
  | TEXT => consume_text c r
  end.

Fixpoint consume_all (text : pystr) (r : DiagnosticRedactor) : emits :=
  match text with
  | [] => (r, [])
  | c :: text =>
      let '(r, e) := consume c r in
      let '(r, e') := consume_all text r in
      (r, e ++ e')
  end.

Definition append (text : pystr) (r : DiagnosticRedactor) : result (DiagnosticRedactor * pystr) :=
  raise (ValueError "cannot append to a finished diagnostic stream" []) when rd_finished r in
  let '(r, emitted) := consume_all text r in Ok (r, concat emitted).

Definition finish (r : DiagnosticRedactor) : DiagnosticRedactor * pystr :=
  if rd_finished r then (r, [])
  else
    let r := r <| rd_finished := true |> in
    if bool_decide (rd_mode r = SECRET_VALUE \/ rd_mode r = SEALED) then (clear_pending r, [])
    else (clear_pending r, concat (rd_pending r)).

(** What a client does with a stream: append every fragment, then finish, and join the output. *)
Fixpoint appends (fragments : list pystr) (r : DiagnosticRedactor) :
  result (DiagnosticRedactor * pystr) :=
  match fragments with
  | [] => Ok (r, [])
  | f :: fs =>
      let* (r, out) := append f r in
      let* (r, out') := appends fs r in
      Ok (r, out ++ out')
  end.

Definition redact_stream (fragments : list pystr) (r : DiagnosticRedactor) : result pystr :=
  let* (r, out) := appends fragments r in Ok (out ++ snd (finish r)).

(** ** Redaction of a complete text *)

Section CompleteText.
(** [\w] on the characters beyond ASCII, from Python's Unicode tables. *)
Context (unicode_word : N -> bool).

Definition word_character (c : N) : bool :=
  if (c <? 128)%N then ascii_word c else unicode_word c.

(** A character of [[^\s,;]]. *)
Definition is_value_character (c : N) : bool := negb (is_space c || one_of (py ",;") c).

Fixpoint span (p : N -> bool) (s : pystr) : pystr * pystr :=
  match s with
  | c :: s' => if p c then let '(a, b) := span p s' in (c :: a, b) else ([], s)
  | [] => ([], [])
  end.

(** [\s*[:=]\s*] and a value: what is kept before the value, the value, and the rest. *)
Definition assignment_tail (s : pystr) : option (pystr * pystr * pystr) :=
  let '(s1, t) := span is_space s in
  match t with
  | k :: t =>
      let '(s2, t) := span is_space t in
      match span is_value_character t with
      | (c :: v, t) =>
          if one_of (py ":=") k then Some (s1 ++ [k] ++ s2, c :: v, t) else None
      | _ => None
      end
  | [] => None
  end.

(** A name of the language of [r] at the start of the text, a boundary, and an assignment. The
    character after a name is a blank or a separator, so a name has one end. *)
Fixpoint match_name (r : re) (before : option N) (s : pystr) : option (pystr * pystr * pystr) :=
  match (if nullable r && boundary word_character before (head s)
         then assignment_tail s else None), s with
  | Some m, _ => Some m
  | None, [] => None
  | None, c :: s' =>
      match match_name (deriv c r) (Some c) s' with
      | Some (kept, v, t) => Some (c :: kept, v, t)
      | None => None
      end
  end.

Definition match_assignment (before : option N) (s : pystr) : option (pystr * pystr * pystr) :=
  if boundary word_character before (head s) then match_name SECRET_NAME before s else None.

Definition match_bearer (before : option N) (s : pystr) : option (pystr * pystr * pystr) :=
  let name := take 6 s in
  let '(s1, t) := span is_space (drop 6 s) in
  match s1, span is_value_character t with
  | _ :: _, (c :: v, t) =>
      if boundary word_character before (head s) && matches (LitI (py "bearer")) name
      then Some (name ++ s1, c :: v, t) else None
  | _, _ => None
  end.

(** [pattern.sub(r"\1[REDACTED]", text)]; the fuel is the length of the text. *)
Fixpoint sub_fuel (m : option N -> pystr -> option (pystr * pystr * pystr)) (fuel : nat)
    (before : option N) (s : pystr) : pystr :=
  match fuel, s with
  | S fuel, c :: s' =>
      match m before s with
      | Some (kept, v, t) => kept ++ REDACTED ++ sub_fuel m fuel (last v) t
      | None => c :: sub_fuel m fuel (Some c) s'
      end
  | _, _ => []
  end.

Definition sub (m : option N -> pystr -> option (pystr * pystr * pystr)) (s : pystr) : pystr :=
  sub_fuel m (length s) None s.

Definition redact_diagnostic_text (text : pystr) : pystr :=
  sub match_bearer (sub match_assignment text).

Definition redact_diagnostic_tail (text : pystr) (max_chars : Z) : result pystr :=
  raise (ValueError "max_chars must be non-negative" []) when max_chars <? 0 in
  if max_chars =? 0 then Ok []
  else
    let out := redact_diagnostic_text text in
    Ok (drop (length out - Z.to_nat max_chars) out).

End CompleteText.

(** ** The reference: hide every introduced value

    [back] is the visible text read backwards since the last hidden value. A value is introduced
    by a token that ends in a secret name, an assignment sign and blanks around it, or by a token
    that ends in "bearer" and a blank. *)

Definition token_before (back : pystr) : pystr := rev (fst (span is_token_character back)).
Definition secret_before (back : pystr) : bool :=
  bool_decide (is_Some (SECRET_AT_END (token_before back))).
Definition bearer_before (back : pystr) : bool :=
  bool_decide (is_Some (BEARER_AT_END (token_before back))).
Definition blank_before (back : pystr) : bool :=
  match back with c :: _ => is_space c | [] => false end.

Definition assigned (back : pystr) : bool :=
  match lstrip_by is_space back with
  | k :: back => one_of (py ":=") k && secret_before (lstrip_by is_space back)
  | [] => false
  end.



(** ** What has to be hidden

    The credentials of a text: the value that an assignment gives to a secret name, and the value
    that the word bearer carries, wherever the name or the word stands in the text that is shown or
    inside a value that bearer carries. [Carried v] is inside such a value, [v] what of it was read,
    backwards. *)
Inductive Hiding := Visible | Assigned | Carried (value : pystr).

Definition bearing (back : pystr) : bool := blank_before back && bearer_before (lstrip_by is_space back).



(** Nothing the value ends in can introduce another one. *)
Definition quiet (value : pystr) : bool :=
  negb (assigned value) && negb (secret_before value) && negb (bearer_before value).

(** No secret name ends in the word bearer and a blank and a value, and no value of bearer ends in a
    secret name, a name and its assignment sign, or the word bearer. *)
Fixpoint separate_from (back : pystr) (h : Hiding) (text : pystr) : bool :=
  match text with
  | [] => true
  | c :: text =>
      match h, is_value_character c with
      | Visible, true =>
          if assigned back then separate_from [] Assigned text
          else if bearing back then
            negb (secret_before (lstrip_by is_space back)) && separate_from [] (Carried [c]) text
          else separate_from (c :: back) Visible text
      | Visible, false => separate_from (c :: back) Visible text
      | Assigned, true => separate_from [] Assigned text
      | Assigned, false => separate_from [c] Visible text
      | Carried v, true => separate_from [] (Carried (c :: v)) text
      | Carried v, false => quiet v && separate_from (c :: v) Visible text
      end
  end.
Definition separate (text : pystr) : bool := separate_from [] Visible text.

(** ** Steps *)

#[local] Arguments is_space : simpl never.
#[local] Arguments one_of : simpl never.
#[local] Arguments is_token_character : simpl never.
#[local] Arguments is_value_character : simpl never.
#[local] Arguments MAX_PENDING_CHARACTERS : simpl never.

Lemma consume_all_app t1 t2 r :
  consume_all (t1 ++ t2) r =
  (let '(r, e) := consume_all t1 r in let '(r, e') := consume_all t2 r in (r, e ++ e')).
Proof.
  revert r. induction t1 as [|c t1 IH]; intros r; simpl; [by destruct (consume_all t2 r)|].
  destruct (consume c r) as [r1 e1]. rewrite IH.
  destruct (consume_all t1 r1) as [r2 e2]. destruct (consume_all t2 r2) as [r3 e3].
  by rewrite app_assoc.
Qed.

Lemma hold_finished c r : rd_finished (hold c r).1 = rd_finished r.
Proof. unfold hold. by case_match. Qed.

Lemma consume_text_finished c r : rd_finished (consume_text c r).1 = rd_finished r.
Proof.
  unfold consume_text, finish_token, emit_pending. case_match; [apply hold_finished|].
  assert (forall n, rd_finished (hold [c] (replace_pending n r)).1 = rd_finished r) as Hh.
  { intros n. by rewrite hold_finished. }
  repeat case_match; simplify_eq/=; try done;
    match goal with H : hold _ (replace_pending ?n _) = _ |- _ => specialize (Hh n); by rewrite H in Hh end.
Qed.

(** Use a lemma about the state a call returns, at the calls a case analysis has named. *)
Ltac at_calls lem :=
  match goal with
  | H : consume_text ?c ?r = _ |- _ => let L := fresh in pose proof (lem c r) as L; rewrite H in L
  | H : hold ?c ?r = _ |- _ => let L := fresh in pose proof (lem c r) as L; rewrite H in L
  end.
Ltac consume_cases :=
  unfold consume, consume_secret_value, consume_assignment_separator, consume_value_prefix,
    emit_pending;
  repeat case_match; simplify_eq/=.

Lemma consume_finished c r : rd_finished (consume c r).1 = rd_finished r.
Proof.
  consume_cases; auto using consume_text_finished, hold_finished;
    first [at_calls consume_text_finished | at_calls hold_finished]; done.
Qed.

Lemma consume_all_finished t r : rd_finished (consume_all t r).1 = rd_finished r.
Proof.
  revert r. induction t as [|c t IH]; intros r; simpl; [done|].
  pose proof (consume_finished c r). destruct (consume c r) as [r1 e1]. simpl in *.
  specialize (IH r1). destruct (consume_all t r1) as [r2 e2]. simpl in *. congruence.
Qed.

Lemma appends_concat fs r :
  rd_finished r = false ->
  appends fs r = Ok (let '(r, e) := consume_all (concat fs) r in (r, concat e)).
Proof.
  revert r. induction fs as [|f fs IH]; intros r Hf; simpl; [done|].
  unfold append. rewrite Hf, consume_all_app.
  pose proof (consume_all_finished f r) as Hf1. destruct (consume_all f r) as [r1 e1]. simpl in *.
  rewrite IH by congruence. destruct (consume_all (concat fs) r1) as [r2 e2]. simpl.
  by rewrite concat_app.
Qed.

Lemma redact_stream_one text r :
  rd_finished r = false ->
  redact_stream [text] r =
  Ok (let '(r, e) := consume_all text r in concat e ++ (finish r).2).
Proof.
  intros Hf. unfold redact_stream. rewrite appends_concat by done. simpl. rewrite app_nil_r.
  by destruct (consume_all text r).
Qed.

(** How a stream is cut into fragments is irrelevant. *)
Theorem fragments_irrelevant (fs gs : list pystr) (r : DiagnosticRedactor) :
  rd_finished r = false -> concat fs = concat gs ->
  redact_stream fs r = redact_stream gs r /\ is_ok (redact_stream fs r) = true.
Proof.
  intros Hf Heq. unfold redact_stream. rewrite !appends_concat, Heq by done. simpl.
  by destruct (consume_all (concat gs) r).
Qed.

(** ** The private buffer is bounded *)

Definition bounded (r : DiagnosticRedactor) : Prop :=
  rd_pending_size r = Z.of_nat (length (concat (rd_pending r)))
  /\ rd_pending_size r <= MAX_PENDING_CHARACTERS.

Lemma clear_bounded r : bounded (clear_pending r).
Proof. split; simpl; [done|]. unfold MAX_PENDING_CHARACTERS. lia. Qed.

Lemma mode_bounded m r : bounded r -> bounded (r <| rd_mode := m |>).
Proof. done. Qed.

Lemma hold_bounded c r : bounded r -> bounded (hold c r).1.
Proof.
  intros [Hs Hm]. unfold hold. simpl. case_match; [|by apply (clear_bounded r)].
  split; simpl; [|lia]. rewrite concat_app, length_app, Hs. simpl. rewrite app_nil_r. lia.
Qed.

Lemma replace_bounded n r :
  Z.of_nat (length n) <= MAX_PENDING_CHARACTERS -> bounded (replace_pending n r).
Proof. intros Hn. split; simpl; [by rewrite app_nil_r|done]. Qed.

Create HintDb redact.
#[local] Hint Resolve clear_bounded mode_bounded hold_bounded : redact.

Lemma search_bounded word ok token p n r :
  bounded r -> token = concat (rd_pending r) ->
  search_end word ok None token = Some (p, n) -> bounded (replace_pending n r).
Proof.
  intros [Hs Hm] -> [Heq _]%search_end_split. apply replace_bounded.
  rewrite Heq, length_app in Hs. lia.
Qed.

Lemma finish_token_bounded c r : bounded r -> bounded (finish_token c r).1.
Proof.
  intros Hb. unfold finish_token, emit_pending.
  assert (forall c r', bounded r' -> forall m, bounded ((hold [c] r').1 <| rd_mode := m |>)) as Hh
    by auto with redact.
  destruct (SECRET_AT_END _) as [[p n]|] eqn:Hsec.
  - specialize (Hh c _ (search_bounded _ _ _ _ _ _ Hb eq_refl Hsec)).
    destruct (hold [c] (replace_pending n r)) as [r' e]; simpl in Hh.
    repeat case_match; simpl; auto with redact.
  - destruct (BEARER_AT_END _) as [[p n]|] eqn:Hbe; [|by auto with redact].
    specialize (Hh c _ (search_bounded _ _ _ _ _ _ Hb eq_refl Hbe)).
    destruct (hold [c] (replace_pending n r)) as [r' e]; simpl in Hh.
    repeat case_match; simpl; auto with redact.
Qed.

Lemma consume_text_bounded c r : bounded r -> bounded (consume_text c r).1.
Proof.
  intros Hb. unfold consume_text. case_match; [by apply hold_bounded|by apply finish_token_bounded].
Qed.

Lemma consume_bounded c r : bounded r -> bounded (consume c r).1.
Proof.
  intros Hb. consume_cases; auto using consume_text_bounded with redact.
  - at_calls hold_bounded. auto with redact.
  - at_calls consume_text_bounded. match goal with L : bounded _ -> _ |- _ => by apply L, (clear_bounded r) end.
  - exact (clear_bounded r).
  - exact (clear_bounded r).
  - exact (clear_bounded r).
  - exact (clear_bounded r).
Qed.

Lemma consume_all_bounded t r : bounded r -> bounded (consume_all t r).1.
Proof.
  revert r. induction t as [|c t IH]; intros r Hb; simpl; [done|].
  pose proof (consume_bounded c r Hb) as H1. destruct (consume c r) as [r1 e1].
  specialize (IH r1 H1). by destruct (consume_all t r1).
Qed.

(** The private buffer never exceeds its limit, however long the stream: after any appends
    its recorded size is its real size and at most the limit, and finishing empties it. *)
Theorem pending_bounded (fs : list pystr) (r : DiagnosticRedactor) (out : pystr) :
  appends fs fresh_redactor = Ok (r, out) ->
  rd_pending_size r = Z.of_nat (length (concat (rd_pending r)))
  /\ rd_pending_size r <= MAX_PENDING_CHARACTERS
  /\ concat (rd_pending (finish r).1) = []
  /\ finish (finish r).1 = ((finish r).1, []).
Proof.
  rewrite appends_concat by done.
  pose proof (consume_all_bounded (concat fs) fresh_redactor) as [Hs Hm].
  { exact (clear_bounded fresh_redactor). }
  pose proof (consume_all_finished (concat fs) fresh_redactor) as Hf.
  destruct (consume_all (concat fs) fresh_redactor) as [r' e]. simpl in *. intros [= -> _].
  repeat split; [done|done| |]; unfold finish; rewrite Hf; by case_bool_decide.
Qed.

(** ** Values are hidden *)

(** The redactor waits for the next value. *)
Definition awaiting_value (r : DiagnosticRedactor) : bool :=
  match rd_mode r with ASSIGNMENT_VALUE | BEARER_VALUE => true | _ => false end.

Lemma value_char_tests c :
  is_value_character c = true -> is_space c = false /\ one_of (py ",;") c = false.
Proof.
  unfold is_value_character. rewrite negb_true_iff, orb_false_iff. done.
Qed.

Lemma secret_value_absorbs v r :
  rd_mode r = SECRET_VALUE -> Forall (fun c => is_value_character c = true) v ->
  consume_all v r = (r, []).
Proof.
  intros Hm. induction 1 as [|c v [Hs Ho]%value_char_tests _ IH]; [done|].
  simpl. unfold consume. rewrite Hm. unfold consume_secret_value. rewrite Hs, Ho.
  simpl. by rewrite IH.
Qed.

Lemma value_redacted v r :
  awaiting_value r = true -> v <> [] -> Forall (fun c => is_value_character c = true) v ->
  consume_all v r =
  ((clear_pending r) <| rd_mode := SECRET_VALUE |>, rd_pending r ++ [REDACTED]).
Proof.
  intros Hm Hv Hall. destruct v as [|c v]; [done|].
  inversion Hall as [|? ? [Hs Ho]%value_char_tests Hall']; subst. simpl.
  assert (consume c r = ((clear_pending r) <| rd_mode := SECRET_VALUE |>, rd_pending r ++ [REDACTED]))
    as ->.
  { unfold awaiting_value in Hm. unfold consume, consume_value_prefix.
    destruct (rd_mode r); try discriminate; by rewrite Hs, Ho. }
  rewrite secret_value_absorbs by done. by rewrite app_nil_r.
Qed.

(** C13. A credential does not influence the output: wherever the redactor waits for a value, in
    any state it can be in, two values of any lengths are replaced by the same marker and leave
    the same state behind, so the whole output, whatever follows, is the same. *)
Theorem values_do_not_interfere (r : DiagnosticRedactor) (v w rest : pystr) :
  rd_finished r = false -> awaiting_value r = true ->
  v <> [] -> Forall (fun c => is_value_character c = true) v ->
  w <> [] -> Forall (fun c => is_value_character c = true) w ->
  redact_stream [v ++ rest] r = redact_stream [w ++ rest] r
  /\ consume_all v r = consume_all w r
  /\ concat (consume_all v r).2 = concat (rd_pending r) ++ REDACTED.
Proof.
  intros Hf Ha Hv Hv' Hw Hw'.
  pose proof (value_redacted v r Ha Hv Hv') as Hcv. pose proof (value_redacted w r Ha Hw Hw') as Hcw.
  rewrite !redact_stream_one, !consume_all_app, Hcv, Hcw by done.
  split_and!; [done|done|]. simpl. by rewrite concat_app.
Qed.

(** ** The seal *)

Lemma hold_fits text r :
  rd_pending_size r + Z.of_nat (length text) <= MAX_PENDING_CHARACTERS ->
  hold text r = (r <| rd_pending := rd_pending r ++ [text] |>
                   <| rd_pending_size := rd_pending_size r + Z.of_nat (length text) |>, []).
Proof. intros H. unfold hold. simpl. by rewrite (proj2 (Z.leb_le _ _) H). Qed.

Lemma hold_overflows text r :
  MAX_PENDING_CHARACTERS < rd_pending_size r + Z.of_nat (length text) ->
  hold text r = ((clear_pending r) <| rd_mode := SEALED |>, [OVERSIZED_CANDIDATE]).
Proof. intros H. unfold hold. simpl. by rewrite (proj2 (Z.leb_gt _ _) H). Qed.

Lemma hold_blanks n r :
  rd_mode r = ASSIGNMENT_SEPARATOR ->
  rd_pending_size r + Z.of_nat n <= MAX_PENDING_CHARACTERS ->
  consume_all (replicate n 32%N) r =
  (r <| rd_pending := rd_pending r ++ replicate n [32%N] |>
     <| rd_pending_size := rd_pending_size r + Z.of_nat n |>, []).
Proof.
  revert r. induction n as [|n IH]; intros r Hm Hs.
  { destruct r. simpl. by rewrite app_nil_r, Z.add_0_r. }
  simpl. unfold consume. rewrite Hm. unfold consume_assignment_separator.
  change (is_space 32) with true. cbv iota. rewrite hold_fits by (simpl; lia).
  rewrite IH by (simpl; try done; lia). simpl. rewrite <- app_assoc, Hm. simpl. f_equal. f_equal. lia.
Qed.

(** A sealed stream can be unsealed. A candidate that outgrows the limit emits the marker
    and sets the mode SEALED, but when the character that overflows is the assignment sign the
    caller overwrites the mode: the stream goes on, although the class promises that the rest is
    suppressed. *)
Lemma seal_is_overwritten :
  redact_stream
    [py "token" ++ replicate (Z.to_nat (MAX_PENDING_CHARACTERS - 5)) 32%N ++ py "=a later text"]
    fresh_redactor
  = Ok (OVERSIZED_CANDIDATE ++ REDACTED ++ py " later text").
Proof.
  assert (exists n, Z.to_nat (MAX_PENDING_CHARACTERS - 5) = S n
                    /\ Z.of_nat n + 6 = MAX_PENDING_CHARACTERS) as (n & -> & Hn).
  { exists (Z.to_nat (MAX_PENDING_CHARACTERS - 6)). unfold MAX_PENDING_CHARACTERS. lia. }
  change (py "token" ++ replicate (S n) 32%N ++ py "=a later text")
    with (py "token " ++ replicate n 32%N ++ 61%N :: py "a later text").
  assert (consume_all (py "token ") fresh_redactor =
          (mk_DiagnosticRedactor ASSIGNMENT_SEPARATOR [py "token"; [32%N]] 6 false, [[]])) as Htoken
    by (by vm_compute).
  rewrite redact_stream_one, consume_all_app, Htoken by done.
  rewrite consume_all_app, hold_blanks by (cbn [rd_pending_size rd_mode]; (done || lia)).
  cbn [consume_all]. unfold consume at 1. cbn [rd_mode upd].
  unfold consume_assignment_separator.
  change (is_space 61) with false. change (one_of (py ":=") 61) with true. cbv iota.
  rewrite hold_overflows by (simpl; lia). by vm_compute.
Qed.

(** ** The stream computes the reference *)

































(** ** The reference hides what has to be hidden *)

(** The same is introduced after both, whatever comes next. *)
Definition alike (back back' : pystr) : Prop :=
  forall t, assigned (t ++ back) = assigned (t ++ back') /\ bearing (t ++ back) = bearing (t ++ back')
            /\ secret_before (lstrip_by is_space (t ++ back)) = secret_before (lstrip_by is_space (t ++ back')).

Lemma alike_refl back : alike back back.
Proof. by intros t. Qed.








(** The stream redactor is weaker than the redaction of a complete text, which it is tested to match.
    When the value of a bearer prefix is itself a secret name with an assignment, the stream hides the
    name as the bearer's value and lets the assigned credential through; and when a secret name ends in
    the word bearer, the stream waits for an assignment sign and lets the carried credential through. *)
Lemma stream_leaks_what_text_hides (unicode_word : N -> bool) :
  redact_stream [py "Bearer secret = hunter2"] fresh_redactor
    = Ok (py "Bearer [REDACTED] = hunter2")
  /\ redact_diagnostic_text unicode_word (py "Bearer secret = hunter2")
    = py "Bearer [REDACTED] = [REDACTED]"
  /\ redact_stream [py "api-token-bearer hunter2"] fresh_redactor
    = Ok (py "api-token-bearer hunter2")
  /\ redact_diagnostic_text unicode_word (py "api-token-bearer hunter2")
    = py "api-token-bearer [REDACTED]"
  /\ separate (py "Bearer secret = hunter2") = false /\ separate (py "api-token-bearer hunter2") = false.
Proof. split_and!; by vm_compute. Qed.

(** ** Witnesses *)

Lemma fragments_irrelevant_witness :
  redact_stream [py "API_TO"; py "KEN=ab"; py "c, x"] fresh_redactor
  = redact_stream [py "API_TOKEN=abc, x"] fresh_redactor.
Proof. by apply (fragments_irrelevant _ [py "API_TOKEN=abc, x"] fresh_redactor). Defined.

Lemma pending_bounded_witness :
  exists r out,
    appends [py "log API_TOKEN ="] fresh_redactor = Ok (r, out)
    /\ rd_pending_size r = Z.of_nat (length (concat (rd_pending r)))
    /\ rd_pending_size r = 11 /\ out = py "log ".
Proof.
  destruct (appends [py "log API_TOKEN ="] fresh_redactor) as [[r out]|] eqn:H.
  - exists r, out. pose proof (pending_bounded _ _ _ H) as (H1 & _).
    vm_compute in H. injection H as <- <-. by split_and!.
  - vm_compute in H. discriminate.
Defined.

Definition awaiting_example : DiagnosticRedactor := (consume_all (py "API_KEY=") fresh_redactor).1.

Lemma values_do_not_interfere_witness :
  redact_stream [py "alpha" ++ py ", next"] awaiting_example
  = redact_stream [py "a-much-longer-value" ++ py ", next"] awaiting_example.
Proof.
  apply (values_do_not_interfere awaiting_example); try reflexivity; try discriminate;
    apply Forall_forall; intros c Hc; vm_compute in Hc;
    repeat (apply elem_of_cons in Hc as [->|Hc]; [reflexivity|]); by apply elem_of_nil in Hc.
Defined.

