(* ===== verification/Issues.v ===== *)
(** The issue tracker (src/libs/vs-issue-tracker, core.py, policy.py and format.py): the board's
    data, the operations of [_MemoryBoard] over a storage hook, the two storages (memory and the
    JSON file of [IssueBoard]), and the policy under which an agent may file an issue. *)
From S2P Require Import Prelude Floats.

(** ** Data *)

Inductive IssueType := BUG | FEATURE | PERF.
Inductive IssueStatus := OPEN | IN_PROGRESS | CLOSED | BLOCKED.
#[export] Instance IssueType_eq_dec : EqDecision IssueType.
Proof. solve_decision. Defined.
#[export] Instance IssueStatus_eq_dec : EqDecision IssueStatus.
Proof. solve_decision. Defined.

Definition type_value (t : IssueType) : pystr :=
  match t with BUG => py "bug" | FEATURE => py "feature" | PERF => py "perf" end.
Definition status_value (s : IssueStatus) : pystr :=
  match s with
  | OPEN => py "open" | IN_PROGRESS => py "in_progress" | CLOSED => py "closed"
  | BLOCKED => py "blocked"
  end.

(** [IssueType(value)] and [IssueStatus(value)]. *)
Definition parse_type (value : pystr) : result IssueType :=
  match find (fun t => pystr_eqb (type_value t) value) [BUG; FEATURE; PERF] with
  | Some t => Ok t
  | None => Err (ValueError "{!r} is not a valid IssueType" [AStr value])
  end.
Definition parse_status (value : pystr) : result IssueStatus :=
  match find (fun s => pystr_eqb (status_value s) value) [OPEN; IN_PROGRESS; CLOSED; BLOCKED] with
  | Some s => Ok s
  | None => Err (ValueError "{!r} is not a valid IssueStatus" [AStr value])
  end.
(** An argument that is the member itself or its value. *)
Definition coerce {T} (parse : pystr -> result T) (arg : T + pystr) : result T :=
  match arg with inl t => Ok t | inr s => parse s end.
Definition coerce_opt {T} (parse : pystr -> result T) (x : option (T + pystr)) : result (option T) :=
  match x with None => Ok None | Some x => let* t := coerce parse x in Ok (Some t) end.

Definition TYPE_RANK (t : IssueType) : Z :=
  match t with BUG => 0 | FEATURE => 1 | PERF => 2 end.

(** A decoded JSON value: event payloads and the raw store. *)
Inductive json :=
| JNull
| JBool (b : bool)
| JInt (z : Z)
| JFloat (f : float)
| JStr (s : pystr)
| JArr (l : list json)
| JObj (fields : list (pystr * json)).

Record IssueEvent := mk_IssueEvent {
  ev_timestamp : pystr;
  ev_actor : pystr;
  ev_action : pystr;
  ev_iteration : option Z;
  ev_note : pystr;
  ev_payload : option (list (pystr * json));
  ev_key : option pystr
}.

Record Issue := mk_Issue {
  i_id : Z;
  i_type : IssueType;
  i_title : pystr;
  i_description : pystr;
  i_status : IssueStatus;
  i_created_by : pystr;
  i_created_iter : Z;
  i_created_at : pystr;
  i_updated_at : pystr;
  i_attempts : Z;
  i_history : list IssueEvent;
  i_closed_iter : option Z;
  i_create_key : option pystr
}.
#[export] Instance eta_Issue : Eta Issue := fun i =>
  mk_Issue (i_id i) (i_type i) (i_title i) (i_description i) (i_status i) (i_created_by i)
    (i_created_iter i) (i_created_at i) (i_updated_at i) (i_attempts i) (i_history i)
    (i_closed_iter i) (i_create_key i).

Definition has_key (i : Issue) (key : pystr) : bool :=
  bool_decide (i_create_key i = Some key)
  || existsb (fun e => bool_decide (ev_key e = Some key)) (i_history i).

Definition STORE_VERSION : Z := 1.

Record IssueBoardData := mk_IssueBoardData { d_next_id : Z; d_issues : list Issue }.
#[export] Instance eta_IssueBoardData : Eta IssueBoardData := fun d =>
  mk_IssueBoardData (d_next_id d) (d_issues d).

(** The field bounds and the model validator. *)
Definition valid_issue_identity (d : IssueBoardData) : result IssueBoardData :=
  let issue_ids := map i_id (d_issues d) in
  raise (ValidationError "next_id or id below 1")
    when (d_next_id d <? 1) || existsb (fun i => i <? 1) issue_ids in
  raise (ValidationError "issue IDs must be unique") when negb (nodupb issue_ids) in
  raise (ValidationError "next_id must be greater than every persisted issue ID")
    when existsb (fun i => d_next_id d <=? i) issue_ids in
  Ok d.
Definition valid_data (d : IssueBoardData) : bool := is_ok (valid_issue_identity d).

Definition empty_data : IssueBoardData := mk_IssueBoardData 1 [].

Definition issue_not_found (issue_id : Z) : exn :=
  KeyError (py "issue #" ++ int_str issue_id ++ py " not found").

(** ** The board over a storage hook

    [store_read] is what [_refresh_locked] leaves in [_data], [store_write] is the effect of
    [_save_locked] on the store. *)
Class BoardStore (S : Type) := {
  store_read : S -> IssueBoardData -> result IssueBoardData;
  store_write : IssueBoardData -> S -> S
}.

Record Board (S : Type) := mk_Board {
  b_data : IssueBoardData;
  b_store : S;
  (** Readings taken of the clock. *)
  b_ticks : nat;
  (** Calls of the change callback, whose failures are ignored. *)
  b_notified : nat
}.
Arguments mk_Board {S} _ _ _ _.
Arguments b_data {S} _.
Arguments b_store {S} _.
Arguments b_ticks {S} _.
Arguments b_notified {S} _.

Section Tracker.
Context {S : Type} {store : BoardStore S}.
(** The timestamp of the n-th reading of the clock. *)
Context (clock : nat -> pystr).

Definition put_data (d : IssueBoardData) : SE (Board S) unit :=
  se_modify (fun b => mk_Board d (b_store b) (b_ticks b) (b_notified b)).

Definition refresh_locked : SE (Board S) unit :=
  let! b := se_get id in
  let! d := se_lift (store_read (b_store b) (b_data b)) in
  put_data d.

Definition save_locked : SE (Board S) unit :=
  se_modify (fun b =>
    mk_Board (b_data b) (store_write (b_data b) (b_store b)) (b_ticks b) (Datatypes.S (b_notified b))).

Definition timestamp : SE (Board S) pystr :=
  let! n := se_get b_ticks in
  let! _ := se_modify (fun b => mk_Board (b_data b) (b_store b) (Datatypes.S (b_ticks b)) (b_notified b)) in
  se_ret (clock n).

Fixpoint replaced (issue : Issue) (issues : list Issue) : option (list Issue) :=
  match issues with
  | [] => None
  | stored :: rest =>
      if i_id stored =? i_id issue then Some (issue :: rest)
      else match replaced issue rest with Some rest => Some (stored :: rest) | None => None end
  end.

Definition replace_issue (issue : Issue) : SE (Board S) unit :=
  let! d := se_get b_data in
  match replaced issue (d_issues d) with
  | Some issues => put_data (d <| d_issues := issues |>)
  | None => se_raise (issue_not_found (i_id issue))
  end.

Definition create (type : IssueType + pystr) (title description created_by : pystr)
    (iteration : Z) (key : option pystr) : SE (Board S) Issue :=
  let! issue_type := se_lift (coerce parse_type type) in
  let! _ := refresh_locked in
  let! now := timestamp in
  let! d := se_get b_data in
  let issue := mk_Issue (d_next_id d) issue_type (strip title) (strip description) OPEN created_by
    iteration now now 0 [mk_IssueEvent now created_by (py "create") (Some iteration) [] None key]
    None key in
  let! _ := put_data (mk_IssueBoardData (d_next_id d + 1) (d_issues d ++ [issue])) in
  let! _ := save_locked in
  se_ret issue.

Definition get (issue_id : Z) : SE (Board S) (option Issue) :=
  let! _ := refresh_locked in
  se_get (fun b => find (fun i => i_id i =? issue_id) (d_issues (b_data b))).

Definition get_required (issue_id : Z) : SE (Board S) Issue :=
  let! issue := get issue_id in
  match issue with Some issue => se_ret issue | None => se_raise (issue_not_found issue_id) end.

Definition transition (old new : IssueStatus) : pystr :=
  status_value old ++ py "->" ++ status_value new.

Definition update_status (issue_id : Z) (status : IssueStatus + pystr) (actor : pystr)
    (iteration : Z) (note : pystr) (payload : option (list (pystr * json))) (key : option pystr) :
    SE (Board S) Issue :=
  let! status := se_lift (coerce parse_status status) in
  let! _ := refresh_locked in
  let! issue := get_required issue_id in
  let! now := timestamp in
  let closed_iter :=
    match status with CLOSED | BLOCKED => Some iteration | _ => i_closed_iter issue end in
  let event := mk_IssueEvent now actor (transition (i_status issue) status) (Some iteration) note
    payload key in
  let issue := issue <| i_status := status |> <| i_updated_at := now |>
    <| i_closed_iter := closed_iter |> <| i_history := i_history issue ++ [event] |> in
  let! _ := replace_issue issue in
  let! _ := save_locked in
  se_ret issue.

(** The loop of [reopen_blocked]: each blocked issue takes its own timestamp. *)
Fixpoint reopen_each (actor : pystr) (iteration : Z) (note : pystr) (issues : list Issue) :
    SE (Board S) (list Issue * list Z) :=
  match issues with
  | [] => se_ret ([], [])
  | issue :: rest =>
      if bool_decide (i_status issue = BLOCKED) then
        let! now := timestamp in
        let event := mk_IssueEvent now actor (py "blocked->open") (Some iteration) note None None in
        let issue := issue <| i_status := OPEN |> <| i_attempts := 0 |> <| i_closed_iter := None |>
          <| i_updated_at := now |> <| i_history := i_history issue ++ [event] |> in
        let! (rest, ids) := reopen_each actor iteration note rest in
        se_ret (issue :: rest, i_id issue :: ids)
      else
        let! (rest, ids) := reopen_each actor iteration note rest in
        se_ret (issue :: rest, ids)
  end.

Definition reopen_blocked (actor : pystr) (iteration : Z) (note : pystr) :
    SE (Board S) (list Z) :=
  let! _ := refresh_locked in
  let! d := se_get b_data in
  let! (issues, reopened) := reopen_each actor iteration note (d_issues d) in
  let! _ := put_data (d <| d_issues := issues |>) in
  let! _ := match reopened with [] => se_ret tt | _ => save_locked end in
  se_ret reopened.

Definition increment_attempts (issue_id : Z) (actor : pystr) (iteration : Z) (note : pystr)
    (payload : option (list (pystr * json))) (key : option pystr) : SE (Board S) Issue :=
  let! _ := refresh_locked in
  let! issue := get_required issue_id in
  let! now := timestamp in
  let event := mk_IssueEvent now actor (py "attempt") (Some iteration) note payload key in
  let issue := issue <| i_attempts := i_attempts issue + 1 |> <| i_updated_at := now |>
    <| i_history := i_history issue ++ [event] |> in
  let! _ := replace_issue issue in
  let! _ := save_locked in
  se_ret issue.

Definition list_issues (status : option (IssueStatus + pystr)) (type : option (IssueType + pystr)) :
    SE (Board S) (list Issue) :=
  let! status := se_lift (coerce_opt parse_status status) in
  let! type := se_lift (coerce_opt parse_type type) in
  let! _ := refresh_locked in
  se_get (fun b =>
    List.filter (fun i => opt_all (fun s => bool_decide (i_status i = s)) status
                          && opt_all (fun t => bool_decide (i_type i = t)) type)
      (d_issues (b_data b))).

(** [kw in hay]. *)
Fixpoint prefix_of (kw hay : pystr) : bool :=
  match kw, hay with
  | [], _ => true
  | a :: kw, b :: hay => N.eqb a b && prefix_of kw hay
  | _, [] => false
  end.
Fixpoint contains (kw hay : pystr) : bool :=
  prefix_of kw hay || match hay with [] => false | _ :: hay => contains kw hay end.

(** [lower] is [str.lower], from Python's Unicode tables. *)
Definition search (lower : pystr -> pystr) (query : pystr) : SE (Board S) (list Issue) :=
  if negb (str_truthy (strip query)) then se_ret []
  else
    let keywords := map (fun kw => lower (strip kw))
      (List.filter (fun kw => str_truthy (strip kw)) (split_on 44%N query)) in
    match keywords with
    | [] => se_ret []
    | _ =>
        let! _ := refresh_locked in
        se_get (fun b =>
          List.filter (fun i =>
            forallb (fun kw => contains kw (lower (i_title i ++ [10%N] ++ i_description i))) keywords)
            (d_issues (b_data b)))
    end.

Definition created_in (creator : pystr) (iteration : Z) (i : Issue) : bool :=
  pystr_eqb (i_created_by i) creator && (i_created_iter i =? iteration).

Definition open_count_by_creator_in_iter (creator : pystr) (iteration : Z) : SE (Board S) Z :=
  let! _ := refresh_locked in
  se_get (fun b => Z.of_nat (length (List.filter (created_in creator iteration) (d_issues (b_data b))))).

(** [(_TYPE_RANK[i.type], i.created_at)] as an order. *)
Definition sooner (a b : Issue) : bool :=
  (TYPE_RANK (i_type a) <? TYPE_RANK (i_type b))
  || ((TYPE_RANK (i_type a) =? TYPE_RANK (i_type b)) && pystr_leb (i_created_at a) (i_created_at b)).

Definition next_open : SE (Board S) (option Issue) :=
  let! candidates := list_issues (Some (inl OPEN)) None in
  se_ret (head (sort_by sooner candidates)).

(** ** Filing under a policy (policy.py) *)

Record CreateIssuePolicy := mk_CreateIssuePolicy {
  p_creator : pystr;
  p_iteration : Z;
  p_cap : option Z;
  p_allowed_types : list IssueType
}.

Inductive CreateRejection :=
| InvalidIssueType (given : pystr)
| TypeNotAllowed (creator : pystr) (type : IssueType) (allowed : list IssueType)
| CapReached (already cap : Z).

Definition check_create_allowed (type_enum : IssueType) (policy : CreateIssuePolicy) :
    SE (Board S) (option CreateRejection) :=
  if negb (bool_decide (type_enum ∈ p_allowed_types policy)) then
    let allowed := sort_by (fun a b => pystr_leb (type_value a) (type_value b))
      (p_allowed_types policy) in
    se_ret (Some (TypeNotAllowed (p_creator policy) type_enum allowed))
  else
    match p_cap policy with
    | None => se_ret None
    | Some cap =>
        let! already := open_count_by_creator_in_iter (p_creator policy) (p_iteration policy) in
        se_ret (if cap <=? already then Some (CapReached already cap) else None)
    end.

Definition create_issue_under_policy (type_str title description : pystr)
    (policy : CreateIssuePolicy) : SE (Board S) (Issue + CreateRejection) :=
  match parse_type type_str with
  | Err e => if is_value_error e then se_ret (inr (InvalidIssueType type_str)) else se_raise e
  | Ok type_enum =>
      let! rejection := check_create_allowed type_enum policy in
      match rejection with
      | Some rejection => se_ret (inr rejection)
      | None =>
          let! issue := create (inl type_enum) title description (p_creator policy)
            (p_iteration policy) None in
          se_ret (inl issue)
      end
  end.

End Tracker.

(** ** The two storages *)

(** [_MemoryBoard]: the snapshot itself is the store. *)
#[export] Instance memory_store : BoardStore unit :=
  {| store_read := fun _ d => Ok d; store_write := fun _ s => s |}.

Definition memory_board : Board unit := mk_Board empty_data tt 0 0.

(** What [IssueBoard] uses of [json] and of pydantic. *)
Class BoardCodec := {
  json_loads : pystr -> option json;
  model_validate : json -> result IssueBoardData;
  model_dump_json : IssueBoardData -> pystr
}.

Section FileStore.
Context {codec : BoardCodec}.

Definition load_error (details : string) : exn :=
  OtherError "IssueBoardLoadError: cannot load issue board {path}: {details}" [AStr (py details)].

(** [loaded["version"] != _STORE_VERSION]: Python compares numbers and booleans by value. *)
Definition is_store_version (v : json) : bool :=
  match v with
  | JInt z => z =? STORE_VERSION
  | JBool b => b
  | JFloat f => f_eq f (f_of_Z STORE_VERSION)
  | _ => false
  end.

(** [None] is a file that cannot be read. *)
Definition load_from_disk (content : option pystr) : result IssueBoardData :=
  match content with
  | None => Err (load_error "cannot read store")
  | Some text =>
      match json_loads text with
      | None => Err (load_error "invalid JSON")
      | Some (JObj fields as loaded) =>
          match find (fun kv => pystr_eqb (fst kv) (py "version")) fields with
          | None => Err (load_error "unsupported version None")
          | Some (_, v) =>
              raise (load_error "unsupported version") when negb (is_store_version v) in
              match model_validate loaded with
              | Ok data => Ok data
              | Err _ => Err (load_error "invalid store structure")
              end
          end
      | Some _ => Err (load_error "expected a JSON object")
      end
  end.

(** [IssueBoard]: the store is the content of the file; the snapshot is read again each time. A
    request over this store runs without a pause; IssueThreads.v cuts it into its accesses. *)
#[export] Instance file_store : BoardStore (option pystr) :=
  {| store_read := fun content _ => load_from_disk content;
     store_write := fun d _ => Some (model_dump_json d) |}.

(** [IssueBoard.__init__]; [is_file] is whether the file exists. *)
Definition open_board (is_file : bool) (content : option pystr) : result (Board (option pystr)) :=
  if is_file then
    let* d := load_from_disk content in Ok (mk_Board d content 0 0)
  else Ok (mk_Board empty_data (Some (model_dump_json empty_data)) 0 0).

Definition reload : SE (Board (option pystr)) unit := refresh_locked.

End FileStore.

(** ** format.py *)

Definition format_issue_short (i : Issue) : pystr :=
  py "#" ++ int_str (i_id i) ++ py " [" ++ type_value (i_type i) ++ py "] ["
  ++ status_value (i_status i) ++ py "] " ++ i_title i.

Definition newline : pystr := [10%N].
Definition format_issue_full (i : Issue) : pystr :=
  py "## Issue #" ++ int_str (i_id i) ++ newline
  ++ py "- type: " ++ type_value (i_type i) ++ newline
  ++ py "- status: " ++ status_value (i_status i) ++ newline
  ++ py "- created_by: " ++ i_created_by i ++ py " (iter " ++ int_str (i_created_iter i) ++ py ")"
  ++ newline ++ py "- attempts: " ++ int_str (i_attempts i) ++ newline ++ newline
  ++ py "### Title" ++ newline ++ i_title i ++ newline ++ newline
  ++ py "### Description" ++ newline ++ i_description i ++ newline.

(** ** Requests and replies

    One request of any client, as a value: the trace semantics of the tracker. *)
Inductive Request :=
| ReqCreate (type : IssueType + pystr) (title description created_by : pystr) (iteration : Z)
    (key : option pystr)
| ReqGet (issue_id : Z)
| ReqUpdate (issue_id : Z) (status : IssueStatus + pystr) (actor : pystr) (iteration : Z)
    (note : pystr) (payload : option (list (pystr * json))) (key : option pystr)
| ReqReopen (actor : pystr) (iteration : Z) (note : pystr)
| ReqIncrement (issue_id : Z) (actor : pystr) (iteration : Z) (note : pystr)
    (payload : option (list (pystr * json))) (key : option pystr)
| ReqList (status : option (IssueStatus + pystr)) (type : option (IssueType + pystr))
| ReqSearch (query : pystr)
| ReqCount (creator : pystr) (iteration : Z)
| ReqNext.

Inductive Reply :=
| ReplyIssue (i : Issue)
| ReplyOption (i : option Issue)
| ReplyIds (ids : list Z)
| ReplyIssues (l : list Issue)
| ReplyCount (n : Z).

Definition se_map {S A B} (f : A -> B) (m : SE S A) : SE S B :=
  let! a := m in se_ret (f a).

Definition perform {S} `{BoardStore S} (clock : nat -> pystr) (lower : pystr -> pystr)
    (r : Request) : SE (Board S) Reply :=
  match r with
  | ReqCreate type title description created_by iteration key =>
      se_map ReplyIssue (create clock type title description created_by iteration key)
  | ReqGet issue_id => se_map ReplyOption (get issue_id)
  | ReqUpdate issue_id status actor iteration note payload key =>
      se_map ReplyIssue (update_status clock issue_id status actor iteration note payload key)
  | ReqReopen actor iteration note => se_map ReplyIds (reopen_blocked clock actor iteration note)
  | ReqIncrement issue_id actor iteration note payload key =>
      se_map ReplyIssue (increment_attempts clock issue_id actor iteration note payload key)
  | ReqList status type => se_map ReplyIssues (list_issues status type)
  | ReqSearch query => se_map ReplyIssues (search lower query)
  | ReqCount creator iteration => se_map ReplyCount (open_count_by_creator_in_iter creator iteration)
  | ReqNext => se_map ReplyOption next_open
  end.

(** ** The specification: requests as functions of the snapshot

    [outcome] is the reply, the next snapshot, the clock readings taken and whether the snapshot
    was saved. A request that fails changes nothing. *)
Record outcome := mk_outcome {
  o_reply : result Reply;
  o_data : IssueBoardData;
  o_ticks : nat;
  o_saved : bool
}.

Section Specification.
Context (clock : nat -> pystr) (lower : pystr -> pystr).

Definition new_issue (d : IssueBoardData) (now : pystr) (type : IssueType)
    (title description created_by : pystr) (iteration : Z) (key : option pystr) : Issue :=
  mk_Issue (d_next_id d) type (strip title) (strip description) OPEN created_by iteration now now 0
    [mk_IssueEvent now created_by (py "create") (Some iteration) [] None key] None key.

Definition moved (now : pystr) (status : IssueStatus) (actor : pystr) (iteration : Z)
    (note : pystr) (payload : option (list (pystr * json))) (key : option pystr) (i : Issue) : Issue :=
  i <| i_status := status |> <| i_updated_at := now |>
    <| i_closed_iter :=
         match status with CLOSED | BLOCKED => Some iteration | _ => i_closed_iter i end |>
    <| i_history := i_history i ++
         [mk_IssueEvent now actor (transition (i_status i) status) (Some iteration) note payload key] |>.

Definition attempted (now actor : pystr) (iteration : Z) (note : pystr)
    (payload : option (list (pystr * json))) (key : option pystr) (i : Issue) : Issue :=
  i <| i_attempts := i_attempts i + 1 |> <| i_updated_at := now |>
    <| i_history := i_history i ++
         [mk_IssueEvent now actor (py "attempt") (Some iteration) note payload key] |>.

Definition reopened (now actor : pystr) (iteration : Z) (note : pystr) (i : Issue) : Issue :=
  i <| i_status := OPEN |> <| i_attempts := 0 |> <| i_closed_iter := None |>
    <| i_updated_at := now |>
    <| i_history := i_history i ++
         [mk_IssueEvent now actor (py "blocked->open") (Some iteration) note None None] |>.

Definition is_blocked (i : Issue) : bool := bool_decide (i_status i = BLOCKED).

(** The blocked issues reopened, the k-th of them at the k-th reading from [n]. *)
Fixpoint reopen_from (n : nat) (actor : pystr) (iteration : Z) (note : pystr) (l : list Issue) :
    list Issue :=
  match l with
  | [] => []
  | i :: l =>
      if is_blocked i then
        reopened (clock n) actor iteration note i :: reopen_from (S n) actor iteration note l
      else i :: reopen_from n actor iteration note l
  end.

(** The first issue of the identifier changed by [f]. *)
Fixpoint alter_id (issue_id : Z) (f : Issue -> Issue) (l : list Issue) : list Issue :=
  match l with
  | [] => []
  | i :: l => if i_id i =? issue_id then f i :: l else i :: alter_id issue_id f l
  end.

Definition find_id (issue_id : Z) (d : IssueBoardData) : option Issue :=
  find (fun i => i_id i =? issue_id) (d_issues d).

Definition unchanged (d : IssueBoardData) (n : nat) (r : result Reply) : outcome :=
  mk_outcome r d n false.

Definition change_issue (issue_id : Z) (f : Issue -> Issue) (d : IssueBoardData) (n : nat) : outcome :=
  match find_id issue_id d with
  | None => unchanged d n (Err (issue_not_found issue_id))
  | Some i =>
      mk_outcome (Ok (ReplyIssue (f i))) (d <| d_issues := alter_id issue_id f (d_issues d) |>)
        (S n) true
  end.

Definition matching (status : option IssueStatus) (type : option IssueType) (d : IssueBoardData) :
    list Issue :=
  List.filter (fun i => opt_all (fun s => bool_decide (i_status i = s)) status
                        && opt_all (fun t => bool_decide (i_type i = t)) type) (d_issues d).

Definition search_keywords (query : pystr) : list pystr :=
  map (fun kw => lower (strip kw)) (List.filter (fun kw => str_truthy (strip kw)) (split_on 44%N query)).

Definition found (query : pystr) (d : IssueBoardData) : list Issue :=
  if negb (str_truthy (strip query)) then []
  else match search_keywords query with
       | [] => []
       | kws =>
           List.filter (fun i =>
             forallb (fun kw => contains kw (lower (i_title i ++ [10%N] ++ i_description i))) kws)
             (d_issues d)
       end.

Definition specified (r : Request) (d : IssueBoardData) (n : nat) : outcome :=
  match r with
  | ReqCreate type title description created_by iteration key =>
      match coerce parse_type type with
      | Err e => unchanged d n (Err e)
      | Ok t =>
          let i := new_issue d (clock n) t title description created_by iteration key in
          mk_outcome (Ok (ReplyIssue i)) (mk_IssueBoardData (d_next_id d + 1) (d_issues d ++ [i]))
            (S n) true
      end
  | ReqGet issue_id => unchanged d n (Ok (ReplyOption (find_id issue_id d)))
  | ReqUpdate issue_id status actor iteration note payload key =>
      match coerce parse_status status with
      | Err e => unchanged d n (Err e)
      | Ok s => change_issue issue_id (moved (clock n) s actor iteration note payload key) d n
      end
  | ReqReopen actor iteration note =>
      let blocked := List.filter is_blocked (d_issues d) in
      mk_outcome (Ok (ReplyIds (map i_id blocked)))
        (d <| d_issues := reopen_from n actor iteration note (d_issues d) |>)
        (n + length blocked) (match blocked with [] => false | _ => true end)
  | ReqIncrement issue_id actor iteration note payload key =>
      change_issue issue_id (attempted (clock n) actor iteration note payload key) d n
  | ReqList status type =>
      unchanged d n
        (let* s := coerce_opt parse_status status in
         let* t := coerce_opt parse_type type in
         Ok (ReplyIssues (matching s t d)))
  | ReqSearch query => unchanged d n (Ok (ReplyIssues (found query d)))
  | ReqCount creator iteration =>
      unchanged d n
        (Ok (ReplyCount (Z.of_nat (length (List.filter (created_in creator iteration) (d_issues d))))))
  | ReqNext => unchanged d n (Ok (ReplyOption (head (sort_by sooner (matching (Some OPEN) None d)))))
  end.

End Specification.

(** ** The board implements the specification

    What a storage promises to the board. *)
Class BoardStoreLaws (S : Type) {store : BoardStore S} (storable : IssueBoardData -> Prop) := {
  read_again s d0 d : store_read s d0 = Ok d -> store_read s d = Ok d;
  read_written s d : storable d -> store_read (store_write d s) d = Ok d
}.

#[export] Instance memory_store_laws : BoardStoreLaws unit (fun _ => True).
Proof. split; [by intros s d0 d [= <-]|done]. Qed.

#[export] Instance file_store_laws `{BoardCodec} :
  BoardStoreLaws (option pystr) (fun d => load_from_disk (Some (model_dump_json d)) = Ok d).
Proof. split; [done|]. intros s d Hd. exact Hd. Qed.

(** Unfold a request into its reads and writes. *)
Ltac run :=
  unfold perform, se_map, next_open, create, update_status, increment_attempts, get_required, get, replace_issue,
    list_issues, search, open_count_by_creator_in_iter, put_data, save_locked, timestamp,
    se_bind, se_ret, se_raise, se_get, se_lift, se_modify; simpl.

Section Refinement.
Context {S : Type} {store : BoardStore S} {storable : IssueBoardData -> Prop}.
Context {laws : BoardStoreLaws S storable}.
Context (clock : nat -> pystr) (lower : pystr -> pystr).

(** The snapshot a client of [b] would read now. *)
Definition current (b : Board S) : result IssueBoardData := store_read (b_store b) (b_data b).

Definition wrote (b : Board S) (o : outcome) : S :=
  if o_saved o then store_write (o_data o) (b_store b) else b_store b.

(** [m], run on [b], has the outcome [o]. *)
Definition implements (m : result Reply * Board S) (b : Board S) (o : outcome) : Prop :=
  m.1 = o_reply o
  /\ b_store m.2 = wrote b o
  /\ current m.2 = Ok (o_data o)
  /\ b_ticks m.2 = o_ticks o
  /\ b_notified m.2 = (b_notified b + (if o_saved o then 1 else 0))%nat.

Lemma refresh_run b d :
  current b = Ok d ->
  refresh_locked b = (Ok tt, mk_Board d (b_store b) (b_ticks b) (b_notified b)).
Proof. unfold current. intros H. unfold refresh_locked, se_bind, se_get, se_lift. simpl. by rewrite H. Qed.

Lemma current_synced b d : current b = Ok d -> current (mk_Board d (b_store b) (b_ticks b) (b_notified b)) = Ok d.
Proof. apply read_again. Qed.

Lemma replaced_alter issue_id f l i :
  find (fun i => i_id i =? issue_id) l = Some i -> i_id (f i) = i_id i ->
  replaced (f i) l = Some (alter_id issue_id f l).
Proof.
  induction l as [|j l IH]; simpl; [done|]. intros Hf Hid.
  destruct (Z.eqb_spec (i_id j) issue_id) as [Heq|Hne].
  - injection Hf as ->. by rewrite Hid, Z.eqb_refl.
  - pose proof (find_Some_elem _ _ _ Hf) as [_ Hi]. apply Z.eqb_eq in Hi.
    rewrite Hid, Hi, (proj2 (Z.eqb_neq _ _) Hne). by rewrite IH.
Qed.

Lemma find_id_eq issue_id d i : find_id issue_id d = Some i -> i_id i = issue_id.
Proof. intros [_ H]%find_Some_elem. by apply Z.eqb_eq. Qed.

Lemma unchanged_implements b d r :
  current b = Ok d ->
  implements (r, mk_Board d (b_store b) (b_ticks b) (b_notified b)) b (unchanged d (b_ticks b) r).
Proof. intros H. split_and!; simpl; [done|done|by apply current_synced|done|lia]. Qed.

Lemma rejected_implements b d r :
  current b = Ok d -> implements (r, b) b (unchanged d (b_ticks b) r).
Proof. intros H. split_and!; simpl; try done; lia. Qed.

Lemma saved_implements b r d n :
  storable d ->
  implements (r, mk_Board d (store_write d (b_store b)) n (Datatypes.S (b_notified b))) b
    (mk_outcome r d n true).
Proof. intros H. split_and!; simpl; [done|done|by apply read_written|done|lia]. Qed.

(** The common end of the two requests that change one issue. *)
Lemma change_implements b d issue_id f :
  current b = Ok d -> (forall i, i_id (f i) = i_id i) ->
  let o := change_issue issue_id f d (b_ticks b) in
  (o_saved o = true -> storable (o_data o)) ->
  implements
    (se_map ReplyIssue
       (let! issue := get_required issue_id in
        let! _ := timestamp clock in
        let! _ := replace_issue (f issue) in
        let! _ := save_locked in
        se_ret (f issue)) b) b o.
Proof.
  intros Hc Hid o Hs. unfold o, change_issue, find_id in *. run.
  rewrite (refresh_run b d Hc). simpl.
  destruct (find _ (d_issues d)) as [i|] eqn:Hf; simpl in *; [|by apply unchanged_implements].
  rewrite (replaced_alter issue_id f) by done. simpl. by apply saved_implements, Hs.
Qed.

Lemma reopen_run actor iteration note l (b : Board S) :
  reopen_each clock actor iteration note l b =
  (Ok (reopen_from clock (b_ticks b) actor iteration note l, map i_id (List.filter is_blocked l)),
   mk_Board (b_data b) (b_store b) (b_ticks b + length (List.filter is_blocked l)) (b_notified b)).
Proof.
  revert b. induction l as [|i l IH]; intros b; simpl.
  { unfold se_ret. destruct b; simpl. by rewrite Nat.add_0_r. }
  unfold is_blocked. case_bool_decide; run; rewrite IH; simpl.
  - rewrite <- plus_n_Sm. done.
  - done.
Qed.

(** Every request on a board whose store can be read has the specified outcome. *)
Lemma perform_specified r b d :
  current b = Ok d ->
  let o := specified clock lower r d (b_ticks b) in
  (o_saved o = true -> storable (o_data o)) ->
  implements (perform clock lower r b) b o.
Proof.
  intros Hc o Hs. pose proof (refresh_run b d Hc) as Hr. subst o.
  destruct r as [type title desc by' it key|id|id status actor it note payload key|actor it note
                |id actor it note payload key|status type|query|creator it|]; simpl in *.
  - run. destruct (coerce parse_type type) as [t|e]; simpl in *; [|by apply rejected_implements].
    rewrite Hr. simpl. by apply saved_implements, Hs.
  - run. rewrite Hr. by apply unchanged_implements.
  - unfold perform, se_map, update_status.
    destruct (coerce parse_status status) as [s|e]; simpl in *.
    + pose proof (change_implements b d id (moved (clock (b_ticks b)) s actor it note payload key)
        Hc (fun i => eq_refl) Hs) as Hci.
      revert Hci. run. rewrite Hr. simpl.
      pose proof (refresh_run _ d (current_synced b d Hc)) as Hr'. simpl in Hr'. rewrite Hr'. simpl.
      destruct (find _ (d_issues d)); simpl; intros Hi; exact Hi.
    + run. by apply rejected_implements.
  - run. unfold reopen_blocked. run. rewrite Hr. simpl. rewrite reopen_run. simpl.
    destruct (List.filter is_blocked (d_issues d)) as [|i l] eqn:Hb; simpl in *.
    + assert (reopen_from clock (b_ticks b) actor it note (d_issues d) = d_issues d) as Hsame.
      { generalize (b_ticks b). revert Hb. generalize (d_issues d). intros l.
        induction l as [|i l IH]; intros Hb n; simpl in *; [done|].
        destruct (is_blocked i); [discriminate|]. by rewrite IH. }
      rewrite Hsame. destruct d as [nx l0]. simpl in *.
      split_and!; simpl; [done|done| |done|lia]. by apply (current_synced b).
    + by apply saved_implements, Hs.
  - unfold perform. pose proof (change_implements b d id
      (attempted (clock (b_ticks b)) actor it note payload key) Hc (fun i => eq_refl) Hs) as Hci.
    revert Hci. run. rewrite Hr. simpl.
    pose proof (refresh_run _ d (current_synced b d Hc)) as Hr'. simpl in Hr'. rewrite Hr'. simpl.
      destruct (find _ (d_issues d)); simpl; intros Hi; exact Hi.
  - run. destruct (coerce_opt parse_status status) as [s|e]; simpl; [|by apply rejected_implements].
    destruct (coerce_opt parse_type type) as [t|e]; simpl; [|by apply rejected_implements].
    rewrite Hr. by apply unchanged_implements.
  - run. unfold found, search_keywords. destruct (negb (str_truthy (strip query))); simpl;
      [by apply rejected_implements|].
    destruct (map _ _) as [|k ks]; simpl; [by apply rejected_implements|].
    rewrite Hr. by apply unchanged_implements.
  - run. rewrite Hr. by apply unchanged_implements.
  - run. rewrite Hr. by apply unchanged_implements.
Qed.

(** A store that cannot be read is never touched. *)
Lemma perform_unreadable r b e :
  current b = Err e ->
  (perform clock lower r b).2 = b
  /\ (forall reply, (perform clock lower r b).1 = Ok reply ->
      reply = ReplyIssues [] /\ exists query, r = ReqSearch query).
Proof.
  intros Hc. assert (refresh_locked b = (Err e, b)) as Hr.
  { unfold current in Hc. unfold refresh_locked, se_bind, se_get, se_lift. simpl. by rewrite Hc. }
  destruct r as [type title desc by' it key|id|id status actor it note payload key|actor it note
                |id actor it note payload key|status type|query|creator it|]; run.
  - destruct (coerce parse_type type); simpl; rewrite ?Hr; by split.
  - rewrite Hr. by split.
  - destruct (coerce parse_status status); simpl; rewrite ?Hr; by split.
  - unfold reopen_blocked. run. rewrite Hr. by split.
  - rewrite Hr. by split.
  - destruct (coerce_opt parse_status status); simpl; [|by split].
    destruct (coerce_opt parse_type type); simpl; rewrite ?Hr; by split.
  - destruct (negb (str_truthy (strip query))); simpl; [split; [done|naive_solver]|].
    destruct (map _ _); simpl; [split; [done|naive_solver]|]. rewrite Hr. by split.
  - rewrite Hr. by split.
  - rewrite Hr. by split.
Qed.

End Refinement.

(** ** The type of a board *)

(** What an issue's history says of its status, its attempts since it was last reopened, and the
    iteration that last closed or blocked it. (A reopening resets the attempts where a plain move
    to open does not, and their events can be equal: the fields are not a function of the
    history, but they are never at odds with it.) *)
Inductive replays : list IssueEvent -> IssueStatus -> Z -> option Z -> Prop :=
| replays_created e :
    ev_action e = py "create" -> replays [e] OPEN 0 None
| replays_moved h s a c e s' it :
    replays h s a c -> ev_action e = transition s s' -> ev_iteration e = Some it ->
    replays (h ++ [e]) s' a (match s' with CLOSED | BLOCKED => Some it | _ => c end)
| replays_attempted h s a c e :
    replays h s a c -> ev_action e = py "attempt" -> replays (h ++ [e]) s (a + 1) c
| replays_reopened h a c e :
    replays h BLOCKED a c -> ev_action e = transition BLOCKED OPEN -> ev_key e = None ->
    replays (h ++ [e]) OPEN 0 None.

Definition issue_ok (i : Issue) : Prop :=
  1 <= i_id i
  /\ replays (i_history i) (i_status i) (i_attempts i) (i_closed_iter i)
  /\ (exists e, head (i_history i) = Some e /\ ev_timestamp e = i_created_at i
                /\ ev_actor e = i_created_by i /\ ev_iteration e = Some (i_created_iter i)
                /\ ev_key e = i_create_key i)
  /\ (exists e, last (i_history i) = Some e /\ ev_timestamp e = i_updated_at i).

Definition board_ok (d : IssueBoardData) : Prop :=
  valid_data d = true /\ Forall issue_ok (d_issues d).

(** [i'] is [i] later: its identity is kept and its history extended. *)
Definition later (i i' : Issue) : Prop :=
  i_id i' = i_id i /\ i_type i' = i_type i /\ i_title i' = i_title i
  /\ i_description i' = i_description i /\ i_created_by i' = i_created_by i
  /\ i_created_iter i' = i_created_iter i /\ i_created_at i' = i_created_at i
  /\ i_create_key i' = i_create_key i /\ exists t, i_history i' = i_history i ++ t.

#[export] Instance later_preorder : PreOrder later.
Proof.
  split.
  - intros i. do 8 (split; [done|]). exists []. by rewrite app_nil_r.
  - intros i j k (?&?&?&?&?&?&?&?&t&Ht) (?&?&?&?&?&?&?&?&u&Hu).
    do 8 (split; [congruence|]). exists (t ++ u). by rewrite Hu, Ht, app_assoc.
Qed.

(** The board keeps every issue in its place and files new ones after them. *)
Definition extends (d d' : IssueBoardData) : Prop :=
  d_next_id d <= d_next_id d'
  /\ exists kept filed, d_issues d' = kept ++ filed /\ Forall2 later (d_issues d) kept
                        /\ Forall (fun i => d_next_id d <= i_id i < d_next_id d') filed.

Lemma extends_same_ids d l :
  Forall2 later (d_issues d) l -> extends d (mk_IssueBoardData (d_next_id d) l).
Proof. intros H. split; simpl; [lia|]. exists l, []. by rewrite app_nil_r. Qed.

Lemma later_all l : Forall2 later l l.
Proof. induction l; by constructor. Qed.

Lemma extends_refl d : extends d d.
Proof. destruct d as [n l]. apply (extends_same_ids (mk_IssueBoardData n l)), later_all. Qed.

Lemma valid_data_spec d :
  valid_data d = true <->
  1 <= d_next_id d /\ NoDup (map i_id (d_issues d))
  /\ Forall (fun i => 1 <= i_id i < d_next_id d) (d_issues d).
Proof.
  unfold valid_data, valid_issue_identity.
  rewrite <- (nodupb_spec (map i_id (d_issues d))), Forall_forall.
  assert (forall p, existsb p (map i_id (d_issues d)) = true <->
                    exists i, i ∈ d_issues d /\ p (i_id i) = true) as Hex.
  { intros p. rewrite existsb_exists. split.
    - intros (x & (i & <- & Hi)%in_map_iff & Hp). exists i. by rewrite list_elem_of_In.
    - intros (i & Hi & Hp). exists (i_id i). split; [|done]. by apply in_map, list_elem_of_In. }
  pose proof (Hex (fun i => i <? 1)) as H1. pose proof (Hex (fun i => d_next_id d <=? i)) as H2.
  destruct (Z.ltb_spec (d_next_id d) 1) as [Hn|Hn]; simpl.
  { split; [done|lia]. }
  destruct (existsb (fun i => i <? 1) _); simpl.
  { split; [done|]. intros (_ & _ & Ha). destruct (proj1 H1 eq_refl) as (i & Hi & Hlt).
    apply Z.ltb_lt in Hlt. specialize (Ha i Hi). lia. }
  destruct (nodupb _); simpl; [|split; [done|by intros (_ & ? & _)]].
  destruct (existsb (fun i => d_next_id d <=? i) _); simpl.
  { split; [done|]. intros (_ & _ & Ha). destruct (proj1 H2 eq_refl) as (i & Hi & Hlt).
    apply Z.leb_le in Hlt. specialize (Ha i Hi). lia. }
  split; [|done]. intros _. do 2 (split; [done|]). intros i Hi. split.
  - destruct (Z.ltb_spec (i_id i) 1); [|done]. discriminate (proj2 H1). exists i. split; [done|].
    by apply Z.ltb_lt.
  - destruct (Z.leb_spec (d_next_id d) (i_id i)); [|done]. discriminate (proj2 H2). exists i.
    split; [done|]. by apply Z.leb_le.
Qed.

Lemma head_app_keep {A} (l l' : list A) x : head l = Some x -> head (l ++ l') = Some x.
Proof. by destruct l. Qed.

(** A change of an issue that appends one event stamped with the time of the update. *)
Lemma event_appended_ok i e i' :
  issue_ok i -> later i i' -> i_history i' = i_history i ++ [e] -> ev_timestamp e = i_updated_at i' ->
  replays (i_history i') (i_status i') (i_attempts i') (i_closed_iter i') -> issue_ok i'.
Proof.
  intros (Hid & _ & (e0 & He0 & Hts & Hac & Hit & Hk) & _)
    (? & ? & ? & ? & Hby & Hiter & Hat & Hkey & _) Hh Hup Hr.
  split_and!; [lia|done| |].
  - exists e0. rewrite Hh. split_and!; [by apply head_app_keep|congruence..].
  - exists e. rewrite Hh, last_snoc. done.
Qed.

Lemma moved_later now s actor it note payload key i : later i (moved now s actor it note payload key i).
Proof. do 8 (split; [done|]). by eexists. Qed.
Lemma attempted_later now actor it note payload key i : later i (attempted now actor it note payload key i).
Proof. do 8 (split; [done|]). by eexists. Qed.
Lemma reopened_later now actor it note i : later i (reopened now actor it note i).
Proof. do 8 (split; [done|]). by eexists. Qed.

Lemma moved_ok now s actor it note payload key i :
  issue_ok i -> issue_ok (moved now s actor it note payload key i).
Proof.
  intros Hi. eapply event_appended_ok; [exact Hi|apply moved_later|done|done|].
  eapply replays_moved; [apply Hi|done|done].
Qed.

Lemma attempted_ok now actor it note payload key i :
  issue_ok i -> issue_ok (attempted now actor it note payload key i).
Proof.
  intros Hi. eapply event_appended_ok; [exact Hi|apply attempted_later|done|done|].
  apply replays_attempted; [apply Hi|done].
Qed.

Lemma reopened_ok now actor it note i :
  issue_ok i -> i_status i = BLOCKED -> issue_ok (reopened now actor it note i).
Proof.
  intros Hi Hb. eapply event_appended_ok; [exact Hi|apply reopened_later|done|done|].
  eapply replays_reopened; [|done|done]. rewrite <- Hb. apply Hi.
Qed.

Lemma new_issue_ok d now t title desc by' it key :
  1 <= d_next_id d -> issue_ok (new_issue d now t title desc by' it key).
Proof. intros H. split_and!; simpl; [done|by constructor|by eexists|by eexists]. Qed.

(** Changing issues in place keeps a board's type. *)
Lemma board_ok_pointwise d l :
  board_ok d -> Forall2 (fun i i' => later i i' /\ (issue_ok i -> issue_ok i')) (d_issues d) l ->
  board_ok (mk_IssueBoardData (d_next_id d) l) /\ extends d (mk_IssueBoardData (d_next_id d) l).
Proof.
  intros [Hv Hok] Hl.
  assert (Forall2 later (d_issues d) l) as Hlater by (eapply Forall2_impl; [exact Hl|by intros ?? []]).
  split; [|by apply extends_same_ids]. split.
  - apply valid_data_spec in Hv as (Hn & Hnd & Hb). apply valid_data_spec. simpl.
    assert (map i_id l = map i_id (d_issues d)) as Hids.
    { clear -Hlater. induction Hlater as [|i i' l l' Hi _ IH]; simpl; [done|].
      destruct Hi as [-> _]. by rewrite IH. }
    rewrite Hids. split_and!; [done|done|]. clear -Hlater Hb.
    induction Hlater as [|i i' l l' Hi _ IH]; inversion Hb; subst; constructor; [|by apply IH].
    destruct Hi as [-> _]. done.
  - simpl. clear -Hl Hok. induction Hl as [|i i' l l' Hi _ IH]; inversion Hok; subst; constructor.
    + by apply Hi.
    + by apply IH.
Qed.

Lemma alter_pointwise issue_id f l :
  (forall i, later i (f i) /\ (issue_ok i -> issue_ok (f i))) ->
  Forall2 (fun i i' => later i i' /\ (issue_ok i -> issue_ok i')) l (alter_id issue_id f l).
Proof.
  intros Hf. assert (forall l, Forall2 (fun i i' => later i i' /\ (issue_ok i -> issue_ok i')) l l) as Hrefl.
  { intros l'. induction l'; by constructor. }
  induction l as [|i l IH]; simpl; [done|]. case_match; constructor; auto. by split.
Qed.

Lemma reopen_pointwise clock n actor it note l :
  Forall2 (fun i i' => later i i' /\ (issue_ok i -> issue_ok i')) l (reopen_from clock n actor it note l).
Proof.
  revert n. induction l as [|i l IH]; intros n; simpl; [done|].
  unfold is_blocked. case_bool_decide; constructor; auto; [|by split].
  split; [apply reopened_later|]. intros Hi. by apply reopened_ok.
Qed.

Lemma change_issue_ok issue_id f d n :
  board_ok d -> (forall i, later i (f i) /\ (issue_ok i -> issue_ok (f i))) ->
  let o := change_issue issue_id f d n in board_ok (o_data o) /\ extends d (o_data o).
Proof.
  intros Hd Hf. unfold change_issue. destruct (find_id issue_id d); simpl.
  - apply (board_ok_pointwise d); [done|]. by apply alter_pointwise.
  - split; [done|apply extends_refl].
Qed.

Lemma created_ok d now t title desc by' it key :
  board_ok d ->
  let d' := mk_IssueBoardData (d_next_id d + 1) (d_issues d ++ [new_issue d now t title desc by' it key]) in
  board_ok d' /\ extends d d'.
Proof.
  intros [Hv Hok]. pose proof Hv as (Hn & Hnd & Hb)%valid_data_spec. simpl. split; [split|].
  - apply valid_data_spec. simpl. split_and!; [lia| |].
    + rewrite map_app. simpl. apply NoDup_app. split_and!; [done| |apply NoDup_singleton].
      intros x (i & -> & Hi)%elem_of_map Heq%list_elem_of_singleton.
      rewrite Forall_forall in Hb. specialize (Hb i Hi). lia.
    + apply Forall_app. split; [|constructor; [simpl; lia|done]].
      eapply Forall_impl; [exact Hb|]. simpl. lia.
  - simpl. apply Forall_app. split; [done|]. constructor; [by apply new_issue_ok|done].
  - split; simpl; [lia|]. exists (d_issues d), [new_issue d now t title desc by' it key].
    split_and!; [done|apply later_all|]. constructor; [simpl; lia|done].
Qed.

Lemma specified_ok clock lower r d n :
  board_ok d ->
  board_ok (o_data (specified clock lower r d n)) /\ extends d (o_data (specified clock lower r d n)).
Proof.
  intros Hd. assert (board_ok d /\ extends d d) as Hsame by (split; [done|apply extends_refl]).
  destruct r; simpl; try exact Hsame.
  - destruct (coerce parse_type type); simpl; [by apply created_ok|exact Hsame].
  - destruct (coerce parse_status status); simpl; [|exact Hsame].
    apply change_issue_ok; [done|]. intros i. split; [apply moved_later|apply moved_ok].
  - apply (board_ok_pointwise d); [done|]. apply reopen_pointwise.
  - apply change_issue_ok; [done|]. intros i. split; [apply attempted_later|apply attempted_ok].
Qed.

(** ** Properties *)

Lemma specified_error clock lower r d n e :
  o_reply (specified clock lower r d n) = Err e ->
  specified clock lower r d n = unchanged d n (Err e).
Proof.
  assert (forall r', o_reply (unchanged d n r') = Err e -> unchanged d n r' = unchanged d n (Err e))
    as Hu by (by simpl; intros r' ->).
  destruct r; simpl; try apply Hu.
  - destruct (coerce parse_type type); simpl; [done|apply (Hu (Err e0))].
  - destruct (coerce parse_status status); simpl; [|apply (Hu (Err e0))].
    unfold change_issue. by destruct (find_id _ _); [|apply (Hu (Err _))].
  - done.
  - unfold change_issue. by destruct (find_id _ _); [|apply (Hu (Err _))].
Qed.

Lemma perform_ok {S : Type} {store : BoardStore S} {storable : IssueBoardData -> Prop}
    {laws : BoardStoreLaws S storable} clock lower r (b : Board S) d :
  current b = Ok d -> board_ok d -> storable (o_data (specified clock lower r d (b_ticks b))) ->
  exists d', current (perform clock lower r b).2 = Ok d' /\ board_ok d' /\ extends d d'.
Proof.
  intros Hc Hok Hs. destruct (perform_specified clock lower r b d Hc (fun _ => Hs)) as (_ & _ & Hc' & _).
  eexists. split; [exact Hc'|]. by apply specified_ok.
Qed.

(** C38. Every request keeps the board well formed, over any storage that reads back what it
    wrote. Identifiers stay positive, unique and below the next one; every issue's status, attempts
    and closing iteration agree with its history, which begins with its creation and ends at its
    last update. Nothing is lost: each issue keeps its place and identity and only extends its
    history, and new issues take fresh identifiers at the end. A request that raises changes
    nothing a later request can see. *)
Theorem requests_keep_board {S : Type} {store : BoardStore S} {storable : IssueBoardData -> Prop}
    {laws : BoardStoreLaws S storable} (clock : nat -> pystr) (lower : pystr -> pystr)
    (r : Request) (b : Board S) (d : IssueBoardData) :
  current b = Ok d -> board_ok d ->
  storable (o_data (specified clock lower r d (b_ticks b))) ->
  exists d',
    current (perform clock lower r b).2 = Ok d'
    /\ board_ok d' /\ extends d d'
    /\ (is_ok (perform clock lower r b).1 = false ->
        d' = d /\ b_store (perform clock lower r b).2 = b_store b).
Proof.
  intros Hc Hok Hs.
  destruct (perform_specified clock lower r b d Hc (fun _ => Hs)) as (Hr & Hw & Hc' & _).
  destruct (specified_ok clock lower r d (b_ticks b) Hok) as [Hok' Hext].
  eexists. split_and!; [exact Hc'|done|done|]. rewrite Hr, Hw. unfold wrote.
  destruct (o_reply _) as [a|e] eqn:He; [done|]. intros _. by rewrite (specified_error _ _ _ _ _ _ He).
Qed.

(** A store that cannot be read is never overwritten. Whatever is wrong with it (unreadable,
    not JSON, another version, a structure pydantic refuses), no request changes the file or the
    client, and none answers, except that searching for nothing finds nothing. *)
Theorem unreadable_store_kept `{BoardCodec} (clock : nat -> pystr) (lower : pystr -> pystr)
    (r : Request) (b : Board (option pystr)) (e : exn) :
  load_from_disk (b_store b) = Err e ->
  (perform clock lower r b).2 = b
  /\ (forall reply, (perform clock lower r b).1 = Ok reply ->
      reply = ReplyIssues [] /\ exists query, r = ReqSearch query).
Proof. intros He. by apply (perform_unreadable clock lower r b e). Qed.

Lemma sooner_total a b : sooner a b = true \/ sooner b a = true.
Proof.
  unfold sooner. rewrite !orb_true_iff, !andb_true_iff, !Z.ltb_lt, !Z.eqb_eq.
  destruct (Z.lt_trichotomy (TYPE_RANK (i_type a)) (TYPE_RANK (i_type b))) as [?|[Heq|?]];
    [by left; left| |by right; left].
  destruct (pystr_leb_total (i_created_at a) (i_created_at b)); [left|right]; by right.
Qed.

Lemma sooner_trans a b c : sooner a b = true -> sooner b c = true -> sooner a c = true.
Proof.
  unfold sooner. rewrite !orb_true_iff, !andb_true_iff, !Z.ltb_lt, !Z.eqb_eq.
  intros [Ha|[Ha Ha']] [Hb|[Hb Hb']]; [left; lia|left; lia|left; lia|]. right. split; [lia|].
  by apply (pystr_leb_trans _ (i_created_at b)).
Qed.

Lemma next_open_run {S : Type} {store : BoardStore S} (b : Board S) (d : IssueBoardData) :
  current b = Ok d ->
  (next_open b).1 = Ok (head (sort_by sooner (matching (Some OPEN) None d))).
Proof. intros Hc. run. by rewrite (refresh_run b d Hc). Qed.

(** The next issue is the right one: [next_open] answers None exactly when no issue is open;
    otherwise it answers an open issue such that no open issue has a more urgent type, none of its
    type was created earlier, and among equals none comes before it on the board. *)
Theorem next_open_first {S : Type} {store : BoardStore S} (b : Board S) (d : IssueBoardData) :
  current b = Ok d ->
  match (next_open b).1 with
  | Ok None => forall j, j ∈ d_issues d -> i_status j <> OPEN
  | Ok (Some i) =>
      i_status i = OPEN
      /\ (forall j, j ∈ d_issues d -> i_status j = OPEN -> sooner i j = true)
      /\ (exists before after, d_issues d = before ++ i :: after
           /\ forall j, j ∈ before -> i_status j = OPEN -> sooner j i = false)
  | Err _ => False
  end.
Proof.
  intros Hc. rewrite (next_open_run b d Hc).
  assert (forall l j, j ∈ List.filter (fun i => opt_all (fun s => bool_decide (i_status i = s)) (Some OPEN)
                        && opt_all (fun t => bool_decide (i_type i = t)) None) l
                      <-> j ∈ l /\ i_status j = OPEN) as Hin.
  { intros l j. rewrite elem_of_filter. simpl. by rewrite andb_true_r, bool_decide_eq_true. }
  destruct (head (sort_by sooner (matching (Some OPEN) None d))) as [i|] eqn:Hh.
  - destruct (head_sort_by sooner sooner_total sooner_trans _ _ Hh) as (l1 & l2 & Hl & Hmin & Hfirst).
    destruct (filter_split _ _ _ _ _ Hl) as (before & after & Hd & Hbefore).
    assert (i ∈ matching (Some OPEN) None d) as [_ Hopen]%Hin.
    { rewrite Hl, elem_of_app, elem_of_cons. auto. }
    split_and!; [done| |].
    + intros j Hj Hs. apply Hmin. by apply Hin.
    + exists before, after. split; [done|]. intros j Hj Hs. apply Hfirst. rewrite <- Hbefore.
      by apply Hin.
  - intros j Hj Hs. apply head_sort_by_None in Hh.
    assert (j ∈ matching (Some OPEN) None d) as Hm by (by apply Hin). rewrite Hh in Hm.
    by apply elem_of_nil in Hm.
Qed.

Definition filed_in (policy : CreateIssuePolicy) (d : IssueBoardData) : Z :=
  Z.of_nat (length (List.filter (created_in (p_creator policy) (p_iteration policy)) (d_issues d))).

(** Filing under a policy. On a readable board the call always answers: with the new issue,
    which has an allowed type, was appended and keeps its creator within the cap of the iteration;
    or with the rejection that holds, and then the board is as it was. The cap counts every issue
    the creator filed in the iteration, also those closed since. *)
Theorem filing_respects_policy {S : Type} {store : BoardStore S} {storable : IssueBoardData -> Prop}
    {laws : BoardStoreLaws S storable} (clock : nat -> pystr)
    (type_str title description : pystr) (policy : CreateIssuePolicy)
    (b : Board S) (d : IssueBoardData) :
  current b = Ok d ->
  let created t := new_issue d (clock (b_ticks b)) t title description (p_creator policy)
    (p_iteration policy) None in
  let filed t := mk_IssueBoardData (d_next_id d + 1) (d_issues d ++ [created t]) in
  (forall t, storable (filed t)) ->
  let answer := create_issue_under_policy clock type_str title description policy b in
  match answer.1 with
  | Ok (inl i) =>
      exists t, parse_type type_str = Ok t /\ t ∈ p_allowed_types policy /\ i = created t
        /\ current answer.2 = Ok (filed t)
        /\ (forall cap, p_cap policy = Some cap -> filed_in policy (filed t) <= cap)
  | Ok (inr rejection) =>
      current answer.2 = Ok d /\ b_store answer.2 = b_store b /\
      match rejection with
      | InvalidIssueType given => given = type_str /\ is_ok (parse_type type_str) = false
      | TypeNotAllowed creator t allowed =>
          creator = p_creator policy /\ parse_type type_str = Ok t
          /\ (t ∉ p_allowed_types policy) /\ (allowed ≡ₚ p_allowed_types policy)
      | CapReached already cap =>
          p_cap policy = Some cap /\ already = filed_in policy d /\ cap <= already
      end
  | Err _ => False
  end.
Proof.
  intros Hc created filed Hs answer. subst answer. unfold create_issue_under_policy.
  destruct (parse_type type_str) as [t|e] eqn:Hp.
  2:{ assert (is_value_error e = true) as ->.
      { revert Hp. unfold parse_type. by case_match; intros [= <-]. }
      simpl. by split_and!. }
  unfold check_create_allowed.
  destruct (bool_decide (t ∈ p_allowed_types policy)) eqn:Ha; simpl.
  2:{ apply bool_decide_eq_false in Ha. unfold se_bind, se_ret. simpl. split_and!; try done.
      apply sort_by_perm. }
  apply bool_decide_eq_true in Ha.
  assert (forall b', current b' = Ok d -> b_store b' = b_store b -> b_ticks b' = b_ticks b ->
          let res := create clock (inl t) title description (p_creator policy) (p_iteration policy) None b' in
          res.1 = Ok (created t) /\ current res.2 = Ok (filed t)) as Hcreate.
  { intros b' Hc' Hst Ht. run. rewrite (refresh_run b' d Hc'). simpl. rewrite Ht.
    split; [done|]. apply read_written, Hs. }
  destruct (p_cap policy) as [cap|] eqn:Hcap.
  - unfold open_count_by_creator_in_iter, se_bind, se_get. rewrite (refresh_run b d Hc). simpl.
    fold (filed_in policy d).
    destruct (Z.leb_spec cap (filed_in policy d)) as [Hle|Hlt]; simpl.
    + split_and!; try done. by apply current_synced.
    + destruct (Hcreate (mk_Board d (b_store b) (b_ticks b) (b_notified b)) (current_synced b d Hc)
        eq_refl eq_refl) as [Hr Hcur].
      destruct (create _ _ _ _ _ _ _ _) as [r b']. simpl in *. subst r. simpl.
      exists t. split_and!; try done. intros cap' [= <-].
      unfold filed_in, filed. simpl. rewrite List.filter_app, length_app. simpl.
      unfold filed_in in Hlt. case_match; simpl; lia.
  - unfold se_bind. simpl. destruct (Hcreate b Hc eq_refl eq_refl) as [Hr Hcur].
    destruct (create _ _ _ _ _ _ _ _) as [r b']. simpl in *. subst r. simpl. by exists t.
Qed.

(** ** Several clients of one file

    Two processes (or two [IssueBoard]s of one process) share the file and nothing else: each
    keeps its own snapshot. Here they take turns: a request begins when the one before it has
    ended. Nothing in the code makes them, since the lock is a board's own; requests that overlap
    are the subject of IssueThreads.v. *)
Record SharedBoard := mk_SharedBoard {
  sh_file : option pystr;
  sh_snapshots : nat -> IssueBoardData;
  sh_ticks : nat;
  sh_notified : nat
}.

Section Clients.
Context {codec : BoardCodec} (clock : nat -> pystr) (lower : pystr -> pystr).

Definition client_request (client : nat) (r : Request) (w : SharedBoard) :
    result Reply * SharedBoard :=
  let '(reply, b) := perform clock lower r
    (mk_Board (sh_snapshots w client) (sh_file w) (sh_ticks w) (sh_notified w)) in
  (reply, mk_SharedBoard (b_store b)
            (fun c => if Nat.eqb c client then b_data b else sh_snapshots w c)
            (b_ticks b) (b_notified b)).

Fixpoint serve (requests : list (nat * Request)) (w : SharedBoard) :
    list (result Reply) * SharedBoard :=
  match requests with
  | [] => ([], w)
  | (client, r) :: requests =>
      let '(reply, w) := client_request client r w in
      let '(replies, w) := serve requests w in
      (reply :: replies, w)
  end.

(** The same requests on one board in memory. *)
Fixpoint serve_memory (requests : list Request) (b : Board unit) :
    list (result Reply) * Board unit :=
  match requests with
  | [] => ([], b)
  | r :: requests =>
      let '(reply, b) := perform clock lower r b in
      let '(replies, b) := serve_memory requests b in
      (reply :: replies, b)
  end.

(** The snapshots the run in memory passes through. *)
Fixpoint snapshots (requests : list Request) (b : Board unit) : list IssueBoardData :=
  match requests with
  | [] => []
  | r :: requests => let b := (perform clock lower r b).2 in b_data b :: snapshots requests b
  end.

Definition agree (w : SharedBoard) (m : Board unit) : Prop :=
  load_from_disk (sh_file w) = Ok (b_data m) /\ sh_ticks w = b_ticks m /\ sh_notified w = b_notified m.

(** The codec reads back a snapshot. *)
Definition reads_back (d : IssueBoardData) : Prop := load_from_disk (Some (model_dump_json d)) = Ok d.

Lemma client_request_agrees client r w m :
  agree w m -> reads_back (b_data (perform clock lower r m).2) ->
  (client_request client r w).1 = (perform clock lower r m).1
  /\ agree (client_request client r w).2 (perform clock lower r m).2.
Proof.
  intros (Hf & Ht & Hn) Hrb.
  destruct (perform_specified (laws := memory_store_laws) clock lower r m (b_data m) eq_refl
    (fun _ => I)) as (Hr & _ & Hc & Hti & Hno).
  injection Hc as Hc. rewrite Hc in Hrb.
  set (b := mk_Board (sh_snapshots w client) (sh_file w) (sh_ticks w) (sh_notified w)).
  assert (current b = Ok (b_data m)) as Hcb by exact Hf.
  pose proof (perform_specified clock lower r b (b_data m) Hcb) as Hb. simpl in Hb.
  rewrite Ht in Hb. destruct (Hb (fun _ => Hrb)) as (Hr' & _ & Hc' & Hti' & Hno').
  unfold client_request. fold b. destruct (perform clock lower r b) as [reply b']. simpl in *.
  split; [congruence|]. clear Hb. split_and!; simpl; [|by rewrite Hti', Hti|rewrite Hno', Hno; simpl; by rewrite Hn].
  rewrite Hc. exact Hc'.
Qed.

(** Clients that take turns, whatever snapshots they hold, are answered as one board in memory would
    answer them, and the file always reads as that board, if pydantic reads back each snapshot it
    dumped: a request observes every update committed before it began. *)
Lemma clients_refine_memory (requests : list (nat * Request)) (w : SharedBoard) (m : Board unit) :
  load_from_disk (sh_file w) = Ok (b_data m) ->
  sh_ticks w = b_ticks m -> sh_notified w = b_notified m ->
  Forall reads_back (snapshots (map snd requests) m) ->
  (serve requests w).1 = (serve_memory (map snd requests) m).1
  /\ load_from_disk (sh_file (serve requests w).2)
     = Ok (b_data (serve_memory (map snd requests) m).2).
Proof.
  intros Hf Ht Hn. assert (agree w m) as Ha by (by split_and!). clear Hf Ht Hn. revert w m Ha.
  induction requests as [|[client r] requests IH]; intros w m Ha Hall; [by destruct Ha|].
  simpl in *. inversion Hall as [|? ? Hrb Hrest]; subst.
  destruct (client_request_agrees client r w m Ha Hrb) as [Hr Ha'].
  destruct (client_request client r w) as [reply w']. destruct (perform clock lower r m) as [reply' m'].
  simpl in *. destruct (IH w' m' Ha' Hrest) as [IH1 IH2].
  destruct (serve requests w') as [rs w'']. destruct (serve_memory _ m') as [rs' m''].
  simpl in *. split; congruence.
Qed.

End Clients.

(** ** Witnesses *)

Definition example_clock (n : nat) : pystr := py "2026-01-0" ++ nat_str (N.of_nat n).
Definition example_requests : list (nat * Request) :=
  [ (0%nat, ReqCreate (inl FEATURE) (py " Task ") (py "do it") (py "loop") 1 (Some (py "k1")));
    (1%nat, ReqCreate (inr (py "bug")) (py "Crash") (py "") (py "judge") 1 None);
    (0%nat, ReqUpdate 2 (inr (py "blocked")) (py "loop") 1 [] None None);
    (1%nat, ReqIncrement 7 (py "implementer") 1 [] None None);
    (1%nat, ReqNext) ].

(** A codec that numbers the snapshots of a run by their size. *)
Definition snapshot_size (d : IssueBoardData) : N :=
  Z.to_N (d_next_id d) + N.of_nat (length (concat (map i_history (d_issues d)))).
Definition table_codec (table : list IssueBoardData) : BoardCodec := {|
  json_loads := fun s => Some (JObj [(py "version", JInt 1); (py "size", JInt (Z.of_N (digits_value 0 s)))]);
  model_validate := fun j =>
    match j with
    | JObj [_; (_, JInt n)] =>
        match find (fun d => Z.of_N (snapshot_size d) =? n) table with
        | Some d => Ok d
        | None => Err (ValidationError "unknown")
        end
    | _ => Err (ValidationError "unknown")
    end;
  model_dump_json := fun d => nat_str (snapshot_size d)
|}.

Definition example_table : list IssueBoardData :=
  empty_data :: snapshots example_clock id (map snd example_requests) memory_board.
Definition example_codec : BoardCodec := table_codec example_table.
Definition example_board : Board unit :=
  (serve_memory example_clock id (map snd example_requests) memory_board).2.

Lemma example_board_ok : board_ok (b_data example_board).
Proof.
  split; [vm_compute; reflexivity|].
  assert (forall r b, board_ok (b_data b) -> board_ok (b_data (perform example_clock id r b).2)) as Hstep.
  { intros r b Hb.
    destruct (perform_ok (laws := memory_store_laws) example_clock id r b (b_data b) eq_refl Hb I)
      as (d' & Hc & Hok & _). by injection Hc as ->. }
  unfold example_board.
  assert (forall rs b, board_ok (b_data b) -> board_ok (b_data (serve_memory example_clock id rs b).2)) as Hall.
  { induction rs as [|r rs IH]; intros b Hb; simpl; [done|]. specialize (Hstep r b Hb).
    destruct (perform example_clock id r b) as [reply b']. specialize (IH b' Hstep).
    by destruct (serve_memory _ _ _ b'). }
  apply Hall. split; [reflexivity|constructor].
Qed.

Lemma requests_keep_board_witness :
  exists d', current (perform example_clock id (ReqReopen (py "operator") 2 []) example_board).2 = Ok d'
    /\ board_ok d' /\ map i_status (d_issues d') = [OPEN; OPEN].
Proof.
  destruct (requests_keep_board (laws := memory_store_laws) example_clock id
    (ReqReopen (py "operator") 2 []) example_board (b_data example_board) eq_refl example_board_ok I)
    as (d' & Hc & Hok & _).
  exists d'. split; [exact Hc|]. split; [exact Hok|].
  injection Hc as Hc. rewrite <- Hc. vm_compute. reflexivity.
Defined.

Lemma next_open_first_witness :
  exists i, (next_open example_board).1 = Ok (Some i) /\ i_id i = 1 /\ i_status i = OPEN.
Proof.
  pose proof (next_open_first example_board (b_data example_board) eq_refl) as H.
  destruct (next_open example_board).1 as [[i|]|e] eqn:E.
  - exists i. split; [reflexivity|]. split; [|apply H].
    vm_compute in E. injection E as <-. reflexivity.
  - vm_compute in E. discriminate.
  - vm_compute in E. discriminate.
Defined.

Definition example_policy : CreateIssuePolicy :=
  mk_CreateIssuePolicy (py "judge") 1 (Some 1) [BUG; PERF].

Lemma filing_respects_policy_witness :
  (create_issue_under_policy example_clock (py "perf") (py "Slow") [] example_policy example_board).1
  = Ok (inr (CapReached 1 1)).
Proof.
  pose proof (filing_respects_policy (laws := memory_store_laws) example_clock (py "perf")
    (py "Slow") [] example_policy example_board (b_data example_board) eq_refl (fun _ => I)) as H.
  cbv zeta in H.
  destruct (create_issue_under_policy example_clock (py "perf") (py "Slow") [] example_policy
    example_board).1 as [[i|[g|c t l|n cap]]|e] eqn:E; vm_compute in E; try discriminate.
  destruct H as (_ & _ & _ & H & _). by injection E as <- <-.
Defined.

Lemma unreadable_store_kept_witness :
  let b := mk_Board empty_data (Some (py "99")) 0 0 in
  (perform (H := file_store (codec := example_codec)) example_clock id (ReqReopen [] 1 []) b).2 = b.
Proof.
  simpl. apply (unreadable_store_kept (H := example_codec) example_clock id (ReqReopen [] 1 [])
    (mk_Board empty_data (Some (py "99")) 0 0) (load_error "invalid store structure")).
  vm_compute. reflexivity.
Defined.
