(* ===== verification/IssueThreads.v ===== *)
(** Requests that overlap (src/libs/vs-issue-tracker/src/vs_issue_tracker/core.py): the operations of
    Issues.v cut at every access to what several threads share (the lock of a board, the file, the
    clock), run by any schedule. The threads of one board exclude one another; two boards of one file
    do not. *)
From S2P Require Import Prelude Issues.

(** ** Requests in steps

    [Lock] and [Unlock] are the ends of [with self._lock]; a lock is reentrant, so the [with] of the
    [get] inside an update is no step of its own. [Refresh] is [_load_from_disk], and an exception of
    it leaves the [with]. What [_data] holds between two requests is not in the state: every request
    reads the file before it uses [_data]. *)
Inductive code :=
| Answer (reply : result Reply)
| Lock (body : code)
| Refresh (next : IssueBoardData -> code)
| Now (next : pystr -> code)
| Save (d : IssueBoardData) (next : code)
| Unlock (reply : result Reply).

Section Programs.
Context (lower : pystr -> pystr).

(** [self.get(issue_id)], the error of a missing issue, and the issue changed and saved. *)
Definition changing (issue_id : Z) (f : pystr -> Issue -> Issue) : code :=
  Refresh (fun d =>
    match find_id issue_id d with
    | None => Unlock (Err (issue_not_found issue_id))
    | Some issue =>
        Now (fun now =>
          Save (d <| d_issues := alter_id issue_id (f now) (d_issues d) |>)
            (Unlock (Ok (ReplyIssue (f now issue)))))
    end).

(** The loop of [reopen_blocked], and what follows it. *)
Fixpoint reopening (actor : pystr) (iteration : Z) (note : pystr) (issues : list Issue)
    (next : list Issue -> list Z -> code) : code :=
  match issues with
  | [] => next [] []
  | issue :: rest =>
      if is_blocked issue then
        Now (fun now => reopening actor iteration note rest (fun issues ids =>
               next (reopened now actor iteration note issue :: issues) (i_id issue :: ids)))
      else reopening actor iteration note rest (fun issues ids => next (issue :: issues) ids)
  end.

Definition program (r : Request) : code :=
  match r with
  | ReqCreate type title description created_by iteration key =>
      match coerce parse_type type with
      | Err e => Answer (Err e)
      | Ok issue_type =>
          Lock (Refresh (fun d => Now (fun now =>
            let issue := new_issue d now issue_type title description created_by iteration key in
            Save (mk_IssueBoardData (d_next_id d + 1) (d_issues d ++ [issue]))
              (Unlock (Ok (ReplyIssue issue))))))
      end
  | ReqGet issue_id => Lock (Refresh (fun d => Unlock (Ok (ReplyOption (find_id issue_id d)))))
  | ReqUpdate issue_id status actor iteration note payload key =>
      match coerce parse_status status with
      | Err e => Answer (Err e)
      | Ok status =>
          Lock (Refresh (fun _ =>
            changing issue_id (fun now => moved now status actor iteration note payload key)))
      end
  | ReqReopen actor iteration note =>
      Lock (Refresh (fun d => reopening actor iteration note (d_issues d) (fun issues reopened =>
        match reopened with
        | [] => Unlock (Ok (ReplyIds []))
        | _ => Save (d <| d_issues := issues |>) (Unlock (Ok (ReplyIds reopened)))
        end)))
  | ReqIncrement issue_id actor iteration note payload key =>
      Lock (Refresh (fun _ =>
        changing issue_id (fun now => attempted now actor iteration note payload key)))
  | ReqList status type =>
      match (let* s := coerce_opt parse_status status in
             let* t := coerce_opt parse_type type in Ok (s, t)) with
      | Err e => Answer (Err e)
      | Ok (s, t) => Lock (Refresh (fun d => Unlock (Ok (ReplyIssues (matching s t d)))))
      end
  | ReqSearch query =>
      if negb (str_truthy (strip query)) then Answer (Ok (ReplyIssues []))
      else
        match search_keywords lower query with
        | [] => Answer (Ok (ReplyIssues []))
        | _ => Lock (Refresh (fun d => Unlock (Ok (ReplyIssues (found lower query d)))))
        end
  | ReqCount creator iteration =>
      Lock (Refresh (fun d => Unlock (Ok (ReplyCount
        (Z.of_nat (length (List.filter (created_in creator iteration) (d_issues d))))))))
  | ReqNext =>
      Lock (Refresh (fun d => Unlock (Ok (ReplyOption
        (head (sort_by sooner (matching (Some OPEN) None d)))))))
  end.
End Programs.

(** ** A request nobody interrupts is the operation *)

Section Solo.
Context {S : Type} {store : BoardStore S} (clock : nat -> pystr) (lower : pystr -> pystr).

Fixpoint solo (c : code) (b : Board S) : result Reply * Board S :=
  match c with
  | Answer reply | Unlock reply => (reply, b)
  | Lock body => solo body b
  | Refresh next =>
      match store_read (b_store b) (b_data b) with
      | Ok d => solo (next d) (mk_Board d (b_store b) (b_ticks b) (b_notified b))
      | Err e => (Err e, b)
      end
  | Now next =>
      solo (next (clock (b_ticks b)))
        (mk_Board (b_data b) (b_store b) (Datatypes.S (b_ticks b)) (b_notified b))
  | Save d next =>
      solo next (mk_Board d (store_write d (b_store b)) (b_ticks b) (Datatypes.S (b_notified b)))
  end.

Lemma solo_reopening actor iteration note l next (b : Board S) :
  solo (reopening actor iteration note l next) b =
  solo (next (reopen_from clock (b_ticks b) actor iteration note l)
             (map i_id (List.filter is_blocked l)))
    (mk_Board (b_data b) (b_store b) (b_ticks b + length (List.filter is_blocked l)) (b_notified b)).
Proof.
  revert next b. induction l as [|i l IH]; intros next b; simpl.
  { rewrite Nat.add_0_r. by destruct b. }
  destruct (is_blocked i); simpl; rewrite IH; simpl; [by rewrite <- plus_n_Sm|done].
Qed.

Lemma reopen_from_none n actor iteration note l :
  List.filter is_blocked l = [] -> reopen_from clock n actor iteration note l = l.
Proof.
  revert n. induction l as [|i l IH]; intros n; simpl; [done|].
  destruct (is_blocked i); [discriminate|]. intros H. by rewrite IH.
Qed.

Lemma solo_changing issue_id f (b : Board S) :
  (forall now i, i_id (f now i) = i_id i) ->
  solo (changing issue_id f) b =
  se_map ReplyIssue
    (let! issue := get_required issue_id in
     let! now := timestamp clock in
     let! _ := replace_issue (f now issue) in
     let! _ := save_locked in
     se_ret (f now issue)) b.
Proof.
  intros Hid. run. unfold refresh_locked, put_data, se_bind, se_get, se_lift, se_modify, find_id. simpl.
  destruct (store_read _ _) as [d|]; simpl; [|done].
  destruct (find _ (d_issues d)) as [i|] eqn:F; simpl; [|done].
  by rewrite (replaced_alter issue_id (f (clock (b_ticks b)))) by done.
Qed.

#[local] Opaque changing.

(** The operation up to its first reading of the store. *)
Ltac reads :=
  run; unfold refresh_locked, put_data, se_bind, se_get, se_lift, se_modify; simpl;
  destruct (store_read _ _) as [d|]; simpl; [|done].

(** Every operation of the board is the request's steps, taken without a pause: on any store, with
    any snapshot, errors included. *)
Lemma program_performs r (b : Board S) : solo (program lower r) b = perform clock lower r b.
Proof.
  destruct r as [type title desc by' it key|id|id status actor it note payload key|actor it note
                |id actor it note payload key|status type|query|creator it|]; simpl.
  - run. destruct (coerce parse_type type); simpl; [|done]. by reads.
  - by reads.
  - run. destruct (coerce parse_status status) as [s|e]; simpl; [|done]. reads.
    rewrite solo_changing by done. by run.
  - unfold reopen_blocked. reads. rewrite solo_reopening, reopen_run. simpl.
    destruct (List.filter is_blocked (d_issues d)) as [|i l] eqn:F; simpl; [|done].
    rewrite reopen_from_none by done. by destruct d.
  - reads. rewrite solo_changing by done. by run.
  - run. destruct (coerce_opt parse_status status); simpl; [|done].
    destruct (coerce_opt parse_type type); simpl; [|done]. by reads.
  - run. unfold found, search_keywords. destruct (str_truthy (strip query)); simpl; [|done].
    destruct (map _ _); [done|]. by reads.
  - by reads.
  - by reads.
Qed.
End Solo.

(** ** Schedules

    A thread is a call of a request on a board. [None] for what is left of it: it has answered. *)
Record Thread := mk_Thread { th_board : nat; th_request : Request; th_left : option code }.

(** An answer, in the order in which they were given. *)
Record Served := mk_Served { sv_thread : nat; sv_request : Request; sv_reply : result Reply }.

Record Boards := mk_Boards {
  bs_file : option pystr;
  bs_ticks : nat;
  bs_notified : nat;
  (** The thread that holds the lock of a board. *)
  bs_owner : nat -> option nat;
  bs_threads : list Thread;
  bs_served : list Served
}.
#[export] Instance eta_Boards : Eta Boards := fun w =>
  mk_Boards (bs_file w) (bs_ticks w) (bs_notified w) (bs_owner w) (bs_threads w) (bs_served w).

Inductive Move := Call (board : nat) (r : Request) | Step (t : nat).

Section Schedules.
Context {codec : BoardCodec} (clock : nat -> pystr) (lower : pystr -> pystr).

(** Some requests of no thread yet, on a file that reads as [m]. *)
Definition opened (file : option pystr) (m : Board unit) : Boards :=
  mk_Boards file (b_ticks m) (b_notified m) (fun _ => None) [] [].

Definition goes_on (t : nat) (th : Thread) (c : code) (w : Boards) : Boards :=
  w <| bs_threads := <[t := mk_Thread (th_board th) (th_request th) (Some c)]> (bs_threads w) |>.
Definition answers (t : nat) (th : Thread) (reply : result Reply) (w : Boards) : Boards :=
  w <| bs_threads := <[t := mk_Thread (th_board th) (th_request th) None]> (bs_threads w) |>
    <| bs_served := bs_served w ++ [mk_Served t (th_request th) reply] |>.
Definition owned_by (board : nat) (owner : option nat) (w : Boards) : Boards :=
  w <| bs_owner := fun b => if Nat.eqb b board then owner else bs_owner w b |>.

(** A step of the thread; [None] when it has none, or waits for its board's lock. *)
Definition step_thread (t : nat) (th : Thread) (w : Boards) : option Boards :=
  match th_left th with
  | None => None
  | Some (Answer reply) => Some (answers t th reply w)
  | Some (Lock body) =>
      match bs_owner w (th_board th) with
      | Some _ => None
      | None => Some (owned_by (th_board th) (Some t) (goes_on t th body w))
      end
  | Some (Refresh next) =>
      Some (goes_on t th
              match load_from_disk (bs_file w) with Ok d => next d | Err e => Unlock (Err e) end w)
  | Some (Now next) =>
      Some (goes_on t th (next (clock (bs_ticks w))) (w <| bs_ticks := S (bs_ticks w) |>))
  | Some (Save d next) =>
      Some (goes_on t th next (w <| bs_file := Some (model_dump_json d) |>
                                 <| bs_notified := S (bs_notified w) |>))
  | Some (Unlock reply) => Some (owned_by (th_board th) None (answers t th reply w))
  end.

Definition move (x : Move) (w : Boards) : option Boards :=
  match x with
  | Call board r =>
      Some (w <| bs_threads := bs_threads w ++ [mk_Thread board r (Some (program lower r))] |>)
  | Step t => match bs_threads w !! t with Some th => step_thread t th w | None => None end
  end.

Fixpoint run_moves (l : list Move) (w : Boards) : option Boards :=
  match l with
  | [] => Some w
  | x :: l => match move x w with Some w => run_moves l w | None => None end
  end.

(** The snapshots that are written. *)
Definition saves_now (x : Move) (w : Boards) : list IssueBoardData :=
  match x with
  | Step t =>
      match bs_threads w !! t with
      | Some (mk_Thread _ _ (Some (Save d _))) => [d]
      | _ => []
      end
  | Call _ _ => []
  end.
Fixpoint saved (l : list Move) (w : Boards) : list IssueBoardData :=
  match l with
  | [] => []
  | x :: l => saves_now x w ++ match move x w with Some w => saved l w | None => [] end
  end.

Definition called_on (board : nat) (x : Move) : Prop :=
  match x with Call b _ => b = board | Step _ => True end.

(** ** The threads of one board *)

(** Inside the lock: nothing is locked again, and the lock is released at the end. *)
Inductive inside : code -> Prop :=
| inside_refresh next : (forall d, inside (next d)) -> inside (Refresh next)
| inside_now next : (forall now, inside (next now)) -> inside (Now next)
| inside_save d next : inside next -> inside (Save d next)
| inside_unlock reply : inside (Unlock reply).
Hint Constructors inside : core.

Lemma inside_changing issue_id f : inside (changing issue_id f).
Proof. constructor. intros d. destruct (find_id issue_id d); eauto. Qed.

Lemma inside_reopening actor iteration note l next :
  (forall issues ids, inside (next issues ids)) -> inside (reopening actor iteration note l next).
Proof.
  revert next. induction l as [|i l IH]; intros next H; simpl; [done|].
  destruct (is_blocked i); [constructor; intros now|]; apply IH; auto.
Qed.
Hint Resolve inside_changing : core.

Lemma program_shape r :
  (exists reply, program lower r = Answer reply)
  \/ (exists body, program lower r = Lock body /\ inside body).
Proof.
  destruct r; simpl; repeat case_match; try (left; by eexists); right; eexists; (split; [done|]); eauto.
  constructor. intros d. apply inside_reopening. intros issues [|i ids]; eauto.
Qed.

Definition waiting (th : Thread) : Prop :=
  th_left th = None \/ th_left th = Some (program lower (th_request th)).

(** The board in memory that what the file and the clock now are stands for. *)
Definition stands_for (w : Boards) (m : Board unit) : Prop :=
  load_from_disk (bs_file w) = Ok (b_data m) /\ bs_ticks w = b_ticks m /\ bs_notified w = b_notified m.

Definition serves (m0 : Board unit) (w : Boards) (m : Board unit) : Prop :=
  serve_memory clock lower (map sv_request (bs_served w)) m0 = (map sv_reply (bs_served w), m).

Definition others_wait (w : Boards) (t : nat) : Prop :=
  forall t' th, t' <> t -> bs_threads w !! t' = Some th -> waiting th.

(** While a thread [t] holds the lock, what is left of its request, run on the board as it is, ends
    where the whole request ends on the board as it was. *)
Definition locked (w : Boards) (m : Board unit) (t : nat) : Prop :=
  exists th c cur,
    bs_threads w !! t = Some th /\ th_left th = Some c /\ inside c /\ others_wait w t
    /\ stands_for w cur /\ solo clock c cur = perform clock lower (th_request th) m.

Definition unlocked (w : Boards) (m : Board unit) : Prop :=
  stands_for w m /\ forall t th, bs_threads w !! t = Some th -> waiting th.

(** The threads are of one board, each answers once and is then through. *)
Record books (board : nat) (threads : list Thread) (served : list Served) : Prop := {
  bk_board : Forall (fun th => th_board th = board) threads;
  bk_answered t : (exists th, threads !! t = Some th /\ th_left th = None) <-> t ∈ map sv_thread served;
  bk_once : NoDup (map sv_thread served);
  bk_request e : e ∈ served -> exists th, threads !! sv_thread e = Some th /\ th_request th = sv_request e
}.

Definition serial (board : nat) (m0 : Board unit) (w : Boards) : Prop :=
  books board (bs_threads w) (bs_served w)
  /\ exists m, serves m0 w m
               /\ match bs_owner w board with Some t => locked w m t | None => unlocked w m end.

Lemma lookup_update {A} (l : list A) t x y :
  l !! t = Some x -> forall i z, <[t := y]> l !! i = Some z -> (i = t /\ z = y) \/ (i <> t /\ l !! i = Some z).
Proof.
  intros L i z. destruct (decide (i = t)) as [->|N].
  - rewrite list_lookup_insert_eq by (by eapply lookup_lt_Some). intros [= <-]. by left.
  - rewrite list_lookup_insert_ne by done. by right.
Qed.

Lemma books_call board threads served r c :
  books board threads served -> books board (threads ++ [mk_Thread board r (Some c)]) served.
Proof.
  intros [B A O R]. split; [apply Forall_app; split; [done|by constructor]|..|done|].
  - intros t. rewrite <- A. split; intros (th & L & E); exists th; (split; [|done]).
    + apply lookup_app_Some in L as [L|[_ L]]; [done|]. apply list_lookup_singleton_Some in L as [_ <-]. done.
    + by apply lookup_app_l_Some.
  - intros e (th & L & E)%R. exists th. split; [by apply lookup_app_l_Some|done].
Qed.

Lemma books_on board threads served t th c :
  books board threads served -> threads !! t = Some th -> th_left th <> None ->
  books board (<[t := mk_Thread (th_board th) (th_request th) (Some c)]> threads) served.
Proof.
  intros [B A O R] L N. split; [|..|done|].
  - apply Forall_insert; [done|]. rewrite Forall_lookup in B. exact (B t th L).
  - intros i. rewrite <- A. split; intros (th' & L' & E).
    + eapply lookup_update in L' as [[-> ->]|[Ni L']]; [done| |done]. by exists th'.
    + exists th'. split; [|done]. rewrite list_lookup_insert_ne; [done|]. intros ->. congruence.
  - intros e (th' & L' & E)%R. destruct (decide (sv_thread e = t)) as [Et|Ne].
    + exists (mk_Thread (th_board th) (th_request th) (Some c)). rewrite Et in *. split.
      * apply list_lookup_insert_eq. by eapply lookup_lt_Some.
      * simpl. congruence.
    + exists th'. by rewrite list_lookup_insert_ne.
Qed.

Lemma books_answer board threads served t th reply :
  books board threads served -> threads !! t = Some th -> th_left th <> None ->
  books board (<[t := mk_Thread (th_board th) (th_request th) None]> threads)
    (served ++ [mk_Served t (th_request th) reply]).
Proof.
  intros [B A O R] L N. pose proof (lookup_lt_Some _ _ _ L) as Lt. split.
  - apply Forall_insert; [done|]. rewrite Forall_lookup in B. exact (B t th L).
  - intros i. rewrite map_app, elem_of_app, <- A. cbn [map sv_thread]. rewrite list_elem_of_singleton. split.
    + intros (th' & L' & E). eapply lookup_update in L' as [[-> _]|[Ni L']]; [by right| |done]. left. by exists th'.
    + intros [(th' & L' & E)| ->].
      * exists th'. split; [|done]. rewrite list_lookup_insert_ne; [done|]. intros ->. congruence.
      * eexists. split; [by apply list_lookup_insert_eq|done].
  - rewrite map_app. apply NoDup_app. split; [done|split; [|apply NoDup_singleton]].
    intros i I H. apply list_elem_of_singleton in H as ->. apply A in I as (th' & L' & E). simpl in L'. congruence.
  - intros e. rewrite elem_of_app, list_elem_of_singleton. intros [(th' & L' & E)%R| ->]; simpl.
    + destruct (decide (sv_thread e = t)) as [Et|Ne].
      * rewrite Et in *. eexists. split; [by apply list_lookup_insert_eq|]. simpl. congruence.
      * exists th'. by rewrite list_lookup_insert_ne.
    + eexists. split; [by apply list_lookup_insert_eq|done].
Qed.

Lemma serve_memory_snoc rs r m :
  serve_memory clock lower (rs ++ [r]) m =
  (let '(replies, m') := serve_memory clock lower rs m in
   let '(reply, m'') := perform clock lower r m' in (replies ++ [reply], m'')).
Proof.
  revert m. induction rs as [|r0 rs IH]; intros m; simpl; [by destruct (perform _ _ _ _)|].
  destruct (perform clock lower r0 m) as [reply0 m0]. rewrite IH.
  destruct (serve_memory _ _ rs m0) as [replies m1]. by destruct (perform clock lower r m1).
Qed.

Lemma serves_snoc m0 w m t th reply m' :
  serves m0 w m -> perform clock lower (th_request th) m = (reply, m') ->
  serve_memory clock lower (map sv_request (bs_served w ++ [mk_Served t (th_request th) reply])) m0
  = (map sv_reply (bs_served w ++ [mk_Served t (th_request th) reply]), m').
Proof. unfold serves. intros H P. rewrite !map_app. simpl. by rewrite serve_memory_snoc, H, P. Qed.

Lemma waiting_call w r board t th :
  (bs_threads w ++ [mk_Thread board r (Some (program lower r))]) !! t = Some th ->
  bs_threads w !! t = Some th \/ waiting th.
Proof.
  intros [L|[_ L]]%lookup_app_Some; [by left|]. apply list_lookup_singleton_Some in L as [_ <-]. right. by right.
Qed.

(** A request that has begun and not ended is the one of the thread that holds the lock. *)
Lemma waiting_not_inside th c : waiting th -> th_left th = Some c -> inside c -> False.
Proof.
  intros [W|W] L I; [congruence|]. rewrite L in W. injection W as ->.
  destruct (program_shape (th_request th)) as [[reply E]|(body & E & _)]; rewrite E in I; inversion I.
Qed.

Lemma holder board m0 w t th c :
  serial board m0 w -> bs_threads w !! t = Some th -> th_left th = Some c ->
  (forall reply, c <> Answer reply) -> (forall body, c <> Lock body) ->
  bs_owner w board = Some t /\ exists m, serves m0 w m /\ locked w m t.
Proof.
  intros (_ & m & Sm & H) L E NA NL.
  assert (~ waiting th) as Nw.
  { intros [W|W]; [congruence|]. rewrite E in W. injection W as ->.
    destruct (program_shape (th_request th)) as [[reply P]|(body & P & _)]; [exact (NA _ P)|exact (NL _ P)]. }
  destruct (bs_owner w board) as [t0|]; [|by destruct H as [_ H]; apply H in L].
  destruct (decide (t = t0)) as [->|N]; [by eauto|]. destruct H as (? & ? & ? & _ & _ & _ & O & _).
  by apply O in L.
Qed.

(** The thread of a lock goes on, and the board that the file stands for with it. *)
Lemma locked_on w w' m t th c cur :
  bs_threads w !! t = Some th -> others_wait w t ->
  bs_threads w' = <[t := mk_Thread (th_board th) (th_request th) (Some c)]> (bs_threads w) ->
  inside c -> stands_for w' cur -> solo clock c cur = perform clock lower (th_request th) m -> locked w' m t.
Proof.
  intros L O E I S H. exists (mk_Thread (th_board th) (th_request th) (Some c)), c, cur. rewrite E.
  split; [apply list_lookup_insert_eq; by eapply lookup_lt_Some|]. split_and!; try done.
  intros t' th' N. rewrite E, list_lookup_insert_ne by done. by apply O.
Qed.

Lemma answer_at_once r reply (m : Board unit) :
  program lower r = Answer reply -> perform clock lower r m = (reply, m).
Proof. intros E. by rewrite <- program_performs, E. Qed.

Lemma serial_call board m0 w r :
  serial board m0 w ->
  serial board m0 (w <| bs_threads := bs_threads w ++ [mk_Thread board r (Some (program lower r))] |>).
Proof.
  intros (B & m & Sm & H). split; [by apply books_call|]. exists m. split; [done|]. simpl.
  destruct (bs_owner w board) as [t|].
  - destruct H as (th & c & cur & L & E & I & O & S & P). exists th, c, cur. split_and!; try done.
    + by apply lookup_app_l_Some.
    + intros t' th' N. intros [L'|W]%waiting_call; [|done]. by eapply O.
  - destruct H as [S W]. split; [done|]. intros t' th' [L'|?]%waiting_call; [|done]. by eapply W.
Qed.

Lemma serial_answer board m0 w t th reply :
  serial board m0 w -> bs_threads w !! t = Some th -> th_left th = Some (Answer reply) ->
  serial board m0 (answers t th reply w).
Proof.
  intros (B & m & Sm & H) L E. split; [by apply books_answer; [done..|congruence]|]. exists m.
  assert (waiting th) as W.
  { destruct (bs_owner w board) as [t0|]; [|destruct H as [_ W]; by eapply W].
    destruct H as (th0 & c & cur & L0 & E0 & I & O & _). destruct (decide (t = t0)) as [->|N]; [|by eapply O].
    assert (th0 = th) as -> by congruence. rewrite E in E0. injection E0 as <-. inversion I. }
  assert (perform clock lower (th_request th) m = (reply, m)) as P.
  { apply answer_at_once. destruct W as [W|W]; congruence. }
  split; [by eapply serves_snoc|]. simpl.
  assert (forall i z, <[t := mk_Thread (th_board th) (th_request th) None]> (bs_threads w) !! i = Some z ->
            waiting z \/ (i <> t /\ bs_threads w !! i = Some z)) as U.
  { intros i z [[-> ->]|]%(lookup_update _ _ _ _ L); [left; by left|by right]. } 
  destruct (bs_owner w board) as [t0|].
  - destruct H as (th0 & c & cur & L0 & E0 & I & O & S & Q).
    assert (t0 <> t) as N. { intros ->. assert (th0 = th) as -> by congruence. exact (waiting_not_inside _ _ W E0 I). }
    exists th0, c, cur. split_and!; try done; [simpl; rewrite list_lookup_insert_ne by congruence; done|].
    intros t' th' N' L'. apply U in L' as [?|[_ L']]; [done|]. by eapply O.
  - destruct H as [S Ww]. split; [done|]. intros t' th' L'. apply U in L' as [?|[_ L']]; [done|]. by eapply Ww.
Qed.

Lemma serial_lock board m0 w t th body :
  serial board m0 w -> bs_threads w !! t = Some th -> th_left th = Some (Lock body) ->
  bs_owner w (th_board th) = None ->
  serial board m0 (owned_by (th_board th) (Some t) (goes_on t th body w)).
Proof.
  intros (B & m & Sm & H) L E N. split; [by apply books_on; [done..|congruence]|]. exists m. split; [done|].
  assert (th_board th = board) as Eb by (destruct B as [B _ _ _]; rewrite Forall_lookup in B; by eapply B).
  rewrite Eb in *. simpl. rewrite Nat.eqb_refl. rewrite N in H. destruct H as [S W].
  pose proof (W _ _ L) as [Wt|Wt]; [congruence|]. rewrite E in Wt. injection Wt as Wt.
  destruct (program_shape (th_request th)) as [[reply P]|(body' & P & I)]; [congruence|].
  assert (body' = body) as -> by congruence.
  eapply (locked_on w _ m t th body m); try done; [by intros t' th' _ L'; eapply W|].
  by rewrite <- program_performs, P.
Qed.

Lemma serial_inside board m0 w t th c w' :
  serial board m0 w -> bs_threads w !! t = Some th -> th_left th = Some c ->
  (forall reply, c <> Answer reply) -> (forall body, c <> Lock body) ->
  Forall reads_back (match c with Save d _ => [d] | _ => [] end) ->
  step_thread t th w = Some w' -> serial board m0 w'.
Proof.
  intros K L E NA NL F H. destruct (holder _ _ _ _ _ _ K L E NA NL) as (Ow & m & Sm & th0 & c0 & cur & L0 & E0 & I & O & S & P).
  assert (th0 = th) as -> by congruence. rewrite E in E0. injection E0 as <-. destruct K as [B _].
  assert (th_board th = board) as Eb by (destruct B as [B _ _ _]; rewrite Forall_lookup in B; by eapply B).
  unfold step_thread in H. rewrite E in H. pose proof S as (Sf & St & Sn).
  destruct c as [reply|body|next|next|d next|reply];
    [by destruct (NA reply)|by destruct (NL body)|..]; injection H as <-.
  - split; [by apply books_on; [done..|congruence]|]. exists m. split; [done|]. simpl. rewrite Ow, Sf.
    inversion I as [? In| | |]; subst. eapply (locked_on w _ m t th _ cur); try done.
    rewrite <- P. simpl. by destruct cur as [? [] ? ?].
  - split; [by apply books_on; [done..|congruence]|]. exists m. split; [done|]. simpl. rewrite Ow.
    inversion I as [|? In| |]; subst.
    eapply (locked_on w _ m t th _ (mk_Board (b_data cur) tt (Datatypes.S (b_ticks cur)) (b_notified cur))); try done.
    + by split; [|split; simpl; [f_equal|]].
    + rewrite <- P. simpl. rewrite St. by destruct cur as [? [] ? ?].
  - split; [by apply books_on; [done..|congruence]|]. exists m. split; [done|]. simpl. rewrite Ow.
    inversion I; subst. inversion F as [|? ? Rb _]; subst.
    eapply (locked_on w _ m t th _ (mk_Board d tt (b_ticks cur) (Datatypes.S (b_notified cur)))); try done.
    + by split; [|split; simpl; [|f_equal]].
    + rewrite <- P. simpl. by destruct cur as [? [] ? ?].
  - split; [by apply books_answer; [done..|congruence]|]. exists cur. split.
    + eapply serves_snoc; [exact Sm|]. by rewrite <- P.
    + simpl. rewrite Eb, Nat.eqb_refl. split; [done|]. intros t' th' L'.
      eapply lookup_update in L' as [[-> ->]|[N L']]; [by left| |exact L]. by eapply O.
Qed.

Lemma serial_move board m0 x w w' :
  called_on board x -> Forall reads_back (saves_now x w) -> serial board m0 w -> move x w = Some w' ->
  serial board m0 w'.
Proof.
  intros C F K H. destruct x as [b r|t]; simpl in *.
  - injection H as <-. subst b. by apply serial_call.
  - destruct (bs_threads w !! t) as [th|] eqn:L; [|done]. destruct (th_left th) as [c|] eqn:E.
    2: { unfold step_thread in H. by rewrite E in H. }
    destruct c as [reply|body| | | |] eqn:Ec; try (eapply serial_inside; try done; destruct th; simpl in *; by subst).
    + unfold step_thread in H. rewrite E in H. injection H as <-. by apply serial_answer.
    + unfold step_thread in H. rewrite E in H. destruct (bs_owner w (th_board th)) eqn:N; [done|].
      injection H as <-. by apply serial_lock.
Qed.

Lemma serial_run board m0 l w w' :
  Forall (called_on board) l -> Forall reads_back (saved l w) -> serial board m0 w -> run_moves l w = Some w' ->
  serial board m0 w'.
Proof.
  revert w. induction l as [|x l IH]; intros w C F K H; simpl in *; [by injection H as <-|].
  inversion C; subst. apply Forall_app in F as [F1 F2]. destruct (move x w) as [w1|] eqn:M; [|done].
  eapply IH; [done|exact F2| |exact H]. by eapply serial_move.
Qed.

Lemma serial_opened board file m : load_from_disk file = Ok (b_data m) -> serial board m (opened file m).
Proof.
  intros H. split.
  - split; simpl; [constructor| |constructor|by intros e ?%elem_of_nil]. intros t. rewrite lookup_nil.
    split; [by intros (? & ? & _)|by intros ?%elem_of_nil].
  - exists m. split; [done|]. simpl. split; [by split|]. intros t th L. simpl in L. by rewrite lookup_nil in L.
Qed.

(** C3. The requests of one board, from any number of threads, are as good as served one at a time. Under
    any schedule of their steps (the lock, each reading and writing of the file, each reading of the
    clock), the answers are those that one board in memory gives to the same requests one after
    another, in the order in which they were answered; each request is answered at most once, with that answer;
    whenever nobody holds the lock the file reads as that board; and as long as a request is unanswered
    some thread can go on. It is said of the threads that share one board, which have one lock, and for
    files on which pydantic reads back every snapshot the run writes; two boards of one file exclude
    each other in no way ([two_boards_lose_an_issue]). *)
Theorem threads_refine_memory board l file m w :
  load_from_disk file = Ok (b_data m) ->
  Forall (called_on board) l -> run_moves l (opened file m) = Some w ->
  Forall reads_back (saved l (opened file m)) ->
  (serve_memory clock lower (map sv_request (bs_served w)) m).1 = map sv_reply (bs_served w)
  /\ (bs_owner w board = None ->
      load_from_disk (bs_file w)
      = Ok (b_data (serve_memory clock lower (map sv_request (bs_served w)) m).2))
  /\ NoDup (map sv_thread (bs_served w))
  /\ (forall t th, bs_threads w !! t = Some th ->
        (th_left th = None /\ exists reply, mk_Served t (th_request th) reply ∈ bs_served w)
        \/ (th_left th <> None /\ exists t' w', move (Step t') w = Some w')).
Proof.
  intros Hf C R F. destruct (serial_run _ _ _ _ _ C F (serial_opened board file m Hf) R) as [[B A O Q] (m' & Sm & H)].
  unfold serves in Sm. rewrite Sm. simpl. split; [done|]. split.
  { intros N. rewrite N in H. by destruct H as [(? & _) _]. }
  split; [done|]. intros t th L. destruct (th_left th) as [c|] eqn:E.
  - right. split; [done|]. rewrite Forall_lookup in B. destruct (bs_owner w board) as [t0|] eqn:Ow.
    + destruct H as (th0 & c0 & cur & L0 & E0 & I & _). exists t0. simpl. rewrite L0. unfold step_thread. rewrite E0.
      inversion I; subst; by eexists.
    + exists t. simpl. rewrite L. unfold step_thread. rewrite E. destruct c; try by eexists.
      rewrite (B _ _ L), Ow. by eexists.
  - left. split; [done|]. assert (t ∈ map sv_thread (bs_served w)) as I by (apply A; eauto).
    apply list_elem_of_fmap in I as ([t' r reply] & -> & I). simpl in *. exists reply.
    destruct (Q _ I) as (th' & L' & E'). simpl in *. assert (th' = th) as -> by congruence. by rewrite E'.
Qed.

(** ** Two boards of one file

    Each has a lock of its own: whoever writes last drops what the other wrote after both had read. *)
Definition overlapping : list Move :=
  [Step 0; Step 0; Step 1; Step 1; Step 1; Step 1; Step 1; Step 0; Step 0; Step 0].

#[local] Arguments load_from_disk : simpl never.

(** Two creations on two boards can both be answered with the same identifier, and only one of the
    issues is then in the file. *)
Lemma two_boards_lose_an_issue file m type title description by1 by2 iteration key :
  load_from_disk file = Ok (b_data m) ->
  let created creator :=
    new_issue (b_data m) (clock (b_ticks m)) type title description creator iteration key in
  let later :=
    new_issue (b_data m) (clock (S (b_ticks m))) type title description by1 iteration key in
  let left := mk_IssueBoardData (d_next_id (b_data m) + 1) (d_issues (b_data m) ++ [later]) in
  reads_back left ->
  exists w,
    run_moves (Call 0 (ReqCreate (inl type) title description by1 iteration key)
               :: Call 1 (ReqCreate (inl type) title description by2 iteration key) :: overlapping)
      (opened file m) = Some w
    /\ map sv_reply (bs_served w) = [Ok (ReplyIssue (created by2)); Ok (ReplyIssue later)]
    /\ i_id (created by2) = i_id later
    /\ load_from_disk (bs_file w) = Ok left.
Proof.
  intros Hf created later left Rb. eexists. split.
  { revert Hf.
    lazy -[load_from_disk new_issue model_dump_json d_next_id d_issues b_data b_ticks b_notified Z.add].
    generalize (load_from_disk file). intros x ->.
    lazy -[new_issue model_dump_json d_next_id d_issues b_data b_ticks b_notified Z.add]. reflexivity. }
  split; [done|]. split; [done|]. exact Rb.
Qed.
End Schedules.

(** ** A schedule of six requests, two of them inside another *)

Definition six_requests : list Move :=
  map (fun r => Call 0 (snd r)) example_requests ++ [Call 0 (ReqSearch [])].
Definition steps_of (t n : nat) : list Move := replicate n (Step t).
Definition six_steps : list Move :=
  steps_of 0 3 ++ [Step 5] ++ steps_of 0 2 ++ steps_of 1 4 ++ steps_of 1 1 ++ steps_of 2 6 ++ steps_of 3 4
    ++ steps_of 4 3.
Definition six_file : option pystr := Some (model_dump_json (BoardCodec := example_codec) empty_data).
Definition six_world : Boards :=
  default (opened six_file memory_board)
    (run_moves (codec := example_codec) example_clock id (six_requests ++ six_steps) (opened six_file memory_board)).

Lemma threads_refine_memory_witness :
  map sv_thread (bs_served six_world) = [5; 0; 1; 2; 3; 4]%nat
  /\ map (fun e => is_ok (sv_reply e)) (bs_served six_world) = [true; true; true; true; false; true]
  /\ (serve_memory example_clock id (map sv_request (bs_served six_world)) memory_board).1
     = map sv_reply (bs_served six_world).
Proof.
  split; [by vm_compute|]. split; [by vm_compute|].
  apply (threads_refine_memory (codec := example_codec) example_clock id 0 (six_requests ++ six_steps) six_file
           memory_board six_world).
  - vm_compute. reflexivity.
  - repeat (apply Forall_cons; split; [reflexivity || exact I|]). apply Forall_nil. exact I.
  - vm_compute. reflexivity.
  - vm_compute saved. repeat (apply Forall_cons; split; [vm_compute; reflexivity|]). apply Forall_nil. exact I.
Defined.
