(* ===== verification/BoardOwner.v ===== *)
(** The owner of the issue-board operations (src/libs/vs-runtime, _issue_board_operations.py, over
    the request values of vs-issue-tracker's operations.py): reading the board, applying an ordered
    batch of keyed changes, and appending keyed progress entries. The owner is written against the
    interface [IssueTracker]; [TrackerLaws] is what a tracker promises it, and the boards of
    Issues.v keep that promise. [Faulty] is the fault hook of the tracker's fake. *)
From S2P Require Import Prelude Issues.

(** ** The tracker as the owner sees it *)

Class IssueTracker (T : Type) := {
  tr_list : SE T (list Issue);
  tr_get : Z -> SE T (option Issue);
  tr_create : IssueType -> pystr -> pystr -> pystr -> Z -> option pystr -> SE T Issue;
  tr_increment : Z -> pystr -> Z -> pystr -> option (list (pystr * json)) -> option pystr -> SE T Issue;
  tr_update : Z -> IssueStatus -> pystr -> Z -> pystr -> option (list (pystr * json)) ->
              option pystr -> SE T Issue
}.

(** What a tracker that answers promises: a board it shows, read by [tr_list] and [tr_get] and
    changed only as a request says. *)
Class TrackerLaws (T : Type) {tracker : IssueTracker T} := {
  shows : T -> IssueBoardData -> Prop;
  list_law t d : shows t d -> exists t', tr_list t = (Ok (d_issues d), t') /\ shows t' d;
  get_law issue_id t d :
    shows t d -> exists t', tr_get issue_id t = (Ok (find_id issue_id d), t') /\ shows t' d;
  create_law type title desc by' it key t d :
    shows t d -> exists now t',
      let i := new_issue d now type title desc by' it key in
      tr_create type title desc by' it key t = (Ok i, t')
      /\ shows t' (mk_IssueBoardData (d_next_id d + 1) (d_issues d ++ [i]));
  increment_law issue_id actor it note payload key t d :
    shows t d -> exists now t',
      let f := attempted now actor it note payload key in
      match find_id issue_id d with
      | None => tr_increment issue_id actor it note payload key t
                = (Err (issue_not_found issue_id), t') /\ shows t' d
      | Some i => tr_increment issue_id actor it note payload key t = (Ok (f i), t')
                  /\ shows t' (d <| d_issues := alter_id issue_id f (d_issues d) |>)
      end;
  update_law issue_id s actor it note payload key t d :
    shows t d -> exists now t',
      let f := moved now s actor it note payload key in
      match find_id issue_id d with
      | None => tr_update issue_id s actor it note payload key t
                = (Err (issue_not_found issue_id), t') /\ shows t' d
      | Some i => tr_update issue_id s actor it note payload key t = (Ok (f i), t')
                  /\ shows t' (d <| d_issues := alter_id issue_id f (d_issues d) |>)
      end
}.

(** A board of Issues.v is a tracker. *)
Section BoardTracker.
Context {S : Type} {store : BoardStore S} {storable : IssueBoardData -> Prop}.
Context {laws : BoardStoreLaws S storable} (clock : nat -> pystr).

Definition board_tracker : IssueTracker (Board S) := {|
  tr_list := list_issues None None;
  tr_get := get;
  tr_create := fun type => create clock (inl type);
  tr_increment := increment_attempts clock;
  tr_update := fun issue_id s => update_status clock issue_id (inl s)
|}.

Lemma se_map_run {St A B} (f : A -> B) (m : SE St A) s :
  se_map f m s = (match (m s).1 with Ok a => Ok (f a) | Err e => Err e end, (m s).2).
Proof. unfold se_map, se_bind, se_ret. by destruct (m s) as [[a|e] s1]. Qed.

(** A request's specified outcome, read through the method that serves it. *)
Lemma method_outcome {A} (f : A -> Reply) (m : SE (Board S) A) (b : Board S) (o : outcome) :
  implements (se_map f m b) b o ->
  exists r b', m b = (r, b') /\ match r with Ok a => Ok (f a) | Err e => Err e end = o_reply o
               /\ current b' = Ok (o_data o).
Proof.
  rewrite se_map_run. intros (Hr & _ & Hc & _). simpl in *. exists (m b).1, (m b).2.
  split_and!; [by destruct (m b)|done|done].
Qed.

Context (Hall : forall d, storable d).

Lemma request_outcome r (b : Board S) d :
  current b = Ok d -> implements (perform clock id r b) b (specified clock id r d (b_ticks b)).
Proof. intros Hc. by apply perform_specified. Qed.

#[program] Definition board_tracker_laws : @TrackerLaws (Board S) board_tracker := {|
  shows := fun b d => current b = Ok d
|}.
Next Obligation.
  intros b d Hc. destruct (method_outcome ReplyIssues _ _ _ (request_outcome (ReqList None None) b d Hc))
    as (r & b' & Hm & Hr & Hc'). simpl in *. exists b'. split; [|done].
  rewrite Hm. destruct r as [l|e]; [|done]. injection Hr as ->. f_equal. f_equal.
  unfold matching. simpl. by induction (d_issues d) as [|i l IH]; simpl; [|rewrite IH].
Qed.
Next Obligation.
  intros issue_id b d Hc.
  destruct (method_outcome ReplyOption _ _ _ (request_outcome (ReqGet issue_id) b d Hc))
    as (r & b' & Hm & Hr & Hc'). simpl in *. exists b'. split; [|done].
  rewrite Hm. destruct r as [l|e]; [|done]. by injection Hr as ->.
Qed.
Next Obligation.
  intros type title desc by' it key b d Hc.
  destruct (method_outcome ReplyIssue _ _ _
    (request_outcome (ReqCreate (inl type) title desc by' it key) b d Hc)) as (r & b' & Hm & Hr & Hc').
  simpl in *. exists (clock (b_ticks b)), b'. split; [|done].
  rewrite Hm. destruct r as [i|e]; [|done]. by injection Hr as ->.
Qed.
Next Obligation.
  intros issue_id actor it note payload key b d Hc.
  destruct (method_outcome ReplyIssue _ _ _
    (request_outcome (ReqIncrement issue_id actor it note payload key) b d Hc))
    as (r & b' & Hm & Hr & Hc').
  simpl in *. exists (clock (b_ticks b)), b'. unfold change_issue in *.
  destruct (find_id issue_id d) as [i|]; simpl in *;
    (split; [|done]); rewrite Hm; destruct r as [j|e]; try done; by injection Hr as ->.
Qed.
Next Obligation.
  intros issue_id s actor it note payload key b d Hc.
  destruct (method_outcome ReplyIssue _ _ _
    (request_outcome (ReqUpdate issue_id (inl s) actor it note payload key) b d Hc))
    as (r & b' & Hm & Hr & Hc').
  simpl in *. exists (clock (b_ticks b)), b'. unfold change_issue in *.
  destruct (find_id issue_id d) as [i|]; simpl in *;
    (split; [|done]); rewrite Hm; destruct r as [j|e]; try done; by injection Hr as ->.
Qed.

End BoardTracker.

(** The board in memory, for any clock. *)
#[export] Instance memory_tracker_laws clock : @TrackerLaws (Board unit) (board_tracker clock) :=
  board_tracker_laws (laws := memory_store_laws) clock (fun _ => I).

(** ** Requests and outcomes (operations.py) *)

Inductive IssueBody :=
| TextBody (text : pystr)
| TemplateBody (template : pystr).

Inductive IssueChange :=
| CreateIssue (key : pystr) (type : IssueType) (title : pystr) (body : IssueBody)
    (created_by : pystr) (iteration : Z)
| RecordAttempt (key : pystr) (issue_id : Z) (actor : pystr) (iteration : Z)
    (note payload_json : pystr)
| SetIssueStatus (key : pystr) (issue_id : Z) (status : IssueStatus) (actor : pystr)
    (iteration : Z) (note payload_json : pystr).

Definition change_of_key (c : IssueChange) : pystr :=
  match c with
  | CreateIssue key _ _ _ _ _ | RecordAttempt key _ _ _ _ _ | SetIssueStatus key _ _ _ _ _ _ => key
  end.

Record LogProgress := mk_LogProgress {
  lp_key : pystr;
  lp_iteration : Z;
  lp_step : pystr;
  lp_issue_id : option Z;
  lp_payload_json : pystr
}.

Inductive OperationRequest :=
| ReadBoard
| ApplyIssueChanges (changes : list IssueChange)
| Log (entry : LogProgress).

Inductive OutcomeStatus := SUCCEEDED | REJECTED | FAILED.

Record IssueRow := mk_IssueRow {
  r_id : Z;
  r_type : IssueType;
  r_status : IssueStatus;
  r_title : pystr;
  r_description : pystr;
  r_attempts : Z;
  r_created_by : pystr;
  r_created_iter : Z
}.

Record ChangeResult := mk_ChangeResult { cr_key : pystr; cr_issue_id : Z }.

(** [detail] is the text of the exception that rejected a change, after the change's key. *)
Record AppliedChanges := mk_AppliedChanges {
  ac_status : OutcomeStatus;
  ac_results : list ChangeResult;
  ac_detail : option (pystr * pystr)
}.

Inductive Outcome :=
| BoardSnapshot (status : OutcomeStatus) (issues : list IssueRow)
| Applied_ (a : AppliedChanges)
| LoggedProgress (status : OutcomeStatus).

Inductive Inspection :=
| Applied (outcome : Outcome)
| NotApplied.

(** ** The owner *)

Record IssueBoardOwner (T : Type) := mk_Owner {
  ow_tracker : T;
  (** The text of the progress log. *)
  ow_progress : pystr;
  (** The board reads handed to [publish]. *)
  ow_published : list (list Issue)
}.
Arguments mk_Owner {T} _ _ _.
Arguments ow_tracker {T} _.
Arguments ow_progress {T} _.
Arguments ow_published {T} _.

Section Owner.
Context {T : Type} {tracker : IssueTracker T}.
(** [decode_json] of vs-decode on a payload, [None] when it is unreadable; the texts only the
    strategy's templates produce; whether a mirror of the board is attached. *)
Context (decode_json : pystr -> option json).
Context (issue_body : pystr -> pystr) (progress_entry : LogProgress -> pystr).
Context (mirrored : bool).

(** A call of the tracker by the owner. *)
Definition ask {A} (m : SE T A) : SE (IssueBoardOwner T) A := fun o =>
  let '(r, t) := m (ow_tracker o) in (r, mk_Owner t (ow_progress o) (ow_published o)).

Definition payload (payload_json : pystr) : result (option (list (pystr * json))) :=
  if negb (str_truthy payload_json) then Ok None
  else match decode_json payload_json with
       | None => Err (OtherError "ProgressPayloadUnreadableError" [AStr payload_json])
       | Some (JObj fields) => Ok (Some fields)
       | Some v => Ok (Some [(py "value", v)])
       end.

(** [IssueRow(...)]: the fields' bounds are checked. *)
Definition issue_row (i : Issue) : result IssueRow :=
  raise (ValidationError "IssueRow") when (i_id i <? 1) || (i_attempts i <? 0) in
  Ok (mk_IssueRow (i_id i) (i_type i) (i_status i) (i_title i)
        (if bool_decide (i_status i = CLOSED) then [] else i_description i)
        (i_attempts i) (i_created_by i) (i_created_iter i)).

Definition by_id (a b : Issue) : bool := i_id a <=? i_id b.

Definition read : SE (IssueBoardOwner T) Outcome :=
  let! listed := ask tr_list in
  let issues := sort_by by_id listed in
  let! _ := se_modify (fun o =>
    if mirrored then mk_Owner (ow_tracker o) (ow_progress o) (ow_published o ++ [issues]) else o) in
  let! rows := se_lift (mapM_result issue_row issues) in
  se_ret (BoardSnapshot SUCCEEDED rows).

Definition landed (c : IssueChange) : SE (IssueBoardOwner T) (option Issue) :=
  match c with
  | CreateIssue key _ _ _ _ _ =>
      let! issues := ask tr_list in
      se_ret (find (fun i => has_key i key) issues)
  | RecordAttempt key issue_id _ _ _ _ | SetIssueStatus key issue_id _ _ _ _ _ =>
      let! issue := ask (tr_get issue_id) in
      se_ret (match issue with Some i => if has_key i key then Some i else None | None => None end)
  end.

Definition perform_change (c : IssueChange) : SE (IssueBoardOwner T) ChangeResult :=
  let! issue :=
    match c with
    | CreateIssue key type title body created_by iteration =>
        let description :=
          match body with TextBody text => text | TemplateBody template => issue_body template end in
        ask (tr_create type title description created_by iteration (Some key))
    | RecordAttempt key issue_id actor iteration note payload_json =>
        let! p := se_lift (payload payload_json) in
        ask (tr_increment issue_id actor iteration note p (Some key))
    | SetIssueStatus key issue_id status actor iteration note payload_json =>
        let! p := se_lift (payload payload_json) in
        ask (tr_update issue_id status actor iteration note p (Some key))
    end in
  se_ret (mk_ChangeResult (change_of_key c) (i_id issue)).

(** The loop of [_apply], with the results collected so far. *)
Fixpoint apply_from (results : list ChangeResult) (changes : list IssueChange) :
    SE (IssueBoardOwner T) AppliedChanges :=
  match changes with
  | [] => se_ret (mk_AppliedChanges SUCCEEDED results None)
  | c :: rest =>
      let! found := landed c in
      match found with
      | Some i => apply_from (results ++ [mk_ChangeResult (change_of_key c) (i_id i)]) rest
      | None => fun o =>
          match perform_change c o with
          | (Ok res, o) => apply_from (results ++ [res]) rest o
          | (Err (KeyError message), o) =>
              (Ok (mk_AppliedChanges REJECTED results (Some (change_of_key c, message))), o)
          | (Err e, o) => (Err e, o)
          end
      end
  end.

Definition apply (changes : list IssueChange) : SE (IssueBoardOwner T) AppliedChanges :=
  apply_from [] changes.

Definition progress_marker (key : pystr) : pystr :=
  py "<!-- vibesys:progress-key:v1 " ++ key ++ py " -->" ++ newline.

Definition log (entry : LogProgress) : SE (IssueBoardOwner T) Outcome :=
  let marker := progress_marker (lp_key entry) in
  let! text := se_get ow_progress in
  if contains marker text then se_ret (LoggedProgress SUCCEEDED)
  else
    let! _ := se_modify (fun o =>
      mk_Owner (ow_tracker o)
        (ow_progress o ++ rstrip_by is_space (progress_entry entry) ++ newline ++ marker ++ newline)
        (ow_published o)) in
    se_ret (LoggedProgress SUCCEEDED).

(** [perform]. *)
Definition perform_operation (r : OperationRequest) : SE (IssueBoardOwner T) Outcome :=
  match r with
  | ReadBoard => read
  | ApplyIssueChanges changes => se_map Applied_ (apply changes)
  | Log entry => log entry
  end.

Fixpoint all_landed (changes : list IssueChange) : SE (IssueBoardOwner T) (list (option Issue)) :=
  match changes with
  | [] => se_ret []
  | c :: rest => let! i := landed c in let! found := all_landed rest in se_ret (i :: found)
  end.

Fixpoint landed_results (changes : list IssueChange) (found : list (option Issue)) :
    option (list ChangeResult) :=
  match changes, found with
  | c :: changes, Some i :: found =>
      match landed_results changes found with
      | Some results => Some (mk_ChangeResult (change_of_key c) (i_id i) :: results)
      | None => None
      end
  | _ :: _, _ => None
  | [], _ => Some []
  end.

Definition observe (r : OperationRequest) : SE (IssueBoardOwner T) Inspection :=
  match r with
  | ReadBoard => let! snapshot := read in se_ret (Applied snapshot)
  | ApplyIssueChanges changes =>
      let! found := all_landed changes in
      se_ret (match landed_results changes found with
              | Some results => Applied (Applied_ (mk_AppliedChanges SUCCEEDED results None))
              | None => NotApplied
              end)
  | Log entry =>
      let! text := se_get ow_progress in
      se_ret (if contains (progress_marker (lp_key entry)) text
              then Applied (LoggedProgress SUCCEEDED) else NotApplied)
  end.

End Owner.

(** ** Faults around a tracker's operations (fake.py)

    The hook is called before and after each operation and may raise: [plan] says for each call
    to come whether it does. *)
Record Faulty (T : Type) := mk_Faulty { f_tracker : T; f_plan : list bool }.
Arguments mk_Faulty {T} _ _.
Arguments f_tracker {T} _.
Arguments f_plan {T} _.

Definition fault : exn := OtherError "fault" [].

Section Faults.
Context {T : Type} {tracker : IssueTracker T}.

Definition hook : SE (Faulty T) unit := fun f =>
  match f_plan f with
  | [] => (Ok tt, f)
  | raises :: plan =>
      (if raises then Err fault else Ok tt, mk_Faulty (f_tracker f) plan)
  end.

Definition around {A} (perform : SE T A) : SE (Faulty T) A :=
  let! _ := hook in
  let! result := (fun f => let '(r, t) := perform (f_tracker f) in (r, mk_Faulty t (f_plan f))) in
  let! _ := hook in
  se_ret result.

#[export] Instance faulty_tracker : IssueTracker (Faulty T) := {|
  tr_list := around tr_list;
  tr_get := fun issue_id => around (tr_get issue_id);
  tr_create := fun type title desc by' it key => around (tr_create type title desc by' it key);
  tr_increment := fun issue_id actor it note p key =>
    around (tr_increment issue_id actor it note p key);
  tr_update := fun issue_id s actor it note p key => around (tr_update issue_id s actor it note p key)
|}.

End Faults.

(** ** What a batch does to the board, timestamps aside *)

Definition untimed_event (e : IssueEvent) : IssueEvent :=
  mk_IssueEvent [] (ev_actor e) (ev_action e) (ev_iteration e) (ev_note e) (ev_payload e) (ev_key e).
Definition untimed_issue (i : Issue) : Issue :=
  i <| i_created_at := [] |> <| i_updated_at := [] |> <| i_history := map untimed_event (i_history i) |>.
Definition untimed (d : IssueBoardData) : IssueBoardData :=
  d <| d_issues := map untimed_issue (d_issues d) |>.

Lemma has_key_untimed i key : has_key (untimed_issue i) key = has_key i key.
Proof.
  unfold has_key. simpl. f_equal. induction (i_history i) as [|e h IH]; simpl; [done|]. by rewrite IH.
Qed.

Lemma find_map_untimed p l :
  (forall i, p (untimed_issue i) = p i) ->
  find p (map untimed_issue l) = option_map untimed_issue (find p l).
Proof.
  intros Hp. induction l as [|i l IH]; simpl; [done|]. rewrite Hp. by destruct (p i).
Qed.

Lemma find_id_untimed issue_id d : find_id issue_id (untimed d) = option_map untimed_issue (find_id issue_id d).
Proof. by apply find_map_untimed. Qed.

Lemma alter_untimed issue_id f g l :
  (forall i, untimed_issue (f i) = g (untimed_issue i)) ->
  map untimed_issue (alter_id issue_id f l) = alter_id issue_id g (map untimed_issue l).
Proof.
  intros Hf. induction l as [|i l IH]; simpl; [done|].
  destruct (i_id i =? issue_id); simpl; [by rewrite Hf|by rewrite IH].
Qed.

Lemma attempted_untimed now actor it note p key i :
  untimed_issue (attempted now actor it note p key i)
  = untimed_issue (attempted [] actor it note p key (untimed_issue i)).
Proof.
  unfold attempted, untimed_issue. simpl. f_equal. rewrite !map_app, map_map. simpl. f_equal.
Qed.

Lemma moved_untimed now s actor it note p key i :
  untimed_issue (moved now s actor it note p key i)
  = untimed_issue (moved [] s actor it note p key (untimed_issue i)).
Proof.
  unfold moved, untimed_issue. simpl. f_equal. rewrite !map_app, map_map. simpl. f_equal.
Qed.

Section Batch.
Context (decode_json : pystr -> option json) (issue_body : pystr -> pystr).

(** The issue a change has already written to. *)
Definition landed_in (c : IssueChange) (d : IssueBoardData) : option Issue :=
  match c with
  | CreateIssue key _ _ _ _ _ => find (fun i => has_key i key) (d_issues d)
  | RecordAttempt key issue_id _ _ _ _ | SetIssueStatus key issue_id _ _ _ _ _ =>
      match find_id issue_id d with Some i => if has_key i key then Some i else None | None => None end
  end.

Definition altered (issue_id : Z) (f : Issue -> Issue) (d : IssueBoardData) :
    result (Z * IssueBoardData) :=
  match find_id issue_id d with
  | None => Err (issue_not_found issue_id)
  | Some i => Ok (i_id i, d <| d_issues := alter_id issue_id f (d_issues d) |>)
  end.

(** The effect of a change that has not landed, on a board without timestamps. *)
Definition change_effect (c : IssueChange) (d : IssueBoardData) : result (Z * IssueBoardData) :=
  match c with
  | CreateIssue key type title body created_by iteration =>
      let description :=
        match body with TextBody text => text | TemplateBody template => issue_body template end in
      Ok (d_next_id d, mk_IssueBoardData (d_next_id d + 1)
            (d_issues d ++ [new_issue d [] type title description created_by iteration (Some key)]))
  | RecordAttempt key issue_id actor iteration note payload_json =>
      let* p := payload decode_json payload_json in
      altered issue_id (fun i => untimed_issue (attempted [] actor iteration note p (Some key) i)) d
  | SetIssueStatus key issue_id status actor iteration note payload_json =>
      let* p := payload decode_json payload_json in
      altered issue_id (fun i => untimed_issue (moved [] status actor iteration note p (Some key) i)) d
  end.

Fixpoint batch (results : list ChangeResult) (changes : list IssueChange) (d : IssueBoardData) :
    result AppliedChanges * IssueBoardData :=
  match changes with
  | [] => (Ok (mk_AppliedChanges SUCCEEDED results None), d)
  | c :: rest =>
      match landed_in c d with
      | Some i => batch (results ++ [mk_ChangeResult (change_of_key c) (i_id i)]) rest d
      | None =>
          match change_effect c d with
          | Ok (issue_id, d) => batch (results ++ [mk_ChangeResult (change_of_key c) issue_id]) rest d
          | Err (KeyError message) =>
              (Ok (mk_AppliedChanges REJECTED results (Some (change_of_key c, message))), d)
          | Err e => (Err e, d)
          end
      end
  end.

(** A prefix of a batch every change of which landed. *)
Inductive carried : list IssueChange -> IssueBoardData -> IssueBoardData -> Prop :=
| carried_nil d : carried [] d d
| carried_landed c rest d d' i :
    landed_in c d = Some i -> carried rest d d' -> carried (c :: rest) d d'
| carried_done c rest d d1 d' issue_id :
    landed_in c d = None -> change_effect c d = Ok (issue_id, d1) -> carried rest d1 d' ->
    carried (c :: rest) d d'.

Lemma landed_in_untimed c d : landed_in c (untimed d) = option_map untimed_issue (landed_in c d).
Proof.
  destruct c; simpl.
  - apply find_map_untimed. intros i. apply has_key_untimed.
  - rewrite find_id_untimed. destruct (find_id issue_id d) as [i|]; simpl; [|done].
    rewrite has_key_untimed. by destruct (has_key i key).
  - rewrite find_id_untimed. destruct (find_id issue_id d) as [i|]; simpl; [|done].
    rewrite has_key_untimed. by destruct (has_key i key).
Qed.

(** *** A landed change stays landed *)

Lemma has_key_event i e key i' :
  i_create_key i' = i_create_key i -> i_history i' = map untimed_event (i_history i ++ [e]) ->
  has_key i' key = has_key i key || bool_decide (ev_key e = Some key).
Proof.
  intros Hc Hh. unfold has_key. rewrite Hc, Hh, map_app, existsb_app. simpl. rewrite orb_false_r.
  assert (forall h, existsb (fun e => bool_decide (ev_key e = Some key)) (map untimed_event h)
                    = existsb (fun e => bool_decide (ev_key e = Some key)) h) as ->.
  { intros h. induction h as [|e' h IH]; simpl; [done|]. by rewrite IH. }
  by rewrite orb_assoc.
Qed.

(** [f] records [key] on an issue and nothing else of identity. *)
Definition records (key : pystr) (f : Issue -> Issue) : Prop :=
  forall i, i_id (f i) = i_id i
            /\ forall k, has_key (f i) k = has_key i k || bool_decide (key = k).

Lemma some_key_eq (a b : pystr) : bool_decide (Some a = Some b) = bool_decide (a = b).
Proof. apply bool_decide_ext. naive_solver. Qed.

Lemma attempted_records actor it note p key :
  records key (fun i => untimed_issue (attempted [] actor it note p (Some key) i)).
Proof.
  intros i. split; [done|]. intros k.
  rewrite (has_key_event i (mk_IssueEvent [] actor (py "attempt") (Some it) note p (Some key)) k)
    by done.
  simpl. by rewrite some_key_eq.
Qed.

Lemma moved_records s actor it note p key :
  records key (fun i => untimed_issue (moved [] s actor it note p (Some key) i)).
Proof.
  intros i. split; [done|]. intros k.
  rewrite (has_key_event i (mk_IssueEvent [] actor (transition (i_status i) s) (Some it) note p
    (Some key)) k) by done.
  simpl. by rewrite some_key_eq.
Qed.

Lemma find_id_alter issue_id j f l :
  (forall i, i_id (f i) = i_id i) ->
  find (fun i => i_id i =? j) (alter_id issue_id f l) =
  (if j =? issue_id then option_map f (find (fun i => i_id i =? j) l)
   else find (fun i => i_id i =? j) l).
Proof.
  intros Hf. induction l as [|i l IH]; simpl; [by case_match|].
  destruct (Z.eqb_spec (i_id i) issue_id) as [Hi|Hi]; simpl.
  - rewrite Hf. destruct (Z.eqb_spec j issue_id), (Z.eqb_spec (i_id i) j); simpl; try done; lia.
  - rewrite IH. destruct (Z.eqb_spec j issue_id), (Z.eqb_spec (i_id i) j); simpl; try done; lia.
Qed.

Lemma find_key_alter issue_id key k f l i :
  records key f -> key <> k ->
  find (fun i => has_key i k) l = Some i ->
  exists i', find (fun i => has_key i k) (alter_id issue_id f l) = Some i' /\ i_id i' = i_id i.
Proof.
  intros Hf Hne. induction l as [|j l IH]; simpl; [done|].
  destruct (Hf j) as [Hid Hk]. specialize (Hk k). rewrite (bool_decide_false _ Hne), orb_false_r in Hk.
  destruct (i_id j =? issue_id); simpl; rewrite ?Hk; destruct (has_key j k) eqn:Hj.
  - intros [= <-]. by exists (f j).
  - intros Hfind. by exists i.
  - intros [= <-]. by exists j.
  - intros Hfind. by apply IH.
Qed.

Lemma altered_inv issue_id f d n d' :
  altered issue_id f d = Ok (n, d') ->
  d' = d <| d_issues := alter_id issue_id f (d_issues d) |> /\ n = issue_id
  /\ exists i, find_id issue_id d = Some i.
Proof.
  unfold altered. destruct (find_id issue_id d) as [i|] eqn:Hi; [|done].
  intros [= <- <-]. split; [done|]. split; [by apply (find_id_eq issue_id d)|by exists i].
Qed.

Lemma find_app_snoc {A} (p : A -> bool) l x :
  find p (l ++ [x]) = match find p l with Some y => Some y | None => if p x then Some x else None end.
Proof. induction l as [|y l IH]; simpl; [done|]. by destruct (p y). Qed.

(** A change that lands leaves its own record. *)
Lemma effect_lands c d n d' :
  landed_in c d = None -> change_effect c d = Ok (n, d') ->
  exists i, landed_in c d' = Some i /\ i_id i = n.
Proof.
  assert (forall issue_id key f, records key f -> altered issue_id f d = Ok (n, d') ->
    exists i, match find_id issue_id d' with
              | Some i => if has_key i key then Some i else None | None => None end = Some i
              /\ i_id i = n) as Hcase.
  { intros issue_id key f Hf (-> & -> & i & Hi)%altered_inv. unfold find_id in *. simpl.
    rewrite find_id_alter, Z.eqb_refl, Hi by apply Hf. simpl. exists (f i).
    destruct (Hf i) as [Hid Hk]. rewrite Hk, bool_decide_true, orb_true_r by done. split; [done|].
    rewrite Hid. by apply (find_id_eq issue_id d). }
  destruct c as [key type title body by' it|key id actor it note pj|key id s actor it note pj];
    simpl; intros Hl.
  - intros [= <- <-]. simpl.
    match goal with |- context [d_issues d ++ [?i]] => exists i end. split; [|done].
    rewrite find_app_snoc, Hl. simpl. unfold has_key. simpl. by rewrite bool_decide_true.
  - destruct (payload decode_json pj) as [p|e]; simpl; [|done]. by apply Hcase, attempted_records.
  - destruct (payload decode_json pj) as [p|e]; simpl; [|done]. by apply Hcase, moved_records.
Qed.

(** Another change does not remove it. *)
Lemma effect_keeps_landed c c' d n d' i :
  change_of_key c <> change_of_key c' -> landed_in c d = Some i -> change_effect c' d = Ok (n, d') ->
  exists i', landed_in c d' = Some i' /\ i_id i' = i_id i.
Proof.
  intros Hne Hl.
  assert (forall key issue_id f, records key f -> change_of_key c <> key ->
            altered issue_id f d = Ok (n, d') ->
            exists i', landed_in c d' = Some i' /\ i_id i' = i_id i) as Haltered.
  { intros key issue_id f Hf Hk (-> & _ & _)%altered_inv. destruct c; simpl in *.
    1: by apply (find_key_alter issue_id key key0 f); [done|congruence|].
    all: unfold find_id in *; simpl; rewrite find_id_alter by apply Hf.
    all: destruct (find _ (d_issues d)) as [j|] eqn:Hj; [|done];
      destruct (has_key j key0) eqn:Hkey; [|done]; injection Hl as ->.
    all: destruct (issue_id0 =? issue_id); simpl; [|by exists i; rewrite Hkey].
    all: destruct (Hf i) as [Hid Hks]; exists (f i); by rewrite Hks, Hkey. }
  destruct c' as [key type title body by' it|key id actor it note pj|key id s actor it note pj];
    simpl in *.
  - intros [= _ <-]. destruct c; simpl in *.
    + exists i. by rewrite find_app_snoc, Hl.
    + unfold find_id in *. simpl. rewrite find_app_snoc. exists i.
      destruct (find _ (d_issues d)) as [j|]; [|done]. by rewrite Hl.
    + unfold find_id in *. simpl. rewrite find_app_snoc. exists i.
      destruct (find _ (d_issues d)) as [j|]; [|done]. by rewrite Hl.
  - destruct (payload decode_json pj) as [p|e]; simpl; [|done].
    by apply (Haltered key), Hne; apply attempted_records.
  - destruct (payload decode_json pj) as [p|e]; simpl; [|done].
    by apply (Haltered key), Hne; apply moved_records.
Qed.

Lemma carried_keeps_landed c cs d d' i :
  change_of_key c ∉ map change_of_key cs -> carried cs d d' -> landed_in c d = Some i ->
  exists i', landed_in c d' = Some i' /\ i_id i' = i_id i.
Proof.
  intros Hk Hc. revert i Hk. induction Hc as [d|c' rest d d' j _ _ IH|c' rest d d1 d' n _ He _ IH];
    intros i Hk Hl; simpl in Hk; [by exists i|by apply IH; [set_solver|]|].
  destruct (effect_keeps_landed c c' d n d1 i ltac:(set_solver) Hl He) as (i1 & Hl1 & Hid1).
  destruct (IH i1 ltac:(set_solver) Hl1) as (i2 & Hl2 & Hid2). exists i2. by rewrite Hid2.
Qed.

(** Running a batch again after a prefix of it landed is running it once. *)
Lemma batch_resumed cs1 cs2 results d d' :
  NoDup (map change_of_key (cs1 ++ cs2)) -> carried cs1 d d' ->
  batch results (cs1 ++ cs2) d' = batch results (cs1 ++ cs2) d.
Proof.
  intros Hnd Hc. revert results Hnd.
  induction Hc as [d|c rest d d' i Hl Hc IH|c rest d d1 d' n Hl He Hc IH]; intros results Hnd;
    [done| |]; simpl in *; apply NoDup_cons in Hnd as [Hnotin Hnd]; rewrite map_app in Hnotin.
  - destruct (carried_keeps_landed c rest d d' i ltac:(set_solver) Hc Hl) as (i' & -> & ->).
    by rewrite Hl, IH.
  - destruct (effect_lands c d n d1 Hl He) as (i & Hl1 & <-).
    destruct (carried_keeps_landed c rest d1 d' i ltac:(set_solver) Hc Hl1) as (i' & -> & ->).
    by rewrite Hl, He, IH.
Qed.

End Batch.

(** ** The owner runs batches, faults included *)

Section Runs.
Context {T : Type} {tracker : IssueTracker T} {laws : TrackerLaws T}.
Context (decode_json : pystr -> option json) (issue_body : pystr -> pystr).

Abbreviation effect := (change_effect decode_json issue_body).

Lemma ask_run {A} (m : SE T A) (o : IssueBoardOwner T) r t :
  m (ow_tracker o) = (r, t) -> ask m o = (r, mk_Owner t (ow_progress o) (ow_published o)).
Proof. intros H. unfold ask. by rewrite H. Qed.

(** What one call of the tracker does, as a change sees it: [landed] only reads, and a change
    has its effect on the board the tracker shows. *)
Lemma landed_run c (o : IssueBoardOwner T) d :
  shows (ow_tracker o) d ->
  exists t, landed c o = (Ok (landed_in c d), mk_Owner t (ow_progress o) (ow_published o)) /\ shows t d.
Proof.
  intros Hs. destruct c as [key type title body by' it|key id actor it note pj|key id s actor it note pj];
    unfold landed, se_bind, se_ret; simpl.
  - destruct (list_law _ _ Hs) as (t & Ht & Hs'). rewrite (ask_run _ _ _ _ Ht). by exists t.
  - destruct (get_law id _ _ Hs) as (t & Ht & Hs'). rewrite (ask_run _ _ _ _ Ht). by exists t.
  - destruct (get_law id _ _ Hs) as (t & Ht & Hs'). rewrite (ask_run _ _ _ _ Ht). by exists t.
Qed.

Lemma untimed_alter issue_id f g d :
  (forall i, untimed_issue (f i) = g (untimed_issue i)) ->
  untimed (d <| d_issues := alter_id issue_id f (d_issues d) |>)
  = (untimed d) <| d_issues := alter_id issue_id g (d_issues (untimed d)) |>.
Proof. intros Hf. unfold untimed. simpl. by rewrite (alter_untimed issue_id f g). Qed.

Lemma altered_untimed issue_id f g d :
  (forall i, untimed_issue (f i) = g (untimed_issue i)) ->
  altered issue_id g (untimed d) =
  match find_id issue_id d with
  | None => Err (issue_not_found issue_id)
  | Some i => Ok (i_id i, untimed (d <| d_issues := alter_id issue_id f (d_issues d) |>))
  end.
Proof.
  intros Hf. unfold altered. rewrite find_id_untimed. destruct (find_id issue_id d) as [i|]; simpl; [|done].
  f_equal. f_equal. unfold untimed. simpl. by rewrite (alter_untimed issue_id f g).
Qed.

Lemma perform_run c (o : IssueBoardOwner T) d :
  shows (ow_tracker o) d ->
  exists t d',
    perform_change decode_json issue_body c o =
      (match effect c (untimed d) with
       | Ok (n, _) => Ok (mk_ChangeResult (change_of_key c) n)
       | Err e => Err e
       end, mk_Owner t (ow_progress o) (ow_published o))
    /\ shows t d'
    /\ untimed d' = match effect c (untimed d) with Ok (_, d1) => d1 | Err _ => untimed d end.
Proof.
  intros Hs. destruct c as [key type title body by' it|key id actor it note pj|key id s actor it note pj];
    unfold perform_change, se_bind, se_ret, se_lift; simpl.
  - set (desc := match body with TextBody text => text | TemplateBody t => issue_body t end).
    destruct (create_law type title desc by' it (Some key) _ _ Hs) as (now & t & Ht & Hs').
    rewrite (ask_run _ _ _ _ Ht). eexists t, _. split; [reflexivity|]. split; [exact Hs'|].
    unfold untimed. simpl. by rewrite map_app.
  - destruct (payload decode_json pj) as [p|e]; simpl.
    2:{ exists (ow_tracker o), d. by destruct o. }
    destruct (increment_law id actor it note p (Some key) _ _ Hs) as (now & t & Ht).
    rewrite (altered_untimed id (attempted now actor it note p (Some key)))
      by (intros i; apply attempted_untimed).
    destruct (find_id id d) as [i|] eqn:Hi; destruct Ht as [Ht Hs']; rewrite (ask_run _ _ _ _ Ht);
      eexists t, _; (split; [reflexivity|]); by split; [exact Hs'|].
  - destruct (payload decode_json pj) as [p|e]; simpl.
    2:{ exists (ow_tracker o), d. by destruct o. }
    destruct (update_law id s actor it note p (Some key) _ _ Hs) as (now & t & Ht).
    rewrite (altered_untimed id (moved now s actor it note p (Some key)))
      by (intros i; apply moved_untimed).
    destruct (find_id id d) as [i|] eqn:Hi; destruct Ht as [Ht Hs']; rewrite (ask_run _ _ _ _ Ht);
      eexists t, _; (split; [reflexivity|]); by split; [exact Hs'|].
Qed.

(** An uninterrupted run has the effect of the batch. *)
Lemma apply_run changes results (o : IssueBoardOwner T) d :
  shows (ow_tracker o) d ->
  exists t d',
    apply_from decode_json issue_body results changes o =
      ((batch decode_json issue_body results changes (untimed d)).1,
       mk_Owner t (ow_progress o) (ow_published o))
    /\ shows t d'
    /\ untimed d' = (batch decode_json issue_body results changes (untimed d)).2.
Proof.
  revert results o d. induction changes as [|c rest IH]; intros results o d Hs; simpl.
  { exists (ow_tracker o), d. by destruct o. }
  unfold se_bind. destruct (landed_run c o d Hs) as (t & -> & Hst).
  rewrite landed_in_untimed. destruct (landed_in c d) as [i|]; simpl.
  { exact (IH (results ++ [mk_ChangeResult (change_of_key c) (i_id i)])
      (mk_Owner t (ow_progress o) (ow_published o)) d Hst). }
  destruct (perform_run c (mk_Owner t (ow_progress o) (ow_published o)) d Hst)
    as (t' & d' & -> & Hs' & Hd'). simpl in *.
  destruct (effect c (untimed d)) as [[n d1]|e]; simpl.
  - destruct (IH (results ++ [mk_ChangeResult (change_of_key c) n])
      (mk_Owner t' (ow_progress o) (ow_published o)) d' Hs') as (t2 & d2 & Hrun & Hs2 & Hd2).
    rewrite Hd' in Hrun, Hd2. by exists t2, d2.
  - destruct e; by exists t', d'.
Qed.

(** *** Runs a fault interrupts *)

Definition faulted (o : IssueBoardOwner T) (plan : list bool) : IssueBoardOwner (Faulty T) :=
  mk_Owner (mk_Faulty (ow_tracker o) plan) (ow_progress o) (ow_published o).

(** A run of a batch under a plan of faults, and the owner that is left: whatever the run
    answered or raised is lost. *)
Definition interrupted (changes : list IssueChange) (o : IssueBoardOwner T) (plan : list bool) :
    IssueBoardOwner T :=
  let o' := (apply decode_json issue_body changes (faulted o plan)).2 in
  mk_Owner (f_tracker (ow_tracker o')) (ow_progress o') (ow_published o').

Lemma around_cases {A} (m : SE T A) (f : Faulty T) :
  (around m f).1 = Err fault /\ f_tracker (around m f).2 = f_tracker f
  \/ f_tracker (around m f).2 = (m (f_tracker f)).2
     /\ ((around m f).1 = (m (f_tracker f)).1
         \/ (around m f).1 = Err fault /\ is_ok (m (f_tracker f)).1 = true).
Proof.
  destruct f as [t plan]. unfold around, se_bind, se_ret, hook. simpl.
  destruct plan as [|[] plan]; simpl; [|by left|].
  - right. destruct (m t) as [[a|e] t']; simpl; auto.
  - right. destruct (m t) as [[a|e] t']; simpl; [|auto]. destruct plan as [|[] plan]; simpl; auto.
Qed.

Lemma ask_around {A} (m : SE T A) (o : IssueBoardOwner (Faulty T)) r t :
  m (f_tracker (ow_tracker o)) = (r, t) ->
  exists r' f, ask (around m) o = (r', mk_Owner f (ow_progress o) (ow_published o))
    /\ (r' = Err fault /\ f_tracker f = f_tracker (ow_tracker o)
        \/ f_tracker f = t /\ (r' = r \/ r' = Err fault /\ is_ok r = true)).
Proof.
  intros Hm. unfold ask. pose proof (around_cases m (ow_tracker o)) as Hc.
  destruct (around m (ow_tracker o)) as [r' f]. rewrite Hm in Hc. by exists r', f.
Qed.

Lemma faulty_landed c (o : IssueBoardOwner (Faulty T)) d :
  shows (f_tracker (ow_tracker o)) d ->
  exists r f, landed c o = (r, mk_Owner f (ow_progress o) (ow_published o))
    /\ shows (f_tracker f) d /\ (r = Err fault \/ r = Ok (landed_in c d)).
Proof.
  intros Hs. assert (forall A (m : SE T A) a (g : A -> option Issue),
    (exists t, m (f_tracker (ow_tracker o)) = (Ok a, t) /\ shows t d) -> g a = landed_in c d ->
    exists r f, (let! x := ask (around m) in se_ret (g x)) o
                = (r, mk_Owner f (ow_progress o) (ow_published o))
      /\ shows (f_tracker f) d /\ (r = Err fault \/ r = Ok (landed_in c d))) as Hread.
  { intros A m a g (t & Ht & Hst) Hg. destruct (ask_around m o _ _ Ht) as (r & f & Ha & Hcase).
    unfold se_bind, se_ret. rewrite Ha.
    destruct Hcase as [[-> Hf]|[Hf [->|[-> _]]]].
    - exists (Err fault), f. rewrite Hf. auto.
    - exists (Ok (g a)), f. rewrite Hf, Hg. auto.
    - exists (Err fault), f. rewrite Hf. auto. }
  destruct c as [key type title body by' it|key id actor it note pj|key id s actor it note pj]; simpl.
  - apply (Hread _ tr_list (d_issues d) _); [|done]. by apply list_law.
  - by apply (Hread _ (tr_get id) (find_id id d)
      (fun i => match i with Some i => if has_key i key then Some i else None | None => None end));
      [apply get_law|].
  - by apply (Hread _ (tr_get id) (find_id id d)
      (fun i => match i with Some i => if has_key i key then Some i else None | None => None end));
      [apply get_law|].
Qed.

(** A faulty change has no effect and fails, or has its effect and answers or is lost. *)
Definition faulty_change (c : IssueChange) (d d' : IssueBoardData) (r : result ChangeResult) : Prop :=
  untimed d' = untimed d /\ is_ok r = false
  \/ exists n, effect c (untimed d) = Ok (n, untimed d')
               /\ (r = Ok (mk_ChangeResult (change_of_key c) n) \/ r = Err fault).

(** A write through the hooks, from what the write itself does. *)
Lemma faulty_write c (m : SE T Issue) (o : IssueBoardOwner (Faulty T)) d r0 t d0 :
  shows (f_tracker (ow_tracker o)) d -> m (f_tracker (ow_tracker o)) = (r0, t) -> shows t d0 ->
  match r0 with
  | Ok i => effect c (untimed d) = Ok (i_id i, untimed d0)
  | Err _ => d0 = d
  end ->
  exists r f d',
    (let! issue := ask (around m) in se_ret (mk_ChangeResult (change_of_key c) (i_id issue))) o
      = (r, mk_Owner f (ow_progress o) (ow_published o))
    /\ shows (f_tracker f) d' /\ faulty_change c d d' r.
Proof.
  intros Hs Hm Hs0 Hr0. destruct (ask_around m o _ _ Hm) as (r & f & Ha & Hcase).
  unfold se_bind, se_ret. rewrite Ha.
  destruct Hcase as [[-> Hf]|[Hf Hr]].
  - exists (Err fault), f, d. rewrite Hf. split_and!; [done|done|]. by left.
  - destruct r0 as [i|e].
    + exists (match r with Ok i => Ok (mk_ChangeResult (change_of_key c) (i_id i)) | Err e => Err e end), f, d0.
      rewrite Hf. split_and!; [by destruct r|done|]. right. exists (i_id i).
      destruct Hr as [->|[-> _]]; auto.
    + destruct Hr as [->|[_ [=]]]. subst d0. exists (Err e), f, d. rewrite Hf.
      split_and!; [done|done|]. by left.
Qed.

Lemma faulty_perform c (o : IssueBoardOwner (Faulty T)) d :
  shows (f_tracker (ow_tracker o)) d ->
  exists r f d', perform_change decode_json issue_body c o
                   = (r, mk_Owner f (ow_progress o) (ow_published o))
    /\ shows (f_tracker f) d' /\ faulty_change c d d' r.
Proof.
  intros Hs.
  assert (forall e, exists r f d', (@se_raise (IssueBoardOwner (Faulty T)) ChangeResult e) o
             = (r, mk_Owner f (ow_progress o) (ow_published o))
           /\ shows (f_tracker f) d' /\ faulty_change c d d' r) as Hraise.
  { intros e. exists (Err e), (ow_tracker o), d. destruct o. split_and!; [done|done|]. by left. }
  destruct c as [key type title body by' it|key id actor it note pj|key id s actor it note pj];
    unfold perform_change.
  - set (desc := match body with TextBody text => text | TemplateBody t => issue_body t end).
    destruct (create_law type title desc by' it (Some key) _ _ Hs) as (now & t & Ht & Hs').
    eapply faulty_write; [done|exact Ht|exact Hs'|]. simpl. unfold untimed. simpl. by rewrite map_app.
  - destruct (payload decode_json pj) as [p|e] eqn:Hp; simpl; [|apply Hraise].
    destruct (increment_law id actor it note p (Some key) _ _ Hs) as (now & t & Ht).
    pose proof (altered_untimed id (attempted now actor it note p (Some key))
      (fun i => untimed_issue (attempted [] actor it note p (Some key) i)) d
      (fun i => attempted_untimed now actor it note p (Some key) i)) as Ha.
    destruct (find_id id d) as [i|] eqn:Hi; destruct Ht as [Ht Hs'];
      (eapply (faulty_write (RecordAttempt key id actor it note pj)); [done|exact Ht|exact Hs'|]);
      simpl; [|done]. by rewrite Hp.
  - destruct (payload decode_json pj) as [p|e] eqn:Hp; simpl; [|apply Hraise].
    destruct (update_law id s actor it note p (Some key) _ _ Hs) as (now & t & Ht).
    pose proof (altered_untimed id (moved now s actor it note p (Some key))
      (fun i => untimed_issue (moved [] s actor it note p (Some key) i)) d
      (fun i => moved_untimed now s actor it note p (Some key) i)) as Ha.
    destruct (find_id id d) as [i|] eqn:Hi; destruct Ht as [Ht Hs'];
      (eapply (faulty_write (SetIssueStatus key id s actor it note pj)); [done|exact Ht|exact Hs'|]);
      simpl; [|done]. by rewrite Hp.
Qed.

Lemma faulty_apply changes results (o : IssueBoardOwner (Faulty T)) d :
  shows (f_tracker (ow_tracker o)) d ->
  let o' := (apply_from decode_json issue_body results changes o).2 in
  exists cs1 cs2 d', changes = cs1 ++ cs2 /\ shows (f_tracker (ow_tracker o')) d'
    /\ carried decode_json issue_body cs1 (untimed d) (untimed d').
Proof.
  revert results o d. induction changes as [|c rest IH]; intros results o d Hs; simpl.
  { exists [], [], d. split_and!; [done|done|constructor]. }
  assert (forall t d1, untimed d1 = untimed d -> shows t d1 ->
    exists cs1 cs2 d', c :: rest = cs1 ++ cs2 /\ shows t d'
    /\ carried decode_json issue_body cs1 (untimed d) (untimed d')) as Hnone.
  { intros t d1 Hd1 Hs1. exists [], (c :: rest), d1. rewrite Hd1. split_and!; [done|done|constructor]. }
  unfold se_bind. destruct (faulty_landed c o d Hs) as (r & f & -> & Hsf & Hr).
  destruct Hr as [->| ->]; simpl; [by apply (Hnone _ d)|].
  set (o1 := mk_Owner f (ow_progress o) (ow_published o)).
  destruct (landed_in c d) as [i|] eqn:Hl.
  - destruct (IH (results ++ [mk_ChangeResult (change_of_key c) (i_id i)]) o1 d Hsf)
      as (cs1 & cs2 & d' & -> & Hs' & Hc).
    exists (c :: cs1), cs2, d'. split_and!; [done|done|].
    apply (carried_landed _ _ _ _ _ _ (untimed_issue i)); [by rewrite landed_in_untimed, Hl|done].
  - destruct (faulty_perform c o1 d Hsf) as (r & f1 & d1 & -> & Hs1 & Hcase).
    assert (landed_in c (untimed d) = None) as Hl' by (by rewrite landed_in_untimed, Hl).
    destruct Hcase as [[Hd1 Hr]|(n & He & Hr)].
    + destruct r as [res|e]; [done|]. destruct e; by apply (Hnone _ d1).
    + destruct Hr as [->| ->].
      * destruct (IH (results ++ [mk_ChangeResult (change_of_key c) n])
          (mk_Owner f1 (ow_progress o1) (ow_published o1)) d1 Hs1) as (cs1 & cs2 & d' & -> & Hs' & Hc).
        exists (c :: cs1), cs2, d'. split_and!; [done|done|]. by eapply carried_done.
      * exists [c], rest, d1. split_and!; [done|done|].
        eapply carried_done; [done|exact He|constructor].
Qed.

(** C1. A batch of keyed changes lands exactly once. Run it any number of times against a tracker
    whose operations fail as they like, before their effect or after it with the acknowledgement
    lost, at any call; then run it once more without a fault. The last run answers what a first
    run without any fault answers, result by result, and leaves the same board but for the
    timestamps: no issue is filed twice, no attempt counted twice, no transition repeated, and a
    batch that crashed half way is finished. This rests on the keys of the batch being distinct. *)
Theorem interrupted_batches_land_once (changes : list IssueChange) (plans : list (list bool))
    (o : IssueBoardOwner T) (d : IssueBoardData) :
  shows (ow_tracker o) d -> NoDup (map change_of_key changes) ->
  let o' := foldl (interrupted changes) o plans in
  let once := apply decode_json issue_body changes o in
  let last := apply decode_json issue_body changes o' in
  last.1 = once.1
  /\ exists d1 d2, shows (ow_tracker once.2) d1 /\ shows (ow_tracker last.2) d2
                   /\ untimed d1 = untimed d2.
Proof.
  intros Hs Hnd o' once last.
  assert (exists d', shows (ow_tracker o') d' /\
    batch decode_json issue_body [] changes (untimed d') = batch decode_json issue_body [] changes (untimed d))
    as (d' & Hs' & Hb).
  { subst o'. clear once last. revert o d Hs. induction plans as [|plan plans IH]; intros o d Hs; simpl.
    { by exists d. }
    destruct (faulty_apply changes [] (faulted o plan) d Hs) as (cs1 & cs2 & d1 & Heq & Hs1 & Hc).
    destruct (IH (interrupted changes o plan) d1 Hs1) as (d' & Hs' & Hb).
    exists d'. split; [done|]. rewrite Hb, Heq. apply batch_resumed; [by rewrite <- Heq|done]. }
  destruct (apply_run changes [] o d Hs) as (t1 & d1 & Hr1 & Hs1 & Hd1).
  destruct (apply_run changes [] o' d' Hs') as (t2 & d2 & Hr2 & Hs2 & Hd2).
  subst once last. unfold apply. rewrite Hr1, Hr2, Hb. simpl. split; [done|].
  exists d1, d2. split_and!; [done|done|]. by rewrite Hd1, Hd2, Hb.
Qed.

(** *** Inspection agrees with execution *)

Lemma batch_succeeded changes results d results' d' :
  NoDup (map change_of_key changes) ->
  batch decode_json issue_body results changes d = (Ok (mk_AppliedChanges SUCCEEDED results' None), d') ->
  carried decode_json issue_body changes d d' /\
  exists new, results' = results ++ new
    /\ Forall2 (fun c r => exists i, landed_in c d' = Some i
                                    /\ r = mk_ChangeResult (change_of_key c) (i_id i)) changes new.
Proof.
  revert results d. induction changes as [|c rest IH]; intros results d Hnd; simpl.
  { intros [= <- <-]. split; [constructor|]. exists []. by rewrite app_nil_r. }
  apply NoDup_cons in Hnd as [Hk Hnd].
  assert (forall n d1 i, landed_in c d1 = Some i -> i_id i = n ->
    batch decode_json issue_body (results ++ [mk_ChangeResult (change_of_key c) n]) rest d1
      = (Ok (mk_AppliedChanges SUCCEEDED results' None), d') ->
    carried decode_json issue_body rest d1 d' /\ exists new, results' = results ++ new
      /\ Forall2 (fun c r => exists i, landed_in c d' = Some i
                          /\ r = mk_ChangeResult (change_of_key c) (i_id i)) (c :: rest) new) as Hstep.
  { intros n d1 i Hi <- Hb. destruct (IH _ _ Hnd Hb) as (Hc & new & -> & Hall). split; [done|].
    exists (mk_ChangeResult (change_of_key c) (i_id i) :: new). split; [by rewrite <- app_assoc|].
    constructor; [|done]. destruct (carried_keeps_landed _ _ c rest d1 d' i Hk Hc Hi) as (i' & Hi' & <-).
    by exists i'. }
  destruct (landed_in c d) as [i|] eqn:Hl.
  - intros Hb. destruct (Hstep _ d i Hl eq_refl Hb) as [Hc Hnew]. split; [by eapply carried_landed|done].
  - destruct (effect c d) as [[n d1]|e] eqn:He; [|by destruct e].
    intros Hb. destruct (effect_lands _ _ c d n d1 Hl He) as (i & Hi & Hid).
    destruct (Hstep n d1 i Hi Hid Hb) as [Hc Hnew]. split; [by eapply carried_done|done].
Qed.

Lemma all_landed_run changes (o : IssueBoardOwner T) d :
  shows (ow_tracker o) d ->
  (all_landed changes o).1 = Ok (map (fun c => landed_in c d) changes).
Proof.
  revert o. induction changes as [|c rest IH]; intros o Hs; [done|].
  simpl. unfold se_bind, se_ret. destruct (landed_run c o d Hs) as (t & -> & Hst).
  pose proof (IH (mk_Owner t (ow_progress o) (ow_published o)) Hst) as Hrest.
  destruct (all_landed rest _) as [r o']. simpl in Hrest. by subst r.
Qed.

Lemma landed_results_map changes d new :
  Forall2 (fun c r => exists i, landed_in c (untimed d) = Some i
                      /\ r = mk_ChangeResult (change_of_key c) (i_id i)) changes new ->
  landed_results changes (map (fun c => landed_in c d) changes) = Some new.
Proof.
  induction 1 as [|c r cs new (i & Hi & ->) _ IH]; simpl; [done|].
  rewrite landed_in_untimed in Hi. destruct (landed_in c d) as [j|]; [|done].
  injection Hi as <-. by rewrite IH.
Qed.

Context (progress_entry : LogProgress -> pystr) (mirrored : bool).

Lemma read_run (o : IssueBoardOwner T) d :
  shows (ow_tracker o) d ->
  exists o', read mirrored o
    = (let* rows := mapM_result issue_row (sort_by by_id (d_issues d)) in
       Ok (BoardSnapshot SUCCEEDED rows), o') /\ shows (ow_tracker o') d.
Proof.
  intros Hs. destruct (list_law _ _ Hs) as (t & Ht & Hst).
  unfold read, se_bind, se_ret, se_modify, se_lift. rewrite (ask_run _ _ _ _ Ht). simpl.
  destruct (mapM_result issue_row (sort_by by_id (d_issues d))); simpl;
    eexists; (split; [reflexivity|]); by destruct mirrored.
Qed.

Lemma prefix_of_app kw t : prefix_of kw (kw ++ t) = true.
Proof. induction kw as [|c kw IH]; simpl; [done|]. by rewrite N.eqb_refl. Qed.

Lemma contains_middle kw a b : contains kw (a ++ kw ++ b) = true.
Proof.
  induction a as [|c a IH]; simpl.
  - pose proof (prefix_of_app kw b) as Hp. destruct (kw ++ b); simpl; by rewrite Hp.
  - by rewrite IH, orb_true_r.
Qed.

(** C39. Inspecting after executing finds the effect. When an operation of the owner answers (a
    batch of changes with keys of their own, with success) and the tracker keeps its promises
    ([TrackerLaws]), asking the tracker right after whether it landed answers Applied with the very
    outcome: the snapshot read, one result per change naming the same issue, or the logged entry. *)
Theorem executed_is_observed (r : OperationRequest) (o : IssueBoardOwner T) (d : IssueBoardData)
    (outcome : Outcome) :
  shows (ow_tracker o) d ->
  match r with ApplyIssueChanges changes => NoDup (map change_of_key changes) | _ => True end ->
  (perform_operation decode_json issue_body progress_entry mirrored r o).1 = Ok outcome ->
  match outcome with Applied_ a => ac_status a = SUCCEEDED | _ => True end ->
  (observe mirrored r (perform_operation decode_json issue_body progress_entry mirrored r o).2).1
  = Ok (Applied outcome).
Proof.
  intros Hs Hnd. destruct r as [|changes|entry]; simpl.
  - destruct (read_run o d Hs) as (o1 & Hr1 & Hs1). rewrite Hr1. simpl. intros Hr _.
    destruct (read_run o1 d Hs1) as (o2 & Hr2 & _). unfold se_bind, se_ret. rewrite Hr2, Hr. done.
  - rewrite se_map_run. simpl. destruct (apply_run changes [] o d Hs) as (t & d' & Hr & Hs' & Hd').
    unfold apply. rewrite Hr. simpl.
    destruct (batch decode_json issue_body [] changes (untimed d)) as [[a|e] u] eqn:Hb; [|done].
    simpl in *. intros [= <-] Hst. simpl in Hst.
    assert (ac_detail a = None) as Hdet.
    { revert Hb Hst. clear. generalize (@nil ChangeResult) (untimed d). clear.
      induction changes as [|c rest IH]; intros rs d0; simpl; [by intros [= <- _]|].
      destruct (landed_in c d0); [apply IH|]. destruct (effect c d0) as [[n d1]|e]; [apply IH|].
      destruct e; intros [= <- _]; done. }
    destruct a as [st results det]. simpl in *. subst st det u.
    destruct (batch_succeeded changes [] _ _ _ Hnd Hb) as (_ & new & -> & Hall).
    unfold se_bind, se_ret.
    pose proof (all_landed_run changes (mk_Owner t (ow_progress o) (ow_published o)) d' Hs') as Hl.
    destruct (all_landed changes _) as [found o']. simpl in Hl. subst found.
    by rewrite (landed_results_map changes d' new Hall).
  - unfold log, se_bind, se_ret, se_get, se_modify.
    assert (forall m a b c, contains m (a ++ b ++ c ++ m ++ c) = true) as Hm.
    { intros m a b c. rewrite (app_assoc b), (app_assoc a). apply contains_middle. }
    specialize (Hm (progress_marker (lp_key entry))).
    destruct (contains (progress_marker (lp_key entry)) (ow_progress o)) eqn:Hc;
      cbn [fst snd ow_progress]; intros [= <-] _; by rewrite ?Hc, ?Hm.
Qed.

End Runs.

(** ** Witnesses *)

Lemma memory_shows clock (b : Board unit) :
  shows (tracker := board_tracker clock) (TrackerLaws := memory_tracker_laws clock) b (b_data b).
Proof. reflexivity. Qed.

Definition example_batch : list IssueChange :=
  [ SetIssueStatus (py "run/issue.1/verdict.1") 1 CLOSED (py "judge") 1 [] [];
    CreateIssue (py "run/issue.1/filed.1.0") BUG (py "Leak") (TextBody (py "it leaks")) (py "judge") 1;
    RecordAttempt (py "run/issue.1/attempt.2") 1 (py "implementer") 1 [] [] ].

Definition example_owner : IssueBoardOwner (Board unit) := mk_Owner example_board [] [].

(** The first run loses the acknowledgement of the status change, the second fails before the
    attempt is recorded. *)
Definition example_plans : list (list bool) :=
  [ [false; false; false; true]; [false; false; false; false; false; false; false; false; true] ].

Definition run_example (o : IssueBoardOwner (Board unit)) :=
  apply (tracker := board_tracker example_clock) (fun _ => None) id example_batch o.
Definition interrupt_example (o : IssueBoardOwner (Board unit)) (plan : list bool) :=
  interrupted (tracker := board_tracker example_clock) (fun _ => None) id example_batch o plan.

Lemma example_batch_keys : NoDup (map change_of_key example_batch).
Proof. apply nodupb_spec. vm_compute. reflexivity. Defined.

Lemma interrupted_batches_land_once_witness :
  (run_example (foldl interrupt_example example_owner example_plans)).1 = (run_example example_owner).1
  /\ map ac_results (match (run_example example_owner).1 with Ok a => [a] | Err _ => [] end)
     = [[mk_ChangeResult (py "run/issue.1/verdict.1") 1; mk_ChangeResult (py "run/issue.1/filed.1.0") 3;
         mk_ChangeResult (py "run/issue.1/attempt.2") 1]].
Proof.
  split; [|vm_compute; reflexivity].
  exact (proj1 (interrupted_batches_land_once (laws := memory_tracker_laws example_clock)
    (fun _ => None) id example_batch example_plans example_owner (b_data example_board)
    (memory_shows example_clock example_board) example_batch_keys)).
Defined.

Lemma executed_is_observed_witness :
  exists a,
    (observe (tracker := board_tracker example_clock) false (ApplyIssueChanges example_batch)
       (perform_operation (tracker := board_tracker example_clock) (fun _ => None) id lp_key false
          (ApplyIssueChanges example_batch) example_owner).2).1 = Ok (Applied (Applied_ a)).
Proof.
  destruct (perform_operation (tracker := board_tracker example_clock) (fun _ => None) id lp_key false
          (ApplyIssueChanges example_batch) example_owner).1 as [outcome|e] eqn:E.
  - destruct outcome as [s l|a|s]; [vm_compute in E; discriminate| |vm_compute in E; discriminate].
    exists a. apply (executed_is_observed (laws := memory_tracker_laws example_clock) (fun _ => None) id
      lp_key false (ApplyIssueChanges example_batch) example_owner (b_data example_board)).
    + exact (memory_shows example_clock example_board).
    + exact example_batch_keys.
    + exact E.
    + vm_compute in E. injection E as <-. reflexivity.
  - vm_compute in E. discriminate.
Defined.
