(* ===== verification/BoardTitle.v ===== *)
(** The title of a run's first issue (src/src/vibesys/orchestration/issue_queue/search/_board.py):
    the first sentence of the objective as plain text, and what holds of it for any objective. *)
From S2P Require Import Prelude Plan Regex.

Definition TITLE_LIMIT : nat := 80.

(** [" ".join(s.split())]. *)
Definition one_spaced (s : pystr) : pystr := join_space (split_words s []).

Definition is_star (c : N) : bool := (c =? 42)%N.

(** The text up to the first "**" and the text after it. *)
Fixpoint close_bold (s : pystr) : option (pystr * pystr) :=
  match s with
  | c :: s' =>
      match s' with
      | d :: rest =>
          if is_star c && is_star d then Some ([], rest)
          else match close_bold s' with Some (g, rest) => Some (c :: g, rest) | None => None end
      | [] => None
      end
  | [] => None
  end.

(** [\*\*(.+?)\*\*] at the start of [s]: the group and the rest. A line holds no newline. *)
Definition match_bold (s : pystr) : option (pystr * pystr) :=
  match s with
  | a :: b :: c :: s =>
      if is_star a && is_star b
      then match close_bold s with Some (g, rest) => Some (c :: g, rest) | None => None end
      else None
  | _ => None
  end.

(** [_BOLD.sub(r"\1", s)]: every step consumes a character, so the length is enough fuel. *)
Fixpoint bold_sub (fuel : nat) (s : pystr) : pystr :=
  match fuel, s with
  | S fuel, c :: s' =>
      match match_bold s with
      | Some (g, rest) => g ++ bold_sub fuel rest
      | None => c :: bold_sub fuel s'
      end
  | _, _ => s
  end.

Fixpoint after_prefix_i (p s : pystr) : option pystr :=
  match p, s with
  | [], _ => Some s
  | c :: p, d :: s => if N.eqb c (folds_to d) then after_prefix_i p s else None
  | _, [] => None
  end.

(** [_LABEL] at the start of [s] for one of its words: what is left after the match. *)
Definition after_label (s word : pystr) : option pystr :=
  match after_prefix_i word s with
  | Some rest =>
      match lstrip_by is_space rest with
      | c :: rest =>
          if (c =? 58)%N then Some (lstrip_by (fun c => is_space c || one_of (py "*_") c) rest) else None
      | [] => None
      end
  | None => None
  end.

Definition LABELS : list pystr := map py ["objective"; "goal"; "task"]%string.

(** [_LABEL.sub("", s, count=1)]. *)
Definition drop_label (s : pystr) : pystr :=
  match omap (after_label s) LABELS with rest :: _ => rest | [] => s end.

Definition plain_line (raw : pystr) : pystr :=
  let text := one_spaced (bold_sub (length raw) raw) in
  let text := drop_label (lstrip_by (one_of (py "#*_ ")) text) in
  rstrip_by (one_of (py "*_ ")) (lstrip_by (one_of (py "*_ ")) text).

Definition plain_lines (objective : pystr) : list pystr :=
  List.filter str_truthy (map plain_line (splitlines [] objective)).

(** [re.split(r"(?<=[.!?])\s", s, maxsplit=1)[0]]. *)
Fixpoint first_sentence (prev : option N) (s : pystr) : pystr :=
  match s with
  | [] => []
  | c :: s =>
      if is_space c && match prev with Some p => one_of (py ".!?") p | None => false end then []
      else c :: first_sentence (Some c) s
  end.

Definition bootstrap_title (objective : pystr) : pystr :=
  let first :=
    match plain_lines objective with
    | first :: _ => first
    | [] =>
        match find str_truthy (map one_spaced (splitlines [] objective)) with
        | Some line => line
        | None => []
        end
    end in
  let sentence := first_sentence None first in
  if (length sentence <=? TITLE_LIMIT)%nat then sentence
  else rstrip_by is_space (firstn (TITLE_LIMIT - 3) sentence) ++ py "...".

Example title_of_a_heading :
  bootstrap_title (py "# **Objective:** make the server *fast*. Then stop.") = py "make the server *fast*.".
Proof. vm_compute. reflexivity. Qed.
Example title_of_a_label : bootstrap_title (py "TASK :") = py "TASK :".
Proof. vm_compute. reflexivity. Qed.

(** The fuel is enough: more of it changes nothing. *)
Lemma close_bold_shorter s g rest : close_bold s = Some (g, rest) -> (length rest < length s)%nat.
Proof.
  revert g. induction s as [|c s IH]; intros g; [done|]. simpl. destruct s as [|d s']; [done|].
  destruct (is_star c && is_star d); [intros [= _ <-]; simpl; lia|].
  destruct (close_bold (d :: s')) as [[g' rest']|]; [|done]. intros [= _ <-].
  specialize (IH g' eq_refl). simpl in *. lia.
Qed.

Lemma match_bold_shorter s g rest : match_bold s = Some (g, rest) -> (length rest < length s)%nat.
Proof.
  destruct s as [|a [|b [|c s]]]; try done. simpl. destruct (is_star a && is_star b); [|done].
  destruct (close_bold s) as [[g' rest']|] eqn:Hc; [|done]. intros [= _ <-].
  apply close_bold_shorter in Hc. lia.
Qed.

Lemma bold_sub_step fuel c s :
  bold_sub (S fuel) (c :: s) =
  match match_bold (c :: s) with
  | Some (g, rest) => g ++ bold_sub fuel rest
  | None => c :: bold_sub fuel s
  end.
Proof. done. Qed.

Lemma bold_sub_fuel fuel fuel' s :
  (length s <= fuel)%nat -> (length s <= fuel')%nat -> bold_sub fuel s = bold_sub fuel' s.
Proof.
  revert fuel' s. induction fuel as [|fuel IH]; intros fuel' [|c s]; cbn [length]; intros Hf Hf'; try lia;
    [by destruct fuel'..|]. destruct fuel' as [|fuel']; [lia|]. rewrite !bold_sub_step.
  destruct (match_bold (c :: s)) as [[g rest]|] eqn:Hm.
  - apply match_bold_shorter in Hm. cbn [length] in Hm. f_equal. apply IH; lia.
  - f_equal. apply IH; lia.
Qed.

(** ** Blank lines and plain text *)

Definition blank (s : pystr) : Prop := Forall (fun c => is_space c = true) s.
(** Text whose only whitespace is the space. *)
Definition spaced (s : pystr) : Prop := Forall (fun c => is_space c = true -> c = 32%N) s.

Lemma line_break_is_space c : is_line_break c = true -> is_space c = true.
Proof. unfold is_line_break, is_space. rewrite !orb_true_iff, !andb_true_iff. lia. Qed.

Lemma Forall_lstrip_by (P : N -> Prop) p s : Forall P s -> Forall P (lstrip_by p s).
Proof. induction 1 as [|c s Hc Hs IH]; simpl; [done|]. destruct (p c); [done|by constructor]. Qed.
Lemma Forall_rstrip_by (P : N -> Prop) p s : Forall P s -> Forall P (rstrip_by p s).
Proof. intros H. destruct (rstrip_by_prefix p s) as [t Ht]. rewrite Ht in H. by apply Forall_app in H as [? _]. Qed.

Lemma split_words_plain word s :
  Forall (fun c => is_space c = false) word ->
  Forall (fun w => Forall (fun c => is_space c = false) w /\ w <> []) (split_words s word).
Proof.
  assert (forall w, Forall (fun c => is_space c = false) w ->
    Forall (fun w => Forall (fun c => is_space c = false) w /\ w <> []) (if str_truthy w then [rev w] else [])) as Hend.
  { intros [|c w] Hw; [constructor|]. repeat constructor; [by apply Forall_rev|]. simpl. by destruct (rev w). }
  revert word. induction s as [|c s IH]; intros word Hw; simpl; [by apply Hend|].
  destruct (is_space c) eqn:Hc; [apply Forall_app; split; [by apply Hend|by apply IH]|].
  apply IH. by constructor.
Qed.

Lemma join_space_spaced words :
  Forall (fun w => Forall (fun c => is_space c = false) w /\ w <> []) words -> spaced (join_space words).
Proof.
  assert (forall w, Forall (fun c => is_space c = false) w -> spaced w) as Hplain.
  { intros w Hw. refine (Forall_impl _ _ _ Hw _). intros c Hc Hc'. congruence. }
  induction 1 as [|w words [Hw _] _ IH]; [constructor|]. simpl.
  destruct words as [|w' words]; [by apply Hplain|]. apply Forall_app. split; [by apply Hplain|].
  by constructor.
Qed.

Lemma one_spaced_spaced s : spaced (one_spaced s).
Proof. apply join_space_spaced, split_words_plain. constructor. Qed.

(** What reading words makes of a blank text, and of one that is not. *)
Lemma split_words_blank s : blank s -> split_words s [] = [].
Proof. induction 1 as [|c s Hc _ IH]; simpl; [done|]. by rewrite Hc. Qed.

Lemma split_words_not_blank s word :
  ~ blank s \/ word <> [] -> split_words s word <> [].
Proof.
  revert word. induction s as [|c s IH]; intros word H; simpl.
  - destruct word; [|done]. destruct H as [H|H]; [exfalso; apply H; constructor|done].
  - destruct (is_space c) eqn:Hc; [|apply IH; right; done].
    destruct word as [|d word]; simpl; [|done]. apply IH. left. intros Hs.
    destruct H as [H|H]; [|done]. apply H. by constructor.
Qed.

Lemma one_spaced_nil s : one_spaced s = [] <-> blank s.
Proof.
  unfold one_spaced. split.
  - intros H. destruct (decide (blank s)) as [|Hb]; [done|]. exfalso.
    pose proof (split_words_not_blank s [] (or_introl Hb)) as Hne.
    pose proof (split_words_plain [] s ltac:(constructor)) as Hp.
    destruct (split_words s []) as [|w words]; [done|].
    apply Forall_cons in Hp as [[_ Hw] _]. by destruct w, words.
  - intros Hb. by rewrite split_words_blank.
Qed.

Lemma splitlines_blank line s : Forall blank (splitlines line s) <-> blank line /\ blank s.
Proof.
  revert line. induction s as [s IH] using (induction_ltof1 _ (@length N)). intros line.
  destruct s as [|c s]; simpl.
  { split; [|intros [Hl _]].
    - destruct line; simpl; [by split; constructor|]. intros [H _]%Forall_cons. split; [|constructor].
      rewrite <- (rev_involutive (n :: line)). by apply Forall_rev.
    - destruct line; simpl; [constructor|]. constructor; [|constructor].
      change (blank (rev (n :: line))). by apply Forall_rev. }
  assert (blank (rev line) <-> blank line) as Hrev.
  { split; [|apply Forall_rev]. intros H. rewrite <- (rev_involutive line). by apply Forall_rev. }
  assert (forall s', (length s' < S (length s))%nat -> forall line, Forall blank (splitlines line s') <-> blank line /\ blank s')
    as IH' by (intros s' Hs'; apply IH; exact Hs').
  destruct (is_line_break c) eqn:Hc.
  - apply line_break_is_space in Hc.
    assert (blank (c :: s) <-> blank s) as Hcs by (unfold blank; rewrite Forall_cons; tauto).
    rewrite Forall_cons, Hrev, Hcs. apply and_iff_compat_l.
    assert (blank []) as Hnil by constructor.
    destruct s as [|d s']; [simpl; split; [done|constructor]|].
    destruct ((c =? 13) && (d =? 10))%N eqn:Hcd.
    + rewrite IH' by (simpl; lia). apply andb_true_iff in Hcd as [_ ->%N.eqb_eq].
      unfold blank at 3. rewrite Forall_cons. unfold blank in *. tauto.
    + rewrite IH' by (simpl; lia). tauto.
  - rewrite IH' by lia. unfold blank. rewrite !Forall_cons. tauto.
Qed.

Lemma bold_sub_blank fuel s : blank s -> bold_sub fuel s = s.
Proof.
  revert s. induction fuel as [|fuel IH]; intros [|c s] Hs; [done..|].
  apply Forall_cons in Hs as [Hc Hs]. rewrite bold_sub_step.
  assert (match_bold (c :: s) = None) as ->; [|by rewrite IH].
  destruct s as [|d [|e s]]; try done. simpl. unfold is_star. by destruct (N.eqb_spec c 42) as [->|].
Qed.

Lemma Forall_after_prefix (P : N -> Prop) p s rest :
  after_prefix_i p s = Some rest -> Forall P s -> Forall P rest.
Proof.
  revert s. induction p as [|c p IH]; intros s; simpl; [by intros [= ->]|].
  destruct s as [|d s]; [done|]. destruct (c =? folds_to d)%N; [|done].
  intros H [_ Hs]%Forall_cons. by apply (IH s).
Qed.

Lemma Forall_drop_label (P : N -> Prop) s : Forall P s -> Forall P (drop_label s).
Proof.
  intros Hs. unfold drop_label. destruct (omap (after_label s) LABELS) as [|rest l] eqn:Ho; [done|].
  assert (rest ∈ omap (after_label s) LABELS) as Hin by (rewrite Ho; left).
  apply list_elem_of_omap in Hin as (word & _ & Hw). unfold after_label in Hw.
  destruct (after_prefix_i word s) as [r|] eqn:Hr; [|done].
  pose proof (Forall_lstrip_by P is_space _ (Forall_after_prefix P _ _ _ Hr Hs)) as Hl.
  destruct (lstrip_by is_space r) as [|c r']; [done|]. destruct (c =? 58)%N; [|done].
  injection Hw as <-. apply Forall_lstrip_by. by apply Forall_cons in Hl as [_ Hl].
Qed.

Lemma plain_line_spaced raw : spaced (plain_line raw).
Proof.
  unfold plain_line. cbv zeta.
  by apply Forall_rstrip_by, Forall_lstrip_by, Forall_drop_label, Forall_lstrip_by, one_spaced_spaced.
Qed.

Lemma plain_line_blank raw : blank raw -> plain_line raw = [].
Proof.
  intros Hb. unfold plain_line. rewrite bold_sub_blank by done.
  by rewrite (proj2 (one_spaced_nil raw) Hb).
Qed.

Lemma first_sentence_prefix prev s : exists t, s = first_sentence prev s ++ t.
Proof.
  revert prev. induction s as [|c s IH]; intros prev; simpl; [by exists []|].
  destruct (is_space c && _); [by exists (c :: s)|]. destruct (IH (Some c)) as [t Ht].
  exists t. simpl. by rewrite <- Ht.
Qed.

Lemma first_sentence_nil s : first_sentence None s = [] <-> s = [].
Proof. destruct s as [|c s]; simpl; [done|]. by rewrite andb_false_r. Qed.

(** The line the title is read from is spaced text, and empty only for a blank objective. *)
Definition title_line (objective : pystr) : pystr :=
  match plain_lines objective with
  | first :: _ => first
  | [] =>
      match find str_truthy (map one_spaced (splitlines [] objective)) with
      | Some line => line
      | None => []
      end
  end.

Lemma find_In {A} (f : A -> bool) l x : find f l = Some x -> x ∈ l /\ f x = true.
Proof. intros [Hin Hf]%find_some. by rewrite list_elem_of_In. Qed.

Lemma title_line_spaced objective : spaced (title_line objective).
Proof.
  unfold title_line. destruct (plain_lines objective) as [|first rest] eqn:Hp.
  - destruct (find _ _) as [line|] eqn:Hf; [|constructor].
    apply find_In in Hf as [Hin _]. apply list_elem_of_fmap in Hin as (raw & -> & _). apply one_spaced_spaced.
  - assert (In first (plain_lines objective)) as Hin by (rewrite Hp; by left).
    apply filter_In in Hin as [Hin _]. apply in_map_iff in Hin as (raw & <- & _). apply plain_line_spaced.
Qed.

Lemma title_line_nil objective : title_line objective = [] <-> blank objective.
Proof.
  assert (blank objective <-> Forall blank (splitlines [] objective)) as Hlines.
  { rewrite splitlines_blank. split; [by split; [constructor|]|tauto]. }
  unfold title_line. destruct (plain_lines objective) as [|first rest] eqn:Hp.
  - destruct (find _ _) as [line|] eqn:Hf.
    + apply find_In in Hf as [Hin Ht]. split; [by intros ->|]. intros Hb. exfalso.
      apply list_elem_of_fmap in Hin as (raw & -> & Hraw).
      assert (blank raw) as Hblank by (apply (proj1 (Forall_forall _ _) (proj1 Hlines Hb)); done).
      by rewrite (proj2 (one_spaced_nil raw) Hblank) in Ht.
    + split; [|done]. intros _. apply Hlines, Forall_forall. intros raw Hraw. apply one_spaced_nil.
      pose proof (find_none _ _ Hf (one_spaced raw) (in_map _ _ _ (proj1 (list_elem_of_In _ _) Hraw))) as Hn.
      by destruct (one_spaced raw).
  - assert (In first (plain_lines objective)) as Hin by (rewrite Hp; by left).
    apply filter_In in Hin as [Hin Ht]. apply in_map_iff in Hin as (raw & <- & Hraw).
    split; [intros H; by rewrite H in Ht|]. intros Hb. exfalso.
    assert (blank raw) as Hblank.
    { apply (proj1 (Forall_forall _ _) (proj1 Hlines Hb)). by apply list_elem_of_In. }
    by rewrite plain_line_blank in Ht.
Qed.

(** The first issue's title, for any objective: at most 80 characters, on one line (its only
    whitespace is the space), and empty exactly when the objective is blank, so a run with an
    objective always files an issue with a title. *)
Theorem bootstrap_title_sound (objective : pystr) :
  (length (bootstrap_title objective) <= TITLE_LIMIT)%nat
  /\ Forall (fun c => is_space c = true -> c = 32%N) (bootstrap_title objective)
  /\ (bootstrap_title objective = [] <-> Forall (fun c => is_space c = true) objective).
Proof.
  change (bootstrap_title objective) with
    (let sentence := first_sentence None (title_line objective) in
     if (length sentence <=? TITLE_LIMIT)%nat then sentence
     else rstrip_by is_space (firstn (TITLE_LIMIT - 3) sentence) ++ py "...").
  cbv zeta. pose proof (title_line_spaced objective) as Hspaced.
  pose proof (title_line_nil objective) as Hnil. fold (blank objective).
  destruct (first_sentence_prefix None (title_line objective)) as [t Ht].
  assert (spaced (first_sentence None (title_line objective))) as Hs.
  { unfold spaced in *. rewrite Ht in Hspaced. by apply Forall_app in Hspaced as [? _]. }
  pose proof (first_sentence_nil (title_line objective)) as Hfirst.
  set (sentence := first_sentence None (title_line objective)) in *.
  destruct (Nat.leb_spec (length sentence) TITLE_LIMIT) as [Hle|Hlt]; unfold TITLE_LIMIT in *.
  - split_and!; [done|done|]. by rewrite Hfirst.
  - split_and!.
    + change (80 - 3)%nat with 77%nat. rewrite length_app. change (length (py "...")) with 3%nat.
      pose proof (rstrip_by_length is_space (firstn 77 sentence)) as Hr. rewrite length_firstn in Hr. lia.
    + apply Forall_app. split; [apply Forall_rstrip_by; by apply Forall_take|].
      repeat constructor; done.
    + split; [by intros [_ [=]]%app_nil|]. intros Hb%Hnil. rewrite <- Hfirst in Hb. rewrite Hb in Hlt. simpl in Hlt. lia.
Qed.
