(* ===== verification/IssueQueue.v ===== *)
(** The issue-queue search (src/src/vibesys/orchestration/issue_queue/search): the pure readings of
    the board, the run's queue and its decisions, the keyed writes of every step, one issue job,
    one performance evaluation, and the rounds that start them. The flows run against [FlowCtx],
    what the framework's [ctx] answers to them; every theorem holds for any such context. *)
From S2P Require Import Prelude Issues BoardOwner BoardTitle.

(** ** Reading the board (_board.py) *)

Definition by_urgency (a b : IssueRow) : bool :=
  (TYPE_RANK (r_type a) <? TYPE_RANK (r_type b))
  || ((TYPE_RANK (r_type a) =? TYPE_RANK (r_type b)) && (r_id a <=? r_id b)).

(** [min(candidates, key=...)]: the first of the least. *)
Fixpoint first_min {A} (le : A -> A -> bool) (l : list A) : option A :=
  match l with
  | [] => None
  | x :: l =>
      match first_min le l with
      | None => Some x
      | Some y => Some (if le x y then x else y)
      end
  end.

Definition is_open (i : IssueRow) : bool := bool_decide (r_status i = OPEN).

Definition board_next_open (issues : list IssueRow) : option IssueRow :=
  first_min by_urgency (List.filter is_open issues).

Definition remaining (issues : list IssueRow) : list IssueRow :=
  List.filter (fun i => negb (bool_decide (r_status i = CLOSED))) issues.

Definition blocked_queue (issues : list IssueRow) : bool :=
  match remaining issues with
  | [] => false
  | rest => forallb (fun i => bool_decide (r_status i = BLOCKED)) rest
  end.

Definition has_open (issues : list IssueRow) : bool := existsb is_open issues.

Record IssueBrief := mk_IssueBrief {
  br_id : Z; br_type : pystr; br_status : pystr; br_title : pystr; br_attempts : Z
}.
Record IssueDetail := mk_IssueDetail { de_brief : IssueBrief; de_description : pystr }.

Definition brief (i : IssueRow) : IssueBrief :=
  mk_IssueBrief (r_id i) (type_value (r_type i)) (status_value (r_status i)) (r_title i) (r_attempts i).
Definition briefs (issues : list IssueRow) : list IssueBrief := map brief issues.
Definition detail (i : IssueRow) : IssueDetail := mk_IssueDetail (brief i) (r_description i).

(** ** Configuration and budget (_config.py, _budget.py, _roles.py) *)

Record IssueQueueConfig := mk_IssueQueueConfig {
  c_max_rounds : Z;
  c_max_attempts_per_issue : Z;
  c_max_issues_per_perf_eval : Z;
  c_max_issues_per_round : option Z;
  c_max_board_retries : Z;
  c_load_levels_json : option pystr
}.

Definition positive_bound (z : Z) : bool := (0 <? z) && (z <=? 10000).
Definition valid_config (c : IssueQueueConfig) : bool :=
  positive_bound (c_max_rounds c) && positive_bound (c_max_attempts_per_issue c)
  && positive_bound (c_max_issues_per_perf_eval c)
  && opt_all positive_bound (c_max_issues_per_round c)
  && (0 <=? c_max_board_retries c) && (c_max_board_retries c <=? 20).

Definition issues_per_round (c : IssueQueueConfig) : Z :=
  match c_max_issues_per_round c with
  | Some n => n
  | None => 2 * c_max_issues_per_perf_eval c + 2
  end.

Definition max_jobs (c : IssueQueueConfig) : Z := c_max_rounds c * (issues_per_round c + 1).

Definition turn_chain (corrections lost_turns : Z) : Z := 1 + corrections + lost_turns.
(** [(corrections, lost_turns)] of the implementer, the judge and the performance evaluator. *)
Definition ROLES : list (Z * Z) := [(1, 2); (1, 2); (1, 2)].
Definition MAX_SUBMISSIONS_PER_MEASUREMENT : Z := 5.
Definition ADOPTION_ROUNDS : Z := 3.

Record RunBudget := mk_RunBudget {
  rb_attempts : Z; rb_turns : Z; rb_parallel : Z; rb_refunds : Z; rb_adoption_rounds : Z
}.

Definition budget (c : IssueQueueConfig) : RunBudget :=
  let submissions := MAX_SUBMISSIONS_PER_MEASUREMENT in
  let chain := foldr Z.max 0 (map (fun r => turn_chain r.1 r.2) ROLES) in
  let per_issue := 2 * c_max_attempts_per_issue c + submissions in
  let per_round := issues_per_round c * per_issue + (1 + submissions) in
  mk_RunBudget (max_jobs c) (chain * c_max_rounds c * per_round) 1 (max_jobs c) ADOPTION_ROUNDS.

(** ** Values (_values.py, _replies.py, models.py) *)

Record RevisionRef := mk_RevisionRef { rev_id : pystr; rev_digest : pystr }.
#[export] Instance RevisionRef_eq_dec : EqDecision RevisionRef.
Proof. solve_decision. Defined.

(** A candidate a closed workspace retained, by its revision. *)
Record Kept := mk_Kept { kept_revision : RevisionRef }.

Inductive FailureKind := F_BOARD | F_AGENT | F_CHECKPOINT_DECLINED | F_NOT_OPENED.
Record Failure := mk_Failure {
  fa_kind : FailureKind; fa_role : option pystr; fa_reason : pystr; fa_detail : pystr
}.

(** [None] is formatted as "None". *)
Definition opt_text (s : option pystr) : pystr := match s with Some s => s | None => py "None" end.

Definition describe (f : Failure) : pystr :=
  match fa_kind f with
  | F_BOARD => py "the issue board failed while " ++ fa_reason f ++ py ": " ++ fa_detail f
  | F_AGENT => opt_text (fa_role f) ++ py " turn did not complete (" ++ fa_reason f ++ py ")"
  | F_CHECKPOINT_DECLINED =>
      opt_text (fa_role f) ++ py " checkpoint declined (" ++ fa_reason f ++ py ")"
  | F_NOT_OPENED => py "the attempt's workspace could not be opened (" ++ fa_reason f ++ py ")"
  end.

Record Ending := mk_Ending { en_success : bool; en_reason : pystr }.

Record PerfRecord := mk_PerfRecord {
  pr_iteration : Z;
  pr_primary_trend : pystr;
  pr_secondary_trend : pystr;
  pr_metrics_json : pystr;
  pr_new_issues : list Z
}.

Inductive JobKind := KIND_ISSUE | KIND_PERF.
Definition kind_value (k : JobKind) : pystr :=
  match k with KIND_ISSUE => py "issue" | KIND_PERF => py "perf" end.

Record Job := mk_Job {
  j_kind : JobKind;
  j_sequence : Z;
  j_iteration : Z;
  j_run_id : pystr;
  j_base : RevisionRef;
  j_board : list IssueBrief;
  j_config : IssueQueueConfig
}.
Record IssueJob := mk_IssueJob { ij_job : Job; ij_issue : IssueRow }.
Record PerfJob := mk_PerfJob { pj_job : Job; pj_prior : list PerfRecord }.

Definition change_key (run_id scope what : pystr) : pystr :=
  run_id ++ py "/" ++ scope ++ py "/" ++ what.
Definition job_change_key (j : Job) (what : pystr) : pystr :=
  change_key (j_run_id j) (kind_value (j_kind j) ++ py "." ++ int_str (j_sequence j)) what.

(** [(admission_charge, paid_invocation_limit)]. *)
Definition issue_job_budget (j : IssueJob) : Z * Z := (1, c_max_attempts_per_issue (j_config (ij_job j))).
Definition perf_job_budget (j : PerfJob) : Z * Z := (1, 1).

Record Closing := mk_Closing {
  cl_closed : bool;
  cl_candidate : option RevisionRef;
  cl_judge : option pystr;
  cl_failure : option Failure
}.
Definition no_closing : Closing := mk_Closing false None None None.

Record JobDone := mk_JobDone {
  jd_issue_id : Z; jd_closing : Closing; jd_kept : option Kept; jd_refunded : bool
}.
Definition jd_failure (d : JobDone) : option Failure := cl_failure (jd_closing d).

Record PerfDone := mk_PerfDone {
  pd_iteration : Z; pd_record : option PerfRecord; pd_failure : option Failure
}.

Record IssueImplementerResult := mk_IssueImplementerResult {
  im_summary : pystr; im_files_touched : list pystr; im_self_check : pystr
}.
Record NewIssue := mk_NewIssue { ni_type : IssueType; ni_title : pystr; ni_description : pystr }.
Record IssueJudgeResult := mk_IssueJudgeResult {
  ju_analysis : pystr; ju_feedback : pystr; ju_pass : bool; ju_new_issues : list NewIssue
}.

Inductive PerformanceTrend := IMPROVED | REGRESSED | MIXED.
Definition trend_value (t : PerformanceTrend) : pystr :=
  match t with IMPROVED => py "improved" | REGRESSED => py "regressed" | MIXED => py "mixed" end.
Record IssuePerfEvalResult := mk_IssuePerfEvalResult {
  pe_serving : bool;
  pe_metrics : json;
  pe_new_issues : list NewIssue;
  pe_throughput_trend : option PerformanceTrend;
  pe_latency_trend : option PerformanceTrend;
  pe_primary_metric_trend : option PerformanceTrend;
  pe_secondary_metric_trend : option PerformanceTrend
}.

Definition is_some {A} (x : option A) : bool := match x with Some _ => true | None => false end.

Definition one_vocabulary (r : IssuePerfEvalResult) : bool :=
  let own := if pe_serving r then [pe_throughput_trend r; pe_latency_trend r]
             else [pe_primary_metric_trend r] in
  let foreign := if pe_serving r then [pe_primary_metric_trend r; pe_secondary_metric_trend r]
                 else [pe_throughput_trend r; pe_latency_trend r] in
  negb (existsb (fun t => negb (is_some t)) own || existsb is_some foreign).

Definition or_else {A} (a b : option A) : option A := match a with Some _ => a | None => b end.

Definition primary_trend (r : IssuePerfEvalResult) : result PerformanceTrend :=
  match or_else (pe_throughput_trend r) (pe_primary_metric_trend r) with
  | Some t => Ok t
  | None => Err (ValueError "a validated evaluation names its headline trend" [])
  end.
Definition secondary_trend (r : IssuePerfEvalResult) : option PerformanceTrend :=
  or_else (pe_latency_trend r) (pe_secondary_metric_trend r).

Record Rejection := mk_Rejection { rj_feedback : pystr; rj_analysis : pystr }.
Definition rejection_of (r : IssueJudgeResult) : Rejection :=
  mk_Rejection (if str_truthy (ju_feedback r) then ju_feedback r else ju_analysis r) (ju_analysis r).

Section Replies.
Context (metrics_json : json -> pystr).
Definition perf_record (iteration : Z) (r : IssuePerfEvalResult) (created : list Z) :
    result PerfRecord :=
  let* primary := primary_trend r in
  Ok (mk_PerfRecord iteration (trend_value primary)
        (match secondary_trend r with Some t => trend_value t | None => [] end)
        (metrics_json (pe_metrics r)) created).
End Replies.

(** ** The keyed writes of every step (_writes.py) *)

Definition NOTE_LIMIT : nat := 200.
Definition FEEDBACK_LIMIT : nat := 500.

Record Writes := mk_Writes { w_changes : list IssueChange; w_logs : list LogProgress }.

Definition bootstrap (run_id title : pystr) (iteration : Z) : Writes :=
  mk_Writes
    [CreateIssue (change_key run_id (py "run") (py "bootstrap")) FEATURE title
       (TemplateBody (py "bootstrap_description")) (py "loop:bootstrap") iteration] [].

Definition claim (j : IssueJob) : Writes :=
  mk_Writes
    [SetIssueStatus (job_change_key (ij_job j) (py "claim")) (r_id (ij_issue j)) IN_PROGRESS
       (py "loop") (j_iteration (ij_job j)) (py "claimed for processing") []] [].

Definition attempt_text (spent : Z) : pystr := py "attempt." ++ int_str spent.
Definition verdict_text (spent : Z) : pystr := py "verdict." ++ int_str spent.
Definition log_implement_text (spent : Z) : pystr := py "log.implement." ++ int_str spent.
Definition log_review_text (spent : Z) : pystr := py "log.review." ++ int_str spent.
Definition filed_text (scope : pystr) (index : nat) : pystr :=
  py "filed." ++ scope ++ py "." ++ int_str (Z.of_nat index).

Definition creates (j : Job) (filed : list NewIssue) (author scope : pystr) : list IssueChange :=
  imap (fun index item =>
    CreateIssue (job_change_key j (filed_text scope index)) (ni_type item) (ni_title item)
      (TextBody (ni_description item)) author (j_iteration j)) filed.

Section WritesOf.
(** [model_dump_json] of the replies. *)
Context (dump_implementer : IssueImplementerResult -> pystr) (dump_judge : IssueJudgeResult -> pystr).

Definition record (j : IssueJob) (spent : Z) (reply : IssueImplementerResult) : Writes :=
  let payload := dump_implementer reply in
  mk_Writes
    [RecordAttempt (job_change_key (ij_job j) (attempt_text spent)) (r_id (ij_issue j))
       (py "implementer") (j_iteration (ij_job j)) (take NOTE_LIMIT (im_summary reply)) payload]
    [mk_LogProgress (job_change_key (ij_job j) (log_implement_text spent)) (j_iteration (ij_job j))
       (py "implement") (Some (r_id (ij_issue j))) payload].

Definition verdict (j : IssueJob) (spent : Z) (reply : IssueJudgeResult) : Writes :=
  let payload := dump_judge reply in
  let passed := ju_pass reply in
  let note :=
    if passed then py "closed by judge after attempt " ++ int_str spent
    else take FEEDBACK_LIMIT (rj_feedback (rejection_of reply)) in
  mk_Writes
    (SetIssueStatus (job_change_key (ij_job j) (verdict_text spent)) (r_id (ij_issue j))
       (if passed then CLOSED else IN_PROGRESS) (py "judge") (j_iteration (ij_job j)) note payload
     :: creates (ij_job j) (ju_new_issues reply) (py "judge") (int_str spent))
    [mk_LogProgress (job_change_key (ij_job j) (log_review_text spent)) (j_iteration (ij_job j))
       (py "review") (Some (r_id (ij_issue j))) payload].

Definition block (j : IssueJob) : Writes :=
  mk_Writes
    [SetIssueStatus (job_change_key (ij_job j) (py "block")) (r_id (ij_issue j)) BLOCKED (py "loop")
       (j_iteration (ij_job j))
       (py "exhausted " ++ int_str (c_max_attempts_per_issue (j_config (ij_job j))) ++ py " attempts") []]
    [].

Definition filing (j : PerfJob) (issues : list NewIssue) (payload : pystr) : Writes :=
  mk_Writes (creates (pj_job j) issues (py "perf_eval") (py "perf"))
    [mk_LogProgress (job_change_key (pj_job j) (py "log.performance")) (j_iteration (pj_job j))
       (py "performance") None payload].
End WritesOf.

(** ** Settlement (_settle.py) *)

Record Assessment := mk_Assessment {
  as_succeeded : bool;
  (** The judge turn and the candidate it vouches for. *)
  as_vouched : option (pystr * RevisionRef);
  as_eligible : bool;
  as_retains : bool
}.

Definition assessment_of (c : Closing) : Assessment :=
  match cl_failure c, cl_closed c with
  | None, true =>
      match cl_candidate c, cl_judge c with
      | Some candidate, Some judge => mk_Assessment true (Some (judge, candidate)) true true
      | _, _ => mk_Assessment true None false false
      end
  | _, _ => mk_Assessment false None false false
  end.
Definition retained (c : Closing) : bool := as_retains (assessment_of c).

(** ** The queue (_queue.py) *)

Inductive Step :=
| Work (issue : IssueRow)
| Assess
| Finish (ending : Ending).

Record Queue := mk_Queue {
  q_round_idx : Z;
  q_processed : Z;
  q_jobs_started : Z;
  q_assessed : bool;
  q_filed : bool;
  q_tip : option Kept;
  q_performance : list PerfRecord;
  q_ending : option Ending;
  q_stopping : bool
}.
#[export] Instance eta_Queue : Eta Queue := fun q =>
  mk_Queue (q_round_idx q) (q_processed q) (q_jobs_started q) (q_assessed q) (q_filed q) (q_tip q)
    (q_performance q) (q_ending q) (q_stopping q).

Definition new_queue : Queue := mk_Queue 0 0 0 false false None [] None false.

Definition next_sequence (q : Queue) : Z := q_jobs_started q + 1.
Definition iteration (q : Queue) : Z := q_round_idx q + 1.
Definition active (q : Queue) : bool := negb (is_some (q_ending q)) && negb (q_stopping q).

Definition DRAINED : pystr := py "the board is drained and the last evaluation filed nothing".
Definition rounds_spent (c : IssueQueueConfig) : pystr :=
  py "the round budget of " ++ int_str (c_max_rounds c) ++ py " rounds is spent".
Definition all_blocked (issues : list IssueRow) : pystr :=
  py "all " ++ int_str (Z.of_nat (length (remaining issues))) ++ py " remaining issues are blocked".

Definition decide_step (q : Queue) (issues : list IssueRow) (c : IssueQueueConfig) : Step :=
  if q_assessed q && negb (q_filed q) && negb (has_open issues) then Finish (mk_Ending true DRAINED)
  else if c_max_rounds c <=? q_round_idx q then Finish (mk_Ending false (rounds_spent c))
  else
    match (if issues_per_round c <=? q_processed q then None else board_next_open issues) with
    | Some pick => Work pick
    | None =>
        if blocked_queue issues then Finish (mk_Ending false (all_blocked issues)) else Assess
    end.

Definition base (q : Queue) (baseline : RevisionRef) : RevisionRef :=
  match q_tip q with None => baseline | Some tip => kept_revision tip end.
Definition started (q : Queue) : Queue := q <| q_jobs_started := q_jobs_started q + 1 |>.
Definition stopped (q : Queue) : Queue := q <| q_stopping := true |>.
Definition ended (q : Queue) (e : Ending) : Queue := q <| q_ending := Some e |>.

Definition after_issue (q : Queue) (d : JobDone) : Queue :=
  let ending := option_map (fun f =>
    mk_Ending false (py "issue #" ++ int_str (jd_issue_id d) ++ py " could not be completed: "
                     ++ describe f)) (jd_failure d) in
  q <| q_processed := q_processed q + 1 |> <| q_assessed := false |>
    <| q_tip := or_else (jd_kept d) (q_tip q) |> <| q_ending := or_else ending (q_ending q) |>.

Definition after_perf (q : Queue) (d : PerfDone) : Queue :=
  let ending := option_map (fun f =>
    mk_Ending false (py "performance evaluation " ++ int_str (pd_iteration d)
                     ++ py " could not be completed: " ++ describe f)) (pd_failure d) in
  q <| q_round_idx := q_round_idx q + 1 |> <| q_processed := 0 |> <| q_assessed := true |>
    <| q_filed := match pd_record d with
                  | Some r => match pr_new_issues r with [] => false | _ => true end
                  | None => false end |>
    <| q_performance := q_performance q ++ match pd_record d with Some r => [r] | None => [] end |>
    <| q_ending := or_else ending (q_ending q) |>.

Inductive Folded := FoldIssue (d : JobDone) | FoldPerf (d : PerfDone) | TaskStopped.
Definition folded (q : Queue) (d : Folded) : Queue :=
  match d with
  | FoldIssue d => after_issue q d
  | FoldPerf d => after_perf q d
  | TaskStopped => stopped q
  end.

Inductive Cursor := DRAIN | ASSESS | FINISHED.
Record QueueSnapshot := mk_QueueSnapshot {
  qs_round_idx : Z;
  qs_cursor : Cursor;
  qs_current_issue_id : option Z;
  qs_issues : list IssueBrief;
  qs_performance : list PerfRecord;
  qs_ending : option Ending;
  qs_stopped : bool
}.
Definition snapshot_of (q : Queue) (issues : list IssueRow) (step : option Step) : QueueSnapshot :=
  let '(cursor, current) :=
    match step with
    | Some (Work i) => (DRAIN, Some (r_id i))
    | Some Assess => (ASSESS, None)
    | _ => (FINISHED, None)
    end in
  mk_QueueSnapshot (q_round_idx q) cursor current (briefs issues) (q_performance q)
    (or_else (q_ending q) (match step with Some (Finish e) => Some e | _ => None end)) (q_stopping q).

(** ** What the framework answers *)

Inductive Checkpoint := Retained (revision : RevisionRef) | Declined (reason : pystr).

Inductive Turn (A : Type) :=
| TurnFinished (reply : A) (checkpoint : option Checkpoint) (invocation : pystr)
| TurnFailed (reason : pystr)
| TurnUnexpected (type_name : string).
Arguments TurnFinished {A} reply checkpoint invocation.
Arguments TurnFailed {A} reason.
Arguments TurnUnexpected {A} type_name.

Record ImplementPrompt := mk_ImplementPrompt {
  ip_issue : IssueDetail; ip_board : list IssueBrief;
  ip_feedback : option pystr; ip_analysis : option pystr
}.
Record ReviewPrompt (Ev : Type) := mk_ReviewPrompt {
  rp_issue : IssueDetail; rp_board : list IssueBrief; rp_summary : pystr;
  rp_files_touched : list pystr; rp_self_check : pystr; rp_evaluations : list Ev
}.
Arguments mk_ReviewPrompt {Ev} _ _ _ _ _ _.
Record PriorPerformance := mk_PriorPerformance {
  pp_iteration : Z; pp_throughput_trend : pystr; pp_latency_trend : pystr;
  pp_metrics_json : pystr; pp_new_issues : nat
}.
Inductive PerfPrompt :=
| PerformancePrompt (iteration max_new_issues : Z) (board : list IssueBrief)
    (prior : list PriorPerformance) (load_levels_json : option pystr)
| OverCapPrompt (named max_new_issues : Z).

(** What cuts a flow short: [JobEndedError], the operator's stop reaching it at an await, or another
    exception. *)
Inductive Interrupt := JobEnded (f : Failure) | Stopped | Raised (e : exn).
Inductive Exit (A : Type) := Done (a : A) | Cut (i : Interrupt).
Arguments Done {A} a.
Arguments Cut {A} i.

Definition Flow (E A : Type) : Type := E -> Exit A * E.
Definition f_ret {E A} (a : A) : Flow E A := fun x => (Done a, x).
Definition f_exit {E A} (a : Exit A) : Flow E A := fun x => (a, x).
Definition f_bind {E A B} (m : Flow E A) (k : A -> Flow E B) : Flow E B := fun x =>
  match m x with
  | (Done a, x) => k a x
  | (Cut i, x) => (Cut i, x)
  end.
Notation "'do' x '<-' m ';;' k" := (f_bind m (fun x => k))
  (at level 10, x pattern, m at level 99, k at level 200) : py_scope.

(** How a workspace settles: as [keep] asserted, or plainly when the body raised. *)
Inductive Settle :=
| Asserted (revision : option RevisionRef) (assessment : Assessment)
| PlainCancelled
| PlainFailed.

(** The run's [ctx]. Awaits are flows (a stop or a defect may reach them); [inr] is a [Failed] or
    [NotOpened] with its reason. [Ev] is a decoded evaluation as the judge is shown it. *)
Class FlowCtx (E Ev : Type) := {
  x_perform : OperationRequest -> Flow E (Outcome + pystr);
  x_open : Job -> Z * Z -> Flow E (unit + pystr);
  x_implementer : RevisionRef -> ImplementPrompt -> Flow E (Turn IssueImplementerResult);
  x_judge : RevisionRef -> ReviewPrompt Ev -> Flow E (Turn IssueJudgeResult);
  x_perf_evaluator : RevisionRef -> PerfPrompt -> Flow E (Turn IssuePerfEvalResult);
  (** The evaluations taken of a revision, decoded for the judge. *)
  x_evaluations : RevisionRef -> Flow E (list Ev);
  x_measure : RevisionRef -> pystr -> Flow E unit;
  (** Settling is shielded: it answers the candidate that was retained, if one was. *)
  x_settle : Settle -> E -> option Kept * E;
  x_stop_requested : E -> bool;
  x_publish : QueueSnapshot -> E -> E;
  (** [None] is [INPUT]. *)
  x_choose : option Kept -> E -> E
}.

Section Flows.
Context {E Ev : Type} {ctx : FlowCtx E Ev}.
(** [model_dump_json] of the replies, [metrics_json], and [repr] of a key. *)
Context (dump_implementer : IssueImplementerResult -> pystr) (dump_judge : IssueJudgeResult -> pystr)
  (dump_perf : IssuePerfEvalResult -> pystr) (metrics_json : json -> pystr) (repr : pystr -> pystr).

(** ** Retry (vs-core flows/_retry.py, Flow.retry) *)

(** [inr] is [Again] with its reason in the attempt's answer, and [GaveUp] in the result. *)
Fixpoint retry_from {R V} (attempt : Z -> list R -> Flow E (V + R)) (left_ : nat) (reasons : list R) :
    Flow E (V + list R) :=
  match left_ with
  | O => f_ret (inr reasons)
  | S left_ =>
      do outcome <- attempt (Z.of_nat (length reasons) + 1) reasons ;;
      match outcome with
      | inl v => f_ret (inl v)
      | inr reason => retry_from attempt left_ (reasons ++ [reason])
      end
  end.
Definition retry {R V} (attempt : Z -> list R -> Flow E (V + R)) (max_tries : Z) :
    Flow E (V + list R) := retry_from attempt (Z.to_nat max_tries) [].

(** ** The conversation with the board (_tracker.py) *)

Definition READING : pystr := py "reading the board".
Definition unavailable (doing reason : pystr) : Failure := mk_Failure F_BOARD None doing reason.

Definition status_text (s : OutcomeStatus) : pystr :=
  match s with
  | SUCCEEDED => py "succeeded" | REJECTED => py "rejected" | FAILED => py "failed"
  end.
Definition outcome_status (o : Outcome) : pystr :=
  match o with
  | BoardSnapshot s _ => status_text s
  | Applied_ a =>
      match ac_detail a with
      | Some (key, message) =>
          status_text (ac_status a) ++ py ": change " ++ repr key ++ py ": " ++ message
      | None => status_text (ac_status a)
      end
  | LoggedProgress _ => py "unexpected outcome LoggedProgress"
  end.

Definition perform (c : IssueQueueConfig) (request : OperationRequest) (doing : pystr) :
    Flow E (Outcome + Failure) :=
  do answer <- retry (fun _ _ => x_perform request) (c_max_board_retries c + 1) ;;
  match answer with
  | inl outcome => f_ret (inl outcome)
  | inr reasons =>
      match last reasons with
      | Some reason =>
          f_ret (inr (unavailable doing
            (py "no answer after " ++ int_str (Z.of_nat (length reasons)) ++ py " tries (" ++ reason
             ++ py ")")))
      | None => f_exit (Cut (Raised (OtherError "IndexError" [])))
      end
  end.

Definition read_board (c : IssueQueueConfig) : Flow E (list IssueRow + Failure) :=
  do outcome <- perform c ReadBoard READING ;;
  f_ret match outcome with
        | inr failure => inr failure
        | inl (BoardSnapshot SUCCEEDED issues) => inl issues
        | inl outcome => inr (unavailable READING (outcome_status outcome))
        end.

Fixpoint log_all (c : IssueQueueConfig) (logs : list LogProgress) : Flow E unit :=
  match logs with
  | [] => f_ret tt
  | entry :: logs => do _ <- perform c (Log entry) (py "logging progress") ;; log_all c logs
  end.

Definition apply (c : IssueQueueConfig) (w : Writes) (doing : pystr) : Flow E (AppliedChanges + Failure) :=
  do _ <- log_all c (w_logs w) ;;
  match w_changes w with
  | [] => f_ret (inl (mk_AppliedChanges SUCCEEDED [] None))
  | changes =>
      do outcome <- perform c (ApplyIssueChanges changes) doing ;;
      f_ret match outcome with
            | inr failure => inr failure
            | inl (Applied_ (mk_AppliedChanges SUCCEEDED _ _ as a)) => inl a
            | inl outcome => inr (unavailable doing (outcome_status outcome))
            end
  end.

Definition write (c : IssueQueueConfig) (w : Writes) (doing : pystr) : Flow E AppliedChanges :=
  do outcome <- apply c w doing ;;
  match outcome with
  | inl a => f_ret a
  | inr failure => f_exit (Cut (JobEnded failure))
  end.

(** ** A workspace around a body (vs-core flows/_workspaces.py [_holding], as the jobs use it) *)

(** [async with ctx.workspaces.open(...)]: a slot that did not open answers [unopened]; an opened
    one is settled however the body ended, as [keep] asserts when the body returned. *)
Definition holding {A B} (j : Job) (budget : Z * Z) (unopened : pystr -> A)
    (body : Flow E B) (keep : B -> Settle) (k : B -> option Kept -> A) : Flow E A :=
  do opened <- x_open j budget ;;
  match opened with
  | inr reason => f_ret (unopened reason)
  | inl _ => fun x =>
      match body x with
      | (Done b, x) => let '(kept, x) := x_settle (keep b) x in (Done (k b kept), x)
      | (Cut i, x) =>
          let '(_, x) := x_settle (match i with Stopped => PlainCancelled | _ => PlainFailed end) x in
          (Cut i, x)
      end
  end.

(** [except JobEndedError as ended]. *)
Definition catching {A} (body : Flow E A) (handler : Failure -> A) : Flow E A := fun x =>
  match body x with
  | (Cut (JobEnded f), x) => (Done (handler f), x)
  | (out, x) => (out, x)
  end.

Definition not_opened (reason : pystr) : Failure := mk_Failure F_NOT_OPENED None reason [].
Definition failure_of (reason role : pystr) : Failure := mk_Failure F_AGENT (Some role) reason [].

Definition answered_with (role : string) (type_name : string) : exn :=
  TypeError (role ++ " answered with " ++ type_name).

(** ** One issue job (_issue.py) *)

Record Implemented := mk_Implemented {
  md_reply : IssueImplementerResult; md_candidate : option RevisionRef
}.
Record Judged := mk_Judged { jg_reply : IssueJudgeResult; jg_invocation : pystr }.

(** The revision core retained for the turn, unless the turn left the tree as it found it. *)
Definition changed (base : RevisionRef) (checkpoint : option Checkpoint) :
    Failure + option RevisionRef :=
  match checkpoint with
  | Some (Declined reason) =>
      inl (mk_Failure F_CHECKPOINT_DECLINED (Some (py "implementer")) reason [])
  | Some (Retained revision) =>
      inr (if bool_decide (revision = base) then None else Some revision)
  | None => inr None
  end.

Definition implement (j : IssueJob) (rejected : option Rejection) : Flow E Implemented :=
  let prompt := mk_ImplementPrompt (detail (ij_issue j)) (j_board (ij_job j))
                  (option_map rj_feedback rejected) (option_map rj_analysis rejected) in
  do turn <- x_implementer (j_base (ij_job j)) prompt ;;
  match turn with
  | TurnFinished reply checkpoint _ =>
      match changed (j_base (ij_job j)) checkpoint with
      | inl failure => f_exit (Cut (JobEnded failure))
      | inr candidate => f_ret (mk_Implemented reply candidate)
      end
  | TurnFailed reason => f_exit (Cut (JobEnded (failure_of reason (py "implementer"))))
  | TurnUnexpected type_name => f_exit (Cut (Raised (answered_with "the implementer" type_name)))
  end.

Definition review (j : IssueJob) (made : Implemented) : Flow E Judged :=
  let revision := match md_candidate made with Some r => r | None => j_base (ij_job j) end in
  do evaluations <- x_evaluations revision ;;
  let prompt := mk_ReviewPrompt (detail (ij_issue j)) (j_board (ij_job j))
                  (im_summary (md_reply made)) (im_files_touched (md_reply made))
                  (im_self_check (md_reply made)) evaluations in
  do turn <- x_judge revision prompt ;;
  match turn with
  | TurnFinished reply _ invocation => f_ret (mk_Judged reply invocation)
  | TurnFailed reason => f_exit (Cut (JobEnded (failure_of reason (py "judge"))))
  | TurnUnexpected type_name => f_exit (Cut (Raised (answered_with "the judge" type_name)))
  end.

Definition take_attempt (j : IssueJob) (number : Z) (reasons : list Rejection) :
    Flow E (Closing + Rejection) :=
  let c := j_config (ij_job j) in
  do made <- implement j (last reasons) ;;
  do _ <- write c (record dump_implementer j number (md_reply made)) (py "recording the attempt") ;;
  do judged <- review j made ;;
  do _ <- write c (verdict dump_judge j number (jg_reply judged)) (py "filing the verdict") ;;
  f_ret (if ju_pass (jg_reply judged)
         then inl (mk_Closing true (md_candidate made) (Some (jg_invocation judged)) None)
         else inr (rejection_of (jg_reply judged))).

Definition work_issue (j : IssueJob) : Flow E Closing :=
  let c := j_config (ij_job j) in
  catching
    (do _ <- write c (claim j) (py "claiming the issue") ;;
     do answer <- retry (take_attempt j) (c_max_attempts_per_issue c) ;;
     match answer with
     | inl closing => f_ret closing
     | inr _ => do _ <- write c (block j) (py "blocking the issue") ;; f_ret no_closing
     end)
    (fun failure => mk_Closing false None None (Some failure)).

Definition issue_job (j : IssueJob) : Flow E JobDone :=
  let id := r_id (ij_issue j) in
  holding (ij_job j) (issue_job_budget j)
    (fun reason => mk_JobDone id (mk_Closing false None None (Some (not_opened reason))) None true)
    (work_issue j)
    (fun closing => Asserted (if retained closing then cl_candidate closing else None)
                      (assessment_of closing))
    (fun closing kept => mk_JobDone id closing kept false).

(** ** One performance evaluation (_perf.py) *)

Definition ask (j : PerfJob) (prompt : PerfPrompt) : Flow E IssuePerfEvalResult :=
  do turn <- x_perf_evaluator (j_base (pj_job j)) prompt ;;
  match turn with
  | TurnFinished reply _ _ => f_ret reply
  | TurnFailed reason => f_exit (Cut (JobEnded (failure_of reason (py "perf-evaluator"))))
  | TurnUnexpected type_name => f_exit (Cut (Raised (answered_with "the evaluator" type_name)))
  end.

Definition prior_performance (r : PerfRecord) : PriorPerformance :=
  mk_PriorPerformance (pr_iteration r) (pr_primary_trend r) (pr_secondary_trend r)
    (pr_metrics_json r) (length (pr_new_issues r)).

Definition over_cap (c : IssueQueueConfig) (reply : IssuePerfEvalResult) : bool :=
  c_max_issues_per_perf_eval c <? Z.of_nat (length (pe_new_issues reply)).

Definition assess (j : PerfJob) : Flow E IssuePerfEvalResult :=
  let c := j_config (pj_job j) in
  let cap := c_max_issues_per_perf_eval c in
  do reply <- ask j (PerformancePrompt (j_iteration (pj_job j)) cap (j_board (pj_job j))
                       (map prior_performance (pj_prior j)) (c_load_levels_json c)) ;;
  do reply <- (if over_cap c reply
               then ask j (OverCapPrompt (Z.of_nat (length (pe_new_issues reply))) cap)
               else f_ret reply) ;;
  if over_cap c reply
  then f_exit (Cut (JobEnded (mk_Failure F_AGENT (Some (py "perf-evaluator")) (py "invalid-reply") [])))
  else f_ret reply.

Definition f_lift {A} (m : result A) : Flow E A :=
  match m with Ok a => f_ret a | Err e => f_exit (Cut (Raised e)) end.

Definition evaluate (j : PerfJob) : Flow E PerfDone :=
  let n := j_iteration (pj_job j) in
  catching
    (do reply <- assess j ;;
     do applied <- write (j_config (pj_job j)) (filing j (pe_new_issues reply) (dump_perf reply))
                     (py "filing the evaluation's issues") ;;
     do r <- f_lift (perf_record metrics_json n reply (map cr_issue_id (ac_results applied))) ;;
     f_ret (mk_PerfDone n (Some r) None))
    (fun failure => mk_PerfDone n None (Some failure)).

Definition perf_job (j : PerfJob) : Flow E PerfDone :=
  holding (pj_job j) (perf_job_budget j)
    (fun reason => mk_PerfDone (j_iteration (pj_job j)) None (Some (not_opened reason)))
    (evaluate j)
    (fun done => Asserted None (mk_Assessment (negb (is_some (pd_failure done))) None false false))
    (fun done _ => done).

(** ** The rounds and the search (_search.py, _proof.py) *)

Context (run_id : pystr) (baseline : RevisionRef) (c : IssueQueueConfig).
(** [terms.requires_accuracy_proof] and [terms.accuracy_stage] of the task. *)
Context (requires_accuracy_proof : bool) (accuracy_stage : option pystr).

Definition name_tip (q : Queue) (x : E) : E :=
  match q_tip q with
  | Some tip => if requires_accuracy_proof then x else x_choose (Some tip) x
  | None => x
  end.

Definition next_job (kind : JobKind) (q : Queue) (issues : list IssueRow) : Job :=
  mk_Job kind (next_sequence q) (iteration q) run_id (base q baseline) (briefs issues) c.

(** What a started job's task leaves for [await jobs]: a result, or [TaskStopped]. *)
Definition task {A} (wrap : A -> Folded) (m : Flow E A) : Flow E Folded := fun x =>
  match m x with
  | (Done a, x) => (Done (wrap a), x)
  | (Cut Stopped, x) => (Done TaskStopped, x)
  | (Cut i, x) => (Cut i, x)
  end.

Definition run_step (q : Queue) (issues : list IssueRow) (step : Step) : Flow E Folded :=
  match step with
  | Work issue => task FoldIssue (issue_job (mk_IssueJob (next_job KIND_ISSUE q issues) issue))
  | _ => task FoldPerf (perf_job (mk_PerfJob (next_job KIND_PERF q issues) (q_performance q)))
  end.

(** The loop of [work_queue]; [None] when the fuel runs out. *)
Fixpoint work_from (fuel : nat) (q : Queue) (issues : list IssueRow) :
    Flow E (option (Queue * list IssueRow)) :=
  match fuel with
  | O => f_ret None
  | S fuel => fun x =>
      if negb (active q) then (Done (Some (q, issues)), x)
      else if x_stop_requested x then (Done (Some (stopped q, issues)), x)
      else
        (do read <- read_board c ;;
         match read with
         | inr failure =>
             f_ret (Some (ended q (mk_Ending false
               (py "the issue tracker is unavailable: " ++ describe failure)), issues))
         | inl issues =>
             let step := decide_step q issues c in
             fun x =>
               let x := x_publish (snapshot_of q issues (Some step)) x in
               match step with
               | Finish ending => work_from fuel (ended q ending) issues x
               | _ =>
                   (do done <- run_step q issues step ;;
                    let q := folded (started q) done in
                    fun x => work_from fuel q issues (name_tip q x)) x
               end
         end) x
  end.

Definition work_queue (fuel : nat) (q : Queue) : Flow E (option Queue) :=
  do answer <- work_from fuel q [] ;;
  match answer with
  | None => f_ret None
  | Some (q, issues) => fun x => (Done (Some q), x_publish (snapshot_of q issues None) x)
  end.

Definition prove (tip : Kept) : Flow E unit :=
  if negb requires_accuracy_proof then f_ret tt
  else match accuracy_stage with
       | None => f_ret tt
       | Some stage => x_measure (kept_revision tip) stage
       end.

Record NoWinner := mk_NoWinner { nw_reason : pystr; nw_keep_choice : bool }.

Definition fell_short (q : Queue) (keep_choice : bool) : option NoWinner :=
  match q_ending q with
  | Some (mk_Ending false reason) => Some (mk_NoWinner reason keep_choice)
  | _ => None
  end.

Definition conclude (q : Queue) : Flow E (option NoWinner) :=
  if q_stopping q then f_ret None
  else match q_tip q with
       | None => fun x => (Done (fell_short q false), x_choose None x)
       | Some tip =>
           do _ <- prove tip ;;
           fun x => (Done (fell_short q true), x_choose (Some tip) x)
       end.

Definition BLANK_OBJECTIVE : pystr :=
  py "the run's objective is blank, so there is no first issue to file: give the task an objective".

(** The whole search, for the task's objective; [None] when the fuel runs out. *)
Definition issue_queue (fuel : nat) (objective : pystr) : Flow E (option (option NoWinner)) :=
  let title := bootstrap_title objective in
  if negb (str_truthy title) then f_ret (Some (Some (mk_NoWinner BLANK_OBJECTIVE false)))
  else
    do filed <- apply c (bootstrap run_id title (iteration new_queue)) (py "filing the bootstrap issue") ;;
    let q := match filed with
             | inr failure =>
                 ended new_queue (mk_Ending false
                   (py "the bootstrap issue could not be filed: " ++ describe failure))
             | inl _ => new_queue
             end in
    fun x =>
      match work_queue fuel q x with
      | (Done None, x) => (Done None, x)
      | (Done (Some q), x) => f_bind (conclude q) (fun w => f_ret (Some w)) x
      | (Cut Stopped, x) => f_bind (conclude (stopped q)) (fun w => f_ret (Some w)) x
      | (Cut i, x) => (Cut i, x)
      end.
End Flows.

(** ** The decision *)

Lemma by_urgency_total a b : by_urgency a b = true \/ by_urgency b a = true.
Proof. unfold by_urgency. rewrite !orb_true_iff, !andb_true_iff. lia. Qed.
Lemma by_urgency_trans a b c : by_urgency a b = true -> by_urgency b c = true -> by_urgency a c = true.
Proof. unfold by_urgency. rewrite !orb_true_iff, !andb_true_iff. lia. Qed.

Lemma first_min_spec {A} (le : A -> A -> bool) (l : list A) :
  (forall a b, le a b = true \/ le b a = true) ->
  (forall a b c, le a b = true -> le b c = true -> le a c = true) ->
  match first_min le l with
  | Some x => x ∈ l /\ forall y, y ∈ l -> le x y = true
  | None => l = []
  end.
Proof.
  intros Htotal Htrans. assert (forall a, le a a = true) as Hrefl by (intros a; by destruct (Htotal a a)).
  induction l as [|x l IH]; simpl; [done|].
  destruct (first_min le l) as [y|].
  - destruct IH as [Hin Hmin]. destruct (le x y) eqn:Hxy.
    + split; [left|]. intros z [->|Hz]%elem_of_cons; [done|]. by apply (Htrans _ y); [|apply Hmin].
    + split; [by right|]. intros z [->|Hz]%elem_of_cons; [|by apply Hmin].
      destruct (Htotal x y); congruence.
  - subst l. split; [left|]. by intros z ->%list_elem_of_singleton.
Qed.

Lemma board_next_open_spec issues :
  match board_next_open issues with
  | Some i => i ∈ issues /\ r_status i = OPEN
              /\ forall i', i' ∈ issues -> r_status i' = OPEN -> by_urgency i i' = true
  | None => forall i, i ∈ issues -> r_status i <> OPEN
  end.
Proof.
  pose proof (first_min_spec by_urgency (List.filter is_open issues) by_urgency_total by_urgency_trans) as H.
  unfold board_next_open. destruct (first_min _ _) as [i|].
  - destruct H as [Hin Hmin]. apply list_elem_of_In, filter_In in Hin as [Hin Ho%bool_decide_eq_true].
    split_and!; [by apply list_elem_of_In|done|]. intros i' Hi' Ho'. apply Hmin.
    apply list_elem_of_In, filter_In. split; [by apply list_elem_of_In|by apply bool_decide_eq_true].
  - intros i Hi Ho. assert (In i (List.filter is_open issues)) as Hf; [|by rewrite H in Hf].
    apply filter_In. split; [by apply list_elem_of_In|by apply bool_decide_eq_true].
Qed.

Lemma has_open_spec issues : has_open issues = true <-> exists i, i ∈ issues /\ r_status i = OPEN.
Proof.
  unfold has_open. rewrite existsb_exists.
  split; intros (i & Hi & Ho); exists i.
  - apply list_elem_of_In in Hi. by apply bool_decide_eq_true in Ho.
  - split; [by apply list_elem_of_In|by apply bool_decide_eq_true].
Qed.

Lemma blocked_queue_spec issues :
  blocked_queue issues = true <->
  (exists i, i ∈ issues /\ r_status i = BLOCKED)
  /\ forall i, i ∈ issues -> r_status i = BLOCKED \/ r_status i = CLOSED.
Proof.
  assert (forall i, i ∈ remaining issues <-> i ∈ issues /\ r_status i <> CLOSED) as Hr.
  { intros i. unfold remaining. rewrite !list_elem_of_In, filter_In, negb_true_iff, bool_decide_eq_false. done. }
  assert (forall l, forallb (fun i => bool_decide (r_status i = BLOCKED)) l = true
                    <-> forall i, i ∈ l -> r_status i = BLOCKED) as Hall.
  { intros l. rewrite forallb_forall. setoid_rewrite list_elem_of_In. setoid_rewrite bool_decide_eq_true. done. }
  unfold blocked_queue. destruct (remaining issues) as [|r rest] eqn:Hrem.
  - split; [done|]. intros [(i & Hi & Hb) _]. exfalso. apply (not_elem_of_nil i).
    apply Hr. split; [done|]. by rewrite Hb.
  - rewrite Hall. split.
    + intros H. split.
      * exists r. split; [apply Hr; left|apply H; left].
      * intros i Hi. destruct (decide (r_status i = CLOSED)); [by right|].
        left. apply H. by apply Hr.
    + intros [_ H] i Hi%Hr. destruct Hi as [Hi Hc]. by destruct (H i Hi).
Qed.

(** What the queue decides from a board, on every branch: it works an issue exactly when the
    round has room and an issue is open, and then the most urgent open one; it measures when
    nothing can be worked and not everything left is blocked; it ends in success exactly on a
    quiet board, and in failure when the rounds are spent or everything left is blocked. *)
Theorem decide_exact (q : Queue) (issues : list IssueRow) (c : IssueQueueConfig) :
  let open_ := exists i, i ∈ issues /\ r_status i = OPEN in
  let quiet := q_assessed q = true /\ q_filed q = false /\ ~ open_ in
  let room := q_processed q < issues_per_round c in
  let rounds_left := q_round_idx q < c_max_rounds c in
  let stuck := (exists i, i ∈ issues /\ r_status i = BLOCKED)
               /\ forall i, i ∈ issues -> r_status i = BLOCKED \/ r_status i = CLOSED in
  match decide_step q issues c with
  | Work i =>
      ~ quiet /\ rounds_left /\ room /\ i ∈ issues /\ r_status i = OPEN
      /\ forall i', i' ∈ issues -> r_status i' = OPEN -> by_urgency i i' = true
  | Assess => ~ quiet /\ rounds_left /\ (~ room \/ ~ open_) /\ ~ stuck
  | Finish (mk_Ending true _) => quiet
  | Finish (mk_Ending false _) => ~ quiet /\ (~ rounds_left \/ stuck)
  end.
Proof.
  intros open_ quiet room rounds_left stuck. unfold decide_step.
  pose proof (has_open_spec issues) as Hopen. fold open_ in Hopen.
  destruct (q_assessed q && negb (q_filed q) && negb (has_open issues)) eqn:Hq.
  { rewrite !andb_true_iff, !negb_true_iff in Hq. destruct Hq as [[? ?] Ho].
    split_and!; [done|done|]. rewrite <- Hopen. congruence. }
  assert (~ quiet) as Hnq.
  { intros (Ha & Hf & Ho). rewrite Ha, Hf in Hq. simpl in Hq. rewrite negb_false_iff in Hq. tauto. }
  destruct (Z.leb_spec (c_max_rounds c) (q_round_idx q)); [split; [done|left; unfold rounds_left; lia]|].
  pose proof (blocked_queue_spec issues) as Hb. fold stuck in Hb.
  pose proof (board_next_open_spec issues) as Hn.
  assert (forall P, P -> match
    (if blocked_queue issues then Finish (mk_Ending false (all_blocked issues)) else Assess) with
    | Work _ => False
    | Assess => P /\ ~ stuck
    | Finish (mk_Ending true _) => False
    | Finish (mk_Ending false _) => stuck
    end) as Hend.
  { intros P HP. destruct (blocked_queue issues); [tauto|].
    split; [done|]. intros Hs%Hb. done. }
  destruct (Z.leb_spec (issues_per_round c) (q_processed q)) as [Hp|Hp].
  - destruct (blocked_queue issues).
    + split; [done|]. right. tauto.
    + split_and!; [done|done|left; unfold room; lia|]. by intros ?%Hb.
  - destruct (board_next_open issues) as [i|]; [by destruct Hn as (? & ? & ?); split_and!|].
    destruct (blocked_queue issues).
    + split; [done|]. right. tauto.
    + split_and!; [done|done| |by intros ?%Hb]. right. intros (i & Hi & Ho). by apply (Hn i).
Qed.

(** ** The keys of a run's writes *)

Lemma kind_value_plain k : (46 ∉ kind_value k)%N /\ (47 ∉ kind_value k)%N.
Proof. destruct k; vm_compute; split; intros H; repeat (apply elem_of_cons in H as [?|H]; [done|]); by apply elem_of_nil in H. Qed.

Lemma kind_value_inj a b : kind_value a = kind_value b -> a = b.
Proof. by destruct a, b. Qed.

(** The key of a board change says which job recorded which fact: within a run, two changes
    share a key only when they are the same fact of the same job, so the tracker, which takes a
    key it already holds for a write that landed, never drops one job's write for another's. *)
Theorem change_keys_say_the_job (a b : Job) (what what' : pystr) :
  j_run_id a = j_run_id b -> 0 < j_sequence a -> 0 < j_sequence b ->
  job_change_key a what = job_change_key b what' ->
  j_kind a = j_kind b /\ j_sequence a = j_sequence b /\ what = what'.
Proof.
  unfold job_change_key, change_key. intros -> Ha Hb Heq%app_inv_head. injection Heq as Heq.
  change (py "/" ++ ?s) with (47%N :: s) in Heq.
  assert (forall k n, 0 < n -> (47 ∉ kind_value k ++ 46%N :: int_str n)%N) as Hscope.
  { intros k n Hn [H|[H|H]%elem_of_cons]%elem_of_app; [by apply kind_value_plain in H|done|].
    revert H. apply int_str_digits; lia. }
  apply separated_inj in Heq as [Hs ->]; [|by apply Hscope..].
  apply separated_inj in Hs as [Hk Hn]; [|apply kind_value_plain..].
  split_and!; [by apply kind_value_inj|apply int_str_inj; [lia..|done]|done].
Qed.

Lemma job_change_key_inj j what what' : job_change_key j what = job_change_key j what' -> what = what'.
Proof. unfold job_change_key, change_key. by intros Heq%app_inv_head%app_inv_head%app_inv_head%app_inv_head. Qed.

Lemma filed_text_inj scope i i' : filed_text scope i = filed_text scope i' -> i = i'.
Proof.
  unfold filed_text. intros Heq%app_inv_head%app_inv_head%app_inv_head%int_str_inj; lia.
Qed.

Lemma creates_key_at j filed author scope n key :
  map change_of_key (creates j filed author scope) !! n = Some key ->
  key = job_change_key j (filed_text scope n).
Proof.
  unfold creates. rewrite list_lookup_fmap, list_lookup_imap.
  destruct (filed !! n); simpl; congruence.
Qed.

Lemma creates_keys_distinct j filed author scope :
  NoDup (map change_of_key (creates j filed author scope)).
Proof.
  apply NoDup_alt. intros n n' key H%creates_key_at H'%creates_key_at. subst key.
  by apply job_change_key_inj, filed_text_inj in H'.
Qed.

(** The changes of every batch a job sends carry distinct keys, whatever the agents filed: the
    hypothesis under which the board's owner lands each change of an interrupted batch once. *)
Theorem batch_keys_distinct (dump : IssueJudgeResult -> pystr) (j : IssueJob) (p : PerfJob) (spent : Z)
    (reply : IssueJudgeResult) (found : list NewIssue) (payload : pystr) :
  NoDup (map change_of_key (w_changes (verdict dump j spent reply)))
  /\ NoDup (map change_of_key (w_changes (filing p found payload))).
Proof.
  split; [|apply creates_keys_distinct].
  simpl. apply NoDup_cons. split; [|apply creates_keys_distinct].
  intros (n & Hn)%list_elem_of_lookup. apply creates_key_at, job_change_key_inj in Hn. done.
Qed.

Definition example_revision (name : string) : RevisionRef := mk_RevisionRef (py name) (py "sha").
Definition example_queue_config : IssueQueueConfig := mk_IssueQueueConfig 2 2 1 (Some 2) 1 None.
Definition example_queue_job (kind : JobKind) (sequence : Z) : Job :=
  mk_Job kind sequence 1 (py "run") (example_revision "base") [] example_queue_config.

(** Two jobs of eleven, and a fact that looks like a sequence. *)
Lemma change_keys_say_the_job_witness :
  job_change_key (example_queue_job KIND_ISSUE 1) (py "attempt.1")
    <> job_change_key (example_queue_job KIND_ISSUE 11) (py "attempt.1")
  /\ (job_change_key (example_queue_job KIND_PERF 3) (py "filed.perf.0")
      = job_change_key (example_queue_job KIND_PERF 3) (py "filed.perf.0") ->
      py "filed.perf.0" = py "filed.perf.0").
Proof.
  split.
  - intros Heq. apply change_keys_say_the_job in Heq as (_ & Hs & _); [|reflexivity|reflexivity|reflexivity].
    discriminate Hs.
  - intros Heq. apply (change_keys_say_the_job (example_queue_job KIND_PERF 3) (example_queue_job KIND_PERF 3));
      [reflexivity|reflexivity|reflexivity|exact Heq].
Defined.
