(* ===== verification/QueueRuns.v ===== *)
(** What a run of the issue-queue search does, for any framework context: a context that records
    the events of a run, a small logic of what a flow emits (return, bind, retry and workspace
    rules), and the properties of whole runs proved with it: they end, stay inside the budget,
    settle every workspace, close an issue only on the judge's word and adopt the last candidate
    the framework retained. *)
From S2P Require Import Prelude Issues BoardOwner BoardTitle IssueQueue.

(** ** A context that records what a run does *)

Inductive Event :=
| E_Perform (r : OperationRequest) (out : Exit (Outcome + pystr))
| E_Open (j : Job) (budget : Z * Z) (out : Exit (unit + pystr))
| E_Implement (base : RevisionRef) (p : ImplementPrompt) (out : Exit (Turn IssueImplementerResult))
| E_Judge (revision : RevisionRef) (out : Exit (Turn IssueJudgeResult))
| E_Evaluate (base : RevisionRef) (p : PerfPrompt) (out : Exit (Turn IssuePerfEvalResult))
| E_Measure (revision : RevisionRef) (out : Exit unit)
| E_Settle (s : Settle) (kept : option Kept)
| E_Choose (choice : option Kept).

Definition logged {E A} (ev : Exit A -> Event) (m : Flow E A) : Flow (E * list Event) A :=
  fun '(x, t) => let '(out, x) := m x in (out, (x, t ++ [ev out])).

#[export] Instance recorded {E Ev} (ctx : FlowCtx E Ev) : FlowCtx (E * list Event) Ev := {|
  x_perform := fun r => logged (E_Perform r) (x_perform r);
  x_open := fun j b => logged (E_Open j b) (x_open j b);
  x_implementer := fun base p => logged (E_Implement base p) (x_implementer base p);
  x_judge := fun revision p => logged (E_Judge revision) (x_judge revision p);
  x_perf_evaluator := fun base p => logged (E_Evaluate base p) (x_perf_evaluator base p);
  x_evaluations := fun revision '(x, t) => let '(out, x) := x_evaluations revision x in (out, (x, t));
  x_measure := fun revision stage => logged (E_Measure revision) (x_measure revision stage);
  x_settle := fun s '(x, t) => let '(kept, x) := x_settle s x in (kept, (x, t ++ [E_Settle s kept]));
  x_stop_requested := fun '(x, _) => x_stop_requested x;
  x_publish := fun s '(x, t) => (x_publish s x, t);
  x_choose := fun choice '(x, t) => (x_choose choice x, t ++ [E_Choose choice])
|}.

(** ** What a flow emits *)

(** Every run of [m] adds to the record events that stand in [Q] with how [m] ended. *)
Definition emits {E A} (m : Flow (E * list Event) A) (Q : Exit A -> list Event -> Prop) : Prop :=
  forall x t, exists new x', m (x, t) = (fst (m (x, t)), (x', t ++ new)) /\ Q (fst (m (x, t))) new.

Section Emits.
Context {E : Type}.
Implicit Types (t new : list Event).

Lemma emits_mono {A} (m : Flow (E * list Event) A) (Q Q' : Exit A -> list Event -> Prop) :
  emits m Q -> (forall out new, Q out new -> Q' out new) -> emits m Q'.
Proof. intros H HQ x t. destruct (H x t) as (new & x' & ? & ?). exists new, x'. auto. Qed.

Lemma emits_ret {A} (a : A) (Q : Exit A -> list Event -> Prop) :
  Q (Done a) [] -> emits (E := E) (f_ret a) Q.
Proof. intros H x t. exists [], x. simpl. by rewrite app_nil_r. Qed.

Lemma emits_exit {A} (out : Exit A) (Q : Exit A -> list Event -> Prop) :
  Q out [] -> emits (E := E) (f_exit out) Q.
Proof. intros H x t. exists [], x. simpl. by rewrite app_nil_r. Qed.

Lemma emits_logged {A} (ev : Exit A -> Event) (m : Flow E A) (Q : Exit A -> list Event -> Prop) :
  (forall out, Q out [ev out]) -> emits (logged ev m) Q.
Proof. intros H x t. unfold logged. destruct (m x) as [out x']. by exists [ev out], x'. Qed.

Lemma emits_bind {A B} (m : Flow (E * list Event) A) (k : A -> Flow (E * list Event) B)
    (Q : Exit B -> list Event -> Prop) :
  emits m (fun out n1 =>
    match out with
    | Done a => emits (k a) (fun out n2 => Q out (n1 ++ n2))
    | Cut i => Q (Cut i) n1
    end) ->
  emits (f_bind m k) Q.
Proof.
  intros H x t. unfold f_bind. destruct (H x t) as (n1 & x1 & Hm & HQ). rewrite Hm.
  destruct (fst (m (x, t))) as [a|i]; [|by exists n1, x1].
  destruct (HQ x1 (t ++ n1)) as (n2 & x2 & Hk & HQ2). exists (n1 ++ n2), x2.
  by rewrite app_assoc.
Qed.

Lemma emits_catching {A} (m : Flow (E * list Event) A) handler (Q : Exit A -> list Event -> Prop) :
  emits m (fun out new => match out with Cut (JobEnded f) => Q (Done (handler f)) new | _ => Q out new end) ->
  emits (catching m handler) Q.
Proof.
  intros H x t. unfold catching. destruct (H x t) as (new & x' & Hm & HQ). rewrite Hm.
  exists new, x'. by destruct (fst (m (x, t))) as [a|[]].
Qed.

(** A step that only records events, before a flow. *)
Lemma emits_after {A} (g : E * list Event -> E * list Event) n1 (m : Flow (E * list Event) A)
    (Q : Exit A -> list Event -> Prop) :
  (forall x t, exists x', g (x, t) = (x', t ++ n1)) ->
  emits m (fun out n2 => Q out (n1 ++ n2)) -> emits (fun x => m (g x)) Q.
Proof.
  intros Hg H x t. destruct (Hg x t) as (x1 & ->). destruct (H x1 (t ++ n1)) as (n2 & x2 & Hm & HQ).
  exists (n1 ++ n2), x2. by rewrite app_assoc.
Qed.

Lemma emits_final {A} (a : A) (g : E * list Event -> E * list Event) n1 (Q : Exit A -> list Event -> Prop) :
  (forall x t, exists x', g (x, t) = (x', t ++ n1)) -> Q (Done a) n1 -> emits (fun x => (Done a, g x)) Q.
Proof. intros Hg H x t. destruct (Hg x t) as (x1 & ->). by exists n1, x1. Qed.

Lemma emits_if {A} (b : E * list Event -> bool) (m1 m2 : Flow (E * list Event) A)
    (Q : Exit A -> list Event -> Prop) :
  emits m1 Q -> emits m2 Q -> emits (fun x => if b x then m1 x else m2 x) Q.
Proof. intros H1 H2 x t. destruct (b (x, t)); auto. Qed.

Lemma emits_done {A} (a : A) (Q : Exit A -> list Event -> Prop) :
  Q (Done a) [] -> emits (E := E) (fun x => (Done a, x)) Q.
Proof. apply emits_ret. Qed.

(** The retry loop: an invariant of the reasons given so far, in a loop of [n] tries. *)
Lemma emits_retry_from {R V} (attempt : Z -> list R -> Flow (E * list Event) (V + R)) n
    (I : list R -> list Event -> Prop) (Q : Exit (V + list R) -> list Event -> Prop) left_ reasons pre :
  (left_ + length reasons)%nat = n -> I reasons pre ->
  (forall reasons pre, (length reasons < n)%nat -> I reasons pre ->
    emits (attempt (Z.of_nat (length reasons) + 1) reasons) (fun out new =>
      match out with
      | Done (inl v) => Q (Done (inl v)) (pre ++ new)
      | Done (inr reason) => I (reasons ++ [reason]) (pre ++ new)
      | Cut i => Q (Cut i) (pre ++ new)
      end)) ->
  (forall last pre, length last = n -> I last pre -> Q (Done (inr last)) pre) ->
  emits (retry_from attempt left_ reasons) (fun out new => Q out (pre ++ new)).
Proof.
  intros Hn HI Hstep Hend. revert reasons pre Hn HI.
  induction left_ as [|left_ IH]; intros reasons pre Hn HI; simpl.
  { apply emits_ret. rewrite app_nil_r. by apply Hend. }
  apply emits_bind. refine (emits_mono _ _ _ (Hstep reasons pre ltac:(lia) HI) _).
  intros [[v|reason]|i] new; [|simpl|done].
  { intros HQ. apply emits_ret. by rewrite app_nil_r. }
  intros HI'. refine (emits_mono _ _ _ (IH _ _ _ HI') _).
  - rewrite length_app. simpl. lia.
  - intros out n2. by rewrite app_assoc.
Qed.
End Emits.

(** The framework's answer when a workspace settles with [s]. *)
Definition settled {E Ev} {ctx : FlowCtx E Ev} (s : Settle) (kept : option Kept) : Prop :=
  exists x, fst (x_settle s x) = kept.

Definition interrupt_settle (i : Interrupt) : Settle :=
  match i with Stopped => PlainCancelled | _ => PlainFailed end.

Section Rules.
Context {E Ev : Type} (ctx : FlowCtx E Ev).

Lemma emits_holding {A B} j budget (unopened : pystr -> A) (body : Flow (E * list Event) B)
    (keep : B -> Settle) (k : B -> option Kept -> A) (Q : Exit A -> list Event -> Prop) :
  (forall i, Q (Cut i) [E_Open j budget (Cut i)]) ->
  (forall reason, Q (Done (unopened reason)) [E_Open j budget (Done (inr reason))]) ->
  emits body (fun out new => forall s kept,
    s = (match out with Done b => keep b | Cut i => interrupt_settle i end) -> settled s kept ->
    Q (match out with Done b => Done (k b kept) | Cut i => Cut i end)
      (E_Open j budget (Done (inl tt)) :: new ++ [E_Settle s kept])) ->
  emits (holding (ctx := recorded ctx) j budget unopened body keep k) Q.
Proof.
  intros Hcut Hun Hbody. unfold holding. apply emits_bind, emits_logged.
  intros [[[]|reason]|i]; [|by apply emits_ret|by apply Hcut].
  intros x t. destruct (Hbody x t) as (new & x1 & Hm & HQ). rewrite Hm.
  assert (forall s, settled s (fst (x_settle s x1))) as Hs by (intros s; by exists x1).
  destruct (fst (body (x, t))) as [b|i]; simpl.
  - specialize (HQ _ _ eq_refl (Hs (keep b))). destruct (x_settle (keep b) x1) as [kept x2].
    exists (new ++ [E_Settle (keep b) kept]), x2. simpl in *. by rewrite app_assoc.
  - change (match i with Stopped => PlainCancelled | _ => PlainFailed end) with (interrupt_settle i).
    specialize (HQ _ _ eq_refl (Hs (interrupt_settle i))).
    destruct (x_settle (interrupt_settle i) x1) as [kept x2].
    exists (new ++ [E_Settle (interrupt_settle i) kept]), x2. simpl in *. by rewrite app_assoc.
Qed.
End Rules.

(** ** The events of a flow's parts *)

Definition is_turn (e : Event) : bool :=
  match e with E_Implement _ _ _ | E_Judge _ _ | E_Evaluate _ _ _ => true | _ => false end.
Definition is_opening (e : Event) : bool := match e with E_Open _ _ _ => true | _ => false end.
Definition is_request (e : Event) : bool := match e with E_Perform _ _ => true | _ => false end.
(** What happens inside a workspace. *)
Definition is_work (e : Event) : bool := is_turn e || is_request e.

Definition count (p : Event -> bool) (l : list Event) : Z := Z.of_nat (length (List.filter p l)).

Lemma count_app p l l' : count p (l ++ l') = count p l + count p l'.
Proof. unfold count. rewrite List.filter_app, length_app. lia. Qed.
Lemma count_cons p e l : count p (e :: l) = (if p e then 1 else 0) + count p l.
Proof. unfold count. simpl. destruct (p e); simpl; lia. Qed.
Lemma count_nonneg p l : 0 <= count p l.
Proof. unfold count. lia. Qed.

Lemma count_none p q l :
  (forall e, q e = true -> p e = false) -> Forall (fun e => q e = true) l -> count p l = 0.
Proof. intros H. induction 1 as [|e l He _ IH]; [done|]. rewrite count_cons, (H e He), IH. done. Qed.

Lemma requests_are_work l :
  Forall (fun e => is_request e = true) l -> Forall (fun e => is_work e = true) l.
Proof. intros H. refine (Forall_impl _ _ _ H _). intros e He. unfold is_work. by rewrite He, orb_true_r. Qed.
Lemma requests_no_turns l : Forall (fun e => is_request e = true) l -> count is_turn l = 0.
Proof. apply count_none. by intros []. Qed.

Section Parts.
Context {E Ev : Type} (ctx : FlowCtx E Ev).
Context (dump_implementer : IssueImplementerResult -> pystr) (dump_judge : IssueJudgeResult -> pystr)
  (dump_perf : IssuePerfEvalResult -> pystr) (metrics_json : json -> pystr) (repr : pystr -> pystr).
#[local] Existing Instance recorded.

Lemma emits_perform c request doing :
  emits (perform (ctx := recorded ctx) c request doing) (fun out new =>
    Forall (fun e => exists o, e = E_Perform request o) new
    /\ forall o, out = Done (inl o) -> E_Perform request (Done (inl o)) ∈ new).
Proof.
  unfold perform. apply emits_bind.
  pose (P (out : Exit (Outcome + list pystr)) (new : list Event) :=
    Forall (fun e => exists o, e = E_Perform request o) new
    /\ forall o, out = Done (inl o) -> E_Perform request (Done (inl o)) ∈ new).
  refine (emits_mono _ P _ _ _).
  - unfold retry. change P with (fun out new => P out ([] ++ new)).
    apply (emits_retry_from _ (Z.to_nat (c_max_board_retries c + 1))
             (fun _ pre => Forall (fun e => exists o, e = E_Perform request o) pre)); [simpl; lia|done| |].
    + intros reasons pre _ Hpre. apply emits_logged. unfold P.
      assert (forall out, Forall (fun e => exists o, e = E_Perform request o) (pre ++ [E_Perform request out])) as Hall.
      { intros out. apply Forall_app. split; [done|]. repeat constructor. by exists out. }
      intros [[o|reason]|i]; split_and?; try done.
      intros o' [= <-]. apply elem_of_app. right. left.
    + intros last pre _ Hpre. by split.
  - intros [[o|reasons]|i] new [Hall Ho]; simpl.
    + apply emits_ret. rewrite app_nil_r. split; [done|]. intros o' [= <-]. by apply Ho.
    + destruct (last reasons); [apply emits_ret|apply emits_exit]; by rewrite app_nil_r.
    + done.
Qed.

(** The requests a step's writes send: its log entries and its batch. *)
Definition sends (w : Writes) (e : Event) : Prop :=
  exists r o, e = E_Perform r o
              /\ ((exists entry, r = Log entry) \/ w_changes w <> [] /\ r = ApplyIssueChanges (w_changes w)).

Lemma sends_requests w l : Forall (sends w) l -> Forall (fun e => is_request e = true) l.
Proof. intros H. refine (Forall_impl _ _ _ H _). by intros e (r & o & -> & _). Qed.

Lemma emits_log_all c logs :
  emits (log_all (ctx := recorded ctx) c logs) (fun _ new =>
    Forall (fun e => exists entry o, e = E_Perform (Log entry) o) new).
Proof.
  induction logs as [|entry logs IH]; simpl; [by apply emits_ret|].
  apply emits_bind. refine (emits_mono _ _ _ (emits_perform _ _ _) _). intros out n1 [H1 _].
  assert (Forall (fun e => exists entry o, e = E_Perform (Log entry) o) n1) as H1'.
  { refine (Forall_impl _ _ _ H1 _). intros e [o ->]. by exists entry, o. }
  destruct out as [o|i]; [|done].
  refine (emits_mono _ _ _ IH _). intros out n2 H2. by apply Forall_app.
Qed.

(** What a successful batch leaves in the record. *)
Definition applied_batch (w : Writes) (a : AppliedChanges) (new : list Event) : Prop :=
  w_changes w <> [] ->
  ac_status a = SUCCEEDED /\ E_Perform (ApplyIssueChanges (w_changes w)) (Done (inl (Applied_ a))) ∈ new.

Lemma emits_apply c w doing :
  emits (IssueQueue.apply (ctx := recorded ctx) repr c w doing) (fun out new =>
    Forall (sends w) new /\ forall a, out = Done (inl a) -> applied_batch w a new).
Proof.
  unfold IssueQueue.apply. apply emits_bind. refine (emits_mono _ _ _ (emits_log_all _ _) _).
  intros out n1 H1.
  assert (Forall (sends w) n1) as H1'.
  { refine (Forall_impl _ _ _ H1 _). intros e (entry & o & ->). exists (Log entry), o. eauto. }
  destruct out as [[]|i]; [|by split].
  unfold applied_batch. destruct (w_changes w) as [|change changes] eqn:Hw.
  { apply emits_ret. rewrite app_nil_r. by split. }
  apply emits_bind. refine (emits_mono _ _ _ (emits_perform _ _ _) _). intros out n2 [H2 Ho].
  assert (Forall (sends w) (n1 ++ n2)) as Hall.
  { apply Forall_app. split; [done|]. refine (Forall_impl _ _ _ H2 _).
    intros e [o ->]. eexists _, o. split; [done|]. right. by rewrite Hw. }
  destruct out as [[o|f]|i].
  - apply emits_ret. rewrite app_nil_r. split; [done|]. intros a Ha _.
    destruct o as [s l|a'|s]; [by destruct s| |done]. destruct a' as [[] results detail]; [|done..].
    injection Ha as <-. split; [done|]. apply elem_of_app. right. by apply Ho.
  - apply emits_ret. by rewrite app_nil_r.
  - by split.
Qed.

Lemma emits_write c w doing :
  emits (write (ctx := recorded ctx) repr c w doing) (fun out new =>
    Forall (sends w) new /\ forall a, out = Done a -> applied_batch w a new).
Proof.
  unfold write. apply emits_bind. refine (emits_mono _ _ _ (emits_apply _ _ _) _).
  intros [[a|f]|i] new [Hall Ha]; [apply emits_ret|apply emits_exit|]; rewrite ?app_nil_r.
  - split; [done|]. intros a' [= <-]. by apply Ha.
  - by split.
  - by split.
Qed.

(** *** An issue job *)

Definition is_implement (e : Event) : bool := match e with E_Implement _ _ _ => true | _ => false end.
(** No judge's turn in the record passed. *)
Definition not_passed (e : Event) : bool :=
  match e with
  | E_Judge _ (Done (TurnFinished reply _ _)) => negb (ju_pass reply)
  | _ => true
  end.

(** The request was performed and the board answered that it succeeded. *)
Definition written (new : list Event) (w : Writes) : Prop :=
  exists a, ac_status a = SUCCEEDED
            /\ E_Perform (ApplyIssueChanges (w_changes w)) (Done (inl (Applied_ a))) ∈ new.

(** The judge passed the revision in [invocation], and the board closed the issue on its word. *)
Definition passed (j : IssueJob) (new : list Event) (revision : RevisionRef) (invocation : pystr) : Prop :=
  exists number reply checkpoint,
    E_Judge revision (Done (TurnFinished reply checkpoint invocation)) ∈ new
    /\ ju_pass reply = true /\ written new (verdict dump_judge j number reply).

Lemma written_app n1 n2 w : written n2 w -> written (n1 ++ n2) w.
Proof. intros (a & ? & ?). exists a. split; [done|]. apply elem_of_app. by right. Qed.
Lemma passed_app j n1 n2 r i : passed j n2 r i -> passed j (n1 ++ n2) r i.
Proof.
  intros (n & reply & ck & H & Hp & Hw). exists n, reply, ck.
  split_and!; [apply elem_of_app; by right|done|by apply written_app].
Qed.
Lemma passed_app_l j n1 n2 r i : passed j n1 r i -> passed j (n1 ++ n2) r i.
Proof.
  intros (n & reply & ck & H & Hp & a & Ha & Hw). exists n, reply, ck.
  split_and!; [apply elem_of_app; by left|done|]. exists a. split; [done|]. apply elem_of_app. by left.
Qed.

Definition base_of (j : IssueJob) (candidate : option RevisionRef) : RevisionRef :=
  match candidate with Some r => r | None => j_base (ij_job j) end.

Lemma emits_implement j rejected :
  emits (implement (ctx := recorded ctx) j rejected) (fun out new =>
    exists base p turn, new = [E_Implement base p turn]).
Proof.
  unfold implement. apply emits_bind, emits_logged. intros [turn|i]; [|by eexists _, _, _].
  destruct turn as [reply checkpoint invocation|reason|name].
  - destruct (changed _ _); [apply emits_exit|apply emits_ret]; by eexists _, _, _.
  - apply emits_exit. by eexists _, _, _.
  - apply emits_exit. by eexists _, _, _.
Qed.

Lemma emits_review j made :
  emits (review (ctx := recorded ctx) j made) (fun out new =>
    match out with
    | Done judged => exists checkpoint,
        new = [E_Judge (base_of j (md_candidate made))
                 (Done (TurnFinished (jg_reply judged) checkpoint (jg_invocation judged)))]
    | Cut _ => new = [] \/ exists turn, new = [E_Judge (base_of j (md_candidate made)) turn]
    end).
Proof.
  unfold review. apply emits_bind. intros x t. simpl.
  destruct (x_evaluations _ x) as [[evaluations|i] x']; simpl; [|exists [], x'; rewrite app_nil_r; auto].
  exists [], x'. rewrite app_nil_r. split; [done|]. simpl. apply emits_bind, emits_logged.
  intros [turn|i]; [|right; by eexists]. destruct turn as [reply checkpoint invocation|reason|name].
  - apply emits_ret. rewrite app_nil_r. by exists checkpoint.
  - apply emits_exit. right. by eexists.
  - apply emits_exit. right. by eexists.
Qed.

Definition attempt_events (j : IssueJob) (out : Exit (Closing + Rejection)) (new : list Event) : Prop :=
  Forall (fun e => is_work e = true) new
  /\ match out with
     | Done (inl cl) =>
         count is_turn new = 2 /\ cl_closed cl = true /\ cl_failure cl = None
         /\ exists invocation, cl_judge cl = Some invocation
                               /\ passed j new (base_of j (cl_candidate cl)) invocation
     | Done (inr _) =>
         count is_turn new = 2 /\ count is_implement new = 1
         /\ Forall (fun e => not_passed e = true) new
     | Cut _ => count is_turn new <= 2
     end.

Lemma requests_not_passed l :
  Forall (fun e => is_request e = true) l -> Forall (fun e => not_passed e = true) l.
Proof. intros H. refine (Forall_impl _ _ _ H _). by intros []. Qed.
Lemma requests_no_implements l : Forall (fun e => is_request e = true) l -> count is_implement l = 0.
Proof. apply count_none. by intros []. Qed.

Lemma one_implement base p turn l :
  l = [E_Implement base p turn] ->
  count is_turn l = 1 /\ count is_implement l = 1 /\ Forall (fun e => is_work e = true) l
  /\ Forall (fun e => not_passed e = true) l.
Proof. intros ->. by split_and!; try repeat constructor. Qed.

Lemma emits_take_attempt j number reasons :
  emits (take_attempt (ctx := recorded ctx) dump_implementer dump_judge repr j number reasons)
    (attempt_events j).
Proof.
  unfold take_attempt. apply emits_bind. refine (emits_mono _ _ _ (emits_implement j _) _).
  intros [made|i] n1 (base & p & turn & (H1t & H1i & H1w & H1n)%one_implement);
    [|split; [done|lia]].
  apply emits_bind. refine (emits_mono _ _ _ (emits_write _ _ _) _). intros out n2 [H2%sends_requests _].
  pose proof (requests_no_turns _ H2) as H2t. pose proof (requests_are_work _ H2) as H2w.
  destruct out as [applied|i]; [|split; [by apply Forall_app|rewrite count_app; lia]].
  apply emits_bind. refine (emits_mono _ _ _ (emits_review j made) _). intros [judged|i] n3 H3.
  2:{ assert (Forall (fun e => is_work e = true) n3 /\ count is_turn n3 <= 1) as [H3w H3t].
      { destruct H3 as [->|[turn' ->]]; split; try done; by repeat constructor. }
      split; [|rewrite !count_app; lia]. apply Forall_app; split; [done|]. by apply Forall_app. }
  destruct H3 as [checkpoint ->].
  assert (forall l, Forall (fun e => is_request e = true) l ->
    forall e', is_turn e' = true ->
    Forall (fun e => is_work e = true) (n1 ++ n2 ++ [e'] ++ l)
    /\ count is_turn (n1 ++ n2 ++ [e'] ++ l) = 2) as Hall.
  { intros l Hl e' He'. split.
    - rewrite !Forall_app. split_and!; [done|done| |by apply requests_are_work].
      repeat constructor. unfold is_work. by rewrite He'.
    - rewrite !count_app, count_cons, He', (requests_no_turns l Hl). unfold count at 3. simpl. lia. }
  apply emits_bind. refine (emits_mono _ _ _ (emits_write _ _ _) _). intros out n4 [H4%sends_requests Hv].
  destruct (Hall n4 H4 (E_Judge (base_of j (md_candidate made))
    (Done (TurnFinished (jg_reply judged) checkpoint (jg_invocation judged)))) eq_refl) as [Hw Ht].
  destruct out as [filed|i]; [|by split; [|rewrite Ht]].
  apply emits_ret. rewrite app_nil_r. split; [done|].
  destruct (ju_pass (jg_reply judged)) eqn:Hpass.
  - split_and!; [done|done|done|]. exists (jg_invocation judged). split; [done|].
    apply passed_app, passed_app. exists number, (jg_reply judged), checkpoint. split_and!; [left|done|].
    destruct (Hv filed eq_refl ltac:(done)) as [Hs Hin]. exists filed. split; [done|]. by right.
  - split_and!; [done| |].
    + rewrite !count_app, count_cons, (requests_no_implements _ H2), (requests_no_implements _ H4).
      unfold count at 2. simpl. lia.
    + rewrite !Forall_app. split_and!; [done|by apply requests_not_passed| |by apply requests_not_passed].
      repeat constructor. simpl. by rewrite Hpass.
Qed.

(** How working an issue ends: closed on the judge's word, blocked after its attempts, or failed. *)
Definition issue_ended (j : IssueJob) (out : Exit Closing) (new : list Event) : Prop :=
  match out with
  | Done cl =>
      match cl_failure cl, cl_closed cl with
      | Some _, closed => closed = false
      | None, true =>
          exists invocation, cl_judge cl = Some invocation
                             /\ passed j new (base_of j (cl_candidate cl)) invocation
      | None, false =>
          count is_implement new = c_max_attempts_per_issue (j_config (ij_job j))
          /\ Forall (fun e => not_passed e = true) new /\ written new (block j)
      end
  | Cut i => forall f, i <> JobEnded f
  end.

Lemma emits_work_issue j :
  0 < c_max_attempts_per_issue (j_config (ij_job j)) ->
  emits (work_issue (ctx := recorded ctx) dump_implementer dump_judge repr j) (fun out new =>
    Forall (fun e => is_work e = true) new
    /\ count is_turn new <= 2 * c_max_attempts_per_issue (j_config (ij_job j))
    /\ issue_ended j out new).
Proof.
  set (attempts := c_max_attempts_per_issue _). intros Hattempts.
  unfold work_issue. apply emits_catching, emits_bind.
  refine (emits_mono _ _ _ (emits_write _ _ _) _). intros out n1 [H1%sends_requests _].
  pose proof (requests_no_turns _ H1) as H1t. pose proof (requests_are_work _ H1) as H1w.
  destruct out as [applied|[f| |e]]; [|split_and!; try done; lia..].
  apply emits_bind. fold attempts.
  pose (I (reasons : list Rejection) (pre : list Event) :=
    Forall (fun e => is_work e = true) pre
    /\ count is_turn pre = 2 * Z.of_nat (length reasons)
    /\ count is_implement pre = Z.of_nat (length reasons)
    /\ Forall (fun e => not_passed e = true) pre).
  pose (Q (out : Exit (Closing + list Rejection)) (pre : list Event) :=
    Forall (fun e => is_work e = true) pre /\ count is_turn pre <= 2 * attempts
    /\ match out with
       | Done (inl cl) =>
           cl_closed cl = true /\ cl_failure cl = None
           /\ exists invocation, cl_judge cl = Some invocation
                                 /\ passed j pre (base_of j (cl_candidate cl)) invocation
       | Done (inr _) =>
           count is_implement pre = attempts /\ Forall (fun e => not_passed e = true) pre
       | Cut _ => True
       end).
  refine (emits_mono _ (fun out new => Q out (n1 ++ new)) _ _ _).
  - unfold retry. apply (emits_retry_from _ (Z.to_nat attempts) I); [simpl; lia| | |].
    + split_and!; [done|by rewrite H1t|by rewrite requests_no_implements|by apply requests_not_passed].
    + intros reasons pre Hlt (Hw & Ht & Hi & Hn).
      refine (emits_mono _ _ _ (emits_take_attempt j _ _) _). intros out new [Hnw Hout].
      destruct out as [[cl|rejection]|i].
      * destruct Hout as (Hnt & Hcl & Hf & invocation & Hj & Hp).
        split_and!; [by apply Forall_app|rewrite count_app; lia|done|done|].
        exists invocation. split; [done|by apply passed_app].
      * destruct Hout as (Hnt & Hni & Hnn).
        split_and!; [by apply Forall_app| | |by apply Forall_app];
          rewrite count_app, length_app; simpl; lia.
      * split_and!; [by apply Forall_app|rewrite count_app; lia|done].
    + intros last pre Hlen (Hw & Ht & Hi & Hn). split_and!; [done|lia|lia|done].
  - intros [[cl|last]|i] n2 (Hw & Ht & Hend).
    + apply emits_ret. rewrite app_nil_r. split_and!; [done|done|].
      destruct Hend as (Hcl & Hf & Hp). unfold issue_ended. by rewrite Hcl, Hf.
    + destruct Hend as [Hi Hn]. apply emits_bind. refine (emits_mono _ _ _ (emits_write _ _ _) _).
      intros out n3 [H3%sends_requests Hv].
      assert (Forall (fun e => is_work e = true) (n1 ++ n2 ++ n3)
              /\ count is_turn (n1 ++ n2 ++ n3) <= 2 * attempts) as [Hw3 Ht3].
      { rewrite app_assoc. split; [apply Forall_app; by split; [|apply requests_are_work]|].
        rewrite count_app, (requests_no_turns _ H3). lia. }
      destruct out as [blocked|[f| |e]]; [|by split_and!..].
      apply emits_ret. rewrite app_nil_r. split_and!; [done|done|]. simpl. rewrite app_assoc.
      split_and!.
      * rewrite count_app, (requests_no_implements _ H3). fold attempts. lia.
      * apply Forall_app. by split; [|apply requests_not_passed].
      * apply written_app. destruct (Hv blocked eq_refl ltac:(done)) as [Hs Hin]. by exists blocked.
    + destruct i as [f| |e]; by split_and!.
Qed.

(** *** A performance evaluation *)

(** No batch in the record changes more than [cap] things. *)
Definition within_cap (cap : Z) (e : Event) : Prop :=
  match e with
  | E_Perform (ApplyIssueChanges changes) _ => Z.of_nat (length changes) <= cap
  | _ => True
  end.

(** A part of an evaluation that asks at most [turns] turns. *)
Definition evaluating (cap turns : Z) (new : list Event) : Prop :=
  Forall (fun e => is_work e = true) new /\ count is_turn new <= turns /\ Forall (within_cap cap) new.

Lemma evaluating_nil cap turns : 0 <= turns -> evaluating cap turns [].
Proof. by intros H. Qed.
Lemma evaluating_app cap turns turns' l l' :
  evaluating cap turns l -> evaluating cap turns' l' -> evaluating cap (turns + turns') (l ++ l').
Proof.
  intros (H1 & H2 & H3) (H1' & H2' & H3'). unfold evaluating. rewrite count_app.
  split_and!; [by apply Forall_app|lia|by apply Forall_app].
Qed.
Lemma evaluating_more cap turns turns' l : turns <= turns' -> evaluating cap turns l -> evaluating cap turns' l.
Proof. intros Hle (H1 & H2 & H3). unfold evaluating. split_and!; [done|lia|done]. Qed.

Lemma emits_ask j prompt cap :
  emits (ask (ctx := recorded ctx) j prompt) (fun _ new => evaluating cap 1 new).
Proof.
  assert (forall base p turn, evaluating cap 1 [E_Evaluate base p turn]) as H.
  { intros. by split_and!; [repeat constructor| |repeat constructor]. }
  unfold ask. apply emits_bind, emits_logged. intros [turn|i]; [|apply H].
  destruct turn; [apply emits_ret|apply emits_exit|apply emits_exit]; apply H.
Qed.

Lemma emits_assess j cap :
  emits (assess (ctx := recorded ctx) j) (fun out new =>
    evaluating cap 2 new
    /\ forall reply, out = Done reply -> over_cap (j_config (pj_job j)) reply = false).
Proof.
  unfold assess. apply emits_bind. refine (emits_mono _ _ _ (emits_ask _ _ cap) _).
  intros [reply|i] n1 H1; [|split; [by apply (evaluating_more cap 1)|done]].
  apply emits_bind. refine (emits_mono _ (fun _ n2 => evaluating cap 1 n2) _ _ _).
  { destruct (over_cap _ _); [apply emits_ask|by apply emits_ret, evaluating_nil]. }
  intros out n2 H2. pose proof (evaluating_app _ _ _ _ _ H1 H2) as H.
  destruct out as [reply'|i]; [|done].
  destruct (over_cap _ reply') eqn:Hover; [apply emits_exit|apply emits_ret]; rewrite app_nil_r.
  - done.
  - split; [done|]. by intros r [= <-].
Qed.

Lemma sent_within_cap w cap l :
  Z.of_nat (length (w_changes w)) <= cap -> Forall (sends w) l -> evaluating cap 0 l.
Proof.
  intros Hcap Hl. pose proof (sends_requests _ _ Hl) as Hr.
  split_and!; [by apply requests_are_work|by rewrite requests_no_turns|].
  refine (Forall_impl _ _ _ Hl _). by intros e (r & o & -> & [[entry ->]|[_ ->]]).
Qed.

Lemma creates_length j filed author scope : length (creates j filed author scope) = length filed.
Proof. unfold creates. apply length_imap. Qed.

Lemma emits_evaluate j :
  emits (evaluate (ctx := recorded ctx) dump_perf metrics_json repr j) (fun _ new =>
    evaluating (c_max_issues_per_perf_eval (j_config (pj_job j))) 2 new).
Proof.
  set (cap := c_max_issues_per_perf_eval _).
  unfold evaluate. apply emits_catching.
  refine (emits_mono _ (fun _ new => evaluating cap 2 new) _ _ _).
  2:{ by intros [d|[f| |e]] new H. }
  apply emits_bind. refine (emits_mono _ _ _ (emits_assess j cap) _).
  intros [reply|i] n1 [H1 Hover]; [|done]. specialize (Hover reply eq_refl).
  apply emits_bind. refine (emits_mono _ _ _ (emits_write _ _ _) _). intros out n2 [H2 _].
  apply (sent_within_cap _ cap) in H2.
  2:{ simpl. rewrite creates_length. unfold over_cap in Hover. fold cap in Hover. lia. }
  pose proof (evaluating_app _ _ _ _ _ H1 H2) as H.
  destruct out as [applied|i]; [|done]. unfold f_lift.
  destruct (perf_record _ _ _ _); simpl; [|by apply emits_bind, emits_exit; rewrite app_nil_r].
  apply emits_bind, emits_ret. apply emits_ret. by rewrite !app_nil_r.
Qed.

(** *** Jobs *)

(** The events of a job that was told [j]: its workspace opens, holds at most [turns] turns, and
    settles once. [Keep] says what an opened workspace's work, how it settled and what it retained
    have to do with how the job ended; an unopened one ends in [Refused]. *)
Definition job_events {A} (j : Job) (budget : Z * Z) (turns : Z) (Refused : Exit A -> Prop)
    (Keep : list Event -> Settle -> option Kept -> Exit A -> Prop) (out : Exit A) (new : list Event) :
    Prop :=
  (exists opened, new = [E_Open j budget opened] /\ opened <> Done (inl tt) /\ Refused out)
  \/ exists inner s kept,
       new = E_Open j budget (Done (inl tt)) :: inner ++ [E_Settle s kept]
       /\ Forall (fun e => is_work e = true) inner /\ count is_turn inner <= turns
       /\ settled (ctx := ctx) s kept /\ Keep inner s kept out.

(** What a workspace settles with [s], and how the job that held it ended, say of each other. *)
Definition issue_settled (j : IssueJob) (inner : list Event) (s : Settle) (kept : option Kept)
    (out : Exit JobDone) : Prop :=
  match out with
  | Done d =>
      jd_kept d = kept /\ jd_refunded d = false /\ jd_issue_id d = r_id (ij_issue j)
      /\ s = Asserted (if retained (jd_closing d) then cl_candidate (jd_closing d) else None)
               (assessment_of (jd_closing d))
      /\ issue_ended j (Done (jd_closing d)) inner
  | Cut i => s = interrupt_settle i /\ forall f, i <> JobEnded f
  end.

Lemma emits_issue_job j :
  0 < c_max_attempts_per_issue (j_config (ij_job j)) ->
  emits (issue_job (ctx := recorded ctx) dump_implementer dump_judge repr j)
    (job_events (ij_job j) (issue_job_budget j) (2 * c_max_attempts_per_issue (j_config (ij_job j)))
       (fun out =>
          match out with
          | Done d => jd_kept d = None /\ jd_refunded d = true /\ jd_failure d <> None /\ cl_closed (jd_closing d) = false
          | Cut _ => True
          end)
       (issue_settled j)).
Proof.
  intros Ha. unfold issue_job. apply emits_holding.
  - intros i. left. exists (Cut i). by split_and!.
  - intros reason. left. exists (Done (inr reason)). by split_and!.
  - refine (emits_mono _ _ _ (emits_work_issue j Ha) _). intros out new (Hw & Ht & Hend) s kept Hs Hk.
    right. exists new, s, kept. split_and!; [done|done|done|done|]. by destruct out.
Qed.

Definition perf_settled (s : Settle) (kept : option Kept) (out : Exit PerfDone) : Prop :=
  match out with
  | Done d => exists succeeded, s = Asserted None (mk_Assessment succeeded None false false)
  | Cut i => s = interrupt_settle i
  end.

Lemma emits_perf_job j :
  emits (perf_job (ctx := recorded ctx) dump_perf metrics_json repr j)
    (job_events (pj_job j) (perf_job_budget j) 2 (fun _ => True) (fun inner s kept out =>
       Forall (within_cap (c_max_issues_per_perf_eval (j_config (pj_job j)))) inner
       /\ perf_settled s kept out)).
Proof.
  unfold perf_job. apply emits_holding.
  - intros i. left. by exists (Cut i).
  - intros reason. left. by exists (Done (inr reason)).
  - refine (emits_mono _ _ _ (emits_evaluate j) _). intros out new (Hw & Ht & Hc) s kept Hs Hk.
    right. exists new, s, kept. split_and!; [done..|]. destruct out; [by eexists|done].
Qed.
End Parts.

(** ** The rounds *)

Definition kept_of (e : Event) : option Kept := match e with E_Settle _ kept => kept | _ => None end.
(** The candidate retained last. *)
Definition last_kept (l : list Event) : option Kept := last (omap kept_of l).

Definition choice_of (e : Event) : option (option Kept) :=
  match e with E_Choose choice => Some choice | _ => None end.
(** What the framework adopts: the last choice, and the input when there was none. *)
Definition adopted (l : list Event) : option Kept :=
  match last (omap choice_of l) with Some choice => choice | None => None end.

(** The openings and settlements of workspaces: [true] when one opens. *)
Definition slot_of (e : Event) : option bool :=
  match e with
  | E_Open _ _ (Done (inl tt)) => Some true
  | E_Settle _ _ => Some false
  | _ => None
  end.
(** Every workspace that opened settled, and before the next one opened. *)
Definition one_at_a_time (l : list Event) : Prop :=
  exists n, omap slot_of l = concat (replicate n [true; false]).

(** Each job is numbered by its place, and builds on the last candidate retained before it. *)
Definition builds_on_tip (baseline : RevisionRef) (l : list Event) : Prop :=
  forall l1 j budget out l2, l = l1 ++ E_Open j budget out :: l2 ->
    j_sequence j = count is_opening l1 + 1
    /\ j_base j = match last_kept l1 with Some tip => kept_revision tip | None => baseline end.

(** What core promises of a settlement: only a retaining assertion about a revision keeps a
    candidate, and that revision's (vs-core flows/_winner.py, [Kept.of]). *)
Definition keeps_asserted {E Ev} (ctx : FlowCtx E Ev) : Prop :=
  forall s kept, settled s (Some kept) ->
    exists a, s = Asserted (Some (kept_revision kept)) a /\ as_retains a = true.

Lemma last_kept_app l1 l2 :
  last_kept (l1 ++ l2) = match last_kept l2 with Some k => Some k | None => last_kept l1 end.
Proof. unfold last_kept. rewrite omap_app, last_app. done. Qed.

Lemma work_no_kept l : Forall (fun e => is_work e = true) l -> omap kept_of l = [].
Proof. induction 1 as [|[] l He _ IH]; by try done. Qed.
Lemma work_no_choice l : Forall (fun e => is_work e = true) l -> omap choice_of l = [].
Proof. induction 1 as [|[] l He _ IH]; by try done. Qed.
Lemma work_no_slot l : Forall (fun e => is_work e = true) l -> omap slot_of l = [].
Proof. induction 1 as [|[] l He _ IH]; by try done. Qed.
Lemma work_no_opening l : Forall (fun e => is_work e = true) l -> count is_opening l = 0.
Proof. apply count_none. by intros []. Qed.

Lemma one_at_a_time_app l1 l2 : one_at_a_time l1 -> one_at_a_time l2 -> one_at_a_time (l1 ++ l2).
Proof.
  intros [n Hn] [n' Hn']. exists (n + n')%nat.
  by rewrite omap_app, Hn, Hn', replicate_add, concat_app.
Qed.
Lemma no_slots_one_at_a_time l : omap slot_of l = [] -> one_at_a_time l.
Proof. by exists 0%nat. Qed.

(** The events of one job, in the record of a run. *)
Lemma job_events_record {E Ev} (ctx : FlowCtx E Ev) {A} j budget turns Refused Keep (out : Exit A) new :
  0 <= turns -> job_events ctx j budget turns Refused Keep out new ->
  count is_turn new <= turns /\ count is_opening new = 1 /\ one_at_a_time new
  /\ omap choice_of new = []
  /\ exists opened rest, new = E_Open j budget opened :: rest /\ count is_opening rest = 0.
Proof.
  intros Ht [(opened & -> & Ho & _)|(inner & s & kept & -> & Hw & Hturns & _ & _)].
  - split_and!; [done|done| |done|by exists opened, []].
    apply no_slots_one_at_a_time. by destruct opened as [[[]|]|].
  - split_and!.
    + rewrite count_cons, count_app, count_cons. unfold count at 2. simpl. lia.
    + rewrite count_cons, count_app, (work_no_opening _ Hw). done.
    + exists 1%nat. simpl. by rewrite omap_app, (work_no_slot _ Hw).
    + simpl. by rewrite omap_app, (work_no_choice _ Hw).
    + eexists _, _. split; [done|]. rewrite count_app, (work_no_opening _ Hw). done.
Qed.

Lemma builds_on_tip_job baseline l j budget opened rest :
  builds_on_tip baseline l ->
  j_sequence j = count is_opening l + 1 ->
  j_base j = match last_kept l with Some tip => kept_revision tip | None => baseline end ->
  count is_opening rest = 0 ->
  builds_on_tip baseline (l ++ E_Open j budget opened :: rest).
Proof.
  intros Hl Hs Hb Hrest l1 j' budget' out l2 Heq.
  apply app_eq_inv in Heq as [(k & -> & Hk)|(k & -> & Hk)].
  - destruct k as [|e k]; simplify_eq/=.
    + by rewrite app_nil_r in Hs, Hb.
    + by apply (Hl l1 j' budget' out k).
  - destruct k as [|e k]; simplify_eq/=; [by rewrite app_nil_r|].
    exfalso. rewrite count_app, count_cons in Hrest. simpl in Hrest.
    pose proof (count_nonneg is_opening k). pose proof (count_nonneg is_opening l2). lia.
Qed.

Lemma builds_on_tip_none baseline l rest :
  builds_on_tip baseline l -> count is_opening rest = 0 -> builds_on_tip baseline (l ++ rest).
Proof.
  intros Hl Hrest l1 j budget out l2 Heq.
  apply app_eq_inv in Heq as [(k & -> & Hk)|(k & -> & Hk)].
  - destruct k as [|e k]; [|injection Hk as <- ->; by apply (Hl l1 j budget out k)].
    simpl in Hk. subst rest. rewrite count_cons in Hrest. simpl in Hrest. pose proof (count_nonneg is_opening l2). lia.
  - rewrite Hk, count_app, count_cons in Hrest. simpl in Hrest.
    pose proof (count_nonneg is_opening k). pose proof (count_nonneg is_opening l2). lia.
Qed.

Lemma emits_task {E A} (wrap : A -> Folded) (m : Flow (E * list Event) A) (Q : Exit Folded -> list Event -> Prop) :
  emits m (fun out new =>
    Q (match out with
       | Done a => Done (wrap a) | Cut Stopped => Done TaskStopped | Cut i => Cut i
       end) new) ->
  emits (task wrap m) Q.
Proof.
  intros H x t. unfold task. destruct (H x t) as (new & x' & Hm & HQ). rewrite Hm.
  exists new, x'. by destruct (fst (m (x, t))) as [a|[]].
Qed.

Section Rounds.
Context {E Ev : Type} (ctx : FlowCtx E Ev).
Context (dump_implementer : IssueImplementerResult -> pystr) (dump_judge : IssueJudgeResult -> pystr)
  (dump_perf : IssuePerfEvalResult -> pystr) (metrics_json : json -> pystr) (repr : pystr -> pystr).
Context (run_id : pystr) (baseline : RevisionRef) (c : IssueQueueConfig).
Context (requires_accuracy_proof : bool) (accuracy_stage : option pystr).
Context (valid : valid_config c = true).

Abbreviation attempts := (c_max_attempts_per_issue c).
Abbreviation cap := (issues_per_round c).
Abbreviation max_turns := (c_max_rounds c * (cap * (2 * attempts) + 2)).

Lemma valid_bounds : 0 < c_max_rounds c /\ 0 < attempts /\ 0 < cap.
Proof.
  revert valid. unfold valid_config, positive_bound, issues_per_round.
  rewrite !andb_true_iff, !Z.ltb_lt.
  destruct (c_max_issues_per_round c) as [n|]; simpl; rewrite ?andb_true_iff, ?Z.ltb_lt; lia.
Qed.

Definition step_kind (step : Step) : JobKind := match step with Work _ => KIND_ISSUE | _ => KIND_PERF end.
Definition step_turns (step : Step) : Z := match step with Work _ => 2 * attempts | _ => 2 end.
Definition moved_tip (out : Exit Folded) : option Kept :=
  match out with Done (FoldIssue d) => jd_kept d | _ => None end.

Definition step_events (q : Queue) (issues : list IssueRow) (step : Step) (out : Exit Folded)
    (new : list Event) : Prop :=
  count is_turn new <= step_turns step /\ one_at_a_time new /\ omap choice_of new = []
  /\ (exists budget opened rest,
        new = E_Open (next_job run_id baseline c (step_kind step) q issues) budget opened :: rest
        /\ count is_opening rest = 0)
  /\ (keeps_asserted ctx -> moved_tip out = last_kept new)
  /\ match out with
     | Done (FoldIssue _) => exists i, step = Work i
     | Done (FoldPerf _) => step = Assess
     | _ => True
     end.

Lemma last_kept_job j budget inner s kept :
  Forall (fun e => is_work e = true) inner ->
  last_kept (E_Open j budget (Done (inl tt)) :: inner ++ [E_Settle s kept]) = kept.
Proof. intros Hw. unfold last_kept. simpl. rewrite omap_app, (work_no_kept _ Hw). by destruct kept. Qed.

Lemma plain_keeps_none i kept :
  keeps_asserted ctx -> settled (ctx := ctx) (interrupt_settle i) kept -> kept = None.
Proof. intros law H. destruct kept as [k|]; [|done]. apply law in H as (a & Ha & _). by destruct i. Qed.

Lemma emits_run_step q issues step :
  match step with Finish _ => False | _ => True end ->
  emits (run_step (ctx := recorded ctx) dump_implementer dump_judge dump_perf metrics_json repr
           run_id baseline c q issues step)
    (step_events q issues step).
Proof.
  destruct valid_bounds as (_ & Ha & _). assert (0 <= 2 * attempts) as Ht0 by lia.
  assert (0 <= 2) as Ht2 by lia. intros Hstep. unfold run_step, step_events. destruct step as [issue| |e]; [| |done].
  - apply emits_task. refine (emits_mono _ _ _ (emits_issue_job ctx dump_implementer dump_judge repr
      (mk_IssueJob (next_job run_id baseline c KIND_ISSUE q issues) issue) Ha) _). intros out new H.
    destruct (job_events_record _ _ _ _ _ _ _ _ Ht0 H) as (Ht & _ & Hone & Hch & opened & rest & Hn & Hr).
    split_and!; [exact Ht|done|done|by eexists _, opened, rest| |].
    + intros law. destruct H as [(opened' & -> & Ho & Href)|(inner & s & kept & -> & Hw & _ & Hs & Hk)].
      { destruct out as [d|[]]; [by destruct Href|done..]. }
      rewrite (last_kept_job _ _ _ _ _ Hw). destruct out as [d|i]; simpl in Hk.
      * exact (proj1 Hk).
      * destruct Hk as [-> _]. apply (plain_keeps_none _ _ law) in Hs. subst kept. by destruct i.
    + destruct out as [d|[]]; by try eexists.
  - apply emits_task. refine (emits_mono _ _ _ (emits_perf_job _ _ _ _ _) _). intros out new H.
    destruct (job_events_record _ _ _ _ _ _ _ _ Ht2 H) as (Ht & _ & Hone & Hch & opened & rest & Hn & Hr).
    split_and!; [exact Ht|done|done|by eexists _, opened, rest| |].
    + intros law. destruct H as [(opened' & -> & _)|(inner & s & kept & -> & Hw & _ & Hs & Hk)].
      { by destruct out as [d|[]]. }
      rewrite (last_kept_job _ _ _ _ _ Hw). destruct Hk as [_ Hk]. destruct out as [d|i]; simpl in Hk.
      * destruct Hk as [succeeded ->]. destruct kept as [k|]; [|done]. by apply law in Hs as (a & Ha' & _).
      * subst s. apply (plain_keeps_none _ _ law) in Hs. subst kept. by destruct i.
    + by destruct out as [d|[]].
Qed.

Lemma decide_room q issues :
  match decide_step q issues c with
  | Work _ => q_round_idx q < c_max_rounds c /\ q_processed q < cap
  | Assess => q_round_idx q < c_max_rounds c
  | Finish _ => True
  end.
Proof.
  unfold decide_step. destruct (q_assessed q && negb (q_filed q) && negb (has_open issues)); [done|].
  destruct (Z.leb_spec (c_max_rounds c) (q_round_idx q)); [done|].
  destruct (Z.leb_spec cap (q_processed q)); [|destruct (board_next_open issues); [done|]];
    by destruct (blocked_queue issues).
Qed.

(** The jobs and the turns that lie before the queue's place in its rounds. *)
Definition jobs_before (q : Queue) : Z := q_round_idx q * (cap + 1) + q_processed q.
Definition turns_before (q : Queue) : Z :=
  q_round_idx q * (cap * (2 * attempts) + 2) + q_processed q * (2 * attempts).

Definition sound (l : list Event) : Prop :=
  count is_opening l <= max_jobs c /\ count is_turn l <= max_turns /\ one_at_a_time l
  /\ (keeps_asserted ctx -> builds_on_tip baseline l).

Definition in_place (q : Queue) : Prop :=
  0 <= q_round_idx q <= c_max_rounds c /\ 0 <= q_processed q <= cap
  /\ (q_round_idx q = c_max_rounds c -> q_processed q = 0).

Definition holds (q : Queue) (l : list Event) : Prop :=
  sound l /\ in_place q /\ count is_opening l = q_jobs_started q
  /\ (keeps_asserted ctx -> q_tip q = last_kept l)
  /\ (active q = true -> q_jobs_started q <= jobs_before q /\ count is_turn l <= turns_before q).

Definition adopts_last (l : list Event) : Prop :=
  keeps_asserted ctx -> requires_accuracy_proof = false -> adopted l = last_kept l.

Lemma holds_new : holds new_queue [].
Proof.
  destruct valid_bounds as (Hr & Ha & Hc). unfold holds, sound, in_place, max_jobs, jobs_before, turns_before.
  simpl. unfold count. simpl. split_and!; try nia; try done; [by exists 0%nat|].
  intros _ l1 j b o l2 Heq. by destruct l1.
Qed.

(** What is left of a round covers one more of its [C] parts of [k], or its last part of [e]. *)
Lemma rounds_fit r R p C k e d :
  0 <= r < R -> 0 <= p <= C -> 0 <= k -> 0 <= e -> (p < C /\ d = k \/ d = e) ->
  r * (C * k + e) + p * k + d <= R * (C * k + e).
Proof.
  intros Hr Hp Hk He Hd.
  assert ((r + 1) * (C * k + e) <= R * (C * k + e)) by (apply Z.mul_le_mono_nonneg_r; nia).
  assert (p * k + d <= C * k + e); [|lia].
  destruct Hd as [[Hlt ->]| ->]; [assert ((p + 1) * k <= C * k)|assert (p * k <= C * k)];
    try (apply Z.mul_le_mono_nonneg_r; lia); lia.
Qed.

(** A job fits in the place the queue decided it from. *)
Lemma step_fits q issues :
  in_place q ->
  match decide_step q issues c with
  | Finish _ => True
  | step =>
      jobs_before q + 1 <= max_jobs c /\ turns_before q + step_turns step <= max_turns
  end.
Proof.
  destruct valid_bounds as (Hr & Ha & Hc). intros (Hround & Hproc & _).
  pose proof (decide_room q issues) as Hroom. unfold jobs_before, turns_before, max_jobs.
  set (r := q_round_idx q) in *. set (p := q_processed q) in *.
  pose proof (rounds_fit r (c_max_rounds c) p cap 1 1 1) as Hjobs.
  rewrite !Z.mul_1_r in Hjobs.
  destruct (decide_step q issues c); cbn [step_turns]; [| |done].
  - destruct Hroom. split; [apply Hjobs; lia|].
    apply rounds_fit; lia.
  - split; [apply Hjobs; lia|]. apply rounds_fit; lia.
Qed.

Lemma sound_step q issues l out new :
  holds q l -> active q = true ->
  match decide_step q issues c with Finish _ => False | _ => True end ->
  step_events q issues (decide_step q issues c) out new -> sound (l ++ new).
Proof.
  intros ((_ & _ & Hone & Hbuilds) & Hplace & Hjobs & Htip & Hact) Hactive Hstep
    (Hturns & Hone' & _ & (budget & opened & rest & -> & Hrest) & _).
  destruct (Hact Hactive) as [Hj Ht]. pose proof (step_fits q issues Hplace) as Hfits.
  assert (jobs_before q + 1 <= max_jobs c
          /\ turns_before q + step_turns (decide_step q issues c) <= max_turns) as [Hfj Hft].
  { by destruct (decide_step q issues c). }
  unfold sound. rewrite !count_app. split_and!.
  - rewrite count_cons. simpl. lia.
  - lia.
  - by apply one_at_a_time_app.
  - intros law. specialize (Hbuilds law). apply builds_on_tip_job; [done| | |done].
    + simpl. unfold next_sequence. lia.
    + simpl. unfold base. by rewrite (Htip law).
Qed.

Lemma in_place_folded q issues d :
  in_place q ->
  match d with
  | FoldIssue _ => exists i, decide_step q issues c = Work i
  | FoldPerf _ => decide_step q issues c = Assess
  | TaskStopped => True
  end ->
  in_place (folded (started q) d)
  /\ match d with
     | TaskStopped => active (folded (started q) d) = false
     | _ => jobs_before q + 1 <= jobs_before (folded (started q) d)
            /\ turns_before q + step_turns (decide_step q issues c) <= turns_before (folded (started q) d)
     end.
Proof.
  destruct valid_bounds as (Hr & Ha & Hc). intros (Hround & Hproc & Hlast) Hd.
  pose proof (decide_room q issues) as Hroom. unfold in_place, jobs_before, turns_before.
  destruct d as [d|d|]; simpl.
  - destruct Hd as [i Hi]. rewrite Hi in *. simpl. destruct Hroom. split_and!; lia.
  - rewrite Hd in *. cbn [step_turns]. pose proof (Z.mul_le_mono_nonneg_r (q_processed q) cap (2 * attempts)).
    split_and!; lia.
  - split; [done|]. unfold active. simpl. by rewrite andb_false_r.
Qed.

Lemma holds_step q issues l d new :
  holds q l -> active q = true ->
  match decide_step q issues c with Finish _ => False | _ => True end ->
  step_events q issues (decide_step q issues c) (Done d) new ->
  holds (folded (started q) d) (l ++ new).
Proof.
  intros Hq Hactive Hstep Hev. pose proof (sound_step _ _ _ _ _ Hq Hactive Hstep Hev) as Hsound.
  destruct Hq as (_ & Hplace & Hjobs & Htip & Hact). destruct (Hact Hactive) as [Hj Ht].
  destruct Hev as (Hturns & _ & _ & (budget & opened & rest & -> & Hrest) & Hmoved & Hd).
  destruct (in_place_folded q issues d Hplace) as [Hplace' Hbefore]; [by destruct d|].
  split_and!; [done|done| | |].
  - rewrite count_app, count_cons, Hrest, Hjobs. by destruct d.
  - intros law. rewrite last_kept_app, <- (Hmoved law), <- (Htip law).
    destruct d as [d| |]; [simpl; unfold or_else; by destruct (jd_kept d)|done..].
  - intros Hact'. rewrite count_app.
    destruct d as [d|d|]; [| |by rewrite Hbefore in Hact']; destruct Hbefore; simpl q_jobs_started; lia.
Qed.

Lemma adopted_app l1 l2 :
  adopted (l1 ++ l2) = match last (omap choice_of l2) with Some choice => choice | None => adopted l1 end.
Proof. unfold adopted. rewrite omap_app, last_app. by destruct (last (omap choice_of l2)). Qed.

(** Events that open, settle and choose nothing, after a record. *)
Lemma idle_after q l new :
  count is_opening new = 0 -> count is_turn new = 0 -> omap slot_of new = [] ->
  (sound l -> sound (l ++ new))
  /\ (last_kept new = None -> holds q l -> holds q (l ++ new))
  /\ (last_kept new = None -> omap choice_of new = [] -> adopts_last l -> adopts_last (l ++ new)).
Proof.
  intros Ho Ht Hs.
  assert (sound l -> sound (l ++ new)) as Hsound.
  { intros (H1 & H2 & H3 & H4). unfold sound. rewrite !count_app, Ho, Ht, !Z.add_0_r.
    split_and!; [done|done| |].
    - by apply one_at_a_time_app, no_slots_one_at_a_time.
    - intros law. by apply builds_on_tip_none; [apply H4|]. }
  split_and!; [done| |].
  - intros Hk (H1 & H2 & H3 & H4 & H5).
    refine (conj (Hsound H1) (conj H2 (conj _ (conj _ _)))).
    + by rewrite count_app, Ho, Z.add_0_r.
    + by rewrite last_kept_app, Hk.
    + by rewrite count_app, Ht, Z.add_0_r.
  - intros Hk Hch Ha law Hreq. by rewrite last_kept_app, adopted_app, Hk, Hch; apply Ha.
Qed.

Lemma requests_idle new :
  Forall (fun e => is_request e = true) new ->
  count is_opening new = 0 /\ count is_turn new = 0 /\ omap slot_of new = []
  /\ last_kept new = None /\ omap choice_of new = [].
Proof.
  intros H. pose proof (requests_are_work _ H) as Hw.
  split_and!; [by apply work_no_opening|by apply requests_no_turns|by apply work_no_slot| |by apply work_no_choice].
  unfold last_kept. by rewrite work_no_kept.
Qed.

(** What [name_tip] records. *)
Definition tip_choice (q : Queue) : list Event :=
  match q_tip q with
  | Some tip => if requires_accuracy_proof then [] else [E_Choose (Some tip)]
  | None => []
  end.

Lemma name_tip_records q x t :
  exists x', name_tip (ctx := recorded ctx) requires_accuracy_proof q (x, t) = (x', t ++ tip_choice q).
Proof.
  unfold name_tip, tip_choice.
  destruct (q_tip q); [destruct requires_accuracy_proof|]; eexists; simpl; rewrite ?app_nil_r; reflexivity.
Qed.

Lemma tip_choice_idle q :
  count is_opening (tip_choice q) = 0 /\ count is_turn (tip_choice q) = 0
  /\ omap slot_of (tip_choice q) = [] /\ last_kept (tip_choice q) = None.
Proof. unfold tip_choice. by destruct (q_tip q); [destruct requires_accuracy_proof|]. Qed.

(** Naming the tip after a job keeps the last choice on the last candidate. *)
Lemma adopts_step q q' issues step l new out :
  adopts_last l -> holds q' (l ++ new) -> step_events q issues step out new ->
  (keeps_asserted ctx -> q_tip q' = None -> last_kept l = None) ->
  adopts_last (l ++ new ++ tip_choice q').
Proof.
  intros Ha (_ & _ & _ & Htip & _) (_ & _ & Hch & _) Hnone law Hreq.
  rewrite app_assoc, adopted_app, last_kept_app, <- (Htip law).
  specialize (Hnone law). unfold tip_choice. destruct (q_tip q') as [tip|]; simpl; [by rewrite Hreq|].
  rewrite adopted_app, Hch. simpl. rewrite (Ha law Hreq). by apply Hnone.
Qed.

Lemma adopts_cut q issues step i l new :
  adopts_last l -> step_events q issues step (Cut i) new -> adopts_last (l ++ new).
Proof.
  intros Ha (_ & _ & Hch & _ & Hmoved & _) law Hreq.
  by rewrite adopted_app, last_kept_app, Hch, <- (Hmoved law); apply Ha.
Qed.

Lemma emits_read_board :
  emits (read_board (ctx := recorded ctx) repr c) (fun _ new => Forall (fun e => is_request e = true) new).
Proof.
  unfold read_board. apply emits_bind. refine (emits_mono _ _ _ (emits_perform _ _ _ _) _).
  intros out new [H _].
  assert (Forall (fun e => is_request e = true) new) as H'.
  { refine (Forall_impl _ _ _ H _). by intros e [o ->]. }
  destruct out; [|done]. apply emits_ret. by rewrite app_nil_r.
Qed.

(** How the rounds end from [q], in a record [l]. *)
Definition rounds_ended (fuel : nat) (q : Queue) (out : Exit (option (Queue * list IssueRow)))
    (l : list Event) : Prop :=
  sound l /\ adopts_last l
  /\ match out with
     | Done (Some (q', _)) => holds q' l /\ active q' = false
     | Done None => Z.of_nat fuel < max_jobs c - jobs_before q + (if active q then 2 else 1)
     | Cut _ => True
     end.

Lemma holds_ended q e l : holds q l -> holds (ended q e) l.
Proof. intros (H1 & H2 & H3 & H4 & H5). refine (conj H1 (conj H2 (conj H3 (conj H4 _)))). done. Qed.
Lemma holds_stopped q l : holds q l -> holds (stopped q) l.
Proof.
  intros (H1 & H2 & H3 & H4 & H5). refine (conj H1 (conj H2 (conj H3 (conj H4 _)))).
  unfold active. simpl. by rewrite andb_false_r.
Qed.

Lemma jobs_before_bound q : in_place q -> jobs_before q <= max_jobs c.
Proof.
  destruct valid_bounds as (Hr & Ha & Hc). intros (Hround & Hproc & Hlast). unfold jobs_before, max_jobs.
  destruct (decide (q_round_idx q = c_max_rounds c)) as [He|Hne]; [rewrite (Hlast He), He; lia|].
  pose proof (rounds_fit (q_round_idx q) (c_max_rounds c) (q_processed q) cap 1 1 1) as H.
  rewrite !Z.mul_1_r in H. lia.
Qed.

(** One job of the loop, and what its rest needs to end. *)
Lemma emits_job fuel q issues l :
  holds q l -> adopts_last l -> active q = true ->
  match decide_step q issues c with Finish _ => False | _ => True end ->
  (forall q' l', holds q' l' -> adopts_last l' ->
    emits (work_from (ctx := recorded ctx) dump_implementer dump_judge dump_perf metrics_json repr
             run_id baseline c requires_accuracy_proof fuel q' issues)
      (fun out new => rounds_ended fuel q' out (l' ++ new))) ->
  emits (do done <- run_step (ctx := recorded ctx) dump_implementer dump_judge dump_perf metrics_json
                      repr run_id baseline c q issues (decide_step q issues c) ;;
         fun x =>
           work_from (ctx := recorded ctx) dump_implementer dump_judge dump_perf metrics_json repr
             run_id baseline c requires_accuracy_proof fuel (folded (started q) done) issues
             (name_tip (ctx := recorded ctx) requires_accuracy_proof (folded (started q) done) x))
    (fun out new => rounds_ended (S fuel) q out (l ++ new)).
Proof.
  intros Hq Ha Hactive Hstep Hrest. apply emits_bind.
  refine (emits_mono _ _ _ (emits_run_step q issues _ Hstep) _). intros [d|i] new Hev.
  2:{ split_and!; [by apply (sound_step q issues _ (Cut i))|by apply (adopts_cut q issues (decide_step q issues c) i)|done]. }
  pose proof (holds_step q issues l d new Hq Hactive Hstep Hev) as Hq'.
  set (q' := folded (started q) d) in *.
  destruct (tip_choice_idle q') as (Hto & Htt & Hts & Htk).
  refine (emits_after _ (tip_choice q') _ _ (name_tip_records q') _).
  refine (emits_mono _ _ _ (Hrest q' ((l ++ new) ++ tip_choice q') _ _) _).
  - by apply (idle_after q' (l ++ new) (tip_choice q')).
  - rewrite <- app_assoc. apply (adopts_step q q' issues (decide_step q issues c) l new (Done d)); [done..|].
    intros law Hnone. destruct Hq as (_ & _ & _ & Htip & _). rewrite <- (Htip law).
    destruct Hq' as (_ & _ & _ & Htip' & _). clear -Hnone. subst q'.
    destruct d as [d|d|]; simpl in *; [|done..]. unfold or_else in Hnone. by destruct (jd_kept d).
  - intros out more (Hsound & Hadopts & Hend). rewrite <- !app_assoc in *. split_and!; [done|done|].
    destruct out as [[[q'' issues']|]|i]; [done| |done].
    assert (in_place q) as Hplace by apply Hq.
    destruct (in_place_folded q issues d Hplace) as [_ Hbefore].
    { destruct Hev as (_ & _ & _ & _ & _ & Hd). by destruct d. }
    fold q' in Hbefore. rewrite Hactive, Nat2Z.inj_succ.
    assert (jobs_before q' = jobs_before q \/ jobs_before q + 1 <= jobs_before q') as Hcase.
    { destruct d; [right; lia|right; lia|left; done]. }
    destruct d; [destruct (active q'); lia..|]. rewrite Hbefore in Hend. destruct Hcase; lia.
Qed.

Lemma emits_work_from fuel q issues l :
  holds q l -> adopts_last l ->
  emits (work_from (ctx := recorded ctx) dump_implementer dump_judge dump_perf metrics_json repr
           run_id baseline c requires_accuracy_proof fuel q issues)
    (fun out new => rounds_ended fuel q out (l ++ new)).
Proof.
  revert q issues l. induction fuel as [|fuel IH]; intros q issues l Hq Ha; simpl.
  { apply emits_ret. rewrite app_nil_r. split_and!; [apply Hq|done|].
    pose proof (jobs_before_bound q (proj1 (proj2 Hq))). destruct (active q); lia. }
  destruct (active q) eqn:Hactive; simpl.
  2:{ apply emits_done. rewrite app_nil_r. by split_and!; [apply Hq|..]. }
  apply emits_if.
  { apply emits_done. rewrite app_nil_r. split_and!; [apply Hq|done|by apply holds_stopped|].
    unfold active. simpl. by rewrite andb_false_r. }
  apply emits_bind. refine (emits_mono _ _ _ emits_read_board _). intros [[read|failure]|i] n1 Hn1;
    destruct (requests_idle _ Hn1) as (Ho & Ht & Hs & Hk & Hch);
    destruct (idle_after q l n1 Ho Ht Hs) as (Hsound & Hholds & Hadopts).
  - set (snap := snapshot_of q read (Some (decide_step q read c))).
    assert (forall x t, exists x', x_publish (FlowCtx := recorded ctx) snap (x, t) = (x', t ++ [])) as Hpub.
    { intros x t. eexists. simpl. by rewrite app_nil_r. }
    pose proof (emits_job fuel q read (l ++ n1) (Hholds Hk Hq) (Hadopts Hk Hch Ha) Hactive) as Hjob.
    destruct (decide_step q read c) as [issue| |ending] eqn:Hdecide.
    + refine (emits_after _ [] _ _ Hpub _). refine (emits_mono _ _ _ (Hjob I (fun q' l' => IH q' read l')) _).
      intros out new. by rewrite <- app_assoc.
    + refine (emits_after _ [] _ _ Hpub _). refine (emits_mono _ _ _ (Hjob I (fun q' l' => IH q' read l')) _).
      intros out new. by rewrite <- app_assoc.
    + refine (emits_after _ [] _ _ Hpub _).
      refine (emits_mono _ _ _ (IH (ended q ending) read (l ++ n1) _ _) _).
      * by apply holds_ended, Hholds.
      * by apply Hadopts.
      * intros out new (H1 & H2 & H3). rewrite <- app_assoc in *. split_and!; [done|done|].
        destruct out as [[[q' ?]|]|]; [done| |done]. rewrite Hactive. unfold active in H3. simpl in H3.
        unfold jobs_before in *. simpl in H3. lia.
  - apply emits_ret. rewrite app_nil_r.
    split_and!; [by apply Hsound, Hq|by apply Hadopts|by apply holds_ended, Hholds|by unfold active].
  - split_and!; [by apply Hsound, Hq|by apply Hadopts|done].
Qed.

Lemma emits_prove tip :
  emits (prove (ctx := recorded ctx) requires_accuracy_proof accuracy_stage tip) (fun _ new =>
    count is_opening new = 0 /\ count is_turn new = 0 /\ omap slot_of new = []
    /\ last_kept new = None /\ omap choice_of new = []).
Proof.
  unfold prove. destruct requires_accuracy_proof; [|by apply emits_ret]. simpl.
  destruct accuracy_stage; [by apply emits_logged|by apply emits_ret].
Qed.

Lemma emits_conclude q l :
  holds q l -> adopts_last l ->
  emits (conclude (ctx := recorded ctx) requires_accuracy_proof accuracy_stage q) (fun _ new =>
    sound (l ++ new) /\ adopts_last (l ++ new)).
Proof.
  intros Hq Ha. pose proof (proj1 Hq) as Hsound. destruct Hq as (_ & _ & _ & Htip & _).
  unfold conclude. destruct (q_stopping q); [apply emits_ret; by rewrite app_nil_r|].
  destruct (q_tip q) as [tip|].
  - apply emits_bind. refine (emits_mono _ _ _ (emits_prove tip) _). intros out new (Ho & Ht & Hs & Hk & Hch).
    destruct (idle_after q l new Ho Ht Hs) as (Hs' & _ & Ha'). destruct out as [[]|i]; [|by auto].
    apply (emits_final _ _ [E_Choose (Some tip)]); [by intros; eexists|]. rewrite app_assoc.
    destruct (idle_after q (l ++ new) [E_Choose (Some tip)]) as (Hs2 & _); [done..|].
    split; [auto|]. intros law _. rewrite adopted_app, !last_kept_app, Hk, <- (Htip law). done.
  - apply (emits_final _ _ [E_Choose None]); [by intros; eexists|].
    destruct (idle_after q l [E_Choose None]) as (Hs2 & _); [done..|].
    split; [auto|]. intros law _. rewrite adopted_app, last_kept_app, <- (Htip law). done.
Qed.

(** Every record of a run is sound, adopts the last candidate, and belongs to a run that ended. *)
Lemma emits_issue_queue fuel objective :
  emits (issue_queue (ctx := recorded ctx) dump_implementer dump_judge dump_perf metrics_json repr
           run_id baseline c requires_accuracy_proof accuracy_stage fuel objective)
    (fun out new => sound new /\ adopts_last new
       /\ (out = Done None -> Z.of_nat fuel < max_jobs c + 2)).
Proof.
  assert (adopts_last []) as Hnil by done. pose proof holds_new as Hnew.
  unfold issue_queue. cbv zeta. destruct (str_truthy (bootstrap_title objective)); simpl.
  2:{ apply emits_ret. split_and!; [apply Hnew|done|done]. }
  apply emits_bind. refine (emits_mono _ _ _ (emits_apply _ _ _ _ _) _). intros [filed|i] n1 [Hn1%sends_requests _];
    destruct (requests_idle _ Hn1) as (Ho & Ht & Hs & Hk & Hch);
    destruct (idle_after new_queue [] n1 Ho Ht Hs) as (Hsound & Hholds & Hadopts); simpl in Hsound, Hholds, Hadopts.
  2:{ split_and!; [by apply Hsound, Hnew|by apply Hadopts|done]. }
  set (q := match filed with inr _ => ended _ _ | inl _ => new_queue end).
  assert (holds q n1 /\ jobs_before q = 0) as [Hq Hj].
  { subst q. destruct filed; (split; [|done]); [|apply holds_ended]; by apply Hholds. }
  clearbody q. intros x t. unfold work_queue, f_bind.
  destruct (emits_work_from fuel q [] n1 Hq (Hadopts Hk Hch Hnil) x t) as (n2 & x2 & -> & Hs2 & Ha2 & Hend).
  destruct (fst (work_from _ _ _ _ _ _ _ _ _ _ _ _ _)) as [[[q' issues]|]|i].
  - simpl. destruct Hend as [Hq' _].
    destruct (emits_conclude q' (n1 ++ n2) Hq' Ha2 (x_publish (snapshot_of q' issues None) x2) (t ++ n2))
      as (n3 & x3 & Hc & Hs3 & Ha3).
    unfold f_bind. rewrite Hc. exists (n2 ++ n3), x3. rewrite <- !app_assoc in *.
    destruct (fst (conclude _ _ _ _)); by split_and!.
  - exists n2, x2. split_and!; [done|done|done|]. intros _. cbn [fst] in Hend. rewrite Hj in Hend. destruct (active q); lia.
  - destruct i as [f| |e]; [by exists n2, x2| |by exists n2, x2].
    unfold conclude. simpl. unfold f_bind, f_ret. by exists n2, x2.
Qed.
End Rounds.

(** ** Recording observes and changes nothing *)

Section Mirror.
Context {E Ev : Type} (ctx : FlowCtx E Ev).

(** [m'] runs as [m] does, whatever was recorded before. *)
Definition mirrors {A} (m' : Flow (E * list Event) A) (m : Flow E A) : Prop :=
  forall x t, exists t', m' (x, t) = (fst (m x), (snd (m x), t')).

Lemma mirrors_ret {A} (a : A) : mirrors (f_ret a) (f_ret a).
Proof. by intros x t; exists t. Qed.
Lemma mirrors_exit {A} (a : Exit A) : mirrors (f_exit a) (f_exit a).
Proof. by intros x t; exists t. Qed.
Lemma mirrors_logged {A} ev (m : Flow E A) : mirrors (logged ev m) m.
Proof. intros x t. unfold logged. destruct (m x). by eexists. Qed.

Lemma mirrors_bind {A B} m' (m : Flow E A) k' (k : A -> Flow E B) :
  mirrors m' m -> (forall a, mirrors (k' a) (k a)) -> mirrors (f_bind m' k') (f_bind m k).
Proof.
  intros Hm Hk x t. unfold f_bind. destruct (Hm x t) as [t' ->].
  destruct (m x) as [[a|i] x']; simpl; [apply Hk|by exists t'].
Qed.

Lemma mirrors_catching {A} m' (m : Flow E A) handler :
  mirrors m' m -> mirrors (catching m' handler) (catching m handler).
Proof.
  intros Hm x t. unfold catching. destruct (Hm x t) as [t' ->].
  destruct (m x) as [[a|[]] x']; by exists t'.
Qed.

Lemma mirrors_task {A} (wrap : A -> Folded) m' (m : Flow E A) :
  mirrors m' m -> mirrors (task wrap m') (task wrap m).
Proof.
  intros Hm x t. unfold task. destruct (Hm x t) as [t' ->].
  destruct (m x) as [[a|[]] x']; by exists t'.
Qed.

Lemma mirrors_retry_from {R V} attempt' (attempt : Z -> list R -> Flow E (V + R)) left_ reasons :
  (forall n reasons, mirrors (attempt' n reasons) (attempt n reasons)) ->
  mirrors (retry_from attempt' left_ reasons) (retry_from attempt left_ reasons).
Proof.
  intros H. revert reasons. induction left_ as [|left_ IH]; intros reasons; simpl; [apply mirrors_ret|].
  apply mirrors_bind; [apply H|]. intros [v|reason]; [apply mirrors_ret|apply IH].
Qed.

Lemma mirrors_holding {A B} j budget (unopened : pystr -> A) body' (body : Flow E B) keep
    (k : B -> option Kept -> A) :
  mirrors body' body ->
  mirrors (holding (ctx := recorded ctx) j budget unopened body' keep k)
    (holding (ctx := ctx) j budget unopened body keep k).
Proof.
  intros Hb. apply mirrors_bind; [apply mirrors_logged|]. intros [opened|reason]; [|apply mirrors_ret].
  intros x t. destruct (Hb x t) as [t' ->]. destruct (body x) as [[b|i] x']; simpl.
  - destruct (x_settle (keep b) x'). by eexists.
  - destruct (x_settle _ x'). by eexists.
Qed.

Context (dump_implementer : IssueImplementerResult -> pystr) (dump_judge : IssueJudgeResult -> pystr)
  (dump_perf : IssuePerfEvalResult -> pystr) (metrics_json : json -> pystr) (repr : pystr -> pystr).
Context (run_id : pystr) (baseline : RevisionRef) (c : IssueQueueConfig).
Context (requires_accuracy_proof : bool) (accuracy_stage : option pystr).

Ltac mirror := repeat first
  [ apply mirrors_ret | apply mirrors_exit | apply mirrors_logged | apply mirrors_retry_from; intros
  | apply mirrors_catching | apply mirrors_holding | apply mirrors_task
  | apply mirrors_bind; [|intros] | progress simpl
  | match goal with |- mirrors match ?x with _ => _ end _ => destruct x end ].

Lemma mirrors_perform cfg request doing :
  mirrors (perform (ctx := recorded ctx) cfg request doing) (perform (ctx := ctx) cfg request doing).
Proof. unfold perform, retry. mirror. Qed.

Lemma mirrors_apply cfg w doing :
  mirrors (IssueQueue.apply (ctx := recorded ctx) repr cfg w doing)
    (IssueQueue.apply (ctx := ctx) repr cfg w doing).
Proof.
  unfold IssueQueue.apply. apply mirrors_bind; [|intros; mirror; apply mirrors_perform].
  induction (w_logs w) as [|entry logs IH]; simpl; [apply mirrors_ret|].
  apply mirrors_bind; [apply mirrors_perform|by intros].
Qed.

Lemma mirrors_write cfg w doing :
  mirrors (write (ctx := recorded ctx) repr cfg w doing) (write (ctx := ctx) repr cfg w doing).
Proof. unfold write. apply mirrors_bind; [apply mirrors_apply|intros; mirror]. Qed.

Lemma mirrors_issue_job j :
  mirrors (issue_job (ctx := recorded ctx) dump_implementer dump_judge repr j)
    (issue_job (ctx := ctx) dump_implementer dump_judge repr j).
Proof.
  unfold issue_job, work_issue, take_attempt, implement, review, retry. mirror; try apply mirrors_write.
  intros x t. simpl. destruct (x_evaluations _ x). by eexists.
Qed.

Lemma mirrors_perf_job j :
  mirrors (perf_job (ctx := recorded ctx) dump_perf metrics_json repr j)
    (perf_job (ctx := ctx) dump_perf metrics_json repr j).
Proof.
  unfold perf_job, evaluate, assess, ask, f_lift. mirror; apply mirrors_write.
Qed.

Lemma mirrors_before {A} (g' : E * list Event -> E * list Event) g m' (m : Flow E A) :
  (forall x t, exists t', g' (x, t) = (g x, t')) -> mirrors m' m ->
  mirrors (fun x => m' (g' x)) (fun x => m (g x)).
Proof. intros Hg Hm x t. destruct (Hg x t) as [t' ->]. apply Hm. Qed.

Lemma mirrors_run_step q issues step :
  mirrors (run_step (ctx := recorded ctx) dump_implementer dump_judge dump_perf metrics_json repr
             run_id baseline c q issues step)
    (run_step (ctx := ctx) dump_implementer dump_judge dump_perf metrics_json repr
       run_id baseline c q issues step).
Proof.
  unfold run_step. destruct step; apply mirrors_task; [apply mirrors_issue_job|apply mirrors_perf_job..].
Qed.

Lemma mirrors_name_tip q x t :
  exists t', name_tip (ctx := recorded ctx) requires_accuracy_proof q (x, t)
             = (name_tip (ctx := ctx) requires_accuracy_proof q x, t').
Proof. unfold name_tip. destruct (q_tip q); [destruct requires_accuracy_proof|]; by eexists. Qed.

Lemma mirrors_work_from fuel q issues :
  mirrors (work_from (ctx := recorded ctx) dump_implementer dump_judge dump_perf metrics_json repr
             run_id baseline c requires_accuracy_proof fuel q issues)
    (work_from (ctx := ctx) dump_implementer dump_judge dump_perf metrics_json repr
       run_id baseline c requires_accuracy_proof fuel q issues).
Proof.
  revert q issues. induction fuel as [|fuel IH]; intros q issues; [apply mirrors_ret|].
  intros x t. simpl. destruct (active q); simpl; [|by exists t].
  destruct (x_stop_requested x); [by exists t|]. revert x t.
  apply (mirrors_bind _ (read_board (ctx := ctx) repr c)).
  { unfold read_board. apply mirrors_bind; [apply mirrors_perform|intros; apply mirrors_ret]. }
  intros [read|failure]; [|apply mirrors_ret]. cbv zeta.
  assert (forall s x t, exists t',
    x_publish (FlowCtx := recorded ctx) s (x, t) = (x_publish (FlowCtx := ctx) s x, t')) as Hpub by (by eexists).
  intros x t. simpl. destruct (decide_step q read c) as [issue| |ending]; [| |apply IH];
    revert x t; refine (mirrors_before _ _ _ (fun x => f_bind _ _ x) (Hpub _) _);
    (apply mirrors_bind; [apply mirrors_run_step|]); intros d; cbv zeta;
    by apply (mirrors_before _ _ _ _ (mirrors_name_tip _)).
Qed.

Lemma mirrors_conclude q :
  mirrors (conclude (ctx := recorded ctx) requires_accuracy_proof accuracy_stage q)
    (conclude (ctx := ctx) requires_accuracy_proof accuracy_stage q).
Proof.
  unfold conclude. destruct (q_stopping q); [apply mirrors_ret|].
  destruct (q_tip q) as [tip|]; [|intros x t; by eexists].
  apply mirrors_bind; [|intros _ x t; by eexists].
  unfold prove. destruct requires_accuracy_proof; [|apply mirrors_ret].
  destruct accuracy_stage; [apply mirrors_logged|apply mirrors_ret].
Qed.

Lemma mirrors_issue_queue fuel objective :
  mirrors (issue_queue (ctx := recorded ctx) dump_implementer dump_judge dump_perf metrics_json repr
             run_id baseline c requires_accuracy_proof accuracy_stage fuel objective)
    (issue_queue (ctx := ctx) dump_implementer dump_judge dump_perf metrics_json repr
       run_id baseline c requires_accuracy_proof accuracy_stage fuel objective).
Proof.
  unfold issue_queue. cbv zeta. destruct (str_truthy (bootstrap_title objective)); [|apply mirrors_ret].
  apply (mirrors_bind _ (IssueQueue.apply (ctx := ctx) repr c _ _)); [apply mirrors_apply|].
  intros filed x t. cbv zeta. set (q := match filed with inl _ => _ | inr _ => _ end).
  assert (mirrors (work_queue (ctx := recorded ctx) dump_implementer dump_judge dump_perf metrics_json repr
                     run_id baseline c requires_accuracy_proof fuel q)
            (work_queue (ctx := ctx) dump_implementer dump_judge dump_perf metrics_json repr
               run_id baseline c requires_accuracy_proof fuel q)) as Hwork.
  { unfold work_queue. apply mirrors_bind; [apply mirrors_work_from|].
    intros [[q' issues]|]; [|apply mirrors_ret]. intros y u. by eexists. }
  destruct (Hwork x t) as [t' ->].
  destruct (work_queue (ctx := ctx) _ _ _ _ _ _ _ _ _ _ _ x) as [[[q'|]|[]] x']; simpl;
    try (by exists t');
    (apply mirrors_bind; [apply mirrors_conclude|intros; apply mirrors_ret]).
Qed.
End Mirror.

(** ** Whole runs *)

Section Runs.
Context {E Ev : Type} (ctx : FlowCtx E Ev).
Context (dump_implementer : IssueImplementerResult -> pystr) (dump_judge : IssueJudgeResult -> pystr)
  (dump_perf : IssuePerfEvalResult -> pystr) (metrics_json : json -> pystr) (repr : pystr -> pystr).
Context (run_id : pystr) (baseline : RevisionRef) (c : IssueQueueConfig).
Context (requires_accuracy_proof : bool) (accuracy_stage : option pystr).

(** The events of a run of the search in the environment [x]. *)
Definition record_of_run (fuel : nat) (objective : pystr) (x : E) : list Event :=
  snd (snd (issue_queue (ctx := recorded ctx) dump_implementer dump_judge dump_perf metrics_json repr
              run_id baseline c requires_accuracy_proof accuracy_stage fuel objective (x, []))).

Lemma record_of_run_spec (valid : valid_config c = true) fuel objective x :
  sound ctx baseline c (record_of_run fuel objective x)
  /\ adopts_last ctx requires_accuracy_proof (record_of_run fuel objective x).
Proof.
  unfold record_of_run.
  destruct (emits_issue_queue ctx dump_implementer dump_judge dump_perf metrics_json repr run_id baseline c
    requires_accuracy_proof accuracy_stage valid fuel objective x []) as (new & x' & -> & H1 & H2 & _).
  simpl. by split.
Qed.

(** C11. Every run of the search ends, whatever the board, the agents and the framework answer: a
    loop bound of the configured jobs and two more passes is never reached, so the queue always
    decides an end (or an exception or a stop ends the run) within it. *)
Theorem run_ends (fuel : nat) (objective : pystr) (x : E) :
  valid_config c = true -> (Z.to_nat (max_jobs c) + 2 <= fuel)%nat ->
  fst (issue_queue (ctx := ctx) dump_implementer dump_judge dump_perf metrics_json repr run_id baseline c
         requires_accuracy_proof accuracy_stage fuel objective x) <> Done None.
Proof.
  intros valid Hfuel Hnone.
  destruct (mirrors_issue_queue ctx dump_implementer dump_judge dump_perf metrics_json repr run_id baseline c
    requires_accuracy_proof accuracy_stage fuel objective x []) as [t' Hmirror].
  destruct (emits_issue_queue ctx dump_implementer dump_judge dump_perf metrics_json repr run_id baseline c
    requires_accuracy_proof accuracy_stage valid fuel objective x []) as (new & x' & Hrun & _ & _ & Hend).
  rewrite Hmirror in Hend. specialize (Hend Hnone).
  destruct (valid_bounds c valid) as (Hr & Ha & Hc). unfold max_jobs in *. lia.
Qed.

(** C9. A run stays inside the budget its configuration states: it opens at most the budget's
    attempts, and the longest chain of exchanges for every turn it asks for fits in the budget's
    turns, whatever the agents answer and however the run ends. *)
Theorem run_within_budget (fuel : nat) (objective : pystr) (x : E) :
  valid_config c = true ->
  let events := record_of_run fuel objective x in
  let longest_chain := foldr Z.max 0 (map (fun r => turn_chain r.1 r.2) ROLES) in
  count is_opening events <= rb_attempts (budget c)
  /\ longest_chain * count is_turn events <= rb_turns (budget c).
Proof.
  intros valid. destruct (record_of_run_spec valid fuel objective x) as [(Hopen & Hturns & _) _].
  destruct (valid_bounds c valid) as (Hr & Ha & Hc). cbv zeta. split; [exact Hopen|].
  assert (longest : foldr Z.max 0 (map (fun r => turn_chain r.1 r.2) ROLES) = 4) by reflexivity.
  unfold budget. cbn [rb_turns]. rewrite longest. unfold MAX_SUBMISSIONS_PER_MEASUREMENT.
  rewrite <- Z.mul_assoc. apply Z.mul_le_mono_nonneg_l; [lia|].
  etransitivity; [exact Hturns|]. apply Z.mul_le_mono_nonneg_l; nia.
Qed.

(** C12. Workspaces are held one at a time and never leaked: in every run, however it ends (a
    result, a stop, an exception anywhere), each workspace that opened was settled exactly once,
    and before the next one opened. *)
Theorem workspaces_settle_in_turn (fuel : nat) (objective : pystr) (x : E) :
  valid_config c = true -> one_at_a_time (record_of_run fuel objective x).
Proof. intros valid. by destruct (record_of_run_spec valid fuel objective x) as [(_ & _ & H & _) _]. Qed.

(** C5. Closed issues build on one another and the last of them is what the run adopts: every job
    is numbered by its place and works on the candidate retained last before it (the baseline
    when there is none), and, when adoption needs no accuracy proof, the choice standing at the
    end names the candidate retained last, however the run ends. It rests on core's contract that
    only a retaining assertion keeps a candidate, and that assertion's. *)
Theorem last_kept_is_adopted (fuel : nat) (objective : pystr) (x : E) :
  valid_config c = true -> keeps_asserted ctx ->
  let events := record_of_run fuel objective x in
  builds_on_tip baseline events
  /\ (requires_accuracy_proof = false -> adopted events = last_kept events).
Proof.
  intros valid law. destruct (record_of_run_spec valid fuel objective x) as [(_ & _ & _ & H) Ha].
  split; [by apply H|by apply Ha].
Qed.

(** C4. A candidate is kept only on the judge's word about that very revision: whenever an issue
    job settles asserting a candidate, a judge turn of the job passed exactly that revision, the
    assertion vouches with that turn, and the board had recorded the issue closed. The same of a
    closing without a candidate: a job closes its issue only when a judge turn of it passed what is
    then kept, or the revision the job began with when the implementer changed nothing, and the board
    recorded that verdict. A job that ends without a failure and without closing has blocked its issue
    after all its attempts, none of them passed. No job asks for more than two turns an attempt. *)
Theorem kept_on_the_judges_word (j : IssueJob) (x : E) :
  0 < c_max_attempts_per_issue (j_config (ij_job j)) ->
  let '(out, (_, events)) :=
    issue_job (ctx := recorded ctx) dump_implementer dump_judge repr j (x, []) in
  (forall revision a kept, E_Settle (Asserted (Some revision) a) kept ∈ events ->
     exists invocation, as_vouched a = Some (invocation, revision)
                        /\ passed dump_judge j events revision invocation)
  /\ match out with
     | Done d =>
         (cl_closed (jd_closing d) = true ->
          jd_failure d = None
          /\ exists invocation, cl_judge (jd_closing d) = Some invocation
               /\ passed dump_judge j events (base_of j (cl_candidate (jd_closing d))) invocation)
         /\ (jd_failure d = None -> cl_closed (jd_closing d) = false ->
             count is_implement events = c_max_attempts_per_issue (j_config (ij_job j))
             /\ Forall (fun e => not_passed e = true) events /\ written events (block j))
     | Cut _ => True
     end
  /\ count is_turn events <= 2 * c_max_attempts_per_issue (j_config (ij_job j)).
Proof.
  intros Ha.
  destruct (emits_issue_job ctx dump_implementer dump_judge repr j Ha x []) as (new & x' & -> & Hev).
  set (out := fst _) in *. clearbody out. simpl.
  destruct Hev as [(opened & -> & Ho & Href)|(inner & s & kept & -> & Hw & Ht & Hs & Hk)].
  - split_and!; [by intros r a k Hin; apply list_elem_of_singleton in Hin| |unfold count; simpl; lia].
    destruct out as [d|i]; [|done]. destruct Href as (_ & _ & ? & Hc). split; [congruence|done].
  - split_and!.
    + intros r a k Hin.
      assert (s = Asserted (Some r) a) as ->.
      { apply elem_of_cons in Hin as [Hin|Hin]; [done|].
        apply elem_of_app in Hin as [Hin|Hin%list_elem_of_singleton]; [|by injection Hin].
        exfalso. apply (proj1 (Forall_forall _ _) Hw) in Hin. done. }
      destruct out as [d|i]; simpl in Hk; [|by destruct Hk as [Hk _]; destruct i].
      destruct Hk as (_ & _ & _ & Hset & Hend). injection Hset as Hrev Hass.
      destruct (jd_closing d) as [closed candidate judge failure]. unfold retained in Hrev. simpl in *.
      unfold assessment_of in Hrev, Hass. simpl in *.
      destruct failure, closed, candidate as [r'|], judge as [invocation|]; simplify_eq/=.
      destruct Hend as (invocation' & [= <-] & Hp). exists invocation. split; [done|].
      by apply (passed_app _ _ [_]), passed_app_l.
    + destruct out as [d|i]; [|done]. destruct Hk as (_ & _ & _ & _ & Hend). unfold issue_ended, jd_failure in *. split.
      * intros Hcl. rewrite Hcl in Hend. destruct (cl_failure (jd_closing d)); [done|]. split; [done|].
        destruct Hend as (invocation & Hj & Hp). exists invocation. split; [done|].
        by apply (passed_app _ _ [_]), passed_app_l.
      * intros Hf Hcl. rewrite Hf, Hcl in Hend. destruct Hend as (Hi & Hn & Hb). split_and!.
        -- rewrite count_cons, count_app, Hi. unfold count. simpl. lia.
        -- apply Forall_cons. split; [done|]. apply Forall_app. split; [done|by repeat constructor].
        -- apply (written_app [_]). destruct Hb as (applied & Hok & Hin). exists applied.
           split; [done|]. apply elem_of_app. by left.
    + rewrite count_cons, count_app. unfold count at 2. simpl. lia.
Qed.
(** Every reply of the evaluator names more issues than the cap. *)
Definition names_too_many (cfg : IssueQueueConfig) : Prop :=
  forall base p x, exists reply checkpoint invocation x',
    x_perf_evaluator (FlowCtx := ctx) base p x = (Done (TurnFinished reply checkpoint invocation), x')
    /\ over_cap cfg reply = true.

Lemma emits_ask_over j prompt :
  names_too_many (j_config (pj_job j)) ->
  emits (ask (ctx := recorded ctx) j prompt) (fun out _ =>
    exists reply, out = Done reply /\ over_cap (j_config (pj_job j)) reply = true).
Proof.
  intros H x t. unfold ask, f_bind. simpl. unfold logged.
  destruct (H (j_base (pj_job j)) prompt x) as (reply & checkpoint & invocation & x' & -> & Hover).
  simpl. eexists _, x'. split; [done|]. by exists reply.
Qed.

Lemma emits_evaluate_over j :
  names_too_many (j_config (pj_job j)) ->
  emits (evaluate (ctx := recorded ctx) dump_perf metrics_json repr j) (fun out _ =>
    exists d, out = Done d /\ pd_record d = None /\ pd_failure d <> None).
Proof.
  intros H. unfold evaluate. apply emits_catching, emits_bind. unfold assess. apply emits_bind.
  refine (emits_mono _ _ _ (emits_ask_over j _ H) _). intros out n1 (reply & -> & Hover).
  apply emits_bind. rewrite Hover.
  refine (emits_mono _ _ _ (emits_ask_over j _ H) _). intros out n2 (reply' & -> & Hover').
  rewrite Hover'. apply emits_exit. by eexists.
Qed.

(** A performance evaluation never files more issues than the configured cap, and asks at most
    twice. An evaluator that names too many is asked once to correct itself; when it does not, the
    evaluation fails and files nothing (the surplus is not dropped, as the configuration's
    documentation says). *)
Lemma evaluations_stay_within_cap (j : PerfJob) (x : E) :
  let '(out, (_, events)) :=
    perf_job (ctx := recorded ctx) dump_perf metrics_json repr j (x, []) in
  Forall (within_cap (c_max_issues_per_perf_eval (j_config (pj_job j)))) events
  /\ count is_turn events <= 2
  /\ (names_too_many (j_config (pj_job j)) ->
      match out with Done d => pd_record d = None /\ pd_failure d <> None | Cut _ => True end).
Proof.
  destruct (emits_perf_job ctx dump_perf metrics_json repr j x []) as (new & x' & Hrun & Hev).
  assert (names_too_many (j_config (pj_job j)) ->
    match fst (perf_job (ctx := recorded ctx) dump_perf metrics_json repr j (x, [])) with
    | Done d => pd_record d = None /\ pd_failure d <> None
    | Cut _ => True
    end) as Hover.
  { intros H.
    pose (Q (out : Exit PerfDone) (_ : list Event) :=
      match out with Done d => pd_record d = None /\ pd_failure d <> None | Cut _ => True end).
    assert (emits (perf_job (ctx := recorded ctx) dump_perf metrics_json repr j) Q) as Hq.
    { apply emits_holding; [done|done|]. refine (emits_mono _ _ _ (emits_evaluate_over j H) _).
      by intros out n (d & -> & Hd) s kept _ _. }
    by destruct (Hq x []) as (n & x2 & _ & HQ). }
  rewrite Hrun. simpl.
  destruct (job_events_record ctx _ _ 2 _ _ _ _ ltac:(done) Hev) as (Ht & _).
  split_and!; [|done|done].
  destruct Hev as [(opened & -> & _)|(inner & s & kept & -> & _ & _ & _ & Hc & _)]; [by repeat constructor|].
  apply Forall_cons. split; [done|]. apply Forall_app. split; [done|by repeat constructor].
Qed.
End Runs.

(** ** An example: one issue, closed at its second attempt *)

(** The board's issue, and the attempts made at it. *)
Record ExampleWorld := mk_ExampleWorld { w_status : IssueStatus; w_attempts : Z }.

Definition example_row (w : ExampleWorld) : IssueRow :=
  mk_IssueRow 1 FEATURE (w_status w) (py "the task") [] (w_attempts w) (py "loop") 1.

Definition example_change (w : ExampleWorld) (change : IssueChange) : ExampleWorld :=
  match change with
  | SetIssueStatus _ _ status _ _ _ _ => mk_ExampleWorld status (w_attempts w)
  | RecordAttempt _ _ _ _ _ _ => mk_ExampleWorld (w_status w) (w_attempts w + 1)
  | CreateIssue _ _ _ _ _ _ => w
  end.

Definition example_perform (r : OperationRequest) : Flow ExampleWorld (Outcome + pystr) := fun w =>
  match r with
  | ReadBoard => (Done (inl (BoardSnapshot SUCCEEDED [example_row w])), w)
  | ApplyIssueChanges changes =>
      (Done (inl (Applied_ (mk_AppliedChanges SUCCEEDED [] None))), foldl example_change w changes)
  | Log _ => (Done (inl (LoggedProgress SUCCEEDED)), w)
  end.

Definition example_kept (s : Settle) : option Kept :=
  match s with
  | Asserted (Some revision) a => if as_retains a then Some (mk_Kept revision) else None
  | _ => None
  end.

#[local] Instance example_ctx : FlowCtx ExampleWorld unit := {|
  x_perform := example_perform;
  x_open := fun _ _ => f_ret (inl tt);
  x_implementer := fun _ _ =>
    f_ret (TurnFinished (mk_IssueImplementerResult (py "done") [] []) (Some (Retained (example_revision "v1")))
             (py "turn"));
  x_judge := fun _ _ w =>
    (Done (TurnFinished (mk_IssueJudgeResult (py "analysis") [] (1 <? w_attempts w) []) None (py "judge")), w);
  x_perf_evaluator := fun _ _ =>
    f_ret (TurnFinished (mk_IssuePerfEvalResult false JNull [] None None (Some IMPROVED) None) None (py "perf"));
  x_evaluations := fun _ => f_ret [];
  x_measure := fun _ _ => f_ret tt;
  x_settle := fun s w => (example_kept s, w);
  x_stop_requested := fun _ => false;
  x_publish := fun _ w => w;
  x_choose := fun _ w => w
|}.

Lemma example_keeps_asserted : keeps_asserted example_ctx.
Proof.
  intros s kept [x Hx]. simpl in Hx. destruct s as [[revision|] a| |]; simpl in Hx; try discriminate.
  destruct (as_retains a) eqn:Ha; [|discriminate]. exists a. injection Hx as <-. split; [reflexivity|exact Ha].
Defined.

Definition example_world : ExampleWorld := mk_ExampleWorld OPEN 0.
Definition example_fuel : nat := Z.to_nat (max_jobs example_queue_config) + 2.
Definition example_record : list Event :=
  record_of_run example_ctx im_summary ju_analysis (fun _ => []) (fun _ => []) id (py "run")
    (example_revision "base") example_queue_config false None example_fuel (py "the task") example_world.

Lemma run_ends_witness :
  fst (issue_queue (ctx := example_ctx) im_summary ju_analysis (fun _ => []) (fun _ => []) id (py "run")
         (example_revision "base") example_queue_config false None example_fuel (py "the task") example_world)
    <> Done None
  /\ fst (issue_queue (ctx := example_ctx) im_summary ju_analysis (fun _ => []) (fun _ => []) id (py "run")
         (example_revision "base") example_queue_config false None example_fuel (py "the task") example_world)
     = Done (Some None).
Proof.
  split; [|vm_compute; reflexivity].
  apply run_ends; [vm_compute; reflexivity|apply le_n].
Defined.

Lemma run_within_budget_witness :
  count is_opening example_record = 2 /\ count is_turn example_record = 5
  /\ count is_opening example_record <= rb_attempts (budget example_queue_config).
Proof.
  split; [vm_compute; reflexivity|]. split; [vm_compute; reflexivity|].
  apply (run_within_budget example_ctx im_summary ju_analysis (fun _ => []) (fun _ => []) id (py "run")
    (example_revision "base") example_queue_config false None example_fuel (py "the task") example_world).
  vm_compute. reflexivity.
Defined.

Lemma workspaces_settle_in_turn_witness :
  omap slot_of example_record = [true; false; true; false] /\ one_at_a_time example_record.
Proof.
  split; [vm_compute; reflexivity|].
  apply (workspaces_settle_in_turn example_ctx). vm_compute. reflexivity.
Defined.

Lemma last_kept_is_adopted_witness :
  adopted example_record = last_kept example_record
  /\ last_kept example_record = Some (mk_Kept (example_revision "v1")).
Proof.
  split; [|vm_compute; reflexivity].
  apply (last_kept_is_adopted example_ctx im_summary ju_analysis (fun _ => []) (fun _ => []) id (py "run")
    (example_revision "base") example_queue_config false None example_fuel (py "the task") example_world);
    [vm_compute; reflexivity|exact example_keeps_asserted|reflexivity].
Defined.

Lemma kept_on_the_judges_word_witness :
  let j := mk_IssueJob (example_queue_job KIND_ISSUE 1) (example_row example_world) in
  let events := snd (snd (issue_job (ctx := recorded example_ctx) im_summary ju_analysis id j (example_world, []))) in
  passed ju_analysis j events (example_revision "v1") (py "judge").
Proof.
  cbv zeta.
  pose proof (kept_on_the_judges_word example_ctx im_summary ju_analysis id
    (mk_IssueJob (example_queue_job KIND_ISSUE 1) (example_row example_world)) example_world eq_refl) as H.
  destruct (issue_job _ _ _ _ _) as [out [w events]] eqn:Hrun. simpl.
  destruct H as [H _]. specialize (H (example_revision "v1")
    (assessment_of (mk_Closing true (Some (example_revision "v1")) (Some (py "judge")) None))
    (Some (mk_Kept (example_revision "v1")))).
  destruct H as (invocation & Hv & Hp).
  - vm_compute in Hrun. injection Hrun as _ _ <-.
    repeat (first [apply list_elem_of_here | apply list_elem_of_further]).
  - vm_compute in Hv. injection Hv as <-. exact Hp.
Defined.
