(* ===== verification/CoreValues.v ===== *)
(** The values of vs-core (src/libs/vs-core, types/): identities, limits, commands and their
    receipts, the run, the attempts, the request ledger, the jobs and the scheduling state, with
    the fields the scheduling area and its proofs read, and what an area answers ([AreaChange]).
    Identities of different domains are different classes in the code; here each is the text of
    its [root], and the fields say which domain they hold. *)
From S2P Require Import Prelude Floats.

(** ** Identities and references (types/common.py) *)

Abbreviation RunId := pystr.
Abbreviation AttemptId := pystr.
Abbreviation ItemId := pystr.
Abbreviation SessionId := pystr.
Abbreviation DecisionId := pystr.
Abbreviation RequestId := pystr.
Abbreviation PoolId := pystr.
Abbreviation ResourceId := pystr.
Abbreviation ContinuationId := pystr.
Abbreviation SettlementId := pystr.
Abbreviation ChargeId := pystr.
(** [Seconds]: a finite binary64 number of at least zero. *)
Abbreviation Seconds := float.

Inductive Owner := RunOwner (run_id : RunId) | AttemptOwner (attempt_id : AttemptId).
#[export] Instance Owner_eq_dec : EqDecision Owner.
Proof. solve_decision. Defined.

Record Scope := mk_Scope { sc_owner : Owner; sc_generation : Z }.
#[export] Instance Scope_eq_dec : EqDecision Scope.
Proof. solve_decision. Defined.

Record AttemptRef := mk_AttemptRef { ar_attempt_id : AttemptId; ar_generation : Z }.
#[export] Instance AttemptRef_eq_dec : EqDecision AttemptRef.
Proof. solve_decision. Defined.

Record RevisionRef := mk_RevisionRef { rv_revision_id : pystr; rv_digest : pystr }.
#[export] Instance RevisionRef_eq_dec : EqDecision RevisionRef.
Proof. solve_decision. Defined.

Record SchemaRef := mk_SchemaRef { sr_name : pystr; sr_version : Z }.
#[export] Instance SchemaRef_eq_dec : EqDecision SchemaRef.
Proof. solve_decision. Defined.

Inductive LifecycleClass := QUERY | IDEMPOTENT_WRITE | OWNED_JOB | SESSION_TURN.
#[export] Instance LifecycleClass_eq_dec : EqDecision LifecycleClass.
Proof. solve_decision. Defined.

Record OperationSchemaRef := mk_OperationSchemaRef {
  os_kind : pystr;
  os_request_schema : SchemaRef;
  os_outcome_schema : SchemaRef;
  os_lifecycle : LifecycleClass
}.
#[export] Instance OperationSchemaRef_eq_dec : EqDecision OperationSchemaRef.
Proof. solve_decision. Defined.

Inductive OperationNormalizationKind := NORM_NONE | SCOPE_REOPEN.
#[export] Instance OperationNormalizationKind_eq_dec : EqDecision OperationNormalizationKind.
Proof. solve_decision. Defined.

Inductive RevisionAuthority := RA_NONE | RA_SNAPSHOT | RA_RETAIN | RA_RESTORE | RA_DISCARD.
#[export] Instance RevisionAuthority_eq_dec : EqDecision RevisionAuthority.
Proof. solve_decision. Defined.

(** A descriptor is a schema reference ([od_schema]) with its declarations. *)
Record OperationDescriptor := mk_OperationDescriptor {
  od_schema : OperationSchemaRef;
  od_normalization : OperationNormalizationKind;
  od_inspect : bool;
  od_cancel : bool;
  od_watch : bool;
  od_resource_pool : option PoolId;
  od_revision_authority : RevisionAuthority
}.
#[export] Instance OperationDescriptor_eq_dec : EqDecision OperationDescriptor.
Proof. solve_decision. Defined.

Record InvocationRef := mk_InvocationRef {
  iv_session_id : SessionId;
  iv_invocation_id : pystr;
  iv_generation : Z
}.
#[export] Instance InvocationRef_eq_dec : EqDecision InvocationRef.
Proof. solve_decision. Defined.

Record OperationRef := mk_OperationRef { or_operation_id : pystr; or_generation : Z }.
#[export] Instance OperationRef_eq_dec : EqDecision OperationRef.
Proof. solve_decision. Defined.

Record ScopeReopenNormalization := mk_ScopeReopenNormalization {
  sn_attempt : AttemptRef;
  sn_continuation_id : ContinuationId;
  sn_park_authority : RequestId;
  sn_resolved_cancelled_jobs : list ResourceId
}.
#[export] Instance ScopeReopenNormalization_eq_dec : EqDecision ScopeReopenNormalization.
Proof. solve_decision. Defined.

(** [OperationWire]: the schema and the canonical payload text. *)
Record OperationWire := mk_OperationWire { ow_schema_ref : OperationSchemaRef; ow_payload_json : pystr }.
#[export] Instance OperationWire_eq_dec : EqDecision OperationWire.
Proof. solve_decision. Defined.

Inductive ObservationStatus :=
| OBS_SUCCEEDED | OBS_PENDING | OBS_CANCELLED | OBS_REJECTED | OBS_FAILED | OBS_UNKNOWN.
#[export] Instance ObservationStatus_eq_dec : EqDecision ObservationStatus.
Proof. solve_decision. Defined.

(** [RETRYABLE_FAILURES]. *)
Definition retryable_failure (s : ObservationStatus) : bool :=
  match s with OBS_FAILED | OBS_REJECTED | OBS_CANCELLED => true | _ => false end.

(** A child manifest is its canonical text. *)
Record Observation := mk_Observation {
  ob_event_id : pystr;
  ob_request_id : RequestId;
  ob_scope : Scope;
  ob_sequence : Z;
  ob_observed_at : Seconds;
  ob_status : ObservationStatus;
  ob_resource_id : option ResourceId;
  ob_revision : option RevisionRef;
  ob_accepted : bool;
  ob_terminal : bool;
  ob_released : bool;
  ob_children : list ResourceId;
  ob_children_complete : bool;
  ob_child_manifest : option pystr;
  ob_admission_id : option DecisionId;
  ob_diagnostic : pystr
}.
#[export] Instance Observation_eta : Eta Observation := fun o =>
  mk_Observation (ob_event_id o) (ob_request_id o) (ob_scope o) (ob_sequence o) (ob_observed_at o)
    (ob_status o) (ob_resource_id o) (ob_revision o) (ob_accepted o) (ob_terminal o) (ob_released o)
    (ob_children o) (ob_children_complete o) (ob_child_manifest o) (ob_admission_id o) (ob_diagnostic o).

(** Equality of values compares times as numbers: zero is one number, with or without a sign. *)
Definition same_time (x : Seconds) : Seconds := if f_eq x f_zero then f_zero else x.
#[export] Instance float_eq_dec : EqDecision float.
Proof. solve_decision. Defined.
#[export] Instance Observation_eq_dec : EqDecision Observation.
Proof. solve_decision. Defined.
Definition comparable (o : Observation) : Observation :=
  o <| ob_observed_at := same_time (ob_observed_at o) |>.
Definition obs_eqb (a b : Observation) : bool := bool_decide (comparable a = comparable b).

(** [Observation.retryable]: not run and not final, so the request goes out again. *)
Definition retryable (o : Observation) : bool := negb (ob_terminal o) && retryable_failure (ob_status o).

Inductive RunStatus := RUNNING | PAUSED | CLOSING | TERMINAL | BLOCKED.
#[export] Instance RunStatus_eq_dec : EqDecision RunStatus.
Proof. solve_decision. Defined.

Inductive RejectionCode :=
| STALE_VIEW | IDENTITY_CONFLICT | UNKNOWN_KIND | UNKNOWN_SCHEMA | UNDECLARED_OPERATION
| CAPABILITY | OWNERSHIP | GENERATION | CLOSED_SCOPE | BUDGET | DEPENDENCY | EVIDENCE
| ALREADY_SETTLED | NOT_IMPLEMENTED_IN_KERNEL.

Inductive CompletionStatus := COMPLETED_OK | COMPLETED_FAILED | COMPLETED_CANCELLED.
#[export] Instance CompletionStatus_eq_dec : EqDecision CompletionStatus.
Proof. solve_decision. Defined.

(** [ContractValidationError(path, detail)], a [ValueError]. *)
Definition ContractValidationError (path detail : string) : exn :=
  ValueError "{}: {}" [AStr (py path); AStr (py detail)].

(** [ContractError(path, detail)], a [ValueError] whose path is written dotted. *)
Definition ContractError (path detail : string) : exn :=
  ValueError "{}: {}" [AStr (py path); AStr (py detail)].

(** ** Charges, budgets and workspaces (types/common.py, types/attempts.py) *)

Inductive ChargeKind := ADMISSION | ATTEMPT | TURN.
#[export] Instance ChargeKind_eq_dec : EqDecision ChargeKind.
Proof. solve_decision. Defined.

Record ChargeReceipt := mk_ChargeReceipt {
  cg_charge_id : ChargeId;
  cg_kind : ChargeKind;
  cg_charged : Z;
  cg_refunded : Z;
  cg_refund_sources : list RequestId;
  cg_historical_proof : option pystr
}.

(** [ChargeReceipt.bounded_refund]. *)
Definition bounded_refund (c : ChargeReceipt) : result ChargeReceipt :=
  raise (ContractValidationError "refunded" "exceeds charged amount")
    when (cg_charged c <? cg_refunded c) in
  raise (ContractValidationError "refunded" "TURN charges never refund")
    when (bool_decide (cg_kind c = TURN) && negb (cg_refunded c =? 0)) in
  raise (ContractValidationError "refund_sources" "duplicate refund authority")
    when (negb (nodupb (cg_refund_sources c))) in
  Ok c.

Inductive WorkspaceMode := EXCLUSIVE_ROOT | ISOLATED_CHILD | READ_ONLY_REVISION.
#[export] Instance WorkspaceMode_eq_dec : EqDecision WorkspaceMode.
Proof. solve_decision. Defined.

Record WorkspacePlan := mk_WorkspacePlan {
  wp_mode : WorkspaceMode;
  wp_base : RevisionRef;
  wp_parked_predecessor : option AttemptRef
}.
#[export] Instance WorkspacePlan_eq_dec : EqDecision WorkspacePlan.
Proof. solve_decision. Defined.

Record AttemptBudget := mk_AttemptBudget {
  ab_admission_charge : Z;
  ab_paid_invocation_limit : Z;
  ab_refund_limit : Z
}.
#[export] Instance AttemptBudget_eq_dec : EqDecision AttemptBudget.
Proof. solve_decision. Defined.

(** A session specification: its identity, and the rest of it (which only the sessions area reads)
    as its canonical text. *)
Record SessionSpec := mk_SessionSpec { sp_session_id : SessionId; sp_body : pystr }.
#[export] Instance SessionSpec_eq_dec : EqDecision SessionSpec.
Proof. solve_decision. Defined.

Inductive AttemptPhase :=
| PH_QUEUED | PH_ACQUIRING | PH_ACTIVE | PH_CLOSING | PH_TERMINAL | PH_PARKED | PH_BLOCKED.
#[export] Instance AttemptPhase_eq_dec : EqDecision AttemptPhase.
Proof. solve_decision. Defined.

Inductive Disposition := PARK | CANCEL | SETTLE.
#[export] Instance Disposition_eq_dec : EqDecision Disposition.
Proof. solve_decision. Defined.

Record AttemptClosure := mk_AttemptClosure {
  cl_disposition : Disposition;
  cl_requested_at : Seconds;
  cl_authority : RequestId;
  cl_admission_id : DecisionId
}.

Inductive DependencyKind := DK_SESSION | DK_JOB | DK_WORKSPACE | DK_OPERATION | DK_REQUEST.
#[export] Instance DependencyKind_eq_dec : EqDecision DependencyKind.
Proof. solve_decision. Defined.
(** The kind of a [ReleaseDependency] says the domain of its identity. *)
Record ReleaseDependency := mk_ReleaseDependency { rd_kind : DependencyKind; rd_identity : pystr }.
#[export] Instance ReleaseDependency_eq_dec : EqDecision ReleaseDependency.
Proof. solve_decision. Defined.

(** [AttemptView] with the fields admission reads; its checkpoints by the revision each retained. *)
Record AttemptView := mk_AttemptView {
  at_attempt_id : AttemptId;
  at_item_id : ItemId;
  at_generation : Z;
  at_phase : AttemptPhase;
  at_workspace : WorkspacePlan;
  at_budget : AttemptBudget;
  at_admission_id : option DecisionId;
  at_closure : option AttemptClosure;
  at_checkpoints : list RevisionRef;
  at_charges : list ChargeReceipt;
  at_parent : option AttemptRef;
  at_pending_records : list RequestId;
  at_sessions : list SessionId;
  at_release_dependencies : list ReleaseDependency
}.
#[export] Instance AttemptView_eta : Eta AttemptView := fun a =>
  mk_AttemptView (at_attempt_id a) (at_item_id a) (at_generation a) (at_phase a) (at_workspace a)
    (at_budget a) (at_admission_id a) (at_closure a) (at_checkpoints a) (at_charges a) (at_parent a)
    (at_pending_records a) (at_sessions a) (at_release_dependencies a).

Definition attempt_ref (a : AttemptView) : AttemptRef := mk_AttemptRef (at_attempt_id a) (at_generation a).
Definition attempt_scope (a : AttemptView) : Scope :=
  mk_Scope (AttemptOwner (at_attempt_id a)) (at_generation a).
(** [AttemptView.checkpoint]: the latest retained revision. *)
Definition checkpoint (a : AttemptView) : option RevisionRef := last_opt (at_checkpoints a).

(** ** Results, commands and their receipts (types/settlement.py, types/strategy.py, types/kernel.py) *)

Inductive Selection :=
| RetainedCandidate (settlement_id : SettlementId) (revision : RevisionRef)
| TrustedBaseline (revision : RevisionRef).
#[export] Instance Selection_eq_dec : EqDecision Selection.
Proof. solve_decision. Defined.

Inductive RunOutcome := R_SUCCESS | R_FAILURE | R_BLOCKED | R_CANCELLED.
#[export] Instance RunOutcome_eq_dec : EqDecision RunOutcome.
Proof. solve_decision. Defined.

Record RunResultProposal := mk_RunResultProposal {
  rp_outcome : RunOutcome;
  rp_reason : pystr;
  rp_selection : option Selection
}.
#[export] Instance RunResultProposal_eq_dec : EqDecision RunResultProposal.
Proof. solve_decision. Defined.

Record StartAttempt := mk_StartAttempt {
  sa_decision_id : DecisionId;
  sa_scope : Scope;
  sa_attempt_id : AttemptId;
  sa_item_id : ItemId;
  sa_workspace : WorkspacePlan;
  sa_budget : AttemptBudget;
  sa_initial_sessions : list SessionSpec
}.
#[export] Instance StartAttempt_eq_dec : EqDecision StartAttempt.
Proof. solve_decision. Defined.

Inductive StopMode := DRAIN | CANCEL_STOP.
#[export] Instance StopMode_eq_dec : EqDecision StopMode.
Proof. solve_decision. Defined.

Record Finish := mk_Finish {
  fi_decision_id : DecisionId;
  fi_scope : Scope;
  fi_mode : StopMode;
  fi_result : RunResultProposal
}.
#[export] Instance Finish_eq_dec : EqDecision Finish.
Proof. solve_decision. Defined.

(** A registered operation: the library's payload as its kind, its text and whether every value in
    it is immutable, with the normalization of a reopening and the proofs its codec left. *)
Record Operation := mk_Operation {
  op_decision_id : DecisionId;
  op_scope : Scope;
  op_request_kind : pystr;
  op_request_body : pystr;
  op_deeply_immutable : bool;
  op_normalized_scope_reopen : option ScopeReopenNormalization;
  op_registered_wire : option OperationWire;
  op_registered_scope_reopen : option ScopeReopenNormalization
}.
#[export] Instance Operation_eq_dec : EqDecision Operation.
Proof. solve_decision. Defined.

(** The target and the disposition of a withdrawal; a disposition other than [Cancel] is its text. *)
Inductive WithdrawTarget :=
| W_Attempt (target : AttemptRef)
| W_Invocation (target : InvocationRef)
| W_Operation (target : OperationRef).
#[export] Instance WithdrawTarget_eq_dec : EqDecision WithdrawTarget.
Proof. solve_decision. Defined.
Inductive WithdrawDisposition := W_Cancel | W_Other (disposition : pystr).
#[export] Instance WithdrawDisposition_eq_dec : EqDecision WithdrawDisposition.
Proof. solve_decision. Defined.
Record Withdraw := mk_Withdraw {
  wd_decision_id : DecisionId;
  wd_scope : Scope;
  wd_target : WithdrawTarget;
  wd_disposition : WithdrawDisposition
}.
#[export] Instance Withdraw_eq_dec : EqDecision Withdraw.
Proof. solve_decision. Defined.

(** The commands no modelled area looks into, with their payload as its canonical text. *)
Inductive OtherCommand := RequestTurn | Measure | ProposeWinner.
#[export] Instance OtherCommand_eq_dec : EqDecision OtherCommand.
Proof. solve_decision. Defined.

Inductive Command :=
| C_Start (d : StartAttempt)
| C_Finish (d : Finish)
| C_Operation (d : Operation)
| C_Withdraw (d : Withdraw)
| C_Other (kind : OtherCommand) (decision_id : DecisionId) (scope : Scope) (body : pystr).
#[export] Instance Command_eq_dec : EqDecision Command.
Proof. solve_decision. Defined.

Definition cmd_decision_id (c : Command) : DecisionId :=
  match c with
  | C_Start d => sa_decision_id d
  | C_Finish d => fi_decision_id d
  | C_Operation d => op_decision_id d
  | C_Withdraw d => wd_decision_id d
  | C_Other _ i _ _ => i
  end.
Definition cmd_scope (c : Command) : Scope :=
  match c with
  | C_Start d => sa_scope d
  | C_Finish d => fi_scope d
  | C_Operation d => op_scope d
  | C_Withdraw d => wd_scope d
  | C_Other _ _ s _ => s
  end.

Inductive DecisionFeedback :=
| Accepted (decision_id : DecisionId)
| Rejected (decision_id : DecisionId) (code : RejectionCode) (path : list pystr) (detail : pystr).

(** What core stores of how long work may take (types/until.py); a watch is its canonical text. *)
Record Until := mk_Until { un_at : Seconds; un_watches : list pystr }.

Record DecisionReceipt := mk_DecisionReceipt {
  dr_decision_id : DecisionId;
  dr_decision : option Command;
  dr_until : option Until;
  dr_limit : option Seconds;
  dr_payload_digest : pystr;
  dr_feedback : DecisionFeedback;
  dr_request_ids : list RequestId;
  dr_completion : option CompletionStatus
}.
#[export] Instance DecisionReceipt_eta : Eta DecisionReceipt := fun r =>
  mk_DecisionReceipt (dr_decision_id r) (dr_decision r) (dr_until r) (dr_limit r) (dr_payload_digest r)
    (dr_feedback r) (dr_request_ids r) (dr_completion r).

(** ** The run (types/kernel.py, [Limits] of types/common.py) *)

(** [RequestRetries]: the n-th re-send waits [backoff * 2^(n-1)] seconds, never more than the cap. *)
Record RequestRetries := mk_RequestRetries { ry_limit : Z; ry_backoff : Seconds; ry_backoff_cap : Seconds }.

Record Limits := mk_Limits {
  li_max_attempts : Z;
  li_max_parallel : Z;
  li_pool_capacities : list (PoolId * Z);
  li_request_retries : RequestRetries;
  li_cancellation_bound : Seconds;
  li_cleanup_bound : Seconds;
  li_reconciliation_bound : Seconds;
  li_observe_backoff_cap : Seconds;
  li_queue_wait_budget : Seconds;
  li_queue_notice_interval : Seconds
}.

Record RunState := mk_RunState {
  ru_run_id : RunId;
  ru_generation : Z;
  ru_status : RunStatus;
  ru_now_at : Seconds;
  ru_deadline_at : Seconds;
  ru_operations : list OperationDescriptor;
  ru_limits : Limits;
  ru_receipts : list DecisionReceipt;
  ru_result : option RunResultProposal
}.
#[export] Instance RunState_eta : Eta RunState := fun r =>
  mk_RunState (ru_run_id r) (ru_generation r) (ru_status r) (ru_now_at r) (ru_deadline_at r)
    (ru_operations r) (ru_limits r) (ru_receipts r) (ru_result r).

(** ** The request ledger, jobs and adoption (types/records.py, evaluation.py, settlement.py) *)

(** The kinds of request, with the fields an area reads; a turn, a measurement plan, inputs, an
    authorization and a failure reason are their canonical text. *)
Inductive RequestBody :=
| EnsureWorkspace (attempt : AttemptRef) (plan : WorkspacePlan)
| RestoreRevision (attempt : AttemptRef) (revision : RevisionRef)
| SnapshotAndRetain (attempt : AttemptRef) (retention : pystr) (invocation : option InvocationRef)
| RetainRevision (attempt : AttemptRef) (revision : RevisionRef) (retention : pystr)
| DiscardWorkspace (attempt : AttemptRef)
| CloseAttemptScope (attempt : AttemptRef)
| EnsureSession (spec : SessionSpec) (required_resource : option ResourceId)
| DispatchTurn (turn : pystr) (inputs : pystr)
| InspectTurn (invocation : InvocationRef) (dispatch : option RequestId)
| CancelTurn (invocation : InvocationRef)
| CloseSession (session_id : SessionId) (resource_id : option ResourceId) (episode : option DecisionId)
| ResumeSessionTurn (turn : pystr) (inputs : pystr) (continuation_id : ContinuationId) (publication : pystr)
| SnapshotAndRetainRun (invocation : InvocationRef) (retention : pystr)
| SubmitMeasurement (plan : pystr)
| ObserveOwnedJob (resource_id : ResourceId)
| InspectOwnedJob (resource_id : ResourceId)
| CancelOwnedJob (resource_id : ResourceId)
| CollectEvidence (resource_id : ResourceId)
| AdoptRevision (selection : Selection)
| VerifyAdoption (selection : Selection)
| ExecuteRegisteredOperation (operation_id : pystr) (operation : OperationWire) (retry_limit : Z) (inputs : pystr)
| InspectRequest (target : RequestId) (resource_id : option ResourceId)
| CancelOwnedResource (resource_id : ResourceId) (target : RequestId)
| BlockRequest (target : RequestId) (reason : pystr).
#[export] Instance RequestBody_eq_dec : EqDecision RequestBody.
Proof. solve_decision. Defined.

(** [RequestBase] and the class of the request. *)
Record Request := mk_Request {
  rb_request_id : option RequestId;
  rb_scope : Scope;
  rb_depends_on : list RequestId;
  rb_decision_id : option DecisionId;
  rb_admission_id : option DecisionId;
  rb_body : RequestBody
}.
#[export] Instance Request_eta : Eta Request := fun r =>
  mk_Request (rb_request_id r) (rb_scope r) (rb_depends_on r) (rb_decision_id r) (rb_admission_id r) (rb_body r).
#[export] Instance Request_eq_dec : EqDecision Request.
Proof. solve_decision. Defined.

(** [Outbound.until]. *)
Inductive OutboundUntil :=
| Within (limit : float) (watches : list pystr)
| Inherited
| AtUntil (until : Until)
| FromDispatch (limit : float) (watches : list pystr).
Record Outbound := mk_Outbound { ou_request : Request; ou_until : OutboundUntil }.

Inductive RequestPhase := RQ_PREPARED | RQ_DISPATCHED | RQ_RECONCILING | RQ_COMPLETED | RQ_BLOCKED.
#[export] Instance RequestPhase_eq_dec : EqDecision RequestPhase.
Proof. solve_decision. Defined.

(** The [outcome] of an [OutcomeValue]: a reopened admission says so, any other is its text. *)
Inductive Outcome :=
| ScopedAdmissionReopenOutcome (scope : Scope) (admission : pystr)
| OtherOutcome (body : pystr).
#[export] Instance Outcome_eq_dec : EqDecision Outcome.
Proof. solve_decision. Defined.

(** [RequestRecord]. A setup failure is its value; evaluation facts, a suspension and a failure are
    their canonical text; [rr_outcome_proof] is the proof [prove_outcome] attaches. *)
Record RequestRecord := mk_RequestRecord {
  rr_request_id : RequestId;
  rr_request : Request;
  rr_payload_digest : pystr;
  rr_lifecycle : LifecycleClass;
  rr_phase : RequestPhase;
  rr_sequence : option Z;
  rr_observation : option Observation;
  rr_setup_failure : pystr;
  rr_evaluation_result : option pystr;
  rr_suspension : option pystr;
  rr_outcome_schema : option SchemaRef;
  rr_outcome_json : option pystr;
  rr_outcome : option Outcome;
  rr_outcome_proof : option (Outcome * OperationSchemaRef);
  rr_retry_count : Z;
  rr_retry_at : option Seconds;
  rr_until : Until;
  rr_failure : option pystr;
  rr_limit_from_dispatch : option Seconds;
  rr_dispatched_at : option Seconds;
  rr_dispatched_in : option Z;
  rr_addressed_by : list RequestId
}.
#[export] Instance RequestRecord_eta : Eta RequestRecord := fun r =>
  mk_RequestRecord (rr_request_id r) (rr_request r) (rr_payload_digest r) (rr_lifecycle r) (rr_phase r)
    (rr_sequence r) (rr_observation r) (rr_setup_failure r) (rr_evaluation_result r) (rr_suspension r)
    (rr_outcome_schema r) (rr_outcome_json r) (rr_outcome r) (rr_outcome_proof r) (rr_retry_count r)
    (rr_retry_at r) (rr_until r) (rr_failure r) (rr_limit_from_dispatch r) (rr_dispatched_at r)
    (rr_dispatched_in r) (rr_addressed_by r).
(** [record.until.at]. *)
Definition rr_until_at (r : RequestRecord) : Seconds := un_at (rr_until r).

(** [RequestRecord.retry_wait_until]. *)
Definition retry_wait_until (r : RequestRecord) : option Seconds :=
  match rr_observation r with
  | Some o => if bool_decide (rr_phase r = RQ_DISPATCHED) && retryable o then rr_retry_at r else None
  | None => None
  end.

Inductive RecoveryPhase := REC_REQUIRED | RECOVERING | READY | REC_BLOCKED.
#[export] Instance RecoveryPhase_eq_dec : EqDecision RecoveryPhase.
Proof. solve_decision. Defined.

Record HostEpoch := mk_HostEpoch { he_epoch : Z; he_started_at : Seconds; he_alive_at : Seconds }.

(** [RecoveryBarrier], by its epoch and its phase. *)
Record RecoveryBarrier := mk_RecoveryBarrier { rc_epoch : Z; rc_phase : RecoveryPhase }.

(** [RecordsState], by what the ledger reads (the children's leases belong to recovery). *)
Record RecordsState := mk_RecordsState {
  re_records : list RequestRecord;
  re_recovery : RecoveryBarrier;
  re_hosts : list HostEpoch
}.
#[export] Instance RecordsState_eta : Eta RecordsState := fun s =>
  mk_RecordsState (re_records s) (re_recovery s) (re_hosts s).
Definition re_recovery_phase (s : RecordsState) : RecoveryPhase := rc_phase (re_recovery s).
(** [RecordsState.find]: the records of an identity, in ledger order. *)
Definition find_records (s : RecordsState) (i : RequestId) : list RequestRecord :=
  List.filter (fun r => pystr_eqb (rr_request_id r) i) (re_records s).

Inductive JobState := JOB_PENDING | JOB_RUNNING | JOB_UNKNOWN.
#[export] Instance JobState_eq_dec : EqDecision JobState.
Proof. solve_decision. Defined.

Record JobProgress := mk_JobProgress { jp_observation_sequence : Z; jp_state : JobState }.

(** [OwnedJob | RegisteredOwnedJob]: what started it names the class. *)
Inductive JobSource := FromSubmission (submission_id : RequestId) | FromOperation (request_id : RequestId).
Record Job := mk_Job {
  jo_source : JobSource;
  jo_observation : option Observation;
  jo_progress : option JobProgress;
  jo_terminal : bool;
  jo_queue_credit : Seconds
}.

Record AgentCall := mk_AgentCall { ac_request_id : RequestId; ac_repeat : bool }.

(** [EvaluationState]: built-in jobs, registered jobs and the agents' calls. *)
Record EvaluationState := mk_EvaluationState {
  ev_jobs : list Job;
  ev_registered_jobs : list Job;
  ev_agent_calls : list AgentCall
}.

Record Adoption := mk_Adoption {
  ad_selection : Selection;
  ad_observation : option Observation;
  ad_verified : bool;
  ad_failed : bool
}.

(** ** Scheduling values (types/scheduling.py) *)

Record AttemptRequest := mk_AttemptRequest {
  aq_decision_id : DecisionId;
  aq_attempt_id : AttemptId;
  aq_item_id : ItemId;
  aq_generation : Z;
  aq_admission_charge : Z;
  aq_pools : list PoolId
}.
#[export] Instance AttemptRequest_eq_dec : EqDecision AttemptRequest.
Proof. solve_decision. Defined.

Record AttemptReopenRequest := mk_AttemptReopenRequest {
  ao_decision_id : DecisionId;
  ao_request_id : RequestId;
  ao_attempt : AttemptRef;
  ao_pools : list PoolId
}.
#[export] Instance AttemptReopenRequest_eq_dec : EqDecision AttemptReopenRequest.
Proof. solve_decision. Defined.

Inductive AdmissionRequest := Start (r : AttemptRequest) | Reopen (r : AttemptReopenRequest).
#[export] Instance AdmissionRequest_eq_dec : EqDecision AdmissionRequest.
Proof. solve_decision. Defined.

(** [request.decision_id] and [request.pools] of either request. *)
Definition rq_decision_id (r : AdmissionRequest) : DecisionId :=
  match r with Start r => aq_decision_id r | Reopen r => ao_decision_id r end.
Definition rq_pools (r : AdmissionRequest) : list PoolId :=
  match r with Start r => aq_pools r | Reopen r => ao_pools r end.

Record Slot := mk_Slot {
  sl_attempt : AttemptRef;
  sl_admission_id : DecisionId;
  sl_pools : list PoolId;
  sl_admitted_at : Seconds;
  sl_charge_ended_at : option Seconds
}.
#[export] Instance Slot_eta : Eta Slot := fun s =>
  mk_Slot (sl_attempt s) (sl_admission_id s) (sl_pools s) (sl_admitted_at s) (sl_charge_ended_at s).

Definition opt_f_eqb (a b : option float) : bool :=
  match a, b with Some a, Some b => f_eq a b | None, None => true | _, _ => false end.
(** Equality of slots: numbers compare as numbers. *)
Definition slot_eqb (a b : Slot) : bool :=
  bool_decide (sl_attempt a = sl_attempt b) && pystr_eqb (sl_admission_id a) (sl_admission_id b)
  && bool_decide (sl_pools a = sl_pools b) && f_eq (sl_admitted_at a) (sl_admitted_at b)
  && opt_f_eqb (sl_charge_ended_at a) (sl_charge_ended_at b).

(** [Slot.chronological_charge]. *)
Definition chronological_charge (s : Slot) : result Slot :=
  raise (ContractValidationError "charge_ended_at" "precedes admitted_at")
    when (match sl_charge_ended_at s with Some e => f_lt e (sl_admitted_at s) | None => false end) in
  Ok s.

Record SchedulingState := mk_SchedulingState {
  ss_queue : list AdmissionRequest;
  ss_slots : list Slot;
  ss_admission_closed : bool;
  ss_released_slot_seconds : Seconds
}.
#[export] Instance SchedulingState_eta : Eta SchedulingState := fun s =>
  mk_SchedulingState (ss_queue s) (ss_slots s) (ss_admission_closed s) (ss_released_slot_seconds s).

Inductive ControlAction := A_PAUSE | A_RESUME | A_DRAIN | A_CANCEL.
#[export] Instance ControlAction_eq_dec : EqDecision ControlAction.
Proof. solve_decision. Defined.

Inductive SchedulingEvent :=
| AttemptRequested (request : AttemptRequest)
| AttemptReopenRequested (request : AttemptReopenRequest)
| AttemptReady (attempt : AttemptRef) (admission_id : DecisionId)
| SlotReleased (attempt : AttemptRef) (admission_id : DecisionId)
| SlotChargeEnded (attempt : AttemptRef) (admission_id : DecisionId) (ended_at : Seconds)
| QueueEntryRetired (attempt : AttemptRef) (admission_id : DecisionId)
| ClockAdvanced (now_at : Seconds)
| AdmissionControl (action : ControlAction)
| AdoptionFenceLifted.

Record RetireRequest := mk_RetireRequest {
  rt_attempt : AttemptRef;
  rt_disposition : Disposition;
  rt_authority : RequestId;
  rt_admission_id : DecisionId;
  rt_requested_at : Seconds
}.

Inductive Signal :=
| RegisterAttempt (request : AttemptRequest)
| AdmitAttempt (request : AdmissionRequest)
| RetireRequested (r : RetireRequest)
| RunDrained
| RunJobsCancelRequested (scope : Scope) (authority : DecisionId)
| RunSessionsDrainRequested (scope : Scope) (authority : DecisionId)
| ObservationsDue (now_at : Seconds)
| RetryDue (request_id : RequestId) (now_at : Seconds)
| ReconciliationDeadline (request_id : RequestId) (now_at : Seconds)
| ReconciliationCommandLapsed (request_id : RequestId) (now_at : Seconds).

(** What an area tells the search. *)
Inductive AreaEvent :=
| E_Rejected (decision_id : DecisionId) (code : RejectionCode) (path : list pystr) (detail : pystr)
| E_AttemptReady (attempt : AttemptRef) (admission_id : DecisionId).

Record AreaChange (S : Type) := mk_AreaChange {
  ch_state : S;
  ch_signals : list Signal;
  ch_events : list AreaEvent
}.
Arguments mk_AreaChange {S}.
Arguments ch_state {S}.
Arguments ch_signals {S}.
Arguments ch_events {S}.

(** [SchedulingContext]: what scheduling reads of the other areas (it reads no sessions). *)
Record SchedulingContext := mk_SchedulingContext {
  cx_run : RunState;
  cx_attempts : list AttemptView;
  cx_records : RecordsState;
  cx_adoption : option Adoption;
  cx_evaluation : EvaluationState
}.
