(* ===== verification/CoreProofs.v ===== *)
(** The value-only proof predicates of vs-core that admission rests on (src/libs/vs-core, _proofs.py)
    and the fence an adoption puts around the root workspace (_adoption.py). pydantic's dump of a
    command and SHA-256 are not in the repository: they are the class [Digests]. *)
From S2P Require Import Prelude Floats CoreValues.

(** ** Verdicts *)

Inductive ProofReason :=
| ABSENT_RECEIPT | NOT_ACCEPTED | ABSENT_DECLARATION | ABSENT_EPISODE | ABSENT_REQUEST
| ABSENT_OBSERVATION | ABSENT_INVOCATION | ABSENT_SESSION | ABSENT_RESOURCE | ABSENT_CHARGE
| ABSENT_CHECKPOINT | ABSENT_PUBLICATION | UNRESOLVED | INCOMPLETE_MANIFEST
| INCOMPLETE_HISTORY | EMPTY_REQUIRED.

Inductive ProofField :=
| PF_RECEIPT_ID | PF_FEEDBACK_ID | PF_DECISION_ID | PF_REQUEST_ID | PF_INVOCATION_ID
| PF_SESSION_ID | PF_RESOURCE_ID | PF_SCOPE | PF_GENERATION | PF_ADMISSION_ID | PF_PAYLOAD
| PF_DIGEST | PF_SCHEMA | PF_LIFECYCLE | PF_NORMALIZATION | PF_REVISION | PF_RETENTION
| PF_SEQUENCE | PF_STATUS | PF_MANIFEST | PF_CURRENCY | PF_AMOUNT | PF_CURSOR
| PF_PUBLICATION | PF_DISPOSITION.

Inductive Verdict (T : Type) :=
| Proven (value : T)
| Missing (reason : ProofReason)
| Mismatch (field : ProofField).
Arguments Proven {T} value.
Arguments Missing {T} reason.
Arguments Mismatch {T} field.

(** [proof.value if isinstance(proof, Proven) else None]. *)
Definition proven {T} (v : Verdict T) : option T := match v with Proven x => Some x | _ => None end.

(** [_FIELD_ORDER]: the declaration order of the enumeration. *)
Definition field_order (f : ProofField) : nat :=
  match f with
  | PF_RECEIPT_ID => 0 | PF_FEEDBACK_ID => 1 | PF_DECISION_ID => 2 | PF_REQUEST_ID => 3
  | PF_INVOCATION_ID => 4 | PF_SESSION_ID => 5 | PF_RESOURCE_ID => 6 | PF_SCOPE => 7
  | PF_GENERATION => 8 | PF_ADMISSION_ID => 9 | PF_PAYLOAD => 10 | PF_DIGEST => 11
  | PF_SCHEMA => 12 | PF_LIFECYCLE => 13 | PF_NORMALIZATION => 14 | PF_REVISION => 15
  | PF_RETENTION => 16 | PF_SEQUENCE => 17 | PF_STATUS => 18 | PF_MANIFEST => 19
  | PF_CURRENCY => 20 | PF_AMOUNT => 21 | PF_CURSOR => 22 | PF_PUBLICATION => 23
  | PF_DISPOSITION => 24
  end%nat.
Definition check_leb (a b : ProofField * bool) : bool :=
  (field_order a.1 <=? field_order b.1)%nat.

(** A check of [_identity_mismatch]: the field and whether the two values agree. *)
Definition same {T} `{EqDecision T} (f : ProofField) (actual expected : T) : ProofField * bool :=
  (f, bool_decide (actual = expected)).
Definition identity_mismatch (checks : list (ProofField * bool)) : option ProofField :=
  option_map fst (find (fun c => negb c.2) (sort_by check_leb checks)).

Lemma identity_mismatch_None checks :
  identity_mismatch checks = None <-> forall c, c ∈ checks -> c.2 = true.
Proof.
  unfold identity_mismatch.
  destruct (find _ (sort_by check_leb checks)) as [c|] eqn:E; simpl.
  - split; [done|]. intros H. apply find_Some_elem in E as [E1 E2].
    rewrite elem_of_sort_by in E1. by rewrite (H c E1) in E2.
  - rewrite find_None_elem in E. split; [|done]. intros _ c Hc.
    specialize (E c). rewrite elem_of_sort_by in E. by apply negb_false_iff, E.
Qed.

Class Digests := {
  canonical_json : Command -> result pystr;
  request_json : Request -> result pystr;
  sha256 : pystr -> pystr;
  selection_json : Selection -> pystr
}.

(** [except (TypeError, ValueError)]. *)
Definition is_type_or_value_error (e : exn) : bool :=
  match e with TypeError _ => true | e => is_value_error e end.

(** ** Receipts *)

Section Receipts.
Context {digests : Digests}.

Definition digest (c : Command) : result pystr := let* t := canonical_json c in Ok (sha256 t).

(** [deeply_immutable]: every value of a command is frozen but an operation's library payload. *)
Definition deeply_immutable (c : Command) : bool :=
  match c with C_Operation o => op_deeply_immutable o | _ => true end.

Definition catch_payload {T} (m : result (Verdict T)) : result (Verdict T) :=
  match m with
  | Err e => if is_type_or_value_error e then Ok (Mismatch PF_PAYLOAD) else Err e
  | r => r
  end.

Definition receipt_payload (receipt : DecisionReceipt) (canonical : option Command)
  : result (Verdict DecisionReceipt) :=
  catch_payload
    match dr_decision receipt with
    | None => Ok (Missing ABSENT_RECEIPT)
    | Some decision =>
      if negb (deeply_immutable decision) then Ok (Mismatch PF_PAYLOAD) else
      let* differs :=
        match canonical with
        | None => Ok false
        | Some c =>
          if negb (deeply_immutable c) then Ok true else
          let* a := canonical_json decision in
          let* b := canonical_json c in Ok (negb (pystr_eqb a b))
        end in
      if (differs : bool) then Ok (Mismatch PF_PAYLOAD) else
      let* d := digest decision in
      if negb (pystr_eqb (dr_payload_digest receipt) d) then Ok (Mismatch PF_DIGEST) else
      Ok (Proven receipt)
    end.

Definition has_decision_id (key : DecisionId) (r : DecisionReceipt) : bool :=
  pystr_eqb (dr_decision_id r) key.

Definition accepted_receipt_for (receipts : list DecisionReceipt) (key : option DecisionId)
    (canonical : option Command) : result (Verdict DecisionReceipt) :=
  match key with
  | None => Ok (Missing ABSENT_RECEIPT)
  | Some key =>
    match List.filter (has_decision_id key) receipts with
    | [] => Ok (Missing ABSENT_RECEIPT)
    | _ :: _ :: _ => Ok (Mismatch PF_RECEIPT_ID)
    | [receipt] =>
      match dr_decision receipt, dr_feedback receipt with
      | None, _ => Ok (Missing ABSENT_RECEIPT)
      | Some _, Rejected _ _ _ _ => Ok (Missing NOT_ACCEPTED)
      | Some decision, Accepted feedback_id =>
        let checks :=
          [same PF_FEEDBACK_ID feedback_id key;
           same PF_DECISION_ID (cmd_decision_id decision) key]
          ++ match canonical with
             | None => []
             | Some c =>
               [same PF_DECISION_ID (cmd_decision_id c) key;
                same PF_SCOPE (sc_owner (cmd_scope decision)) (sc_owner (cmd_scope c));
                same PF_GENERATION (sc_generation (cmd_scope decision)) (sc_generation (cmd_scope c))]
             end in
        match identity_mismatch checks with
        | Some f => Ok (Mismatch f)
        | None => receipt_payload receipt canonical
        end
      end
    end
  end.

(** The decision an accepted receipt carries, and nothing of any other receipt. *)
Definition accepted_decision (receipts : list DecisionReceipt) (key : DecisionId)
  : result (option Command) :=
  let* proof := accepted_receipt_for receipts (Some key) None in
  Ok match proven proof with Some r => dr_decision r | None => None end.

(** ** The committed stop *)

Definition is_Some_b {T} (x : option T) : bool := match x with Some _ => true | None => false end.
Definition finish_of (r : DecisionReceipt) : option Finish :=
  match dr_decision r with Some (C_Finish d) => Some d | _ => None end.
Definition is_accepted (f : DecisionFeedback) : bool := match f with Accepted _ => true | _ => false end.

(** [isinstance(row.decision, Finish) and (isinstance(row.feedback, Accepted) or row.completion
    is not None)]. *)
Definition stop_committed (r : DecisionReceipt) : bool :=
  is_Some_b (finish_of r) && (is_accepted (dr_feedback r) || is_Some_b (dr_completion r)).

Definition committed_stop (run : RunState) : result (Verdict Finish) :=
  match find stop_committed (ru_receipts run) with
  | None => Ok (Missing ABSENT_RECEIPT)
  | Some receipt =>
    if negb (is_accepted (dr_feedback receipt)) then Ok (Mismatch PF_DISPOSITION) else
    let* proof := accepted_receipt_for (ru_receipts run) (Some (dr_decision_id receipt)) None in
    match proof with
    | Missing r => Ok (Missing r)
    | Mismatch f => Ok (Mismatch f)
    | Proven _ =>
      match finish_of receipt, ru_result run with
      | None, _ => Ok (Mismatch PF_PAYLOAD)
      | Some _, None => Ok (Missing UNRESOLVED)
      | Some stop, Some result =>
        match identity_mismatch
          [same PF_SCOPE (sc_owner (fi_scope stop)) (RunOwner (ru_run_id run));
           same PF_GENERATION (sc_generation (fi_scope stop)) (ru_generation run);
           same PF_STATUS (bool_decide (ru_status run = CLOSING) || bool_decide (ru_status run = TERMINAL)) true;
           same PF_DISPOSITION (fi_result stop) result] with
        | Some f => Ok (Mismatch f)
        | None => Ok (Proven stop)
        end
      end
    end
  end.

Definition draining (run : RunState) : result bool :=
  let* stop := committed_stop run in
  Ok match stop with
     | Proven stop => bool_decide (ru_status run = CLOSING) && bool_decide (fi_mode stop = DRAIN)
     | _ => false
     end.

(** ** The admission budget and the occupied episode *)

Definition net_admission (c : ChargeReceipt) : Z :=
  if bool_decide (cg_kind c = ADMISSION) then cg_charged c - cg_refunded c else 0.
Definition zsum (l : list Z) : Z := foldr Z.add 0 l.
Definition consumed (attempts : list AttemptView) : Z :=
  zsum (map net_admission (concat (map at_charges attempts))).
Definition admission_remaining (attempts : list AttemptView) (max_attempts reserved : Z) : Z :=
  Z.max 0 (max_attempts - consumed attempts - reserved).

Definition current_closure (attempt : option AttemptView) (closure : option AttemptClosure)
  : Verdict AttemptClosure :=
  match attempt with
  | None => Missing ABSENT_DECLARATION
  | Some attempt =>
    match closure, at_closure attempt with
    | Some closure, Some recorded =>
      match at_admission_id attempt with
      | None => Missing ABSENT_EPISODE
      | Some admission_id =>
        match identity_mismatch
          [same PF_REQUEST_ID (cl_authority closure) (cl_authority recorded);
           same PF_ADMISSION_ID (cl_admission_id closure) admission_id;
           same PF_ADMISSION_ID (cl_admission_id recorded) admission_id;
           (PF_PAYLOAD, f_eq (cl_requested_at closure) (cl_requested_at recorded));
           same PF_DISPOSITION (cl_disposition closure) (cl_disposition recorded)] with
        | Some f => Mismatch f
        | None => Proven closure
        end
      end
    | _, _ => Missing ABSENT_REQUEST
    end
  end.

Definition target (request : AdmissionRequest) : AttemptRef :=
  match request with
  | Reopen r => ao_attempt r
  | Start r => mk_AttemptRef (aq_attempt_id r) (aq_generation r)
  end.

Definition occupied_episode (slots : list Slot) (request : AdmissionRequest) : Verdict Slot :=
  let t := target request in
  match List.filter (fun s => pystr_eqb (ar_attempt_id (sl_attempt s)) (ar_attempt_id t)
                              || pystr_eqb (sl_admission_id s) (rq_decision_id request)) slots with
  | [] => Missing ABSENT_RESOURCE
  | _ :: _ :: _ => Mismatch PF_MANIFEST
  | [slot] =>
    match identity_mismatch
      [same PF_SCOPE (ar_attempt_id (sl_attempt slot)) (ar_attempt_id t);
       same PF_GENERATION (ar_generation (sl_attempt slot)) (ar_generation t);
       same PF_ADMISSION_ID (sl_admission_id slot) (rq_decision_id request)] with
    | Some f => Mismatch f
    | None =>
      if negb (bool_decide (sl_pools slot = rq_pools request)) || negb (nodupb (sl_pools slot))
         || negb (nodupb (rq_pools request))
      then Mismatch PF_MANIFEST else Proven slot
    end
  end.

(** ** The adoption fence (_adoption.py) *)

Inductive AdoptionPhase := AP_IDLE | AP_ADOPTING | AP_VERIFYING | AP_DONE | AP_FAILED.

(** [digest(selection)[:16]]. *)
Definition adoption_key (s : Selection) : pystr := take 16 (sha256 (selection_json s)).
Definition adopt_id (s : Selection) (round : Z) : RequestId :=
  py "adopt:" ++ adoption_key s ++ py ":" ++ int_str round.
Definition verify_id (s : Selection) (round : Z) : RequestId :=
  py "verify-adoption:" ++ adoption_key s ++ py ":" ++ int_str round.
Definition adoption_rounds (records : RecordsState) (s : Selection) : Z :=
  Z.of_nat (length (List.filter
    (fun r => match rb_body (rr_request r) with AdoptRevision s' => bool_decide (s' = s) | _ => false end)
    (re_records records))).

Definition awaits_inspection (o : Observation) : bool :=
  match ob_status o with OBS_SUCCEEDED | OBS_UNKNOWN => true | _ => false end.

Definition observed_phase (s : Selection) (o : Observation) (records : RecordsState) : AdoptionPhase :=
  let latest := Z.max (adoption_rounds records s - 1) 0 in
  let pending := bool_decide (ob_status o = OBS_PENDING) || retryable o in
  if pystr_eqb (ob_request_id o) (verify_id s latest)
  then (if pending then AP_VERIFYING else AP_FAILED) else
  if pystr_eqb (ob_request_id o) (adopt_id s latest) then
    (if pending then AP_ADOPTING else if awaits_inspection o then AP_VERIFYING else AP_FAILED)
  else AP_FAILED.

Definition adoption_phase (adoption : option Adoption) (records : RecordsState) : AdoptionPhase :=
  match adoption with
  | None => AP_IDLE
  | Some a =>
    if ad_verified a then AP_DONE else
    if ad_failed a then AP_FAILED else
    match ad_observation a with
    | None => AP_ADOPTING
    | Some o => observed_phase (ad_selection a) o records
    end
  end.

Definition fences_root_mutation (adoption : option Adoption) (records : RecordsState) : bool :=
  match adoption_phase adoption records with AP_ADOPTING | AP_VERIFYING => true | _ => false end.

(** ** Lemmas *)

Lemma catch_payload_Proven {T} (m : result (Verdict T)) x :
  catch_payload m = Ok (Proven x) -> m = Ok (Proven x).
Proof. destruct m as [v|e]; simpl; [done|]. by destruct (is_type_or_value_error e). Qed.

(** What a proof of acceptance says: the receipt is the only one with its identity, it was accepted
    under it, its command carries it and has the recorded digest. *)
Lemma accepted_receipt_proven receipts key canonical r :
  accepted_receipt_for receipts (Some key) canonical = Ok (Proven r) ->
  List.filter (has_decision_id key) receipts = [r]
  /\ dr_decision_id r = key /\ dr_feedback r = Accepted key
  /\ exists c, dr_decision r = Some c /\ cmd_decision_id c = key /\ deeply_immutable c = true
     /\ digest c = Ok (dr_payload_digest r).
Proof.
  unfold accepted_receipt_for.
  destruct (List.filter _ receipts) as [|r0 [|? ?]] eqn:Hf; try done.
  destruct (dr_decision r0) as [c|] eqn:Hd; [|done].
  destruct (dr_feedback r0) as [f|] eqn:Hfb; [|done].
  destruct (identity_mismatch _) as [?|] eqn:Hi; [done|]. rewrite identity_mismatch_None in Hi.
  intros H. apply catch_payload_Proven in H. unfold receipt_payload in H. rewrite Hd in H.
  assert (Hfid : f = key).
  { apply (bool_decide_eq_true (f = key)).
    apply (Hi (same PF_FEEDBACK_ID f key)). apply list_elem_of_In. by left. }
  assert (Hcid : cmd_decision_id c = key).
  { apply (bool_decide_eq_true (cmd_decision_id c = key)).
    apply (Hi (same PF_DECISION_ID (cmd_decision_id c) key)).
    apply list_elem_of_In. right. by left. }
  destruct (deeply_immutable c) eqn:Himm; [|done]. simpl in H.
  apply bind_Ok in H as (b & _ & H). destruct b; [done|].
  apply bind_Ok in H as (d & Hdig & H).
  destruct (pystr_eqb (dr_payload_digest r0) d) eqn:Ed; [|done]. simpl in H.
  injection H as [= <-]. apply pystr_eqb_true in Ed. subst d.
  assert (Hin : r0 ∈ List.filter (has_decision_id key) receipts) by (rewrite Hf; by apply list_elem_of_singleton).
  apply elem_of_filter in Hin as [_ Hin]. apply pystr_eqb_true in Hin.
  rewrite Hfid in Hfb. split_and!; try done. by exists c.
Qed.

Lemma zsum_app a b : zsum (a ++ b) = zsum a + zsum b.
Proof. induction a as [|x a IH]; simpl; lia. Qed.

Lemma consumed_app a b : consumed (a ++ b) = consumed a + consumed b.
Proof. unfold consumed. by rewrite map_app, concat_app, map_app, zsum_app. Qed.

Lemma consumed_cons a l : consumed (a :: l) = zsum (map net_admission (at_charges a)) + consumed l.
Proof. unfold consumed. simpl. by rewrite map_app, zsum_app. Qed.

End Receipts.
