(* ===== verification/WaitClock.v ===== *)
(** When measurement work ends (src/libs/vs-core, _wait_clock.py): queue time is credited from the
    facts of a job, capped, and every limit on a job's work is derived from its stated limit, its
    credit, its queue budget and the run's deadline. [notice_due] (a floor division of credits, for
    reports only) is not modelled. *)
From S2P Require Import Prelude Floats CoreValues.
From Stdlib Require Import SpecFloat.

(** ** Python's [sum], [min] and [max] on floats *)

(** [sum] of floats compensates its rounding errors (Neumaier): the running total and the
    compensation. *)
Definition sum_step (acc : float * float) (x : float) : float * float :=
  let '(total, c) := acc in
  let t := f_add total x in
  (t, f_add c (if f_ge (f_abs total) (f_abs x)
               then f_add (f_sub total t) x else f_add (f_sub x t) total)).
Definition py_sum (l : list float) : float :=
  let '(total, c) := foldl sum_step (f_zero, f_zero) l in
  if negb (f_eq c f_zero) && f_finite c then f_add total c else total.

(** [max(a, b)] and [min(a, b)]: the first unless the second is strictly beyond it. *)
Definition max2 (a b : float) : float := if f_gt b a then b else a.
Definition min2 (a b : float) : float := if f_lt b a then b else a.

(** ** Bounds *)

Inductive WaitEnd := LIMIT | QUEUE_BUDGET | RUN_END.
Record Bound := mk_Bound { bo_at : float; bo_by : WaitEnd }.

(** [min(bounds, key=..., default=...)]: the first of the least. *)
Definition earliest (bounds : list Bound) (default : Bound) : Bound :=
  match bounds with
  | [] => default
  | b :: bounds => foldl (fun m x => if f_lt (bo_at x) (bo_at m) then x else m) b bounds
  end.

Definition pending (job : Job) : bool :=
  match jo_progress job, jo_observation job with
  | Some progress, Some observation =>
    negb (jo_terminal job) && bool_decide (jp_state progress = JOB_PENDING)
    && (jp_observation_sequence progress =? ob_sequence observation)
  | _, _ => false
  end.

(** [pairwise(hosts)]: the part of the interval no host was alive. *)
Fixpoint downtimes (hosts : list HostEpoch) (start_ end_ : float) : list float :=
  match hosts with
  | earlier :: ((later :: _) as rest) =>
    max2 (f_sub (min2 (he_started_at later) end_) (max2 (he_alive_at earlier) start_)) f_zero
    :: downtimes rest start_ end_
  | _ => []
  end.
Definition downtime_within (hosts : list HostEpoch) (start_ end_ : float) : float :=
  py_sum (downtimes hosts start_ end_).

Definition credited (job : Job) (observation : Observation) (limits : Limits) (hosts : list HostEpoch)
  : float :=
  match jo_observation job with
  | None => jo_queue_credit job
  | Some previous =>
    if negb (pending job) || f_le (ob_observed_at observation) (ob_observed_at previous)
    then jo_queue_credit job else
    let start_ := ob_observed_at previous in
    let end_ := ob_observed_at observation in
    let queued := f_sub (f_sub end_ start_) (downtime_within hosts start_ end_) in
    f_add (jo_queue_credit job) (min2 (max2 queued f_zero) (li_observe_backoff_cap limits))
  end.

(** [source]: the request that started the job. *)
Definition source (job : Job) : RequestId :=
  match jo_source job with FromSubmission i => i | FromOperation i => i end.

Definition queue_budget_left (job : Job) (limits : Limits) : float :=
  max2 (f_sub (li_queue_wait_budget limits) (jo_queue_credit job)) f_zero.

(** The bound before the run's end caps it: the limit plus the credit, and while the latest fact is
    pending (and came before that time) what it may still earn, or the end of the queue budget. *)
Definition queue_bound (job : Job) (stated : float) (run : RunState) (hosts : list HostEpoch) : Bound :=
  let limits := ru_limits run in
  let bound := mk_Bound (f_add stated (jo_queue_credit job)) LIMIT in
  match jo_observation job with
  | Some observation =>
    if pending job && f_gt (bo_at bound) (ob_observed_at observation) then
      let queued_since := ob_observed_at observation in
      let down := downtime_within hosts queued_since (ru_now_at run) in
      earliest
        [mk_Bound (f_add (bo_at bound) (li_observe_backoff_cap limits)) LIMIT;
         mk_Bound (f_sub (f_add (f_add queued_since down) (li_queue_wait_budget limits))
                         (jo_queue_credit job)) QUEUE_BUDGET]
        bound
    else bound
  | None => bound
  end.

Definition job_bound (job : Job) (stated : float) (run : RunState) (hosts : list HostEpoch) : Bound :=
  let bound := queue_bound job stated run hosts in
  let ceiling := max2 (ru_deadline_at run) stated in
  if f_le (bo_at bound) ceiling then bound else mk_Bound ceiling RUN_END.

Definition find_record (records : RecordsState) (request_id : RequestId) : option RequestRecord :=
  find (fun r => pystr_eqb (rr_request_id r) request_id) (re_records records).

Definition submission_limit (evaluation : EvaluationState) (records : RecordsState) (job : Job)
  : result (option float) :=
  match jo_source job with
  | FromOperation _ => Ok None
  | FromSubmission submission_id =>
    if negb (existsb (fun c => pystr_eqb (ac_request_id c) submission_id && negb (ac_repeat c))
                     (ev_agent_calls evaluation))
    then Ok None else
    match find_record records submission_id with
    | None => Err (ContractError "jobs.submission_id" "an agent's submission has no record")
    | Some record => Ok (Some (rr_until_at record))
    end
  end.

(** The fields of a [Continuation] a bound is derived from. *)
Record Continuation := mk_Continuation { co_deadline_at : float; co_downtime_credit : float }.

(** [x or 0.0]. *)
Definition or_zero (x : option float) : float :=
  match x with Some x => if f_eq x f_zero then f_zero else x | None => f_zero end.

Definition wait_bounds (evaluation : EvaluationState) (records : RecordsState) (run : RunState)
    (wait : Continuation) (jobs : list Job) : result (list Bound) :=
  let moved := f_add (co_deadline_at wait) (co_downtime_credit wait) in
  let own := if f_le (co_deadline_at wait) (ru_deadline_at run)
             then min2 moved (ru_deadline_at run) else moved in
  mapM_result
    (fun job =>
      let* limit := submission_limit evaluation records job in
      Ok (job_bound job (max2 own (or_zero limit)) run (re_hosts records))) jobs.

Definition record_bound (record : RequestRecord) (evaluation : EvaluationState) (run : RunState)
    (hosts : list HostEpoch) : Bound :=
  let bounds :=
    map (fun job => job_bound job (rr_until_at record) run hosts)
      (List.filter (fun job => pystr_eqb (source job) (rr_request_id record) && negb (jo_terminal job))
        (ev_jobs evaluation ++ ev_registered_jobs evaluation)) in
  earliest bounds (mk_Bound (rr_until_at record) LIMIT).

(** ** Records whose time has come (_request_ledger.py, _request_recovery.py) *)

Definition due_retries (state : RecordsState) (now_at : float) : list Signal :=
  concat (map (fun record =>
    match retry_wait_until record with
    | Some due => if f_le due now_at then [RetryDue (rr_request_id record) now_at] else []
    | None => []
    end) (re_records state)).

(** [_canonical]: not a command about another record. *)
Definition canonical (record : RequestRecord) : bool :=
  match rb_body (rr_request record) with
  | InspectRequest _ _ | CancelOwnedResource _ _ | BlockRequest _ _ => false
  | _ => true
  end.
Definition in_flight (record : RequestRecord) : bool :=
  match rr_phase record with RQ_PREPARED | RQ_DISPATCHED | RQ_RECONCILING => true | _ => false end.
Definition is_open (record : RequestRecord) : bool := canonical record && in_flight record.
Definition command_open (record : RequestRecord) : bool := negb (canonical record) && in_flight record.

Definition limit_passed (record : RequestRecord) (evaluation : EvaluationState) (run : RunState)
    (hosts : list HostEpoch) : bool :=
  f_le (bo_at (record_bound record evaluation run hosts)) (ru_now_at run).

Definition overdue_reconciliations (state : RecordsState) (evaluation : EvaluationState) (run : RunState)
  : list Signal :=
  map (fun record => ReconciliationDeadline (rr_request_id record) (ru_now_at run))
    (List.filter (fun record => is_open record && limit_passed record evaluation run (re_hosts state))
      (re_records state))
  ++ map (fun record => ReconciliationCommandLapsed (rr_request_id record) (ru_now_at run))
    (List.filter (fun record => command_open record && f_le (rr_until_at record) (ru_now_at run))
      (re_records state)).

(** ** Bounds never outlive the run *)

Lemma f_le_refl x : f_is_nan x = false -> f_le x x = true.
Proof.
  intros H. unfold f_le, SFleb. destruct x as [s|s| |s m e]; try done; simpl; [by destruct s..|].
  rewrite Z.compare_refl, compare_cont_eq, Pos.compare_refl. by destruct s.
Qed.

Lemma job_bound_ceiling job stated run hosts :
  let ceiling := max2 (ru_deadline_at run) stated in
  f_is_nan ceiling = false -> f_le (bo_at (job_bound job stated run hosts)) ceiling = true.
Proof.
  intros ceiling Hc. unfold job_bound. fold ceiling.
  destruct (f_le (bo_at (queue_bound job stated run hosts)) ceiling) eqn:E; [done|]. by apply f_le_refl.
Qed.

Lemma foldl_earliest_in (l : list Bound) b :
  foldl (fun m x => if f_lt (bo_at x) (bo_at m) then x else m) b l ∈ b :: l.
Proof.
  revert b. induction l as [|x l IH]; intros b; simpl; [by apply list_elem_of_singleton|].
  destruct (f_lt (bo_at x) (bo_at b)); specialize (IH) as H.
  - specialize (H x). set_solver.
  - specialize (H b). set_solver.
Qed.

Lemma earliest_in bounds default : earliest bounds default ∈ default :: bounds.
Proof. destruct bounds as [|b l]; simpl; [by apply list_elem_of_singleton|]. right. apply foldl_earliest_in. Qed.

Lemma f_lt_not_le x y : f_lt x y = true -> f_le y x = false.
Proof.
  unfold f_lt, f_le, SpecFloat.SFltb, SpecFloat.SFleb. rewrite (SFcompare_antisym x y).
  by destruct (SpecFloat.SFcompare x y) as [[]|].
Qed.

Lemma f_le_total x y : f_is_nan x = false -> f_is_nan y = false -> f_lt x y = false -> f_le y x = true.
Proof.
  unfold f_lt, f_le, SFltb, SFleb. rewrite (SFcompare_antisym x y). intros Hx Hy.
  destruct (SFcompare x y) as [[]|] eqn:E; try done.
  rewrite SFcompare_key in E. by destruct x, y.
Qed.

Lemma max2_ge_r x y : f_is_nan x = false -> f_is_nan y = false -> f_le y (max2 x y) = true.
Proof.
  intros Hx Hy. unfold max2, f_gt. destruct (f_lt x y) eqn:E; [by apply f_le_refl|].
  by apply f_le_total.
Qed.

Lemma max2_nan x y : f_is_nan x = false -> f_is_nan y = false -> f_is_nan (max2 x y) = false.
Proof. unfold max2. by destruct (f_gt y x). Qed.

(** A record without an unfinished job ends at its own limit, any other at a bound of one of its
    jobs, and none later than both the run's deadline and its own limit. *)
Lemma record_bound_ceiling record evaluation run hosts :
  f_is_nan (ru_deadline_at run) = false -> f_is_nan (rr_until_at record) = false ->
  f_le (bo_at (record_bound record evaluation run hosts)) (max2 (ru_deadline_at run) (rr_until_at record))
    = true.
Proof.
  intros Hd Hu. unfold record_bound.
  match goal with |- context [earliest ?l ?d] => pose proof (earliest_in l d) as Hin end.
  apply elem_of_cons in Hin as [->|Hin]; [by apply max2_ge_r|].
  apply elem_of_map in Hin as (job & -> & _). by apply job_bound_ceiling, max2_nan.
Qed.

Lemma wait_bounds_stated evaluation records run wait jobs bounds :
  wait_bounds evaluation records run wait jobs = Ok bounds ->
  Forall2 (fun job b => exists stated, b = job_bound job stated run (re_hosts records)) jobs bounds.
Proof.
  intros H. apply mapM_result_inv in H. eapply Forall2_impl; [exact H|].
  intros job b Hb. apply bind_Ok in Hb as (limit & _ & [= <-]). by eexists.
Qed.
