(* ===== verification/Requests.v ===== *)
(** What vs-core's request ledger reads besides its own records (src/libs/vs-core): the lifecycle of a
    request (types/records.py), the time it may take (_deadlines.py), the proofs that bind
    observations, dependencies and declarations to it (_proofs.py), and whether it still belongs to
    the episode that may dispatch it (_dispatch_episode.py). *)
From S2P Require Import Prelude Floats CoreValues CoreProofs WaitClock.

(** ** Lifecycles *)

Definition request_lifecycle (request : Request) : LifecycleClass :=
  match rb_body request with
  | ExecuteRegisteredOperation _ operation _ _ => os_lifecycle (ow_schema_ref operation)
  | DispatchTurn _ _ | ResumeSessionTurn _ _ _ _ => SESSION_TURN
  | SubmitMeasurement _ => OWNED_JOB
  | InspectTurn _ _ | ObserveOwnedJob _ | InspectOwnedJob _ | CollectEvidence _ | InspectRequest _ _
  | VerifyAdoption _ => QUERY
  | _ => IDEMPOTENT_WRITE
  end.

(** ** Deadlines *)

(** [resolve_until(run, Within(limit, watches))]. *)
Definition resolve_until (run : RunState) (limit : float) (watches : list pystr) : Until :=
  let at_ := f_add (ru_now_at run) (max2 limit f_zero) in
  mk_Until (if f_gt (ru_deadline_at run) (ru_now_at run) then min2 at_ (ru_deadline_at run) else at_) watches.
Definition queued_until (run : RunState) (limit : float) (watches : list pystr) : Until :=
  if f_gt (ru_deadline_at run) (ru_now_at run) then mk_Until (ru_deadline_at run) watches
  else mk_Until (f_add (ru_now_at run) (max2 limit f_zero)) watches.
Definition from_dispatch (run : RunState) (until : Until) : OutboundUntil :=
  FromDispatch (max2 (f_sub (un_at until) (ru_now_at run)) f_zero) (un_watches until).
Definition started_until (run : RunState) (limit : float) (watches : list pystr) : Until :=
  resolve_until run limit watches.

(** ** The other areas, as the ledger reads them *)

(** An [Invocation] and a [SessionView], with the fields that correlate a turn and a session. *)
Record Invocation := mk_Invocation {
  in_invocation : InvocationRef;
  in_scope : Scope;
  in_turn : pystr;
  in_registered_operation : option pystr
}.
Record SessionView := mk_SessionView { sv_session_id : SessionId; sv_scope : Scope }.

(** [RecordsContext] (it reads no evaluation); [rx_registry] declares the operations. *)
Record RecordsContext := mk_RecordsContext {
  rx_run : RunState;
  rx_registry : list OperationDescriptor;
  rx_attempts : list AttemptView;
  rx_invocations : list Invocation;
  rx_sessions : list SessionView
}.

Definition opt_eqb {A} `{EqDecision A} (a b : option A) : bool := bool_decide (a = b).
Definition is_attempt_owner (o : Owner) : bool := match o with AttemptOwner _ => true | _ => false end.
(** [AttemptRef] of a scope an attempt owns. *)
Definition scope_attempt (s : Scope) : option AttemptRef :=
  match sc_owner s with AttemptOwner i => Some (mk_AttemptRef i (sc_generation s)) | RunOwner _ => None end.
Definition find_owner (attempts : list AttemptView) (t : AttemptRef) : option AttemptView :=
  find (fun a => pystr_eqb (at_attempt_id a) (ar_attempt_id t) && (at_generation a =? ar_generation t)) attempts.

Section Requests.
Context {digests : Digests}.

Definition request_digest (r : Request) : result pystr := let* t := request_json r in Ok (sha256 t).

(** ** Proofs about requests *)

Definition missing_episode (scope : Scope) (a b : option DecisionId) : bool :=
  is_attempt_owner (sc_owner scope) && (negb (is_Some_b a) || negb (is_Some_b b)).

Definition request_payload (record : RequestRecord) (expected : Request) : result (Verdict RequestRecord) :=
  let compared :=
    let* a := request_json (rr_request record) in
    let* b := request_json expected in
    if negb (pystr_eqb a b) then Ok (Some PF_PAYLOAD) else
    let* d := request_digest expected in
    Ok (if negb (pystr_eqb (rr_payload_digest record) d) then Some PF_DIGEST else None) in
  let* differs :=
    match compared with
    | Err e => if is_type_or_value_error e then Ok (Some PF_PAYLOAD) else Err e
    | ok => ok
    end in
  match differs with
  | Some f => Ok (Mismatch f)
  | None =>
    if negb (bool_decide (rr_lifecycle record = request_lifecycle expected))
    then Ok (Mismatch PF_LIFECYCLE) else Ok (Proven record)
  end.

Definition request_matches (record : RequestRecord) (expected : Request) : result (Verdict RequestRecord) :=
  let request := rr_request record in
  match rb_request_id expected, rb_request_id request with
  | Some wanted, Some named =>
    if missing_episode (rb_scope request) (rb_admission_id request) (rb_admission_id expected)
    then Ok (Missing ABSENT_EPISODE) else
    match identity_mismatch
      [same PF_REQUEST_ID (rr_request_id record) wanted;
       same PF_REQUEST_ID named wanted;
       same PF_SCOPE (sc_owner (rb_scope request)) (sc_owner (rb_scope expected));
       same PF_GENERATION (sc_generation (rb_scope request)) (sc_generation (rb_scope expected));
       same PF_ADMISSION_ID (rb_admission_id request) (rb_admission_id expected)] with
    | Some f => Ok (Mismatch f)
    | None => request_payload record expected
    end
  | _, _ => Ok (Missing ABSENT_REQUEST)
  end.

Definition observation_for (record : RequestRecord) (observation : option Observation) : Verdict Observation :=
  let request := rr_request record in
  match rb_request_id request, observation with
  | None, _ => Missing ABSENT_REQUEST
  | Some _, None => Missing ABSENT_OBSERVATION
  | Some named, Some o =>
    if missing_episode (rb_scope request) (rb_admission_id request) (ob_admission_id o)
    then Missing ABSENT_EPISODE else
    match identity_mismatch
      [same PF_REQUEST_ID (ob_request_id o) (rr_request_id record);
       same PF_REQUEST_ID named (rr_request_id record);
       same PF_SCOPE (sc_owner (ob_scope o)) (sc_owner (rb_scope request));
       same PF_GENERATION (sc_generation (ob_scope o)) (sc_generation (rb_scope request));
       same PF_ADMISSION_ID (ob_admission_id o) (rb_admission_id request)] with
    | Some f => Mismatch f
    | None => Proven o
    end
  end.

(** [fresh_observation] against the at most one observation the ledger keeps of a request. *)
Definition fresh_observation (previous : option Observation) (incoming : Observation) : Verdict Observation :=
  match previous with
  | None => Proven incoming
  | Some row =>
    if negb (pystr_eqb (ob_request_id row) (ob_request_id incoming)) then Proven incoming else
    if (is_attempt_owner (sc_owner (ob_scope row)) && negb (is_Some_b (ob_admission_id row)))
       || (is_attempt_owner (sc_owner (ob_scope incoming)) && negb (is_Some_b (ob_admission_id incoming)))
    then Missing ABSENT_EPISODE else
    match identity_mismatch
      [same PF_SCOPE (sc_owner (ob_scope incoming)) (sc_owner (ob_scope row));
       same PF_GENERATION (sc_generation (ob_scope incoming)) (sc_generation (ob_scope row));
       same PF_ADMISSION_ID (ob_admission_id incoming) (ob_admission_id row)] with
    | Some f => Mismatch f
    | None =>
      if (ob_sequence incoming <? ob_sequence row)
         || ((ob_sequence incoming =? ob_sequence row) && negb (obs_eqb incoming row))
      then Mismatch PF_SEQUENCE else Proven incoming
    end
  end.

Definition descriptor_matches (registry offered : list OperationDescriptor) (wire : OperationWire)
    (lifecycle : LifecycleClass) (normalization : OperationNormalizationKind) : Verdict OperationDescriptor :=
  let named d := pystr_eqb (os_kind (od_schema d)) (os_kind (ow_schema_ref wire)) in
  match List.filter named registry, List.filter named offered with
  | [], _ | _, [] => Missing ABSENT_DECLARATION
  | [row], [offer] =>
    match identity_mismatch
      [same PF_SCHEMA (os_request_schema (od_schema row)) (os_request_schema (ow_schema_ref wire));
       same PF_SCHEMA (os_outcome_schema (od_schema row)) (os_outcome_schema (ow_schema_ref wire));
       same PF_LIFECYCLE (os_lifecycle (od_schema row)) lifecycle;
       same PF_LIFECYCLE (os_lifecycle (ow_schema_ref wire)) lifecycle;
       same PF_NORMALIZATION (od_normalization row) normalization;
       same PF_RESOURCE_ID (od_resource_pool row) (od_resource_pool offer);
       same PF_SCHEMA (os_request_schema (od_schema row)) (os_request_schema (od_schema offer));
       same PF_SCHEMA (os_outcome_schema (od_schema row)) (os_outcome_schema (od_schema offer));
       same PF_SCHEMA (od_inspect row, od_cancel row, od_watch row) (od_inspect offer, od_cancel offer, od_watch offer);
       same PF_LIFECYCLE (os_lifecycle (od_schema row)) (os_lifecycle (od_schema offer));
       same PF_NORMALIZATION (od_normalization row) (od_normalization offer);
       same PF_REVISION (od_revision_authority row) (od_revision_authority offer)] with
    | Some f => Mismatch f
    | None => Proven row
    end
  | _, _ => Mismatch PF_SCHEMA
  end.

(** ** Dependencies *)

Definition request_dependency (rows : list RequestRecord) : result (Verdict RequestRecord) :=
  match rows with
  | [] => Ok (Missing ABSENT_REQUEST)
  | [row] =>
    let* proof := request_matches row (rr_request row) in
    match proof with
    | Proven _ =>
      if negb (bool_decide (rr_phase row = RQ_COMPLETED)) then Ok (Missing UNRESOLVED) else
      Ok match observation_for row (rr_observation row) with
         | Missing r => Missing r
         | Mismatch f => Mismatch f
         | Proven o =>
           if ob_accepted o && ob_terminal o && bool_decide (ob_status o = OBS_SUCCEEDED)
           then Proven row else Mismatch PF_STATUS
         end
    | refused => Ok refused
    end
  | _ => Ok (Mismatch PF_REQUEST_ID)
  end.

Definition is_proven {T} (v : Verdict T) : bool := match v with Proven _ => true | _ => false end.
Definition unresolved {T} (v : Verdict T) : bool := match v with Missing UNRESOLVED => true | _ => false end.

Definition dependencies_for (request : Request) (records : RecordsState) : result (Verdict Request) :=
  let* proofs := mapM_result (fun i => request_dependency (find_records records i)) (rb_depends_on request) in
  match List.filter (fun p => negb (is_proven p)) proofs with
  | [] => Ok (Proven request)
  | failures =>
    Ok match find (fun p => negb (unresolved p)) failures with
       | Some (Missing r) => Missing r
       | Some (Mismatch f) => Mismatch f
       | _ => Missing UNRESOLVED
       end
  end.

Inductive DependencyStatus := DS_PENDING | DS_SUCCEEDED | DS_FAILED.
#[export] Instance DependencyStatus_eq_dec : EqDecision DependencyStatus.
Proof. solve_decision. Defined.

Definition request_dependency_status (request : Request) (receipts : list DecisionReceipt)
    (records : RecordsState) : result DependencyStatus :=
  let* denied :=
    match rb_decision_id request with
    | Some i => let* p := accepted_receipt_for receipts (Some i) None in Ok (negb (is_proven p))
    | None => Ok false
    end in
  if (denied : bool) then Ok DS_FAILED else
  let* proof := dependencies_for request records in
  Ok match proof with
     | Proven _ => DS_SUCCEEDED
     | Missing UNRESOLVED | Missing ABSENT_REQUEST => DS_PENDING
     | _ => DS_FAILED
     end.

(** The reasons that may still change. *)
Definition not_yet_known (r : ProofReason) : bool :=
  match r with UNRESOLVED | ABSENT_REQUEST | ABSENT_RECEIPT => true | _ => false end.
Definition concluded_failure {T} (v : Verdict T) : bool :=
  match v with
  | Mismatch PF_STATUS => true
  | Missing r => negb (not_yet_known r)
  | _ => false
  end.
Definition dependency_failed (request : Request) (records : RecordsState) : result bool :=
  let* proofs := mapM_result (fun i => request_dependency (find_records records i)) (rb_depends_on request) in
  Ok (existsb concluded_failure proofs).

(** ** Release *)

Definition resolved_observation (observation : option Observation) : Verdict Observation :=
  match observation with
  | None => Missing ABSENT_OBSERVATION
  | Some o =>
    if negb (ob_terminal o) || negb (ob_released o)
       || bool_decide (ob_status o = OBS_UNKNOWN) || bool_decide (ob_status o = OBS_PENDING)
    then Missing UNRESOLVED else
    if negb (ob_children_complete o) then Missing INCOMPLETE_MANIFEST else Proven o
  end.

Definition release_source (o : Observation) (source : RequestRecord) : result (Verdict Observation) :=
  let request := rr_request source in
  match rb_request_id request with
  | None => Ok (Missing ABSENT_REQUEST)
  | Some named =>
    if missing_episode (rb_scope request) (rb_admission_id request) (ob_admission_id o)
    then Ok (Missing ABSENT_EPISODE) else
    match identity_mismatch
      [same PF_REQUEST_ID named (rr_request_id source);
       same PF_REQUEST_ID (ob_request_id o) (rr_request_id source);
       same PF_SCOPE (sc_owner (ob_scope o)) (sc_owner (rb_scope request));
       same PF_GENERATION (sc_generation (ob_scope o)) (sc_generation (rb_scope request));
       same PF_ADMISSION_ID (ob_admission_id o) (rb_admission_id request)] with
    | Some f => Ok (Mismatch f)
    | None =>
      let* canonical := request_matches source request in
      Ok match canonical with Proven _ => Proven o | Missing r => Missing r | Mismatch f => Mismatch f end
    end
  end.

Definition release_nonownership (o : Observation) : bool :=
  negb (ob_accepted o) && match ob_status o with OBS_REJECTED | OBS_FAILED | OBS_CANCELLED => true | _ => false end.

(** [released_owner] of a record. *)
Definition released_record (owner : RequestRecord) : result (Verdict Observation) :=
  match rr_observation owner with
  | None => Ok (Missing ABSENT_OBSERVATION)
  | Some o =>
    if match rr_lifecycle owner with OWNED_JOB | SESSION_TURN => true | _ => false end
       && negb (is_Some_b (ob_resource_id o)) && negb (release_nonownership o)
    then Ok (Missing ABSENT_RESOURCE) else
    let* source := release_source o owner in
    Ok match source with Proven _ => resolved_observation (Some o) | refused => refused end
  end.

(** ** Dispatch episodes *)

Definition current_admission (attempt : AttemptView) (scope : Scope) (episode : option DecisionId)
  : Verdict DecisionId :=
  match episode, at_admission_id attempt with
  | Some e, Some admission =>
    if negb (bool_decide (AttemptOwner (at_attempt_id attempt) = sc_owner scope)) then Mismatch PF_SCOPE else
    if negb (at_generation attempt =? sc_generation scope) then Mismatch PF_GENERATION else
    if negb (pystr_eqb admission e) then Mismatch PF_ADMISSION_ID else Proven e
  | _, _ => Missing ABSENT_EPISODE
  end.

Definition scope_admission (context : RecordsContext) (scope : Scope) : option DecisionId :=
  match scope_attempt scope with
  | Some t => match find_owner (rx_attempts context) t with Some a => at_admission_id a | None => None end
  | None => None
  end.

Definition retirement_dispatch (request : Request) : bool :=
  match rb_body request with
  | InspectRequest _ _ | InspectTurn _ _ | InspectOwnedJob _ | ObserveOwnedJob _ | CancelOwnedResource _ _
  | CancelTurn _ | CancelOwnedJob _ | BlockRequest _ _ => true
  | _ => false
  end.

Definition episode_recorded (context : RecordsContext) (request : Request) : result bool :=
  let run := rx_run context in
  match scope_attempt (rb_scope request) with
  | None => Ok true
  | Some t =>
    let* proof := accepted_receipt_for (ru_receipts run) (rb_admission_id request) None in
    Ok match proof with
       | Proven receipt =>
         match dr_decision receipt with
         | Some (C_Start d) =>
           bool_decide (sc_owner (sa_scope d) = RunOwner (ru_run_id run))
           && pystr_eqb (sa_attempt_id d) (ar_attempt_id t) && (sc_generation (sa_scope d) =? ar_generation t)
         | Some (C_Operation d) =>
           bool_decide (sc_owner (op_scope d) = RunOwner (ru_run_id run))
           && match op_normalized_scope_reopen d with Some n => bool_decide (sn_attempt n = t) | None => false end
         | _ => false
         end
       | _ => false
       end
  end.

(** The attempt a workspace cleanup names. *)
Definition cleanup_attempt (request : Request) : option AttemptRef :=
  match rb_body request with
  | CloseAttemptScope a | DiscardWorkspace a | RetainRevision a _ _ | SnapshotAndRetain a _ _ => Some a
  | _ => None
  end.
Definition cleanup_is_for (request : Request) (t : AttemptRef) : bool :=
  match cleanup_attempt request with Some a => bool_decide (a = t) | None => true end.

Definition operation_record (i : pystr) (scope : Scope) (record : RequestRecord) : bool :=
  match rb_body (rr_request record) with
  | ExecuteRegisteredOperation o _ _ _ => pystr_eqb o i && bool_decide (rb_scope (rr_request record) = scope)
  | _ => false
  end.

Definition retirement_target_matches (context : RecordsContext) (records : RecordsState) (request : Request)
    (decision : Command) : result bool :=
  let* recorded := episode_recorded context request in
  if negb recorded then Ok false else
  match decision with
  | C_Finish d =>
    let* stop := committed_stop (rx_run context) in
    Ok match stop with Proven s => bool_decide (s = d) | _ => false end
  | C_Withdraw d =>
    Ok match wd_target d with
       | W_Attempt t =>
         bool_decide (rb_scope request = mk_Scope (AttemptOwner (ar_attempt_id t)) (ar_generation t))
         && cleanup_is_for request t
       | W_Invocation t =>
         existsb (fun i => bool_decide (in_invocation i = t) && bool_decide (in_scope i = rb_scope request))
           (rx_invocations context)
       | W_Operation t => existsb (operation_record (or_operation_id t) (rb_scope request)) (re_records records)
       end
  | _ => Ok false
  end.

Definition session_retirement_matches (context : RecordsContext) (request : Request) (session : SessionId)
  : bool :=
  if is_attempt_owner (sc_owner (rb_scope request))
     && negb (opt_eqb (scope_admission context (rb_scope request)) (rb_admission_id request))
  then false else
  existsb (fun s => pystr_eqb (sv_session_id s) session && bool_decide (sv_scope s = rb_scope request))
    (rx_sessions context).

Definition closure_retirement (context : RecordsContext) (request : Request) : bool :=
  match scope_attempt (rb_scope request) with
  | None => false
  | Some t =>
    match find_owner (rx_attempts context) t with
    | None => false
    | Some owner =>
      match at_closure owner with
      | None => false
      | Some closure =>
        if negb (opt_eqb (Some (cl_admission_id closure)) (rb_admission_id request)) then false else
        if negb (cleanup_is_for request t) then false else
        let names (e : ReleaseDependency) : bool :=
          match rb_request_id request, rd_kind e with
          | Some i, (DK_REQUEST | DK_WORKSPACE) => pystr_eqb (rd_identity e) i
          | _, _ => false
          end
          || match rb_body request, rd_kind e with
             | CloseSession session _ _, DK_SESSION => pystr_eqb (rd_identity e) session
             | ExecuteRegisteredOperation o _ _ _, DK_OPERATION => pystr_eqb (rd_identity e) o
             | _, _ => false
             end in
        opt_eqb (rb_request_id request) (Some (cl_authority closure))
        || existsb names (at_release_dependencies owner)
      end
    end
  end.

Definition registered_retirement (context : RecordsContext) (records : RecordsState) (request : Request)
  : result bool :=
  let kind :=
    match rb_body request with
    | ExecuteRegisteredOperation _ operation _ _ =>
      bool_decide (os_lifecycle (ow_schema_ref operation) = IDEMPOTENT_WRITE)
    | CloseAttemptScope _ | CloseSession _ _ _ | DiscardWorkspace _ | RetainRevision _ _ _
    | SnapshotAndRetain _ _ _ => true
    | _ => false
    end in
  if negb kind then Ok false else
  let* authority := accepted_receipt_for (ru_receipts (rx_run context)) (rb_decision_id request) None in
  let* decided :=
    match authority with
    | Proven receipt =>
      match dr_decision receipt with
      | Some d => match d with
                  | C_Withdraw _ | C_Finish _ => retirement_target_matches context records request d
                  | _ => Ok false
                  end
      | None => Ok false
      end
    | _ => Ok false
    end in
  Ok ((decided || closure_retirement context request)
      && match rb_body request with
         | ExecuteRegisteredOperation _ _ _ _ | SnapshotAndRetain _ _ _ | DiscardWorkspace _ | CloseSession _ _ _ =>
           negb (is_attempt_owner (sc_owner (rb_scope request)))
           || opt_eqb (scope_admission context (rb_scope request)) (rb_admission_id request)
         | _ => true
         end
      && match rb_body request with
         | CloseSession session _ _ => session_retirement_matches context request session
         | _ => true
         end).

Definition dispatch_episode_current (context : RecordsContext) (records : RecordsState) (request : Request)
  : result bool :=
  match scope_attempt (rb_scope request) with
  | None => Ok true
  | Some t =>
    if bool_decide (request_lifecycle request = QUERY) || retirement_dispatch request then Ok true else
    let* retirement := registered_retirement context records request in
    if (retirement : bool) then Ok true else
    Ok match find_owner (rx_attempts context) t with
       | None => false
       | Some owner =>
         is_proven (current_admission owner (rb_scope request) (rb_admission_id request))
         && match at_phase owner with PH_ACQUIRING | PH_ACTIVE => true | _ => false end
       end
  end.

Definition is_cleanup_kind (request : Request) : bool :=
  match rb_body request with
  | CloseAttemptScope _ | CloseSession _ _ _ | DiscardWorkspace _ | RetainRevision _ _ _ | SnapshotAndRetain _ _ _ => true
  | _ => false
  end.

Definition inspection_moot (records : RecordsState) (target : RequestId) : bool :=
  match find_records records target with
  | [] => false
  | record :: _ =>
    match rr_observation record with
    | Some o =>
      bool_decide (rr_phase record = RQ_COMPLETED) && bool_decide (ob_status o = OBS_CANCELLED)
      && negb (ob_accepted o) && ob_terminal o && ob_released o
    | None => false
    end
  end.

Definition episode_ended (context : RecordsContext) (records : RecordsState) (request : Request) : result bool :=
  if negb (bool_decide (re_recovery_phase records = READY)) then Ok false else
  match rb_body request with
  | InspectRequest target _ => Ok (inspection_moot records target)
  | _ =>
    if is_cleanup_kind request then Ok false else
    let* current := dispatch_episode_current context records request in Ok (negb current)
  end.

End Requests.
