(* ===== verification/RequestLedger.v ===== *)
(** The request ledger of vs-core (src/libs/vs-core, _request_ledger.py): the durable record of every
    request core has authorized. [register_requests] (_step.py) adds prepared records;
    [advance_ledger] consumes the seven ledger events and forwards each fresh fact to the area that
    owns it (_request_forward.py). *)
From S2P Require Import Prelude Floats CoreValues CoreProofs WaitClock Requests.

(** ** Facts and events (types/records.py) *)

(** What [RequestObserved] and [TargetObservation] share. Evidence, progress, failures, reply errors,
    suspensions and evaluation facts are canonical text: the ledger only passes them on. *)
Record Facts := mk_Facts {
  fa_observation : Observation;
  fa_setup_failure : pystr;
  fa_revision : option RevisionRef;
  fa_evidence : pystr;
  fa_progress : option pystr;
  fa_measurement_failure : option pystr;
  fa_evaluation_result : option pystr;
  fa_suspension : option pystr;
  fa_outcome_schema : option SchemaRef;
  fa_outcome_json : option pystr;
  fa_reply_errors : pystr;
  fa_outcome : option Outcome;
  fa_operation_schema : option OperationSchemaRef;
  fa_outcome_is_registered : bool
}.
#[export] Instance Facts_eta : Eta Facts := fun f =>
  mk_Facts (fa_observation f) (fa_setup_failure f) (fa_revision f) (fa_evidence f) (fa_progress f)
    (fa_measurement_failure f) (fa_evaluation_result f) (fa_suspension f) (fa_outcome_schema f)
    (fa_outcome_json f) (fa_reply_errors f) (fa_outcome f) (fa_operation_schema f) (fa_outcome_is_registered f).
(** A [TargetObservation] with defaults for everything but its observation. *)
Definition only_observed (o : Observation) : Facts :=
  mk_Facts o (py "unknown") None [] None None None None None None [] None None false.

Inductive ReissueProof := NEVER_BEGAN | BEGUN_UNSEALED.
#[export] Instance ReissueProof_eq_dec : EqDecision ReissueProof.
Proof. solve_decision. Defined.

Record TargetObservation := mk_TargetObservation {
  ta_facts : Facts;
  ta_target_resource : option ResourceId;
  ta_reissue : option ReissueProof
}.

Inductive RecordsEvent :=
| RequestPrepared (request : Request) (until : Until) (lifecycle : LifecycleClass)
    (normalized_turn : option pystr) (normalized_measurement : option pystr)
| DispatchAuthorized (request_id : RequestId) (now_at : option Seconds)
| RequestObserved (facts : Facts) (target : option TargetObservation)
| OperationRetireRequested (operation : OperationRef) (scope : Scope)
| RetryDue (request_id : RequestId) (now_at : Seconds)
| RequestUndispatchable (request_id : RequestId)
| BlockedRecordStalled (request_id : RequestId).

(** ** Signals, by the area that consumes them *)

Inductive LedgerSignal :=
| RevisionOperationRequested (request : Request) (authority : RevisionAuthority) (until : Until)
| RegisteredTurnRequested (request : Request) (turn : pystr) (until : Until)
| RegisteredJobRequested (request : Request) (pool : PoolId) (expected : option pystr)
| RevisionOperationObserved (operation_id : pystr) (o : Observation) (revision : option RevisionRef)
| TurnObserved (invocation : InvocationRef) (o : Observation) (suspension : option pystr)
    (output_schema : option SchemaRef) (output_json : option pystr) (reply_errors : pystr)
| RegisteredJobObserved (operation_id : pystr) (o : Observation) (progress : option pystr) (evidence : pystr)
    (evaluation_result : option pystr)
| ScopeAdmissionReopened (attempt : AttemptRef) (continuation_id : ContinuationId) (park_authority : RequestId)
    (operation_id : pystr) (o : Observation) (admission : pystr)
| ReleaseDependencyObserved (attempt : AttemptRef) (dependency : ReleaseDependency) (o : Observation)
| WorkspaceObserved (attempt : AttemptRef) (o : Observation) (revision : option RevisionRef)
| SessionObserved (session_id : SessionId) (o : Observation) (failure : pystr)
| RunInvocationCheckpointObserved (invocation : InvocationRef) (checkpoint_request : RequestId) (o : Observation)
    (revision : option RevisionRef)
| MeasurementSubmissionObserved (o : Observation) (failure : option pystr)
| JobObserved (resource_id : ResourceId) (o : Observation) (progress : option pystr) (evidence : pystr)
    (evaluation_result : option pystr)
| AdoptionObserved (o : Observation) (revision : option RevisionRef)
| DecisionCompleted (decision_id : DecisionId) (status : CompletionStatus).

#[export] Instance Until_eq_dec : EqDecision Until.
Proof. solve_decision. Defined.
#[export] Instance LedgerSignal_eq_dec : EqDecision LedgerSignal.
Proof. solve_decision. Defined.
#[export] Instance OutboundUntil_eq_dec : EqDecision OutboundUntil.
Proof. solve_decision. Defined.
#[export] Instance Outbound_eq_dec : EqDecision Outbound.
Proof. solve_decision. Defined.

(** Signals and outbound requests with their times as numbers: what equality compares. *)
Definition comparable_until (u : Until) : Until := mk_Until (same_time (un_at u)) (un_watches u).
Definition comparable_signal (s : LedgerSignal) : LedgerSignal :=
  match s with
  | RevisionOperationRequested r a u => RevisionOperationRequested r a (comparable_until u)
  | RegisteredTurnRequested r t u => RegisteredTurnRequested r t (comparable_until u)
  | RegisteredJobRequested r p e => RegisteredJobRequested r p e
  | RevisionOperationObserved i o r => RevisionOperationObserved i (comparable o) r
  | TurnObserved i o x s j e => TurnObserved i (comparable o) x s j e
  | RegisteredJobObserved i o p e r => RegisteredJobObserved i (comparable o) p e r
  | ScopeAdmissionReopened a c p i o m => ScopeAdmissionReopened a c p i (comparable o) m
  | ReleaseDependencyObserved a d o => ReleaseDependencyObserved a d (comparable o)
  | WorkspaceObserved a o r => WorkspaceObserved a (comparable o) r
  | SessionObserved i o f => SessionObserved i (comparable o) f
  | RunInvocationCheckpointObserved i c o r => RunInvocationCheckpointObserved i c (comparable o) r
  | MeasurementSubmissionObserved o f => MeasurementSubmissionObserved (comparable o) f
  | JobObserved i o p e r => JobObserved i (comparable o) p e r
  | AdoptionObserved o r => AdoptionObserved (comparable o) r
  | DecisionCompleted i s => DecisionCompleted i s
  end.
Definition signal_eqb (a b : LedgerSignal) : bool := bool_decide (comparable_signal a = comparable_signal b).
Definition comparable_outbound (o : Outbound) : Outbound :=
  mk_Outbound (ou_request o)
    match ou_until o with
    | Within limit watches => Within (same_time limit) watches
    | Inherited => Inherited
    | AtUntil u => AtUntil (comparable_until u)
    | FromDispatch limit watches => FromDispatch (same_time limit) watches
    end.
Definition outbound_eqb (a b : Outbound) : bool := bool_decide (comparable_outbound a = comparable_outbound b).

(** [tuple(dict.fromkeys(...))]: the first of each. *)
Definition fromkeys {A} (eqb : A -> A -> bool) (l : list A) : list A :=
  foldl (fun seen x => if existsb (eqb x) seen then seen else seen ++ [x]) [] l.

(** [OperationResult], the event a search receives. *)
Record OperationResult := mk_OperationResult {
  op_result_operation : pystr;
  op_result_observation : Observation;
  op_result_schema : OperationSchemaRef;
  op_result_json : option pystr;
  op_result_outcome : Outcome
}.

Record LedgerChange := mk_LedgerChange {
  lc_state : RecordsState;
  lc_signals : list LedgerSignal;
  lc_requests : list Outbound;
  lc_events : list OperationResult
}.
Definition kept (state : RecordsState) : LedgerChange := mk_LedgerChange state [] [] [].

(** A request identity conflict and the other typed rejections. *)
Definition ledger_error (path detail : string) : exn := ContractError path detail.
Definition ClosedRecordContradiction : exn := ledger_error "observation" "a later answer contradicts the closed request".

Section Ledger.
Context {digests : Digests}.

(** ** Forwarding (_request_forward.py) *)

Definition declaration (context : RecordsContext) (operation : OperationWire) : result OperationDescriptor :=
  match List.filter (fun d => pystr_eqb (os_kind (od_schema d)) (os_kind (ow_schema_ref operation)))
          (rx_registry context) with
  | [row] =>
    match descriptor_matches (rx_registry context) (ru_operations (rx_run context)) operation
            (os_lifecycle (ow_schema_ref operation)) (od_normalization row) with
    | Proven d => Ok d
    | _ => Err (ledger_error "operation" "requires an exact offered declaration")
    end
  | _ => Err (ledger_error "operation.kind" "unregistered or ambiguous operation")
  end.

Definition records_own (d : OperationDescriptor) : bool :=
  match os_lifecycle (od_schema d) with QUERY | IDEMPOTENT_WRITE => true | _ => false end
  && bool_decide (od_revision_authority d = RA_NONE) && negb (bool_decide (od_normalization d = SCOPE_REOPEN)).

(** The one invocation of a turn-dispatching request. *)
Definition invocation_of (context : RecordsContext) (request : Request) : result InvocationRef :=
  let matches :=
    match rb_body request with
    | ExecuteRegisteredOperation o _ _ _ =>
      List.filter (fun i => bool_decide (in_registered_operation i = Some o) && bool_decide (in_scope i = rb_scope request))
        (rx_invocations context)
    | DispatchTurn turn _ | ResumeSessionTurn turn _ _ _ =>
      List.filter (fun i => pystr_eqb (in_turn i) turn && bool_decide (in_scope i = rb_scope request))
        (rx_invocations context)
    | _ => []
    end in
  match matches with
  | [i] => Ok (in_invocation i)
  | _ => Err (ledger_error "request_id" "turn observation needs one canonical invocation")
  end.

Definition or_else {A} (a b : option A) : option A := match a with Some x => Some x | None => b end.
Definition output_schema (facts : Facts) : option SchemaRef :=
  or_else (fa_outcome_schema facts) (option_map os_outcome_schema (fa_operation_schema facts)).

Definition reopened (context : RecordsContext) (request : Request) (operation_id : pystr) (facts : Facts)
  : result (list LedgerSignal) :=
  let o := fa_observation facts in
  let receipt :=
    find (fun r => bool_decide (Some (dr_decision_id r) = rb_decision_id request)) (ru_receipts (rx_run context)) in
  match match receipt with Some r => dr_decision r | None => None end with
  | Some (C_Operation d) =>
    match op_normalized_scope_reopen d with
    | None => Err (ledger_error "operation" "scope reopen requires its canonical normalization")
    | Some n =>
      let said := match fa_outcome facts with Some (ScopedAdmissionReopenOutcome _ a) => a | _ => py "unknown" end in
      let admission :=
        if negb (bool_decide (ob_status o = OBS_SUCCEEDED)) || negb (ob_terminal o)
        then (if ob_terminal o then py "closed" else py "unknown") else said in
      Ok [ScopeAdmissionReopened (sn_attempt n) (sn_continuation_id n) (sn_park_authority n) operation_id o admission]
    end
  | _ => Err (ledger_error "operation" "scope reopen requires its canonical normalization")
  end.

Definition registered_signal (context : RecordsContext) (record : RequestRecord) (operation_id : pystr)
    (operation : OperationWire) (facts : Facts) : result (list LedgerSignal) :=
  let o := fa_observation facts in
  let request := rr_request record in
  let* d := declaration context operation in
  if bool_decide (od_normalization d = SCOPE_REOPEN) then reopened context request operation_id facts else
  if negb (bool_decide (od_revision_authority d = RA_NONE))
  then Ok [RevisionOperationObserved operation_id o (fa_revision facts)] else
  match os_lifecycle (od_schema d) with
  | SESSION_TURN =>
    let* i := invocation_of context request in
    Ok [TurnObserved i o (fa_suspension facts) (output_schema facts) (fa_outcome_json facts) (fa_reply_errors facts)]
  | OWNED_JOB =>
    Ok [RegisteredJobObserved operation_id o (fa_progress facts) (fa_evidence facts) (fa_evaluation_result facts)]
  | _ => Ok []
  end.

Definition success_without_reply (o : Observation) : bool :=
  ob_terminal o && ob_accepted o && bool_decide (ob_status o = OBS_SUCCEEDED).
Definition reply_owed (o : Observation) (facts : Facts) : bool :=
  success_without_reply o && negb (is_Some_b (fa_suspension facts)) && negb (is_Some_b (fa_outcome_json facts)).

Definition owner_signal (context : RecordsContext) (record : RequestRecord) (facts : Facts)
  : result (list LedgerSignal) :=
  let o := fa_observation facts in
  match rb_body (rr_request record) with
  | ExecuteRegisteredOperation i operation _ _ => registered_signal context record i operation facts
  | EnsureWorkspace a _ | RestoreRevision a _ | SnapshotAndRetain a _ _ | RetainRevision a _ _
  | DiscardWorkspace a | CloseAttemptScope a => Ok [WorkspaceObserved a o (fa_revision facts)]
  | EnsureSession spec _ => Ok [SessionObserved (sp_session_id spec) o (fa_setup_failure facts)]
  | CloseSession i _ _ => Ok [SessionObserved i o (fa_setup_failure facts)]
  | DispatchTurn _ _ | ResumeSessionTurn _ _ _ _ =>
    if reply_owed o facts then Ok [] else
    let* i := invocation_of context (rr_request record) in
    Ok [TurnObserved i o (fa_suspension facts) (fa_outcome_schema facts) (fa_outcome_json facts) (fa_reply_errors facts)]
  | SnapshotAndRetainRun i _ => Ok [RunInvocationCheckpointObserved i (ob_request_id o) o (fa_revision facts)]
  | SubmitMeasurement _ => Ok [MeasurementSubmissionObserved o (fa_measurement_failure facts)]
  | ObserveOwnedJob i | InspectOwnedJob i | CollectEvidence i | CancelOwnedJob i =>
    Ok [JobObserved (match ob_resource_id o with Some r => r | None => i end) o (fa_progress facts)
          (fa_evidence facts) (fa_evaluation_result facts)]
  | AdoptRevision _ | VerifyAdoption _ => Ok [AdoptionObserved o (fa_revision facts)]
  | _ => Ok []
  end.

Definition releases (context : RecordsContext) (record : RequestRecord) (o : Observation) : list LedgerSignal :=
  if negb (ob_terminal o) then [] else
  concat (map (fun owner =>
    if is_Some_b (at_closure owner) then
      map (fun edge => ReleaseDependencyObserved (attempt_ref owner) edge o)
        (List.filter (fun edge =>
           match rd_kind edge with DK_REQUEST | DK_WORKSPACE => true | _ => false end
           && pystr_eqb (rd_identity edge) (rr_request_id record)) (at_release_dependencies owner))
    else []) (rx_attempts context)).

Definition owner_signals (context : RecordsContext) (record : RequestRecord) (facts : Facts)
  : result (list LedgerSignal) :=
  let* s := owner_signal context record facts in
  Ok (s ++ releases context record (fa_observation facts)).

(** ** Records *)

Definition unique (state : RecordsState) (i : RequestId) : result (option RequestRecord) :=
  match find_records state i with
  | [] => Ok None
  | [row] => Ok (Some row)
  | _ => Err (ledger_error "request_id" "ambiguous canonical request identity")
  end.

Definition replace_record (state : RecordsState) (record : RequestRecord) : RecordsState :=
  state <| re_records :=
    map (fun r => if pystr_eqb (rr_request_id r) (rr_request_id record) then record else r) (re_records state) |>.

Definition conclusive_status (s : ObservationStatus) : bool :=
  match s with OBS_SUCCEEDED | OBS_FAILED | OBS_REJECTED | OBS_CANCELLED => true | _ => false end.
Definition conclusive (o : Observation) : bool := ob_terminal o && conclusive_status (ob_status o).
Definition replayable (l : LifecycleClass) : bool := match l with QUERY | IDEMPOTENT_WRITE => true | _ => false end.

(** [_finish]: sequential changes merged; signals and requests keep their order without repeats. *)
Definition finish_change (change more : LedgerChange) : LedgerChange :=
  mk_LedgerChange (lc_state more) (fromkeys signal_eqb (lc_signals change ++ lc_signals more))
    (fromkeys outbound_eqb (lc_requests change ++ lc_requests more)) (lc_events change ++ lc_events more).

(** ** Registration *)

Definition route_operation (state : RecordsState) (context : RecordsContext) (request : Request)
    (operation : OperationWire) (until : Until) (normalized_turn normalized_measurement : option pystr)
  : result LedgerChange :=
  let* d := declaration context operation in
  raise (ledger_error "operation" "scope reopen enters through its own guarded event")
    when (bool_decide (od_normalization d = SCOPE_REOPEN)) in
  if negb (bool_decide (od_revision_authority d = RA_NONE)) then
    Ok (mk_LedgerChange state [RevisionOperationRequested request (od_revision_authority d) until] [] [])
  else if bool_decide (os_lifecycle (od_schema d) = SESSION_TURN) then
    match normalized_turn with
    | None => Err (ledger_error "normalized_turn" "registered turn requires its normalization")
    | Some turn => Ok (mk_LedgerChange state [RegisteredTurnRequested request turn until] [] [])
    end
  else
    match od_resource_pool d with
    | Some pool => Ok (mk_LedgerChange state [RegisteredJobRequested request pool normalized_measurement] [] [])
    | None => Ok (mk_LedgerChange state [] [mk_Outbound request (from_dispatch (rx_run context) until)] [])
    end.

Definition prepared_event (state : RecordsState) (context : RecordsContext) (request : Request) (until : Until)
    (lifecycle : LifecycleClass) (normalized_turn normalized_measurement : option pystr) : result LedgerChange :=
  raise (ledger_error "lifecycle" "differs from the canonical request class")
    when (negb (bool_decide (request_lifecycle request = lifecycle))) in
  let* previous := match rb_request_id request with Some i => unique state i | None => Ok None end in
  match previous with
  | Some previous =>
    let* d := request_digest request in
    raise (ledger_error "request_id" "request identity conflict")
      when (negb (pystr_eqb (rr_payload_digest previous) d)) in
    Ok (kept state)
  | None =>
    match rb_body request with
    | ExecuteRegisteredOperation _ operation _ _ =>
      route_operation state context request operation until normalized_turn normalized_measurement
    | _ => Ok (mk_LedgerChange state [] [mk_Outbound request (from_dispatch (rx_run context) until)] [])
    end
  end.

Definition dispatched_record (state : RecordsState) (context : RecordsContext) (record : RequestRecord)
  : RequestRecord :=
  let record := record <| rr_phase := RQ_DISPATCHED |> <| rr_dispatched_in := Some (rc_epoch (re_recovery state)) |> in
  match rr_limit_from_dispatch record, rr_dispatched_at record with
  | Some limit, None =>
    record <| rr_until := started_until (rx_run context) limit (un_watches (rr_until record)) |>
           <| rr_dispatched_at := Some (ru_now_at (rx_run context)) |>
  | _, _ => record
  end.

Definition dispatched (state : RecordsState) (context : RecordsContext) (i : RequestId) : result LedgerChange :=
  let* record := unique state i in
  match record with
  | None => Err (ledger_error "request_id" "dispatch names no canonical request")
  | Some record =>
    let go := Ok (kept (replace_record state (dispatched_record state context record))) in
    match rr_phase record with
    | RQ_PREPARED => go
    | RQ_DISPATCHED => Ok (kept state)
    | RQ_RECONCILING =>
      if replayable (rr_lifecycle record) then go
      else Err (ledger_error "phase" "reconciling request cannot be dispatched")
    | _ => Err (ledger_error "phase" "request cannot be dispatched")
    end
  end.

(** ** Retries *)

(** [RequestRetries.delay]: multiplying a float by an integer beyond its range raises. *)
Definition retry_delay (context : RecordsContext) (retries : Z) : result Seconds :=
  let r := li_request_retries (ru_limits (rx_run context)) in
  let n := Z.max (retries - 1) 0 in
  raise (OtherError "OverflowError" []) when (1024 <=? n) in
  Ok (min2 (f_mul (ry_backoff r) (f_of_Z (2 ^ n))) (ry_backoff_cap r)).

Definition retry_limit (context : RecordsContext) (record : RequestRecord) : Z :=
  match rb_body (rr_request record) with
  | ExecuteRegisteredOperation _ _ limit _ => limit
  | _ => ry_limit (li_request_retries (ru_limits (rx_run context)))
  end.

Definition next_phase (record : RequestRecord) (o : Observation) : RequestPhase * Z :=
  if conclusive o && negb (bool_decide (ob_status o = OBS_SUCCEEDED) && negb (ob_accepted o))
  then (RQ_COMPLETED, rr_retry_count record)
  else if bool_decide (ob_status o = OBS_UNKNOWN) || ob_terminal o
  then (RQ_RECONCILING, rr_retry_count record)
  else if retryable o then (RQ_DISPATCHED, rr_retry_count record + 1)
  else (RQ_DISPATCHED, rr_retry_count record).

Definition EXHAUSTED : pystr := py "retries-exhausted:".

Definition exhausted (context : RecordsContext) (record : RequestRecord) (facts : Facts) : Facts :=
  let o := fa_observation facts in
  if negb (retryable o) || (rr_retry_count record + 1 <=? retry_limit context record) then facts else
  only_observed
    (o <| ob_event_id := EXHAUSTED ++ rr_request_id record |> <| ob_sequence := ob_sequence o + 1 |>
       <| ob_accepted := false |> <| ob_terminal := true |> <| ob_released := true |>
       <| ob_children_complete := true |>).

(** [command_open] says whether a record is one of core's own commands. *)
Definition reissued_record (context : RecordsContext) (record : RequestRecord) : RequestRecord :=
  let until :=
    if command_open record then
      let fresh := f_add (ru_now_at (rx_run context)) (li_reconciliation_bound (ru_limits (rx_run context))) in
      mk_Until (max2 (rr_until_at record) fresh) (un_watches (rr_until record))
    else rr_until record in
  record <| rr_phase := RQ_PREPARED |> <| rr_observation := None |> <| rr_sequence := None |>
         <| rr_retry_at := None |> <| rr_until := until |>.
Definition reissue (state : RecordsState) (record : RequestRecord) (context : RecordsContext) : LedgerChange :=
  kept (replace_record state (reissued_record context record)).
Definition reissuable (record : RequestRecord) (proof : ReissueProof) : bool :=
  match rr_phase record with RQ_DISPATCHED | RQ_RECONCILING => true | _ => false end
  && negb (bool_decide (proof = BEGUN_UNSEALED) && bool_decide (rr_lifecycle record = SESSION_TURN)).

Definition retry_due (state : RecordsState) (context : RecordsContext) (i : RequestId) (now_at : Seconds)
  : result LedgerChange :=
  let* record := unique state i in
  match record with
  | None => Ok (kept state)
  | Some record =>
    match retry_wait_until record with
    | None => Ok (kept state)
    | Some due =>
      if f_lt (max2 (ru_now_at (rx_run context)) now_at) due
         || negb (bool_decide (re_recovery_phase state = READY))
      then Ok (kept state) else Ok (reissue state record context)
    end
  end.

(** ** Closing a record *)

Definition did_not_succeed (s : ObservationStatus) : bool :=
  match s with OBS_FAILED | OBS_REJECTED | OBS_CANCELLED => true | _ => false end.
Definition agrees (closed later : Observation) : bool :=
  bool_decide (ob_accepted later = ob_accepted closed) && opt_eqb (ob_resource_id later) (ob_resource_id closed)
  && (bool_decide (ob_status later = OBS_UNKNOWN) || bool_decide (ob_status later = ob_status closed)
      || (did_not_succeed (ob_status later) && did_not_succeed (ob_status closed))).

Definition refined (previous o : Observation) : Observation :=
  previous <| ob_event_id := ob_event_id o |> <| ob_sequence := ob_sequence o |>
           <| ob_observed_at := ob_observed_at o |>
           <| ob_released := ob_released previous || (ob_released o && negb (ob_released previous)) |>
           <| ob_children := ob_children previous
                ++ List.filter (fun c => negb (bool_decide (c ∈ ob_children previous))) (ob_children o) |>
           <| ob_children_complete := ob_children_complete previous
                || (ob_children_complete o && negb (ob_children_complete previous)) |>.

Definition refine_closed (state : RecordsState) (record : RequestRecord) (o : Observation) : result LedgerChange :=
  match rr_observation record with
  | None => Err ClosedRecordContradiction
  | Some previous =>
    if bool_decide (ob_status o = OBS_UNKNOWN) && negb (bool_decide (ob_accepted o = ob_accepted previous))
    then Ok (kept state) else
    raise ClosedRecordContradiction when (negb (agrees previous o)) in
    let added := List.filter (fun c => negb (bool_decide (c ∈ ob_children previous))) (ob_children o) in
    if bool_decide (added = []) && negb (ob_released o && negb (ob_released previous))
       && negb (ob_children_complete o && negb (ob_children_complete previous))
    then Ok (kept state) else
    let proven := refined previous o in
    Ok (kept (replace_record state
      (record <| rr_observation := Some proven |> <| rr_sequence := Some (ob_sequence proven) |>)))
  end.

(** [_record]. *)
Definition observed_record (record : RequestRecord) (facts : Facts) (phase : RequestPhase) (retries : Z)
    (retry_at : option Seconds) : RequestRecord :=
  let o := fa_observation facts in
  let record :=
    record <| rr_phase := phase |> <| rr_retry_count := retries |> <| rr_retry_at := retry_at |>
           <| rr_sequence := Some (ob_sequence o) |> <| rr_observation := Some o |>
           <| rr_setup_failure := fa_setup_failure facts |> <| rr_evaluation_result := fa_evaluation_result facts |>
           <| rr_suspension := fa_suspension facts |> in
  match fa_outcome facts, fa_operation_schema facts with
  | Some outcome, Some schema =>
    let record :=
      record <| rr_outcome_schema := Some (os_outcome_schema schema) |>
             <| rr_outcome_json := fa_outcome_json facts |> <| rr_outcome := Some outcome |> in
    if fa_outcome_is_registered facts then record <| rr_outcome_proof := Some (outcome, schema) |> else record
  | _, _ => record
  end.

Definition block_target (state : RecordsState) (record : RequestRecord) : result RecordsState :=
  match rb_body (rr_request record), rr_observation record with
  | BlockRequest i _, Some o =>
    if negb (bool_decide (ob_status o = OBS_SUCCEEDED)) then Ok state else
    let* blocked := unique state i in
    Ok match blocked with
       | Some t => if bool_decide (rr_phase t = RQ_COMPLETED) then state
                   else replace_record state (t <| rr_phase := RQ_BLOCKED |>)
       | None => state
       end
  | _, _ => Ok state
  end.

(** ** Completion of a decision *)

Definition completable (context : RecordsContext) (record : RequestRecord) : result bool :=
  match rb_body (rr_request record) with
  | CancelOwnedResource _ _ => Ok true
  | ExecuteRegisteredOperation _ operation _ _ =>
    let* d := declaration context operation in Ok (records_own d)
  | _ => Ok false
  end.

Definition completion_signal (context : RecordsContext) (i : DecisionId) (status : CompletionStatus)
  : result (list LedgerSignal) :=
  let* proof := accepted_receipt_for (ru_receipts (rx_run context)) (Some i) None in
  Ok match proof with
     | Proven r => if is_Some_b (dr_completion r) then [] else [DecisionCompleted (dr_decision_id r) status]
     | _ => []
     end.

Definition operation_result (context : RecordsContext) (record : RequestRecord) (facts : Facts)
  : result (list OperationResult) :=
  match rb_body (rr_request record) with
  | ExecuteRegisteredOperation i operation _ _ =>
    let* d := declaration context operation in
    Ok match records_own d, fa_operation_schema facts, fa_outcome facts, fa_outcome_is_registered facts with
       | true, Some schema, Some outcome, true =>
         [mk_OperationResult i (fa_observation facts) schema (fa_outcome_json facts) outcome]
       | _, _, _, _ => []
       end
  | _ => Ok []
  end.

Definition completion_of (s : ObservationStatus) : CompletionStatus :=
  match s with
  | OBS_SUCCEEDED => COMPLETED_OK
  | OBS_CANCELLED => COMPLETED_CANCELLED
  | _ => COMPLETED_FAILED
  end.

Definition complete_decision (context : RecordsContext) (record : RequestRecord) (facts : Facts)
  : result (list LedgerSignal * list OperationResult) :=
  let* own := completable context record in
  match rb_decision_id (rr_request record) with
  | Some i =>
    if negb own then Ok ([], []) else
    let* signals := completion_signal context i (completion_of (ob_status (fa_observation facts))) in
    let* results := operation_result context record facts in
    Ok (signals, results)
  | None => Ok ([], [])
  end.

(** ** Dependents *)

Definition unsent_cancellation (context : RecordsContext) (record : RequestRecord) : Facts :=
  let request := rr_request record in
  only_observed
    (mk_Observation (py "cancelled-unsent:" ++ rr_request_id record) (rr_request_id record) (rb_scope request)
       (match rr_observation record with Some o => ob_sequence o + 1 | None => 0 end)
       (ru_now_at (rx_run context)) OBS_CANCELLED None None false true true [] true None
       (rb_admission_id request) []).

(** [close] applies a conclusive fact core made itself ([_apply] of an unsent cancellation). *)
Definition cancel_one (close : RecordsState -> RequestRecord -> Facts -> result LedgerChange)
    (context : RecordsContext) (change : LedgerChange) (record : RequestRecord) : result LedgerChange :=
  let* current := unique (lc_state change) (rr_request_id record) in
  match current with
  | Some current =>
    if bool_decide (rr_phase current = RQ_PREPARED) then
      let* more := close (lc_state change) current (unsent_cancellation context current) in
      Ok (finish_change change more)
    else Ok change
  | None => Ok change
  end.
Definition cancel_prepared (close : RecordsState -> RequestRecord -> Facts -> result LedgerChange)
    (state : RecordsState) (context : RecordsContext) (doomed : list RequestRecord) : result LedgerChange :=
  foldM_result (cancel_one close context) (kept state) doomed.

Definition dependents (state : RecordsState) (failed : RequestRecord) : list RequestRecord :=
  List.filter (fun row => bool_decide (rr_phase row = RQ_PREPARED)
                          && bool_decide (rr_request_id failed ∈ rb_depends_on (rr_request row)))
    (re_records state).

(** ** Observations *)

Definition advance_phase (close : RecordsState -> RequestRecord -> Facts -> result LedgerChange)
    (state : RecordsState) (context : RecordsContext) (record : RequestRecord) (facts : Facts)
  : result LedgerChange :=
  let facts := exhausted context record facts in
  let o := fa_observation facts in
  let (phase, retries) := next_phase record o in
  let* retry_at :=
    if bool_decide (phase = RQ_DISPATCHED) && retryable o
    then let* d := retry_delay context retries in Ok (Some (f_add (ru_now_at (rx_run context)) d))
    else Ok None in
  let updated := observed_record record facts phase retries retry_at in
  let state := replace_record state updated in
  let* signals := owner_signals context updated facts in
  if bool_decide (phase = RQ_COMPLETED) then
    let* state := block_target state updated in
    let* completion := complete_decision context updated facts in
    let change := mk_LedgerChange state (fromkeys signal_eqb (signals ++ completion.1)) [] completion.2 in
    if negb (bool_decide (ob_status o = OBS_SUCCEEDED)) then
      let* more := cancel_prepared close state context (dependents state updated) in
      Ok (finish_change change more)
    else Ok change
  else Ok (mk_LedgerChange state signals [] []).

(** Fuel for the recursion through dependents; [apply_facts] gives one more than there are
    records, and each level closes a prepared record. The code's recursion is not bounded: what stands
    for its being cut short is no exception of the code's. *)
Definition out_of_fuel : exn := OtherError "<out of fuel>" [].

Fixpoint apply (fuel : nat) (context : RecordsContext) (unsent : bool) (state : RecordsState)
    (record : RequestRecord) (facts : Facts) : result LedgerChange :=
  let o := fa_observation facts in
  match observation_for record (Some o) with
  | Proven _ =>
    raise (ledger_error "observation.request_id" "observation requires committed dispatch authorization")
      when (bool_decide (rr_phase record = RQ_PREPARED) && negb unsent) in
    match fresh_observation (rr_observation record) o with
    | Mismatch PF_SEQUENCE =>
      if match rr_observation record with Some p => ob_sequence o <? ob_sequence p | None => false end
      then Ok (kept state)
      else Err (ledger_error "observation.sequence" "conflicts with the accepted observation")
    | Proven _ =>
      if match rr_observation record with Some p => obs_eqb o p | None => false end then Ok (kept state) else
      if bool_decide (rr_phase record = RQ_COMPLETED) then refine_closed state record o else
      match fuel with
      | O => Err out_of_fuel
      | S fuel => advance_phase (apply fuel context true) state context record facts
      end
    | _ => Err (ledger_error "observation.sequence" "differs from canonical request")
    end
  | _ => Err (ledger_error "observation.scope" "differs from canonical request")
  end.

(** [_apply] as the events call it. *)
Definition apply_facts (state : RecordsState) (context : RecordsContext) (record : RequestRecord) (facts : Facts)
  : result LedgerChange :=
  apply (S (length (re_records state))) context false state record facts.
Definition cancel_unsent (state : RecordsState) (context : RecordsContext) (doomed : list RequestRecord)
  : result LedgerChange :=
  cancel_prepared (apply (S (length (re_records state))) context true) state context doomed.

(** [turn_request_id] and the identity of the cancellation of a lost turn (_session_scope.py). *)
Fixpoint colon_joined (l : list pystr) : pystr :=
  match l with [] => [] | [x] => x | x :: l => x ++ py ":" ++ colon_joined l end.
Definition encode_identity (namespace : pystr) (components : list pystr) : pystr :=
  namespace ++ py ":" ++ colon_joined (map (fun c => int_str (Z.of_nat (length c)) ++ py ":" ++ c) components).
Definition turn_request_id (i : InvocationRef) (action : pystr) : RequestId :=
  encode_identity (py "invocation") [iv_session_id i; int_str (iv_generation i); iv_invocation_id i; action].
Definition lost_turn_cancellation (i : InvocationRef) : RequestId :=
  turn_request_id i (py "cancel:" ++ turn_request_id i (py "lost")).

(** Whether a turn's request dispatches one of the invocation's rows. *)
Definition dispatches_turn (rows : list Invocation) (record : RequestRecord) : bool :=
  let request := rr_request record in
  match rb_body request with
  | DispatchTurn turn _ | ResumeSessionTurn turn _ _ _ =>
    existsb (fun i => pystr_eqb turn (in_turn i) && bool_decide (rb_scope request = in_scope i)) rows
  | _ => false
  end.

Definition end_released_dispatch (state : RecordsState) (context : RecordsContext) (root : RequestRecord)
    (invocation : InvocationRef) (o : Observation) : result LedgerChange :=
  let lost := opt_eqb (rb_request_id (rr_request root)) (Some (lost_turn_cancellation invocation)) in
  let refused := lost && bool_decide (ob_status o = OBS_REJECTED) in
  if negb (ob_terminal o)
     || negb (bool_decide (ob_status o = OBS_CANCELLED) || (lost && bool_decide (ob_status o = OBS_SUCCEEDED)) || refused)
  then Ok (kept state) else
  let rows := List.filter (fun i => bool_decide (in_invocation i = invocation)) (rx_invocations context) in
  match find (fun r => match rr_phase r with RQ_RECONCILING | RQ_BLOCKED => true | _ => false end
                       && dispatches_turn rows r) (re_records state) with
  | None => Ok (kept state)
  | Some dispatch =>
    let ended :=
      o <| ob_request_id := rr_request_id dispatch |>
        <| ob_sequence := match rr_observation dispatch with Some a => ob_sequence a + 1 | None => 0 end |>
        <| ob_status := OBS_CANCELLED |> <| ob_accepted := false |>
        <| ob_released := ob_released o || refused |>
        <| ob_children_complete := ob_children_complete o || refused |> in
    apply_facts state context dispatch (only_observed ended)
  end.

(** The cancellations still waiting on a dispatch, each with what it waits on. *)
Definition waiting_cancels (state : RecordsState) (invocations : list InvocationRef)
  : list (RequestRecord * Observation) :=
  concat (map (fun r =>
    match rb_body (rr_request r), rr_observation r with
    | CancelTurn i, Some w =>
      if bool_decide (i ∈ invocations)
         && match rr_phase r with RQ_DISPATCHED | RQ_RECONCILING | RQ_BLOCKED => true | _ => false end
         && negb (ob_terminal w)
      then [(r, w)] else []
    | _, _ => []
    end) (re_records state)).

Definition released_with_dispatch (o : Observation) (cancel : RequestRecord) (waiting_on : Observation)
  : Observation :=
  o <| ob_request_id := rr_request_id cancel |>
    <| ob_event_id := rr_request_id cancel ++ py ":released-with-dispatch" |>
    <| ob_sequence := ob_sequence waiting_on + 1 |> <| ob_status := OBS_CANCELLED |>
    <| ob_accepted := false |> <| ob_resource_id := ob_resource_id waiting_on |>.

Definition end_cancels_of_released_turn (state : RecordsState) (context : RecordsContext) (root : RequestRecord)
    (turn : pystr) (o : Observation) : result LedgerChange :=
  if negb (ob_terminal o && ob_released o && ob_children_complete o) then Ok (kept state) else
  let invocations :=
    map in_invocation
      (List.filter (fun i => pystr_eqb (in_turn i) turn && bool_decide (in_scope i = rb_scope (rr_request root)))
        (rx_invocations context)) in
  foldM_result
    (fun change waiting =>
       let* more := apply_facts (lc_state change) context waiting.1
                      (only_observed (released_with_dispatch o waiting.1 waiting.2)) in
       Ok (finish_change change more))
    (kept state) (waiting_cancels state invocations).

(** A fact about the request an inspection asked about. *)
Definition observed_target (change : LedgerChange) (context : RecordsContext) (root : RequestRecord)
    (target : TargetObservation) : result LedgerChange :=
  let o := fa_observation (ta_facts target) in
  let* original := unique (lc_state change) (ob_request_id o) in
  match original with
  | None => Err (ledger_error "target.request_id" "target names no canonical request")
  | Some original =>
    if is_Some_b (ta_reissue target) && bool_decide (rr_phase original = RQ_PREPARED) then Ok change else
    if match ta_reissue target with Some p => reissuable original p | None => false end
    then Ok (finish_change change (reissue (lc_state change) original context)) else
    let* more := apply_facts (lc_state change) context original (ta_facts target) in
    let change := finish_change change more in
    match rb_body (rr_request root) with
    | InspectTurn i _ =>
      if success_without_reply o then Ok change else
      Ok (finish_change change (mk_LedgerChange (lc_state change) [TurnObserved i o None None None []] [] []))
    | _ => Ok change
    end
  end.

Definition observed (state : RecordsState) (context : RecordsContext) (facts : Facts)
    (target : option TargetObservation) : result LedgerChange :=
  let o := fa_observation facts in
  let* root := unique state (ob_request_id o) in
  match root with
  | None => Err (ledger_error "observation.request_id" "observation names no canonical request")
  | Some root =>
    let* change := apply_facts state context root facts in
    match rb_body (rr_request root) with
    | CancelTurn i =>
      let* more := end_released_dispatch (lc_state change) context root i o in Ok (finish_change change more)
    | DispatchTurn turn _ =>
      let* more := end_cancels_of_released_turn (lc_state change) context root turn o in
      Ok (finish_change change more)
    | _ =>
      match target with
      | None => Ok change
      | Some t => if is_Some_b (ta_target_resource t) then Ok change else observed_target change context root t
      end
    end
  end.

(** ** Requests that can no longer be sent or answered *)

Definition undispatchable (state : RecordsState) (context : RecordsContext) (i : RequestId) : result LedgerChange :=
  let* record := unique state i in
  match record with
  | Some record =>
    if negb (bool_decide (rr_phase record = RQ_PREPARED)) then Ok (kept state) else
    let* failed := dependency_failed (rr_request record) state in
    let* doomed := if (failed : bool) then Ok true else episode_ended context state (rr_request record) in
    if (doomed : bool) then cancel_unsent state context [record] else Ok (kept state)
  | None => Ok (kept state)
  end.

Definition BLOCKED_AT_CLOSE : pystr := py "the run closed while this request was blocked at its reconciliation bound".

Definition stalled_end (context : RecordsContext) (record : RequestRecord) : Observation :=
  let request := rr_request record in
  let event := py "blocked-at-close:" ++ rr_request_id record in
  match rr_observation record with
  | None =>
    mk_Observation event (rr_request_id record) (rb_scope request) 0 (ru_now_at (rx_run context)) OBS_FAILED
      None None false true false [] false None (rb_admission_id request) BLOCKED_AT_CLOSE
  | Some previous =>
    previous <| ob_event_id := event |> <| ob_sequence := ob_sequence previous + 1 |>
             <| ob_observed_at := ru_now_at (rx_run context) |> <| ob_status := OBS_FAILED |>
             <| ob_terminal := true |> <| ob_diagnostic := BLOCKED_AT_CLOSE |>
  end.

Definition end_stalled_block (state : RecordsState) (context : RecordsContext) (i : RequestId)
  : result LedgerChange :=
  let* record := unique state i in
  match record with
  | Some record =>
    if negb (bool_decide (rr_phase record = RQ_BLOCKED)) || negb (bool_decide (ru_status (rx_run context) = CLOSING))
    then Ok (kept state)
    else apply_facts state context record (only_observed (stalled_end context record))
  | None => Ok (kept state)
  end.

Definition retirement_decision (context : RecordsContext) (operation : OperationRef) (scope : Scope)
  : result (option DecisionId) :=
  let receipts := ru_receipts (rx_run context) in
  let* rows :=
    (fix rows (l : list DecisionReceipt) : result (list DecisionId) :=
       match l with
       | [] => Ok []
       | r :: l =>
         let* found :=
           match dr_decision r with
           | Some (C_Withdraw d) =>
             if bool_decide (wd_disposition d = W_Cancel) && bool_decide (wd_target d = W_Operation operation)
                && bool_decide (wd_scope d = scope)
             then let* p := accepted_receipt_for receipts (Some (dr_decision_id r)) None in Ok (is_proven p)
             else Ok false
           | _ => Ok false
           end in
         let* rest := rows l in
         Ok (if (found : bool) then dr_decision_id r :: rest else rest)
       end) receipts in
  Ok match rows with [i] => Some i | _ => None end.

Definition retire_operation (state : RecordsState) (context : RecordsContext) (operation : OperationRef)
    (scope : Scope) : result LedgerChange :=
  match List.filter (operation_record (or_operation_id operation) scope) (re_records state) with
  | [record] =>
    let* withdraw := retirement_decision context operation scope in
    let* done := match withdraw with Some i => completion_signal context i COMPLETED_OK | None => Ok [] end in
    let request := rr_request record in
    if bool_decide (rr_phase record = RQ_PREPARED) then
      let* change := cancel_unsent state context [record] in
      Ok (finish_change change (mk_LedgerChange (lc_state change) done [] []))
    else
      let* released :=
        if bool_decide (rr_phase record = RQ_COMPLETED)
        then let* p := released_record record in Ok (is_proven p) else Ok false in
      if (released : bool) then Ok (mk_LedgerChange state done [] []) else
      let limits := ru_limits (rx_run context) in
      let command prefix body :=
        mk_Request (Some (prefix ++ rr_request_id record)) (rb_scope request) [] None (rb_admission_id request) body in
      let outbound :=
        match match rr_observation record with Some o => ob_resource_id o | None => None end with
        | Some resource =>
          mk_Outbound (command (py "retire:") (CancelOwnedResource resource (rr_request_id record)))
            (Within (li_cancellation_bound limits) [])
        | None =>
          mk_Outbound (command (py "retire-inspect:") (InspectRequest (rr_request_id record) None))
            (Within (li_reconciliation_bound limits) [])
        end in
      Ok (mk_LedgerChange state [] [outbound] [])
  | _ => Err (ledger_error "operation" "retirement needs one canonical operation")
  end.

(** ** The ledger *)

Definition advance_ledger (state : RecordsState) (context : RecordsContext) (event : RecordsEvent)
  : result LedgerChange :=
  match event with
  | RequestPrepared request until lifecycle turn measurement =>
    prepared_event state context request until lifecycle turn measurement
  | DispatchAuthorized i _ => dispatched state context i
  | RequestObserved facts target => observed state context facts target
  | OperationRetireRequested operation scope => retire_operation state context operation scope
  | RetryDue i now_at => retry_due state context i now_at
  | RequestUndispatchable i => undispatchable state context i
  | BlockedRecordStalled i => end_stalled_block state context i
  end.

Fixpoint starts_with (prefix s : pystr) : bool :=
  match prefix, s with
  | [], _ => true
  | c :: prefix, d :: s => N.eqb c d && starts_with prefix s
  | _, [] => false
  end.

(** [is_late] and the guard of records.py: an answer to a request core ended itself is ignored. *)
Definition is_late (state : RecordsState) (o : Observation) : result bool :=
  let* root := unique state (ob_request_id o) in
  Ok match root with
     | Some r => match rr_observation r with Some o => starts_with EXHAUSTED (ob_event_id o) | None => false end
     | None => false
     end.
Definition advance_record (state : RecordsState) (context : RecordsContext) (event : RecordsEvent)
  : result LedgerChange :=
  match event with
  | RequestObserved facts _ =>
    let* late := is_late state (fa_observation facts) in
    if (late : bool) then Ok (kept state) else advance_ledger state context event
  | _ => advance_ledger state context event
  end.

(** [_recorded] and [canonical]: the owners that read an answer after the ledger read what a closed
    record keeps of it. *)
Definition recorded (state : RecordsState) (o : Observation) : result (option Observation) :=
  let* record := unique state (ob_request_id o) in
  Ok match record with
     | Some r =>
       match rr_observation r with
       | Some stored =>
         if negb (bool_decide (rr_phase r = RQ_COMPLETED)) || obs_eqb stored o then None else Some stored
       | None => None
       end
     | None => None
     end.
Definition with_observation (facts : Facts) (o : Observation) : Facts := facts <| fa_observation := o |>.
Definition canonical (state : RecordsState) (facts : Facts) (target : option TargetObservation)
  : result (Facts * option TargetObservation) :=
  match target with
  | None =>
    let* r := recorded state (fa_observation facts) in
    Ok (match r with Some o => with_observation facts o | None => facts end, None)
  | Some t =>
    let* r := if is_Some_b (ta_target_resource t) then Ok None else recorded state (fa_observation (ta_facts t)) in
    Ok (facts, Some match r with
                    | Some o => mk_TargetObservation (with_observation (ta_facts t) o) (ta_target_resource t) (ta_reissue t)
                    | None => t
                    end)
  end.

(** ** Registration of outbound requests (_step.py) *)

Record Scheduled := mk_Scheduled {
  sd_request : Request;
  sd_until : Until;
  sd_limit_from_dispatch : option Seconds
}.

(** [_started]: the first request of a decision whose limit is running. *)
Definition started_request (state : RecordsState) (decision : option DecisionId) : option RequestRecord :=
  find (fun r => bool_decide (rb_decision_id (rr_request r) = decision) && is_Some_b (rr_dispatched_at r))
    (re_records state).

(** [_resolve]: the absolute time stored on the record of an outbound request. *)
Definition resolve_outbound (run : RunState) (state : RecordsState) (outbound : Outbound)
    (cause : option DecisionId) : result Scheduled :=
  let request := ou_request outbound in
  match ou_until outbound with
  | Inherited =>
    let owner := or_else cause (rb_decision_id request) in
    let receipt := find (fun r => bool_decide (Some (dr_decision_id r) = owner)) (ru_receipts run) in
    match receipt with
    | Some receipt =>
      match dr_until receipt with
      | Some until =>
        match started_request state owner, dr_limit receipt with
        | Some started, _ => Ok (mk_Scheduled request (rr_until started) None)
        | None, Some limit => Ok (mk_Scheduled request (queued_until run limit (un_watches until)) (Some limit))
        | None, None => Ok (mk_Scheduled request until None)
        end
      | None => Err (ledger_error "until" "an inherited until needs its accepted decision")
      end
    | None => Err (ledger_error "until" "an inherited until needs its accepted decision")
    end
  | Within limit watches => Ok (mk_Scheduled request (resolve_until run limit watches) None)
  | AtUntil until => Ok (mk_Scheduled request until None)
  | FromDispatch limit watches => Ok (mk_Scheduled request (queued_until run limit watches) (Some limit))
  end.

(** [_address]: a command is named on the record it is about. *)
Fixpoint address_first (i : RequestId) (target : RequestId) (records : list RequestRecord) : list RequestRecord :=
  match records with
  | [] => []
  | row :: rest =>
    if pystr_eqb (rr_request_id row) target
    then (if bool_decide (i ∈ rr_addressed_by row) then row
          else row <| rr_addressed_by := rr_addressed_by row ++ [i] |>) :: rest
    else row :: address_first i target rest
  end.
Definition address (records : list RequestRecord) (request : Request) : list RequestRecord :=
  match rb_request_id request, rb_body request with
  | Some i, (InspectRequest target _ | CancelOwnedResource _ target | BlockRequest target _) =>
    address_first i target records
  | _, _ => records
  end.

Definition prepared_record (i : RequestId) (request : Request) (digest : pystr) (scheduled : Scheduled)
  : RequestRecord :=
  mk_RequestRecord i request digest (request_lifecycle request) RQ_PREPARED None None (py "unknown") None None None
    None None None 0 None (sd_until scheduled) None (sd_limit_from_dispatch scheduled) None None [].

(** One proposal: its identity (derived from its place and its digest when it has none), and its
    record unless the same request is registered already. *)
Definition register_one (run_id : RunId) (revision : Z) (index : nat) (scheduled : Scheduled)
    (records : list RequestRecord) : result (list RequestRecord * option Request) :=
  let proposal := sd_request scheduled in
  let* i := match rb_request_id proposal with
            | Some i => Ok i
            | None =>
              let* d := request_digest proposal in
              Ok (run_id ++ py ":" ++ int_str revision ++ py ":" ++ int_str (Z.of_nat index) ++ py ":" ++ take 16 d)
            end in
  let request := proposal <| rb_request_id := Some i |> in
  let* payload_digest := request_digest request in
  match find (fun r => pystr_eqb (rr_request_id r) i) records with
  | Some previous =>
    let* d := request_digest (rr_request previous) in
    raise (ledger_error "request_id" "request identity conflict") when (negb (pystr_eqb d payload_digest)) in
    Ok (records, None)
  | None => Ok (address (records ++ [prepared_record i request payload_digest scheduled]) request, Some request)
  end.

Fixpoint register_from (run_id : RunId) (revision : Z) (index : nat) (scheduled : list Scheduled)
    (records : list RequestRecord) : result (list RequestRecord * list Request) :=
  match scheduled with
  | [] => Ok (records, [])
  | s :: rest =>
    let* p := register_one run_id revision index s records in
    let* q := register_from run_id revision (S index) rest p.1 in
    Ok (q.1, match p.2 with Some r => r :: q.2 | None => q.2 end)
  end.

Definition register_requests (run : RunState) (revision : Z) (state : RecordsState) (scheduled : list Scheduled)
  : result (RecordsState * list DecisionReceipt * list Request) :=
  let* p := register_from (ru_run_id run) revision 0 scheduled (re_records state) in
  let names (r : DecisionReceipt) : list RequestId :=
    concat (map (fun q => if bool_decide (rb_decision_id q = Some (dr_decision_id r))
                          then match rb_request_id q with Some i => [i] | None => [] end else []) p.2) in
  let with_requests (r : DecisionReceipt) : DecisionReceipt :=
    match names r with [] => r | added => r <| dr_request_ids := fromkeys pystr_eqb (dr_request_ids r ++ added) |> end in
  Ok (state <| re_records := p.1 |>, map with_requests (ru_receipts run), p.2).

End Ledger.
