(* ===== verification/LedgerSteps.v ===== *)
(** How the request ledger moves (RequestLedger.v): the transitions of one record, as a step
    relation, and the proof that every event of [advance_record] rewrites each record by such
    transitions, in place, and touches nothing else of the area's state. *)
From S2P Require Import Prelude Floats CoreValues CoreProofs WaitClock Requests RequestLedger.

(** Case analysis on the condition at the head of [H]. *)
Ltac split_if H := cbn zeta in H; match type of H with (if ?c then _ else _) = _ => destruct c eqn:?; cbn iota in H end.

(** ** Lookup by identity *)

Definition record_ids (st : RecordsState) : list RequestId := map rr_request_id (re_records st).

Lemma find_records_in st i r : r ∈ find_records st i -> r ∈ re_records st /\ rr_request_id r = i.
Proof. intros [H E]%elem_of_filter. split; [done|by apply pystr_eqb_true]. Qed.

Lemma unique_in st i r : unique st i = Ok (Some r) -> r ∈ re_records st /\ rr_request_id r = i.
Proof.
  unfold unique. destruct (find_records st i) as [|x [|y l]] eqn:E; intros H; simplify_eq.
  apply find_records_in. rewrite E. by apply list_elem_of_singleton.
Qed.

Lemma unique_none st i : unique st i = Ok None -> forall r, r ∈ re_records st -> rr_request_id r <> i.
Proof.
  unfold unique. destruct (find_records st i) as [|x [|y l]] eqn:E; intros H; simplify_eq.
  intros r Hr Hi. assert (r ∈ find_records st i) as F; [|rewrite E in F; by inversion F].
  apply elem_of_filter. split; [done|]. by apply pystr_eqb_true.
Qed.

Lemma ids_inj st r r' : NoDup (record_ids st) -> r ∈ re_records st -> r' ∈ re_records st ->
  rr_request_id r = rr_request_id r' -> r = r'.
Proof. intros D A B E. by eapply (NoDup_map_inj rr_request_id). Qed.

(** ** Transitions of one record *)

Section Steps.
Context {digests : Digests}.
Variable context : RecordsContext.

(** An observation is strictly newer than the one its record keeps. *)
Definition newer (r : RequestRecord) (o : Observation) : Prop :=
  forall p, rr_observation r = Some p -> ob_request_id p = rr_request_id r -> ob_sequence p < ob_sequence o.

(** What closing work does to a record: observe it, refine what closed it, or block it. *)
Inductive closing_step : RequestRecord -> RequestRecord -> Prop :=
| cs_observe r facts phase retries retry_at :
    rr_phase r <> RQ_COMPLETED ->
    (rr_phase r = RQ_PREPARED -> facts = unsent_cancellation context r) ->
    ob_request_id (fa_observation facts) = rr_request_id r ->
    newer r (fa_observation facts) ->
    next_phase r (fa_observation (exhausted context r facts)) = (phase, retries) ->
    closing_step r (observed_record r (exhausted context r facts) phase retries retry_at)
| cs_refine r o p :
    rr_phase r = RQ_COMPLETED -> rr_observation r = Some p -> agrees p o = true -> newer r o ->
    closing_step r (r <| rr_observation := Some (refined p o) |> <| rr_sequence := Some (ob_sequence (refined p o)) |>)
| cs_block r : rr_phase r <> RQ_COMPLETED -> closing_step r (r <| rr_phase := RQ_BLOCKED |>).

Inductive record_step : RequestRecord -> RequestRecord -> Prop :=
| rs_close r r' : closing_step r r' -> record_step r r'
| rs_dispatch st r :
    rr_phase r = RQ_PREPARED \/ (rr_phase r = RQ_RECONCILING /\ replayable (rr_lifecycle r) = true) ->
    record_step r (dispatched_record st context r)
| rs_reissue r :
    rr_phase r = RQ_DISPATCHED \/ rr_phase r = RQ_RECONCILING -> record_step r (reissued_record context r).

Lemma observed_record_request r facts phase retries retry_at :
  let r' := observed_record r facts phase retries retry_at in
  rr_request_id r' = rr_request_id r /\ rr_request r' = rr_request r /\ rr_phase r' = phase
  /\ rr_retry_count r' = retries /\ rr_observation r' = Some (fa_observation facts).
Proof. unfold observed_record. by repeat case_match. Qed.

Lemma record_step_request r r' :
  record_step r r' -> rr_request_id r' = rr_request_id r /\ rr_request r' = rr_request r.
Proof.
  intros [? ? C|st ? C|? C].
  - destruct C; try done. split; apply (observed_record_request r0 (exhausted context r0 facts) phase retries retry_at).
  - unfold dispatched_record. by repeat case_match.
  - done.
Qed.

Lemma record_steps_request r r' :
  rtc record_step r r' -> rr_request_id r' = rr_request_id r /\ rr_request r' = rr_request r.
Proof.
  induction 1 as [|x y z A _ [I R]]; [done|]. destruct (record_step_request _ _ A). split; congruence.
Qed.

(** ** Transitions of the ledger *)

Definition changes (R : RequestRecord -> RequestRecord -> Prop) (st st' : RecordsState) : Prop :=
  Forall2 (rtc R) (re_records st) (re_records st')
  /\ re_recovery st' = re_recovery st /\ re_hosts st' = re_hosts st.

#[export] Instance changes_preorder R : PreOrder (changes R).
Proof.
  split.
  - intros st. repeat split. induction (re_records st); constructor; done.
  - intros a b c (A & B & C) (A' & B' & C'). repeat split; [|congruence..].
    by trans (re_records b).
Qed.

Lemma changes_mono (R R' : RequestRecord -> RequestRecord -> Prop) st st' :
  (forall r r', R r r' -> R' r r') -> changes R st st' -> changes R' st st'.
Proof.
  intros H (A & B). split; [|done]. eapply Forall2_impl; [exact A|]. intros x y.
  induction 1; [done|]. eapply rtc_l; eauto.
Qed.

Lemma closing_is_record st st' : changes closing_step st st' -> changes record_step st st'.
Proof. apply changes_mono. apply rs_close. Qed.

Lemma changes_ids st st' : changes record_step st st' -> record_ids st' = record_ids st.
Proof.
  intros (A & _). unfold record_ids. induction A as [|x y l l' S _ IH]; [done|]. cbn.
  f_equal; [|done]. by apply record_steps_request.
Qed.
Lemma closing_ids st st' : changes closing_step st st' -> record_ids st' = record_ids st.
Proof. intros H. apply changes_ids. by apply closing_is_record. Qed.

Lemma changes_forward R st st' r :
  changes R st st' -> r ∈ re_records st -> exists r', r' ∈ re_records st' /\ rtc R r r'.
Proof.
  intros (A & _). induction A as [|x y l l' S _ IH]; intros I; [by inversion I|].
  apply elem_of_cons in I as [->|I].
  - exists y. split; [left|done].
  - destruct (IH I) as (r' & B & C). exists r'. split; [by right|done].
Qed.
Lemma changes_backward R st st' r' :
  changes R st st' -> r' ∈ re_records st' -> exists r, r ∈ re_records st /\ rtc R r r'.
Proof.
  intros (A & _). induction A as [|x y l l' S _ IH]; intros I; [by inversion I|].
  apply elem_of_cons in I as [->|I].
  - exists x. split; [left|done].
  - destruct (IH I) as (r & B & C). exists r. split; [by right|done].
Qed.

(** Replacing a record by its successor changes that record only. *)
Lemma replace_changes (R : RequestRecord -> RequestRecord -> Prop) st r r' :
  NoDup (record_ids st) -> r ∈ re_records st -> rr_request_id r' = rr_request_id r -> R r r' ->
  changes R st (replace_record st r').
Proof.
  intros D I E S. split; [|done]. cbn.
  assert (forall l, (forall x, x ∈ l -> x ∈ re_records st) ->
    Forall2 (rtc R) l (map (fun x => if pystr_eqb (rr_request_id x) (rr_request_id r') then r' else x) l)) as H.
  { induction l as [|x l IH]; intros Hl; cbn; constructor.
    - destruct (pystr_eqb _ _) eqn:Q; [|done]. apply pystr_eqb_true in Q.
      assert (x = r) as -> by (apply (ids_inj st); [done|apply Hl; left|done|congruence]).
      by apply rtc_once.
    - apply IH. intros y Hy. apply Hl. by right. }
  by apply H.
Qed.

Lemma replace_in st r r' :
  r ∈ re_records st -> rr_request_id r' = rr_request_id r -> r' ∈ re_records (replace_record st r').
Proof.
  intros I E. cbn. apply elem_of_map. exists r. split; [|done].
  by rewrite E, pystr_eqb_refl.
Qed.
Lemma replace_other st r' x :
  x ∈ re_records st -> rr_request_id x <> rr_request_id r' -> x ∈ re_records (replace_record st r').
Proof.
  intros I E. cbn. apply elem_of_map. exists x. split; [|done].
  destruct (pystr_eqb _ _) eqn:Q; [|done]. by apply pystr_eqb_true in Q.
Qed.
Lemma replace_inv st r' x :
  x ∈ re_records (replace_record st r') ->
  x = r' \/ (x ∈ re_records st /\ rr_request_id x <> rr_request_id r').
Proof.
  cbn. intros (y & -> & I)%elem_of_map. destruct (pystr_eqb _ _) eqn:Q; [by left|right].
  split; [done|]. intros E. by rewrite E, pystr_eqb_refl in Q.
Qed.
Lemma replace_ids st r : record_ids (replace_record st r) = record_ids st.
Proof.
  unfold record_ids. cbn. rewrite map_map. apply map_ext. intros x.
  destruct (pystr_eqb _ _) eqn:Q; [|done]. by apply pystr_eqb_true in Q.
Qed.

End Steps.

(** ** Freshness *)

Section Apply.
Context {digests : Digests}.
Variable context : RecordsContext.

Lemma observation_for_request record o x :
  observation_for record (Some o) = Proven x -> ob_request_id o = rr_request_id record.
Proof.
  unfold observation_for. destruct (rb_request_id _); [|done]. destruct (missing_episode _ _ _); [done|].
  destruct (identity_mismatch _) eqn:E; [done|]. intros _.
  pose proof (proj1 (identity_mismatch_None _) E) as H.
  specialize (H (same PF_REQUEST_ID (ob_request_id o) (rr_request_id record))). cbn in H.
  apply bool_decide_eq_true in H; [done|]. left.
Qed.

Lemma fresh_newer record o x y :
  observation_for record (Some o) = Proven x -> fresh_observation (rr_observation record) o = Proven y ->
  match rr_observation record with Some p => obs_eqb o p | None => false end = false -> newer record o.
Proof.
  intros A F N p Hp Hi. apply observation_for_request in A. rewrite Hp in F, N. unfold fresh_observation in F.
  replace (pystr_eqb (ob_request_id p) (ob_request_id o)) with true in F
    by (symmetry; apply pystr_eqb_true; congruence). cbn in F.
  destruct (_ || _); [done|]. destruct (identity_mismatch _); [done|].
  rewrite N in F. cbn in F. destruct (ob_sequence o <? ob_sequence p) eqn:L; [done|]. cbn in F.
  destruct (ob_sequence o =? ob_sequence p) eqn:Q; [done|]. lia.
Qed.

(** ** What [apply] does when it succeeds *)

Inductive applied (fuel : nat) (unsent : bool) (st : RecordsState) (record : RequestRecord) (facts : Facts)
    (change : LedgerChange) : Prop :=
| ap_inert : change = kept st -> applied fuel unsent st record facts change
| ap_refine p :
    rr_phase record = RQ_COMPLETED -> rr_observation record = Some p -> agrees p (fa_observation facts) = true ->
    newer record (fa_observation facts) ->
    change = kept (replace_record st
      (record <| rr_observation := Some (refined p (fa_observation facts)) |>
              <| rr_sequence := Some (ob_sequence (refined p (fa_observation facts))) |>)) ->
    applied fuel unsent st record facts change
| ap_advance fuel' :
    fuel = S fuel' -> rr_phase record <> RQ_COMPLETED -> (rr_phase record = RQ_PREPARED -> unsent = true) ->
    ob_request_id (fa_observation facts) = rr_request_id record -> newer record (fa_observation facts) ->
    advance_phase (apply fuel' context true) st context record facts = Ok change ->
    applied fuel unsent st record facts change.

Lemma refine_closed_inv st record o change :
  refine_closed st record o = Ok change ->
  change = kept st
  \/ exists p, rr_observation record = Some p /\ agrees p o = true
     /\ change = kept (replace_record st
          (record <| rr_observation := Some (refined p o) |> <| rr_sequence := Some (ob_sequence (refined p o)) |>)).
Proof.
  unfold refine_closed. destruct (rr_observation record) as [p|]; [|done]. intros H.
  split_if H; [left; by injection H as <-|]. apply guard_Ok in H as [G H]. apply negb_false_iff in G.
  cbn zeta in H. split_if H; injection H as <-; [by left|]. right. by exists p.
Qed.

Lemma apply_inv fuel unsent st record facts change :
  apply fuel context unsent st record facts = Ok change -> applied fuel unsent st record facts change.
Proof.
  intros H. destruct fuel as [|fuel]; cbn [apply] in H.
  all: destruct (observation_for _ _) eqn:A; try done; pose proof (observation_for_request _ _ _ A) as Q.
  all: apply guard_Ok in H as [P H]; destruct (fresh_observation _ _) as [v|v|f] eqn:F; try done.
  all: try (destruct f; try done; destruct (match _ with Some _ => _ | None => _ end); [|done];
            injection H as <-; by apply ap_inert).
  all: destruct (match rr_observation record with Some p => obs_eqb _ p | None => false end) eqn:N;
    [injection H as <-; by apply ap_inert|].
  all: pose proof (fresh_newer _ _ _ _ A F N) as W.
  all: destruct (bool_decide (rr_phase record = RQ_COMPLETED)) eqn:C.
  1,3: apply bool_decide_eq_true in C; apply refine_closed_inv in H as [->|(p & O & G & ->)];
    [by apply ap_inert|by eapply ap_refine].
  - done.
  - apply bool_decide_eq_false in C. eapply ap_advance; eauto. intros E.
    apply andb_false_iff in P as [P|P]; [by apply bool_decide_eq_false in P|by apply negb_false_iff].
Qed.

(** ** What [advance_phase] does when it succeeds *)

Section Advance.
Variable close : RecordsState -> RequestRecord -> Facts -> result LedgerChange.

Definition advanced (st : RecordsState) (record : RequestRecord) (facts : Facts) (change : LedgerChange)
    (updated : RequestRecord) : Prop :=
  exists phase retries retry_at,
  next_phase record (fa_observation (exhausted context record facts)) = (phase, retries)
  /\ updated = observed_record record (exhausted context record facts) phase retries retry_at
  /\ let st1 := replace_record st updated in
     (phase <> RQ_COMPLETED /\ lc_state change = st1
      \/ phase = RQ_COMPLETED /\ exists st2, block_target st1 updated = Ok st2
         /\ (ob_status (fa_observation facts) = OBS_SUCCEEDED /\ lc_state change = st2
             \/ ob_status (fa_observation facts) <> OBS_SUCCEEDED
                /\ exists more, cancel_prepared close st2 context (dependents st2 updated) = Ok more
                                /\ lc_state change = lc_state more)).

Lemma exhausted_status record facts :
  ob_status (fa_observation (exhausted context record facts)) = ob_status (fa_observation facts).
Proof. unfold exhausted. by case_match. Qed.

Lemma advance_phase_inv st record facts change :
  advance_phase close st context record facts = Ok change -> exists updated, advanced st record facts change updated.
Proof.
  unfold advance_phase. destruct (next_phase _ _) as [phase retries] eqn:NP. intros H.
  apply bind_Ok in H as (retry_at & _ & H). apply bind_Ok in H as (signals & _ & H).
  exists (observed_record record (exhausted context record facts) phase retries retry_at).
  exists phase, retries, retry_at. split; [done|split; [done|]]. cbn zeta.
  destruct (bool_decide (phase = RQ_COMPLETED)) eqn:C.
  - apply bool_decide_eq_true in C. right. split; [done|].
    apply bind_Ok in H as (st2 & B & H). apply bind_Ok in H as (completion & _ & H). exists st2. split; [done|].
    rewrite exhausted_status in H. case_bool_decide as S; cbn in H.
    + left. split; [done|]. by injection H as <-.
    + right. split; [done|]. apply bind_Ok in H as (more & M & H). exists more. split; [done|]. by injection H as <-.
  - apply bool_decide_eq_false in C. left. split; [done|]. by injection H as <-.
Qed.

(** The cascade, one closed dependent at a time. *)
Lemma cancel_fold_ind (P : RecordsState -> Prop) doomed c change :
  P (lc_state c) ->
  (forall st current more, P st -> current ∈ re_records st -> rr_phase current = RQ_PREPARED ->
     close st current (unsent_cancellation context current) = Ok more -> P (lc_state more)) ->
  foldM_result (cancel_one close context) c doomed = Ok change -> P (lc_state change).
Proof.
  intros P0 PS. revert c P0. induction doomed as [|r doomed IH]; intros c Pc; cbn [foldM_result].
  - by intros [= <-].
  - intros (c' & H & T)%bind_Ok. apply (IH c'); [|done].
    apply bind_Ok in H as ([current|] & U & H); [|by injection H as <-].
    case_bool_decide as Q; [|by injection H as <-].
    apply bind_Ok in H as (more & M & H). injection H as <-. cbn. eapply PS; eauto. by apply unique_in in U as [? _].
Qed.
Lemma cancel_prepared_ind (P : RecordsState -> Prop) doomed st change :
  P st ->
  (forall st current more, P st -> current ∈ re_records st -> rr_phase current = RQ_PREPARED ->
     close st current (unsent_cancellation context current) = Ok more -> P (lc_state more)) ->
  cancel_prepared close st context doomed = Ok change -> P (lc_state change).
Proof. apply (cancel_fold_ind P doomed (kept st)). Qed.

End Advance.

(** ** The cascade is made of closing steps *)

Lemma block_target_cases st r st' :
  block_target st r = Ok st' ->
  st' = st
  \/ exists t, t ∈ re_records st /\ rr_phase t <> RQ_COMPLETED /\ st' = replace_record st (t <| rr_phase := RQ_BLOCKED |>).
Proof.
  unfold block_target. destruct (rb_body _); try (intros [= <-]; by left).
  destruct (rr_observation r) as [o|]; [|intros [= <-]; by left].
  destruct (negb _); [intros [= <-]; by left|]. intros ([t|] & U & H)%bind_Ok; [|injection H as <-; by left].
  case_bool_decide as C; injection H as <-; [by left|]. right. exists t. by apply unique_in in U as [I _].
Qed.

Lemma block_target_changes st r st' :
  NoDup (record_ids st) -> block_target st r = Ok st' -> changes (closing_step context) st st'.
Proof.
  intros D [->|(t & I & C & ->)]%block_target_cases; [done|].
  eapply replace_changes; [done|exact I|done|by apply cs_block].
Qed.

Lemma block_target_unless_succeeded st r o :
  rr_observation r = Some o -> ob_status o <> OBS_SUCCEEDED -> block_target st r = Ok st.
Proof.
  intros O S. unfold block_target. rewrite O. destruct (rb_body _); try done.
  by rewrite bool_decide_eq_false_2.
Qed.

Lemma advanced_step record facts close st change updated :
  rr_phase record <> RQ_COMPLETED ->
  (rr_phase record = RQ_PREPARED -> facts = unsent_cancellation context record) ->
  ob_request_id (fa_observation facts) = rr_request_id record -> newer record (fa_observation facts) ->
  advanced close st record facts change updated ->
  closing_step context record updated /\ rr_request_id updated = rr_request_id record.
Proof.
  intros C U Q W (phase & retries & retry_at & N & -> & _). split; [by apply cs_observe|].
  apply observed_record_request.
Qed.

Lemma apply_changes fuel unsent st record facts change :
  NoDup (record_ids st) -> record ∈ re_records st ->
  (unsent = true -> facts = unsent_cancellation context record) ->
  apply fuel context unsent st record facts = Ok change -> changes (closing_step context) st (lc_state change).
Proof.
  revert unsent st record facts change.
  induction fuel as [|fuel IH]; intros unsent st record facts change D I U [->|p C O G W ->|fuel' E C P Q W A]%apply_inv;
    try done; try (by eapply replace_changes; [done|exact I|done|by eapply cs_refine]).
  injection E as <-. apply advance_phase_inv in A as (updated & A).
  destruct (advanced_step _ _ _ _ _ _ C (fun p => U (P p)) Q W A) as [S Ei].
  destruct A as (phase & retries & retry_at & _ & _ & [[_ ->]|(_ & st2 & B & K)]).
  { by eapply replace_changes. }
  assert (changes (closing_step context) st (replace_record st updated)) as T1 by (by eapply replace_changes).
  assert (changes (closing_step context) (replace_record st updated) st2) as T2.
  { eapply block_target_changes; [|exact B]. by rewrite replace_ids. }
  destruct K as [[_ ->]|(_ & more & M & ->)]; [by etrans|].
  assert (changes (closing_step context) st st2) as T by (by etrans).
  eapply (cancel_prepared_ind _ (fun s => changes (closing_step context) st s)); [exact T| |exact M].
  intros s current more' Ps Ic _ H. etrans; [exact Ps|]. eapply (IH true); [|exact Ic|done|exact H].
  by rewrite (closing_ids _ _ _ Ps).
Qed.

(** A conclusive failure touches its record and what still waited to be sent. *)
Lemma apply_others fuel unsent st record facts change x :
  NoDup (record_ids st) -> record ∈ re_records st ->
  ob_status (fa_observation facts) <> OBS_SUCCEEDED ->
  apply fuel context unsent st record facts = Ok change ->
  x ∈ re_records st -> rr_phase x <> RQ_PREPARED -> rr_request_id x <> rr_request_id record ->
  x ∈ re_records (lc_state change).
Proof.
  revert unsent st record facts change.
  induction fuel as [|fuel IH]; intros unsent st record facts change D I S
    [->|p C O G W ->|fuel' E C P Q W A]%apply_inv X XP XI; try done; try (by apply replace_other).
  injection E as <-. apply advance_phase_inv in A as (updated & phase & retries & retry_at & _ & Eu & A).
  pose proof (observed_record_request record (exhausted context record facts) phase retries retry_at) as (Ei & _ & _ & _ & Eo).
  assert (x ∈ re_records (replace_record st updated)) as X1.
  { apply replace_other; [done|]. rewrite Eu, Ei. done. }
  destruct A as [[_ ->]|(_ & st2 & B & K)]; [done|].
  assert (st2 = replace_record st updated) as ->.
  { rewrite (block_target_unless_succeeded _ _ (fa_observation (exhausted context record facts))) in B;
      [by injection B|by rewrite Eu|by rewrite exhausted_status]. }
  destruct K as [[? _]|(_ & more & M & ->)]; [done|].
  set (st1 := replace_record st updated) in *.
  assert (NoDup (record_ids st1)) as D1 by (unfold st1; by rewrite replace_ids).
  eapply (cancel_prepared_ind _ (fun s => record_ids s = record_ids st1 /\ x ∈ re_records s)); [done| |exact M].
  intros s current more' [Ds Xs] Ic Pc H. rewrite <- Ds in D1. split.
  - rewrite <- Ds. by eapply closing_ids, apply_changes.
  - eapply (IH true s current); [done..| |exact H|done|done|]; [done|].
    intros E. apply XP. by rewrite (ids_inj s x current).
Qed.

(** ** Every event *)

Lemma apply_facts_changes st record facts change :
  NoDup (record_ids st) -> record ∈ re_records st ->
  apply_facts st context record facts = Ok change -> changes (closing_step context) st (lc_state change).
Proof. intros D I. by apply apply_changes. Qed.

Lemma cancel_fold_changes fuel c doomed change :
  NoDup (record_ids (lc_state c)) ->
  foldM_result (cancel_one (apply fuel context true) context) c doomed = Ok change ->
  changes (closing_step context) (lc_state c) (lc_state change).
Proof.
  intros D M. eapply (cancel_fold_ind _ (fun s => changes (closing_step context) (lc_state c) s)); [done| |exact M].
  intros s current more Ps Ic _ H. etrans; [exact Ps|]. eapply apply_changes; [|exact Ic|done|exact H].
  by rewrite (closing_ids _ _ _ Ps).
Qed.
Lemma cancel_prepared_changes fuel st doomed change :
  NoDup (record_ids st) ->
  cancel_prepared (apply fuel context true) st context doomed = Ok change ->
  changes (closing_step context) st (lc_state change).
Proof. apply (cancel_fold_changes fuel (kept st)). Qed.
Lemma cancel_unsent_changes st doomed change :
  NoDup (record_ids st) ->
  cancel_unsent st context doomed = Ok change -> changes (closing_step context) st (lc_state change).
Proof. apply cancel_prepared_changes. Qed.

End Apply.

Section Events.
Context {digests : Digests}.
Variable context : RecordsContext.

Lemma dispatched_changes st i change :
  NoDup (record_ids st) -> dispatched st context i = Ok change -> changes (record_step context) st (lc_state change).
Proof.
  intros D ([r|] & U & H)%bind_Ok; [|done]. apply unique_in in U as [I _].
  assert (rr_request_id (dispatched_record st context r) = rr_request_id r) as E
    by (unfold dispatched_record; by repeat case_match).
  destruct (rr_phase r) eqn:P; try done; try (by injection H as <-).
  - injection H as <-. eapply replace_changes; [done|exact I|done|]. apply rs_dispatch. by left.
  - split_if H; [|done]. injection H as <-. eapply replace_changes; [done|exact I|done|]. apply rs_dispatch. by right.
Qed.

Lemma reissue_changes st r :
  NoDup (record_ids st) -> r ∈ re_records st -> rr_phase r = RQ_DISPATCHED \/ rr_phase r = RQ_RECONCILING ->
  changes (record_step context) st (lc_state (reissue st r context)).
Proof. intros D I P. eapply replace_changes; [done|exact I|done|by apply rs_reissue]. Qed.

Lemma retry_wait_dispatched r due :
  retry_wait_until r = Some due -> rr_phase r = RQ_DISPATCHED /\ exists o, rr_observation r = Some o /\ retryable o = true.
Proof.
  unfold retry_wait_until. destruct (rr_observation r) as [o|]; [|done]. intros H. split_if H; [|done].
  apply andb_true_iff in Heqb as [P R]. split; [by apply bool_decide_eq_true in P|]. by exists o.
Qed.

Lemma retry_due_changes st i now_at change :
  NoDup (record_ids st) -> retry_due st context i now_at = Ok change ->
  changes (record_step context) st (lc_state change).
Proof.
  intros D ([r|] & U & H)%bind_Ok; [|by injection H as <-]. apply unique_in in U as [I _].
  destruct (retry_wait_until r) eqn:W; [|by injection H as <-]. apply retry_wait_dispatched in W as [P _].
  split_if H; injection H as <-; [done|]. apply reissue_changes; auto.
Qed.

Lemma prepared_event_state st request until lifecycle turn measurement change :
  prepared_event st context request until lifecycle turn measurement = Ok change -> lc_state change = st.
Proof.
  unfold prepared_event, route_operation. intros H. inv_ok. destruct x as [p|]; inv_ok; [done|].
  destruct (rb_body request); inv_ok; try done.
  by repeat (case_match; inv_ok; simplify_eq/=; try done).
Qed.

Lemma retire_operation_changes st operation scope change :
  NoDup (record_ids st) -> retire_operation st context operation scope = Ok change ->
  changes (closing_step context) st (lc_state change).
Proof.
  unfold retire_operation. destruct (List.filter _ _) as [|r [|]]; try done. intros D H.
  apply bind_Ok in H as (w & _ & H). apply bind_Ok in H as (done_ & _ & H). split_if H.
  - apply bind_Ok in H as (c & C & H). injection H as <-. by apply cancel_unsent_changes in C.
  - apply bind_Ok in H as (rel & _ & H). split_if H; injection H as <-; done.
Qed.

Lemma undispatchable_changes st i change :
  NoDup (record_ids st) -> undispatchable st context i = Ok change ->
  changes (closing_step context) st (lc_state change).
Proof.
  intros D ([r|] & U & H)%bind_Ok; [|by injection H as <-]. split_if H; [by injection H as <-|].
  apply bind_Ok in H as (f & _ & H). apply bind_Ok in H as (d & _ & H). split_if H; [|by injection H as <-].
  by eapply cancel_unsent_changes.
Qed.

Lemma end_stalled_changes st i change :
  NoDup (record_ids st) -> end_stalled_block st context i = Ok change ->
  changes (closing_step context) st (lc_state change).
Proof.
  intros D ([r|] & U & H)%bind_Ok; [|by injection H as <-]. split_if H; [by injection H as <-|].
  apply unique_in in U as [I _]. by eapply apply_facts_changes.
Qed.

Lemma end_released_changes st root i o change :
  NoDup (record_ids st) -> end_released_dispatch st context root i o = Ok change ->
  changes (closing_step context) st (lc_state change).
Proof.
  unfold end_released_dispatch. intros D H. split_if H; [by injection H as <-|].
  destruct (find _ _) as [r|] eqn:F; [|by injection H as <-]. apply find_Some_elem in F as [I _].
  by eapply apply_facts_changes.
Qed.

(** The cancellations a released turn ends were waiting, and ending one leaves the others waiting. *)
Lemma waiting_cancels_in st invocations w :
  w ∈ waiting_cancels st invocations -> w.1 ∈ re_records st /\ rr_phase w.1 <> RQ_PREPARED.
Proof.
  unfold waiting_cancels. intros H. apply list_elem_of_In, in_concat in H as (l & L & H).
  apply in_map_iff in L as (r & <- & R). apply list_elem_of_In in R.
  destruct (rb_body _); try done. destruct (rr_observation r); [|done].
  destruct (_ && _) eqn:C; [|done]. destruct H as [<-|[]]. split; [done|]. cbn.
  apply andb_true_iff in C as [[_ P]%andb_true_iff _]. by destruct (rr_phase r).
Qed.

Lemma waiting_cancels_distinct st invocations :
  NoDup (record_ids st) -> NoDup (map (fun w => rr_request_id w.1) (waiting_cancels st invocations)).
Proof.
  unfold record_ids, waiting_cancels. intros D.
  eapply sublist_NoDup; [exact D|]. clear D. induction (re_records st) as [|r l IH]; [done|]. cbn.
  destruct (rb_body _); try (by apply sublist_cons). destruct (rr_observation r); [|by apply sublist_cons].
  destruct (_ && _); cbn; [by apply sublist_skip|by apply sublist_cons].
Qed.

(** What each applied fact keeps, ending every waiting cancellation keeps. *)
Lemma end_cancels_ind (P : RecordsState -> Prop) st root turn o change :
  NoDup (record_ids st) -> P st ->
  (forall s record facts more, changes (closing_step context) st s -> P s -> record ∈ re_records s ->
     apply_facts s context record facts = Ok more -> P (lc_state more)) ->
  end_cancels_of_released_turn st context root turn o = Ok change ->
  P (lc_state change) /\ changes (closing_step context) st (lc_state change).
Proof.
  unfold end_cancels_of_released_turn. intros D P0 PS H. split_if H; [by injection H as <-|].
  match type of H with context [waiting_cancels st ?l] => set (invocations := l) in H end.
  pose proof (waiting_cancels_distinct st invocations D) as N.
  assert (forall w, w ∈ waiting_cancels st invocations -> w.1 ∈ re_records (lc_state (kept st)) /\ rr_phase w.1 <> RQ_PREPARED)
    as W by (intros w; apply waiting_cancels_in).
  assert (P (lc_state (kept st)) /\ changes (closing_step context) st (lc_state (kept st))) as C by done.
  revert H N W C. generalize (kept st) as c. clear Heqb.
  induction (waiting_cancels st invocations) as [|w l IH]; intros c H N W C; cbn [foldM_result map] in *; [by injection H as <-|].
  apply bind_Ok in H as (c' & H & T). apply bind_Ok in H as (more & A & H). injection H as <-. destruct C as [Pc C].
  apply NoDup_cons in N as [N1 N]. destruct (W w) as [I Pw]; [left|].
  assert (NoDup (record_ids (lc_state c))) as Dc by (by rewrite (closing_ids _ _ _ C)).
  apply (IH (finish_change c more)); [done|done| |cbn; split; [by eapply PS|etrans; [done|by eapply apply_facts_changes]]].
  intros x X. destruct (W x) as [Ix Px]; [by right|]. split; [cbn|done].
  eapply (apply_others context); [exact Dc|exact I| |exact A|done|done|]; [done|].
  intros E. apply N1. rewrite <- E. by apply (elem_of_map_1 (fun w => rr_request_id w.1)).
Qed.

Lemma end_cancels_changes st root turn o change :
  NoDup (record_ids st) -> end_cancels_of_released_turn st context root turn o = Ok change ->
  changes (closing_step context) st (lc_state change).
Proof. intros D H. by eapply (end_cancels_ind (fun _ => True)) in H as [_ ?]. Qed.

Lemma observed_target_changes change root target change' :
  NoDup (record_ids (lc_state change)) -> observed_target change context root target = Ok change' ->
  changes (record_step context) (lc_state change) (lc_state change').
Proof.
  intros D ([r|] & U & H)%bind_Ok; [|done]. apply unique_in in U as [I _].
  split_if H; [by injection H as <-|]. split_if H.
  - injection H as <-. apply reissue_changes; [done|done|]. destruct (ta_reissue target); [|done].
    apply andb_true_iff in Heqb0 as [P _]. destruct (rr_phase r); try done; auto.
  - apply bind_Ok in H as (more & A & H). apply (apply_facts_changes context) in A; [|done|done].
    apply (closing_is_record context) in A. cbn zeta in H.
    destruct (rb_body _); try (injection H as <-; exact A). split_if H; injection H as <-; exact A.
Qed.

Lemma observed_changes st facts target change :
  NoDup (record_ids st) -> observed st context facts target = Ok change ->
  changes (record_step context) st (lc_state change).
Proof.
  intros D ([root|] & U & H)%bind_Ok; [|done]. apply unique_in in U as [I _].
  apply bind_Ok in H as (c & A & H). apply (apply_facts_changes context) in A; [|done|done].
  assert (NoDup (record_ids (lc_state c))) as Dc by (by rewrite (closing_ids _ _ _ A)).
  apply (closing_is_record context) in A. etrans; [exact A|].
  assert (match target with
          | None => Ok c
          | Some t => if is_Some_b (ta_target_resource t) then Ok c else observed_target c context root t
          end = Ok change -> changes (record_step context) (lc_state c) (lc_state change)) as K.
  { clear H. intros H. destruct target as [t|]; [|by injection H as <-].
    split_if H; [by injection H as <-|by eapply observed_target_changes]. }
  destruct (rb_body _); try (by apply K).
  - apply bind_Ok in H as (more & M & H). injection H as <-. apply end_cancels_changes in M; [|done]. by apply (closing_is_record context) in M.
  - apply bind_Ok in H as (more & M & H). injection H as <-. apply end_released_changes in M; [|done]. by apply (closing_is_record context) in M.
Qed.

Lemma advance_record_changes st event change :
  NoDup (record_ids st) -> advance_record st context event = Ok change ->
  changes (record_step context) st (lc_state change).
Proof.
  intros D H. destruct event; cbn in H.
  - by rewrite (prepared_event_state _ _ _ _ _ _ _ H).
  - by eapply dispatched_changes.
  - apply bind_Ok in H as (late & _ & H). split_if H; [by injection H as <-|by eapply observed_changes].
  - by eapply (closing_is_record context), retire_operation_changes.
  - by eapply retry_due_changes.
  - by eapply (closing_is_record context), undispatchable_changes.
  - by eapply (closing_is_record context), end_stalled_changes.
Qed.

End Events.
