(* ===== verification/LedgerRuns.v ===== *)
(** Runs of the request ledger (RequestLedger.v, LedgerSteps.v): what stays true of every record over
    any sequence of registrations and ledger events. Closed records stay closed, stale answers are
    inert, a retryable request is sent again at most as often as its limit says, and a failure
    closes whatever still waited on it. *)
From S2P Require Import Prelude Floats CoreValues CoreProofs WaitClock Requests RequestLedger LedgerSteps.

(** ** Registration *)

(** [_address] changes which commands name a record, and nothing else of it. *)
Definition addressed (r r' : RequestRecord) : Prop := r' = r <| rr_addressed_by := rr_addressed_by r' |>.

#[export] Instance addressed_preorder : PreOrder addressed.
Proof.
  split; [by intros []|]. intros a b c A B. unfold addressed in *. rewrite B, A. by destruct a.
Qed.

Lemma address_records l request : Forall2 addressed l (address l request).
Proof.
  assert (forall i t, Forall2 addressed l (address_first i t l)) as H.
  { intros i t. induction l as [|r l IH]; cbn; [constructor|]. destruct (pystr_eqb _ _).
    - constructor; [by case_bool_decide|reflexivity].
    - by constructor. }
  unfold address. destruct (rb_request_id request); [|reflexivity]. destruct (rb_body request); first [apply H|reflexivity].
Qed.

(** ** Well-formed records *)

Section Runs.
Context {digests : Digests}.

(** What is true of every record the ledger keeps. *)
Record record_ok (r : RequestRecord) : Prop := {
  ok_named : rb_request_id (rr_request r) = Some (rr_request_id r);
  ok_digest : request_digest (rr_request r) = Ok (rr_payload_digest r);
  ok_lifecycle : rr_lifecycle r = request_lifecycle (rr_request r);
  ok_observed : forall o, rr_observation r = Some o ->
    ob_request_id o = rr_request_id r /\ rr_sequence r = Some (ob_sequence o);
  ok_prepared : rr_phase r = RQ_PREPARED -> rr_observation r = None /\ rr_sequence r = None;
  ok_reconciling : forall o, rr_phase r = RQ_RECONCILING -> rr_observation r = Some o -> retryable o = false;
  ok_completed : rr_phase r = RQ_COMPLETED -> exists o, rr_observation r = Some o /\ conclusive o = true
}.

Definition ledger_ok (st : RecordsState) : Prop :=
  NoDup (record_ids st) /\ forall r, r ∈ re_records st -> record_ok r.

(** The shape of a ledger after registration: the records it had, then new prepared ones. *)
Definition fresh_record (r : RequestRecord) : Prop :=
  record_ok r /\ rr_phase r = RQ_PREPARED /\ rr_retry_count r = 0.
Definition registered (l l' : list RequestRecord) : Prop :=
  exists added, Forall2 addressed (l ++ added) l' /\ Forall fresh_record added
                /\ (NoDup (map rr_request_id l) -> NoDup (map rr_request_id (l ++ added))).

Lemma addressed_ids l l' : Forall2 addressed l l' -> map rr_request_id l' = map rr_request_id l.
Proof. induction 1 as [|x y l l' E _ IH]; [done|]. cbn. by rewrite IH, E. Qed.

Lemma addressed_ok r r' : addressed r r' -> record_ok r -> record_ok r'.
Proof. intros -> []. by split. Qed.

Lemma prepared_record_fresh i request digest scheduled :
  rb_request_id request = Some i -> request_digest request = Ok digest ->
  fresh_record (prepared_record i request digest scheduled).
Proof. intros N D. split; [|done]. by split. Qed.

Lemma register_one_spec run_id revision index scheduled l p :
  register_one run_id revision index scheduled l = Ok p -> registered l p.1.
Proof.
  unfold register_one. intros (i & _ & H)%bind_Ok. apply bind_Ok in H as (d & D & H).
  destruct (find _ l) eqn:F.
  - apply bind_Ok in H as (d' & _ & H). split_if H; [done|]. injection H as <-. exists [].
    rewrite app_nil_r. repeat split; auto. reflexivity.
  - injection H as <-. eexists [_]. split; [apply address_records|]. split.
    + constructor; [|done]. by apply prepared_record_fresh.
    + intros N. rewrite map_app. apply NoDup_app. split; [done|]. split; [|apply NoDup_singleton].
      intros x Hx Hi. apply list_elem_of_singleton in Hi as ->. apply elem_of_map in Hx as (r & E & R).
      rewrite find_None_elem in F. specialize (F r R). cbn in E. by rewrite <- E, pystr_eqb_refl in F.
Qed.

Lemma registered_trans l1 l2 l3 : registered l1 l2 -> registered l2 l3 -> registered l1 l3.
Proof.
  intros (a & A & Fa & Na) (b & B & Fb & Nb). exists (a ++ b). split; [|split].
  - rewrite app_assoc. trans (l2 ++ b); [|done]. by apply Forall2_app.
  - by apply Forall_app.
  - intros N. rewrite app_assoc, map_app. specialize (Na N). rewrite <- (addressed_ids _ _ A) in *.
    rewrite <- map_app. by apply Nb.
Qed.

Lemma register_from_spec run_id revision index scheduled l p :
  register_from run_id revision index scheduled l = Ok p -> registered l p.1.
Proof.
  revert index l p. induction scheduled as [|s rest IH]; intros index l p; cbn.
  - intros [= <-]. exists []. rewrite app_nil_r. repeat split; auto. reflexivity.
  - intros (q & Q & H)%bind_Ok. apply bind_Ok in H as (q' & Q' & H). injection H as <-. cbn.
    eapply registered_trans; [by eapply register_one_spec|by eapply IH].
Qed.

Lemma register_requests_spec run revision st scheduled p :
  register_requests run revision st scheduled = Ok p ->
  registered (re_records st) (re_records p.1.1) /\ re_recovery p.1.1 = re_recovery st.
Proof.
  unfold register_requests. intros (q & Q & H)%bind_Ok. injection H as <-. split; [|done].
  by eapply register_from_spec.
Qed.

(** ** Runs *)

Inductive LedgerInput :=
| In_event (context : RecordsContext) (event : RecordsEvent)
| In_register (run : RunState) (revision : Z) (scheduled : list Scheduled).

Definition take_input (st : RecordsState) (input : LedgerInput) : result RecordsState :=
  match input with
  | In_event context event => let* c := advance_record st context event in Ok (lc_state c)
  | In_register run revision scheduled =>
    let* p := register_requests run revision st scheduled in Ok p.1.1
  end.
Definition run_ledger (st : RecordsState) (inputs : list LedgerInput) : result RecordsState :=
  foldM_result take_input st inputs.

(** ** Each transition keeps a record well formed *)

Lemma exhausted_request_id context r facts :
  ob_request_id (fa_observation (exhausted context r facts)) = ob_request_id (fa_observation facts).
Proof. unfold exhausted. by case_match. Qed.

Lemma observed_record_rest r facts phase retries retry_at :
  let r' := observed_record r facts phase retries retry_at in
  rr_payload_digest r' = rr_payload_digest r /\ rr_lifecycle r' = rr_lifecycle r
  /\ rr_sequence r' = Some (ob_sequence (fa_observation facts)).
Proof. unfold observed_record. by repeat case_match. Qed.

(** What [next_phase] says of the observation it takes. *)
Lemma next_phase_cases r o phase retries :
  next_phase r o = (phase, retries) ->
  (phase = RQ_COMPLETED /\ retries = rr_retry_count r /\ conclusive o = true
     /\ (ob_status o = OBS_SUCCEEDED -> ob_accepted o = true))
  \/ (phase = RQ_RECONCILING /\ retries = rr_retry_count r /\ retryable o = false)
  \/ (phase = RQ_DISPATCHED /\ retryable o = true /\ retries = rr_retry_count r + 1)
  \/ (phase = RQ_DISPATCHED /\ retryable o = false /\ retries = rr_retry_count r).
Proof.
  unfold next_phase. intros H. split_if H; [injection H as <- <-; left|split_if H; [injection H as <- <-; right; left|]].
  - apply andb_true_iff in Heqb as [C N]. repeat split; [done|]. intros S. rewrite S in N. cbn in N.
    by destruct (ob_accepted o).
  - repeat split. unfold retryable. apply orb_true_iff in Heqb0 as [U|T]; [|by rewrite T].
    apply bool_decide_eq_true in U. rewrite U. by destruct (ob_terminal o).
  - split_if H; injection H as <- <-; right; right; [by left|by right].
Qed.

Lemma record_step_ok context r r' : record_step context r r' -> record_ok r -> record_ok r'.
Proof.
  intros [? ? [r0 facts phase retries retry_at C U Q W N|r0 o p C O G W|r0 C]|st r0 P|r0 P] K.
  - destruct (observed_record_request r0 (exhausted context r0 facts) phase retries retry_at) as (E1 & E2 & E3 & E4 & E5).
    destruct (observed_record_rest r0 (exhausted context r0 facts) phase retries retry_at) as (E6 & E7 & E8).
    destruct K. apply next_phase_cases in N.
    split; rewrite ?E1, ?E2, ?E3, ?E5, ?E6, ?E7, ?E8; try done.
    + intros o [= <-]. by rewrite exhausted_request_id.
    + intros ->. by intuition.
    + intros o -> [= <-]. by intuition.
    + intros ->. eexists. split; [done|]. by intuition.
  - destruct K as [K1 K2 K3 K4 K5 K6 K7]. split; cbn; try done.
    + intros x [= <-]. destruct (K4 p O) as [A _]. done.
    + intros P. congruence.
    + intros x P. congruence.
    + intros _. destruct (K7 C) as (q & Q & Cq). rewrite O in Q. injection Q as <-. by eexists.
  - destruct K. split; cbn; try done.
  - destruct K as [K1 K2 K3 K4 K5 K6 K7]. unfold dispatched_record. repeat case_match; split; cbn; done.
  - destruct K. split; cbn; done.
Qed.

Lemma record_steps_ok context r r' : rtc (record_step context) r r' -> record_ok r -> record_ok r'.
Proof. induction 1; eauto using record_step_ok. Qed.

Lemma changes_ok context st st' : changes (record_step context) st st' -> ledger_ok st -> ledger_ok st'.
Proof.
  intros C [D K]. split; [by rewrite (changes_ids _ _ _ C)|].
  intros r' R. destruct (changes_backward _ _ _ _ C R) as (r & I & S). by eapply record_steps_ok, K.
Qed.

Lemma registered_forward l l' r : registered l l' -> r ∈ l -> exists r', r' ∈ l' /\ addressed r r'.
Proof.
  intros (added & A & _) R. apply list_elem_of_lookup in R as (n & R).
  destruct (Forall2_lookup_l _ _ _ n r A) as (r' & L & E); [by apply lookup_app_l_Some|].
  exists r'. split; [by eapply list_elem_of_lookup_2|done].
Qed.
Lemma registered_backward l l' r' :
  registered l l' -> r' ∈ l' -> exists r, addressed r r' /\ (r ∈ l \/ fresh_record r).
Proof.
  intros (added & A & F & _) R. apply list_elem_of_lookup in R as (n & R).
  destruct (Forall2_lookup_r _ _ _ n r' A R) as (r & L & E). exists r. split; [done|].
  apply list_elem_of_lookup_2, elem_of_app in L as [L|L]; [by left|right]. by eapply Forall_forall in F.
Qed.

Lemma take_input_ok st input st' : take_input st input = Ok st' -> ledger_ok st -> ledger_ok st'.
Proof.
  intros H K. destruct input as [context event|run revision scheduled]; cbn in H; apply bind_Ok in H as (c & C & H); injection H as <-.
  - apply advance_record_changes in C; [|by destruct K]. by eapply changes_ok.
  - apply register_requests_spec in C as [C _]. destruct K as [D K]. split.
    + destruct C as (added & A & _ & N). unfold record_ids. rewrite (addressed_ids _ _ A). by apply N.
    + intros r' R. destruct (registered_backward _ _ _ C R) as (r & E & [I|F]);
        (eapply addressed_ok; [exact E|]); [by apply K|by destruct F].
Qed.

Lemma run_ledger_ok st inputs st' : run_ledger st inputs = Ok st' -> ledger_ok st -> ledger_ok st'.
Proof.
  revert st. induction inputs as [|x inputs IH]; intros st H K; cbn in H; [by injection H as <-|].
  apply bind_Ok in H as (st1 & A & H). eapply IH; [exact H|]. by eapply take_input_ok.
Qed.

(** Case analysis of a run by its first input. *)
Lemma run_ledger_ind (P : RecordsState -> RecordsState -> Prop) :
  (forall st, ledger_ok st -> P st st) ->
  (forall st input st1 st', ledger_ok st -> take_input st input = Ok st1 -> P st1 st' -> P st st') ->
  forall st inputs st', ledger_ok st -> run_ledger st inputs = Ok st' -> P st st'.
Proof.
  intros P0 PS st inputs. revert st. induction inputs as [|x inputs IH]; intros st st' K H; cbn in H.
  - injection H as <-. by apply P0.
  - apply bind_Ok in H as (st1 & A & H). eapply PS; [done|exact A|]. eapply IH; [by eapply take_input_ok|done].
Qed.

(** ** Closed records *)

(** The same proof of the answer, or one of a strictly later sequence: only the release and the
    children may have been added. *)
Definition later_proof (o o' : Observation) : Prop :=
  o' = o
  \/ (o' = o <| ob_event_id := ob_event_id o' |> <| ob_sequence := ob_sequence o' |>
           <| ob_observed_at := ob_observed_at o' |> <| ob_released := ob_released o' |>
           <| ob_children := ob_children o' |> <| ob_children_complete := ob_children_complete o' |>
      /\ ob_sequence o < ob_sequence o'
      /\ (ob_released o = true -> ob_released o' = true)
      /\ (ob_children_complete o = true -> ob_children_complete o' = true)
      /\ ob_children o `prefix_of` ob_children o').

(** The record is the same but for its answer's proof and for the commands that name it. *)
Definition still_closed (r r' : RequestRecord) : Prop :=
  r' = r <| rr_observation := rr_observation r' |> <| rr_sequence := rr_sequence r' |>
         <| rr_addressed_by := rr_addressed_by r' |>
  /\ exists o o', rr_observation r = Some o /\ rr_observation r' = Some o' /\ later_proof o o'.

Lemma later_proof_refl o : later_proof o o.
Proof. by left. Qed.
Lemma later_proof_trans a b c : later_proof a b -> later_proof b c -> later_proof a c.
Proof.
  intros [->|(E & S & R & C & L)]; [done|]. intros [->|(E' & S' & R' & C' & L')]; right; [done|].
  split; [rewrite E', E; by destruct a|]. repeat split; auto; [lia|by etrans].
Qed.
Lemma still_closed_trans a b c : still_closed a b -> still_closed b c -> still_closed a c.
Proof.
  intros (E & o & o1 & A & B & L) (E' & o2 & o3 & A' & B' & L'). split; [rewrite E', E; by destruct a|].
  exists o, o3. rewrite B in A'. injection A' as ->. split; [done|split; [done|by eapply later_proof_trans]].
Qed.
Lemma still_closed_phase r r' : still_closed r r' -> rr_phase r' = rr_phase r.
Proof. intros [-> _]. done. Qed.

Lemma refined_later p o : ob_sequence p < ob_sequence o -> later_proof p (refined p o).
Proof.
  intros S. right. split; [done|]. split; [done|]. cbn. split; [by intros ->|]. split; [by intros ->|]. by eexists.
Qed.

Lemma closed_record_step context r r' :
  record_ok r -> rr_phase r = RQ_COMPLETED -> record_step context r r' -> still_closed r r'.
Proof.
  intros K P S. revert K P.
  destruct S as [? ? [r0 facts phase retries retry_at C|r0 o p C O G W|r0 C]|st r0 [C|[C _]]|r0 [C|C]]; intros K P;
    try congruence.
  split; [done|]. exists p, (refined p o). split; [done|split; [done|]].
  apply refined_later. destruct (ok_observed _ K p O) as [I _]. specialize (W p O I). lia.
Qed.

Lemma closed_record_steps context r r' :
  record_ok r -> rr_phase r = RQ_COMPLETED -> rtc (record_step context) r r' -> still_closed r r'.
Proof.
  intros K P S. revert K P. induction S as [x|x y z A _ IH]; intros K P.
  - destruct (ok_completed _ K P) as (o & O & _). split; [by destruct x|]. exists o, o. split; [done|split; [done|apply later_proof_refl]].
  - assert (still_closed x y) as B by (by eapply closed_record_step). eapply still_closed_trans; [exact B|].
    apply IH; [by eapply record_step_ok|]. by rewrite (still_closed_phase _ _ B).
Qed.

Lemma closed_by_input st input st' r :
  ledger_ok st -> take_input st input = Ok st' -> r ∈ re_records st -> rr_phase r = RQ_COMPLETED ->
  exists r', r' ∈ re_records st' /\ still_closed r r'.
Proof.
  intros [D K] H I P. destruct input as [context event|run revision scheduled]; cbn in H;
    apply bind_Ok in H as (c & C & H); injection H as <-.
  - apply advance_record_changes in C; [|done]. destruct (changes_forward _ _ _ _ C I) as (r' & I' & S).
    exists r'. split; [done|]. eapply closed_record_steps; [by apply K|done|exact S].
  - apply register_requests_spec in C as [C _]. destruct (registered_forward _ _ _ C I) as (r' & I' & E).
    exists r'. split; [done|]. destruct (ok_completed _ (K r I) P) as (o & O & _). unfold addressed in E. split.
    + rewrite E. by destruct r.
    + exists o, o. rewrite E. split; [done|split; [done|apply later_proof_refl]].
Qed.

(** C18. A request is closed exactly once. Over any run of the ledger (registrations and events, in
    any order) a completed record stays completed: its status, acceptance, resource and outcome
    never change and its identity keeps naming it alone. The proof of its answer either is the one it
    had, or has a strictly later sequence, an event and a time of its own: then only the proof of the
    release and more children were added to it, and none was taken back. *)
Theorem closed_for_good st inputs st' r :
  ledger_ok st -> run_ledger st inputs = Ok st' -> r ∈ re_records st -> rr_phase r = RQ_COMPLETED ->
  exists r', r' ∈ re_records st' /\ still_closed r r'
             /\ forall x, x ∈ re_records st' -> rr_request_id x = rr_request_id r -> x = r'.
Proof.
  intros K H I P. pose proof (run_ledger_ok _ _ _ H K) as [D' _].
  assert (exists r', r' ∈ re_records st' /\ still_closed r r') as (r' & I' & S).
  { revert r I P. pattern st, st'. eapply run_ledger_ind; [|clear|exact K|exact H].
    - intros s [_ Ks] r I P. destruct (ok_completed _ (Ks r I) P) as (o & O & _). exists r. split; [done|].
      split; [by destruct r|]. exists o, o. split; [done|split; [done|apply later_proof_refl]].
    - intros s input s1 s' Ks A IH r I P. destruct (closed_by_input _ _ _ _ Ks A I P) as (r1 & I1 & S1).
      destruct (IH r1 I1) as (r' & I' & S'); [by rewrite (still_closed_phase _ _ S1)|].
      exists r'. split; [done|]. by eapply still_closed_trans. }
  exists r'. split; [done|split; [done|]]. intros x X E. eapply ids_inj; [exact D'|done|done|].
  destruct S as [-> _]. done.
Qed.

(** ** Retries *)

(** The limit on the retries of a request: an operation declares its own. *)
Definition declared_limit (limit : Z) (r : RequestRecord) : Z :=
  match rb_body (rr_request r) with ExecuteRegisteredOperation _ _ own _ => own | _ => limit end.
Definition under_limit (limit : Z) (input : LedgerInput) : Prop :=
  match input with
  | In_event context _ => ry_limit (li_request_retries (ru_limits (rx_run context))) = limit
  | In_register _ _ _ => True
  end.

(** The request waits for its retry time: its last answer was a failure that may be retried. *)
Definition awaits_retry (r : RequestRecord) : bool :=
  match rr_phase r, rr_observation r with RQ_DISPATCHED, Some o => retryable o | _, _ => false end.
(** The retries granted and not awaited any more. *)
Definition spent (r : RequestRecord) : Z := rr_retry_count r - (if awaits_retry r then 1 else 0).

Definition is_prepared (i : RequestId) (st : RecordsState) : bool :=
  existsb (fun r => pystr_eqb (rr_request_id r) i && bool_decide (rr_phase r = RQ_PREPARED)) (re_records st).
(** The input is the retry time of request [i], and it put the request up for sending again. *)
Definition resends_now (i : RequestId) (st : RecordsState) (input : LedgerInput) (st' : RecordsState) : bool :=
  match input with
  | In_event _ (RetryDue j _) => pystr_eqb j i && negb (is_prepared i st) && is_prepared i st'
  | _ => false
  end.
Fixpoint resends (i : RequestId) (st : RecordsState) (inputs : list LedgerInput) : Z :=
  match inputs with
  | [] => 0
  | input :: rest =>
    match take_input st input with
    | Ok st' => (if resends_now i st input st' then 1 else 0) + resends i st' rest
    | Err _ => 0
    end
  end.

Lemma awaits_retry_unless r : rr_phase r <> RQ_DISPATCHED -> awaits_retry r = false.
Proof. unfold awaits_retry. by destruct (rr_phase r). Qed.
Lemma spent_at_most r : spent r <= rr_retry_count r.
Proof. unfold spent. destruct (awaits_retry r); lia. Qed.

Lemma record_step_spent context r r' : record_step context r r' -> record_ok r -> spent r <= spent r'.
Proof.
  intros [? ? [r0 facts phase retries retry_at C U Q W N|r0 o p C O G W|r0 C]|st r0 P|r0 P] K.
  - destruct (observed_record_request r0 (exhausted context r0 facts) phase retries retry_at) as (_ & _ & E3 & E4 & E5).
    pose proof (spent_at_most r0). unfold spent at 2, awaits_retry. rewrite E3, E4, E5.
    apply next_phase_cases in N as [(-> & -> & _)|[(-> & -> & _)|[(-> & R & ->)|(-> & R & ->)]]]; rewrite ?R; cbn;
      lia.
  - unfold spent. rewrite !awaits_retry_unless by (cbn; congruence). cbn. lia.
  - unfold spent. rewrite (awaits_retry_unless (r0 <| rr_phase := RQ_BLOCKED |>)) by done. cbn. destruct (awaits_retry r0); lia.
  - assert (awaits_retry (dispatched_record st context r0) = false) as A.
    { unfold awaits_retry. assert (rr_observation (dispatched_record st context r0) = rr_observation r0) as ->
        by (unfold dispatched_record; by repeat case_match).
      destruct P as [P|[P _]].
      - rewrite (proj1 (ok_prepared _ K P)). by case_match.
      - destruct (rr_observation r0) as [o|] eqn:O; [|by case_match].
        rewrite (ok_reconciling _ K o P O). by case_match. }
    assert (rr_retry_count (dispatched_record st context r0) = rr_retry_count r0) as E
      by (unfold dispatched_record; by repeat case_match).
    unfold spent. rewrite A, E. destruct (awaits_retry r0); lia.
  - pose proof (spent_at_most r0). unfold spent at 2. rewrite awaits_retry_unless by done. cbn. lia.
Qed.

Lemma record_steps_spent context r r' : rtc (record_step context) r r' -> record_ok r -> spent r <= spent r'.
Proof.
  induction 1 as [|x y z A _ IH]; intros K; [lia|]. etrans; [by eapply record_step_spent|].
  apply IH. by eapply record_step_ok.
Qed.

(** An exhausted failure is not retried, so the count never passes the limit. *)
Lemma record_step_count context limit r r' :
  ry_limit (li_request_retries (ru_limits (rx_run context))) = limit ->
  record_step context r r' -> rr_retry_count r <= Z.max 0 (declared_limit limit r) ->
  rr_retry_count r' <= Z.max 0 (declared_limit limit r').
Proof.
  intros L S B. unfold declared_limit. rewrite (proj2 (record_step_request _ _ _ S)). fold (declared_limit limit r).
  revert B. destruct S as [? ? [r0 facts phase retries retry_at C U Q W N|r0 o p C O G W|r0 C]|st r0 P|r0 P]; cbn; try done.
  - destruct (observed_record_request r0 (exhausted context r0 facts) phase retries retry_at) as (_ & _ & _ & -> & _).
    intros B. apply next_phase_cases in N as [(_ & -> & _)|[(_ & -> & _)|[(_ & R & ->)|(_ & _ & ->)]]]; try done.
    unfold exhausted in R. destruct (negb (retryable _)) eqn:F; cbn in R; [by rewrite R in F|].
    destruct (_ <=? _) eqn:E; cbn in R; [|by unfold retryable in R; cbn in R].
    assert (retry_limit context r0 = declared_limit limit r0) as T by (unfold retry_limit, declared_limit; by rewrite L).
    lia.
  - unfold dispatched_record. by repeat case_match.
Qed.

Lemma record_steps_count context limit r r' :
  ry_limit (li_request_retries (ru_limits (rx_run context))) = limit ->
  rtc (record_step context) r r' -> rr_retry_count r <= Z.max 0 (declared_limit limit r) ->
  rr_retry_count r' <= Z.max 0 (declared_limit limit r').
Proof. intros L. induction 1; eauto using record_step_count. Qed.

Lemma is_prepared_true i st :
  is_prepared i st = true <-> exists r, r ∈ re_records st /\ rr_request_id r = i /\ rr_phase r = RQ_PREPARED.
Proof.
  unfold is_prepared. rewrite existsb_exists. split.
  - intros (r & I%list_elem_of_In & [A B]%andb_true_iff). exists r. split; [done|].
    split; [by apply pystr_eqb_true|by apply bool_decide_eq_true in B].
  - intros (r & I & E & P). exists r. split; [by apply list_elem_of_In|]. apply andb_true_iff.
    split; [by apply pystr_eqb_true|by apply bool_decide_eq_true].
Qed.

(** A retry that goes out again was awaited. *)
Lemma retry_due_awaited st context i now_at change :
  ledger_ok st -> retry_due st context i now_at = Ok change -> is_prepared i st = false ->
  is_prepared i (lc_state change) = true ->
  exists r, r ∈ re_records st /\ rr_request_id r = i /\ awaits_retry r = true
            /\ reissued_record context r ∈ re_records (lc_state change).
Proof.
  intros [D K] ([r|] & U & H)%bind_Ok N Y; [|injection H as <-; cbn in Y; congruence].
  apply unique_in in U as [I E]. destruct (retry_wait_until r) eqn:W; [|injection H as <-; cbn in Y; congruence].
  apply retry_wait_dispatched in W as (P & o & O & R). split_if H; injection H as <-; [cbn in Y; congruence|].
  exists r. split; [done|split; [done|]]. split; [unfold awaits_retry; by rewrite P, O|]. by apply (replace_in st r).
Qed.

Lemma input_spent st input st' r r' :
  ledger_ok st -> take_input st input = Ok st' -> r ∈ re_records st -> r' ∈ re_records st' ->
  rr_request_id r' = rr_request_id r ->
  (if resends_now (rr_request_id r) st input st' then 1 else 0) + spent r <= spent r'.
Proof.
  intros Ks H I I' E. pose proof (take_input_ok _ _ _ H Ks) as [D' _].
  assert (spent r <= spent r') as M.
  { destruct Ks as [D K]. destruct input as [context event|run revision scheduled]; cbn in H;
      apply bind_Ok in H as (c & C & H); injection H as <-.
    - apply advance_record_changes in C; [|done]. destruct (changes_forward _ _ _ _ C I) as (r1 & I1 & S).
      assert (r1 = r') as ->.
      { eapply ids_inj; [exact D'|done|done|]. rewrite E. by apply (record_steps_request context). }
      eapply record_steps_spent; [exact S|by apply K].
    - apply register_requests_spec in C as [C _]. destruct (registered_forward _ _ _ C I) as (r1 & I1 & A).
      assert (r1 = r') as -> by (eapply ids_inj; [exact D'|done|done|by rewrite E, A]).
      rewrite A. done. }
  destruct (resends_now _ _ _ _) eqn:R; [|lia]. destruct input as [context event|]; [|done].
  destruct event; try done. cbn in R. apply andb_true_iff in R as [[J N]%andb_true_iff Y].
  apply pystr_eqb_true in J. subst request_id. apply negb_true_iff in N.
  cbn in H. apply bind_Ok in H as (c & C & H). injection H as <-.
  destruct (retry_due_awaited _ _ _ _ _ Ks C N Y) as (x & X & Ex & A & X').
  assert (x = r) as -> by (destruct Ks; by eapply (ids_inj st)).
  assert (reissued_record context r = r') as <- by (by eapply (ids_inj (lc_state c))).
  unfold spent. rewrite A, (awaits_retry_unless (reissued_record context r)) by done. cbn. lia.
Qed.

Lemma input_new st input st' r' :
  ledger_ok st -> take_input st input = Ok st' -> r' ∈ re_records st' ->
  (forall r, r ∈ re_records st -> rr_request_id r <> rr_request_id r') ->
  exists run revision scheduled, input = In_register run revision scheduled
    /\ spent r' = 0 /\ rr_retry_count r' = 0.
Proof.
  intros [D K] H I' N. destruct input as [context event|run revision scheduled]; cbn in H;
    apply bind_Ok in H as (c & C & H); injection H as <-.
  - apply advance_record_changes in C; [|done]. destruct (changes_backward _ _ _ _ C I') as (r & I & S).
    exfalso. apply (N r I). symmetry. by apply (record_steps_request context).
  - apply register_requests_spec in C as [C _]. destruct (registered_backward _ _ _ C I') as (r & A & [I|F]).
    + exfalso. apply (N r I). by rewrite A.
    + exists run, revision, scheduled. destruct F as (_ & P & Z0). rewrite A. split; [done|]. unfold spent, awaits_retry. cbn.
      by rewrite P, Z0.
Qed.

Definition has_record (i : RequestId) (st : RecordsState) : Prop :=
  exists r, r ∈ re_records st /\ rr_request_id r = i.
Lemma has_record_dec i st : has_record i st \/ forall r, r ∈ re_records st -> rr_request_id r <> i.
Proof.
  destruct (decide (i ∈ record_ids st)) as [H|H].
  - left. apply elem_of_map in H as (r & -> & R). by exists r.
  - right. intros r R E. apply H. rewrite <- E. by apply elem_of_map_1.
Qed.

Lemma take_input_keeps st input st' r :
  ledger_ok st -> take_input st input = Ok st' -> r ∈ re_records st -> has_record (rr_request_id r) st'.
Proof.
  intros [D K] H I. destruct input as [context event|run revision scheduled]; cbn in H;
    apply bind_Ok in H as (c & C & H); injection H as <-.
  - apply advance_record_changes in C; [|done]. destruct (changes_forward _ _ _ _ C I) as (r1 & I1 & S).
    exists r1. split; [done|]. by apply (record_steps_request context).
  - apply register_requests_spec in C as [C _]. destruct (registered_forward _ _ _ C I) as (r1 & I1 & A).
    exists r1. split; [done|]. by rewrite A.
Qed.

(** Re-sends of a request during a run are paid for by retries granted during it. *)
Lemma resends_spent st inputs st' r' :
  ledger_ok st -> run_ledger st inputs = Ok st' -> r' ∈ re_records st' ->
  (forall r, r ∈ re_records st -> rr_request_id r = rr_request_id r' ->
     resends (rr_request_id r') st inputs + spent r <= spent r')
  /\ ((forall r, r ∈ re_records st -> rr_request_id r <> rr_request_id r') ->
      resends (rr_request_id r') st inputs <= spent r').
Proof.
  revert st. induction inputs as [|input rest IH]; intros st K H I'; cbn in H.
  - injection H as <-. split; [|intros N; by destruct (N r' I')]. intros r I E.
    destruct K as [D _]. rewrite (ids_inj st r r' D I I' E). cbn. lia.
  - apply bind_Ok in H as (st1 & A & H). pose proof (take_input_ok _ _ _ A K) as K1.
    specialize (IH st1 K1 H I') as [IH1 IH2]. cbn [resends]. rewrite A. split.
    + intros r I E. destruct (take_input_keeps _ _ _ _ K A I) as (r1 & I1 & E1).
      specialize (IH1 r1 I1 (eq_trans E1 E)). pose proof (input_spent _ _ _ _ _ K A I I1 E1). rewrite E in *. lia.
    + intros N. destruct (has_record_dec (rr_request_id r') st1) as [(r1 & I1 & E1)|N1].
      * specialize (IH1 r1 I1 E1). destruct (input_new _ _ _ r1 K A I1) as (run & rev_ & sch & -> & S & _); [by rewrite E1|].
        cbn. lia.
      * specialize (IH2 N1). destruct (resends_now _ _ _ _) eqn:R; [|lia]. exfalso.
        unfold resends_now in R. destruct input as [context event|]; [|done]. destruct event; try done.
        apply andb_true_iff in R as [[J _]%andb_true_iff Y]. apply pystr_eqb_true in J. subst request_id.
        apply is_prepared_true in Y as (x & X & E & _). by apply (N1 x X).
Qed.

Lemma run_counts limit st inputs st' :
  Forall (under_limit limit) inputs -> ledger_ok st -> run_ledger st inputs = Ok st' ->
  (forall r, r ∈ re_records st -> rr_retry_count r <= Z.max 0 (declared_limit limit r)) ->
  forall r, r ∈ re_records st' -> rr_retry_count r <= Z.max 0 (declared_limit limit r).
Proof.
  intros L. revert st. induction L as [|input rest Lx _ IH]; intros st K H B; cbn in H; [by injection H as <-|].
  apply bind_Ok in H as (st1 & A & H). apply (IH st1); [by eapply take_input_ok|done|]. clear IH H.
  intros r' I'. destruct K as [D K]. destruct input as [context event|run revision scheduled]; cbn in A;
    apply bind_Ok in A as (c & C & A); injection A as <-.
  - apply advance_record_changes in C; [|done]. destruct (changes_backward _ _ _ _ C I') as (r & I & S).
    eapply record_steps_count; [exact Lx|exact S|by apply B].
  - apply register_requests_spec in C as [C _]. destruct (registered_backward _ _ _ C I') as (r & E & [I|F]).
    + rewrite E. exact (B r I).
    + destruct F as (_ & _ & Z0). rewrite E. cbn. rewrite Z0. lia.
Qed.

(** C20. A request is sent again after a failure at most as often as its limit allows. From an empty
    ledger, over any run whose configuration fixes the retry limit, the retries that put a request
    up for sending again are at most the retries its record counts, and those are never more than
    the limit (the operation's own, or the run's). *)
Theorem resends_bounded limit st inputs st' r :
  re_records st = [] -> Forall (under_limit limit) inputs -> run_ledger st inputs = Ok st' ->
  r ∈ re_records st' ->
  resends (rr_request_id r) st inputs <= rr_retry_count r <= Z.max 0 (declared_limit limit r).
Proof.
  intros E L H I. assert (ledger_ok st) as K.
  { unfold ledger_ok, record_ids. rewrite E. split; [constructor|]. intros x X. by inversion X. }
  split.
  - etrans; [|apply spent_at_most]. apply (resends_spent st inputs st' r K H I). intros x X. rewrite E in X. by inversion X.
  - eapply run_counts; [exact L|exact K|exact H| |exact I]. intros x X. rewrite E in X. by inversion X.
Qed.

(** ** Answers by their sequence *)

Lemma unique_of st r : NoDup (record_ids st) -> r ∈ re_records st -> unique st (rr_request_id r) = Ok (Some r).
Proof.
  unfold unique, find_records, record_ids. intros D I.
  assert (List.filter (fun x => pystr_eqb (rr_request_id x) (rr_request_id r)) (re_records st) = [r]) as ->; [|done].
  induction (re_records st) as [|x l IH]; [by inversion I|]. cbn in *. apply NoDup_cons in D as [N D].
  apply elem_of_cons in I as [<-|I].
  - rewrite pystr_eqb_refl. f_equal. apply List_filter_none. intros y Y. destruct (pystr_eqb _ _) eqn:E; [|done].
    apply pystr_eqb_true in E. destruct N. rewrite <- E. by apply elem_of_map_1.
  - destruct (pystr_eqb _ _) eqn:E; [|by apply IH]. apply pystr_eqb_true in E. destruct N. rewrite E. by apply elem_of_map_1.
Qed.

(** What an observation that belongs to a record agrees with. *)
Lemma observation_for_proven r o x :
  observation_for r (Some o) = Proven x ->
  ob_request_id o = rr_request_id r
  /\ sc_owner (ob_scope o) = sc_owner (rb_scope (rr_request r))
  /\ sc_generation (ob_scope o) = sc_generation (rb_scope (rr_request r))
  /\ ob_admission_id o = rb_admission_id (rr_request r)
  /\ is_attempt_owner (sc_owner (ob_scope o)) && negb (is_Some_b (ob_admission_id o)) = false.
Proof.
  unfold observation_for. destruct (rb_request_id _); [|done].
  destruct (missing_episode _ _ _) eqn:M; [done|]. destruct (identity_mismatch _) eqn:E; [done|]. intros _.
  pose proof (proj1 (identity_mismatch_None _) E) as H.
  assert (forall f b, (f, b) ∈ _ -> b = true) as G by exact (fun f b I => H (f, b) I). clear H E.
  unfold same in G. repeat split.
  1-4: eapply bool_decide_eq_true, G; repeat (first [left|right]).
  unfold missing_episode in M. apply andb_false_iff in M as [M|[_ M]%orb_false_iff]; [|by rewrite M, andb_false_r].
  apply andb_false_iff. left. rewrite <- M. f_equal. eapply bool_decide_eq_true, G. do 2 right. left.
Qed.

(** Freshness of an answer against the answer its record keeps is their sequences' order. *)
Lemma fresh_by_sequence r o p x y :
  observation_for r (Some o) = Proven x -> observation_for r (Some p) = Proven y ->
  fresh_observation (Some p) o
  = if (ob_sequence o <? ob_sequence p) || ((ob_sequence o =? ob_sequence p) && negb (obs_eqb o p))
    then Mismatch PF_SEQUENCE else Proven o.
Proof.
  intros (A1 & A2 & A3 & A4 & A5)%observation_for_proven (B1 & B2 & B3 & B4 & B5)%observation_for_proven.
  unfold fresh_observation. replace (pystr_eqb (ob_request_id p) (ob_request_id o)) with true
    by (symmetry; apply pystr_eqb_true; congruence). cbn [negb]. rewrite A5, B5. cbn [orb].
  replace (identity_mismatch _) with (@None ProofField); [done|]. symmetry. apply identity_mismatch_None.
  intros c C. unfold same in C.
  repeat (apply elem_of_cons in C as [->|C]; [apply bool_decide_eq_true; congruence|]). by inversion C.
Qed.

Lemma obs_eqb_sequence o p : obs_eqb o p = true -> ob_sequence o = ob_sequence p.
Proof. intros H%bool_decide_eq_true. by apply (f_equal ob_sequence) in H. Qed.

(** Requests whose answer concerns nothing but their own record. *)
Definition stands_alone (r : RequestRecord) : bool :=
  match rb_body (rr_request r) with CancelTurn _ | DispatchTurn _ _ => false | _ => true end.

Lemma observed_alone st context facts root :
  NoDup (record_ids st) -> root ∈ re_records st -> stands_alone root = true ->
  ob_request_id (fa_observation facts) = rr_request_id root ->
  observed st context facts None = apply_facts st context root facts.
Proof.
  intros D I A E. unfold observed. rewrite E, (unique_of st root D I). cbn [bind].
  destruct (apply_facts st context root facts); cbn [bind]; [|done]. unfold stands_alone in A. by destruct (rb_body (rr_request root)).
Qed.

(** Answers count by their sequence. Once a request has an answer, an older answer or the same
    answer again changes nothing and is no error; a different answer at the same sequence is a typed
    rejection; and so is a newer answer to a closed request that contradicts what closed it. *)
Theorem answers_by_sequence st context facts root p :
  ledger_ok st -> root ∈ re_records st -> rr_observation root = Some p -> stands_alone root = true ->
  starts_with EXHAUSTED (ob_event_id p) = false ->
  observation_for root (Some (fa_observation facts)) = Proven (fa_observation facts) ->
  observation_for root (Some p) = Proven p ->
  let o := fa_observation facts in
  let answer := advance_record st context (RequestObserved facts None) in
  (ob_sequence o < ob_sequence p \/ obs_eqb o p = true -> answer = Ok (kept st))
  /\ (ob_sequence o = ob_sequence p -> obs_eqb o p = false ->
      answer = Err (ledger_error "observation.sequence" "conflicts with the accepted observation"))
  /\ (ob_sequence p < ob_sequence o -> rr_phase root = RQ_COMPLETED -> agrees p o = false ->
      ob_status o <> OBS_UNKNOWN \/ ob_accepted o = ob_accepted p -> answer = Err ClosedRecordContradiction).
Proof.
  intros [D K] I P A L Fo Fp o answer.
  pose proof (proj1 (observation_for_proven _ _ _ Fo)) as E.
  assert (rr_phase root <> RQ_PREPARED) as NP by (intros X; destruct (ok_prepared _ (K _ I) X); congruence).
  assert (answer = apply_facts st context root facts) as ->.
  { unfold answer, advance_record, is_late. rewrite E, (unique_of st root D I). cbn [bind]. rewrite P, L.
    by apply observed_alone. }
  unfold apply_facts. cbn [apply]. fold o in Fo |- *. rewrite Fo, P, (bool_decide_eq_false_2 _ NP). cbn [andb].
  rewrite (fresh_by_sequence _ _ _ _ _ Fo Fp). split; [|split].
  - intros [H|H].
    + by rewrite (proj2 (Z.ltb_lt _ _) H).
    + rewrite (obs_eqb_sequence _ _ H), Z.ltb_irrefl, Z.eqb_refl, H. done.
  - intros S N. by rewrite S, Z.ltb_irrefl, Z.eqb_refl, N.
  - intros S C G U. replace (ob_sequence o <? ob_sequence p) with false by lia.
    replace (ob_sequence o =? ob_sequence p) with false by lia. cbn.
    destruct (obs_eqb o p) eqn:Q; [apply obs_eqb_sequence in Q; lia|]. rewrite C, bool_decide_eq_true_2 by done.
    unfold refine_closed. rewrite P, G. replace (_ && _) with false; [done|]. symmetry. apply andb_false_iff.
    destruct U as [U|U]; [left; by apply bool_decide_eq_false|right]. by rewrite U, bool_decide_eq_true_2.
Qed.

(** ** Limits that count from the dispatch *)

(** A request whose limit counts from its dispatch waits for the run's deadline while it is queued;
    its first dispatch sets the time it must end by, and sending it again does not move that time. *)
Lemma limit_counts_from_dispatch run st outbound cause limit watches scheduled i digest st1 c1 st2 c2 r2 :
  ou_until outbound = FromDispatch limit watches ->
  resolve_outbound run st outbound cause = Ok scheduled ->
  let queued := prepared_record i (sd_request scheduled) digest scheduled in
  let sent := dispatched_record st1 c1 queued in
  r2 = sent <| rr_phase := RQ_PREPARED |> <| rr_observation := None |> <| rr_sequence := None |> ->
  rr_until queued = queued_until run limit watches
  /\ rr_until sent = started_until (rx_run c1) limit watches
  /\ rr_dispatched_at sent = Some (ru_now_at (rx_run c1))
  /\ rr_until (dispatched_record st2 c2 r2) = rr_until sent.
Proof.
  unfold resolve_outbound. intros E H. rewrite E in H. injection H as <-. cbn zeta. intros ->.
  assert (un_watches (queued_until run limit watches) = watches) as W by (unfold queued_until; by case_match).
  repeat split. unfold dispatched_record. cbn. by rewrite W.
Qed.

End Runs.
