(* ===== verification/LedgerCascade.v ===== *)
(** The cascade of the request ledger (RequestLedger.v): closing a request without success closes
    every request that still waited on it, and the recursion that does so always ends. *)
From S2P Require Import Prelude Floats CoreValues CoreProofs WaitClock Requests RequestLedger LedgerSteps LedgerRuns.

Section Cascade.
Context {digests : Digests}.
Variable context : RecordsContext.

(** ** Failures and what waits on them *)

Definition succeeded (r : RequestRecord) : Prop :=
  rr_phase r = RQ_COMPLETED /\ exists o, rr_observation r = Some o /\ ob_status o = OBS_SUCCEEDED.
Definition failed (r : RequestRecord) : Prop :=
  rr_phase r = RQ_COMPLETED /\ exists o, rr_observation r = Some o /\ ob_status o <> OBS_SUCCEEDED.
Definition waits_on (d r : RequestRecord) : Prop :=
  rr_phase d = RQ_PREPARED /\ rr_request_id r ∈ rb_depends_on (rr_request d).

(** No prepared request waits on a failed one, except those named. *)
Definition settled_except (X : list RequestId) (st : RecordsState) : Prop :=
  forall d r, d ∈ re_records st -> r ∈ re_records st -> waits_on d r -> failed r -> rr_request_id d ∈ X.

Lemma closing_never_prepares r r' : closing_step context r r' -> rr_phase r' <> RQ_PREPARED.
Proof.
  intros [r0 facts phase retries retry_at C U Q W N|r0 o p C O G W|r0 C]; cbn; try congruence.
  destruct (observed_record_request r0 (exhausted context r0 facts) phase retries retry_at) as (_ & _ & -> & _).
  apply next_phase_cases in N. intros ->. intuition congruence.
Qed.
Lemma closings_never_prepare r r' : rtc (closing_step context) r r' -> rr_phase r' = RQ_PREPARED -> r = r'.
Proof.
  intros S P. apply rtc_inv_r in S as [->|(y & _ & C)]; [done|]. by apply closing_never_prepares in C.
Qed.

Lemma replaced_settled X st updated :
  settled_except X st -> rr_phase updated <> RQ_PREPARED ->
  (failed updated -> exists r, r ∈ re_records st /\ rr_request_id r = rr_request_id updated /\ failed r) ->
  settled_except X (replace_record st updated).
Proof.
  intros S N F d r Hd Hr W Fr. pose proof W as [P D]. apply replace_inv in Hd as [->|[Id _]]; [done|].
  apply replace_inv in Hr as [->|[Ir _]]; [|by apply (S d r)].
  destruct (F Fr) as (r0 & I0 & E0 & F0). apply (S d r0); [done|done| |done]. split; [done|]. by rewrite E0.
Qed.

(** The dependents of a record that closed without success are the exceptions it opens. *)
Lemma replaced_settled_dependents X st updated :
  settled_except X st -> rr_phase updated <> RQ_PREPARED ->
  settled_except (X ++ map rr_request_id (dependents (replace_record st updated) updated)) (replace_record st updated).
Proof.
  intros S N d r Hd Hr W Fr. pose proof W as [P D]. apply elem_of_app.
  pose proof Hd as Hd'. apply replace_inv in Hd as [->|[Id _]]; [done|].
  apply replace_inv in Hr as [->|[Ir _]]; [|left; by apply (S d r)].
  right. apply elem_of_map_1. apply elem_of_filter. split; [done|]. apply andb_true_iff.
  split; by apply bool_decide_eq_true.
Qed.

(** ** An unsent request is closed by its cancellation *)

Definition closed_unsent (r : RequestRecord) : Prop :=
  rr_phase r = RQ_COMPLETED
  /\ exists o, rr_observation r = Some o /\ ob_status o = OBS_CANCELLED /\ ob_accepted o = false.

Lemma unsent_phase record :
  exhausted context record (unsent_cancellation context record) = unsent_cancellation context record
  /\ next_phase record (fa_observation (unsent_cancellation context record)) = (RQ_COMPLETED, rr_retry_count record).
Proof. done. Qed.

Lemma still_closed_unsent r r' : still_closed r r' -> closed_unsent r -> closed_unsent r'.
Proof.
  intros [E (o & o' & O & O' & L)] (P & x & X & S & A). split; [by rewrite E|].
  exists o'. split; [done|]. rewrite O in X. injection X as <-. by destruct L as [->|[L _]]; [|rewrite L].
Qed.

Lemma closed_forward st st' r :
  changes (record_step context) st st' -> ledger_ok st -> r ∈ re_records st -> rr_phase r = RQ_COMPLETED ->
  exists r', r' ∈ re_records st' /\ rr_request_id r' = rr_request_id r /\ still_closed r r'.
Proof.
  intros C K I P. destruct (changes_forward _ _ _ _ C I) as (r' & I' & S). exists r'. split; [done|].
  split; [by apply (record_steps_request context)|]. eapply closed_record_steps; [by apply K|done|exact S].
Qed.

(** Applying the cancellation of an unsent record is one observation and its cascade. *)
Lemma apply_unsent fuel st current more :
  record_ok current -> rr_phase current = RQ_PREPARED ->
  apply fuel context true st current (unsent_cancellation context current) = Ok more ->
  exists fuel', fuel = S fuel'
    /\ advance_phase (apply fuel' context true) st context current (unsent_cancellation context current) = Ok more.
Proof.
  intros K P H. destruct (ok_prepared _ K P) as [O _].
  destruct fuel as [|fuel]; cbn [apply] in H; (destruct (observation_for _ _); [|done..]); rewrite O in H; cbn in H;
    rewrite P, ?andb_false_r in H; cbn in H; rewrite ?bool_decide_eq_false_2 in H by done; [done|].
  by exists fuel.
Qed.

Lemma unsent_step current :
  record_ok current -> rr_phase current = RQ_PREPARED -> forall retry_at,
  let updated := observed_record current (unsent_cancellation context current) RQ_COMPLETED (rr_retry_count current) retry_at in
  closing_step context current updated /\ rr_request_id updated = rr_request_id current /\ closed_unsent updated.
Proof.
  intros K P retry_at. cbn zeta.
  destruct (observed_record_request current (unsent_cancellation context current) RQ_COMPLETED (rr_retry_count current) retry_at)
    as (E1 & _ & E3 & _ & E5). split; [|split; [done|split; [done|by eexists]]].
  apply (cs_observe context current (unsent_cancellation context current)); try done; [by rewrite P|].
  intros p Hp. destruct (ok_prepared _ K P). congruence.
Qed.

Lemma apply_unsent_closes fuel st current more :
  ledger_ok st -> current ∈ re_records st -> rr_phase current = RQ_PREPARED ->
  apply fuel context true st current (unsent_cancellation context current) = Ok more ->
  exists r', r' ∈ re_records (lc_state more) /\ rr_request_id r' = rr_request_id current /\ closed_unsent r'.
Proof.
  intros Ks I P H. pose proof Ks as [D K]. apply (apply_unsent fuel) in H as (fuel' & _ & H); [|by apply K|done].
  apply advance_phase_inv in H as (updated & phase & retries & retry_at & N & E & H).
  rewrite (proj1 (unsent_phase current)) in N, E. rewrite (proj2 (unsent_phase current)) in N. injection N as <- <-.
  destruct (unsent_step current (K _ I) P retry_at) as (S & Ei & U). rewrite <- E in S, Ei, U.
  destruct H as [[? _]|(_ & st2 & B & H)]; [done|]. pose proof U as (Pu & x & X & Sx & _).
  rewrite (block_target_unless_succeeded _ _ _ X) in B by congruence. injection B as <-.
  destruct H as [[? _]|(_ & more' & M & ->)]; [done|].
  assert (changes (record_step context) st (replace_record st updated)) as C1
    by (apply closing_is_record; by eapply replace_changes).
  assert (ledger_ok (replace_record st updated)) as K1 by (by eapply changes_ok).
  apply cancel_prepared_changes in M; [|by destruct K1]. apply closing_is_record in M.
  destruct (closed_forward _ _ updated M K1) as (r' & I' & E' & S'); [by apply (replace_in st current)|done|].
  exists r'. split; [done|]. split; [congruence|by eapply still_closed_unsent].
Qed.

(** Closing one doomed record leaves it unprepared. *)
Lemma cancel_one_closes fuel c w c' :
  ledger_ok (lc_state c) -> cancel_one (apply fuel context true) context c w = Ok c' ->
  ledger_ok (lc_state c')
  /\ forall r, r ∈ re_records (lc_state c') -> rr_request_id r = rr_request_id w -> rr_phase r <> RQ_PREPARED.
Proof.
  intros K ([current|] & U & H)%bind_Ok.
  - apply unique_in in U as [Ic Ec]. case_bool_decide as P.
    + apply bind_Ok in H as (more & A & H). injection H as <-. cbn.
      pose proof (apply_changes context fuel true _ current _ more (proj1 K) Ic (fun _ => eq_refl) A) as C.
      apply closing_is_record in C. assert (ledger_ok (lc_state more)) as K' by (by eapply changes_ok).
      split; [done|]. intros r' I' E'. destruct (apply_unsent_closes _ _ _ _ K Ic P A) as (r1 & I1 & E1 & P1 & _).
      assert (r' = r1) as -> by (destruct K'; eapply (ids_inj (lc_state more)); [done..|congruence]). congruence.
    + injection H as <-. split; [done|]. intros r' I' E'.
      assert (r' = current) as -> by (destruct K; eapply (ids_inj (lc_state c)); [done..|congruence]). done.
  - injection H as <-. split; [done|]. intros r' I' E'. by destruct (unique_none _ _ U r' I').
Qed.

(** After the cascade none of the doomed is left to be sent. *)
Lemma cancel_fold_all fuel c doomed change :
  ledger_ok (lc_state c) -> foldM_result (cancel_one (apply fuel context true) context) c doomed = Ok change ->
  forall w r, w ∈ doomed -> r ∈ re_records (lc_state change) -> rr_request_id r = rr_request_id w ->
  rr_phase r <> RQ_PREPARED.
Proof.
  revert c. induction doomed as [|w doomed IH]; intros c K H x r Hx Ir E; [by inversion Hx|]. cbn [foldM_result] in H.
  apply bind_Ok in H as (c' & Hw & H). apply cancel_one_closes in Hw as [K' N]; [|done].
  apply elem_of_cons in Hx as [->|Hx]; [|by eapply IH]. intros P.
  apply cancel_fold_changes in H; [|by destruct K']. destruct (changes_backward _ _ _ _ H Ir) as (r0 & I0 & S).
  rewrite (closings_never_prepare _ _ S P) in I0. by apply (N r).
Qed.

(** ** Applying facts keeps the ledger settled *)

Lemma apply_settles fuel X unsent st record facts change :
  ledger_ok st -> record ∈ re_records st -> (unsent = true -> facts = unsent_cancellation context record) ->
  settled_except X st -> apply fuel context unsent st record facts = Ok change ->
  settled_except X (lc_state change).
Proof.
  revert X unsent st record facts change.
  induction fuel as [|fuel IH]; intros X unsent st record facts change Ks I U S
    [->|p C O G W ->|fuel' E C P Q W A]%(apply_inv context); try done;
    try (apply replaced_settled; cbn; [done|congruence|]; intros [_ (o & [= <-] & F)]; exists record;
         split; [done|split; [done|split; [done|by exists p]]]).
  injection E as <-. apply advance_phase_inv in A as (updated & A).
  destruct (advanced_step context _ _ _ _ _ _ C (fun p => U (P p)) Q W A) as [T Ei].
  pose proof (closing_never_prepares _ _ T) as NP.
  destruct A as (phase & retries & retry_at & _ & Eu & A).
  destruct (observed_record_request record (exhausted context record facts) phase retries retry_at) as (_ & _ & Ep & _ & Eo).
  rewrite <- Eu in Ep, Eo. destruct A as [[N ->]|(_ & st2 & B & A)].
  { apply replaced_settled; [done|done|]. intros [F _]. congruence. }
  assert (changes (closing_step context) st (replace_record st updated)) as C1.
  { destruct Ks. by eapply replace_changes. }
  assert (ledger_ok (replace_record st updated)) as K1 by (by eapply changes_ok, Ks; apply closing_is_record).
  destruct A as [[F ->]|(F & more & M & ->)].
  - assert (settled_except X (replace_record st updated)) as S1.
    { apply replaced_settled; [done|done|]. intros [_ (o & O & N)]. rewrite Eo in O. injection O as <-.
      by rewrite exhausted_status in N. }
    apply block_target_cases in B as [->|(t & It & Ct & ->)]; [done|]. apply replaced_settled; [done|done|]. by intros [? _].
  - rewrite (block_target_unless_succeeded _ _ _ Eo) in B by (by rewrite exhausted_status). injection B as <-.
    pose proof (replaced_settled_dependents X st updated S NP) as S1. pose proof M as N.
    set (doomed := dependents _ _) in *. set (st1 := replace_record st updated) in *.
    assert (ledger_ok (lc_state more) /\ settled_except (X ++ map rr_request_id doomed) (lc_state more)) as [K2 S2].
    { revert M. apply (cancel_prepared_ind _ _ (fun s => ledger_ok s /\ settled_except (X ++ map rr_request_id doomed) s));
        [done|]. intros s c m [Kc Sc] Ic Pc Hc. split; [|by eapply (IH _ true s c)].
      eapply changes_ok, Kc. apply closing_is_record. eapply apply_changes; [by destruct Kc|exact Ic|done|exact Hc]. }
    intros d r Hd Hr W2 Fr. specialize (S2 d r Hd Hr W2 Fr). apply elem_of_app in S2 as [?|S2]; [done|].
    apply elem_of_map in S2 as (w & Ew & Hw). exfalso. destruct W2 as [Pd _].
    revert Pd. by eapply (cancel_fold_all _ (kept st1)).
Qed.

(** ** Every event keeps the ledger settled *)

Lemma apply_facts_settles X st record facts change :
  ledger_ok st -> record ∈ re_records st -> settled_except X st ->
  apply_facts st context record facts = Ok change ->
  ledger_ok (lc_state change) /\ settled_except X (lc_state change).
Proof.
  intros K I Se H. split.
  - destruct K as [D K]. eapply changes_ok; [|by split]. apply closing_is_record. by eapply apply_facts_changes.
  - by apply (apply_settles (S (length (re_records st))) X false st record facts).
Qed.

Lemma cancel_unsent_settles X st doomed change :
  ledger_ok st -> settled_except X st -> cancel_unsent st context doomed = Ok change ->
  settled_except X (lc_state change).
Proof.
  intros K S H. assert (ledger_ok (lc_state change) /\ settled_except X (lc_state change)) as [_ R]; [|done].
  revert H. apply (cancel_prepared_ind _ _ (fun s => ledger_ok s /\ settled_except X s)); [done|].
  intros s c m [Kc Sc] Ic Pc Hc. split; [|by eapply (apply_settles _ X true s c)].
  eapply changes_ok, Kc. apply closing_is_record. eapply apply_changes; [by destruct Kc|exact Ic|done|exact Hc].
Qed.

Lemma reissue_settles X st r :
  settled_except X st -> settled_except (X ++ [rr_request_id r]) (lc_state (reissue st r context)).
Proof.
  intros S d x Hd Hx W F. apply elem_of_app.
  apply (replace_inv st (reissued_record context r)) in Hd as [->|[Id _]]; [right; by apply list_elem_of_singleton|].
  apply (replace_inv st (reissued_record context r)) in Hx as [->|[Ix _]]; [by destruct F|]. left. by apply (S d x).
Qed.

Lemma settled_any X st : settled_except [] st -> settled_except X st.
Proof. intros S d r A B C D. specialize (S d r A B C D). by inversion S. Qed.

(** The request an event may put up for sending again. *)
Definition resent_by (event : RecordsEvent) : list RequestId :=
  match event with
  | RetryDue i _ => [i]
  | RequestObserved _ (Some target) =>
    if is_Some_b (ta_reissue target) then [ob_request_id (fa_observation (ta_facts target))] else []
  | _ => []
  end.

Lemma observed_target_settles change root target change' :
  ledger_ok (lc_state change) -> settled_except [] (lc_state change) ->
  observed_target change context root target = Ok change' ->
  settled_except (if is_Some_b (ta_reissue target) then [ob_request_id (fa_observation (ta_facts target))] else [])
    (lc_state change').
Proof.
  intros K S ([r|] & U & H)%bind_Ok; [|done]. apply unique_in in U as [I E].
  split_if H; [injection H as <-; by apply settled_any|]. split_if H.
  - injection H as <-. destruct (ta_reissue target); [|done]. cbn [is_Some_b]. rewrite <- E.
    by apply (reissue_settles []).
  - apply bind_Ok in H as (more & A & H). apply (apply_facts_settles []) in A as [_ A]; [|done..].
    apply (settled_any (if is_Some_b (ta_reissue target) then [ob_request_id (fa_observation (ta_facts target))] else [])) in A.
    cbn zeta in H. destruct (rb_body _); try (injection H as <-; exact A). split_if H; injection H as <-; exact A.
Qed.

Lemma observed_settles st facts target change :
  ledger_ok st -> settled_except [] st -> observed st context facts target = Ok change ->
  settled_except (resent_by (RequestObserved facts target)) (lc_state change).
Proof.
  intros K S ([root|] & U & H)%bind_Ok; [|done]. apply unique_in in U as [I _].
  apply bind_Ok in H as (c & A & H). apply (apply_facts_settles []) in A as [Kc Sc]; [|done..].
  assert (match target with
          | None => Ok c
          | Some t => if is_Some_b (ta_target_resource t) then Ok c else observed_target c context root t
          end = Ok change -> settled_except (resent_by (RequestObserved facts target)) (lc_state change)) as G.
  { clear H. intros H. destruct target as [t|]; [|by injection H as <-]. cbn.
    split_if H; [injection H as <-; by apply settled_any|by eapply observed_target_settles]. }
  destruct (rb_body _); try (by apply G); clear G; apply bind_Ok in H as (more & M & H); injection H as <-;
    apply (settled_any (resent_by (RequestObserved facts target))).
  - eapply (end_cancels_ind context (fun s => ledger_ok s /\ settled_except [] s)) in M as [[_ M] _]; [exact M|by destruct Kc|done|].
    intros s r f m _ [Ks Ss] Ir. by apply (apply_facts_settles []).
  - unfold end_released_dispatch in M. split_if M; [by injection M as <-|].
    destruct (find _ _) as [r|] eqn:F; [|by injection M as <-]. apply find_Some_elem in F as [Ir _].
    by apply (apply_facts_settles []) in M as [_ M].
Qed.

(** C19. A failure closes everything that waited on it. When no prepared request waits on a failed
    one, an event of the ledger keeps it so, through however many levels of dependents: after it,
    the only prepared request that can depend on a failed one is the request this very event put up
    for sending again. *)
Theorem failures_close_dependents st event change :
  ledger_ok st -> settled_except [] st -> advance_record st context event = Ok change ->
  settled_except (resent_by event) (lc_state change).
Proof.
  intros K S H. pose proof K as [D _]. destruct event; cbn in H.
  - by rewrite (prepared_event_state _ _ _ _ _ _ _ _ H).
  - apply bind_Ok in H as ([r|] & U & H); [|done]. apply unique_in in U as [I _].
    assert (settled_except [] (lc_state (kept (replace_record st (dispatched_record st context r))))) as R.
    { assert (rr_phase (dispatched_record st context r) = RQ_DISPATCHED) as P
        by (unfold dispatched_record; by repeat case_match).
      apply replaced_settled; [done|by rewrite P|]. intros [F _]. by rewrite P in F. }
    cbn zeta in H. destruct (rr_phase r); try done; try (by injection H as <-). split_if H; [by injection H as <-|done].
  - apply bind_Ok in H as (late & _ & H). split_if H; [injection H as <-; by apply settled_any|by eapply observed_settles].
  - unfold retire_operation in H. destruct (List.filter _ _) as [|r [|]]; try done.
    apply bind_Ok in H as (w & _ & H). apply bind_Ok in H as (completed & _ & H). split_if H.
    + apply bind_Ok in H as (c & C & H). injection H as <-. by apply (cancel_unsent_settles []) in C.
    + apply bind_Ok in H as (rel & _ & H). split_if H; injection H as <-; done.
  - apply bind_Ok in H as ([r|] & U & H); [|injection H as <-; by apply settled_any]. apply unique_in in U as [I <-].
    destruct (retry_wait_until r); [|injection H as <-; by apply settled_any].
    split_if H; injection H as <-; [by apply settled_any|by apply (reissue_settles [])].
  - apply bind_Ok in H as ([r|] & U & H); [|by injection H as <-]. split_if H; [by injection H as <-|].
    apply bind_Ok in H as (f & _ & H). apply bind_Ok in H as (d & _ & H). split_if H; [|by injection H as <-].
    by eapply (cancel_unsent_settles []).
  - apply bind_Ok in H as ([r|] & U & H); [|by injection H as <-]. split_if H; [by injection H as <-|].
    apply unique_in in U as [I _]. by apply (apply_facts_settles []) in H as [_ H].
Qed.

(** ** The cascade ends *)

(** The measure: how many records are still to be sent. Each level of the recursion closes one. *)
Definition prepared_count (st : RecordsState) : nat :=
  length (List.filter (fun r => bool_decide (rr_phase r = RQ_PREPARED)) (re_records st)).

Lemma prepared_count_changes st st' :
  changes (closing_step context) st st' -> (prepared_count st' <= prepared_count st)%nat.
Proof.
  intros (C & _). unfold prepared_count. induction C as [|x y l l' A _ IH]; [done|]. cbn.
  destruct (bool_decide (rr_phase y = RQ_PREPARED)) eqn:P; [|destruct (bool_decide (rr_phase x = RQ_PREPARED)); cbn; lia].
  apply bool_decide_eq_true in P as P'. rewrite (closings_never_prepare _ _ A P'), P. cbn. lia.
Qed.

Lemma prepared_count_replace st r r' :
  r ∈ re_records st -> rr_phase r = RQ_PREPARED -> rr_request_id r' = rr_request_id r -> rr_phase r' <> RQ_PREPARED ->
  (prepared_count (replace_record st r') < prepared_count st)%nat.
Proof.
  unfold prepared_count. cbn. intros I P E N.
  assert (forall l, length (List.filter (fun r => bool_decide (rr_phase r = RQ_PREPARED))
            (map (fun x => if pystr_eqb (rr_request_id x) (rr_request_id r') then r' else x) l))
          <= length (List.filter (fun r => bool_decide (rr_phase r = RQ_PREPARED)) l))%nat as W.
  { induction l as [|x l IH]; [done|]. cbn. destruct (pystr_eqb _ _).
    - rewrite (bool_decide_eq_false_2 _ N). destruct (bool_decide _); cbn; lia.
    - destruct (bool_decide _); cbn; lia. }
  induction (re_records st) as [|x l IH]; [by inversion I|]. cbn. apply elem_of_cons in I as [<-|I].
  - rewrite E, pystr_eqb_refl, (bool_decide_eq_false_2 _ N), (bool_decide_eq_true_2 _ P). cbn.
    rewrite <- E. specialize (W l). lia.
  - specialize (IH I). destruct (pystr_eqb _ _); [rewrite (bool_decide_eq_false_2 _ N)|];
      destruct (bool_decide (rr_phase x = _)); cbn; lia.
Qed.

Lemma prepared_count_bound st : (prepared_count st <= length (re_records st))%nat.
Proof. unfold prepared_count. apply filter_length_le. Qed.

Section Extensional.
Variables close close' : RecordsState -> RequestRecord -> Facts -> result LedgerChange.

(** The two agree on the cancellations of what is still to be sent, in every state of [P]. *)
Definition agree_on (P : RecordsState -> Prop) : Prop :=
  forall st current, P st -> current ∈ re_records st -> rr_phase current = RQ_PREPARED ->
  close st current (unsent_cancellation context current) = close' st current (unsent_cancellation context current)
  /\ forall more, close st current (unsent_cancellation context current) = Ok more -> P (lc_state more).

Lemma cancel_fold_ext P doomed c :
  agree_on P -> P (lc_state c) ->
  foldM_result (cancel_one close context) c doomed = foldM_result (cancel_one close' context) c doomed.
Proof.
  intros G. revert c. induction doomed as [|w doomed IH]; intros c Pc; [done|]. cbn [foldM_result].
  assert (cancel_one close context c w = cancel_one close' context c w
          /\ forall c', cancel_one close context c w = Ok c' -> P (lc_state c')) as [-> N].
  { unfold cancel_one. destruct (unique _ _) as [[current|]|e] eqn:U; cbn; [|by split; [|intros ? [= <-]]|done].
    apply unique_in in U as [I _]. case_bool_decide as Q; [|by split; [|intros ? [= <-]]].
    destruct (G _ _ Pc I Q) as [E K]. split; [by rewrite E|]. intros c' H. apply bind_Ok in H as (m & M & H).
    injection H as <-. exact (K m M). }
  destruct (cancel_one close' context c w) as [c'|e] eqn:H; [|done]. cbn. apply IH. by apply N.
Qed.

Lemma advance_phase_ext P st record facts :
  agree_on P ->
  (forall phase retries retry_at st2,
     next_phase record (fa_observation (exhausted context record facts)) = (phase, retries) ->
     let updated := observed_record record (exhausted context record facts) phase retries retry_at in
     block_target (replace_record st updated) updated = Ok st2 -> P st2) ->
  advance_phase close st context record facts = advance_phase close' st context record facts.
Proof.
  intros G H. unfold advance_phase. destruct (next_phase _ _) as [phase retries] eqn:N.
  match goal with |- bind ?m _ = _ => destruct m as [retry_at|e]; [cbn [bind]|done] end.
  destruct (owner_signals _ _ _) as [signals|e]; [cbn [bind]|done].
  destruct (bool_decide (phase = RQ_COMPLETED)); [|done].
  destruct (block_target _ _) as [st2|e] eqn:B; [cbn [bind]|done].
  destruct (complete_decision _ _ _) as [completion|e]; [cbn [bind]|done].
  destruct (negb _); [|done]. unfold cancel_prepared.
  rewrite (cancel_fold_ext P); [done|done|]. cbn. by eapply H.
Qed.
End Extensional.

Lemma apply_ext fuel fuel' unsent st record facts :
  (rr_phase record <> RQ_COMPLETED -> (rr_phase record = RQ_PREPARED -> unsent = true) ->
   ob_request_id (fa_observation facts) = rr_request_id record -> newer record (fa_observation facts) ->
   advance_phase (apply fuel context true) st context record facts
   = advance_phase (apply fuel' context true) st context record facts) ->
  apply (S fuel) context unsent st record facts = apply (S fuel') context unsent st record facts.
Proof.
  intros H. cbn [apply]. destruct (observation_for _ _) eqn:A; try done.
  destruct (bool_decide (rr_phase record = RQ_PREPARED) && negb unsent) eqn:P; [done|].
  destruct (fresh_observation _ _) eqn:F; try done.
  destruct (match rr_observation record with Some p => obs_eqb _ p | None => false end) eqn:N; [done|].
  destruct (bool_decide (rr_phase record = RQ_COMPLETED)) eqn:C; [done|]. apply bool_decide_eq_false in C.
  apply H; [done| |by eapply observation_for_request|by eapply fresh_newer].
  intros E. apply andb_false_iff in P as [P|P]; [by apply bool_decide_eq_false in P|by apply negb_false_iff].
Qed.

Lemma none_prepared st record :
  record ∈ re_records st -> rr_phase record = RQ_PREPARED -> (prepared_count st < 1)%nat -> False.
Proof.
  intros I P B. unfold prepared_count in B. destruct (List.filter _ _) as [|x l] eqn:E; [|cbn in B; lia].
  assert (record ∈ List.filter (fun r => bool_decide (rr_phase r = RQ_PREPARED)) (re_records st)) as F
    by (apply elem_of_filter; split; [done|by apply bool_decide_eq_true]).
  rewrite E in F. by inversion F.
Qed.

Lemma unsent_keeps fuel bound s current more :
  ledger_ok s /\ (prepared_count s < bound)%nat -> current ∈ re_records s ->
  apply fuel context true s current (unsent_cancellation context current) = Ok more ->
  ledger_ok (lc_state more) /\ (prepared_count (lc_state more) < bound)%nat.
Proof.
  intros [Ks Bs] Ic M.
  pose proof (apply_changes context fuel true s current _ more (proj1 Ks) Ic (fun _ => eq_refl) M) as T.
  split; [eapply changes_ok; [by apply closing_is_record|done]|].
  pose proof (prepared_count_changes _ _ T). lia.
Qed.

(** What a level leaves to the levels below it. *)
Lemma cascade_measure fuel unsent st record facts phase retries retry_at st2 :
  ledger_ok st -> record ∈ re_records st ->
  (unsent = true -> rr_phase record = RQ_PREPARED /\ facts = unsent_cancellation context record) ->
  (prepared_count st < if unsent then S (S fuel) else S fuel)%nat ->
  rr_phase record <> RQ_COMPLETED -> (rr_phase record = RQ_PREPARED -> unsent = true) ->
  ob_request_id (fa_observation facts) = rr_request_id record -> newer record (fa_observation facts) ->
  next_phase record (fa_observation (exhausted context record facts)) = (phase, retries) ->
  let updated := observed_record record (exhausted context record facts) phase retries retry_at in
  block_target (replace_record st updated) updated = Ok st2 ->
  ledger_ok st2 /\ (prepared_count st2 < S fuel)%nat.
Proof.
  intros K I U B C P Q W N updated T.
  assert (closing_step context record updated) as S1 by (apply cs_observe; try done; intros p; by apply U, P).
  destruct (observed_record_request record (exhausted context record facts) phase retries retry_at) as (E & _).
  assert (changes (closing_step context) st (replace_record st updated)) as C1
    by (destruct K; by eapply (replace_changes _ st record)).
  pose proof T as T2. apply (block_target_changes context) in T2; [|by rewrite replace_ids; destruct K].
  pose proof (prepared_count_changes _ _ C1). pose proof (prepared_count_changes _ _ T2). split.
  + eapply changes_ok, K. apply closing_is_record. by etrans.
  + destruct unsent; [|lia]. destruct U as [Pr _]; [done|].
    pose proof (prepared_count_replace st record updated I Pr E (closing_never_prepares _ _ S1)). lia.
Qed.

Lemma apply_fuel fuel unsent st record facts :
  ledger_ok st -> record ∈ re_records st ->
  (unsent = true -> rr_phase record = RQ_PREPARED /\ facts = unsent_cancellation context record) ->
  (prepared_count st < if unsent then S fuel else fuel)%nat ->
  apply fuel context unsent st record facts = apply (S fuel) context unsent st record facts.
Proof.
  revert unsent st record facts. induction fuel as [|fuel IH]; intros unsent st record facts K I U B.
  { destruct unsent; [|lia]. destruct U as [P _]; [done|]. exfalso. by eapply none_prepared. }
  apply apply_ext. intros C P Q W.
  apply (advance_phase_ext _ _ (fun s => ledger_ok s /\ (prepared_count s < S fuel)%nat)).
  - intros s current [Ks Bs] Ic Pc. split; [by apply IH|]. intros more M. by eapply unsent_keeps.
  - intros phase retries retry_at st2 N updated T. by eapply (cascade_measure fuel unsent).
Qed.

(** ** It is never cut short *)

Section Ends.
(** The encoder of commands is not in the source; it does not answer with the mark of the cut. *)
Hypothesis encodes : forall c, canonical_json c <> Err out_of_fuel.

Definition ends {A} (m : result A) : Prop := m <> Err out_of_fuel.

Lemma ends_bind {A B} (m : result A) (k : A -> result B) :
  ends m -> (forall a, m = Ok a -> ends (k a)) -> ends (let* a := m in k a).
Proof. unfold ends. destruct m as [a|e]; [intros _ H; by apply H|intros H _ E; apply H]. by injection E as ->. Qed.

Ltac plain := repeat case_match; done.

Lemma unique_ends st i : ends (unique st i).
Proof. unfold unique, ends. plain. Qed.
Lemma declaration_ends operation : ends (declaration context operation).
Proof. unfold declaration, ends. plain. Qed.
Lemma invocation_ends request : ends (invocation_of context request).
Proof. unfold invocation_of, ends. plain. Qed.

Lemma owner_signals_ends record facts : ends (owner_signals context record facts).
Proof.
  unfold owner_signals. apply ends_bind; [|done]. unfold owner_signal. repeat case_match; try done.
  all: try (apply ends_bind; [apply invocation_ends|done]).
  unfold registered_signal. apply ends_bind; [apply declaration_ends|]. intros d _.
  destruct (bool_decide _); [unfold reopened, ends; plain|]. destruct (negb _); [done|].
  destruct (os_lifecycle _); try done. apply ends_bind; [apply invocation_ends|done].
Qed.

Lemma receipt_ends receipts key : ends (accepted_receipt_for receipts (Some key) None).
Proof.
  unfold accepted_receipt_for. repeat case_match; try done.
  unfold receipt_payload. destruct (dr_decision _); [|done]. cbn [bind].
  destruct (negb (deeply_immutable _)); [done|]. unfold digest. cbn [bind].
  match goal with |- context [canonical_json ?c] => pose proof (encodes c) as N; destruct (canonical_json c) as [t|e] end.
  - simpl. by destruct (negb _).
  - simpl. destruct (is_type_or_value_error e); [done|]. intros E. injection E as ->. by apply N.
Qed.

Lemma complete_decision_ends record facts : ends (complete_decision context record facts).
Proof.
  unfold complete_decision. apply ends_bind.
  { unfold completable. destruct (rb_body _); try done. apply ends_bind; [apply declaration_ends|done]. }
  intros own _. destruct (rb_decision_id _) as [i|]; [|done]. destruct (negb own); [done|].
  apply ends_bind; [|intros signals _; apply ends_bind; [|done]].
  - unfold completion_signal. apply ends_bind; [apply receipt_ends|done].
  - unfold operation_result. destruct (rb_body _); try done. apply ends_bind; [apply declaration_ends|done].
Qed.

Lemma block_target_ends st record : ends (block_target st record).
Proof.
  unfold block_target. destruct (rb_body _); try done. destruct (rr_observation record); [|done].
  destruct (negb _); [done|]. apply ends_bind; [apply unique_ends|done].
Qed.

Lemma retry_delay_ends retries : ends (retry_delay context retries).
Proof. unfold retry_delay, ends. by destruct (_ <=? _). Qed.

Lemma refine_closed_ends st record o : ends (refine_closed st record o).
Proof. unfold refine_closed, ends. plain. Qed.

(** The cancellations of what is still to be sent end, in every state of [P]. *)
Definition ends_on (P : RecordsState -> Prop) (close : RecordsState -> RequestRecord -> Facts -> result LedgerChange) : Prop :=
  forall st current, P st -> current ∈ re_records st -> rr_phase current = RQ_PREPARED ->
  ends (close st current (unsent_cancellation context current))
  /\ forall more, close st current (unsent_cancellation context current) = Ok more -> P (lc_state more).

Lemma cancel_fold_ends P close doomed c :
  ends_on P close -> P (lc_state c) -> ends (foldM_result (cancel_one close context) c doomed).
Proof.
  intros G. revert c. induction doomed as [|w doomed IH]; intros c Pc; [done|]. cbn [foldM_result].
  apply ends_bind.
  - unfold cancel_one. apply ends_bind; [apply unique_ends|]. intros [current|] U; [|done].
    apply unique_in in U as [I _]. case_bool_decide as Q; [|done]. apply ends_bind; [by apply G|done].
  - intros c' H. apply IH. unfold cancel_one in H. apply bind_Ok in H as ([current|] & U & H); [|by injection H as <-].
    apply unique_in in U as [I _]. revert H. case_bool_decide as Q; [|by intros [= <-]].
    intros (m & M & [= <-])%bind_Ok. exact (proj2 (G _ _ Pc I Q) m M).
Qed.

Lemma advance_phase_ends P close st record facts :
  ends_on P close ->
  (forall phase retries retry_at st2,
     next_phase record (fa_observation (exhausted context record facts)) = (phase, retries) ->
     let updated := observed_record record (exhausted context record facts) phase retries retry_at in
     block_target (replace_record st updated) updated = Ok st2 -> P st2) ->
  ends (advance_phase close st context record facts).
Proof.
  intros G H. unfold advance_phase. destruct (next_phase _ _) as [phase retries] eqn:N.
  apply ends_bind.
  { destruct (_ && _); [|done]. apply ends_bind; [apply retry_delay_ends|done]. }
  intros retry_at _. apply ends_bind; [apply owner_signals_ends|]. intros signals _.
  destruct (bool_decide (phase = RQ_COMPLETED)); [|done].
  apply ends_bind; [apply block_target_ends|]. intros st2 B.
  apply ends_bind; [apply complete_decision_ends|]. intros completion _.
  destruct (negb _); [|done]. apply ends_bind; [|done].
  eapply cancel_fold_ends; [exact G|]. cbn. by eapply H.
Qed.

Lemma apply_ends fuel unsent st record facts :
  ledger_ok st -> record ∈ re_records st ->
  (unsent = true -> rr_phase record = RQ_PREPARED /\ facts = unsent_cancellation context record) ->
  (prepared_count st < if unsent then S fuel else fuel)%nat ->
  ends (apply fuel context unsent st record facts).
Proof.
  revert unsent st record facts. induction fuel as [|fuel IH]; intros unsent st record facts K I U B.
  { destruct unsent; [|lia]. destruct U as [P _]; [done|]. exfalso. by eapply none_prepared. }
  cbn [apply]. destruct (observation_for _ _) eqn:A; try done.
  destruct (bool_decide (rr_phase record = RQ_PREPARED) && negb unsent) eqn:Up; [done|].
  destruct (fresh_observation _ _) as [?|?|f] eqn:F; try done; [|unfold ends; repeat case_match; try done].
  destruct (match rr_observation record with Some p => obs_eqb _ p | None => false end) eqn:N; [done|].
  destruct (bool_decide (rr_phase record = RQ_COMPLETED)) eqn:C; [apply refine_closed_ends|].
  apply bool_decide_eq_false in C.
  apply (advance_phase_ends (fun s => ledger_ok s /\ (prepared_count s < S fuel)%nat)).
  - intros s current [Ks Bs] Ic Pc. split; [by apply IH|]. intros more M. by eapply unsent_keeps.
  - intros phase retries retry_at st2 Np updated T. eapply (cascade_measure fuel unsent); try done.
    + intros E. apply andb_false_iff in Up as [Up|Up]; [by apply bool_decide_eq_false in Up|by apply negb_false_iff].
    + by eapply observation_for_request.
    + by eapply fresh_newer.
Qed.
End Ends.

(** C21. Applying a fact always ends. The code recurses from a request it closed through its
    dependents without a bound. On a well-formed ledger, with a bound on the depth of one more level
    than there are records, the recursion is never cut short: it ends with a change or with an error
    of the code's own, and under any larger bound with the same. It is relied on that the encoder of
    commands, which is not in the source, does not answer with the mark of the cut. *)
Theorem cascade_terminates st record facts fuel :
  (forall c, canonical_json c <> Err out_of_fuel) ->
  ledger_ok st -> record ∈ re_records st -> (S (length (re_records st)) <= fuel)%nat ->
  apply_facts st context record facts <> Err out_of_fuel
  /\ apply fuel context false st record facts = apply_facts st context record facts.
Proof.
  intros encodes K I L. unfold apply_facts. split.
  { apply apply_ends; try done. pose proof (prepared_count_bound st). lia. }
  induction L as [|fuel L IH]; [done|]. rewrite <- IH. symmetry. apply apply_fuel; try done.
  pose proof (prepared_count_bound st). lia.
Qed.

End Cascade.
