(* ===== verification/Scheduling.v ===== *)
(** The scheduling area of vs-core (src/libs/vs-core, scheduling.py): first-in first-out admission
    into bounded capacity, occupancy episodes and their accounting, and the operator's controls.
    [schedule] consumes one event; what it asks of the other areas is in its signals. *)
From S2P Require Import Prelude Floats CoreValues CoreProofs WaitClock.

(** ** Python's [any] and filtering comprehensions over a test that can raise *)

Fixpoint any_result {A} (f : A -> result bool) (l : list A) : result bool :=
  match l with
  | [] => Ok false
  | x :: l => let* b := f x in if (b : bool) then Ok true else any_result f l
  end.
Fixpoint filter_result {A} (f : A -> result bool) (l : list A) : result (list A) :=
  match l with
  | [] => Ok []
  | x :: l =>
    let* b := f x in
    let* l := filter_result f l in
    Ok (if (b : bool) then x :: l else l)
  end.

Section Scheduling.
Context {digests : Digests}.

Abbreviation Change := (AreaChange SchedulingState).

(** [AreaChange(state=state)]. *)
Definition unchanged (state : SchedulingState) : Change := mk_AreaChange state [] [].

Definition owner (context : SchedulingContext) (t : AttemptRef) : option AttemptView :=
  find (fun a => pystr_eqb (at_attempt_id a) (ar_attempt_id t) && (at_generation a =? ar_generation t))
    (cx_attempts context).

Definition mode (context : SchedulingContext) (t : AttemptRef) (admission_id : DecisionId)
  : result WorkspaceMode :=
  match owner context t with
  | Some a => Ok (wp_mode (at_workspace a))
  | None =>
    match find (has_decision_id admission_id) (ru_receipts (cx_run context)) with
    | Some receipt =>
      match dr_decision receipt with
      | Some (C_Start d) => Ok (wp_mode (sa_workspace d))
      | _ => Err (ContractValidationError "decision_id" "admission has no canonical workspace plan")
      end
    | None => Err (ContractValidationError "decision_id" "admission has no canonical workspace plan")
    end
  end.

(** What an unregistered start of the queue holds of the admission budget. *)
Definition reservation (context : SchedulingContext) (r : AdmissionRequest) : Z :=
  match r with
  | Start q => if is_Some_b (owner context (target r)) then 0 else aq_admission_charge q
  | Reopen _ => 0
  end.
Definition reserved (context : SchedulingContext) (queue : list AdmissionRequest) : Z :=
  zsum (map (reservation context) queue).
Definition remaining (state : SchedulingState) (context : SchedulingContext) : Z :=
  admission_remaining (cx_attempts context) (li_max_attempts (ru_limits (cx_run context)))
    (reserved context (ss_queue state)).

Definition reject (state : SchedulingState) (request : AdmissionRequest) (code : RejectionCode)
    (detail : string) : Change :=
  mk_AreaChange state [] [E_Rejected (rq_decision_id request) code [py "scheduling"] (py detail)].

(** ** Stops *)

Definition committed_stops (context : SchedulingContext) : list Finish :=
  let run := cx_run context in
  concat (map (fun receipt =>
    match finish_of receipt, dr_feedback receipt with
    | Some d, Accepted feedback_id =>
      if pystr_eqb (dr_decision_id receipt) (fi_decision_id d)
         && pystr_eqb (fi_decision_id d) feedback_id
         && bool_decide (sc_owner (fi_scope d) = RunOwner (ru_run_id run))
         && (sc_generation (fi_scope d) =? ru_generation run)
      then [d] else []
    | _, _ => []
    end) (ru_receipts run)).

Definition first_stop (context : SchedulingContext) : result (option Finish) :=
  let* stop := committed_stop (cx_run context) in Ok (proven stop).

Definition before_deadline (run : RunState) : bool := f_lt (ru_now_at run) (ru_deadline_at run).

Definition accepting (context : SchedulingContext) : result bool :=
  let run := cx_run context in
  let* open_run :=
    if bool_decide (ru_status run = RUNNING) && negb (is_Some_b (ru_result run))
    then Ok true else draining run in
  Ok (open_run && before_deadline run && bool_decide (re_recovery_phase (cx_records context) = READY)).

(** ** Proofs of admission *)

Definition registration (context : SchedulingContext) (t : AttemptRef) : result (option StartAttempt) :=
  let receipts := ru_receipts (cx_run context) in
  (fix first (rows : list DecisionReceipt) : result (option StartAttempt) :=
     match rows with
     | [] => Ok None
     | receipt :: rows =>
       let* decision := accepted_decision receipts (dr_decision_id receipt) in
       match decision with
       | Some (C_Start d) =>
         if bool_decide (sc_owner (sa_scope d) = RunOwner (ru_run_id (cx_run context)))
            && pystr_eqb (sa_attempt_id d) (ar_attempt_id t)
            && (sc_generation (sa_scope d) =? ar_generation t)
         then Ok (Some d) else first rows
       | _ => first rows
       end
     end) receipts.

(** The receipt of a live admission charge of exactly the requested amount. *)
Definition admission_receipt (charge : Z) (c : ChargeReceipt) : bool :=
  bool_decide (cg_kind c = ADMISSION) && (cg_charged c =? charge)
  && negb (is_Some_b (cg_historical_proof c)).

Definition validate_start (state : SchedulingState) (context : SchedulingContext) (request : AttemptRequest)
  : result (option Change) :=
  let run := cx_run context in
  let* decision := accepted_decision (ru_receipts run) (aq_decision_id request) in
  match decision with
  | Some (C_Start d) =>
    if negb (bool_decide (sc_owner (sa_scope d) = RunOwner (ru_run_id run))) then
      Ok (Some (reject state (Start request) OWNERSHIP "start requires canonical accepted decision"))
    else if negb (pystr_eqb (aq_attempt_id request) (sa_attempt_id d)
                  && pystr_eqb (aq_item_id request) (sa_item_id d)
                  && (aq_generation request =? sc_generation (sa_scope d))
                  && (aq_admission_charge request =? ab_admission_charge (sa_budget d))) then
      Ok (Some (reject state (Start request) IDENTITY_CONFLICT "start differs from canonical decision"))
    else
      let* original := registration context (target (Start request)) in
      match owner context (target (Start request)) with
      | None => Ok None
      | Some a =>
        if negb (bool_decide (original = Some d)) then
          Ok (Some (reject state (Start request) OWNERSHIP
                      "attempt has a different registration authority"))
        else if negb (pystr_eqb (at_item_id a) (aq_item_id request))
                || negb (existsb (admission_receipt (aq_admission_charge request)) (at_charges a)) then
          Ok (Some (reject state (Start request) OWNERSHIP
                      "queued owner requires its live admission receipt"))
        else Ok None
      end
  | _ => Ok (Some (reject state (Start request) OWNERSHIP "start requires canonical accepted decision"))
  end.

Definition reopen_replayed (context : SchedulingContext) (request : AttemptReopenRequest) : bool :=
  match owner context (ao_attempt request) with
  | Some a =>
    bool_decide (at_admission_id a = Some (ao_decision_id request))
    || match at_closure a with
       | Some c => pystr_eqb (cl_admission_id c) (ao_decision_id request)
       | None => false
       end
  | None => false
  end
  || existsb (fun r => has_decision_id (ao_decision_id request) r && is_Some_b (dr_completion r))
       (ru_receipts (cx_run context)).

Definition reopen_declared (context : SchedulingContext) (decision : Operation) : bool :=
  match op_registered_wire decision with
  | None => false
  | Some wire =>
    existsb (fun d => bool_decide (od_normalization d = SCOPE_REOPEN)
                      && bool_decide (od_schema d = ow_schema_ref wire))
      (ru_operations (cx_run context))
  end.

Definition reopen_proved (context : SchedulingContext) (request : AttemptReopenRequest) : result bool :=
  let run := cx_run context in
  match owner context (ao_attempt request) with
  | None => Ok false
  | Some a =>
    match at_closure a with
    | None => Ok false
    | Some closure =>
      if negb (bool_decide (at_phase a = PH_PARKED)) || negb (bool_decide (at_release_dependencies a = []))
      then Ok false else
      if reopen_replayed context request then Ok false else
      let* decision := accepted_decision (ru_receipts run) (ao_decision_id request) in
      match decision with
      | Some (C_Operation d) =>
        Ok (reopen_declared context d
            && bool_decide (sc_owner (op_scope d) = RunOwner (ru_run_id run))
            && (sc_generation (op_scope d) =? ru_generation run)
            && pystr_eqb (ao_request_id request) (py "operation:" ++ op_decision_id d)
            && match op_normalized_scope_reopen d with
               | None => false
               | Some n =>
                 bool_decide (Some n = op_registered_scope_reopen d)
                 && bool_decide (sn_attempt n = ao_attempt request)
                 && pystr_eqb (sn_park_authority n) (cl_authority closure)
               end
            && bool_decide (cl_disposition closure = PARK))
      | _ => Ok false
      end
    end
  end.

Definition admission_proved (state : SchedulingState) (context : SchedulingContext)
    (request : AdmissionRequest) (registering : option AttemptRequest) : result bool :=
  match request with
  | Reopen r => reopen_proved context r
  | Start r =>
    match owner context (target request) with
    | None => Ok (bool_decide (registering = Some r))
    | Some a =>
      if negb (bool_decide (at_phase a = PH_QUEUED)) || is_Some_b (at_closure a) then Ok false else
      let* invalid := validate_start state context r in
      Ok (negb (is_Some_b invalid))
    end
  end.

(** ** Capacity *)

Definition shares_pool (a b : list PoolId) : bool := existsb (fun p => bool_decide (p ∈ b)) a.

Definition fits (state : SchedulingState) (context : SchedulingContext) (request : AdmissionRequest)
  : result bool :=
  if existsb (fun s => pystr_eqb (ar_attempt_id (sl_attempt s)) (ar_attempt_id (target request)))
       (ss_slots state) then Ok false else
  if li_max_parallel (ru_limits (cx_run context)) <=? Z.of_nat (length (ss_slots state)) then Ok false else
  if existsb (fun s => shares_pool (rq_pools request) (sl_pools s)) (ss_slots state) then Ok false else
  let* m := mode context (target request) (rq_decision_id request) in
  if negb (bool_decide (m = EXCLUSIVE_ROOT)) then Ok true else
  if fences_root_mutation (cx_adoption context) (cx_records context) then Ok false else
  let* taken :=
    any_result (fun s => let* m := mode context (sl_attempt s) (sl_admission_id s) in
                         Ok (bool_decide (m = EXCLUSIVE_ROOT))) (ss_slots state) in
  Ok (negb taken).

Definition deadline_retirement (run : RunState) (request : AdmissionRequest) : Signal :=
  RetireRequested (mk_RetireRequest (target request) CANCEL
    (py "deadline:" ++ rq_decision_id request) (rq_decision_id request) (ru_now_at run)).

Definition deadline_retirements (state : SchedulingState) (context : SchedulingContext)
  : result (list Signal) :=
  let run := cx_run context in
  let live_run := bool_decide (ru_status run = RUNNING) || bool_decide (ru_status run = PAUSED) in
  if before_deadline run then Ok [] else
  let* running := if live_run && negb (is_Some_b (ru_result run)) then Ok true else draining run in
  if negb running then Ok [] else
  let* expired := filter_result (fun r => admission_proved state context r None) (ss_queue state) in
  Ok (map (deadline_retirement run) expired).

Definition slot_of (run : RunState) (head : AdmissionRequest) : Slot :=
  mk_Slot (target head) (rq_decision_id head) (rq_pools head) (ru_now_at run) None.

(** The [while] loop of [_fill]: [queue] is the queue of [state]. *)
Fixpoint fill_loop (context : SchedulingContext) (registering : option AttemptRequest)
    (queue : list AdmissionRequest) (state : SchedulingState) (signals : list Signal)
  : result (SchedulingState * list Signal) :=
  match queue with
  | [] => Ok (state, signals)
  | head :: rest =>
    let* open := accepting context in
    if negb open then Ok (state, signals) else
    let* proved := admission_proved state context head registering in
    if negb proved then Ok (state, signals) else
    let* room := fits state context head in
    if negb room then Ok (state, signals) else
    fill_loop context registering rest
      (state <| ss_queue := rest |> <| ss_slots := ss_slots state ++ [slot_of (cx_run context) head] |>)
      (signals ++ [AdmitAttempt head])
  end.

Definition fill (state : SchedulingState) (context : SchedulingContext)
    (registering : option AttemptRequest) (retire_expired : bool) : result Change :=
  let* retirements := if retire_expired then deadline_retirements state context else Ok [] in
  let* filled := fill_loop context registering (ss_queue state) state retirements in
  let (state, signals) := (filled : SchedulingState * list Signal) in
  let* drained :=
    if ss_admission_closed state && bool_decide (ss_queue state = []) && (length (ss_slots state) =? 0)%nat
       && bool_decide (ru_status (cx_run context) = CLOSING)
    then let* stop := first_stop context in Ok (is_Some_b stop) else Ok false in
  Ok (mk_AreaChange state (if (drained : bool) then signals ++ [RunDrained] else signals) []).

(** ** Operations *)

Definition existing_duplicate (state : SchedulingState) (context : SchedulingContext)
    (request : AdmissionRequest) : option Change :=
  match request with
  | Reopen r => if reopen_replayed context r then Some (unchanged state) else None
  | Start r =>
    match owner context (target request) with
    | Some a =>
      if negb (bool_decide (at_phase a = PH_QUEUED))
      then Some (reject state request OWNERSHIP "attempt already registered") else None
    | None => None
    end
  end.

(** The two [for] loops of [_duplicate]: the first entry that has an answer. *)
Definition queued_duplicate (state : SchedulingState) (request queued : AdmissionRequest) : option Change :=
  if pystr_eqb (rq_decision_id queued) (rq_decision_id request) then
    Some (if bool_decide (queued = request) then unchanged state
          else reject state request IDENTITY_CONFLICT "queued payload changed")
  else if bool_decide (target queued = target request) then
    Some (reject state request OWNERSHIP "attempt already queued")
  else None.
Definition slot_duplicate (state : SchedulingState) (request : AdmissionRequest) (slot : Slot)
  : option Change :=
  if bool_decide (sl_attempt slot = target request) then
    Some (if pystr_eqb (sl_admission_id slot) (rq_decision_id request)
             && bool_decide (sl_pools slot = rq_pools request)
          then unchanged state
          else reject state request OWNERSHIP "attempt already occupies capacity")
  else None.
Fixpoint first_some {A B} (f : A -> option B) (l : list A) : option B :=
  match l with
  | [] => None
  | x :: l => match f x with Some b => Some b | None => first_some f l end
  end.

Definition duplicate (state : SchedulingState) (context : SchedulingContext) (request : AdmissionRequest)
  : option Change :=
  match first_some (queued_duplicate state request) (ss_queue state) with
  | Some change => Some change
  | None =>
    match first_some (slot_duplicate state request) (ss_slots state) with
    | Some change => Some change
    | None => existing_duplicate state context request
    end
  end.

Definition intake_closed (state : SchedulingState) (run : RunState) : bool :=
  ss_admission_closed state
  || match ru_status run with CLOSING | BLOCKED | TERMINAL => true | _ => false end
  || is_Some_b (ru_result run) || f_ge (ru_now_at run) (ru_deadline_at run).

Definition unregistered (context : SchedulingContext) (request : AdmissionRequest) : option AttemptRequest :=
  match request with
  | Start r => if is_Some_b (owner context (target request)) then None else Some r
  | Reopen _ => None
  end.

Definition enqueue (state : SchedulingState) (context : SchedulingContext) (request : AdmissionRequest)
  : result Change :=
  let* invalid := match request with Start r => validate_start state context r | Reopen _ => Ok None end in
  match invalid with
  | Some change => Ok change
  | None =>
    match duplicate state context request with
    | Some change => Ok change
    | None =>
      if intake_closed state (cx_run context)
      then Ok (reject state request CLOSED_SCOPE "admission is closed") else
      if match unregistered context request with
         | Some r => remaining state context <? aq_admission_charge r
         | None => false
         end
      then Ok (reject state request BUDGET "admission budget exhausted") else
      let* unproved :=
        match request with
        | Reopen r => let* p := reopen_proved context r in Ok (negb p)
        | Start _ => Ok false
        end in
      if (unproved : bool)
      then Ok (reject state request OWNERSHIP
                 "reentry requires declared canonical operation and exact park authority") else
      raise (ContractValidationError "pools" "duplicate resource pool")
        when (negb (nodupb (rq_pools request))) in
      let queued := state <| ss_queue := ss_queue state ++ [request] |> in
      let registering := unregistered context request in
      let* filled := fill queued context registering true in
      let registration := match registering with Some r => [RegisterAttempt r] | None => [] end in
      Ok (mk_AreaChange (ch_state filled) (registration ++ ch_signals filled) (ch_events filled))
    end
  end.

Definition end_slot_charge (attempt : AttemptRef) (admission_id : DecisionId) (ended_at : Seconds)
    (slot : Slot) : result Slot :=
  if negb (bool_decide (sl_attempt slot = attempt)) || negb (pystr_eqb (sl_admission_id slot) admission_id)
     || is_Some_b (sl_charge_ended_at slot)
  then Ok slot else
  raise (ContractValidationError "ended_at" "precedes occupancy admission")
    when (f_lt ended_at (sl_admitted_at slot)) in
  Ok (slot <| sl_charge_ended_at := Some ended_at |>).

Definition end_charge (state : SchedulingState) (attempt : AttemptRef) (admission_id : DecisionId)
    (ended_at : Seconds) : result Change :=
  let* slots := mapM_result (end_slot_charge attempt admission_id ended_at) (ss_slots state) in
  Ok (unchanged (state <| ss_slots := slots |>)).

Definition holds_episode (attempt : AttemptRef) (admission_id : DecisionId) (slot : Slot) : bool :=
  bool_decide (sl_attempt slot = attempt) && pystr_eqb (sl_admission_id slot) admission_id.

(** What a released episode adds to the accounting. *)
Definition episode_seconds (now_at : Seconds) (slot : Slot) : Seconds :=
  let end_ := match sl_charge_ended_at slot with Some e => e | None => now_at end in
  max2 f_zero (f_sub end_ (sl_admitted_at slot)).

Definition release (state : SchedulingState) (context : SchedulingContext) (attempt : AttemptRef)
    (admission_id : DecisionId) : result Change :=
  match find (holds_episode attempt admission_id) (ss_slots state) with
  | None => Ok (unchanged state)
  | Some slot =>
    let released :=
      state <| ss_slots := List.filter (fun held => negb (slot_eqb held slot)) (ss_slots state) |>
            <| ss_released_slot_seconds :=
                 f_add (ss_released_slot_seconds state) (episode_seconds (ru_now_at (cx_run context)) slot) |> in
    fill released context None true
  end.

Definition stop_retirement (run : RunState) (stop : Finish) (episode : AttemptRef * DecisionId) : Signal :=
  RetireRequested (mk_RetireRequest episode.1 CANCEL
    (py "stop:" ++ fi_decision_id stop ++ py ":" ++ episode.2) episode.2 (ru_now_at run)).

(** A registered attempt that is not already closing this very episode. *)
Definition open_episode (context : SchedulingContext) (episode : AttemptRef * DecisionId) : bool :=
  match owner context episode.1 with
  | None => false
  | Some a =>
    match at_closure a with
    | None => true
    | Some c => negb (pystr_eqb (cl_admission_id c) episode.2)
    end
  end.

Definition episodes (state : SchedulingState) : list (AttemptRef * DecisionId) :=
  map (fun s => (sl_attempt s, sl_admission_id s)) (ss_slots state)
  ++ map (fun r => (target r, rq_decision_id r)) (ss_queue state).

Definition cancel (state : SchedulingState) (context : SchedulingContext) : result (option (list Signal)) :=
  let run := cx_run context in
  if negb (bool_decide (ru_status run = CLOSING)) then Ok None else
  let* decision := first_stop context in
  match decision with
  | None => Ok None
  | Some d =>
    if negb (bool_decide (fi_mode d = CANCEL_STOP)) then Ok None else
    Ok (Some (RunJobsCancelRequested (fi_scope d) (fi_decision_id d)
              :: map (stop_retirement run d) (List.filter (open_episode context) (episodes state))))
  end.

Definition stop_replay (state : SchedulingState) (context : SchedulingContext) : option Change :=
  match committed_stops context with
  | [] | [_] => None
  | stops =>
    match last_opt stops with
    | Some stop =>
      Some (mk_AreaChange state []
        [E_Rejected (fi_decision_id stop) CLOSED_SCOPE [py "run"; py "result"]
           (py "first committed stop retains its result and disposition")])
    | None => None
    end
  end.

Definition run_sessions_drain (context : SchedulingContext) : result (list Signal) :=
  let* stop := first_stop context in
  Ok match stop with
     | None => []
     | Some stop => [RunSessionsDrainRequested (fi_scope stop) (fi_decision_id stop)]
     end.

Definition control (state : SchedulingState) (context : SchedulingContext) (action : ControlAction)
  : result Change :=
  let run := cx_run context in
  raise (ContractValidationError "admission_control.run.status"
           "pause requires the run's committed PAUSED status")
    when (bool_decide (action = A_PAUSE) && negb (bool_decide (ru_status run = PAUSED))) in
  if bool_decide (action = A_RESUME) then
    if negb (bool_decide (ru_status run = RUNNING)) || is_Some_b (ru_result run)
    then Ok (unchanged state)
    else fill (state <| ss_admission_closed := false |>) context None true
  else
  match stop_replay state context with
  | Some refusal => Ok refusal
  | None =>
    let* cancellations := if bool_decide (action = A_CANCEL) then cancel state context else Ok (Some []) in
    match cancellations with
    | None => Ok (unchanged state)
    | Some cancellations =>
      let closed := state <| ss_admission_closed := true |> in
      if bool_decide (action = A_PAUSE) then Ok (unchanged closed) else
      let* drained := fill closed context None true in
      let* sessions := run_sessions_drain context in
      Ok (mk_AreaChange (ch_state drained) (cancellations ++ sessions ++ ch_signals drained)
            (ch_events drained))
    end
  end.

Definition retired_entry (attempt : AttemptRef) (admission_id : DecisionId) (request : AdmissionRequest)
  : bool :=
  bool_decide (target request = attempt) && pystr_eqb (rq_decision_id request) admission_id.

Definition ready (state : SchedulingState) (context : SchedulingContext) (attempt : AttemptRef)
    (admission_id : DecisionId) : Change :=
  let valid :=
    match owner context attempt with
    | None => false
    | Some a =>
      bool_decide (at_phase a = PH_ACTIVE) && bool_decide (at_admission_id a = Some admission_id)
      && negb (is_Some_b (at_closure a))
      && existsb (fun s => holds_episode attempt admission_id s && negb (is_Some_b (sl_charge_ended_at s)))
           (ss_slots state)
    end in
  mk_AreaChange state [] (if valid then [E_AttemptReady attempt admission_id] else []).

Definition schedule (state : SchedulingState) (context : SchedulingContext) (event : SchedulingEvent)
  : result Change :=
  let run := cx_run context in
  match event with
  | AttemptRequested request => enqueue state context (Start request)
  | AttemptReopenRequested request => enqueue state context (Reopen request)
  | SlotChargeEnded attempt admission_id ended_at => end_charge state attempt admission_id ended_at
  | SlotReleased attempt admission_id => release state context attempt admission_id
  | AttemptReady attempt admission_id => Ok (ready state context attempt admission_id)
  | QueueEntryRetired attempt admission_id =>
    fill (state <| ss_queue := List.filter (fun r => negb (retired_entry attempt admission_id r))
                                 (ss_queue state) |>)
      context None false
  | ClockAdvanced now_at =>
    raise (ContractValidationError "now_at" "clock moved backwards") when (f_lt now_at (ru_now_at run)) in
    let* filled := fill state context None true in
    Ok (mk_AreaChange (ch_state filled)
          (ch_signals filled ++ [ObservationsDue (ru_now_at run)]
           ++ due_retries (cx_records context) (ru_now_at run)
           ++ overdue_reconciliations (cx_records context) (cx_evaluation context) run)
          (ch_events filled))
  | AdmissionControl action => control state context action
  | AdoptionFenceLifted => fill state context None true
  end.

(** [scheduling_view] (_projection.py): what a search is shown of admission. *)
Definition charged_admissions (attempts : list AttemptView) : list ChargeReceipt :=
  List.filter (fun c => bool_decide (cg_kind c = ADMISSION)) (concat (map at_charges attempts)).
Definition available_tokens (state : SchedulingState) (limits : Limits) (attempts : list AttemptView) : Z :=
  let receipts := charged_admissions attempts in
  let charged := zsum (map cg_charged receipts) in
  let refunded := zsum (map cg_refunded receipts) in
  let left := Z.max 0 (li_max_attempts limits - charged + refunded) in
  if ss_admission_closed state then 0
  else Z.min (Z.max 0 (li_max_parallel limits - Z.of_nat (length (ss_slots state)))) left.

End Scheduling.

(** ** Admission as a whole *)

(** The requests a change admits, in order. *)
Definition admits (signals : list Signal) : list AdmissionRequest :=
  concat (map (fun s => match s with AdmitAttempt r => [r] | _ => [] end) signals).

Lemma admits_app a b : admits (a ++ b) = admits a ++ admits b.
Proof. unfold admits. by rewrite map_app, concat_app. Qed.

Lemma admits_AdmitAttempt l : admits (map AdmitAttempt l) = l.
Proof. unfold admits. induction l as [|x l IH]; simpl; [done|]. by rewrite IH. Qed.

Lemma admits_nothing (l : list Signal) : (forall s, s ∈ l -> forall r, s <> AdmitAttempt r) -> admits l = [].
Proof.
  induction l as [|s l IH]; intros H; [done|].
  rewrite (admits_app [s] l : admits (s :: l) = _).
  rewrite IH by (intros s' Hs'; apply H; set_solver).
  assert (Hs : forall r, s <> AdmitAttempt r) by (apply H; set_solver). by destruct s; try specialize (Hs request).
Qed.

Section Filling.
Context {digests : Digests}.

(** A refusal names the state only to return it. *)
Lemma validate_start_state st1 st2 context r :
  (let* v := validate_start st1 context r in Ok (is_Some_b v))
  = (let* v := validate_start st2 context r in Ok (is_Some_b v)).
Proof.
  unfold validate_start. destruct (accepted_decision _ _) as [[[d|d|d|d|? ? ? ?]|]|e]; simpl; try done.
  repeat case_match; simpl; try done;
    (destruct (registration context _) as [o|e]; simpl; [|done]); by repeat case_match.
Qed.

Lemma admission_proved_state st1 st2 context r registering :
  admission_proved st1 context r registering = admission_proved st2 context r registering.
Proof.
  unfold admission_proved. destruct r as [r|r]; [|done].
  destruct (owner _ _) as [a|]; [|done]. destruct (_ || _); [done|].
  pose proof (validate_start_state st1 st2 context r) as H.
  destruct (validate_start st1 context r), (validate_start st2 context r); simpl in *; congruence.
Qed.

Lemma fits_slots st1 st2 context r : ss_slots st1 = ss_slots st2 -> fits st1 context r = fits st2 context r.
Proof. intros H. unfold fits. by rewrite H. Qed.

(** What admits a request when [held] is occupied. *)
Definition admissible (context : SchedulingContext) (registering : option AttemptRequest)
    (held : list Slot) (r : AdmissionRequest) : Prop :=
  accepting context = Ok true /\ (forall st, admission_proved st context r registering = Ok true)
  /\ (forall st, ss_slots st = held -> fits st context r = Ok true).

(** What keeps the head of the queue waiting. *)
Definition waits (context : SchedulingContext) (registering : option AttemptRequest)
    (held : list Slot) (r : AdmissionRequest) : Prop :=
  accepting context = Ok false \/ (forall st, admission_proved st context r registering = Ok false)
  \/ (forall st, ss_slots st = held -> fits st context r = Ok false).

(** Each of [rs] was admissible in its turn. *)
Fixpoint admitted_in_turn (context : SchedulingContext) (registering : option AttemptRequest)
    (held : list Slot) (rs : list AdmissionRequest) : Prop :=
  match rs with
  | [] => True
  | r :: rs =>
    admissible context registering held r
    /\ admitted_in_turn context registering (held ++ [slot_of (cx_run context) r]) rs
  end.

(** The loop admits the longest admissible prefix of the queue, and changes nothing else. *)
Lemma fill_loop_spec context registering queue st signals st' signals' :
  ss_queue st = queue ->
  fill_loop context registering queue st signals = Ok (st', signals') ->
  exists rs,
    ss_queue st = rs ++ ss_queue st' /\ signals' = signals ++ map AdmitAttempt rs
    /\ ss_slots st' = ss_slots st ++ map (slot_of (cx_run context)) rs
    /\ ss_admission_closed st' = ss_admission_closed st
    /\ ss_released_slot_seconds st' = ss_released_slot_seconds st
    /\ admitted_in_turn context registering (ss_slots st) rs
    /\ match ss_queue st' with [] => True | r :: _ => waits context registering (ss_slots st') r end.
Proof.
  revert st signals. induction queue as [|r queue IH]; intros st signals Hq H; simpl in H.
  { injection H as [= <- <-]. exists []. simpl. rewrite !app_nil_r, Hq. done. }
  apply bind_Ok in H as (open & Hopen & H).
  assert (Hstop : waits context registering (ss_slots st) r -> Ok (st, signals) = Ok (st', signals') ->
    exists rs,
    ss_queue st = rs ++ ss_queue st' /\ signals' = signals ++ map AdmitAttempt rs
    /\ ss_slots st' = ss_slots st ++ map (slot_of (cx_run context)) rs
    /\ ss_admission_closed st' = ss_admission_closed st
    /\ ss_released_slot_seconds st' = ss_released_slot_seconds st
    /\ admitted_in_turn context registering (ss_slots st) rs
    /\ match ss_queue st' with [] => True | r :: _ => waits context registering (ss_slots st') r end).
  { intros Hw [= <- <-]. exists []. simpl. rewrite !app_nil_r, Hq. done. }
  destruct open; simpl in H; [|by apply Hstop; [left|]].
  apply bind_Ok in H as (proved & Hproved & H).
  destruct proved; simpl in H.
  2:{ apply Hstop; [|done]. right. left. intros st0. by rewrite (admission_proved_state st0 st). }
  apply bind_Ok in H as (room & Hroom & H).
  destruct room; simpl in H.
  2:{ apply Hstop; [|done]. do 2 right. intros st0 E. by rewrite (fits_slots st0 st). }
  apply IH in H as (rs & H1 & H2 & H3 & H4 & H5 & H6 & H7); [|done]. simpl in *.
  exists (r :: rs). simpl. rewrite Hq, H1, H2, <- !app_assoc. split_and!; try done.
  - by rewrite H3, <- app_assoc.
  - split_and!; [done|intros st0; by rewrite (admission_proved_state st0 st)|].
    intros st0 E. by rewrite (fits_slots st0 st).
Qed.

(** [fill] in one step: what it admits, and what it asks besides. *)
Lemma fill_spec st context registering retire_expired ch :
  fill st context registering retire_expired = Ok ch ->
  exists rs retirements drained,
    ss_queue st = rs ++ ss_queue (ch_state ch)
    /\ ss_slots (ch_state ch) = ss_slots st ++ map (slot_of (cx_run context)) rs
    /\ ss_admission_closed (ch_state ch) = ss_admission_closed st
    /\ ss_released_slot_seconds (ch_state ch) = ss_released_slot_seconds st
    /\ admitted_in_turn context registering (ss_slots st) rs
    /\ match ss_queue (ch_state ch) with
       | [] => True | r :: _ => waits context registering (ss_slots (ch_state ch)) r end
    /\ (if retire_expired then deadline_retirements st context else Ok []) = Ok retirements
    /\ ch_signals ch = retirements ++ map AdmitAttempt rs ++ (if (drained : bool) then [RunDrained] else [])
    /\ (drained = true <->
        ss_admission_closed st = true /\ ss_queue (ch_state ch) = [] /\ ss_slots (ch_state ch) = []
        /\ ru_status (cx_run context) = CLOSING /\ exists stop, first_stop context = Ok (Some stop))
    /\ ch_events ch = [].
Proof.
  intros H. unfold fill in H. apply bind_Ok in H as (retirements & Hr & H).
  apply bind_Ok in H as ([st' signals] & Hl & H).
  apply fill_loop_spec in Hl as (rs & H1 & H2 & H3 & H4 & H5 & H6 & H7); [|done].
  apply bind_Ok in H as (drained & Hd & [= <-]). exists rs, retirements, drained. simpl.
  split_and!; try done.
  - rewrite H2. destruct drained; by rewrite <- ?app_assoc, ?app_nil_r.
  - rewrite <- H4. clear -Hd.
    destruct (ss_admission_closed st'), (decide (ss_queue st' = [])) as [E|E]; simpl in Hd;
      rewrite ?bool_decide_eq_true_2, ?bool_decide_eq_false_2 in Hd by done; simpl in Hd;
      try (injection Hd as [= <-]; naive_solver).
    destruct (ss_slots st') as [|s l]; simpl in Hd; [|injection Hd as [= <-]; naive_solver].
    case_bool_decide as Es; simpl in Hd; [|injection Hd as [= <-]; naive_solver].
    apply bind_Ok in Hd as (stop & Hstop & [= <-]). rewrite Hstop.
    destruct stop as [f|]; simpl; naive_solver.
Qed.

Lemma deadline_retirements_admit_nothing st context l :
  deadline_retirements st context = Ok l -> admits l = [].
Proof.
  unfold deadline_retirements. intros H. destruct (before_deadline _); [by injection H as [= <-]|].
  apply bind_Ok in H as (running & _ & H). destruct running; simpl in H; [|by injection H as [= <-]].
  apply bind_Ok in H as (expired & _ & [= <-]). apply admits_nothing.
  intros s Hs r ->. by apply elem_of_map in Hs as (? & ? & _).
Qed.

(** [fill], as far as queue and slots are concerned. *)
Lemma fill_admits st context registering retire_expired ch :
  fill st context registering retire_expired = Ok ch ->
  ss_queue st = admits (ch_signals ch) ++ ss_queue (ch_state ch)
  /\ ss_slots (ch_state ch) = ss_slots st ++ map (slot_of (cx_run context)) (admits (ch_signals ch))
  /\ admitted_in_turn context registering (ss_slots st) (admits (ch_signals ch))
  /\ match ss_queue (ch_state ch) with
     | [] => True | r :: _ => waits context registering (ss_slots (ch_state ch)) r end.
Proof.
  intros H. apply fill_spec in H as (rs & retirements & drained & H1 & H2 & _ & _ & H3 & H4 & H5 & H6 & _).
  assert (Hr : admits retirements = []).
  { destruct retire_expired; [by eapply deadline_retirements_admit_nothing|]. by injection H5 as [= <-]. }
  assert (Ha : admits (ch_signals ch) = rs).
  { rewrite H6, !admits_app, Hr, admits_AdmitAttempt. by destruct drained; simpl; rewrite app_nil_r. }
  by rewrite Ha.
Qed.

End Filling.

(** ** One event: a preparation of the state, then possibly a filling *)

Section Events.
Context {digests : Digests}.

Definition request_of (event : SchedulingEvent) : option AdmissionRequest :=
  match event with
  | AttemptRequested r => Some (Start r)
  | AttemptReopenRequested r => Some (Reopen r)
  | _ => None
  end.

(** What a request must satisfy to join the queue. *)
Record acceptable (st : SchedulingState) (context : SchedulingContext) (r : AdmissionRequest) : Prop := {
  ac_authority :
    match r with Start q => validate_start st context q = Ok None | Reopen q => reopen_proved context q = Ok true end;
  ac_new : duplicate st context r = None;
  ac_open : intake_closed st (cx_run context) = false;
  ac_budget :
    match unregistered context r with Some q => aq_admission_charge q <= remaining st context | None => True end;
  ac_pools : NoDup (rq_pools r)
}.

(** An event that takes a request or a slot away. *)
Definition removal (st : SchedulingState) (event : SchedulingEvent) : bool :=
  match event with
  | QueueEntryRetired _ _ => true
  | SlotReleased attempt admission_id => existsb (holds_episode attempt admission_id) (ss_slots st)
  | _ => false
  end.

(** What an event does to the state before admission is tried. *)
Inductive prepared (st : SchedulingState) (context : SchedulingContext) : SchedulingEvent -> SchedulingState -> Prop :=
| P_intake event closed :
    removal st event = false -> prepared st context event (st <| ss_admission_closed := closed |>)
| P_enqueue event r :
    request_of event = Some r -> acceptable st context r ->
    prepared st context event (st <| ss_queue := ss_queue st ++ [r] |>)
| P_retire attempt admission_id :
    prepared st context (QueueEntryRetired attempt admission_id)
      (st <| ss_queue := List.filter (fun r => negb (retired_entry attempt admission_id r)) (ss_queue st) |>)
| P_charge attempt admission_id ended_at slots :
    mapM_result (end_slot_charge attempt admission_id ended_at) (ss_slots st) = Ok slots ->
    prepared st context (SlotChargeEnded attempt admission_id ended_at) (st <| ss_slots := slots |>)
| P_release attempt admission_id slot :
    find (holds_episode attempt admission_id) (ss_slots st) = Some slot ->
    prepared st context (SlotReleased attempt admission_id)
      (st <| ss_slots := List.filter (fun held => negb (slot_eqb held slot)) (ss_slots st) |>
          <| ss_released_slot_seconds :=
               f_add (ss_released_slot_seconds st) (episode_seconds (ru_now_at (cx_run context)) slot) |>).

(** The state after an event: the prepared one, filled or left as it is. *)
Definition outcome (context : SchedulingContext) (st1 : SchedulingState) (ch : AreaChange SchedulingState)
  : Prop :=
  (ch_state ch = st1 /\ admits (ch_signals ch) = [])
  \/ exists registering retire_expired filled,
       fill st1 context registering retire_expired = Ok filled
       /\ ch_state ch = ch_state filled /\ admits (ch_signals ch) = admits (ch_signals filled)
       /\ (forall q, registering = Some q -> exists st, validate_start st context q = Ok None).

Lemma first_some_inv {A B} (f : A -> option B) l b :
  first_some f l = Some b -> exists x, x ∈ l /\ f x = Some b.
Proof.
  induction l as [|x l IH]; simpl; [done|]. destruct (f x) as [c|] eqn:E.
  - intros [= <-]. exists x. set_solver.
  - intros (y & ? & ?)%IH. exists y. set_solver.
Qed.

Lemma first_some_None {A B} (f : A -> option B) l : first_some f l = None <-> forall x, x ∈ l -> f x = None.
Proof.
  induction l as [|x l IH]; simpl; [set_solver|]. destruct (f x) as [c|] eqn:E.
  - split; [done|]. intros H. rewrite (H x) in E; [done|set_solver].
  - rewrite IH. set_solver.
Qed.

(** A replay changes nothing and asks nothing. *)
Lemma duplicate_unchanged st context r ch :
  duplicate st context r = Some ch -> ch_state ch = st /\ ch_signals ch = [].
Proof.
  unfold duplicate.
  destruct (first_some _ (ss_queue st)) as [c|] eqn:E1.
  { apply first_some_inv in E1 as (q & _ & E1). unfold queued_duplicate in E1.
    intros [= ->]. by repeat case_match; simplify_eq. }
  destruct (first_some _ (ss_slots st)) as [c|] eqn:E2.
  { apply first_some_inv in E2 as (q & _ & E2). unfold slot_duplicate in E2.
    intros [= ->]. by repeat case_match; simplify_eq. }
  unfold existing_duplicate. intros H. by repeat case_match; simplify_eq.
Qed.

Lemma validate_start_unchanged st context r ch :
  validate_start st context r = Ok (Some ch) -> ch_state ch = st /\ ch_signals ch = [].
Proof.
  unfold validate_start. intros H. apply bind_Ok in H as (d & _ & H).
  destruct d as [[d|d|d|d|? ? ? ?]|]; repeat case_match; simplify_eq; try done;
    apply bind_Ok in H as (o & _ & H); by repeat case_match; simplify_eq.
Qed.

Lemma unchanged_same st : st <| ss_admission_closed := ss_admission_closed st |> = st.
Proof. by destruct st. Qed.

Lemma find_None_existsb {A} (p : A -> bool) l : find p l = None -> existsb p l = false.
Proof. induction l as [|x l IH]; simpl; [done|]. by destruct (p x). Qed.

Lemma keep_intake st context event :
  removal st event = false -> prepared st context event st.
Proof.
  intros H. pose proof (P_intake st context event (ss_admission_closed st) H) as Hp.
  by rewrite unchanged_same in Hp.
Qed.

Lemma admits_registration o signals :
  admits (match o with Some r => [RegisterAttempt r] | None => [] end ++ signals) = admits signals.
Proof. by destruct o. Qed.

(** A request is refused, replayed, or joins the queue of a prepared state that is filled. *)
Lemma enqueue_cases st context r ch :
  enqueue st context r = Ok ch ->
  (ch_state ch = st /\ ch_signals ch = [])
  \/ exists filled,
       acceptable st context r
       /\ fill (st <| ss_queue := ss_queue st ++ [r] |>) context (unregistered context r) true = Ok filled
       /\ ch = mk_AreaChange (ch_state filled)
                 (match unregistered context r with Some q => [RegisterAttempt q] | None => [] end
                  ++ ch_signals filled) (ch_events filled).
Proof.
  intros H. unfold enqueue in H. apply bind_Ok in H as (invalid & Hv & H).
  destruct invalid as [c|].
  { injection H as [= <-]. left. destruct r; [by eapply validate_start_unchanged|done]. }
  destruct (duplicate st context r) as [c|] eqn:Hd.
  { injection H as [= <-]. left. by eapply duplicate_unchanged. }
  destruct (intake_closed _ _) eqn:Hi; [injection H as [= <-]; by left|].
  destruct (match unregistered context r with Some _ => _ | None => _ end) eqn:Hb;
    [injection H as [= <-]; by left|].
  apply bind_Ok in H as (unproved & Hp & H).
  destruct unproved; [injection H as [= <-]; by left|].
  destruct (nodupb _) eqn:Hn; [|done]. simpl in H.
  apply bind_Ok in H as (filled & Hf & [= <-]). right. exists filled. split_and!; [|done..].
  split; [|done|done| |by apply nodupb_spec].
  - destruct r as [q|q]; [done|]. apply bind_Ok in Hp as (p & -> & [= Hp]). by destruct p.
  - destruct (unregistered context r); [|done]. by apply Z.ltb_ge in Hb.
Qed.

Lemma enqueue_prepared st context event r ch :
  request_of event = Some r -> enqueue st context r = Ok ch ->
  exists st1, prepared st context event st1 /\ outcome context st1 ch.
Proof.
  intros Hr [[H1 H2]|(filled & Ha & Hf & ->)]%enqueue_cases.
  - exists st. split; [apply keep_intake; by destruct event|]. left. by rewrite H2.
  - eexists. split; [by eapply P_enqueue|]. right. do 3 eexists.
    split_and!; [done..|apply admits_registration|].
    intros q Hq. exists st. destruct r as [r|r]; simpl in Hq; [|done].
    destruct (is_Some_b _); [done|]. injection Hq as [= <-]. apply (ac_authority _ _ _ Ha).
Qed.

Lemma outcome_fill context st1 retire_expired filled ch :
  fill st1 context None retire_expired = Ok filled -> ch_state ch = ch_state filled ->
  admits (ch_signals ch) = admits (ch_signals filled) -> outcome context st1 ch.
Proof. right. by exists None, retire_expired, filled. Qed.

Lemma run_sessions_drain_admit_nothing context l : run_sessions_drain context = Ok l -> admits l = [].
Proof. unfold run_sessions_drain. intros (stop & _ & [= <-])%bind_Ok. by destruct stop. Qed.

Lemma cancel_admit_nothing st context l : cancel st context = Ok (Some l) -> admits l = [].
Proof.
  unfold cancel. destruct (negb _); [done|]. intros (stop & _ & H)%bind_Ok.
  destruct stop as [d|]; [|done]. destruct (negb _); [done|]. injection H as [= <-].
  apply admits_nothing. intros s [->|Hs]%elem_of_cons r Hc; [done|].
  subst s. by apply elem_of_map in Hs as (? & ? & _).
Qed.

Lemma control_prepared st context action ch :
  control st context action = Ok ch ->
  exists st1, prepared st context (AdmissionControl action) st1 /\ outcome context st1 ch.
Proof.
  intros H. unfold control in H. destruct (_ && _); [done|].
  assert (Hsame : ch_state ch = st -> ch_signals ch = [] ->
    exists st1, prepared st context (AdmissionControl action) st1 /\ outcome context st1 ch).
  { intros H1 H2. exists st. split; [by apply keep_intake|]. left. by rewrite H2. }
  destruct (bool_decide (action = A_RESUME)).
  { destruct (_ || _); [injection H as [= <-]; by apply Hsame|].
    eexists. split; [by constructor|]. by eapply outcome_fill. }
  destruct (stop_replay st context) as [refusal|] eqn:Hs.
  { injection H as [= <-]. unfold stop_replay in Hs. by apply Hsame; repeat case_match; simplify_eq. }
  apply bind_Ok in H as (cs & Hc & H).
  destruct cs as [cs|]; [|injection H as [= <-]; by apply Hsame].
  assert (Hcs : admits cs = []).
  { destruct (bool_decide (action = A_CANCEL)); [by eapply cancel_admit_nothing|]. by injection Hc as [= <-]. }
  exists (st <| ss_admission_closed := true |>). split; [by constructor|].
  destruct (bool_decide (action = A_PAUSE)); [injection H as [= <-]; by left|].
  apply bind_Ok in H as (drained & Hf & H). apply bind_Ok in H as (sessions & Hd & [= <-]).
  eapply outcome_fill; [done..|]. simpl.
  by rewrite !admits_app, Hcs, (run_sessions_drain_admit_nothing _ _ Hd).
Qed.

Lemma due_admit_nothing context now_at :
  admits (due_retries (cx_records context) now_at
          ++ overdue_reconciliations (cx_records context) (cx_evaluation context) (cx_run context)) = [].
Proof.
  apply admits_nothing. intros s Hs r ->. unfold due_retries, overdue_reconciliations in Hs.
  rewrite !elem_of_app in Hs. destruct Hs as [Hs|[Hs|Hs]]; [|by apply elem_of_map in Hs as (? & ? & _)..].
  apply list_elem_of_In, in_concat in Hs as (l & Hl & Hs). apply list_elem_of_In, elem_of_map in Hl as (x & -> & _).
  by repeat case_match; destruct Hs.
Qed.

Lemma schedule_prepared st context event ch :
  schedule st context event = Ok ch ->
  exists st1, prepared st context event st1 /\ outcome context st1 ch.
Proof.
  destruct event; simpl; intros H.
  - by eapply enqueue_prepared.
  - by eapply enqueue_prepared.
  - injection H as [= <-]. exists st. split; [by apply keep_intake|by left].
  - unfold release in H. destruct (find _ _) as [slot|] eqn:Hf.
    + eexists. split; [by eapply P_release|]. by eapply outcome_fill.
    + injection H as [= <-]. exists st. split; [by apply keep_intake, find_None_existsb|by left].
  - apply bind_Ok in H as (slots & Hs & [= <-]). eexists. split; [by eapply P_charge|by left].
  - eexists. split; [apply P_retire|]. by eapply outcome_fill.
  - destruct (f_lt _ _); [done|]. apply bind_Ok in H as (filled & Hf & [= <-]).
    exists st. split; [by apply keep_intake|]. eapply outcome_fill; [done..|]. simpl.
    rewrite admits_app, (admits_app [_] _ : admits (_ :: _) = _), due_admit_nothing. apply app_nil_r.
  - by apply control_prepared.
  - exists st. split; [by apply keep_intake|]. by eapply outcome_fill.
Qed.

End Events.
