(* ===== verification/Admission.v ===== *)
(** The scheduling area over whole runs: any sequence of events, each taken in a context of the same
    run. What is occupied stays within the run's limits, requests are admitted in the order they
    arrived and as soon as they can be, an episode is released and accounted once, and what
    scheduling admits the attempts area can act on. *)
From S2P Require Import Prelude Floats CoreValues CoreProofs WaitClock Scheduling.

(** ** Lists *)

Section OrderedPairs.
Context {A : Type} (R : A -> A -> Prop).

Lemma FOP_app l1 l2 :
  ForallOrdPairs R (l1 ++ l2) <->
  ForallOrdPairs R l1 /\ ForallOrdPairs R l2 /\ forall a b, a ∈ l1 -> b ∈ l2 -> R a b.
Proof.
  induction l1 as [|x l1 IH]; simpl.
  - split; [intros H; split_and!; [constructor|done|set_solver]|by intros (_ & H & _)].
  - split.
    + inversion 1 as [|? ? Hx Hl]; subst. apply IH in Hl as (H1 & H2 & H3).
      rewrite Forall_app in Hx. destruct Hx as [Hx1 Hx2]. rewrite Forall_forall in Hx2.
      split_and!; [by constructor|done|]. intros a b [->|Ha]%elem_of_cons Hb; eauto.
    + intros (H1 & H2 & H3). inversion H1 as [|? ? Hx Hl]; subst. constructor.
      * apply Forall_app. split; [done|]. apply Forall_forall. intros b Hb. apply H3; set_solver.
      * apply IH. split_and!; [done..|]. intros a b Ha Hb. apply H3; set_solver.
Qed.

Lemma FOP_filter p l : ForallOrdPairs R l -> ForallOrdPairs R (List.filter p l).
Proof.
  induction 1 as [|x l Hx Hl IH]; simpl; [constructor|]. destruct (p x); [|done].
  constructor; [|done]. rewrite Forall_forall in *. intros y Hy. apply Hx. by apply elem_of_filter in Hy as [? _].
Qed.

Lemma FOP_Forall2 (S : A -> A -> Prop) l1 l2 :
  (forall a b a' b', S a a' -> S b b' -> R a b -> R a' b') ->
  Forall2 S l1 l2 -> ForallOrdPairs R l1 -> ForallOrdPairs R l2.
Proof.
  intros HS. induction 1 as [|a a' l1 l2 Ha Hl IH]; intros H; [constructor|].
  inversion H as [|? ? Hx Hr]; subst. constructor; [|by apply IH].
  rewrite Forall_forall in *. intros b' Hb'.
  apply list_elem_of_lookup in Hb' as [i Hb']. eapply Forall2_lookup_r in Hl as (b & Hb & HSb); [|done].
  eapply HS; [done..|]. apply Hx. by eapply list_elem_of_lookup_2.
Qed.
End OrderedPairs.

(** ** The contexts of one run *)

(** What a request or an occupied slot stands for: its decision, its attempt and its pools. *)
Record Entry := mk_Entry { en_decision : DecisionId; en_target : AttemptRef; en_pools : list PoolId }.
Definition entry_of_request (r : AdmissionRequest) : Entry := mk_Entry (rq_decision_id r) (target r) (rq_pools r).
Definition entry_of_slot (s : Slot) : Entry := mk_Entry (sl_admission_id s) (sl_attempt s) (sl_pools s).
Definition entries (st : SchedulingState) : list Entry :=
  map entry_of_request (ss_queue st) ++ map entry_of_slot (ss_slots st).

(** The attempt a command admits. *)
Definition target_of (c : Command) : option AttemptRef :=
  match c with
  | C_Start d => Some (mk_AttemptRef (sa_attempt_id d) (sc_generation (sa_scope d)))
  | C_Operation d => option_map sn_attempt (op_normalized_scope_reopen d)
  | _ => None
  end.

Section Runs.
Context {digests : Digests}.
Context (max : Z).
(** What a run fixes: each attempt's workspace mode and each accepted decision. *)
Context (modes : AttemptRef -> DecisionId -> WorkspaceMode) (decisions : DecisionId -> option Command).

Record of_run (context : SchedulingContext) : Prop := {
  run_max : li_max_parallel (ru_limits (cx_run context)) = max;
  run_modes t i m : mode context t i = Ok m -> modes t i = m;
  run_decisions i c :
    accepted_decision (ru_receipts (cx_run context)) i = Ok (Some c) -> decisions i = Some c;
  run_clock : f_is_nan (ru_now_at (cx_run context)) = false
}.

Definition well_timed (event : SchedulingEvent) : Prop :=
  match event with SlotChargeEnded _ _ ended_at => f_is_nan ended_at = false | _ => True end.

Inductive scheduled : SchedulingState -> Prop :=
| scheduled_start : 0 <= max -> scheduled (mk_SchedulingState [] [] false f_zero)
| scheduled_step st context event ch :
    scheduled st -> of_run context -> well_timed event ->
    schedule st context event = Ok ch -> scheduled (ch_state ch).

Definition root_slot (s : Slot) : bool := bool_decide (modes (sl_attempt s) (sl_admission_id s) = EXCLUSIVE_ROOT).

(** Two slots that may be occupied together. *)
Definition compatible (a b : Slot) : Prop :=
  ar_attempt_id (sl_attempt a) <> ar_attempt_id (sl_attempt b)
  /\ (forall p, p ∈ sl_pools a -> p ∉ sl_pools b) /\ root_slot a && root_slot b = false.

Definition within_limits (slots : list Slot) : Prop :=
  Z.of_nat (length slots) <= max /\ ForallOrdPairs compatible slots.

Lemma shares_pool_false a b : shares_pool a b = false <-> forall p, p ∈ a -> p ∉ b.
Proof.
  unfold shares_pool. split.
  - intros H p Ha Hb. apply not_true_iff_false in H. apply H, existsb_exists.
    exists p. split; [by apply list_elem_of_In|by apply bool_decide_eq_true].
  - intros H. apply not_true_iff_false. intros (p & Hp & Hb)%existsb_exists.
    apply bool_decide_eq_true in Hb. apply list_elem_of_In in Hp. by apply (H p).
Qed.

Lemma any_result_false {A} (f : A -> result bool) l : any_result f l = Ok false -> forall x, x ∈ l -> f x = Ok false.
Proof.
  induction l as [|y l IH]; simpl; [set_solver|]. intros (b & Hb & H)%bind_Ok.
  destruct b; [done|]. intros x [->|Hx]%elem_of_cons; [done|by apply IH].
Qed.

(** An admission that fits keeps the limits, and takes the root only when no adoption fences it. *)
Lemma fits_within st context r :
  of_run context -> within_limits (ss_slots st) -> fits st context r = Ok true ->
  within_limits (ss_slots st ++ [slot_of (cx_run context) r])
  /\ (root_slot (slot_of (cx_run context) r) = true ->
      fences_root_mutation (cx_adoption context) (cx_records context) = false).
Proof.
  intros Hrun [Hlen Hpairs] H. unfold fits in H.
  destruct (existsb _ _) eqn:Hid in H; [done|]. destruct (_ <=? _) eqn:Hmax; [done|].
  destruct (existsb (fun s => shares_pool _ _) _) eqn:Hpool; [done|].
  apply bind_Ok in H as (m & Hm & H). apply (run_modes _ Hrun) in Hm.
  rewrite (run_max _ Hrun) in Hmax. apply Z.leb_gt in Hmax.
  assert (Hroot : root_slot (slot_of (cx_run context) r) = true ->
    fences_root_mutation (cx_adoption context) (cx_records context) = false
    /\ forall s, s ∈ ss_slots st -> root_slot s = false).
  { intros Hx. unfold root_slot in Hx. simpl in Hx. rewrite Hm in Hx. rewrite Hx in H. simpl in H.
    destruct (fences_root_mutation _ _); [done|]. split; [done|].
    apply bind_Ok in H as (taken & Ht & [= H]). destruct taken; [done|].
    intros s Hs. apply (any_result_false _ _ Ht) in Hs. apply bind_Ok in Hs as (m' & Hm' & [= Hs]).
    apply (run_modes _ Hrun) in Hm'. unfold root_slot. by rewrite Hm'. }
  split; [|naive_solver]. split; [rewrite length_app; simpl; lia|].
  apply FOP_app. split_and!; [done|by repeat constructor|].
  intros a b Ha ->%list_elem_of_singleton. split_and!; simpl.
  - intros E. apply not_true_iff_false in Hid. apply Hid, existsb_exists. exists a.
    split; [by apply list_elem_of_In|by apply pystr_eqb_true].
  - intros p Hpa Hpb. apply not_true_iff_false in Hpool. apply Hpool, existsb_exists. exists a.
    split; [by apply list_elem_of_In|]. apply not_false_iff_true. rewrite shares_pool_false. naive_solver.
  - destruct (root_slot (slot_of (cx_run context) r)) eqn:Er; [|by rewrite andb_false_r].
    rewrite andb_true_r. by apply Hroot.
Qed.

Lemma admitted_within context registering held rs :
  of_run context -> within_limits held -> admitted_in_turn context registering held rs ->
  within_limits (held ++ map (slot_of (cx_run context)) rs).
Proof.
  intros Hrun. revert held. induction rs as [|r rs IH]; intros held Hh Hr; simpl.
  - by rewrite app_nil_r.
  - destruct Hr as [(_ & _ & Hfit) Hr].
    specialize (Hfit (mk_SchedulingState [] held false f_zero) eq_refl).
    apply fits_within in Hfit as [Hw _]; [|done..]. simpl in Hw.
    specialize (IH _ Hw Hr). by rewrite <- app_assoc in IH.
Qed.

(** ** The invariant of a run *)

(** An entry stands for an accepted decision on exactly its attempt, and names each pool once. *)
Definition lawful (e : Entry) : Prop :=
  (exists c, decisions (en_decision e) = Some c /\ target_of c = Some (en_target e)) /\ NoDup (en_pools e).
Definition timed (s : Slot) : Prop :=
  f_is_nan (sl_admitted_at s) = false
  /\ match sl_charge_ended_at s with Some e => f_is_nan e = false | None => True end.

Record orderly (st : SchedulingState) : Prop := {
  ord_targets : NoDup (map en_target (entries st));
  ord_lawful : Forall lawful (entries st);
  ord_timed : Forall timed (ss_slots st);
  ord_limits : within_limits (ss_slots st)
}.

(** Filling moves requests from the queue into slots. *)
Lemma outcome_entries context st1 ch :
  outcome context st1 ch -> entries (ch_state ch) ≡ₚ entries st1.
Proof.
  intros [[-> _]|(registering & b & filled & Hf & -> & _)]; [done|].
  apply fill_admits in Hf as (Hq & Hs & _ & _). unfold entries. rewrite Hq, Hs, !map_app, map_map.
  change (fun x => entry_of_slot (slot_of (cx_run context) x)) with (fun x => entry_of_request x).
  rewrite (Permutation_app_comm (map entry_of_slot (ss_slots st1))), !app_assoc.
  apply Permutation_app_tail, Permutation_app_comm.
Qed.

Lemma outcome_slots context st1 ch :
  outcome context st1 ch -> of_run context -> Forall timed (ss_slots st1) -> within_limits (ss_slots st1) ->
  Forall timed (ss_slots (ch_state ch)) /\ within_limits (ss_slots (ch_state ch)).
Proof.
  intros [[-> _]|(registering & b & filled & Hf & -> & _)] Hrun Ht Hw; [done|].
  apply fill_admits in Hf as (_ & -> & Hin & _). split.
  - apply Forall_app. split; [done|]. apply Forall_forall. intros s (r & -> & _)%elem_of_map.
    by split; [apply (run_clock _ Hrun)|].
  - by eapply admitted_within.
Qed.

Lemma outcome_orderly context st1 ch :
  outcome context st1 ch -> of_run context -> orderly st1 -> orderly (ch_state ch).
Proof.
  intros Ho Hrun [H1 H2 H3 H4]. pose proof (outcome_entries _ _ _ Ho) as Hp.
  destruct (outcome_slots _ _ _ Ho Hrun H3 H4). split; [| |done..].
  - by rewrite Hp.
  - by rewrite Hp.
Qed.

(** What the checks of an accepted request establish. *)
Lemma validate_start_lawful st context r :
  of_run context -> validate_start st context r = Ok None ->
  exists c, decisions (aq_decision_id r) = Some c /\ target_of c = Some (target (Start r)).
Proof.
  intros Hrun H. unfold validate_start in H. apply bind_Ok in H as (d & Hd & H).
  destruct d as [[d|d|d|d|? ? ? ?]|]; try done. apply (run_decisions _ Hrun) in Hd.
  destruct (negb _) eqn:E1 in H; [done|]. destruct (negb _) eqn:E2 in H; [done|].
  exists (C_Start d). split; [done|]. apply negb_false_iff in E2. rewrite !andb_true_iff in E2.
  destruct E2 as [[[Ha _] Hg] _]. apply pystr_eqb_true in Ha. apply Z.eqb_eq in Hg. simpl. by rewrite Ha, Hg.
Qed.

Lemma reopen_proved_lawful context r :
  of_run context -> reopen_proved context r = Ok true ->
  exists c, decisions (ao_decision_id r) = Some c /\ target_of c = Some (target (Reopen r)).
Proof.
  intros Hrun H. unfold reopen_proved in H.
  destruct (owner _ _) as [a|]; [|done]. destruct (at_closure a) as [closure|]; [|done].
  destruct (_ || _); [done|]. destruct (reopen_replayed _ _); [done|].
  apply bind_Ok in H as (d & Hd & H). destruct d as [[d|d|d|d|? ? ? ?]|]; try done.
  apply (run_decisions _ Hrun) in Hd. exists (C_Operation d). split; [done|]. injection H as [= H].
  rewrite !andb_true_iff in H. destruct H as [[_ H] _].
  destruct (op_normalized_scope_reopen d) as [n|] eqn:En; [|done]. rewrite !andb_true_iff in H.
  destruct H as [[_ H] _]. apply bool_decide_eq_true in H. simpl. by rewrite En, <- H.
Qed.

Lemma acceptable_lawful st context r :
  of_run context -> acceptable st context r -> lawful (entry_of_request r).
Proof.
  intros Hrun [Ha _ _ _ Hp]. split; [|done].
  destruct r as [r|r]; [by eapply validate_start_lawful|by eapply reopen_proved_lawful].
Qed.

(** A request that is not a replay has an attempt of its own. *)
Lemma duplicate_fresh st context r :
  duplicate st context r = None -> (target r ∉ map en_target (entries st)) /\ (r ∉ ss_queue st).
Proof.
  unfold duplicate. intros H.
  destruct (first_some _ (ss_queue st)) eqn:E1; [done|]. destruct (first_some _ (ss_slots st)) eqn:E2; [done|].
  rewrite first_some_None in E1. rewrite first_some_None in E2. unfold queued_duplicate in E1. unfold slot_duplicate in E2. split.
  - unfold entries. rewrite map_app, !map_map, elem_of_app.
    intros [(x & Hx & Hin)%elem_of_map|(x & Hx & Hin)%elem_of_map]; simpl in Hx.
    + specialize (E1 x Hin). rewrite (bool_decide_eq_true_2 (target x = target r)) in E1 by done.
      by destruct (pystr_eqb _ _).
    + specialize (E2 x Hin). by rewrite bool_decide_eq_true_2 in E2.
  - intros Hin. specialize (E1 r Hin). by rewrite pystr_eqb_refl in E1.
Qed.

Lemma end_slot_charge_same attempt admission_id ended_at s s' :
  end_slot_charge attempt admission_id ended_at s = Ok s' ->
  entry_of_slot s' = entry_of_slot s /\ sl_admitted_at s' = sl_admitted_at s
  /\ (sl_charge_ended_at s' = sl_charge_ended_at s \/ sl_charge_ended_at s' = Some ended_at).
Proof.
  unfold end_slot_charge. destruct (_ || _); [intros [= <-]; auto|]. destruct (f_lt _ _); [done|].
  intros [= <-]. auto.
Qed.

Lemma entries_Forall2 slots slots' :
  Forall2 (fun s s' => entry_of_slot s' = entry_of_slot s) slots slots' ->
  map entry_of_slot slots' = map entry_of_slot slots.
Proof. induction 1 as [|? ? ? ? E ? IH]; simpl; [done|]. by rewrite E, IH. Qed.

Lemma compatible_entries a b a' b' :
  entry_of_slot a' = entry_of_slot a -> entry_of_slot b' = entry_of_slot b -> compatible a b -> compatible a' b'.
Proof. unfold compatible, root_slot. intros [= -> -> ->] [= -> -> ->]. done. Qed.

Lemma charge_orderly st attempt admission_id ended_at slots :
  f_is_nan ended_at = false -> orderly st ->
  mapM_result (end_slot_charge attempt admission_id ended_at) (ss_slots st) = Ok slots ->
  orderly (st <| ss_slots := slots |>).
Proof.
  intros Hnan [H1 H2 H3 [H4 H5]] Hm. apply mapM_result_inv in Hm.
  assert (He : Forall2 (fun s s' => entry_of_slot s' = entry_of_slot s) (ss_slots st) slots).
  { eapply Forall2_impl; [exact Hm|]. by intros s s' (? & _)%end_slot_charge_same. }
  assert (Hent : entries (st <| ss_slots := slots |>) = entries st).
  { unfold entries. simpl. by rewrite (entries_Forall2 _ _ He). }
  split; rewrite ?Hent; try done; simpl.
  - clear -Hm H3 Hnan. induction Hm as [|s s' l l' Hs Hl IH]; [constructor|].
    inversion H3 as [|? ? [Ha Hb] Hr]; subst. constructor; [|by apply IH].
    apply end_slot_charge_same in Hs as (_ & E1 & E2). split; [by rewrite E1|].
    destruct E2 as [->| ->]; done.
  - split; [by rewrite <- (Forall2_length _ _ _ He)|].
    eapply FOP_Forall2; [|exact He|exact H5]. intros a b a' b' ? ?. by apply compatible_entries.
Qed.

Lemma filter_orderly st keep_request keep_slot seconds :
  orderly st ->
  orderly (mk_SchedulingState (List.filter keep_request (ss_queue st)) (List.filter keep_slot (ss_slots st))
             (ss_admission_closed st) seconds).
Proof.
  intros [H1 H2 H3 [H4 H5]].
  assert (Hsub : sublist (map entry_of_request (List.filter keep_request (ss_queue st))
                          ++ map entry_of_slot (List.filter keep_slot (ss_slots st))) (entries st))
    by (apply sublist_app; apply sublist_map, sublist_List_filter).
  split; unfold entries; simpl.
  - eapply sublist_NoDup; [exact H1|]. by apply sublist_map.
  - by eapply sublist_Forall.
  - eapply sublist_Forall; [apply sublist_List_filter|done].
  - split; [|by apply FOP_filter].
    pose proof (sublist_length _ _ (sublist_List_filter keep_slot (ss_slots st))). lia.
Qed.

Lemma prepared_orderly st context event st1 :
  of_run context -> well_timed event -> orderly st -> prepared st context event st1 -> orderly st1.
Proof.
  intros Hrun Ht Hst Hp. destruct Hp as [event closed _|event r _ Ha|a i|a i ended_at slots Hm|a i slot _].
  - by destruct Hst.
  - pose proof (acceptable_lawful _ _ _ Hrun Ha) as Hl.
    apply ac_new, duplicate_fresh in Ha as [Hnew _].
    assert (Hperm : entries (st <| ss_queue := ss_queue st ++ [r] |>) ≡ₚ entry_of_request r :: entries st).
    { unfold entries. simpl. rewrite map_app, <- app_assoc. symmetry. apply Permutation_middle. }
    destruct Hst as [H1 H2 H3 H4]. split; [| |done..].
    + rewrite Hperm. by constructor.
    + rewrite Hperm. by constructor.
  - pose proof (filter_orderly _ (fun r => negb (retired_entry a i r)) (fun _ => true)
      (ss_released_slot_seconds st) Hst) as H. by rewrite List_filter_true in H.
  - by eapply charge_orderly.
  - pose proof (filter_orderly _ (fun _ => true) (fun held => negb (slot_eqb held slot))
      (f_add (ss_released_slot_seconds st) (episode_seconds (ru_now_at (cx_run context)) slot)) Hst) as H.
    by rewrite List_filter_true in H.
Qed.

Lemma schedule_orderly st context event ch :
  of_run context -> well_timed event -> orderly st -> schedule st context event = Ok ch -> orderly (ch_state ch).
Proof.
  intros Hrun Ht Hst (st1 & Hp & Ho)%schedule_prepared.
  eapply outcome_orderly; [done..|]. by eapply prepared_orderly.
Qed.

Lemma scheduled_orderly st : scheduled st -> orderly st.
Proof.
  induction 1 as [Hmax|st context event ch _ IH Hrun Ht H]; [|by eapply schedule_orderly].
  split; simpl; [constructor..|]. split; [done|constructor].
Qed.

(** ** What is occupied *)

(** Any two slots of a reachable state are compatible. *)
Lemma slots_compatible st i j a b :
  scheduled st -> i <> j -> ss_slots st !! i = Some a -> ss_slots st !! j = Some b -> compatible a b.
Proof.
  intros [_ _ _ [_ Hpairs]]%scheduled_orderly Hij Ha Hb.
  assert (Hlt : forall i j a b, (i < j)%nat -> ss_slots st !! i = Some a -> ss_slots st !! j = Some b ->
    compatible a b).
  { clear i j a b Hij Ha Hb. intros i j a b Hij Ha Hb. apply list_elem_of_split_length in Ha as (l1 & l2 & Hl & Hi).
    rewrite Hl in Hpairs, Hb. apply FOP_app in Hpairs as (_ & Hp & _).
    inversion Hp as [|? ? Hx _]; subst. rewrite Forall_forall in Hx. apply Hx.
    rewrite lookup_app_r in Hb by lia. destruct (j - length l1)%nat as [|k] eqn:Ek; [lia|].
    by eapply list_elem_of_lookup_2. }
  destruct (Nat.lt_gt_cases i j) as [[H|H] _]; [done|by apply (Hlt i j)|].
  destruct (Hlt j i b a H Hb Ha) as (H1 & H2 & H3). split; [congruence|]. split; [naive_solver|].
  by rewrite andb_comm.
Qed.

(** Every pool is held exclusively, also one the run's limits give a larger capacity: the limits'
    [pool_capacities] are not read by the gate. *)
Lemma pools_held_once st i j a b p :
  scheduled st -> i <> j -> ss_slots st !! i = Some a -> ss_slots st !! j = Some b ->
  p ∈ sl_pools a -> p ∉ sl_pools b.
Proof. intros Hst Hij Ha Hb. destruct (slots_compatible st i j a b Hst Hij Ha Hb) as (_ & H & _). apply H. Qed.

(** C14. Occupied capacity stays within the run's limits. Whatever events arrive in whatever order
    (starts, reopenings, releases, retirements, clock ticks, pauses, stops), at most [max_parallel]
    slots are held, no attempt holds two of them, and at most one holder works in the run's root. *)
Theorem capacity_kept st :
  scheduled st ->
  Z.of_nat (length (ss_slots st)) <= max
  /\ forall i j a b, i <> j -> ss_slots st !! i = Some a -> ss_slots st !! j = Some b ->
     ar_attempt_id (sl_attempt a) <> ar_attempt_id (sl_attempt b)
     /\ (root_slot a = true -> root_slot b = false).
Proof.
  intros Hst. split; [by apply scheduled_orderly in Hst as [_ _ _ [? _]]|].
  intros i j a b Hij Ha Hb. destruct (slots_compatible st i j a b Hst Hij Ha Hb) as (H1 & _ & H3).
  split; [done|]. intros Hr. by rewrite Hr in H3.
Qed.

(** ** The order of admission *)

(** The request an event adds to the queue, and those it takes out of it unadmitted. *)
Definition arrivals (st : SchedulingState) (event : SchedulingEvent) (ch : AreaChange SchedulingState)
  : list AdmissionRequest :=
  match request_of event with
  | Some r =>
    if bool_decide (r ∈ ss_queue st) then []
    else if bool_decide (r ∈ admits (ch_signals ch) ++ ss_queue (ch_state ch)) then [r] else []
  | None => []
  end.
Definition retired (event : SchedulingEvent) (r : AdmissionRequest) : bool :=
  match event with QueueEntryRetired attempt admission_id => retired_entry attempt admission_id r | _ => false end.

(** A run of the area with what arrived, what was admitted and what was retired, each in order. *)
Inductive ran : list AdmissionRequest -> list AdmissionRequest -> list AdmissionRequest ->
                SchedulingState -> Prop :=
| ran_start : ran [] [] [] (mk_SchedulingState [] [] false f_zero)
| ran_step arrived admitted gone st context event ch :
    ran arrived admitted gone st -> of_run context -> well_timed event ->
    schedule st context event = Ok ch ->
    ran (arrived ++ arrivals st event ch) (admitted ++ admits (ch_signals ch))
        (gone ++ List.filter (retired event) (ss_queue st)) (ch_state ch).

Lemma outcome_queue context st1 ch :
  outcome context st1 ch -> ss_queue st1 = admits (ch_signals ch) ++ ss_queue (ch_state ch).
Proof.
  intros [[<- ->]|(registering & b & filled & Hf & -> & -> & _)]; [done|]. by apply fill_admits in Hf as (? & _).
Qed.

(** One event: what stays queued and what arrives is what is admitted and what waits, in order. *)
Lemma schedule_queue st context event ch :
  schedule st context event = Ok ch ->
  List.filter (fun r => negb (retired event r)) (ss_queue st) ++ arrivals st event ch
  = admits (ch_signals ch) ++ ss_queue (ch_state ch).
Proof.
  intros (st1 & Hp & Ho)%schedule_prepared. apply outcome_queue in Ho. unfold arrivals.
  destruct Hp as [event closed Hev|event r Hr Ha|a i|a i ended_at slots _|a i slot _]; simpl in Ho; simpl;
    try (by rewrite List_filter_true, app_nil_r).
  - rewrite (List_filter_ext _ (fun _ => true)) by (intros r; by destruct event).
    rewrite List_filter_true, <- Ho. destruct (request_of event) as [r|]; [|by rewrite app_nil_r].
    by case_bool_decide; rewrite app_nil_r.
  - rewrite Hr, <- Ho. apply ac_new, duplicate_fresh in Ha as [_ Hnew].
    rewrite (bool_decide_eq_false_2 _ Hnew), bool_decide_eq_true_2 by set_solver.
    f_equal. rewrite (List_filter_ext _ (fun _ => true)), List_filter_true; [done|].
    intros x. by destruct event.
  - by rewrite app_nil_r.
Qed.

Lemma filter_partition {A} (p : A -> bool) l :
  l ≡ₚ List.filter (fun x => negb (p x)) l ++ List.filter p l.
Proof.
  induction l as [|x l IH]; simpl; [done|]. destruct (p x); simpl; [|by constructor].
  rewrite <- Permutation_middle. by constructor.
Qed.

(** C15. Admission is first-in first-out over a whole run. What was admitted, followed by what still
    waits, is what arrived in the order it arrived, less the requests whose retirement was
    acknowledged; and nothing is lost or invented: each arrival was admitted, waits, or was
    retired. *)
Theorem admissions_in_arrival_order arrived admitted gone st :
  ran arrived admitted gone st ->
  sublist (admitted ++ ss_queue st) arrived /\ arrived ≡ₚ admitted ++ ss_queue st ++ gone.
Proof.
  induction 1 as [|arrived admitted gone st context event ch _ [IH1 IH2] Hrun Ht H]; simpl; [done|].
  apply schedule_queue in H as Hq. split.
  - rewrite <- app_assoc, <- Hq, app_assoc. apply sublist_app; [|done].
    transitivity (admitted ++ ss_queue st); [|done]. apply sublist_app; [done|apply sublist_List_filter].
  - rewrite IH2. rewrite (filter_partition (retired event) (ss_queue st)) at 1.
    transitivity (admitted ++ (List.filter (fun r => negb (retired event r)) (ss_queue st) ++ arrivals st event ch)
                  ++ gone ++ List.filter (retired event) (ss_queue st)).
    + rewrite <- !app_assoc. apply Permutation_app_head, Permutation_app_head.
      rewrite (Permutation_app_comm (arrivals st event ch)), <- !app_assoc.
      rewrite (Permutation_app_comm (List.filter (retired event) (ss_queue st)) (gone ++ _)).
      rewrite <- !app_assoc. apply Permutation_app_head, Permutation_app_comm.
    + by rewrite Hq, <- !app_assoc.
Qed.

(** ** Progress *)

(** The events after which admission is tried again whatever else they do. *)
Definition refills (st : SchedulingState) (event : SchedulingEvent) : bool :=
  match event with
  | SlotReleased attempt admission_id => existsb (holds_episode attempt admission_id) (ss_slots st)
  | QueueEntryRetired _ _ | ClockAdvanced _ | AdoptionFenceLifted => true
  | _ => false
  end.

Lemma no_drained_signal_due context now_at :
  RunDrained ∉ [ObservationsDue now_at] ++ due_retries (cx_records context) now_at
    ++ overdue_reconciliations (cx_records context) (cx_evaluation context) (cx_run context).
Proof.
  unfold overdue_reconciliations, due_retries. rewrite !elem_of_app.
  intros [H|[H|[H|H]]]; [set_solver| |by apply elem_of_map in H as (? & ? & _)..].
  apply list_elem_of_In, in_concat in H as (l & Hl & H). apply list_elem_of_In, elem_of_map in Hl as (x & -> & _).
  by repeat case_match; destruct H.
Qed.

(** Such an event fills some state, and announces a drained run when the filling does. *)
Lemma refill st context event ch :
  refills st event = true -> schedule st context event = Ok ch ->
  exists st1 b filled,
    fill st1 context None b = Ok filled /\ ch_state ch = ch_state filled
    /\ admits (ch_signals ch) = admits (ch_signals filled)
    /\ (RunDrained ∈ ch_signals ch <-> RunDrained ∈ ch_signals filled)
    /\ ss_admission_closed st1 = ss_admission_closed st
    /\ (forall now_at, event = ClockAdvanced now_at -> st1 = st).
Proof.
  destruct event; simpl; intros Hr H; try done.
  - unfold release in H. apply existsb_find in Hr as [slot Hr]. rewrite Hr in H.
    by do 3 eexists.
  - by do 3 eexists.
  - destruct (f_lt _ _); [done|]. apply bind_Ok in H as (filled & Hf & [= <-]).
    exists st, true, filled. simpl. split_and!; try done.
    + rewrite admits_app, (admits_app [_] _ : admits (_ :: _) = _), due_admit_nothing. apply app_nil_r.
    + rewrite elem_of_app. split; [|by left]. intros [?|Hd]; [done|]. by apply no_drained_signal_due in Hd.
  - by do 3 eexists.
Qed.

(** Admission is greedy and starves nobody. On every tick of the clock the area admits the
    longest prefix of the queue whose members are each admissible in their turn, and what is left
    waits for a reason: the run accepts nothing, the head's authority is not proved, or the head
    does not fit what is occupied. In particular, when nothing is occupied the first proved request
    of an accepting run is admitted, unless it wants the root while an adoption fences it. *)
Theorem admission_is_greedy st context now_at ch :
  schedule st context (ClockAdvanced now_at) = Ok ch ->
  let rs := admits (ch_signals ch) in
  ss_queue st = rs ++ ss_queue (ch_state ch)
  /\ ss_slots (ch_state ch) = ss_slots st ++ map (slot_of (cx_run context)) rs
  /\ admitted_in_turn context None (ss_slots st) rs
  /\ match ss_queue (ch_state ch) with
     | [] => True | r :: _ => waits context None (ss_slots (ch_state ch)) r end
  /\ (forall r rest m,
        ss_queue st = r :: rest -> ss_slots st = [] -> 1 <= li_max_parallel (ru_limits (cx_run context)) ->
        accepting context = Ok true -> admission_proved st context r None = Ok true ->
        mode context (target r) (rq_decision_id r) = Ok m ->
        m <> EXCLUSIVE_ROOT \/ fences_root_mutation (cx_adoption context) (cx_records context) = false ->
        exists rs', rs = r :: rs').
Proof.
  intros H. apply refill in H as (st1 & b & filled & Hf & -> & -> & _ & _ & E); [|done].
  specialize (E _ eq_refl). subst st1. apply fill_admits in Hf as (H1 & H2 & H3 & H4). split_and!; [done..|].
  intros r rest m Hq Hs Hmax Hacc Hproved Hm Hroot. rewrite Hq in H1.
  destruct (admits (ch_signals filled)) as [|r' rs']; simpl in H1; [exfalso|injection H1 as [= <- _]; by exists rs'].
  rewrite <- H1 in H4. destruct H4 as [H4|[H4|H4]].
  - congruence.
  - specialize (H4 st). congruence.
  - specialize (H4 (ch_state filled) eq_refl). unfold fits in H4. rewrite H2, Hs in H4. simpl in H4.
    destruct (Z.leb_spec (li_max_parallel (ru_limits (cx_run context))) (Z.of_nat 0)) as [?|_]; [lia|].
    rewrite Hm in H4. simpl in H4. destruct Hroot as [Hr|Hr].
    + by rewrite bool_decide_eq_false_2 in H4.
    + rewrite Hr in H4. by destruct (negb _).
Qed.

(** ** Releases and the end of a run *)

Lemma slot_eqb_refl s : timed s -> slot_eqb s s = true.
Proof.
  intros [H1 H2]. unfold slot_eqb. rewrite !bool_decide_eq_true_2, pystr_eqb_refl by done. simpl.
  assert (Heq : forall x, f_is_nan x = false -> f_eq x x = true).
  { intros x Hx. pose proof (f_le_refl x Hx) as Hle. pose proof (f_lt_irrefl x) as Hlt.
    unfold f_le, f_lt, f_eq, SpecFloat.SFleb, SpecFloat.SFltb, SpecFloat.SFeqb in *.
    by destruct (SpecFloat.SFcompare x x) as [[]|]. }
  rewrite Heq by done. destruct (sl_charge_ended_at s); simpl; [by rewrite Heq|done].
Qed.

Lemma slot_eqb_attempt a b : slot_eqb a b = true -> sl_attempt a = sl_attempt b.
Proof. unfold slot_eqb. rewrite !andb_true_iff. intros [[[[H _] _] _] _]. by apply bool_decide_eq_true in H. Qed.

(** The attempt of a held slot is held nowhere else, and not queued. *)
Lemma slot_alone st l1 slot l2 :
  orderly st -> ss_slots st = l1 ++ slot :: l2 ->
  (forall s, s ∈ l1 ++ l2 -> sl_attempt s <> sl_attempt slot)
  /\ (forall r, r ∈ ss_queue st -> target r <> sl_attempt slot).
Proof.
  intros [Hnd _ _ _] Hs. unfold entries in Hnd. rewrite Hs, !map_app, !map_map in Hnd. simpl in Hnd.
  apply NoDup_app in Hnd as (_ & Hq & Hnd).
  apply NoDup_app in Hnd as (_ & Hl1 & Hnd). apply NoDup_cons in Hnd as [Hl2 _]. split.
  - intros s [Hin|Hin]%elem_of_app E.
    + apply (Hl1 (sl_attempt slot)); [|set_solver]. rewrite <- E. by apply (elem_of_map_1 (fun x => sl_attempt x)).
    + apply Hl2. rewrite <- E. by apply (elem_of_map_1 (fun x => sl_attempt x)).
  - intros r Hr E. apply (Hq (target r)); [by apply (elem_of_map_1 (fun x => target x))|].
    rewrite E. set_solver.
Qed.

(** An occupancy episode is released once and accounted once. The release of a held episode
    removes exactly its slot, adds its interval (to the end of its charge, or to now while it is
    charged) to the accounted seconds, and only then admits waiting requests; a second report of
    the same release, whenever it arrives, changes nothing and asks nothing. *)
Theorem released_once st context attempt admission_id slot ch :
  scheduled st -> of_run context ->
  find (holds_episode attempt admission_id) (ss_slots st) = Some slot ->
  schedule st context (SlotReleased attempt admission_id) = Ok ch ->
  exists l1 l2,
    ss_slots st = l1 ++ slot :: l2
    /\ ss_slots (ch_state ch) = l1 ++ l2 ++ map (slot_of (cx_run context)) (admits (ch_signals ch))
    /\ ss_released_slot_seconds (ch_state ch)
       = f_add (ss_released_slot_seconds st) (episode_seconds (ru_now_at (cx_run context)) slot)
    /\ forall later, schedule (ch_state ch) later (SlotReleased attempt admission_id)
                     = Ok (mk_AreaChange (ch_state ch) [] []).
Proof.
  intros Hst%scheduled_orderly Hrun Hfind H. simpl in H. unfold release in H. rewrite Hfind in H.
  apply find_split in Hfind as (Hep & l1 & l2 & Hs).
  destruct (slot_alone _ _ _ _ Hst Hs) as [Hl Hq].
  assert (Hslots : List.filter (fun held => negb (slot_eqb held slot)) (ss_slots st) = l1 ++ l2).
  { assert (Hne : forall s, s ∈ l1 ++ l2 -> negb (slot_eqb s slot) = true).
    { intros s Hin. apply negb_true_iff, not_true_iff_false. intros E%slot_eqb_attempt. by apply (Hl s). }
    rewrite Hs, List.filter_app. simpl. rewrite slot_eqb_refl; simpl.
    - rewrite !List_filter_all; [done|intros; apply Hne; set_solver..].
    - apply (proj1 (Forall_forall _ _) (ord_timed _ Hst)). rewrite Hs. set_solver. }
  apply fill_spec in H as Hspec. destruct Hspec as (_ & _ & _ & _ & _ & _ & Hsec & _).
  apply fill_admits in H as (H1 & H2 & _ & _). simpl in H1, H2, Hsec. rewrite Hslots in H2.
  exists l1, l2. split_and!; [done|by rewrite H2, <- app_assoc|done|].
  intros later. simpl. unfold release.
  destruct (find _ (ss_slots (ch_state ch))) as [s|] eqn:Hf; [exfalso|done].
  apply find_Some_elem in Hf as [Hin Hs']. unfold holds_episode in Hep, Hs'.
  apply andb_true_iff in Hep as [Hep%bool_decide_eq_true _]. apply andb_true_iff in Hs' as [Hs'%bool_decide_eq_true _].
  rewrite H2, elem_of_app in Hin. destruct Hin as [Hin|Hin].
  - apply (Hl s); [done|congruence].
  - apply elem_of_map in Hin as (r & -> & Hr). apply (Hq r); [|simpl in Hs'; congruence].
    rewrite H1. set_solver.
Qed.

Lemma length_entries st : length (entries st) = (length (ss_queue st) + length (ss_slots st))%nat.
Proof. unfold entries. by rewrite length_app, !length_map. Qed.

(** What an event removes from what a run still owes. *)
Definition removes (st : SchedulingState) (event : SchedulingEvent) : Prop :=
  match event with
  | QueueEntryRetired attempt admission_id =>
    exists r, r ∈ ss_queue st /\ retired_entry attempt admission_id r = true
  | SlotReleased attempt admission_id =>
    exists s, s ∈ ss_slots st /\ holds_episode attempt admission_id s = true
  | _ => False
  end.

Lemma prepared_closing st context event st1 :
  ru_status (cx_run context) = CLOSING -> Forall timed (ss_slots st) -> prepared st context event st1 ->
  (length (entries st1) <= length (entries st))%nat
  /\ (removes st event -> (length (entries st1) < length (entries st))%nat).
Proof.
  intros Hc Ht Hp. rewrite !length_entries.
  destruct Hp as [event closed Hev|event r _ Ha|a i|a i ended_at slots Hm|a i slot Hf]; simpl.
  - split; [done|]. destruct event; simpl in *; try done.
    intros (s & Hs & Hh). apply not_true_iff_false in Hev. destruct Hev. apply existsb_exists.
    exists s. by split; [apply list_elem_of_In|].
  - exfalso. apply ac_open in Ha. unfold intake_closed in Ha. by rewrite Hc, orb_true_r in Ha.
  - pose proof (sublist_length _ _ (sublist_List_filter (fun r => negb (retired_entry a i r)) (ss_queue st))).
    split; [lia|]. intros (r & Hr & Hr').
    pose proof (length_List_filter (fun r => negb (retired_entry a i r)) (ss_queue st) r Hr) as Hlt.
    simpl in Hlt. rewrite Hr' in Hlt. specialize (Hlt eq_refl). lia.
  - apply mapM_result_inv, Forall2_length in Hm. split; [lia|done].
  - pose proof (sublist_length _ _ (sublist_List_filter (fun held => negb (slot_eqb held slot)) (ss_slots st))).
    split; [lia|]. intros _. apply find_split in Hf as (_ & l1 & l2 & Hs).
    assert (Hin : slot ∈ ss_slots st) by (rewrite Hs; set_solver).
    pose proof (length_List_filter (fun held => negb (slot_eqb held slot)) (ss_slots st) slot Hin) as Hlt.
    simpl in Hlt. rewrite slot_eqb_refl in Hlt by (by apply (proj1 (Forall_forall _ _) Ht)). specialize (Hlt eq_refl). lia.
Qed.

Lemma fill_drained st context b filled :
  fill st context None b = Ok filled ->
  RunDrained ∈ ch_signals filled <->
  ss_admission_closed st = true /\ ss_queue (ch_state filled) = [] /\ ss_slots (ch_state filled) = []
  /\ ru_status (cx_run context) = CLOSING /\ exists stop, first_stop context = Ok (Some stop).
Proof.
  intros H. apply fill_spec in H as (rs & retirements & drained & _ & _ & _ & _ & _ & _ & Hr & -> & <- & _).
  assert (Hnr : RunDrained ∉ retirements).
  { destruct b; [|injection Hr as [= <-]; set_solver]. unfold deadline_retirements in Hr.
    destruct (before_deadline _); [injection Hr as [= <-]; set_solver|].
    apply bind_Ok in Hr as (running & _ & Hr). destruct running; [|injection Hr as [= <-]; set_solver].
    apply bind_Ok in Hr as (expired & _ & [= <-]). by intros (? & ? & _)%elem_of_map. }
  rewrite !elem_of_app. split.
  - intros [?|[(? & ? & _)%elem_of_map|?]]; [done|done|]. by destruct drained; [|set_solver].
  - intros ->. right. right. set_solver.
Qed.

(** C37. A stop drains. While the run is closing nothing new is taken in, so what is queued or held
    never grows; each release of a held episode and each retirement of a queued one takes it away;
    and the event after which nothing is left announces, under a committed stop, that the run is
    drained, and no earlier one does. *)
Theorem stop_drains st context event ch :
  scheduled st -> of_run context -> ru_status (cx_run context) = CLOSING ->
  schedule st context event = Ok ch ->
  (length (entries (ch_state ch)) <= length (entries st))%nat
  /\ (removes st event -> (length (entries (ch_state ch)) < length (entries st))%nat)
  /\ (refills st event = true -> ss_admission_closed st = true ->
      (exists stop, first_stop context = Ok (Some stop)) ->
      RunDrained ∈ ch_signals ch <-> entries (ch_state ch) = []).
Proof.
  intros Hst%scheduled_orderly Hrun Hc H.
  apply schedule_prepared in H as Hp. destruct Hp as (st1 & Hp & Ho).
  destruct (prepared_closing _ _ _ _ Hc (ord_timed _ Hst) Hp) as [Hle Hlt].
  rewrite (Permutation_length (outcome_entries _ _ _ Ho)). split_and!; [done..|].
  intros Hre Hclosed Hstop.
  destruct (refill _ _ _ _ Hre H) as (st2 & b & filled & Hf & -> & _ & Hd & Hcl & _).
  rewrite Hd, (fill_drained _ _ _ _ Hf), Hcl. unfold entries. split.
  - intros (_ & -> & -> & _). done.
  - intros [H1 H2]%app_eq_nil. apply map_eq_nil in H1. apply map_eq_nil in H2. done.
Qed.

End Runs.
