(* ===== verification/Attempts.v ===== *)
(** What the attempts area of vs-core does with an admission (src/libs/vs-core,
    _attempt_acquisition.py), and how the kernel hands it over (_step.py): a queued start is
    registered under its admission charge, and an admitted one acquires its workspace. Modelled for
    starts; reopenings, sessions and everything after acquisition belong to other leaves. *)
From S2P Require Import Prelude Floats CoreValues CoreProofs WaitClock Scheduling.

(** ** Events, requests and answers *)

(** The payload of [AttemptRegistered] and of [AttemptAdmitted]. *)
Record Registration := mk_Registration {
  rg_request : AttemptRequest;
  rg_workspace : WorkspacePlan;
  rg_budget : AttemptBudget;
  rg_initial_sessions : list SessionSpec
}.

Inductive AttemptsEvent :=
| AttemptRegistered (r : Registration)
| AttemptAdmitted (admission_id : DecisionId) (r : Registration).
Definition registration_of (event : AttemptsEvent) : Registration :=
  match event with AttemptRegistered r => r | AttemptAdmitted _ r => r end.

Inductive AttemptsSignal :=
| S_Retire (r : RetireRequest)
| S_AcquireSessions (attempt : AttemptRef) (admission_id : DecisionId) (scope : Scope)
    (specs : list SessionSpec).

Record AttemptsChange := mk_AttemptsChange {
  tc_state : list AttemptView;
  tc_signals : list AttemptsSignal;
  tc_requests : list Outbound
}.

(** [AttemptsContext]: what these operations read of the other areas. *)
Record AttemptsContext := mk_AttemptsContext {
  tx_run : RunState;
  tx_slots : list Slot;
  tx_records : RecordsState;
  tx_adoption : option Adoption
}.

Section Attempts.
Context {digests : Digests}.

(** ** Identities *)

(** [f"{len(s)}:{s}"]. *)
Definition counted (s : pystr) : pystr := int_str (Z.of_nat (length s)) ++ py ":" ++ s.
Definition episode_text (admission_id : option DecisionId) : pystr :=
  match admission_id with Some i => py "id:" ++ i | None => py "none" end.
Definition identity_text (attempt : AttemptView) (purpose : pystr) : pystr :=
  py "attempt:" ++ counted (at_attempt_id attempt) ++ py ":" ++ int_str (at_generation attempt) ++ py ":"
  ++ counted (episode_text (at_admission_id attempt)) ++ py ":" ++ counted purpose.

Definition closed (attempt : AttemptView) : bool :=
  match current_closure (Some attempt) (at_closure attempt) with Proven _ => true | _ => false end.

Definition find_attempt (state : list AttemptView) (ref : AttemptRef) : option AttemptView :=
  find (fun a => bool_decide (attempt_ref a = ref)) state.
Definition replace_attempt (state : list AttemptView) (attempt : AttemptView) : list AttemptView :=
  map (fun previous => if bool_decide (attempt_ref previous = attempt_ref attempt) then attempt else previous)
    state.

(** ** Registration *)

Definition ref_of (r : AttemptRequest) : AttemptRef := mk_AttemptRef (aq_attempt_id r) (aq_generation r).
Definition admission_charge_id (decision_id : DecisionId) : ChargeId := py "admission:" ++ decision_id.

(** A parked predecessor proves the revision the new attempt starts from. *)
Definition predecessor_proved (state : list AttemptView) (workspace : WorkspacePlan) : bool :=
  match wp_parked_predecessor workspace with
  | None => true
  | Some predecessor =>
    match find_attempt state predecessor with
    | None => false
    | Some parent =>
      bool_decide (at_phase parent = PH_PARKED)
      && match at_closure parent with
         | Some c => bool_decide (cl_disposition c = PARK)
         | None => false
         end
      && bool_decide (checkpoint parent = Some (wp_base workspace))
      && bool_decide (at_pending_records parent = []) && bool_decide (at_release_dependencies parent = [])
    end
  end.

(** The row a start is registered with. *)
Definition registered_row (event : Registration) : AttemptView :=
  let request := rg_request event in
  mk_AttemptView (aq_attempt_id request) (aq_item_id request) (aq_generation request) PH_QUEUED
    (rg_workspace event) (rg_budget event) None None []
    [mk_ChargeReceipt (admission_charge_id (aq_decision_id request)) ADMISSION (aq_admission_charge request) 0 [] None]
    (wp_parked_predecessor (rg_workspace event)) [] (map sp_session_id (rg_initial_sessions event)) [].

(** The registration already made for the same start. *)
Definition same_registration (previous : AttemptView) (event : Registration) : bool :=
  let request := rg_request event in
  pystr_eqb (at_item_id previous) (aq_item_id request)
  && bool_decide (at_workspace previous = rg_workspace event)
  && bool_decide (at_budget previous = rg_budget event)
  && bool_decide (at_sessions previous = map sp_session_id (rg_initial_sessions event))
  && existsb (fun c => pystr_eqb (cg_charge_id c) (admission_charge_id (aq_decision_id request))
                       && (cg_charged c =? aq_admission_charge request)) (at_charges previous).

Definition register (state : list AttemptView) (event : Registration) : result AttemptView :=
  let request := rg_request event in
  raise (ContractValidationError "initial_sessions" "duplicate session identity")
    when (negb (nodupb (map sp_session_id (rg_initial_sessions event)))) in
  match find_attempt state (ref_of request) with
  | Some previous =>
    raise (ContractValidationError "attempt_id" "conflicting attempt registration")
      when (negb (same_registration previous event)) in
    Ok previous
  | None =>
    raise (ContractValidationError "generation" "attempt identity already registered")
      when (existsb (fun row => pystr_eqb (at_attempt_id row) (aq_attempt_id request)) state) in
    raise (ContractValidationError "admission_charge" "request and budget disagree")
      when (negb (aq_admission_charge request =? ab_admission_charge (rg_budget event))) in
    raise (ContractValidationError "parked_predecessor" "parked checkpoint proof required")
      when (negb (predecessor_proved state (rg_workspace event))) in
    Ok (registered_row event)
  end.

(** [_registered]: the row added unless its attempt is there already. *)
Definition registered (state : list AttemptView) (attempt : AttemptView) : list AttemptView :=
  match find_attempt state (attempt_ref attempt) with Some _ => state | None => state ++ [attempt] end.

Definition canonical_initial_specs (context : AttemptsContext) (event : Registration)
  : result (Verdict DecisionReceipt) :=
  let run := tx_run context in
  let request := rg_request event in
  match List.filter (has_decision_id (aq_decision_id request)) (ru_receipts run) with
  | [receipt] =>
    match dr_decision receipt with
    | Some (C_Start decision) =>
      let canonical :=
        mk_StartAttempt (sa_decision_id decision) (mk_Scope (RunOwner (ru_run_id run)) (ru_generation run))
          (aq_attempt_id request) (aq_item_id request) (rg_workspace event) (rg_budget event)
          (rg_initial_sessions event) in
      if negb (aq_generation request =? sc_generation (sa_scope decision)) then Ok (Mismatch PF_GENERATION) else
      if negb (aq_admission_charge request =? ab_admission_charge (rg_budget event))
      then Ok (Mismatch PF_PAYLOAD) else
      accepted_receipt_for (ru_receipts run) (Some (aq_decision_id request)) (Some (C_Start canonical))
    | _ => Ok (Missing ABSENT_RECEIPT)
    end
  | _ => Ok (Missing ABSENT_RECEIPT)
  end.

Definition registration_authority (state : list AttemptView) (context : AttemptsContext) (event : Registration)
  : result bool :=
  let* proof := canonical_initial_specs context event in
  match proof with
  | Proven _ =>
    Ok (is_Some_b (find_attempt state (ref_of (rg_request event)))
        || (aq_admission_charge (rg_request event)
            <=? admission_remaining state (li_max_attempts (ru_limits (tx_run context))) 0))
  | _ => Ok false
  end.

(** ** Acquisition *)

Definition root_conflict (state : list AttemptView) (context : AttemptsContext) (attempt : AttemptView) : bool :=
  bool_decide (wp_mode (at_workspace attempt) = EXCLUSIVE_ROOT)
  && (fences_root_mutation (tx_adoption context) (tx_records context)
      || existsb (fun other =>
           negb (bool_decide (attempt_ref other = attempt_ref attempt))
           && bool_decide (wp_mode (at_workspace other) = EXCLUSIVE_ROOT)
           && (negb (match at_phase other with PH_QUEUED | PH_TERMINAL | PH_PARKED => true | _ => false end)
               || negb (bool_decide (at_release_dependencies other = []))
               || negb (bool_decide (at_pending_records other = [])))) state).

Definition cancel_admission (authority : string) (attempt : AttemptView) (context : AttemptsContext)
    (admission_id : DecisionId) : AttemptsSignal :=
  S_Retire (mk_RetireRequest (attempt_ref attempt) CANCEL (py authority ++ admission_id) admission_id
              (ru_now_at (tx_run context))).

(** [limit_to(run, run.deadline_at)]: what the run has left, never negative. *)
Definition time_left (run : RunState) : Seconds := max2 (f_sub (ru_deadline_at run) (ru_now_at run)) f_zero.

Definition acquiring (attempt : AttemptView) (admission_id : DecisionId) (sessions : list SessionSpec)
  : AttemptView :=
  let attempt := attempt <| at_phase := PH_ACQUIRING |> <| at_admission_id := Some admission_id |> in
  attempt <| at_pending_records := at_pending_records attempt ++ [identity_text attempt (py "workspace")] |>
          <| at_sessions := map sp_session_id sessions |>.

(** [_within_run(context, EnsureWorkspace(...))]. *)
Definition ensure_workspace (context : AttemptsContext) (attempt : AttemptView) : Outbound :=
  mk_Outbound
    (mk_Request (Some (identity_text attempt (py "workspace"))) (attempt_scope attempt) [] None
       (at_admission_id attempt) (EnsureWorkspace (attempt_ref attempt) (at_workspace attempt)))
    (Within (time_left (tx_run context)) []).

Definition admit_attempt (state : list AttemptView) (context : AttemptsContext) (admission_id : DecisionId)
    (event : Registration) : result AttemptsChange :=
  let run := tx_run context in
  let* attempt := register state event in
  if negb (bool_decide (at_phase attempt = PH_QUEUED)) || closed attempt
  then Ok (mk_AttemptsChange state [] []) else
  raise (ContractValidationError "admission_id" "initial admission must match registration")
    when (negb (pystr_eqb admission_id (aq_decision_id (rg_request event)))) in
  match occupied_episode (tx_slots context) (Start (rg_request event)) with
  | Proven _ =>
    let* going := if bool_decide (ru_status run = RUNNING) then Ok true else draining run in
    if negb going || f_ge (ru_now_at run) (ru_deadline_at run) then
      Ok (mk_AttemptsChange (registered state attempt)
            [cancel_admission "admission-closed:" attempt context admission_id] [])
    else if root_conflict state context attempt then
      Ok (mk_AttemptsChange (registered state attempt)
            [cancel_admission "root-conflict:" attempt context admission_id] [])
    else
      let attempt := acquiring attempt admission_id (rg_initial_sessions event) in
      Ok (mk_AttemptsChange (replace_attempt (registered state attempt) attempt)
            (match rg_initial_sessions event with
             | [] => []
             | specs => [S_AcquireSessions (attempt_ref attempt) admission_id (attempt_scope attempt) specs]
             end)
            [ensure_workspace context attempt])
  | _ => Ok (mk_AttemptsChange state [] [])
  end.

Definition advance_registration (state : list AttemptView) (context : AttemptsContext) (event : AttemptsEvent)
  : result AttemptsChange :=
  let* authority := registration_authority state context (registration_of event) in
  if negb authority then Ok (mk_AttemptsChange state [] []) else
  match event with
  | AttemptRegistered r =>
    let* attempt := register state r in
    Ok (mk_AttemptsChange (registered state attempt) [] [])
  | AttemptAdmitted admission_id r => admit_attempt state context admission_id r
  end.

(** ** The kernel hands over (_step.py) *)

Definition validate_initial_admission (request : AttemptRequest) (decision : StartAttempt) : result unit :=
  let differs field := ContractError field "differs from canonical StartAttempt" in
  raise (differs "admission.attempt_id"%string)
    when (negb (pystr_eqb (aq_attempt_id request) (sa_attempt_id decision))) in
  raise (differs "admission.item_id"%string) when (negb (pystr_eqb (aq_item_id request) (sa_item_id decision))) in
  raise (differs "admission.generation"%string)
    when (negb (aq_generation request =? sc_generation (sa_scope decision))) in
  raise (differs "admission.admission_charge"%string)
    when (negb (aq_admission_charge request =? ab_admission_charge (sa_budget decision))) in
  Ok tt.

(** [_admission_signal] for a start: registering ([admitted = false]) or admitting it. *)
Definition admission_signal (run : RunState) (admitted : bool) (request : AttemptRequest)
  : result AttemptsEvent :=
  let* decision := accepted_decision (ru_receipts run) (aq_decision_id request) in
  match decision with
  | None => Err (ContractError "admission" "signal requires accepted canonical admission")
  | Some decision =>
    raise (ContractError "admission.scope" "signal requires current-run canonical admission")
      when (negb (bool_decide (cmd_scope decision = mk_Scope (RunOwner (ru_run_id run)) (ru_generation run)))) in
    match decision with
    | C_Start d =>
      let* _ := validate_initial_admission request d in
      let r := mk_Registration request (sa_workspace d) (sa_budget d) (sa_initial_sessions d) in
      Ok (if admitted then AttemptAdmitted (aq_decision_id request) r else AttemptRegistered r)
    | _ => Err (ContractError "admission" "signal has no registered StartAttempt")
    end
  end.

End Attempts.
