(* ===== verification/AdmissionPath.v ===== *)
(** From acceptance to acquisition, across three areas: what scheduling accepts the kernel translates
    and the attempts area registers under the same budget, and what scheduling admits the attempts
    area finds occupied and acquires. *)
From S2P Require Import Prelude Floats CoreValues CoreProofs WaitClock Scheduling Admission Attempts.

(** ** Request identities *)

Lemma counted_inj s s' t t' : counted s ++ t = counted s' ++ t' -> s = s' /\ t = t'.
Proof.
  unfold counted. rewrite <- !app_assoc. simpl. intros H.
  apply separated_inj in H as [Hl H]; [|apply int_str_digits; lia..].
  apply int_str_inj in Hl; [|lia..]. apply app_inj_1 in H; [done|by apply Nat2Z.inj].
Qed.

Lemma episode_text_inj a b : episode_text a = episode_text b -> a = b.
Proof.
  destruct a as [a|], b as [b|]; simpl; try done. by intros [= ->].
Qed.

(** The identities the attempts area gives its requests never collide: two requests with one
    identity are of the same attempt, the same generation, the same occupancy episode and the same
    purpose, whatever characters the attempts' and decisions' names contain. *)
Theorem request_identities_distinct a b purpose purpose' :
  0 <= at_generation a -> 0 <= at_generation b ->
  identity_text a purpose = identity_text b purpose' ->
  attempt_ref a = attempt_ref b /\ at_admission_id a = at_admission_id b /\ purpose = purpose'.
Proof.
  intros Ha Hb H. unfold identity_text in H. apply (app_inv_head (py "attempt:")) in H.
  apply counted_inj in H as [Hid H]. apply (app_inv_head (py ":")) in H.
  apply (separated_inj 58%N) in H as [Hg H]; [|by apply int_str_digits; [|left+right; lia]..].
  apply int_str_inj in Hg; [|done..]. apply counted_inj in H as [He%episode_text_inj H].
  apply (app_inv_head (py ":")) in H.
  rewrite <- (app_nil_r (counted purpose)), <- (app_nil_r (counted purpose')) in H.
  apply counted_inj in H as [Hp _]. unfold attempt_ref. by rewrite Hid, Hg.
Qed.

Section Path.
Context {digests : Digests}.

(** ** Authority *)

Lemma accepted_decision_receipt receipts i c :
  accepted_decision receipts i = Ok (Some c) ->
  exists r, accepted_receipt_for receipts (Some i) None = Ok (Proven r) /\ dr_decision r = Some c.
Proof.
  unfold accepted_decision. intros ([r|?|?] & H & [= E])%bind_Ok; try done. by exists r.
Qed.

(** An accepted command is proved against itself. *)
Lemma accepted_receipt_canonical receipts i c r :
  accepted_receipt_for receipts (Some i) None = Ok (Proven r) -> dr_decision r = Some c ->
  accepted_receipt_for receipts (Some i) (Some c) = Ok (Proven r).
Proof.
  intros H Hc. pose proof (accepted_receipt_proven _ _ _ _ H) as (Hf & _ & Hfb & c' & Hc' & Hid & Himm & Hdig).
  rewrite Hc in Hc'. injection Hc' as [= <-]. unfold accepted_receipt_for. rewrite Hf, Hc, Hfb.
  destruct (identity_mismatch _) as [f|] eqn:E.
  - exfalso. cut (identity_mismatch
      ([same PF_FEEDBACK_ID i i; same PF_DECISION_ID (cmd_decision_id c) i]
       ++ [same PF_DECISION_ID (cmd_decision_id c) i;
           same PF_SCOPE (sc_owner (cmd_scope c)) (sc_owner (cmd_scope c));
           same PF_GENERATION (sc_generation (cmd_scope c)) (sc_generation (cmd_scope c))]) = None);
      [congruence|].
    apply identity_mismatch_None. rewrite Hid. unfold same. rewrite !bool_decide_eq_true_2 by done.
    simpl. intros x Hx. set_solver.
  - unfold receipt_payload. rewrite Hc, Himm. simpl. unfold digest in Hdig.
    apply bind_Ok in Hdig as (t & Ht & [= Hd]). rewrite Ht. simpl. rewrite pystr_eqb_refl. simpl.
    unfold digest. rewrite Ht. simpl. by rewrite Hd, pystr_eqb_refl.
Qed.

(** Every accepted start is a command of the current run (the kernel writes the scope itself). *)
Definition current (run : RunState) : Prop :=
  forall i d, accepted_decision (ru_receipts run) i = Ok (Some (C_Start d)) ->
  sa_scope d = mk_Scope (RunOwner (ru_run_id run)) (ru_generation run).

(** A start whose request says what its accepted decision says. *)
Definition backed (run : RunState) (request : AttemptRequest) (d : StartAttempt) : Prop :=
  accepted_decision (ru_receipts run) (aq_decision_id request) = Ok (Some (C_Start d))
  /\ aq_attempt_id request = sa_attempt_id d /\ aq_item_id request = sa_item_id d
  /\ aq_generation request = sc_generation (sa_scope d)
  /\ aq_admission_charge request = ab_admission_charge (sa_budget d).

Lemma validate_start_backed st context r :
  validate_start st context r = Ok None -> exists d, backed (cx_run context) r d.
Proof.
  unfold validate_start. intros (c & Hc & H)%bind_Ok.
  destruct c as [[d|d|d|d|? ? ? ?]|]; try done. destruct (negb _); [done|].
  destruct (negb _) eqn:E in H; [done|]. clear H. exists d.
  apply negb_false_iff in E. rewrite !andb_true_iff in E. destruct E as [[[E1 E2] E3] E4].
  apply pystr_eqb_true in E1, E2. apply Z.eqb_eq in E3, E4. done.
Qed.

Definition handed_over (request : AttemptRequest) (d : StartAttempt) : Registration :=
  mk_Registration request (sa_workspace d) (sa_budget d) (sa_initial_sessions d).

(** The kernel's translation of a backed start never fails. *)
Lemma admission_signal_backed run request d admitted :
  current run -> backed run request d ->
  admission_signal run admitted request
  = Ok (if admitted then AttemptAdmitted (aq_decision_id request) (handed_over request d)
        else AttemptRegistered (handed_over request d)).
Proof.
  intros Hcur (Hd & H1 & H2 & H3 & H4). unfold admission_signal. rewrite Hd. simpl.
  rewrite (Hcur _ _ Hd), bool_decide_eq_true_2 by done. simpl.
  unfold validate_initial_admission. rewrite H1, H2, H3, H4, !pystr_eqb_refl, !Z.eqb_refl. done.
Qed.

Lemma canonical_specs_backed context request d :
  current (tx_run context) -> backed (tx_run context) request d ->
  exists r, canonical_initial_specs context (handed_over request d) = Ok (Proven r).
Proof.
  intros Hcur (Hd & H1 & H2 & H3 & H4). specialize (Hcur _ _ Hd) as Hsc.
  apply accepted_decision_receipt in Hd as (r & Hr & Hdec). exists r.
  apply accepted_receipt_proven in Hr as Hp. destruct Hp as (Hf & _).
  pose proof (accepted_receipt_canonical _ _ _ _ Hr Hdec) as Hcan.
  unfold canonical_initial_specs. cbn -[accepted_receipt_for]. rewrite Hf, Hdec, H3, H4, !Z.eqb_refl.
  cbn -[accepted_receipt_for]. rewrite H1, H2, <- Hsc. by destruct d.
Qed.

(** ** The budget *)

Lemma owner_find context t : owner context t = find_attempt (cx_attempts context) t.
Proof.
  unfold owner, find_attempt. induction (cx_attempts context) as [|a l IH]; simpl; [done|]. rewrite IH.
  destruct t as [i g]. unfold attempt_ref, pystr_eqb. simpl.
  destruct (Z.eqb_spec (at_generation a) g); repeat case_bool_decide; naive_solver.
Qed.

End Path.

(** ** Registration: one budget, counted in two places *)

Section Registering.
Context {digests : Digests}.

(** Charges are counts. *)
Definition counts (r : AdmissionRequest) : Prop :=
  match r with Start q => 0 <= aq_admission_charge q | Reopen _ => True end.

Definition with_attempts (context : SchedulingContext) (attempts : list AttemptView) : SchedulingContext :=
  mk_SchedulingContext (cx_run context) attempts (cx_records context) (cx_adoption context)
    (cx_evaluation context).

Lemma reserved_app context a b : reserved context (a ++ b) = reserved context a + reserved context b.
Proof. unfold reserved. by rewrite map_app, zsum_app. Qed.

Lemma reserved_nonneg context queue : Forall counts queue -> 0 <= reserved context queue.
Proof.
  unfold reserved. induction 1 as [|r queue Hr _ IH]; simpl; [done|].
  destruct r as [q|q]; simpl; [destruct (is_Some_b _)|]; simpl in Hr; lia.
Qed.

Lemma find_attempt_app l1 l2 t :
  find_attempt (l1 ++ l2) t = match find_attempt l1 t with Some a => Some a | None => find_attempt l2 t end.
Proof. unfold find_attempt. induction l1 as [|a l1 IH]; simpl; [done|]. by case_bool_decide. Qed.

(** A registered start no longer waits for its charge; nothing else changes for the queue. *)
Lemma reserved_registered context queue row :
  Forall counts queue ->
  reserved (with_attempts context (cx_attempts context ++ [row])) queue <= reserved context queue.
Proof.
  unfold reserved. induction 1 as [|r queue Hr _ IH]; simpl; [done|].
  cut (reservation (with_attempts context (cx_attempts context ++ [row])) r <= reservation context r); [lia|].
  destruct r as [q|q]; simpl; [|done]. rewrite !owner_find. simpl. rewrite find_attempt_app.
  destruct (find_attempt (cx_attempts context) _); simpl; [done|].
  destruct (is_Some_b _); simpl in Hr; lia.
Qed.

Lemma fill_registers_nothing st context registering b ch r :
  fill st context registering b = Ok ch -> RegisterAttempt r ∉ ch_signals ch.
Proof.
  intros (rs & retirements & drained & _ & _ & _ & _ & _ & _ & Hr & -> & _)%fill_spec.
  rewrite !elem_of_app. intros [H|[(? & ? & _)%elem_of_map|H]]; [|done|destruct drained; set_solver].
  destruct b; [|injection Hr as [= <-]; set_solver]. unfold deadline_retirements in Hr.
  destruct (before_deadline _); [injection Hr as [= <-]; set_solver|].
  apply bind_Ok in Hr as (running & _ & Hr). destruct running; [|injection Hr as [= <-]; set_solver].
  apply bind_Ok in Hr as (expired & _ & [= <-]). by apply elem_of_map in H as (? & ? & _).
Qed.

(** The start whose registration is asked was accepted, and is not registered. *)
Lemma registers_inv st context r ch :
  schedule st context (AttemptRequested r) = Ok ch -> RegisterAttempt r ∈ ch_signals ch ->
  exists filled, acceptable st context (Start r) /\ owner context (ref_of r) = None
    /\ fill (st <| ss_queue := ss_queue st ++ [Start r] |>) context (Some r) true = Ok filled
    /\ ch_state ch = ch_state filled.
Proof.
  simpl. intros [[_ ->]|(filled & Ha & Hf & ->)]%enqueue_cases Hin; [set_solver|]. simpl in Hin.
  unfold unregistered, target in Hf, Hin. exists filled.
  change (mk_AttemptRef (aq_attempt_id r) (aq_generation r)) with (ref_of r) in *.
  destruct (owner context (ref_of r)) as [a|] eqn:Ho; simpl in *; [|done].
  exfalso. by eapply fill_registers_nothing.
Qed.

Lemma registered_row_net r d :
  zsum (map net_admission (at_charges (registered_row (handed_over r d)))) = aq_admission_charge r.
Proof. simpl. unfold net_admission. simpl. lia. Qed.

(** The row a registered start gets, when nothing of the attempts area itself objects. *)
Lemma register_new attempts r d :
  find_attempt attempts (ref_of r) = None ->
  nodupb (map sp_session_id (sa_initial_sessions d)) = true ->
  (forall a, a ∈ attempts -> at_attempt_id a <> aq_attempt_id r) ->
  aq_admission_charge r = ab_admission_charge (sa_budget d) ->
  predecessor_proved attempts (sa_workspace d) = true ->
  register attempts (handed_over r d) = Ok (registered_row (handed_over r d)).
Proof.
  intros Hf Hs Hids Hc Hp. unfold register. cbn -[registered_row]. rewrite Hs, Hf, Hc, Z.eqb_refl, Hp.
  destruct (existsb _ attempts) eqn:E; [exfalso|done].
  apply existsb_exists in E as (a & Ha & E). apply pystr_eqb_true in E.
  by apply (Hids a); [apply list_elem_of_In|].
Qed.

(** C17. Acceptance and registration agree. When scheduling accepts a start it asks for its
    registration: the kernel's translation of that signal never fails, the attempts area finds the
    authority and the budget for it, and (unless the start's sessions repeat an identity, its
    attempt was registered under another generation, or its parked predecessor is not proved)
    appends exactly one queued row, charged with the admission charge. And the budget is counted
    once: what attempts have consumed and what unregistered starts still reserve stay together
    within [max_attempts], whichever of the two places a charge is counted in. *)
Theorem accepted_start_registers st context r ch :
  schedule st context (AttemptRequested r) = Ok ch -> RegisterAttempt r ∈ ch_signals ch ->
  current (cx_run context) -> Forall counts (Start r :: ss_queue st) ->
  exists d,
    admission_signal (cx_run context) false r = Ok (AttemptRegistered (handed_over r d))
    /\ forall there,
       tx_run there = cx_run context ->
       nodupb (map sp_session_id (sa_initial_sessions d)) = true ->
       (forall a, a ∈ cx_attempts context -> at_attempt_id a <> aq_attempt_id r) ->
       predecessor_proved (cx_attempts context) (sa_workspace d) = true ->
       let attempts := cx_attempts context ++ [registered_row (handed_over r d)] in
       advance_registration (cx_attempts context) there (AttemptRegistered (handed_over r d))
       = Ok (mk_AttemptsChange attempts [] [])
       /\ consumed attempts + reserved (with_attempts context attempts) (ss_queue (ch_state ch))
          <= Z.max (li_max_attempts (ru_limits (cx_run context)))
                   (consumed (cx_attempts context) + reserved context (ss_queue st)).
Proof.
  intros H Hin Hcur Hcounts. inversion Hcounts as [|? ? Hr Hq]; subst. simpl in Hr.
  apply registers_inv in H as (filled & Ha & Ho & Hf & ->); [|done].
  destruct (validate_start_backed _ _ _ (ac_authority _ _ _ Ha)) as (d & Hd). exists d.
  split; [by apply (admission_signal_backed _ _ _ false)|].
  intros there Hrun Hs Hids Hp attempts. rewrite owner_find in Ho.
  pose proof (ac_budget _ _ _ Ha) as Hb. unfold unregistered, target in Hb.
  change (mk_AttemptRef (aq_attempt_id r) (aq_generation r)) with (ref_of r) in Hb.
  rewrite owner_find, Ho in Hb. simpl in Hb. unfold remaining, admission_remaining in Hb.
  pose proof (reserved_nonneg context _ Hq) as Hres. split.
  - destruct (canonical_specs_backed there r d) as (receipt & Hc); [by rewrite Hrun..|].
    unfold advance_registration, registration_authority. cbn -[registered_row canonical_initial_specs].
    rewrite Hc. cbn -[registered_row]. rewrite Ho, Hrun. cbn -[registered_row].
    destruct (Z.leb_spec (aq_admission_charge r)
      (admission_remaining (cx_attempts context) (li_max_attempts (ru_limits (cx_run context))) 0)) as [_|Hlt];
      [|unfold admission_remaining in Hlt; lia].
    cbn -[registered_row]. rewrite register_new; try done; [|apply Hd].
    cbn -[registered_row]. unfold registered. simpl. change (attempt_ref _) with (ref_of r). by rewrite Ho.
  - unfold attempts at 1. rewrite consumed_app, (consumed_cons _ []), registered_row_net.
    apply fill_admits in Hf as (Hqueue & _). simpl in Hqueue.
    pose proof (reserved_registered context _ (registered_row (handed_over r d)) Hq) as Hle.
    assert (Hrest : reserved (with_attempts context attempts) (ss_queue st ++ [Start r])
                    = reserved (with_attempts context attempts) (ss_queue st)).
    { rewrite reserved_app. unfold reserved at 2. simpl. rewrite owner_find. simpl. unfold attempts.
      rewrite find_attempt_app. change (mk_AttemptRef _ _) with (ref_of r). rewrite Ho. simpl.
      unfold ref_of. rewrite bool_decide_eq_true_2 by done. simpl. lia. }
    rewrite Hqueue, reserved_app in Hrest. fold attempts in Hle.
    assert (Hadm : Forall counts (admits (ch_signals filled))).
    { assert (Hall : Forall counts (ss_queue st ++ [Start r])) by (apply Forall_app; split; [done|by constructor]).
      rewrite Hqueue in Hall. by apply Forall_app in Hall as [? _]. }
    pose proof (reserved_nonneg (with_attempts context attempts) _ Hadm). change (consumed []) with 0. lia.
Qed.

End Registering.

(** ** Acquisition: what scheduling admits, the attempts area acquires *)

Section Acquiring.
Context {digests : Digests}.

Lemma admitted_conditions context registering held rs r :
  admitted_in_turn context registering held rs -> r ∈ rs ->
  accepting context = Ok true /\ forall st, admission_proved st context r registering = Ok true.
Proof.
  revert held. induction rs as [|r' rs IH]; intros held H Hr; [set_solver|].
  destruct H as [(H1 & H2 & _) H]. apply elem_of_cons in Hr as [->|Hr]; [done|by eapply IH].
Qed.

(** Admission happens while the run accepts, and only of starts that say what was decided. *)
Lemma admits_conditions st context event ch r :
  schedule st context event = Ok ch -> Start r ∈ admits (ch_signals ch) ->
  accepting context = Ok true /\ exists d, backed (cx_run context) r d.
Proof.
  intros (st1 & _ & Ho)%schedule_prepared Hr.
  destruct Ho as [[_ Ha]|(registering & b & filled & Hf & _ & Ha & Hreg)]; rewrite Ha in Hr; [set_solver|].
  apply fill_admits in Hf as (_ & _ & Hin & _).
  destruct (admitted_conditions _ _ _ _ _ Hin Hr) as [Hacc Hp]. split; [done|].
  specialize (Hp st). unfold admission_proved in Hp. destruct (owner _ _) as [a|].
  - destruct (_ || _); [done|]. apply bind_Ok in Hp as (v & Hv & [= Hp]).
    destruct v; [done|]. by eapply validate_start_backed.
  - injection Hp as [= Hp]. apply bool_decide_eq_true in Hp. destruct (Hreg r Hp) as (st0 & Hv).
    by eapply validate_start_backed.
Qed.

Lemma accepting_going context :
  accepting context = Ok true ->
  (if bool_decide (ru_status (cx_run context) = RUNNING) then Ok true else draining (cx_run context)) = Ok true
  /\ f_ge (ru_now_at (cx_run context)) (ru_deadline_at (cx_run context)) = false.
Proof.
  unfold accepting. intros (open & Ho & [= H])%bind_Ok. rewrite !andb_true_iff in H.
  destruct H as [[-> Hd] _]. split.
  - case_bool_decide; [done|]. done.
  - unfold before_deadline in Hd. unfold f_ge. by apply f_lt_not_le.
Qed.

Section Occupied.
Context (max : Z).
Context (modes : AttemptRef -> DecisionId -> WorkspaceMode) (decisions : DecisionId -> option Command).
Abbreviation scheduled := (scheduled max modes decisions).
Abbreviation of_run := (of_run max modes decisions).

Lemma lawful_decision a b :
  lawful decisions a -> lawful decisions b -> en_decision a = en_decision b -> en_target a = en_target b.
Proof. intros [(c & Hc & Ht) _] [(c' & Hc' & Ht') _] E. rewrite E in Hc. congruence. Qed.

(** The episode a request occupies is unmistakable. *)
Lemma occupied_alone st l1 slot l2 r :
  orderly max modes decisions st -> ss_slots st = l1 ++ slot :: l2 -> sl_attempt slot = target r ->
  sl_admission_id slot = rq_decision_id r -> sl_pools slot = rq_pools r ->
  occupied_episode (ss_slots st) r = Proven slot.
Proof.
  intros Hst Hs Ht Hi Hp. pose proof (ord_limits _ _ _ _ Hst) as [_ Hpairs].
  pose proof (ord_lawful _ _ _ _ Hst) as Hl. rewrite Forall_forall in Hl.
  assert (Hlaw : forall s, s ∈ l1 ++ slot :: l2 -> lawful decisions (entry_of_slot s)).
  { intros s Hin. apply Hl. unfold entries. rewrite Hs, elem_of_app. right.
    by apply (elem_of_map_1 entry_of_slot). }
  assert (Hother : forall s, s ∈ l1 ++ l2 ->
    pystr_eqb (ar_attempt_id (sl_attempt s)) (ar_attempt_id (target r))
    || pystr_eqb (sl_admission_id s) (rq_decision_id r) = false).
  { intros s Hin.
    assert (Hne : ar_attempt_id (sl_attempt s) <> ar_attempt_id (sl_attempt slot)).
    { rewrite Hs in Hpairs. apply FOP_app in Hpairs as (_ & Hp2 & Hp1).
      inversion Hp2 as [|? ? Hx _]; subst. rewrite Forall_forall in Hx.
      apply elem_of_app in Hin as [Hin|Hin].
      - apply (Hp1 s slot); [done|set_solver].
      - intros E. destruct (Hx s Hin) as [Hc _]. congruence. }
    apply not_true_iff_false. rewrite orb_true_iff, <- Ht, <- Hi. intros [E|E]; apply pystr_eqb_true in E; [done|].
    apply Hne. f_equal. apply (lawful_decision (entry_of_slot s) (entry_of_slot slot)); [apply Hlaw; set_solver..|done]. }
  unfold occupied_episode. rewrite Hs, List.filter_app. simpl.
  rewrite !List_filter_none by (intros x Hx; apply Hother; set_solver).
  rewrite Ht, Hi, !pystr_eqb_refl. simpl. rewrite ?Ht, ?Hi.
  replace (identity_mismatch _) with (@None ProofField)
    by (symmetry; apply identity_mismatch_None; unfold same; rewrite !bool_decide_eq_true_2 by done; set_solver).
  assert (Hnd : nodupb (sl_pools slot) = true).
  { apply nodupb_spec. apply (Hlaw slot). set_solver. }
  by rewrite <- Hp, bool_decide_eq_true_2, Hnd.
Qed.

Lemma admitted_occupied st context event ch r :
  scheduled st -> of_run context -> well_timed event -> schedule st context event = Ok ch ->
  r ∈ admits (ch_signals ch) ->
  occupied_episode (ss_slots (ch_state ch)) r = Proven (slot_of (cx_run context) r).
Proof.
  intros Hst Hrun Ht H Hr.
  assert (Ho : orderly max modes decisions (ch_state ch)) by (eapply scheduled_orderly, scheduled_step; eauto).
  assert (Hin : slot_of (cx_run context) r ∈ ss_slots (ch_state ch)).
  { apply schedule_prepared in H as (st1 & _ & H).
    destruct H as [[_ Ha]|(registering & b & filled & Hf & -> & Ha & _)]; rewrite Ha in Hr; [set_solver|].
    apply fill_admits in Hf as (_ & -> & _ & _). apply elem_of_app. right.
    by apply (elem_of_map_1 (slot_of (cx_run context))). }
  apply list_elem_of_split in Hin as (l1 & l2 & Hs). by eapply occupied_alone.
Qed.

Lemma registered_again attempts r d :
  nodupb (map sp_session_id (sa_initial_sessions d)) = true ->
  find_attempt attempts (ref_of r) = Some (registered_row (handed_over r d)) ->
  register attempts (handed_over r d) = Ok (registered_row (handed_over r d)).
Proof.
  intros Hs Hf. unfold register. cbn -[registered_row]. rewrite Hs, Hf. cbn -[registered_row].
  replace (same_registration _ _) with true; [done|]. symmetry. unfold same_registration. simpl.
  by rewrite !pystr_eqb_refl, Z.eqb_refl, !bool_decide_eq_true_2 by done.
Qed.

(** C16. What scheduling admits, the attempts area acquires. Every start scheduling admits occupies a
    slot that the attempts area's proof of occupancy recognises as its own; the kernel's translation
    never fails; and the attempts area, finding the queued row the start was registered with, moves
    it to acquiring under the admitting decision, asks for its workspace once and hands its sessions
    over, unless another attempt or an adoption holds the root workspace, when it gives the
    admission back. Its own checks of the run's status, its deadline and the occupancy never
    disagree with scheduling's. *)
Theorem admitted_start_acquires st context event ch r :
  scheduled st -> of_run context -> well_timed event -> schedule st context event = Ok ch ->
  Start r ∈ admits (ch_signals ch) -> current (cx_run context) ->
  exists d,
    admission_signal (cx_run context) true r = Ok (AttemptAdmitted (aq_decision_id r) (handed_over r d))
    /\ forall there attempts,
       tx_run there = cx_run context -> tx_slots there = ss_slots (ch_state ch) ->
       nodupb (map sp_session_id (sa_initial_sessions d)) = true ->
       find_attempt attempts (ref_of r) = Some (registered_row (handed_over r d)) ->
       let row := registered_row (handed_over r d) in
       let row' := acquiring row (aq_decision_id r) (sa_initial_sessions d) in
       advance_registration attempts there (AttemptAdmitted (aq_decision_id r) (handed_over r d))
       = Ok (if root_conflict attempts there row
             then mk_AttemptsChange attempts [cancel_admission "root-conflict:" row there (aq_decision_id r)] []
             else mk_AttemptsChange (replace_attempt attempts row')
                    match sa_initial_sessions d with
                    | [] => []
                    | specs => [S_AcquireSessions (ref_of r) (aq_decision_id r) (attempt_scope row') specs]
                    end [ensure_workspace there row']).
Proof.
  intros Hst Hrun Ht H Hr Hcur.
  destruct (admits_conditions _ _ _ _ _ H Hr) as (Hacc & d & Hd). exists d.
  split; [by apply (admission_signal_backed _ _ _ true)|].
  intros there attempts Hru Hsl Hs Hf row row'.
  pose proof (admitted_occupied _ _ _ _ _ Hst Hrun Ht H Hr) as Hocc.
  apply accepting_going in Hacc as [Hgoing Hlate].
  destruct (canonical_specs_backed there r d) as (receipt & Hc); [by rewrite Hru..|].
  unfold advance_registration, registration_authority.
  cbn -[registered_row canonical_initial_specs admit_attempt]. rewrite Hc. cbn -[registered_row admit_attempt].
  rewrite Hf. cbn -[registered_row admit_attempt]. unfold admit_attempt. rewrite registered_again by done.
  cbn -[registered_row root_conflict acquiring]. fold row.
  change (at_phase row) with PH_QUEUED. change (closed row) with false.
  cbn -[registered_row root_conflict acquiring]. rewrite pystr_eqb_refl.
  cbn -[registered_row root_conflict acquiring occupied_episode]. rewrite Hsl, Hocc, Hru, Hgoing.
  cbn -[registered_row root_conflict acquiring]. rewrite Hlate.
  cbn -[registered_row root_conflict acquiring].
  unfold registered. fold row'. change (attempt_ref row) with (ref_of r).
  change (attempt_ref row') with (ref_of r). rewrite Hf. by destruct (root_conflict attempts there row).
Qed.

End Occupied.
End Acquiring.
