(* ===== verification/AdmissionExample.v ===== *)
(** A small run of vs-core admission, evaluated: two accepted starts (one in the root workspace, one
    isolated), a third that must wait, and a drain. It instantiates the theorems of [Admission] and
    [AdmissionPath]. *)
From S2P Require Import Prelude Floats CoreValues CoreProofs WaitClock Scheduling Admission Attempts AdmissionPath.

(** Digests that tell commands apart by what they decide. *)
Definition example_digests : Digests := {|
  canonical_json c := Ok (cmd_decision_id c);
  request_json r := Ok (match rb_request_id r with Some i => i | None => [] end);
  sha256 t := t;
  selection_json s := []
|}.
#[local] Existing Instance example_digests.

Definition example_scope : Scope := mk_Scope (RunOwner (py "run")) 0.
Definition example_start (decision attempt : string) (m : WorkspaceMode) (sessions : list SessionSpec)
  : StartAttempt :=
  mk_StartAttempt (py decision) example_scope (py attempt) (py "item")
    (mk_WorkspacePlan m (mk_RevisionRef (py "base") (py "0")) None) (mk_AttemptBudget 1 10 1) sessions.
Definition accepted_row (c : Command) : DecisionReceipt :=
  mk_DecisionReceipt (cmd_decision_id c) (Some c) None None (cmd_decision_id c) (Accepted (cmd_decision_id c)) [] None.

Definition start1 := example_start "d1" "a1" EXCLUSIVE_ROOT [mk_SessionSpec (py "s1") []].
Definition start2 := example_start "d2" "a2" ISOLATED_CHILD [].
Definition start3 := example_start "d3" "a3" ISOLATED_CHILD [].
Definition example_result := mk_RunResultProposal R_SUCCESS (py "done") None.
Definition drain_stop := mk_Finish (py "stop") example_scope DRAIN example_result.
Definition example_receipts : list DecisionReceipt :=
  map accepted_row [C_Start start1; C_Start start2; C_Start start3; C_Finish drain_stop].

Definition request_for (d : StartAttempt) (pools : list PoolId) : AttemptRequest :=
  mk_AttemptRequest (sa_decision_id d) (sa_attempt_id d) (sa_item_id d) (sc_generation (sa_scope d))
    (ab_admission_charge (sa_budget d)) pools.
Definition request1 := request_for start1 [py "gpu"].
Definition request2 := request_for start2 [py "cpu"].
Definition request3 := request_for start3 [].

Definition example_run (status : RunStatus) (proposal : option RunResultProposal) : RunState :=
  mk_RunState (py "run") 0 status (f_of_Z 1) (f_of_Z 100) [] 
    (mk_Limits 5 2 [] (mk_RequestRetries 2 (f_of_Z 1) (f_of_Z 8)) (f_of_Z 5) (f_of_Z 5) (f_of_Z 5) (f_of_Z 1) (f_of_Z 60) (f_of_Z 10)) example_receipts proposal.
Definition example_context (status : RunStatus) (proposal : option RunResultProposal)
    (attempts : list AttemptView) : SchedulingContext :=
  mk_SchedulingContext (example_run status proposal) attempts (mk_RecordsState [] (mk_RecoveryBarrier 0 READY) []) None
    (mk_EvaluationState [] [] []).
Definition running := example_context RUNNING None [].
Definition closing := example_context CLOSING (Some example_result) [].

Definition example_modes (t : AttemptRef) (i : DecisionId) : WorkspaceMode :=
  match mode running t i with Ok m => m | Err _ => READ_ONLY_REVISION end.
Definition example_decisions (i : DecisionId) : option Command :=
  match accepted_decision example_receipts i with Ok d => d | Err _ => None end.

Definition after (st : SchedulingState) (context : SchedulingContext) (event : SchedulingEvent)
  : AreaChange SchedulingState :=
  match schedule st context event with Ok ch => ch | Err _ => mk_AreaChange st [] [] end.
Definition st0 := mk_SchedulingState [] [] false f_zero.
Definition ch1 := after st0 running (AttemptRequested request1).
Definition ch2 := after (ch_state ch1) running (AttemptRequested request2).
Definition ch3 := after (ch_state ch2) running (AttemptRequested request3).
(** The drain, and the releases and the retirement that end the run. *)
Definition ch4 := after (ch_state ch2) closing (AdmissionControl A_DRAIN).
Definition ch5 := after (ch_state ch4) closing (SlotReleased (ref_of request1) (py "d1")).

Example first_admitted : admits (ch_signals ch1) = [Start request1].
Proof. by vm_compute. Qed.
Example second_admitted : map sl_admission_id (ss_slots (ch_state ch2)) = [py "d1"; py "d2"].
Proof. by vm_compute. Qed.
Example third_waits : ss_queue (ch_state ch3) = [Start request3].
Proof. by vm_compute. Qed.

Lemma running_of_run : of_run 2 example_modes example_decisions running.
Proof.
  split; [done| | |done].
  - intros t i m H. unfold example_modes. by rewrite H.
  - intros i c H. unfold example_decisions. change example_receipts with (ru_receipts (cx_run running)). by rewrite H.
Qed.

Lemma closing_of_run : of_run 2 example_modes example_decisions closing.
Proof.
  split; [done| | |done].
  - intros t i m H. unfold example_modes. change (mode running t i) with (mode closing t i). by rewrite H.
  - intros i c H. unfold example_decisions. change example_receipts with (ru_receipts (cx_run closing)). by rewrite H.
Qed.

Lemma after_Ok st context event :
  is_ok (schedule st context event) = true -> schedule st context event = Ok (after st context event).
Proof. unfold after. by destruct (schedule st context event). Qed.

Lemma ch1_schedule : schedule st0 running (AttemptRequested request1) = Ok ch1.
Proof. apply after_Ok. by vm_compute. Qed.
Lemma ch2_schedule : schedule (ch_state ch1) running (AttemptRequested request2) = Ok ch2.
Proof. apply after_Ok. by vm_compute. Qed.
Lemma ch3_schedule : schedule (ch_state ch2) running (AttemptRequested request3) = Ok ch3.
Proof. apply after_Ok. by vm_compute. Qed.
Lemma ch4_schedule : schedule (ch_state ch2) closing (AdmissionControl A_DRAIN) = Ok ch4.
Proof. apply after_Ok. by vm_compute. Qed.
Lemma ch5_schedule : schedule (ch_state ch4) closing (SlotReleased (ref_of request1) (py "d1")) = Ok ch5.
Proof. apply after_Ok. by vm_compute. Qed.

Abbreviation example_scheduled := (scheduled 2 example_modes example_decisions).
Lemma st2_scheduled : example_scheduled (ch_state ch2).
Proof.
  eapply scheduled_step; [|exact running_of_run| |exact ch2_schedule]; [|exact I].
  eapply scheduled_step; [|exact running_of_run| |exact ch1_schedule]; [|exact I]. by constructor.
Qed.
Lemma st4_scheduled : example_scheduled (ch_state ch4).
Proof. eapply scheduled_step; [exact st2_scheduled|exact closing_of_run| |exact ch4_schedule]; exact I. Qed.

Lemma example_current : current (example_run RUNNING None).
Proof.
  intros i d H.
  assert (Hin : forall r, r ∈ example_receipts -> forall d, dr_decision r = Some (C_Start d) ->
    sa_scope d = example_scope).
  { intros r Hr d' Hd. unfold example_receipts in Hr. simpl in Hr. rewrite !elem_of_cons in Hr.
    destruct Hr as [->|[->|[->|[->|Hr]]]]; simpl in Hd; try (by injection Hd as [= <-]); try done.
    by apply not_elem_of_nil in Hr. }
  apply accepted_decision_receipt in H as (r & Hr & Hd).
  apply accepted_receipt_proven in Hr as (Hf & _). apply (Hin r); [|done].
  assert (Hr : r ∈ List.filter (has_decision_id i) example_receipts)
    by (change example_receipts with (ru_receipts (example_run RUNNING None)); rewrite Hf; set_solver).
  by apply elem_of_filter in Hr as [? _].
Qed.

(** ** The theorems at this run *)

Lemma capacity_kept_witness :
  0 <= 2 /\ example_scheduled (ch_state ch2) /\ Z.of_nat (length (ss_slots (ch_state ch2))) <= 2.
Proof.
  split_and!; [lia|exact st2_scheduled|].
  eapply (capacity_kept 2 example_modes example_decisions). exact st2_scheduled.
Defined.

Lemma admissions_in_arrival_order_witness :
  exists arrived admitted gone,
    ran 2 example_modes example_decisions arrived admitted gone (ch_state ch3)
    /\ arrived = [Start request1; Start request2; Start request3]
    /\ admitted = [Start request1; Start request2]
    /\ sublist (admitted ++ ss_queue (ch_state ch3)) arrived.
Proof.
  assert (H : exists arrived admitted gone, ran 2 example_modes example_decisions arrived admitted gone (ch_state ch3)
    /\ arrived = [Start request1; Start request2; Start request3] /\ admitted = [Start request1; Start request2]).
  { do 3 eexists. split.
    eapply ran_step; [|exact running_of_run| |exact ch3_schedule]; [|exact I].
    eapply ran_step; [|exact running_of_run| |exact ch2_schedule]; [|exact I].
    eapply ran_step; [|exact running_of_run| |exact ch1_schedule]; [|exact I]. constructor.
    split; by vm_compute. }
  destruct H as (arrived & admitted & gone & H & Ha & Hb). exists arrived, admitted, gone.
  split; [exact H|]. split; [exact Ha|]. split; [exact Hb|].
  eapply (admissions_in_arrival_order 2 example_modes example_decisions). exact H.
Defined.

Lemma admission_is_greedy_witness :
  exists ch, schedule (mk_SchedulingState [Start request1] [] false f_zero)
               (example_context RUNNING None [registered_row (handed_over request1 start1)])
               (ClockAdvanced (f_of_Z 1)) = Ok ch
    /\ exists rs, admits (ch_signals ch) = Start request1 :: rs.
Proof.
  eexists. split; [apply after_Ok; by vm_compute|].
  eapply admission_is_greedy; [apply after_Ok; by vm_compute|reflexivity|reflexivity|simpl; lia
    |by vm_compute|by vm_compute|by vm_compute|by right].
Defined.

Lemma released_once_witness :
  exists slot l1 l2,
    find (holds_episode (ref_of request1) (py "d1")) (ss_slots (ch_state ch4)) = Some slot
    /\ ss_slots (ch_state ch4) = l1 ++ slot :: l2.
Proof.
  assert (H : exists slot, find (holds_episode (ref_of request1) (py "d1")) (ss_slots (ch_state ch4)) = Some slot)
    by (eexists; by vm_compute).
  destruct H as [slot H].
  destruct (released_once 2 example_modes example_decisions _ _ _ _ _ _
              st4_scheduled closing_of_run H ch5_schedule) as (l1 & l2 & Hs & _).
  by exists slot, l1, l2.
Defined.

Lemma stop_drains_witness :
  removes (ch_state ch4) (SlotReleased (ref_of request1) (py "d1"))
  /\ (length (entries (ch_state ch5)) < length (entries (ch_state ch4)))%nat
  /\ RunDrained ∉ ch_signals ch5.
Proof.
  destruct (stop_drains 2 example_modes example_decisions _ _ _ _
              st4_scheduled closing_of_run eq_refl ch5_schedule) as (_ & Hless & Hdrained).
  assert (Hrem : removes (ch_state ch4) (SlotReleased (ref_of request1) (py "d1"))).
  { assert (Hex : existsb (holds_episode (ref_of request1) (py "d1")) (ss_slots (ch_state ch4)) = true) by by vm_compute.
    apply existsb_exists in Hex as (s & Hs & Hh). exists s. by rewrite list_elem_of_In. }
  split; [exact Hrem|]. split; [by apply Hless|]. rewrite Hdrained; [by vm_compute|by vm_compute|by vm_compute|].
  eexists. by vm_compute.
Defined.

Lemma request_identities_distinct_witness :
  exists a b, at_generation a = 0 /\ at_generation b = 0 /\ identity_text a (py "workspace") <> identity_text b (py "workspace").
Proof.
  exists (registered_row (handed_over request1 start1)), (registered_row (handed_over request2 start2)).
  split_and!; [done..|]. intros H.
  eapply request_identities_distinct in H as (H & _); [|simpl; lia..]. by vm_compute in H.
Defined.

Lemma accepted_start_registers_witness :
  RegisterAttempt request1 ∈ ch_signals ch1 /\ Forall counts [Start request1]
  /\ exists d, admission_signal (cx_run running) false request1 = Ok (AttemptRegistered (handed_over request1 d)).
Proof.
  assert (Hin : RegisterAttempt request1 ∈ ch_signals ch1).
  { replace (ch_signals ch1) with [RegisterAttempt request1; AdmitAttempt (Start request1)] by by vm_compute.
    set_solver. }
  assert (Hc : Forall counts (Start request1 :: ss_queue st0)) by (repeat constructor; simpl; lia).
  split; [exact Hin|]. split; [exact Hc|].
  destruct (accepted_start_registers _ _ _ _ ch1_schedule Hin example_current Hc) as (d & Hd & _).
  by exists d.
Defined.

Lemma admitted_start_acquires_witness :
  Start request1 ∈ admits (ch_signals ch1)
  /\ exists d, admission_signal (cx_run running) true request1
               = Ok (AttemptAdmitted (aq_decision_id request1) (handed_over request1 d)).
Proof.
  assert (Hin : Start request1 ∈ admits (ch_signals ch1)) by (rewrite first_admitted; set_solver).
  split; [exact Hin|].
  assert (H0 : example_scheduled st0) by by constructor.
  destruct (admitted_start_acquires 2 example_modes example_decisions st0 running (AttemptRequested request1) ch1 request1
              H0 running_of_run I ch1_schedule Hin example_current) as (d & Hd & _).
  by exists d.
Defined.
