(* ===== verification/LedgerExample.v ===== *)
(** A small run of the request ledger, evaluated: three requests, each waiting on the one before, a
    failure that is retried and one that closes them all. It instantiates the theorems of
    LedgerRuns.v and LedgerCascade.v. *)
From S2P Require Import Prelude Floats CoreValues CoreProofs WaitClock Requests RequestLedger LedgerSteps LedgerRuns LedgerCascade AdmissionExample.
#[local] Existing Instance example_digests.

Definition ledger_context : RecordsContext := mk_RecordsContext (example_run RUNNING None) [] [] [] [].
Definition ledger_scope : Scope := mk_Scope (RunOwner (py "run")) 0.
Definition ledger_target : AttemptRef := mk_AttemptRef (py "a1") 0.

Definition example_request (i : string) (after_ : list RequestId) (body : RequestBody) : Request :=
  mk_Request (Some (py i)) ledger_scope after_ None None body.
Definition q1 := example_request "q1" [] (CloseAttemptScope ledger_target).
Definition q2 := example_request "q2" [py "q1"] (DiscardWorkspace ledger_target).
Definition q3 := example_request "q3" [py "q2"] (CloseSession (py "s1") None None).
Definition schedule_request (r : Request) : Scheduled := mk_Scheduled r (mk_Until (f_of_Z 50) []) None.

(** An answer to a request: its status, whether it is final, and whether it released what it held. *)
Definition answer_to (i : string) (sequence : Z) (status : ObservationStatus) (terminal released : bool) : Facts :=
  only_observed (mk_Observation (py "event") (py i) ledger_scope sequence (f_of_Z 1) status None None false
                   terminal released [] false None None []).
Definition heard (f : Facts) : LedgerInput := In_event ledger_context (RequestObserved f None).
Definition sent (i : string) : LedgerInput := In_event ledger_context (DispatchAuthorized (py i) None).
Definition retry (i : string) : LedgerInput := In_event ledger_context (RetryDue (py i) (f_of_Z 90)).
Definition registered_all : LedgerInput := In_register (example_run RUNNING None) 0 (map schedule_request [q1; q2; q3]).

Definition empty_ledger : RecordsState := mk_RecordsState [] (mk_RecoveryBarrier 0 READY) [].
Definition ledger_after (inputs : list LedgerInput) : RecordsState :=
  match run_ledger empty_ledger inputs with Ok st => st | Err _ => empty_ledger end.
Definition phases (st : RecordsState) : list (RequestId * RequestPhase * Z) :=
  map (fun r => (rr_request_id r, rr_phase r, rr_retry_count r)) (re_records st).

Definition once_retried : list LedgerInput :=
  [registered_all; sent "q1"; heard (answer_to "q1" 3 OBS_FAILED false false); retry "q1"; sent "q1"].
Definition then_failed : list LedgerInput := once_retried ++ [heard (answer_to "q1" 4 OBS_FAILED true false)].

Example registration_prepares : phases (ledger_after [registered_all])
  = [(py "q1", RQ_PREPARED, 0); (py "q2", RQ_PREPARED, 0); (py "q3", RQ_PREPARED, 0)].
Proof. by vm_compute. Qed.
Example retry_goes_out_again : phases (ledger_after once_retried)
  = [(py "q1", RQ_DISPATCHED, 1); (py "q2", RQ_PREPARED, 0); (py "q3", RQ_PREPARED, 0)].
Proof. by vm_compute. Qed.
Example failure_cascades : phases (ledger_after then_failed)
  = [(py "q1", RQ_COMPLETED, 1); (py "q2", RQ_COMPLETED, 0); (py "q3", RQ_COMPLETED, 0)].
Proof. by vm_compute. Qed.

(** A retryable answer delivered twice counts once; delivered again after the request went out once
    more, it counts as that sending's answer and spends a second retry: sending again forgets the
    sequence the record had reached. *)
Definition retryable_answer : LedgerInput := heard (answer_to "q1" 3 OBS_FAILED false false).
Example duplicate_is_inert : head (phases (ledger_after [registered_all; sent "q1"; retryable_answer; retryable_answer]))
  = Some (py "q1", RQ_DISPATCHED, 1).
Proof. by vm_compute. Qed.
Example sending_again_forgets_the_sequence : head (phases (ledger_after (once_retried ++ [retryable_answer])))
  = Some (py "q1", RQ_DISPATCHED, 2).
Proof. by vm_compute. Qed.

(** ** The theorems at this run *)

Lemma ledger_after_ok inputs : ledger_ok (ledger_after inputs).
Proof.
  assert (ledger_ok empty_ledger) as K by (split; [constructor|]; intros r R; by inversion R).
  unfold ledger_after. destruct (run_ledger empty_ledger inputs) eqn:H; [|done]. by eapply run_ledger_ok.
Qed.

Definition record_named (i : string) (st : RecordsState) : RequestRecord :=
  match find_records st (py i) with
  | r :: _ => r
  | [] => prepared_record (py i) q1 [] (schedule_request q1)
  end.
Ltac in_ledger := apply list_elem_of_In; vm_compute; tauto.

(** The executor proves the release of the closed request later, under another failing status. *)
Definition late_release : LedgerInput := heard (answer_to "q1" 7 OBS_CANCELLED true true).
Definition failed_ledger : RecordsState := ledger_after then_failed.
Definition released_ledger : RecordsState := ledger_after (then_failed ++ [late_release]).

Lemma closed_for_good_witness :
  ob_released <$> rr_observation (record_named "q1" released_ledger) = Some true
  /\ exists r', r' ∈ re_records released_ledger /\ still_closed (record_named "q1" failed_ledger) r'
             /\ forall x, x ∈ re_records released_ledger -> rr_request_id x = py "q1" -> x = r'.
Proof.
  split; [by vm_compute|].
  apply (closed_for_good failed_ledger [late_release] released_ledger (record_named "q1" failed_ledger)).
  - apply ledger_after_ok.
  - by vm_compute.
  - in_ledger.
  - by vm_compute.
Defined.

Lemma resends_bounded_witness :
  resends (py "q1") empty_ledger once_retried = 1
  /\ resends (py "q1") empty_ledger once_retried <= 1 <= Z.max 0 2.
Proof.
  split; [by vm_compute|].
  apply (resends_bounded 2 empty_ledger once_retried (ledger_after once_retried) (record_named "q1" (ledger_after once_retried))).
  - done.
  - repeat constructor.
  - by vm_compute.
  - in_ledger.
Defined.

Definition final_failure : RecordsEvent := RequestObserved (answer_to "q1" 4 OBS_FAILED true false) None.
Definition after_event (st : RecordsState) (event : RecordsEvent) : LedgerChange :=
  match advance_record st ledger_context event with Ok c => c | Err _ => kept st end.

Lemma nothing_failed st X :
  forallb (fun r => negb (bool_decide (rr_phase r = RQ_COMPLETED))) (re_records st) = true -> settled_except X st.
Proof.
  intros H d r _ Hr _ [P _]. rewrite forallb_forall in H. apply list_elem_of_In in Hr. specialize (H r Hr).
  by rewrite P in H.
Qed.

Lemma failures_close_dependents_witness :
  length (List.filter (fun r => bool_decide (rr_phase r = RQ_COMPLETED))
            (re_records (lc_state (after_event (ledger_after once_retried) final_failure)))) = 3%nat
  /\ settled_except [] (lc_state (after_event (ledger_after once_retried) final_failure)).
Proof.
  split; [by vm_compute|].
  apply (failures_close_dependents ledger_context (ledger_after once_retried) final_failure).
  - apply ledger_after_ok.
  - apply nothing_failed. by vm_compute.
  - by vm_compute.
Defined.

Lemma cascade_terminates_witness :
  let record := record_named "q1" (ledger_after once_retried) in
  let facts := answer_to "q1" 4 OBS_FAILED true false in
  is_ok (apply_facts (ledger_after once_retried) ledger_context record facts) = true
  /\ apply_facts (ledger_after once_retried) ledger_context record facts <> Err out_of_fuel
  /\ apply 10 ledger_context false (ledger_after once_retried) record facts
     = apply_facts (ledger_after once_retried) ledger_context record facts.
Proof.
  split; [by vm_compute|].
  apply (cascade_terminates ledger_context (ledger_after once_retried)).
  - intros c H. discriminate H.
  - apply ledger_after_ok.
  - in_ledger.
  - vm_compute. lia.
Defined.

(** The retried request's answer, and a different fact under the same sequence. *)
Definition answered_ledger : RecordsState := ledger_after [registered_all; sent "q1"; retryable_answer].
Definition conflicting_answer : Facts := answer_to "q1" 3 OBS_PENDING false false.
Lemma answers_by_sequence_witness :
  advance_record answered_ledger ledger_context (RequestObserved conflicting_answer None)
  = Err (ledger_error "observation.sequence" "conflicts with the accepted observation").
Proof.
  eapply (answers_by_sequence answered_ledger ledger_context conflicting_answer (record_named "q1" answered_ledger)
            (fa_observation (answer_to "q1" 3 OBS_FAILED false false))).
  - apply ledger_after_ok.
  - in_ledger.
  - by vm_compute.
  - done.
  - by vm_compute.
  - by vm_compute.
  - by vm_compute.
  - done.
  - by vm_compute.
Defined.
