(* ===== verification/Coroutines.v ===== *)
(** Coroutines on an event loop: what the asynchronous code of the repository is written in. A
    coroutine runs synchronously between the points where it waits; a schedule says which task goes on
    and how its wait ends. Cancelling a task ends its wait with [CancelledError]. The second half is
    the reasoning about schedules: rely-guarantee for tasks that share a state. *)
From S2P Require Import Prelude.

(** ** Exceptions and answers *)

(** [Cancelled] is [asyncio.CancelledError]; [Expired] is the cancellation by the deadline scope in
    force; [Stop] any other [BaseException]. An [Exception] has its class and its text. *)
Inductive Exc :=
| Cancelled
| Expired
| Stop
| Error (name text : pystr).
#[export] Instance Exc_eq_dec : EqDecision Exc.
Proof. solve_decision. Defined.
Definition is_exception (e : Exc) : bool := match e with Error _ _ => true | _ => false end.

Inductive answer (A : Type) := Ans (a : A) | Threw (e : Exc).
Arguments Ans {A} a.
Arguments Threw {A} e.

(** How a wait may end. [C_fail]: outside code raises; [C_value]: it answers a JSON value
    ([None] is null, another value is given by its text); [C_interrupted]: the task
    was cancelled; [C_expired]: the deadline scope around the wait expired. *)
Inductive Choice :=
| C_ok
| C_fail (e : Exc)
| C_value (v : option pystr)
| C_interrupted
| C_expired.

Section Coroutines.
(** The shared state, the tasks that can be created and what a task returns. *)
Context {S J O : Type}.

(** [Sync] is code that runs without waiting; it is given the identity of the task it may create.
    [Suspend] waits: [ready] says whether and how the wait ends. Outside code ([foreign]) that is
    cancelled may end as it likes. [Await] waits for a task under [shield]: a cancellation of the caller,
    or the expiry of its deadline, ends the wait and leaves the task alone. [Drain] waits for a task
    however often the caller is cancelled and says whether it was. [Cancel] is [task.cancel()]. *)
Inductive Eff : Type -> Type :=
| Sync {R : Type} (f : nat -> S -> answer R * S * option J) : Eff R
| Suspend {R : Type} (foreign : bool) (ready : Choice -> S -> option (answer R * S)) : Eff R
| Await (expires : bool) (task : nat) : Eff (answer O)
| Drain (task : nat) : Eff bool
| Cancel (task : nat) : Eff unit.

Inductive coro (A : Type) :=
| Ret (a : A)
| Raise (e : Exc)
| Do {R : Type} (e : Eff R) (k : answer R -> coro A).
Arguments Ret {A} a.
Arguments Raise {A} e.
Arguments Do {A R} e k.

Definition of_answer {A} (a : answer A) : coro A := match a with Ans x => Ret x | Threw e => Raise e end.
Definition eff {R} (e : Eff R) : coro R := Do e of_answer.

(** ** Control *)

(** Run [p], then [k] on how it ended. *)
Fixpoint after {A B} (p : coro A) (k : answer A -> coro B) : coro B :=
  match p with
  | Ret a => k (Ans a)
  | Raise e => k (Threw e)
  | Do e k' => Do e (fun r => after (k' r) k)
  end.
Definition cbind {A B} (p : coro A) (k : A -> coro B) : coro B :=
  after p (fun a => match a with Ans x => k x | Threw e => Raise e end).
(** [try: p] with the outcome in hand. *)
Definition capture {A} (p : coro A) : coro (answer A) := after p Ret.
(** [try: p finally: q]. *)
Definition finally {A} (p : coro A) (q : coro unit) : coro A :=
  after p (fun a => cbind q (fun _ => of_answer a)).

(** [async with deadline: p]: every wait of [p] may end because the deadline expired. *)
Definition expiring {R} (e : Eff R) : Eff R :=
  match e with
  | Suspend foreign ready =>
    Suspend foreign (fun c s => match c with C_expired => Some (Threw Expired, s) | _ => ready c s end)
  | Await _ task => Await true task
  | e => e
  end.
Fixpoint within_deadline {A} (p : coro A) : coro A :=
  match p with Do e k => Do (expiring e) (fun r => within_deadline (k r)) | p => p end.

(** [await task] under [asyncio.gather]: a caller that is cancelled, or whose deadline expires, cancels
    the task and then waits for it to end. (That the caller is cancelled again is not passed on here:
    the schedule may cancel the task too.) *)
Definition gather (task : nat) : coro (answer O) :=
  after (eff (Await false task)) (fun r =>
    match r with
    | Ans a => Ret a
    | Threw e => cbind (eff (Cancel task)) (fun _ =>
        cbind (eff (Drain task)) (fun again => Raise (if (again : bool) then Cancelled else e)))
    end).

(** [finish(task)]: the caller's cancellation waits for the task first. *)
Definition finish (task : nat) : coro O :=
  after (eff (Await false task)) (fun r =>
    match r with
    | Ans a => of_answer a
    | Threw e => cbind (eff (Drain task)) (fun _ => Raise e)
    end).

(** ** Tasks *)

Record Task := mk_Task { tk_prog : coro O; tk_cancelled : bool }.
Record World := mk_World { w_state : S; w_tasks : gmap nat Task; w_next : nat }.

Definition outcome (p : coro O) : option (answer O) :=
  match p with Ret o => Some (Ans o) | Raise e => Some (Threw e) | Do _ _ => None end.
Definition finished (w : World) (t : nat) : option (answer O) :=
  task ← w_tasks w !! t; outcome (tk_prog task).

(** A task created but not started yet: cancelled before it starts, it never runs. *)
Definition first_step : Eff unit :=
  Suspend false (fun c s => match c with C_ok => Some (Ans tt, s) | _ => None end).
Definition create {A} (p : coro A) : coro A := Do first_step (fun r => match r with Ans _ => p | Threw e => Raise e end).

Variable body : nat -> J -> coro O.

Definition put_task (w : World) (t : nat) (p : coro O) (cancelled : bool) : World :=
  mk_World (w_state w) (<[t := mk_Task p cancelled]> (w_tasks w)) (w_next w).
Definition put_state (w : World) (s : S) : World := mk_World s (w_tasks w) (w_next w).
Definition create_task (w : World) (j : option J) : World :=
  match j with
  | Some j => mk_World (w_state w) (<[w_next w := mk_Task (create (body (w_next w) j)) false]> (w_tasks w)) (Datatypes.S (w_next w))
  | None => w
  end.
(** [task.cancel()]: a finished task is left alone. *)
Definition cancel_task (w : World) (t : nat) : World :=
  match w_tasks w !! t with
  | Some task => match outcome (tk_prog task) with None => put_task w t (tk_prog task) true | Some _ => w end
  | None => w
  end.

(** A wait that ends in its own way. *)
Definition respond {R} (me : nat) (c : Choice) (w : World) (e : Eff R) (cancelled : bool)
    : option (answer R * bool * World) :=
  match e in Eff R return option (answer R * bool * World) with
  | Sync f =>
    let '(r, s, job) := f (w_next w) (w_state w) in
    Some (r, cancelled, create_task (put_state w s) job)
  | Suspend foreign ready =>
    if cancelled && match c with C_interrupted => true | _ => false end then Some (Threw Cancelled, false, w) else
    if cancelled && negb foreign then None else
    match ready c (w_state w) with Some (r, s) => Some (r, false, put_state w s) | None => None end
  | Await expires task =>
    if cancelled && match c with C_interrupted => true | _ => false end then Some (Threw Cancelled, false, w) else
    if expires && match c with C_expired => true | _ => false end then Some (Threw Expired, cancelled, w) else
    if cancelled then None else
    match finished w task with Some a => Some (Ans a, false, w) | None => None end
  | Drain task =>
    match finished w task with Some _ => Some (Ans cancelled, false, w) | None => None end
  | Cancel task => Some (Ans tt, cancelled, cancel_task w task)
  end.

(** One task goes on until it waits again, at the next effect. *)
Definition advance (me : nat) (c : Choice) (w : World) : option World :=
  match w_tasks w !! me with
  | Some task =>
    match tk_prog task with
    | Do e k =>
      match respond me c w e (tk_cancelled task) with
      | Some (r, cancelled, w') =>
        let cancelled := match w_tasks w' !! me with
                         | Some now => cancelled || (tk_cancelled now && negb (tk_cancelled task)) | None => cancelled end in
        Some (put_task w' me (k r) cancelled)
      | None => None
      end
    | _ => None
    end
  | None => None
  end.

(** What can happen: a task goes on, the program around it cancels it, or it calls the code. *)
Inductive Move :=
| M_run (task : nat) (c : Choice)
| M_interrupt (task : nat)
| M_call (job : J).
Definition move (m : Move) (w : World) : option World :=
  match m with
  | M_run t c => advance t c w
  | M_interrupt t => Some (cancel_task w t)
  | M_call j => Some (create_task w (Some j))
  end.
Fixpoint run_moves (w : World) (l : list Move) : option World :=
  match l with [] => Some w | m :: l => match move m w with Some w' => run_moves w' l | None => None end end.

End Coroutines.

Arguments Eff S J O R : clear implicits.
Arguments coro S J O A : clear implicits.
Arguments Task S J O : clear implicits.
Arguments World S J O : clear implicits.
Arguments Ret {S J O A} a.
Arguments Raise {S J O A} e.
Arguments Do {S J O A R} e k.
Arguments Await {S J O} expires task.
Arguments Drain {S J O} task.
Arguments Cancel {S J O} task.

Declare Scope coro_scope.
Delimit Scope coro_scope with coro.
Notation "'await' x := m 'in' k" := (cbind m (fun x => k))
  (at level 10, x pattern, m at level 100, k at level 200) : coro_scope.
Notation "m ';;;' k" := (cbind m (fun _ => k)) (at level 100, right associativity) : coro_scope.

(** ** Rely and guarantee

    [rely t] is what the other tasks may do to the state while task [t] waits; what [t] does must be
    something every other task relies on, and must keep the invariant. [wp t p Q s]: from [s], whatever
    the others do at its waits and however they end, [p] keeps its promises and ends in [Q]. *)

Section Logic.
Context {S J O : Type}.
Variable inv : S -> Prop.
Variable rely : nat -> S -> S -> Prop.
(** A task that does not exist yet owns nothing; and what a task may count on when it is created. *)
Variable idle : nat -> S -> Prop.
Variable accepts : nat -> J -> S -> Prop.
(** What the answer of a task says of the state. *)
Variable owed : answer O -> S -> Prop.

(** A step of [t] keeps the invariant and what the other tasks rely on; what a task it creates may
    count on is stated by [accepts]. *)
Definition keeps (t : nat) (s s' : S) : Prop := inv s' /\ forall u, u <> t -> rely u s s'.
Definition spawns (t n : nat) (job : option J) (s s' : S) : Prop :=
  match job with
  | None => keeps t s s'
  | Some j => inv s' /\ (forall u, u <> t -> u <> n -> rely u s s') /\ accepts n j s'
  end.

Definition eff_wp (t : nat) {R} (e : Eff S J O R) (Q : answer R -> S -> Prop) (s : S) : Prop :=
  match e in Eff _ _ _ R return (answer R -> S -> Prop) -> Prop with
  | Sync f => fun Q =>
    forall n, n <> t -> idle n s -> match f n s with (r, s', job) => spawns t n job s s' /\ Q r s' end
  | Suspend _ ready => fun Q =>
    (forall c r s', ready c s = Some (r, s') -> keeps t s s' /\ Q r s') /\ Q (Threw Cancelled) s /\ Q (Threw Expired) s
  | Await _ _ => fun Q => (forall a, owed a s -> Q (Ans a) s) /\ (forall e, Q (Threw e) s)
  | Drain _ => fun Q => forall r, Q r s
  | Cancel _ => fun Q => Q (Ans tt) s
  end Q.

Fixpoint wp (t : nat) {A} (p : coro S J O A) (Q : answer A -> S -> Prop) (s : S) : Prop :=
  match p with
  | Ret a => forall s', rely t s s' -> inv s' -> Q (Ans a) s'
  | Raise e => forall s', rely t s s' -> inv s' -> Q (Threw e) s'
  | Do e k => forall s', rely t s s' -> inv s' -> eff_wp t e (fun r s'' => wp t (k r) Q s'') s'
  end.

Context {rely_preorder : forall t, PreOrder (rely t)}.
Hypothesis owed_later : forall a t s s', rely t s s' -> owed a s -> owed a s'.

Lemma spawns_inv t n job s s' : spawns t n job s s' -> inv s'.
Proof. destruct job; [by intros (H & _)|by intros [H _]]. Qed.
Lemma keeps_refl t s : inv s -> keeps t s s.
Proof. intros I. split; [done|]. intros u _. reflexivity. Qed.

Lemma eff_wp_mono t R (e : Eff S J O R) (Q Q' : answer R -> S -> Prop) s :
  inv s -> (forall r s', inv s' -> Q r s' -> Q' r s') -> eff_wp t e Q s -> eff_wp t e Q' s.
Proof.
  intros Is H. destruct e; cbn; try (intros W; intros; by apply H); [| |intros [W E]; split; auto].
  - intros W n N I. specialize (W n N I). destruct (f n s) as [[r s'] job]. destruct W as (A & B).
    split; [done|]. apply H; [by eapply spawns_inv|done].
  - intros (W & C & E). split; [|split; by apply H]. intros c r s' E'. destruct (W c r s' E') as [K L].
    split; [done|]. apply H; [by destruct K|done].
Qed.

Lemma wp_mono t A (p : coro S J O A) (Q Q' : answer A -> S -> Prop) s :
  (forall a s', inv s' -> Q a s' -> Q' a s') -> wp t p Q s -> wp t p Q' s.
Proof.
  intros H. revert s. induction p as [a|e|R e k IH]; intros s; cbn.
  - intros W s' L I. by apply H, W.
  - intros W s' L I. by apply H, W.
  - intros W s' L I. eapply eff_wp_mono; [done| |by apply W]. intros r s'' _ X. cbn in X. by apply IH.
Qed.

Lemma wp_later t A (p : coro S J O A) Q s s' : rely t s s' -> wp t p Q s -> wp t p Q s'.
Proof. intros L. destruct p; cbn; intros W s'' L' I; apply W; [by etrans|done|by etrans|done|by etrans|done]. Qed.

Lemma wp_after t A B (p : coro S J O A) (k : answer A -> coro S J O B) Q s :
  inv s -> wp t p (fun a s' => wp t (k a) Q s') s -> wp t (after p k) Q s.
Proof.
  revert s. induction p as [a|e|R e k' IH]; intros s Is W.
  - cbn in *. by apply W.
  - cbn in *. by apply W.
  - change (after (Do e k') k) with (Do e (fun r => after (k' r) k)). intros s' L I. specialize (W s' L I).
    eapply eff_wp_mono; [done| |exact W]. intros r s1 I1 W1. by apply IH.
Qed.

Lemma wp_answer t A (a : answer A) (Q : answer A -> S -> Prop) s :
  (forall s', rely t s s' -> inv s' -> Q a s') -> wp t (of_answer a) Q s.
Proof. destruct a; auto. Qed.

Lemma wp_eff t R (e : Eff S J O R) Q s :
  (forall s', rely t s s' -> inv s' ->
    eff_wp t e (fun r s1 => forall s2, rely t s1 s2 -> inv s2 -> Q r s2) s') -> wp t (eff e) Q s.
Proof. intros H s' L I. eapply eff_wp_mono; [done| |by apply H]. intros r s1 _ X. by apply wp_answer. Qed.

(** What holds at the end of a task's code holds until the task goes on. *)
Lemma wp_closed t A (p : coro S J O A) Q s :
  wp t p Q s -> wp t p (fun a s' => forall s'', rely t s' s'' -> inv s'' -> Q a s'') s.
Proof.
  revert s. induction p as [a|e|R e k IH]; intros s; cbn.
  - intros W s' L I s'' L' I'. apply W; [by etrans|done].
  - intros W s' L I s'' L' I'. apply W; [by etrans|done].
  - intros W s' L I. eapply eff_wp_mono; [done| |by apply W]. intros r s'' _. apply IH.
Qed.

(** Code in sequence, its first part summed up by a postcondition. *)
Lemma wp_try t A B (p : coro S J O A) (k : answer A -> coro S J O B) P Q s :
  inv s -> wp t p P s -> (forall a s', inv s' -> P a s' -> wp t (k a) Q s') -> wp t (after p k) Q s.
Proof. intros I W H. apply wp_after; [done|]. eapply wp_mono; [|exact W]. auto. Qed.

Lemma wp_seq t A B (p : coro S J O A) (k : A -> coro S J O B) P Q s :
  inv s -> wp t p P s -> (forall x s', inv s' -> P (Ans x) s' -> wp t (k x) Q s') ->
  (forall e s', inv s' -> P (Threw e) s' -> Q (Threw e) s') -> wp t (cbind p k) Q s.
Proof.
  intros I W H E. eapply wp_try; [done|by apply wp_closed|]. intros [x|e] s' I' X; cbn.
  - apply H; [done|]. by apply X.
  - intros s'' L I''. apply E; [done|]. by apply X.
Qed.

Lemma wp_captured t A (p : coro S J O A) P Q s :
  inv s -> wp t p P s -> (forall a s', inv s' -> P a s' -> Q (Ans a) s') -> wp t (capture p) Q s.
Proof.
  intros I W H. eapply wp_try; [done|by apply wp_closed|]. intros a s' I' X s'' L I''. apply H; [done|]. by apply X.
Qed.

(** [finally]: the clean-up starts from wherever the body ended, and what it raises wins. *)
Lemma wp_finally t A (p : coro S J O A) (q : coro S J O unit) P Q s :
  inv s -> wp t p P s ->
  (forall a s', inv s' -> P a s' ->
    wp t q (fun b s1 => Q (match b with Ans _ => a | Threw e => Threw e end) s1) s') ->
  wp t (finally p q) Q s.
Proof.
  intros I W H. eapply wp_try; [done|exact W|]. intros a s' I' X.
  eapply wp_seq; [done|by apply wp_closed, H| |].
  - intros [] s1 I1 Y. apply wp_answer. intros s2 L I2. cbn in Y. by apply Y.
  - intros e s1 I1 Y. cbn in Y. apply Y; [reflexivity|done].
Qed.

Lemma wp_ret t A (a : A) Q s : (forall s', rely t s s' -> inv s' -> Q (Ans a) s') -> wp t (Ret a : coro S J O A) Q s.
Proof. done. Qed.
Lemma wp_raise t A (e : Exc) Q s : (forall s', rely t s s' -> inv s' -> Q (Threw e) s') -> wp t (Raise e : coro S J O A) Q s.
Proof. done. Qed.

(** The effects, from the state the code starts in to the state it goes on in. *)
Lemma wp_sync t R (f : nat -> S -> answer R * S * option J) Q s :
  (forall n s1, rely t s s1 -> inv s1 -> n <> t -> idle n s1 ->
    match f n s1 with (r, s2, job) => spawns t n job s1 s2 /\ (forall s3, rely t s2 s3 -> inv s3 -> Q r s3) end) ->
  wp t (eff (Sync f)) Q s.
Proof.
  intros H. apply wp_eff. intros s1 L I n N D. specialize (H n s1 L I N D). destruct (f n s1) as [[r s2] job]. exact H.
Qed.

Lemma wp_suspend t R foreign (ready : Choice -> S -> option (answer R * S)) Q s :
  (forall s1, rely t s s1 -> inv s1 -> Q (Threw Cancelled) s1 /\ Q (Threw Expired) s1) ->
  (forall c s1 r s2, rely t s s1 -> inv s1 -> ready c s1 = Some (r, s2) ->
    keeps t s1 s2 /\ (forall s3, rely t s2 s3 -> inv s3 -> Q r s3)) ->
  wp t (eff (Suspend foreign ready)) Q s.
Proof.
  intros E H. apply wp_eff. intros s1 L I. split; [|split; intros s2 L2 I2; apply E; [by etrans|done|by etrans|done]].
  intros c r s2 R2. by eapply H.
Qed.

Lemma wp_wait t R (e : Eff S J O R) Q s :
  match e with Drain _ | Cancel _ => True | _ => False end ->
  (forall r s', rely t s s' -> inv s' -> Q r s') -> wp t (eff e) Q s.
Proof.
  intros F H. apply wp_eff. intros s1 L I. destruct e; try done; cbn; intros; apply H; (by etrans) || done.
Qed.

Lemma wp_await t task Q s :
  (forall a s', rely t s s' -> inv s' -> owed a s' -> Q (Ans a) s') ->
  (forall e s', rely t s s' -> inv s' -> Q (Threw e) s') -> wp t (eff (Await false task)) Q s.
Proof.
  intros H E. apply wp_eff. intros s1 L I. split; [|intros e s2 L2 I2; apply E; [by etrans|done]].
  intros a Ow s2 L2 I2. apply H; [by etrans|done|]. by eapply owed_later.
Qed.

Lemma wp_gather t task Q s :
  inv s -> (forall r s', rely t s s' -> inv s' -> Q r s') -> wp t (gather task) Q s.
Proof.
  intros I H. eapply (wp_try _ _ _ _ _ (fun _ s' => rely t s s')); [done|by apply wp_await|].
  intros [a|e] s1 I1 L1; [intros s2 L2 I2; apply H; [by etrans|done]|].
  eapply (wp_seq _ _ _ _ _ (fun _ s' => rely t s s')); [done|apply wp_wait; [done|]; intros; by etrans| |intros; by apply H].
  intros _ s2 I2 L2. eapply (wp_seq _ _ _ _ _ (fun _ s' => rely t s s')); [done|apply wp_wait; [done|]; intros; by etrans| |intros; by apply H].
  intros b s3 I3 L3 s4 L4 I4. apply H; [by etrans|done].
Qed.

Lemma wp_finish t task Q s :
  inv s -> (forall r s', rely t s s' -> inv s' -> match r with Ans _ => owed r s' | Threw _ => True end -> Q r s') ->
  wp t (finish task : coro S J O O) Q s.
Proof.
  intros I H. eapply (wp_try _ _ _ _ _ (fun r s' => rely t s s' /\ match r with Ans a => owed a s' | Threw _ => True end));
    [done|by apply wp_await|].
  intros [a|e] s1 I1 [L1 Ow].
  { apply wp_answer. intros s2 L2 I2. apply H; [by etrans|done|]. destruct a; [|done]. by eapply owed_later. }
  eapply (wp_seq _ _ _ _ _ (fun _ s' => rely t s s')); [done|apply wp_wait; [done|]; intros; by etrans| |intros; by apply H].
  intros _ s2 I2 L2 s3 L3 I3. by apply H; [etrans|..].
Qed.

Lemma wp_deadline t A (p : coro S J O A) Q s : wp t p Q s -> wp t (within_deadline p) Q s.
Proof.
  revert s. induction p as [a|e|R e k IH]; intros s; cbn; try done.
  intros W s' L I. specialize (W s' L I). destruct e; cbn in *.
  - intros n N In. specialize (W n N In). destruct (f n s') as [[r s1] job]. destruct W as (K & W). auto.
  - destruct W as (W & C & E). split; [|split; by apply IH]. intros c r s1. destruct c; intros H;
      try (destruct (W _ _ _ H); auto; fail). injection H as <- <-. split; [|by apply IH]. by apply keeps_refl.
  - destruct W as [W E]. split; [intros a Ow|intros exc]; apply IH; auto.
  - intros r. apply IH, W.
  - by apply IH.
Qed.

(** ** Worlds *)

Variable body : nat -> J -> coro S J O O.
(** The jobs the program around the code may start. *)
Variable callable : J -> Prop.
Hypothesis owed_threw : forall e s, owed (Threw e) s.
Hypothesis body_ok : forall t j s, inv s -> accepts t j s -> wp t (body t j) owed s.
Hypothesis accepts_later : forall t j s s', rely t s s' -> accepts t j s -> accepts t j s'.
Hypothesis idle_later : forall t s s', rely t s s' -> idle t s -> idle t s'.
Hypothesis callable_ok : forall t j s, callable j -> inv s -> idle t s -> accepts t j s.

(** All is well with the tasks of a world, [me] apart: while [me] takes a step, it answers for itself. *)
Definition world_but (me : option nat) (w : World S J O) : Prop :=
  inv (w_state w)
  /\ (forall t, (w_next w <= t)%nat -> idle t (w_state w))
  /\ (forall t task, w_tasks w !! t = Some task -> (t < w_next w)%nat
                     /\ (me = Some t \/ wp t (tk_prog task) owed (w_state w))).
Definition world_ok : World S J O -> Prop := world_but None.

(** What the tasks that are not among the first [n] see of a step. *)
Definition beyond (n : nat) (s s' : S) : Prop := forall u, (n <= u)%nat -> rely u s s'.
Definition leads (w w' : World S J O) : Prop :=
  (w_next w <= w_next w')%nat /\ beyond (w_next w') (w_state w) (w_state w').

Lemma leads_refl w : leads w w.
Proof. split; [done|]. intros u _. reflexivity. Qed.
Lemma leads_trans w1 w2 w3 : leads w1 w2 -> leads w2 w3 -> leads w1 w3.
Proof.
  intros [A B] [A' B']. split; [lia|]. intros u L. etrans; [apply B; lia|by apply B'].
Qed.

Lemma create_ok t j s : inv s -> accepts t j s -> wp t (create (body t j)) owed s.
Proof.
  intros Is Ac s1 L I1. assert (accepts t j s1) by (by eapply accepts_later).
  split; [|split; intros s2 _ _; apply owed_threw]. intros c r s2 R. destruct c; try done. injection R as <- <-.
  split; [|by apply body_ok]. by apply keeps_refl.
Qed.

Lemma put_task_ok me w t p b :
  world_but me w -> (t < w_next w)%nat -> me = Some t \/ wp t p owed (w_state w) -> world_but me (put_task w t p b).
Proof.
  intros (I & Id & T) Lt W. split; [done|split; [done|]]. cbn. intros u task [[<- <-]|[N L]]%lookup_insert_Some; [done|auto].
Qed.

Lemma cancel_task_same (w : World S J O) t : w_state (cancel_task w t) = w_state w /\ w_next (cancel_task w t) = w_next w.
Proof. unfold cancel_task. destruct (w_tasks w !! t) as [task|]; [destruct (outcome (tk_prog task))|]; by split. Qed.

Lemma cancel_task_ok me w t : world_but me w -> world_but me (cancel_task w t).
Proof.
  intros W. unfold cancel_task. destruct (w_tasks w !! t) as [task|] eqn:L; [|done].
  destruct (outcome (tk_prog task)); [done|]. pose proof W as (_ & _ & T). destruct (T _ _ L).
  by apply put_task_ok.
Qed.

Lemma put_state_ok me w s :
  world_but (Some me) w -> (me < w_next w)%nat -> keeps me (w_state w) s ->
  world_but (Some me) (put_state w s) /\ leads w (put_state w s).
Proof.
  intros (I & Id & T) Lt (I' & K). split; [split; [done|split]|split; [done|]]; cbn.
  - intros t L. eapply idle_later; [apply K; lia|auto].
  - intros t task L. destruct (T _ _ L) as (Lt' & [[= <-]|W]); [by split; [|left]|]. split; [done|].
    destruct (decide (me = t)) as [<-|N]; [by left|]. right. eapply wp_later; [apply K; congruence|done].
  - intros u L. apply K. lia.
Qed.

(** A task that is created, by another or from outside. *)
Lemma create_task_ok me w j s :
  world_but me w -> inv s -> (forall u, me <> Some u -> u <> w_next w -> rely u (w_state w) s) ->
  (forall u, me = Some u -> (u < w_next w)%nat) -> accepts (w_next w) j s ->
  world_but me (create_task body (put_state w s) (Some j)) /\ leads w (create_task body (put_state w s) (Some j)).
Proof.
  intros (I & Id & T) I' K Lm Ac. split; [split; [done|split]|split; [cbn; lia|]]; cbn.
  - intros t L. eapply idle_later; [apply K; [intros M%Lm|]; lia|apply Id; lia].
  - intros t task [[<- <-]|[N L]]%lookup_insert_Some; [split; [lia|]; right; by apply create_ok|].
    destruct (T _ _ L) as (Lt & [M|W]); [split; [lia|by left]|]. split; [lia|].
    destruct (decide (me = Some t)) as [M|M]; [by left|]. right. eapply wp_later; [by apply K|done].
  - intros u L. apply K; [intros M%Lm|]; lia.
Qed.

(** A task that has ended keeps what its answer says. *)
Lemma finished_owed me w t a : world_but me w -> me <> Some t -> finished w t = Some a -> owed a (w_state w).
Proof.
  intros (I & Id & T) N. unfold finished. destruct (w_tasks w !! t) as [task|] eqn:L; [|done]. cbn.
  destruct (T _ _ L) as [_ [?|W]]; [done|]. destruct (tk_prog task); cbn in *; [intros [= <-]|intros [= <-]|done]; (apply W; [reflexivity|done]).
Qed.

Lemma respond_ok me R (e : Eff S J O R) k c w b r b' w' :
  world_but (Some me) w -> (me < w_next w)%nat -> finished w me = None -> eff_wp me e (fun r s => wp me (k r) owed s) (w_state w) ->
  respond body me c w e b = Some (r, b', w') ->
  world_but (Some me) w' /\ leads w w' /\ wp me (k r : coro S J O O) owed (w_state w').
Proof.
  intros W Lt Nf E H. pose proof W as (I & Id & T).
  destruct e as [R f|R foreign ready|expires task|task|task]; cbn in H, E.
  - destruct (f (w_next w) (w_state w)) as [[r1 s1] job] eqn:F. injection H as <- <- <-.
    specialize (E (w_next w) ltac:(lia) (Id _ (Nat.le_refl _))). rewrite F in E. destruct E as [K Q].
    destruct job as [j|].
    + destruct K as (I1 & K & Ac).
      destruct (create_task_ok (Some me) w j s1) as [W1 L1];
        [done|done|intros u N; apply K; congruence|by intros u [= <-]|done|].
      split; [exact W1|split; [exact L1|exact Q]].
    + destruct (put_state_ok me w s1) as [W1 L1]; [done|done|exact K|]. split; [exact W1|split; [exact L1|exact Q]].
  - destruct E as (E & Cn & Ex). destruct (b && _); [injection H as <- <- <-; by split; [|split; [apply leads_refl|]]|].
    destruct (b && _); [done|]. destruct (ready c (w_state w)) as [[r1 s1]|] eqn:F; [|done]. injection H as <- <- <-.
    destruct (E _ _ _ F) as [K Q]. destruct (put_state_ok me w s1) as [W1 L1]; [done|done|exact K|].
    split; [exact W1|split; [exact L1|exact Q]].
  - destruct (b && _); [injection H as <- <- <-; by split; [|split; [apply leads_refl|apply E]]|].
    destruct (expires && _); [injection H as <- <- <-; by split; [|split; [apply leads_refl|apply E]]|].
    destruct b; [done|]. destruct (finished w task) as [a|] eqn:F; [|done]. injection H as <- <- <-.
    split; [done|split; [apply leads_refl|]]. apply E. apply (finished_owed (Some me) w task); [done|congruence|done].
  - destruct (finished w task); [|done]. injection H as <- <- <-. by split; [|split; [apply leads_refl|apply E]].
  - injection H as <- <- <-. destruct (cancel_task_same w task) as [A B]. split; [by apply cancel_task_ok|]. rewrite A.
    split; [|apply E]. split; [by rewrite B|]. rewrite A. intros u _. reflexivity.
Qed.

Lemma advance_ok me c w w' : world_ok w -> advance body me c w = Some w' -> world_ok w' /\ leads w w'.
Proof.
  intros (I & Id & T) H. unfold advance in H. destruct (w_tasks w !! me) as [task|] eqn:L; [|done].
  destruct (T _ _ L) as (Lt & [?|W]); [done|]. destruct (tk_prog task) as [|?|R e k] eqn:P; [done|done|].
  destruct (respond body me c w e (tk_cancelled task)) as [[[r b] w1]|] eqn:E; [|done]. injection H as <-.
  destruct (respond_ok me R e k c w (tk_cancelled task) r b w1) as (W1 & L1 & Q); try done.
  2: { unfold finished. by rewrite L; cbn; rewrite P. }
  - split; [done|split; [done|]]. intros t tk Ltk. destruct (T _ _ Ltk) as (? & [?|?]); [done|]. split; [done|by right].
  - apply W; [reflexivity|done].
  - destruct W1 as (I1 & Id1 & T1). split; [|destruct L1; by split]. split; [done|split; [done|]]. cbn.
    destruct L1 as [Nx _]. intros t tk [[<- <-]|[N Lk]]%lookup_insert_Some; [split; [lia|by right]|].
    destruct (T1 _ _ Lk) as (? & [[=]|?]); [done|]. split; [done|by right].
Qed.

Lemma move_ok m w w' :
  match m with M_call j => callable j | _ => True end ->
  world_ok w -> move body m w = Some w' -> world_ok w' /\ leads w w'.
Proof.
  destruct m as [t c|t|j]; cbn [move]; intros C W H.
  - by eapply advance_ok.
  - injection H as <-. destruct (cancel_task_same w t) as [A B]. split; [by apply cancel_task_ok|].
    split; [by rewrite B|]. rewrite A. intros u _. reflexivity.
  - injection H as <-. pose proof W as (I & Id & T). replace w with (put_state w (w_state w)) at 1 by by destruct w.
    replace w with (put_state w (w_state w)) at 3 by by destruct w.
    apply create_task_ok; try done. by apply callable_ok; [| |apply Id].
Qed.

(** Every schedule keeps the invariant, and what the tasks yet to come will count on. *)
Lemma run_moves_ok l w w' :
  (forall j, M_call j ∈ l -> callable j) ->
  world_ok w -> run_moves body w l = Some w' -> world_ok w' /\ leads w w'.
Proof.
  revert w. induction l as [|m l IH]; intros w C W H; cbn in H; [injection H as <-; split; [done|apply leads_refl]|].
  destruct (move body m w) as [w1|] eqn:E; [|done].
  destruct (move_ok m w w1) as [W1 L1]; [destruct m; try done; apply C; left|done|done|].
  destruct (IH w1) as [W2 L2]; [intros j Hj; apply C; by right|done|done|]. split; [done|by eapply leads_trans].
Qed.

End Logic.
