(* ===== verification/Operations.v ===== *)
(** Durable asynchronous operations (vs_async_ops/models.py, and the store of testing.py that
    implements the store contract of ports.py): what a record is, which records are valid, and how the
    record of an operation may go on. *)

From Stdlib Require Import SpecFloat.
From S2P Require Import Prelude Floats.
Open Scope Z_scope.

(** ** Bounds *)

(** What a caller may pass for a number; [bool] is a subclass of [int]. *)
Inductive number := N_bool (b : bool) | N_int (z : Z) | N_float (x : float).

(** [isinstance(x, bool) or not math.isfinite(x) or x <= 0]: an [int] too large for a float makes
    [math.isfinite] raise. *)
Definition not_positive_finite (x : number) : result bool :=
  match x with
  | N_bool _ => Ok true
  | N_int z => raise (OtherError "OverflowError" []) when negb (f_finite (f_of_Z z)) in Ok (z <=? 0)
  | N_float x => Ok (negb (f_finite x) || f_le x f_zero)
  end.

(** The value of a finite number is [m * 2^e]; Python compares [int] and [float] by their values. *)
Definition dyadic (x : number) : Z * Z :=
  match x with
  | N_bool b => (if b then 1 else 0, 0)
  | N_int z => (z, 0)
  | N_float (S754_finite sign m e) => (if (sign : bool) then Z.neg m else Z.pos m, e)
  | N_float _ => (0, 0)
  end.
Definition number_gt (x y : number) : bool :=
  let '(m, e) := dyadic x in let '(m', e') := dyadic y in
  let low := Z.min e e' in m' * 2 ^ (e' - low) <? m * 2 ^ (e - low).

Record OperationPolicy := mk_OperationPolicy {
  max_await_timeout_s : option number;
  max_in_flight : option number;
  cancellation_timeout_s : option number }.

Definition InvalidOperationPolicyError (field : string) : exn :=
  ValueError (if String.eqb field "max_in_flight" then "{} must be a positive integer" else "{} must be a positive finite number")
    [AStr (py field)].
Definition check_seconds (field : string) (x : option number) : result unit :=
  match x with
  | None => Ok tt
  | Some x => let* bad := not_positive_finite x in raise (InvalidOperationPolicyError field) when bad in Ok tt
  end.
(** [isinstance(n, bool) or not isinstance(n, int) or n <= 0]. *)
Definition bad_limit (x : number) : bool := match x with N_int z => z <=? 0 | _ => true end.
Definition check_policy (p : OperationPolicy) : result unit :=
  let* _ := check_seconds "max_await_timeout_s" (max_await_timeout_s p) in
  raise (InvalidOperationPolicyError "max_in_flight")
    when match max_in_flight p with Some x => bad_limit x | None => false end in
  check_seconds "cancellation_timeout_s" (cancellation_timeout_s p).

(** [_validate_timeout]. *)
Definition validate_timeout (p : OperationPolicy) (timeout_s : number) : result unit :=
  let* bad := not_positive_finite timeout_s in
  raise (ValueError "timeout_s must be a positive finite number" [])
    when bad || match max_await_timeout_s p with Some m => number_gt timeout_s m | None => false end in
  Ok tt.

(** The value of the admission semaphore. *)
Definition in_flight_limit (p : OperationPolicy) : option nat :=
  match max_in_flight p with Some (N_int z) => Some (Z.to_nat z) | _ => None end.

(** ** Records *)

Inductive OperationState := QUEUED | RUNNING | SUCCEEDED | FAILED | CANCELED | INTERRUPTED.
#[export] Instance OperationState_eq_dec : EqDecision OperationState.
Proof. solve_decision. Defined.
Definition terminal (s : OperationState) : bool :=
  match s with SUCCEEDED | FAILED | CANCELED | INTERRUPTED => true | QUEUED | RUNNING => false end.

(** JSON values are opaque: [None] is null, any other value is given by its text. *)
Abbreviation JsonValue := (option pystr).

Record OperationRequest := mk_OperationRequest {
  operation_id : pystr;
  concurrency_key : pystr;
  payload : JsonValue }.
#[export] Instance OperationRequest_eq_dec : EqDecision OperationRequest.
Proof. solve_decision. Defined.
(** Both identities have [min_length=1]. *)
Definition request_valid (r : OperationRequest) : bool := str_truthy (operation_id r) && str_truthy (concurrency_key r).

Record OperationHandle := mk_OperationHandle {
  h_request : OperationRequest;
  h_state : OperationState;
  h_result : JsonValue;
  h_result_present : bool;
  h_failure : option pystr;
  h_revision : Z }.
#[export] Instance OperationHandle_eq_dec : EqDecision OperationHandle.
Proof. solve_decision. Defined.
Definition h_id (h : OperationHandle) : pystr := operation_id (h_request h).
Definition h_terminal (h : OperationHandle) : bool := terminal (h_state h).

(** [_infer_legacy_nonnull_result_presence]: the value of [result_present] when it was not given. *)
Definition infer_presence (state : OperationState) (result : JsonValue) (present : option bool) : bool :=
  match present with
  | Some b => b
  | None => bool_decide (state = SUCCEEDED) && bool_decide (result <> None)
  end.

(** [_terminal_fields_match_state]. *)
Definition terminal_fields_match_state (h : OperationHandle) : result unit :=
  raise (ValidationError "succeeded operation requires a result")
    when bool_decide (h_state h = SUCCEEDED) && negb (h_result_present h) in
  raise (ValidationError "failed operation requires a failure")
    when bool_decide (h_state h = FAILED) && negb (opt_str_truthy (h_failure h)) in
  raise (ValidationError "only failed operation may contain a failure")
    when negb (bool_decide (h_state h = FAILED)) && bool_decide (h_failure h <> None) in
  raise (ValidationError "only succeeded operation may contain a result")
    when negb (bool_decide (h_state h = SUCCEEDED)) && (bool_decide (h_result h <> None) || h_result_present h) in
  Ok tt.

(** The constructor: pydantic checks the fields, then the model. *)
Definition operation_handle (request : OperationRequest) (state : OperationState) (result : JsonValue)
    (result_present : option bool) (failure : option pystr) (revision : Z) : Prelude.result OperationHandle :=
  raise (ValidationError "revision") when revision <? 0 in
  let h := mk_OperationHandle request state result (infer_presence state result result_present) failure revision in
  let* _ := terminal_fields_match_state h in
  Ok h.

Definition handle_valid (h : OperationHandle) : Prop := 0 <= h_revision h /\ terminal_fields_match_state h = Ok tt.

Record OperationLifecycleEvent := mk_OperationLifecycleEvent {
  ev_operation_id : pystr;
  ev_concurrency_key : pystr;
  ev_state : OperationState;
  ev_revision : Z }.
Definition lifecycle_event (h : OperationHandle) : OperationLifecycleEvent :=
  mk_OperationLifecycleEvent (h_id h) (concurrency_key (h_request h)) (h_state h) (h_revision h).

(** ** The store *)

Abbreviation Records := (gmap pystr OperationHandle).
Definition FakeStoreError (reason : string) (id : pystr) : exn := OtherError reason [AStr id].

Definition store_create (record : OperationHandle) (records : Records) : result Records :=
  raise (FakeStoreError "operation {} already exists" (h_id record))
    when bool_decide (is_Some (records !! h_id record)) in
  Ok (<[h_id record := record]> records).
Definition store_get (id : pystr) (records : Records) : option OperationHandle := records !! id.
Definition store_replace (record : OperationHandle) (expected_revision : Z) (records : Records) : result Records :=
  match records !! h_id record with
  | Some current =>
    raise (FakeStoreError "operation {} revision conflict" (h_id record))
      when negb (h_revision current =? expected_revision) in
    Ok (<[h_id record := record]> records)
  | None => Err (FakeStoreError "operation {} revision conflict" (h_id record))
  end.
Definition store_records (records : Records) : list OperationHandle := map snd (map_to_list records).

(** ** The life of an operation *)

Definition rank (s : OperationState) : Z := match s with QUEUED => 0 | RUNNING => 1 | _ => 2 end.

(** [h'] is the record of the same operation, now or later: revisions count the writes, a terminal
    record is final, and an operation that ended with a result or a failure was running before. *)
Definition later (h h' : OperationHandle) : Prop :=
  h_request h = h_request h' /\ rank (h_state h) < rank (h_state h')
  /\ h_revision h < h_revision h' <= h_revision h + (rank (h_state h') - rank (h_state h))
  /\ (h_state h = QUEUED -> h_state h' = SUCCEEDED \/ h_state h' = FAILED -> h_revision h' = h_revision h + 2).
Definition follows (h h' : OperationHandle) : Prop := h = h' \/ later h h'.

Lemma rank_terminal s : terminal s = true <-> rank s = 2.
Proof. by destruct s. Qed.
Lemma rank_bounds s : 0 <= rank s <= 2.
Proof. destruct s; simpl; lia. Qed.
Lemma rank_running s : rank s = 1 <-> s = RUNNING.
Proof. by destruct s. Qed.
Lemma rank_queued s : rank s = 0 <-> s = QUEUED.
Proof. by destruct s. Qed.

Lemma later_trans h1 h2 h3 : later h1 h2 -> later h2 h3 -> later h1 h3.
Proof.
  intros (A & B & C & D) (A' & B' & C' & D'). split; [congruence|]. split; [lia|]. split; [lia|]. intros Q T.
  pose proof (proj2 (rank_queued (h_state h1)) Q). pose proof (rank_bounds (h_state h3)).
  pose proof (rank_bounds (h_state h2)). lia.
Qed.

#[export] Instance follows_preorder : PreOrder follows.
Proof.
  split; [by left|]. intros h1 h2 h3 [<-|L] [<-|L']; [by left|by right|by right|right; by eapply later_trans].
Qed.

Lemma follows_later h1 h2 h3 : follows h1 h2 -> later h2 h3 -> later h1 h3.
Proof. intros [<-|L] L'; [done|by eapply later_trans]. Qed.
Lemma follows_id h h' : follows h h' -> h_id h = h_id h'.
Proof. intros [<-|(A & _)]; [done|]. unfold h_id. by rewrite A. Qed.
Lemma follows_request h h' : follows h h' -> h_request h = h_request h'.
Proof. by intros [<-|(A & _)]. Qed.
(** A reader whose revision is still the current one has the current record. *)
Lemma follows_revision h h' : follows h h' -> h_revision h' = h_revision h -> h = h'.
Proof. intros [<-|(_ & _ & A & _)] E; [done|lia]. Qed.
Lemma follows_terminal h h' : follows h h' -> h_terminal h = true -> h = h'.
Proof.
  intros [<-|(_ & A & _)] T; [done|]. apply rank_terminal in T. pose proof (rank_bounds (h_state h')). lia.
Qed.
Lemma follows_not_queued h h' : follows h h' -> h_state h <> QUEUED -> h_state h' <> QUEUED.
Proof.
  intros [<-|(_ & A & _)] N; [done|]. intros Q. rewrite Q in A. simpl in A. pose proof (rank_bounds (h_state h)). lia.
Qed.

Lemma operation_handle_ok r s v p f n h :
  operation_handle r s v p f n = Ok h ->
  h = mk_OperationHandle r s v (infer_presence s v p) f n /\ handle_valid h.
Proof.
  unfold operation_handle. intros [N H]%guard_Ok. apply bind_Ok in H as ([] & V & [= <-]).
  split; [done|]. split; [simpl; apply Z.ltb_ge in N; lia|done].
Qed.

(** The record a transition writes comes later, whenever the transition is one of the life cycle. *)
Lemma later_next r st v p f u :
  operation_handle (h_request r) st v p f (h_revision r + 1) = Ok u -> rank (h_state r) < rank st ->
  (h_state r = QUEUED -> st <> SUCCEEDED /\ st <> FAILED) -> later r u.
Proof.
  intros [-> _]%operation_handle_ok Rk Q. split; [done|]. cbn. split; [done|]. split; [lia|].
  intros E [E'|E']; by destruct (Q E).
Qed.

(** What a valid record says: its result and its failure go with its state. *)
Lemma handle_valid_exact h :
  handle_valid h <->
  0 <= h_revision h
  /\ (h_result_present h = true <-> h_state h = SUCCEEDED)
  /\ (is_Some (h_failure h) <-> h_state h = FAILED)
  /\ h_failure h <> Some []
  /\ (is_Some (h_result h) -> h_state h = SUCCEEDED).
Proof.
  unfold handle_valid, terminal_fields_match_state, is_Some.
  destruct h as [rq st [v|] [|] [[|c f]|] n]; destruct st; cbn; naive_solver lia.
Qed.

(** ** The store is atomic *)

Lemma store_create_ok h m m' : store_create h m = Ok m' <-> m !! h_id h = None /\ m' = <[h_id h := h]> m.
Proof.
  unfold store_create. case_bool_decide as B; split; [done| |intros [= <-]; split; [|done]|by intros [_ ->]].
  - intros [N _]. rewrite N in B. by destruct B.
  - by apply eq_None_not_Some.
Qed.
Lemma store_replace_ok h n m m' :
  store_replace h n m = Ok m' <-> exists c, m !! h_id h = Some c /\ h_revision c = n /\ m' = <[h_id h := h]> m.
Proof.
  unfold store_replace. destruct (m !! h_id h) as [c|]; [|naive_solver].
  rewrite guard_Ok, negb_false_iff, Z.eqb_eq. naive_solver.
Qed.
Lemma store_records_spec (m : Records) h : h ∈ store_records m -> exists id, m !! id = Some h.
Proof.
  unfold store_records. intros ([id h'] & -> & E)%list_elem_of_fmap. exists id. by apply elem_of_map_to_list.
Qed.
