(* ===== verification/Coordinator.v ===== *)
(** The coordinator of asynchronous operations (vs_async_ops/coordinator.py, with the waits of
    settling.py and the latch [AsyncCloseOnce] of vs_sim/release.py): its state and its methods, as
    coroutines. The store, the runner, the waiter and the event sinks are ports: the store keeps its
    contract (it is atomic and compares revisions) but any call of it may raise, before or after its
    effect; the runner answers, raises, or reacts to a cancellation as it likes. *)
From S2P Require Import Prelude Coroutines Operations.
Open Scope coro_scope.

(** ** State *)

(** [_LockEntry]. The lock names its holder, and [users] names the tasks it counts. *)
Record _LockEntry := mk_LockEntry { e_lock : option nat; e_users : list nat }.
(** [_LockPool]: entries are objects, so that a task can hold on to one. *)
Record _LockPool := mk_LockPool {
  p_entries : gmap pystr nat;
  p_objects : gmap nat _LockEntry;
  p_next : nat }.
#[export] Instance eta_LockEntry : Eta _LockEntry := fun x => mk_LockEntry (e_lock x) (e_users x).
#[export] Instance eta_LockPool : Eta _LockPool := fun x => mk_LockPool (p_entries x) (p_objects x) (p_next x).

(** The attributes of the coordinator and the durable records behind its store. The semaphore
    [_admission] names the tasks it has admitted (for them the local [admitted] of [_execute] is
    true). [writes], [published], [active] and [runs] are what the ports saw: the records the store
    accepted, the events, the calls of [runner.run] that have not ended, by task, and the operations
    it was called for. [spawning] names the call of [submit] that has created the record of an
    operation and not yet its task. *)
Record Coordinator := mk_Coordinator {
  store : Records;
  writes : list OperationHandle;
  _started : bool;
  _admission_closed : bool;
  _start_lock : option nat;
  _lifecycle_lock : option nat;
  _key_locks : _LockPool;
  _operation_locks : _LockPool;
  _admission : gset nat;
  _changed : gmap pystr nat;
  signaled : gset nat;
  next_event : nat;
  _latest : gmap pystr OperationHandle;
  _tasks : gmap pystr nat;
  close_started : bool;
  close_released : bool;
  close_attempt : option nat;
  published : list OperationLifecycleEvent;
  active : gmap nat OperationRequest;
  runs : list pystr;
  spawning : gmap pystr nat }.
#[export] Instance eta_Coordinator : Eta Coordinator := fun x =>
  mk_Coordinator (store x) (writes x) (_started x) (_admission_closed x) (_start_lock x) (_lifecycle_lock x)
    (_key_locks x) (_operation_locks x) (_admission x) (_changed x) (signaled x) (next_event x) (_latest x) (_tasks x)
    (close_started x) (close_released x) (close_attempt x) (published x) (active x) (runs x) (spawning x).

Definition empty_pool : _LockPool := mk_LockPool ∅ ∅ 0.
(** [__init__], over the records an earlier process may have left. *)
Definition coordinator (records : Records) : Coordinator :=
  mk_Coordinator records [] false false None None empty_pool empty_pool ∅ ∅ ∅ 0 ∅ ∅ false false None [] ∅ [] ∅.

(** ** Jobs *)

(** What tasks return: [R_ended] is the record [cancel] and [wait_result] return, [R_completed] and
    [R_timed_out] are the two results of [await_result]. *)
Inductive Reply :=
| R_none
| R_handle (h : OperationHandle)
| R_ended (h : OperationHandle)
| R_records (l : list OperationHandle)
| R_completed (h : OperationHandle)
| R_timed_out (h : OperationHandle)
| R_released.

(** The calls of the public methods, then the tasks the coordinator creates itself. *)
Inductive Job :=
| J_start
| J_submit (request : OperationRequest)
| J_status (operation_id : pystr)
| J_records
| J_await_result (operation_id : pystr) (timeout_s : number)
| J_wait_result (turns : nat) (operation_id : pystr)
| J_cancel (operation_id : pystr)
| J_close
| J_execute (request : OperationRequest)
| J_terminate (operation_id : pystr) (terminal_state : OperationState)
| J_close_once
| J_settle.

Abbreviation prog := (coro Coordinator Job Reply).
Abbreviation effect := (Eff Coordinator Job Reply).

(** Code that does not wait. *)
Definition get {R} (f : Coordinator -> R) : prog R := eff (Sync (fun _ s => (Ans (f s), s, None))).
Definition modify (f : Coordinator -> Coordinator) : prog unit := eff (Sync (fun _ s => (Ans tt, f s, None))).
Definition spawn (job : Job) : prog nat := eff (Sync (fun n s => (Ans n, s, Some job))).

(** What outside code raises: anything but the expiry of a deadline of this module. *)
Definition raised {R} (e : Exc) (s : Coordinator) : option (answer R * Coordinator) :=
  match e with Expired => None | e => Some (Threw e, s) end.
Definition exc_of (e : exn) : Exc :=
  match e with
  | ValueError text _ => Error (py "ValueError") (py text)
  | ValidationError text => Error (py "ValidationError") (py text)
  | OtherError name _ => Error (py name) []
  | _ => Error (py "Exception") []
  end.
Definition lift {R} (m : result R) : prog R := match m with Ok r => Ret r | Err e => Raise (exc_of e) end.

(** ** Locks *)

Inductive Pool := Keys | Operations.
#[export] Instance Pool_eq_dec : EqDecision Pool.
Proof. solve_decision. Defined.
Inductive Lock := L_start | L_lifecycle | L_entry (pool : Pool) (entry : nat).
#[export] Instance Lock_eq_dec : EqDecision Lock.
Proof. solve_decision. Defined.

Definition pool_of (w : Pool) (s : Coordinator) : _LockPool := match w with Keys => _key_locks s | Operations => _operation_locks s end.
Definition set_pool (w : Pool) (p : _LockPool) (s : Coordinator) : Coordinator :=
  match w with Keys => s <| _key_locks := p |> | Operations => s <| _operation_locks := p |> end.
Definition holder (l : Lock) (s : Coordinator) : option nat :=
  match l with
  | L_start => _start_lock s
  | L_lifecycle => _lifecycle_lock s
  | L_entry w n => e ← p_objects (pool_of w s) !! n; e_lock e
  end.
Definition set_holder (l : Lock) (h : option nat) (s : Coordinator) : Coordinator :=
  match l with
  | L_start => s <| _start_lock := h |>
  | L_lifecycle => s <| _lifecycle_lock := h |>
  | L_entry w n =>
    let p := pool_of w s in
    set_pool w (p <| p_objects := alter (fun e => e <| e_lock := h |>) n (p_objects p) |>) s
  end.

(** [asyncio.Lock]: only its holder may go on. *)
Definition acquire (me : nat) (l : Lock) : prog unit :=
  eff (Suspend false (fun c s =>
    match c, holder l s with C_ok, None => Some (Ans tt, set_holder l (Some me) s) | _, _ => None end)).
Definition release (l : Lock) : prog unit := modify (set_holder l None).
(** [async with lock: p]. *)
Definition with_lock {A} (me : nat) (l : Lock) (p : prog A) : prog A := acquire me l ;;; finally p (release l).

(** The two bodies of [_LockPool.hold] that run under [_guard]. Neither waits, so the guard is free
    whenever a task asks for it and each body is one step. *)
Definition join (me : nat) (w : Pool) (key : pystr) (s : Coordinator) : nat * Coordinator :=
  let p := pool_of w s in
  let '(entry, p) :=
    match p_entries p !! key with
    | Some entry => (entry, p)
    | None => (p_next p, p <| p_entries := <[key := p_next p]> (p_entries p) |>
                           <| p_objects := <[p_next p := mk_LockEntry None []]> (p_objects p) |>
                           <| p_next := S (p_next p) |>)
    end in
  (entry, set_pool w (p <| p_objects := alter (fun e => e <| e_users := me :: e_users e |>) entry (p_objects p) |>) s).
Fixpoint drop_one (me : nat) (l : list nat) : list nat :=
  match l with [] => [] | x :: l => if (x =? me)%nat then l else x :: drop_one me l end.
Definition leave (me : nat) (w : Pool) (key : pystr) (entry : nat) (s : Coordinator) : Coordinator :=
  let p := pool_of w s in
  let p := p <| p_objects := alter (fun e => e <| e_users := drop_one me (e_users e) |>) entry (p_objects p) |> in
  let unused := match p_objects p !! entry with Some e => bool_decide (e_users e = []) | None => true end in
  set_pool w (if unused && bool_decide (p_entries p !! key = Some entry)
              then p <| p_entries := delete key (p_entries p) |> else p) s.
(** [async with pool.hold(key): p]. *)
Definition hold {A} (me : nat) (w : Pool) (key : pystr) (p : prog A) : prog A :=
  await entry := eff (Sync (fun _ s => let '(entry, s) := join me w key s in (Ans entry, s, None))) in
  finally (acquire me (L_entry w entry) ;;; finally p (release (L_entry w entry)))
    (modify (leave me w key entry)).

(** ** The store *)

(** A call of the store: its effect, which may not come, and then the way back to the caller, which
    may fail although the effect happened. *)
Definition resume : prog unit :=
  eff (Suspend true (fun c s => match c with C_ok => Some (Ans tt, s) | C_fail e => raised e s | _ => None end)).
Definition call_store {R} (f : Coordinator -> answer R * Coordinator) : prog R :=
  await r := eff (Suspend true (fun c s =>
    match c with C_ok => Some (f s) | C_fail e => raised e s | _ => None end)) in
  resume ;;;
  Ret r.
Definition written (h : OperationHandle) (m : result Records) (s : Coordinator) : answer unit * Coordinator :=
  match m with
  | Ok m => (Ans tt, s <| store := m |> <| writes := writes s ++ [h] |>)
  | Err e => (Threw (exc_of e), s)
  end.
Definition create (me : nat) (h : OperationHandle) : prog unit :=
  call_store (fun s => match written h (store_create h (store s)) s with
                       | (Ans r, s) => (Ans r, s <| spawning := <[h_id h := me]> (spawning s) |>)
                       | r => r end).
Definition replace (h : OperationHandle) (expected_revision : Z) : prog unit :=
  call_store (fun s => written h (store_replace h expected_revision (store s)) s).
Definition get_record (id : pystr) : prog (option OperationHandle) := call_store (fun s => (Ans (store_get id (store s)), s)).
Definition all_records : prog (list OperationHandle) := call_store (fun s => (Ans (store_records (store s)), s)).

Section Coordinator.
Variable policy : OperationPolicy.
(** The event sink and the reporter of its errors: whether they raise. *)
Variable events : OperationLifecycleEvent -> option Exc.
Variable event_errors : Exc -> OperationLifecycleEvent -> option Exc.

(** ** Records and their changes *)

Definition _publish (h : OperationHandle) : prog unit :=
  eff (Sync (fun _ s =>
    let event := lifecycle_event h in
    (match events event with
     | Some exc =>
       if is_exception exc then
         match event_errors exc event with
         | Some exc' => if is_exception exc' then Ans tt else Threw exc'
         | None => Ans tt
         end
       else Threw exc
     | None => Ans tt
     end, s <| published := published s ++ [event] |>, None))).

Definition _transition (record : OperationHandle) (state : OperationState) (result : JsonValue) (result_present : bool)
    (failure : option pystr) : prog OperationHandle :=
  let id := h_id record in
  await updated := lift (operation_handle (h_request record) state result (Some result_present) failure (h_revision record + 1)) in
  await done := capture (replace updated (h_revision record)) in
  match done with
  | Threw e =>
    if is_exception e then
      await current := get_record id in
      match current with
      | Some current => if h_terminal current then Ret current else Raise e
      | None => Raise e
      end
    else Raise e
  | Ans _ =>
    modify (fun s => s <| _latest := <[id := updated]> (_latest s) |>) ;;;
    _publish updated ;;;
    (if h_terminal updated then
       modify (fun s =>
         let s := match _changed s !! id with
                  | Some event => s <| _changed := delete id (_changed s) |> <| signaled := signaled s ∪ {[event]} |>
                  | None => s
                  end in
         s <| _latest := delete id (_latest s) |>)
     else Ret tt) ;;;
    Ret updated
  end.
Definition move_to (record : OperationHandle) (state : OperationState) : prog OperationHandle :=
  _transition record state None false None.

Fixpoint for_each {X} (p : X -> prog unit) (l : list X) : prog unit :=
  match l with [] => Ret tt | x :: l => p x ;;; for_each p l end.

Definition orphaned (record : OperationHandle) : prog unit :=
  if h_terminal record then Ret tt else
  modify (fun s => s <| _latest := <[h_id record := record]> (_latest s) |>) ;;;
  await _ := move_to record INTERRUPTED in
  Ret tt.
Definition start (me : nat) : prog unit :=
  with_lock me L_start
    (await started := get _started in
     if (started : bool) then Ret tt else
     await records := all_records in
     for_each orphaned records ;;;
     modify (fun s => s <| _started := true |>)).

Definition OperationNotFoundError (id : pystr) : Exc := Error (py "OperationNotFoundError") id.
Definition status (me : nat) (id : pystr) : prog OperationHandle :=
  start me ;;;
  await record := get_record id in
  match record with
  | None => Raise (OperationNotFoundError id)
  | Some record =>
    modify (fun s => s <| _latest := if h_terminal record then delete id (_latest s) else <[id := record]> (_latest s) |>) ;;;
    Ret record
  end.
Definition records (me : nat) : prog (list OperationHandle) := start me ;;; all_records.

Definition OperationCoordinatorClosedError : Exc :=
  Error (py "OperationCoordinatorClosedError") (py "operation coordinator is closed").
(** [self._changed.setdefault(id, asyncio.Event())]. *)
Definition event_of (id : pystr) (s : Coordinator) : nat * Coordinator :=
  match _changed s !! id with
  | Some event => (event, s)
  | None => (next_event s, s <| _changed := <[id := next_event s]> (_changed s) |> <| next_event := S (next_event s) |>)
  end.
Definition submit (me : nat) (request : OperationRequest) : prog OperationHandle :=
  let id := operation_id request in
  start me ;;;
  with_lock me L_lifecycle
    (await closed := get _admission_closed in
     if (closed : bool) then Raise OperationCoordinatorClosedError else
     await record := lift (operation_handle request QUEUED None None None 0) in
     create me record ;;;
     modify (fun s => s <| _latest := <[id := record]> (_latest s) |>) ;;;
     _publish record ;;;
     modify (fun s => snd (event_of id s)) ;;;
     eff (Sync (fun n s => (Ans tt, s <| _tasks := <[id := n]> (_tasks s) |> <| spawning := delete id (spawning s) |>,
                            Some (J_execute request)))) ;;;
     Ret record).

(** ** Waiting for an operation *)

Definition fresh_event (id : pystr) : prog nat :=
  eff (Sync (fun _ s => let '(event, s) := event_of id s in (Ans event, s <| signaled := signaled s ∖ {[event]} |>, None))).
Definition wait_event (event : nat) : prog unit :=
  eff (Suspend false (fun c s => if decide (event ∈ signaled s) then match c with C_ok => Some (Ans tt, s) | _ => None end else None)).
(** [waiter.wait]: true when signaled, false when its own bound expires. *)
Definition waiter_wait (event : nat) : prog bool :=
  eff (Suspend true (fun c s =>
    match c with
    | C_ok => if decide (event ∈ signaled s) then Some (Ans true, s) else None
    | C_value _ => Some (Ans false, s)
    | C_fail e => raised e s
    | _ => None
    end)).

Definition OperationObservationTimeoutError (id : pystr) : Exc := Error (py "OperationObservationTimeoutError") id.
Definition await_result (me : nat) (id : pystr) (timeout_s : number) : prog Reply :=
  await _ := lift (validate_timeout policy timeout_s) in
  await seen := capture (within_deadline
    (start me ;;;
     await record := status me id in
     await record :=
       (if h_terminal record then Ret record else
        await event := fresh_event id in
        await record := status me id in
        if h_terminal record then Ret record else
        await _ := waiter_wait event in
        status me id) in
     Ret (if h_terminal record then R_completed record else R_timed_out record))) in
  match seen with
  | Ans reply => Ret reply
  | Threw Expired =>
    await latest := get (fun s => _latest s !! id) in
    match latest with
    | Some record => Ret (R_timed_out record)
    | None => Raise (OperationObservationTimeoutError id)
    end
  | Threw e => Raise e
  end.

(** The loop is followed for [turns] turns; then the task waits for good. *)
Fixpoint wait_turns (me : nat) (turns : nat) (id : pystr) : prog OperationHandle :=
  match turns with
  | O => eff (Suspend false (fun _ _ => None))
  | S turns =>
    await event := fresh_event id in
    await record := status me id in
    if h_terminal record then Ret record else
    wait_event event ;;;
    wait_turns me turns id
  end.
Definition wait_result (me : nat) (turns : nat) (id : pystr) : prog OperationHandle := start me ;;; wait_turns me turns id.

(** ** Stopping *)

Definition runner_cancel (id : pystr) : prog unit := resume.
Definition OperationCancellationTimeoutError (id : pystr) : Exc := Error (py "OperationCancellationTimeoutError") id.

Definition stop (me : nat) (record : OperationHandle) (task : option nat) : prog unit :=
  await runner_error :=
    (if decide (h_state record = RUNNING) then
       await r := capture (runner_cancel (h_id record)) in
       match r with
       | Ans _ => Ret None
       | Threw e => if is_exception e then Ret (Some e) else Raise e
       end
     else Ret None) in
  (match task with
   | Some task => if (task =? me)%nat then Ret tt else eff (Cancel task) ;;; await _ := gather task in Ret tt
   | None => Ret tt
   end) ;;;
  match runner_error with Some e => Raise e | None => Ret tt end.
Definition _stop_execution (me : nat) (record : OperationHandle) (task : option nat) : prog unit :=
  match cancellation_timeout_s policy with
  | None => stop me record task
  | Some _ =>
    await r := capture (within_deadline (stop me record task)) in
    match r with
    | Ans _ => Ret tt
    | Threw Expired =>
      match task with Some task => eff (Cancel task) | None => Ret tt end ;;;
      Raise (OperationCancellationTimeoutError (h_id record))
    | Threw e => Raise e
    end
  end.

Definition _terminate_to_the_end (me : nat) (id : pystr) (terminal_state : OperationState) : prog OperationHandle :=
  hold me Operations id
    (await record := status me id in
     if h_terminal record then Ret record else
     await task := get (fun s => _tasks s !! id) in
     await r := capture (_stop_execution me record task) in
     await cancel_error :=
       match r with
       | Ans _ => Ret None
       | Threw e => if is_exception e then Ret (Some e) else Raise e
       end in
     await current := status me id in
     await result := (if h_terminal current then Ret current else move_to current terminal_state) in
     match cancel_error with Some e => Raise e | None => Ret result end).
Definition _terminate (id : pystr) (terminal_state : OperationState) : prog Reply :=
  await task := spawn (J_terminate id terminal_state) in
  finish task.
Definition cancel (me : nat) (id : pystr) : prog Reply := start me ;;; _terminate id CANCELED.

(** ** Execution *)

Definition _end_unless_terminal (me : nat) (id : pystr) (state : OperationState) (failure : option pystr) : prog unit :=
  hold me Operations id
    (await current := status me id in
     if h_terminal current then Ret tt else
     await _ := _transition current state None false failure in
     Ret tt).

(** [runner.run]. *)
Definition run_begins (me : nat) (request : OperationRequest) (s : Coordinator) : Coordinator :=
  s <| active := <[me := request]> (active s) |> <| runs := runs s ++ [operation_id request] |>.
Definition runner_run (me : nat) (request : OperationRequest) : prog JsonValue :=
  modify (run_begins me request) ;;;
  finally
    (eff (Suspend true (fun c s => match c with C_value v => Some (Ans v, s) | C_fail e => raised e s | _ => None end)))
    (modify (fun s => s <| active := delete me (active s) |>)).

Definition admit_one (me : nat) : prog unit :=
  match in_flight_limit policy with
  | None => Ret tt
  | Some limit =>
    eff (Suspend false (fun c s =>
      match c with
      | C_ok => if (size (_admission s) <? limit)%nat then Some (Ans tt, s <| _admission := _admission s ∪ {[me]} |>) else None
      | _ => None
      end))
  end.

Definition failure_text (name text : pystr) : pystr := name ++ py ": " ++ text.
(** How [runner.run] ended, and what becomes of the record. *)
Definition conclude (me : nat) (request : OperationRequest) (r : answer JsonValue) : prog unit :=
  let id := operation_id request in
  match r with
  | Threw (Error name text) => _end_unless_terminal me id FAILED (Some (failure_text name text))
  | Threw Stop => _end_unless_terminal me id INTERRUPTED None ;;; Raise Stop
  | Threw e => Raise e
  | Ans result =>
    hold me Operations id
      (await current := status me id in
       if decide (h_state current = RUNNING) then
         await _ := _transition current SUCCEEDED result true None in Ret tt
       else Ret tt)
  end.
(** Whether the operation is to run: its record was queued and is now running. *)
Definition begin_running (me : nat) (request : OperationRequest) : prog bool :=
  with_lock me L_lifecycle
    (await closed := get _admission_closed in
     if (closed : bool) then Ret false else
     hold me Operations (operation_id request)
       (await record := status me (operation_id request) in
        if decide (h_state record = QUEUED) then await _ := move_to record RUNNING in Ret true
        else Ret false)).
Definition _execute (me : nat) (request : OperationRequest) : prog unit :=
  finally
    (hold me Keys (concurrency_key request)
       (admit_one me ;;;
        await go := begin_running me request in
        if (go : bool) then
          await r := capture (runner_run me request) in
          conclude me request r
        else Ret tt))
    (modify (fun s =>
       s <| _admission := _admission s ∖ {[me]} |> <| _tasks := delete (operation_id request) (_tasks s) |>)).

(** ** Closing *)

Fixpoint _interrupt_all (first_error : option Exc) (l : list OperationHandle) : prog unit :=
  match l with
  | [] => match first_error with Some e => Raise e | None => Ret tt end
  | record :: l =>
    if h_terminal record then _interrupt_all first_error l else
    await r := capture (_terminate (h_id record) INTERRUPTED) in
    match r with
    | Ans _ => _interrupt_all first_error l
    | Threw e =>
      if is_exception e then _interrupt_all (match first_error with None => Some e | f => f end) l else Raise e
    end
  end.
Definition _interrupt_everything : prog unit := await l := all_records in _interrupt_all None l.

(** [Released.shown_by(NothingLeft(self._tasks, ...))], kept by the latch. *)
Definition NotReleasedError : Exc := Error (py "NotReleasedError") (py "not released").
Definition show_released : prog unit :=
  eff (Sync (fun _ s => if decide (_tasks s = ∅) then (Ans tt, s <| close_released := true |>, None) else (Threw NotReleasedError, s, None))).
(** [AsyncCloseOnce._settle] of [_close_to_the_end]. *)
Definition _settle : prog Reply :=
  finally (_interrupt_everything ;;; show_released) (modify (fun s => s <| close_attempt := None |>)) ;;;
  Ret R_released.
(** [AsyncCloseOnce.run]: the task of the attempt is shielded. *)
Definition close_once : prog Reply :=
  modify (fun s => s <| close_started := true |>) ;;;
  await released := get close_released in
  if (released : bool) then Ret R_released else
  await attempt := eff (Sync (fun n s =>
    match close_attempt s with
    | Some task => (Ans task, s, None)
    | None => (Ans n, s <| close_attempt := Some n |>, Some J_settle)
    end)) in
  await a := eff (Await false attempt) in
  of_answer a.
Definition close (me : nat) : prog unit :=
  start me ;;;
  with_lock me L_lifecycle (modify (fun s => s <| _admission_closed := true |>)) ;;;
  await task := spawn J_close_once in
  await _ := finish task in
  Ret tt.

Definition none (p : prog unit) : prog Reply := p ;;; Ret R_none.
Definition body (me : nat) (job : Job) : prog Reply :=
  match job with
  | J_start => none (start me)
  | J_submit request => await h := submit me request in Ret (R_handle h)
  | J_status id => await h := status me id in Ret (R_handle h)
  | J_records => await l := records me in Ret (R_records l)
  | J_await_result id timeout_s => await_result me id timeout_s
  | J_wait_result turns id => await h := wait_result me turns id in Ret (R_ended h)
  | J_cancel id => cancel me id
  | J_close => none (close me)
  | J_execute request => none (_execute me request)
  | J_terminate id state => await h := _terminate_to_the_end me id state in Ret (R_ended h)
  | J_close_once => close_once
  | J_settle => _settle
  end.

End Coordinator.
