(* ===== verification/CoordinatorLogic.v ===== *)
(** What the tasks of a coordinator rely on: the invariant of its state, what each task may count on
    while it waits, and the steps of the methods that keep both. *)
From S2P Require Import Prelude Coroutines Operations Coordinator.

(** ** Locks and their users *)

Definition holds (t : nat) (l : Lock) (s : Coordinator) : Prop := holder l s = Some t.
Definition uses (t : nat) (w : Pool) (key : pystr) (n : nat) (s : Coordinator) : Prop :=
  p_entries (pool_of w s) !! key = Some n /\ exists e, p_objects (pool_of w s) !! n = Some e /\ t ∈ e_users e.
Definition holds_key (t : nat) (w : Pool) (key : pystr) (s : Coordinator) : Prop :=
  exists n, uses t w key n s /\ holds t (L_entry w n) s.

Lemma holds_unique t u l s : holds t l s -> holds u l s -> t = u.
Proof. unfold holds. congruence. Qed.
(** Only one task holds the lock of a key. *)
Lemma holds_key_unique t u w key s : holds_key t w key s -> holds_key u w key s -> t = u.
Proof.
  intros (n & [E _] & H) (m & [E' _] & H'). rewrite E in E'. injection E' as <-. by eapply holds_unique.
Qed.

(** ** What a task owns

    [kept skip t s s']: what every task may count on from [s] to [s'], and what [t] owns, the parts
    in [skip] apart. *)

Inductive Part := O_start | O_lifecycle | O_hold (w : Pool) | O_store | O_admission | O_active | O_tasks | O_runs | O_spawning.
#[export] Instance Part_eq_dec : EqDecision Part.
Proof. solve_decision. Defined.
Definition lock_part (l : Lock) : Part :=
  match l with L_start => O_start | L_lifecycle => O_lifecycle | L_entry w _ => O_hold w end.
Abbreviation parts := (Part -> Prop).
Definition no_part : parts := fun _ => False.
Lemma not_no_part p : ~ no_part p.
Proof. by intros []. Qed.
#[export] Hint Extern 0 (~ no_part _) => exact (not_no_part _) : core.
Definition part (p : Part) : parts := eq p.
Definition all_but (p : Part) : parts := fun q => q <> p.
Definition either (a b : parts) : parts := fun p => a p \/ b p.

(** A change of the record of an operation, under its lock. *)
Abbreviation on_record := (either (part (O_hold Operations)) (part O_store)).

Record kept (skip : parts) (t : nat) (s s' : Coordinator) : Prop := mk_kept {
  k_store : forall id h, store s !! id = Some h -> exists h', store s' !! id = Some h' /\ follows h h';
  k_writes : exists l, writes s' = writes s ++ l /\ forall h, h ∈ l -> forall c, store s !! h_id h = Some c -> later c h;
  k_runs : runs s `prefix_of` runs s';
  k_started : _started s = true -> _started s' = true;
  k_closed : _admission_closed s = true -> _admission_closed s' = true;
  k_released : close_released s = true -> close_released s' = true;
  k_closed_store : _admission_closed s = true ->
    forall id h, store s' !! id = Some h ->
    is_Some (store s !! id) /\ (h_state h = RUNNING -> store s !! id = Some h);
  k_closed_tasks : _admission_closed s = true -> _tasks s' ⊆ _tasks s;
  k_holds : forall l, ~ skip (lock_part l) -> (holds t l s <-> holds t l s');
  k_uses : forall w key n, ~ skip (O_hold w) -> (uses t w key n s <-> uses t w key n s');
  k_start_lock : ~ skip O_start -> holds t L_start s -> _started s' = _started s;
  k_lifecycle_lock : ~ skip O_lifecycle -> holds t L_lifecycle s -> _admission_closed s' = _admission_closed s;
  k_operation : ~ skip O_store -> ~ skip (O_hold Operations) -> _started s = true ->
    forall id h, holds_key t Operations id s -> store s !! id = Some h -> store s' !! id = Some h;
  k_admission : ~ skip O_admission -> (t ∈ _admission s <-> t ∈ _admission s');
  k_active : ~ skip O_active -> active s' !! t = active s !! t;
  k_tasks : ~ skip O_tasks -> forall id, _tasks s !! id = Some t <-> _tasks s' !! id = Some t;
  k_not_run : ~ skip O_tasks -> ~ skip O_runs -> forall id, _tasks s !! id = Some t -> id ∈ runs s' -> id ∈ runs s;
  k_spawning : ~ skip O_spawning -> forall id, spawning s !! id = Some t <-> spawning s' !! id = Some t }.

(** What [t] relies on the other tasks for. *)
Definition rely : nat -> Coordinator -> Coordinator -> Prop := kept no_part.

Lemma no_writes s : exists l, writes s = writes s ++ l /\ forall h, h ∈ l -> forall c, store s !! h_id h = Some c -> later c h.
Proof. exists []. split; [by rewrite app_nil_r|]. by intros h ?%elem_of_nil. Qed.
#[local] Hint Resolve no_writes : core.
Lemma one_write s h : (forall c, store s !! h_id h = Some c -> later c h) ->
  exists l, writes s ++ [h] = writes s ++ l /\ forall h, h ∈ l -> forall c, store s !! h_id h = Some c -> later c h.
Proof. intros La. exists [h]. split; [done|]. by intros h' ->%list_elem_of_singleton. Qed.

Lemma kept_refl skip t s : kept skip t s s.
Proof.
  constructor; intros; try done; try reflexivity. by eexists.
Qed.
Lemma kept_writes skip t s s' h : kept skip t s s' -> h ∈ writes s -> h ∈ writes s'.
Proof. intros K In. destruct (k_writes _ _ _ _ K) as (l & -> & _). apply elem_of_app. by left. Qed.

Lemma kept_holds_key skip t s s' w key :
  kept skip t s s' -> ~ skip (O_hold w) -> holds_key t w key s -> holds_key t w key s'.
Proof.
  intros K N (n & U & H). exists n. split; [by apply (k_uses _ _ _ _ K)|by apply (k_holds _ _ _ _ K)].
Qed.

Lemma kept_trans skip t s1 s2 s3 : kept skip t s1 s2 -> kept skip t s2 s3 -> kept skip t s1 s3.
Proof.
  intros A B. constructor.
  - intros id h L. destruct (k_store _ _ _ _ A _ _ L) as (h2 & L2 & F2).
    destruct (k_store _ _ _ _ B _ _ L2) as (h3 & L3 & F3). exists h3. split; [done|by etrans].
  - destruct (k_writes _ _ _ _ A) as (l1 & E1 & F1), (k_writes _ _ _ _ B) as (l2 & E2 & F2).
    exists (l1 ++ l2). split; [by rewrite E2, E1, app_assoc|]. intros h [In|In]%elem_of_app c Lc; [by apply F1|].
    destruct (k_store _ _ _ _ A _ _ Lc) as (c2 & Lc2 & Fc). eapply follows_later; [done|by apply F2].
  - etrans; [apply A|apply B].
  - intros H. by apply B, A.
  - intros H. by apply B, A.
  - intros H. by apply B, A.
  - intros H id h L. pose proof (k_closed _ _ _ _ A H) as H2.
    destruct (k_closed_store _ _ _ _ B H2 _ _ L) as [[h2 L2] R2].
    destruct (k_closed_store _ _ _ _ A H _ _ L2) as [S1 R1]. split; [done|].
    intros R. specialize (R2 R). rewrite R2 in L2. injection L2 as <-. by apply R1.
  - intros H. etrans; [apply B; by apply A|by apply A].
  - intros l N. etrans; [by apply A|by apply B].
  - intros w key n N. etrans; [by apply A|by apply B].
  - intros N H. rewrite (k_start_lock _ _ _ _ B N) by by apply (k_holds _ _ _ _ A). by apply A.
  - intros N H. rewrite (k_lifecycle_lock _ _ _ _ B N) by by apply (k_holds _ _ _ _ A). by apply A.
  - intros N N' H id h Hk L. apply (k_operation _ _ _ _ B N N'); [by apply A|by eapply kept_holds_key|].
    by apply (k_operation _ _ _ _ A).
  - intros N. etrans; [by apply A|by apply B].
  - intros N. rewrite (k_active _ _ _ _ B N). by apply A.
  - intros N id. etrans; [by apply A|by apply B].
  - intros N N' id L R. apply (k_not_run _ _ _ _ A N N' id L). apply (k_not_run _ _ _ _ B N N' id); [|done].
    by apply (k_tasks _ _ _ _ A N).
  - intros N id. etrans; [by apply A|by apply B].
Qed.

#[export] Instance kept_preorder skip t : PreOrder (kept skip t).
Proof. split; [exact (kept_refl skip t)|exact (kept_trans skip t)]. Qed.
#[export] Instance rely_preorder t : PreOrder (rely t) := kept_preorder no_part t.

Lemma kept_weaken (a b : parts) t s s' : (forall p, a p -> b p) -> kept a t s s' -> kept b t s s'.
Proof. intros I []. constructor; auto. Qed.
Lemma kept_via (a b c : parts) t s1 s2 s3 :
  kept a t s1 s2 -> kept b t s2 s3 -> (forall p, a p -> c p) -> (forall p, b p -> c p) -> kept c t s1 s3.
Proof. intros A B Ac Bc. etrans; [exact (kept_weaken _ _ _ _ _ Ac A)|exact (kept_weaken _ _ _ _ _ Bc B)]. Qed.
Lemma rely_kept skip t s s' : rely t s s' -> kept skip t s s'.
Proof. by apply kept_weaken. Qed.

(** A task that owns nothing. *)
Record idle (t : nat) (s : Coordinator) : Prop := mk_idle {
  d_holds : forall l, ~ holds t l s;
  d_uses : forall w key n, ~ uses t w key n s;
  d_admission : t ∉ _admission s;
  d_active : active s !! t = None;
  d_tasks : forall id, _tasks s !! id <> Some t;
  d_spawning : forall id, spawning s !! id <> Some t }.

(** The task of an operation owns its entry in [_tasks] from the start. *)
Record runner_of (t : nat) (request : OperationRequest) (s : Coordinator) : Prop := mk_runner_of {
  r_started : _started s = true;
  r_holds : forall l, ~ holds t l s;
  r_uses : forall w key n, ~ uses t w key n s;
  r_admission : t ∉ _admission s;
  r_active : active s !! t = None;
  r_tasks : forall id, _tasks s !! id = Some t <-> id = operation_id request;
  r_not_run : operation_id request ∉ runs s;
  r_record : exists h, store s !! operation_id request = Some h /\ h_request h = request }.

(** [h] is a record the store has or had of the operation. *)
Definition known (id : pystr) (h : OperationHandle) (s : Coordinator) : Prop :=
  h_id h = id /\ exists c, store s !! id = Some c /\ follows h c.
Lemma known_later skip t id h s s' : kept skip t s s' -> known id h s -> known id h s'.
Proof.
  intros K (Ei & c & E & F). split; [done|]. destruct (k_store _ _ _ _ K _ _ E) as (c' & E' & F'). exists c'. split; [done|by etrans].
Qed.

(** What an answer says: a record is one the store has or had, a completed one is final. *)
Definition owed (a : answer Reply) (s : Coordinator) : Prop :=
  match a with
  | Ans (R_handle h) | Ans (R_timed_out h) => known (h_id h) h s
  | Ans (R_ended h) | Ans (R_completed h) => known (h_id h) h s /\ h_terminal h = true
  | Ans (R_records l) => forall h, h ∈ l -> known (h_id h) h s
  | Ans R_released => close_released s = true
  | Ans R_none | Threw _ => True
  end.
Lemma owed_later a t s s' : rely t s s' -> owed a s -> owed a s'.
Proof.
  intros K. destruct a as [[]|]; cbn; try done.
  - by apply (known_later no_part t).
  - intros [H T]. split; [by apply (known_later no_part t _ _ _ _ K)|done].
  - intros H h0 In. by apply (known_later no_part t _ _ _ _ K), H.
  - intros [H T]. split; [by apply (known_later no_part t _ _ _ _ K)|done].
  - by apply (known_later no_part t).
  - by apply K.
Qed.

(** What a task may count on when it is created. *)
Definition accepts (t : nat) (job : Job) (s : Coordinator) : Prop :=
  match job with
  | J_execute request => runner_of t request s
  | J_terminate _ state => idle t s /\ _started s = true /\ (state = CANCELED \/ state = INTERRUPTED)
  | J_close_once | J_settle => idle t s /\ _started s = true /\ _admission_closed s = true
  | _ => idle t s
  end.
Definition callable (job : Job) : Prop :=
  match job with J_execute _ | J_terminate _ _ | J_close_once | J_settle => False | _ => True end.

Lemma idle_later t s s' : rely t s s' -> idle t s -> idle t s'.
Proof.
  intros K []. split.
  - intros l H. by apply (d_holds0 l), (k_holds _ _ _ _ K).
  - intros w key n H. by apply (d_uses0 w key n), (k_uses _ _ _ _ K).
  - intros H. by apply d_admission0, (k_admission _ _ _ _ K).
  - by rewrite (k_active _ _ _ _ K).
  - intros id H. by apply (d_tasks0 id), (k_tasks _ _ _ _ K).
  - intros id H. by apply (d_spawning0 id), (k_spawning _ _ _ _ K).
Qed.

Lemma accepts_later t j s s' : rely t s s' -> accepts t j s -> accepts t j s'.
Proof.
  intros K. assert (idle t s -> idle t s') as D by by apply idle_later.
  destruct j; cbn; try done.
  - intros [St H U A Ac T N (h & L & E)]. destruct (k_store _ _ _ _ K _ _ L) as (h' & L' & F). split.
    + by apply K.
    + intros l Hl. by apply (H l), (k_holds _ _ _ _ K).
    + intros w key n Hu. by apply (U w key n), (k_uses _ _ _ _ K).
    + intros Ha. by apply A, (k_admission _ _ _ _ K).
    + by rewrite (k_active _ _ _ _ K).
    + intros id. rewrite <- T. symmetry. by apply K.
    + intros In. apply N. eapply (k_not_run _ _ _ _ K); try done. by apply T.
    + exists h'. split; [done|]. apply follows_request in F. congruence.
  - intros (A & B & C). split; [auto|split; [by apply K|done]].
  - intros (A & B & C). split; [auto|split; by apply K].
  - intros (A & B & C). split; [auto|split; by apply K].
Qed.

Lemma callable_idle t j s : callable j -> idle t s -> accepts t j s.
Proof. by destruct j. Qed.

(** Attributes no task counts on: the events, what was published, the attempt of the latch, and the
    last records seen, as long as they are records of the store. *)
Definition same_core (s s' : Coordinator) : Prop :=
  exists ch sg ne la cs ca pu,
  (forall id h, la !! id = Some h -> _latest s !! id = Some h \/ known id h s) /\
  s' = mk_Coordinator (store s) (writes s) (_started s) (_admission_closed s) (_start_lock s) (_lifecycle_lock s)
         (_key_locks s) (_operation_locks s) (_admission s) ch sg ne la (_tasks s) cs (close_released s) ca pu
         (active s) (runs s) (spawning s).

Lemma same_core_refl s : same_core s s.
Proof. destruct s. eexists _, _, _, _, _, _, _. split; [|done]. by left. Qed.
(** An update of such attributes that leaves [_latest] alone, drops a record of it, or sets one. *)
Ltac core := eexists _, _, _, _, _, _, _; split; [|reflexivity]; by left.
Lemma drop_latest_core id s : same_core s (s <| _latest := delete id (_latest s) |>).
Proof.
  eexists _, _, _, _, _, _, _. split; [|reflexivity]. intros id' h [_ L]%lookup_delete_Some. by left.
Qed.
Lemma set_latest_core id h s : known id h s -> same_core s (s <| _latest := <[id := h]> (_latest s) |>).
Proof.
  intros K. eexists _, _, _, _, _, _, _. split; [|reflexivity]. intros id' h' [[<- <-]|[_ L]]%lookup_insert_Some; [by right|by left].
Qed.

(** ** The invariant *)

Definition pool_ok (p : _LockPool) : Prop :=
  (forall key n, p_entries p !! key = Some n -> exists e, p_objects p !! n = Some e /\ e_users e <> [])
  /\ (forall key key' n, p_entries p !! key = Some n -> p_entries p !! key' = Some n -> key = key')
  /\ (forall n e, p_objects p !! n = Some e -> (n < p_next p)%nat).

Section Logic.
Variable policy : OperationPolicy.

Record inv (s : Coordinator) : Prop := mk_inv {
  i_pools : forall w, pool_ok (pool_of w s);
  i_store : forall id h, store s !! id = Some h -> h_id h = id /\ handle_valid h;
  i_active : forall t request, active s !! t = Some request ->
    holds_key t Keys (concurrency_key request) s /\ (is_Some (in_flight_limit policy) -> t ∈ _admission s)
    /\ _tasks s !! operation_id request = Some t;
  i_limit : forall n, in_flight_limit policy = Some n -> (size (_admission s) <= n)%nat;
  i_latest : forall id h, _latest s !! id = Some h -> known id h s;
  i_writes : forall h, h ∈ writes s -> exists c, store s !! h_id h = Some c /\ follows h c;
  i_runs : forall id, id ∈ runs s -> exists h, h ∈ writes s /\ h_id h = id /\ h_state h = RUNNING;
  i_runs_once : NoDup (runs s);
  i_released : close_released s = true -> _admission_closed s = true /\ _tasks s = ∅;
  i_spawning : forall id t, spawning s !! id = Some t -> _tasks s !! id = None /\ id ∉ runs s;
  i_unknown : forall id, store s !! id = None -> _tasks s !! id = None /\ (id ∉ runs s) /\ spawning s !! id = None }.

(** A step of [t] that changes nothing it owns but the parts in [skip]. *)
Record step (skip : parts) (t : nat) (s s' : Coordinator) : Prop := mk_step {
  st_inv : inv s';
  st_others : forall u, u <> t -> rely u s s';
  st_own : kept skip t s s' }.

Lemma step_keeps skip t s s' : step skip t s s' -> keeps inv rely t s s'.
Proof. intros []. by split. Qed.

Lemma core_step t s s' : same_core s s' -> inv s -> step no_part t s s'.
Proof.
  intros (ch & sg & ne & la & cs & ca & pu & La & ->) I.
  assert (forall u, rely u s (mk_Coordinator (store s) (writes s) (_started s) (_admission_closed s) (_start_lock s) (_lifecycle_lock s)
         (_key_locks s) (_operation_locks s) (_admission s) ch sg ne la (_tasks s) cs (close_released s) ca pu
         (active s) (runs s) (spawning s))) as R.
  { intros u. constructor; cbn; intros; try done. by eexists. }
  constructor; [|by intros|apply R]. constructor; try apply I. intros id h L. destruct (La id h L) as [L'|L']; [by apply (i_latest _ I)|done].
Qed.

Lemma no_step t s : inv s -> step no_part t s s.
Proof. intros I. apply core_step; [apply same_core_refl|done]. Qed.

(** ** Steps on locks *)

Definition same_but_locks (s s' : Coordinator) : Prop :=
  store s' = store s /\ writes s' = writes s /\ _started s' = _started s /\ _admission_closed s' = _admission_closed s
  /\ _admission s' = _admission s /\ _tasks s' = _tasks s /\ close_released s' = close_released s
  /\ active s' = active s /\ runs s' = runs s /\ spawning s' = spawning s /\ _latest s' = _latest s.

Lemma locks_kept skip t s s' :
  same_but_locks s s' ->
  (forall l, ~ skip (lock_part l) -> (holds t l s <-> holds t l s')) ->
  (forall w key n, ~ skip (O_hold w) -> (uses t w key n s <-> uses t w key n s')) ->
  kept skip t s s'.
Proof.
  intros (E1 & E2 & E3 & E4 & E5 & E6 & E7 & E8 & E9 & E10 & E11) H U.
  constructor; rewrite ?E1, ?E2, ?E3, ?E4, ?E5, ?E6, ?E7, ?E8, ?E9, ?E10; intros; try done; [by eexists|auto|auto].
Qed.

Lemma locks_step p t s s' :
  inv s -> same_but_locks s s' -> (forall w, pool_ok (pool_of w s')) ->
  (p = O_hold Keys -> active s !! t = None) ->
  (forall u l, u <> t \/ lock_part l <> p -> (holds u l s <-> holds u l s')) ->
  (forall u w key n, u <> t \/ O_hold w <> p -> (uses u w key n s <-> uses u w key n s')) ->
  step (part p) t s s'.
Proof.
  intros I E P A H U. assert (forall u, u <> t -> rely u s s') as R.
  { intros u N. apply locks_kept; [done|intros; apply H; by left|intros; apply U; by left]. }
  constructor; [|done|].
  - destruct E as (E1 & E2 & E3 & E4 & E5 & E6 & E7 & E8 & E9 & E10 & E11).
    constructor; unfold known; rewrite ?E1, ?E2, ?E3, ?E4, ?E5, ?E6, ?E7, ?E8, ?E9, ?E10, ?E11; try apply I; [done|].
    intros u rq L. destruct (i_active _ I u rq L) as (K & B & C). split; [|by split].
    destruct (decide (p = O_hold Keys)) as [->|Np].
    + assert (u <> t) as N by (intros ->; rewrite (A eq_refl) in L; done).
      eapply kept_holds_key; [exact (R u N)|intros []|exact K].
    + destruct K as (n & K1 & K2). exists n. split; [apply U; [by right|done]|apply H; [|done]; right; cbn; congruence].
  - apply locks_kept; [done|intros l N; apply H|intros w key n N; apply U]; right; intros Eq; apply N; unfold part; by rewrite ?Eq.
Qed.

Lemma pool_of_set w w' p s : pool_of w (set_pool w' p s) = if decide (w = w') then p else pool_of w s.
Proof. by destruct w, w'. Qed.
Lemma same_but_pool w p s : same_but_locks s (set_pool w p s).
Proof. by destruct w. Qed.
Lemma holder_set_pool l w p s :
  holder l (set_pool w p s) =
  match l with L_entry w' n => if decide (w' = w) then e ← p_objects p !! n; e_lock e else holder l s | _ => holder l s end.
Proof. by destruct l as [| |[] n], w. Qed.
Lemma lock_part_entry l w : lock_part l = O_hold w <-> exists n, l = L_entry w n.
Proof. destruct l; cbn; naive_solver. Qed.

(** A change to one pool. *)
Lemma pool_step w t p s :
  inv s -> pool_ok p -> (w = Keys -> active s !! t = None) ->
  (forall u n, u <> t -> (holds u (L_entry w n) s <-> holds u (L_entry w n) (set_pool w p s))) ->
  (forall u key n, u <> t -> (uses u w key n s <-> uses u w key n (set_pool w p s))) ->
  step (part (O_hold w)) t s (set_pool w p s).
Proof.
  intros I P A H U. apply locks_step; [done|apply same_but_pool|..].
  - intros w'. rewrite pool_of_set. case_decide; [by subst|apply I].
  - intros [= ->]. by apply A.
  - intros u l N. destruct (decide (lock_part l = O_hold w)) as [[n ->]%lock_part_entry|Nl].
    + apply H. by destruct N.
    + unfold holds. rewrite holder_set_pool. destruct l as [| |w' n]; try done.
      rewrite decide_False; [done|]. intros ->. by apply Nl.
  - intros u w' key n N. destruct (decide (w' = w)) as [->|Nw].
    + apply U. by destruct N.
    + unfold uses. rewrite pool_of_set, decide_False by done. done.
Qed.

(** The lock of an entry changes hands; its users stay. *)
Lemma uses_set_holder u w key m l h s : uses u w key m (set_holder l h s) <-> uses u w key m s.
Proof.
  destruct l as [| |w' n]; [done|done|]. cbn [set_holder]. unfold uses. rewrite pool_of_set.
  destruct (decide (w = w')) as [<-|]; [|done]. cbn.
  destruct (decide (n = m)) as [->|Nm]; [|by rewrite lookup_alter_ne].
  rewrite lookup_alter_eq. destruct (p_objects (pool_of w s) !! m) as [e|]; [|done]. cbn. naive_solver.
Qed.


Lemma entry_lock_step w t n h s :
  inv s -> (w = Keys -> active s !! t = None) ->
  (forall u, u <> t -> ~ holds u (L_entry w n) s) -> (forall u, h = Some u -> u = t) ->
  step (part (O_hold w)) t s (set_holder (L_entry w n) h s).
Proof.
  intros I A F O. cbn [set_holder]. destruct (i_pools _ I w) as (P1 & P2 & P3). apply pool_step; try done.
  - split; [|split]; cbn.
    + intros key m L. destruct (P1 _ _ L) as (e & Le & Ne). destruct (decide (n = m)) as [->|N].
      * rewrite lookup_alter_eq, Le. by eexists.
      * rewrite lookup_alter_ne by done. by eexists.
    + done.
    + intros m e. destruct (decide (n = m)) as [->|N].
      * rewrite lookup_alter_eq. destruct (p_objects (pool_of w s) !! m) eqn:Le; [|done]. intros _. by eapply P3.
      * rewrite lookup_alter_ne by done. apply P3.
  - intros u m N. unfold holds. rewrite holder_set_pool, decide_True by done. cbn.
    destruct (decide (n = m)) as [->|Nm]; [|by rewrite lookup_alter_ne].
    specialize (F u N). unfold holds in F. cbn in F. rewrite lookup_alter_eq.
    destruct (p_objects (pool_of w s) !! m) as [e|]; [|done]. cbn in *. split; [done|]. intros ->. by destruct N; apply O.
  - intros u key m N. symmetry. exact (uses_set_holder u w key m (L_entry w n) h s).
Qed.

(** Acquiring a free lock, and releasing one that is held. *)
Lemma set_holder_step t l h s :
  inv s -> (lock_part l = O_hold Keys -> active s !! t = None) ->
  (forall u, u <> t -> ~ holds u l s) -> (forall u, h = Some u -> u = t) ->
  step (part (lock_part l)) t s (set_holder l h s).
Proof.
  intros I A F O. destruct l as [| |w n]; cbn [lock_part].
  - apply locks_step; try done; try apply I. intros u [| |w n] N; try done. unfold holds; cbn. split.
    + intros E. destruct N as [N|N]; [|done]. by destruct (F u N).
    + intros ->. destruct N as [N|N]; [|done]. by destruct N; apply O.
  - apply locks_step; try done; try apply I. intros u [| |w n] N; try done. unfold holds; cbn. split.
    + intros E. destruct N as [N|N]; [|done]. by destruct (F u N).
    + intros ->. destruct N as [N|N]; [|done]. by destruct N; apply O.
  - apply entry_lock_step; try done. intros ->. by apply A.
Qed.

(** The users of an entry change, for [t] only. *)
Definition with_users (f : list nat -> list nat) (n : nat) (p : _LockPool) : _LockPool :=
  p <| p_objects := alter (fun e => e <| e_users := f (e_users e) |>) n (p_objects p) |>.

Lemma users_step w t f n s :
  inv s -> (w = Keys -> active s !! t = None) ->
  (forall u l, u <> t -> (u ∈ l <-> u ∈ f l)) ->
  (forall e, p_objects (pool_of w s) !! n = Some e -> f (e_users e) <> []) ->
  step (part (O_hold w)) t s (set_pool w (with_users f n (pool_of w s)) s).
Proof.
  intros I A F Ne. destruct (i_pools _ I w) as (P1 & P2 & P3). apply pool_step; try done.
  - split; [|split]; cbn.
    + intros key m L. destruct (P1 _ _ L) as (e & Le & Nn). destruct (decide (n = m)) as [->|N].
      * rewrite lookup_alter_eq, Le. eexists. split; [done|]. by apply Ne.
      * rewrite lookup_alter_ne by done. by eexists.
    + done.
    + intros m e. destruct (decide (n = m)) as [->|N].
      * rewrite lookup_alter_eq. destruct (p_objects (pool_of w s) !! m) eqn:Le; [|done]. intros _. by eapply P3.
      * rewrite lookup_alter_ne by done. apply P3.
  - intros u m N. unfold holds. rewrite holder_set_pool, decide_True by done. cbn.
    destruct (decide (n = m)) as [->|Nm]; [|by rewrite lookup_alter_ne].
    rewrite lookup_alter_eq. by destruct (p_objects (pool_of w s) !! m).
  - intros u key m N. unfold uses. rewrite pool_of_set, decide_True by done. cbn.
    destruct (decide (n = m)) as [->|Nm]; [|by rewrite lookup_alter_ne].
    rewrite lookup_alter_eq. destruct (p_objects (pool_of w s) !! m) as [e|]; [|done]. cbn.
    split; intros [L (e' & [= <-] & In)]; (split; [done|]); eexists; (split; [done|]); by apply (F u (e_users e) N).
Qed.

(** A key without an entry gets a new one. *)
Lemma new_entry_step w t key s :
  inv s -> (w = Keys -> active s !! t = None) -> p_entries (pool_of w s) !! key = None ->
  let p := pool_of w s in
  step (part (O_hold w)) t s
    (set_pool w (mk_LockPool (<[key := p_next p]> (p_entries p)) (<[p_next p := mk_LockEntry None [t]]> (p_objects p)) (S (p_next p))) s).
Proof.
  intros I A L p. destruct (i_pools _ I w) as (P1 & P2 & P3).
  assert (p_objects p !! p_next p = None) as Fr.
  { apply eq_None_not_Some. intros [e Le]. pose proof (P3 _ _ Le). unfold p in *. lia. }
  assert (forall key n, p_entries p !! key = Some n -> n <> p_next p) as Fe.
  { intros k n Lk ->. destruct (P1 _ _ Lk) as (e & Le & _). unfold p in *. congruence. }
  apply pool_step; try done.
  - split; [|split]; cbn.
    + intros k m [[<- <-]|[N Lk]]%lookup_insert_Some; [rewrite lookup_insert_eq; by eexists|].
      rewrite lookup_insert_ne by (intros E; by apply (Fe _ _ Lk)). by apply (P1 k).
    + intros k k' m [[<- <-]|[N Lk]]%lookup_insert_Some [[<- E]|[N' Lk']]%lookup_insert_Some; try done.
      * by apply Fe in Lk'.
      * rewrite E in Fe. by apply Fe in Lk.
      * by eapply P2.
    + intros m e [[<- <-]|[N Le]]%lookup_insert_Some; [lia|]. apply P3 in Le. unfold p. lia.
  - intros u m N. unfold holds. rewrite holder_set_pool, decide_True by done. cbn. fold p.
    destruct (decide (p_next p = m)) as [<-|Nm]; [rewrite lookup_insert_eq, Fr|rewrite lookup_insert_ne by done]; done.
  - intros u k m N. unfold uses. rewrite pool_of_set, decide_True by done. cbn. fold p. split.
    + intros [Lk (e & Le & In)]. assert (k <> key) by (intros ->; unfold p in *; congruence).
      rewrite lookup_insert_ne by done. split; [done|]. exists e. split; [|done].
      rewrite lookup_insert_ne; [done|]. intros <-. congruence.
    + intros [[[<- <-]|[Nk Lk]]%lookup_insert_Some (e & Le & In)].
      * rewrite lookup_insert_eq in Le. injection Le as <-. by apply elem_of_cons in In as [->|In%elem_of_nil].
      * rewrite lookup_insert_ne in Le by (intros E; by apply (Fe _ _ Lk)). split; [done|]. by exists e.
Qed.

Lemma join_step t w key s n s' :
  inv s -> (w = Keys -> active s !! t = None) -> join t w key s = (n, s') ->
  step (part (O_hold w)) t s s' /\ uses t w key n s'.
Proof.
  intros I A. unfold join. destruct (p_entries (pool_of w s) !! key) as [m|] eqn:L; intros [= <- <-].
  - split; [by apply (users_step w t (cons t)); [| |set_solver|]|].
    unfold uses. rewrite pool_of_set, decide_True by done. cbn. split; [done|].
    destruct (i_pools _ I w) as (P1 & _). destruct (P1 _ _ L) as (e & Le & _). rewrite lookup_alter_eq, Le.
    eexists. split; [done|]. left.
  - cbn. rewrite alter_insert_eq. cbn. split; [by apply new_entry_step|].
    unfold uses. rewrite pool_of_set, decide_True by done. cbn. rewrite !lookup_insert_eq. split; [done|].
    eexists. split; [done|]. left.
Qed.

Lemma drop_one_other u t l : u <> t -> u ∈ l <-> u ∈ drop_one t l.
Proof.
  intros N. induction l as [|x l IH]; [done|]. cbn. destruct (Nat.eqb_spec x t) as [->|Nx].
  - rewrite elem_of_cons. naive_solver.
  - rewrite !elem_of_cons, IH. done.
Qed.

(** The last user of an entry deletes it. *)
Lemma delete_entry_step w t key n s :
  inv s -> (w = Keys -> active s !! t = None) ->
  p_entries (pool_of w s) !! key = Some n -> (forall e, p_objects (pool_of w s) !! n = Some e -> drop_one t (e_users e) = []) ->
  let p := with_users (drop_one t) n (pool_of w s) in
  step (part (O_hold w)) t s (set_pool w (p <| p_entries := delete key (p_entries p) |>) s).
Proof.
  intros I A L D p. destruct (i_pools _ I w) as (P1 & P2 & P3). apply pool_step; try done.
  - split; [|split]; cbn.
    + intros k m [N Lk]%lookup_delete_Some. rewrite lookup_alter_ne; [by apply (P1 k)|].
      intros ->. by apply N, (P2 _ _ m).
    + intros k k' m [N Lk]%lookup_delete_Some [N' Lk']%lookup_delete_Some. by eapply P2.
    + intros m e. destruct (decide (n = m)) as [->|N].
      * rewrite lookup_alter_eq. destruct (p_objects (pool_of w s) !! m) eqn:Le; [|done]. intros _. by eapply P3.
      * rewrite lookup_alter_ne by done. apply P3.
  - intros u m N. unfold holds. rewrite holder_set_pool, decide_True by done. cbn.
    destruct (decide (n = m)) as [->|Nm]; [|by rewrite lookup_alter_ne].
    rewrite lookup_alter_eq. by destruct (p_objects (pool_of w s) !! m).
  - intros u k m N. unfold uses. rewrite pool_of_set, decide_True by done. cbn. split.
    + intros [Lk (e & Le & In)]. assert (m <> n) as Nm.
      { intros ->. specialize (D _ Le). apply (drop_one_other u t _ N) in In. rewrite D in In. by apply elem_of_nil in In. }
      split; [apply lookup_delete_Some; split; [congruence|done]|]. rewrite lookup_alter_ne by done. by exists e.
    + intros [[Nk Lk]%lookup_delete_Some (e & Le & In)]. split; [done|].
      rewrite lookup_alter_ne in Le; [by exists e|]. intros <-. by apply Nk, (P2 _ _ n).
Qed.

Lemma leave_step t w key n s :
  inv s -> (w = Keys -> active s !! t = None) -> uses t w key n s -> step (part (O_hold w)) t s (leave t w key n s).
Proof.
  intros I A [L (e & Le & In)]. unfold leave. cbn. rewrite lookup_alter_eq, Le, L. cbn.
  rewrite (bool_decide_eq_true_2 (Some n = Some n)) by done. case_bool_decide as B; cbn.
  - apply (delete_entry_step w t key n s); try done. intros e' Le'. congruence.
  - apply (users_step w t (drop_one t) n s); try done.
    + intros u l N. by apply drop_one_other.
    + intros e' Le'. congruence.
Qed.

(** ** Steps on records, tasks and runs *)

Lemma create_step t h s :
  inv s -> _admission_closed s = false -> store s !! h_id h = None -> handle_valid h ->
  step (part O_spawning) t s
    (s <| store := <[h_id h := h]> (store s) |> <| writes := writes s ++ [h] |> <| spawning := <[h_id h := t]> (spawning s) |>).
Proof.
  intros I C N V. destruct (i_unknown _ I _ N) as (N1 & N2 & N3).
  assert (forall u, u <> t -> forall id, spawning s !! id = Some u <-> <[h_id h := t]> (spawning s) !! id = Some u) as Sp.
  { intros u Nu id. rewrite lookup_insert_Some. split; [|naive_solver]. intros L. right. split; [congruence|done]. }
  assert (forall id h', store s !! id = Some h' -> <[h_id h := h]> (store s) !! id = Some h') as St.
  { intros id h' L. rewrite lookup_insert_ne; [done|congruence]. }
  assert (forall u, u <> t -> rely u s
    (s <| store := <[h_id h := h]> (store s) |> <| writes := writes s ++ [h] |> <| spawning := <[h_id h := t]> (spawning s) |>)) as R.
  { intros u Nu. constructor; cbn; intros; try done; try congruence; [by eexists; split; [apply St|]|by apply one_write; congruence|by apply St|by apply Sp]. }
  constructor; [|done|].
  - constructor; cbn; try apply I.
    + intros id h' [[<- <-]|[_ L]]%lookup_insert_Some; [done|by apply (i_store _ I)].
    + intros id h' Ll. pose proof (i_latest _ I _ _ Ll) as Kn. exact (known_later _ _ _ _ _ _ (R (S t) ltac:(lia)) Kn).
    + intros h' [In| ->%list_elem_of_singleton]%elem_of_app; [|exists h; by rewrite lookup_insert_eq].
      destruct (i_writes _ I _ In) as (c & Lc & F). exists c. split; [by apply St|done].
    + intros id In. destruct (i_runs _ I _ In) as (h' & Hw & E). exists h'. split; [|done]. apply elem_of_app. by left.
    + intros id u [[<- <-]|[_ L]]%lookup_insert_Some; [done|by eapply i_spawning].
    + intros id [L Ni]%lookup_insert_None. rewrite lookup_insert_ne by done. by apply (i_unknown _ I).
  - constructor; cbn; intros; try done; try congruence; [by eexists; split; [apply St|]|by apply one_write; congruence|by apply St].
Qed.

Lemma replace_step t r h s :
  inv s -> store s !! h_id h = Some r -> later r h -> handle_valid h ->
  (h_state h = RUNNING -> _admission_closed s = false) ->
  _started s = false \/ holds_key t Operations (h_id h) s ->
  step (part O_store) t s (s <| store := <[h_id h := h]> (store s) |> <| writes := writes s ++ [h] |>).
Proof.
  intros I L La V C G.
  assert (forall skip u, (u <> t \/ skip O_store) -> kept skip u s (s <| store := <[h_id h := h]> (store s) |> <| writes := writes s ++ [h] |>)) as R.
  { intros skip u Nu. constructor; cbn; intros; try done.
    - destruct (decide (h_id h = id)) as [<-|Ni]; [|rewrite lookup_insert_ne by done; by eexists].
      rewrite lookup_insert_eq. exists h. split; [done|]. right. congruence.
    - apply one_write. intros c Lc. congruence.
    - apply lookup_insert_Some in H0 as [[<- <-]|[Ni L']]; [|by split; [eexists|]]. split; [by eexists|]. intros E. rewrite C in H by done. done.
    - destruct Nu as [Nu|?]; [|done]. rewrite lookup_insert_ne; [done|]. intros E. destruct G as [G|G]; [congruence|].
      apply Nu. rewrite <- E in H2. by eapply holds_key_unique. }
  constructor; [|intros u N; apply R; by left|apply R; by right].
  constructor; cbn; try apply I.
  - intros id h' [[<- <-]|[_ L']]%lookup_insert_Some; [done|by apply (i_store _ I)].
  - intros id h' Ll. pose proof (i_latest _ I _ _ Ll) as Kn.
    exact (known_later _ _ _ _ _ _ (R no_part (S t) (or_introl (Nat.neq_succ_diag_l t))) Kn).
  - intros h' [In| ->%list_elem_of_singleton]%elem_of_app; [|exists h; by rewrite lookup_insert_eq].
    destruct (i_writes _ I _ In) as (c & Lc & F). destruct (decide (h_id h = h_id h')) as [E|N].
    + exists h. rewrite <- E, lookup_insert_eq. split; [done|]. right. rewrite E in L. assert (c = r) as -> by congruence.
      by eapply follows_later.
    + exists c. by rewrite lookup_insert_ne.
  - intros id In. destruct (i_runs _ I _ In) as (h' & Hw & E). exists h'. split; [|done]. apply elem_of_app. by left.
  - intros id [L' Ni]%lookup_insert_None. by apply (i_unknown _ I).
Qed.

(** [submit] creates the task of the operation. *)
Lemma spawn_step t n id s :
  inv s -> _admission_closed s = false -> spawning s !! id = Some t -> n <> t -> idle n s ->
  let s' := s <| _tasks := <[id := n]> (_tasks s) |> <| spawning := delete id (spawning s) |> in
  inv s' /\ (forall u, u <> t -> u <> n -> rely u s s') /\ kept (part O_spawning) t s s'.
Proof.
  intros I C Sp Nt D s'. destruct (i_spawning _ I _ _ Sp) as [N1 N2]. split; [|split].
  - constructor; cbn; try apply I.
    + intros u rq L. destruct (i_active _ I u rq L) as (K & A & T). split; [done|split; [done|]].
      rewrite lookup_insert_ne; [done|congruence].
    + intros Rl. destruct (i_released _ I Rl). congruence.
    + intros id' u [Ni L]%lookup_delete_Some. rewrite lookup_insert_ne by done. by eapply i_spawning.
    + intros id' L. destruct (i_unknown _ I _ L) as (A & B & E). assert (id' <> id) by congruence.
      rewrite lookup_insert_ne, lookup_delete_ne by done. done.
  - intros u Nu Nn. constructor; cbn; intros; try done; try congruence; [by eexists|..].
    + rewrite lookup_insert_Some. split; [|naive_solver]. intros L. right. split; [congruence|done].
    + rewrite lookup_delete_Some. split; [|naive_solver]. intros L. split; [congruence|done].
  - constructor; cbn; intros; try done; try congruence; [by eexists|].
    rewrite lookup_insert_Some. split; [|naive_solver]. intros L. right. split; [congruence|done].
Qed.

Lemma run_begins_step t request s :
  inv s -> _tasks s !! operation_id request = Some t -> operation_id request ∉ runs s ->
  holds_key t Keys (concurrency_key request) s -> (is_Some (in_flight_limit policy) -> t ∈ _admission s) ->
  (exists h, h ∈ writes s /\ h_id h = operation_id request /\ h_state h = RUNNING) ->
  step (either (part O_active) (part O_runs)) t s (run_begins t request s).
Proof.
  intros I T Nr K A W.
  assert (forall id, id ∈ runs s ++ [operation_id request] -> id ∈ runs s \/ id = operation_id request) as Ra.
  { intros id [In|In%list_elem_of_singleton]%elem_of_app; auto. }
  constructor.
  - constructor; cbn; try apply I.
    + intros u rq [[<- <-]|[_ L]]%lookup_insert_Some; [done|by apply (i_active _ I)].
    + intros id [In| ->]%Ra; [by apply (i_runs _ I)|done].
    + apply NoDup_app. split; [apply I|split; [|by apply NoDup_singleton]]. intros id In ->%list_elem_of_singleton. done.
    + intros id u L. destruct (i_spawning _ I _ _ L) as [A1 A2]. split; [done|]. intros [In| ->]%Ra; [done|congruence].
    + intros id L. destruct (i_unknown _ I _ L) as (A1 & A2 & A3). split; [done|split; [|done]]. intros [In| ->]%Ra; [done|congruence].
  - intros u Nu. constructor; cbn; intros; try done; [by eexists|by apply prefix_app_r|by rewrite lookup_insert_ne|].
    apply Ra in H2 as [In| ->]; [done|congruence].
  - constructor; cbn; intros; try done; [by eexists|by apply prefix_app_r|exfalso; apply H; by left|exfalso; apply H0; by right].
Qed.

Lemma run_ends_step t s :
  inv s -> step (part O_active) t s (s <| active := delete t (active s) |>).
Proof.
  intros I. constructor.
  - constructor; cbn; try apply I. intros u rq [_ L]%lookup_delete_Some. by apply (i_active _ I).
  - intros u Nu. constructor; cbn; intros; try done; [by eexists|by rewrite lookup_delete_ne].
  - constructor; cbn; intros; try done; by eexists.
Qed.

Lemma admit_step t limit s :
  inv s -> in_flight_limit policy = Some limit -> (size (_admission s) < limit)%nat ->
  step (part O_admission) t s (s <| _admission := _admission s ∪ {[t]} |>).
Proof.
  intros I L Lt. constructor.
  - constructor; cbn; try apply I.
    + intros u rq La. destruct (i_active _ I u rq La) as (K & A & T). split; [done|split; [set_solver|done]].
    + intros n E. assert (n = limit) as -> by congruence. rewrite size_union_alt.
      pose proof (subseteq_size ({[t]} ∖ _admission s) {[t]} ltac:(set_solver)). rewrite size_singleton in H. lia.
  - intros u Nu. constructor; cbn; intros; try done; [by eexists|set_solver].
  - constructor; cbn; intros; try done; by eexists.
Qed.

(** The end of an execution. *)
Lemma pop_step t id s :
  inv s -> active s !! t = None -> _tasks s !! id = Some t ->
  step (either (part O_admission) (part O_tasks)) t s
    (s <| _admission := _admission s ∖ {[t]} |> <| _tasks := delete id (_tasks s) |>).
Proof.
  intros I A T. constructor.
  - constructor; cbn; try apply I.
    + intros u rq La. destruct (i_active _ I u rq La) as (K & Ad & Tu). assert (u <> t) by congruence.
      split; [done|split; [set_solver|]]. rewrite lookup_delete_ne; [done|congruence].
    + intros n E. etrans; [apply subseteq_size|by apply (i_limit _ I)]. set_solver.
    + intros Rl. destruct (i_released _ I Rl) as [C E]. split; [done|]. by rewrite E, delete_empty.
    + intros id' u L. destruct (i_spawning _ I _ _ L) as [B C]. split; [|done].
      destruct (decide (id = id')) as [<-|N]; [apply lookup_delete_eq|by rewrite lookup_delete_ne].
    + intros id' L. destruct (i_unknown _ I _ L) as (B & C & D). split; [|done].
      destruct (decide (id = id')) as [<-|N]; [apply lookup_delete_eq|by rewrite lookup_delete_ne].
  - intros u Nu. constructor; cbn; intros; try done; [by eexists|apply delete_subseteq|set_solver|].
    rewrite lookup_delete_Some. split; [|naive_solver]. intros L. split; [congruence|done].
  - constructor; cbn; intros; try done; [by eexists|apply delete_subseteq|..]; exfalso; eapply H; by (left + right).
Qed.

Lemma started_step t s :
  inv s -> holds t L_start s -> step (part O_start) t s (s <| _started := true |>).
Proof.
  intros I Hl. constructor; [constructor; apply I|..].
  - intros u Nu. constructor; cbn; intros; try done; [by eexists|]. destruct Nu. by eapply holds_unique.
  - constructor; cbn; intros; try done; by eexists.
Qed.

Lemma closed_step t s :
  inv s -> holds t L_lifecycle s -> step (part O_lifecycle) t s (s <| _admission_closed := true |>).
Proof.
  intros I Hl. constructor.
  - constructor; cbn; try apply I. intros R. split; [done|]. by apply (i_released _ I).
  - intros u Nu. constructor; cbn; intros; try done; [by eexists|]. destruct Nu. by eapply holds_unique.
  - constructor; cbn; intros; try done; by eexists.
Qed.

Lemma released_step t s :
  inv s -> _admission_closed s = true -> _tasks s = ∅ -> step no_part t s (s <| close_released := true |>).
Proof.
  intros I C T. assert (forall u, rely u s (s <| close_released := true |>)) as R.
  { intros u. constructor; cbn; intros; try done. by eexists. }
  constructor; [constructor; cbn; try apply I; by split|by intros|apply R].
Qed.

End Logic.
