(* ===== verification/CoordinatorTasks.v ===== *)
(** The methods of the coordinator keep what its tasks rely on: a triple for each of them, from the
    waits up to [_execute], [submit] and [close]. *)
From S2P Require Import Prelude Coroutines Operations Coordinator CoordinatorLogic.
Open Scope coro_scope.

Section Tasks.
Variable policy : OperationPolicy.
Variable events : OperationLifecycleEvent -> option Exc.
Variable event_errors : Exc -> OperationLifecycleEvent -> option Exc.

Abbreviation inv := (CoordinatorLogic.inv policy).
Abbreviation step := (CoordinatorLogic.step policy).
Abbreviation wpc := (wp inv rely idle accepts owed).
(** The rules of the logic, for this coordinator. *)
Abbreviation suspend_rule := (@wp_suspend _ _ _ inv rely idle accepts owed rely_preorder _ _ _ _ _ _).
Abbreviation seq_rule P := (@wp_seq _ _ _ inv rely idle accepts owed rely_preorder _ _ _ _ _ P _ _).
Abbreviation try_rule P := (@wp_try _ _ _ inv rely idle accepts owed rely_preorder _ _ _ _ _ P _ _).
Abbreviation captured_rule P := (@wp_captured _ _ _ inv rely idle accepts owed rely_preorder _ _ _ P _ _).
Abbreviation finally_rule P := (@wp_finally _ _ _ inv rely idle accepts owed rely_preorder _ _ _ _ P _ _).
Abbreviation finally_any := (@wp_finally _ _ _ inv rely idle accepts owed rely_preorder).
Abbreviation try_any := (@wp_try _ _ _ inv rely idle accepts owed rely_preorder).
Abbreviation seq_any := (@wp_seq _ _ _ inv rely idle accepts owed rely_preorder).
Abbreviation captured_any := (@wp_captured _ _ _ inv rely idle accepts owed rely_preorder).
Abbreviation closed_rule := (@wp_closed _ _ _ inv rely idle accepts owed rely_preorder _ _ _ _ _).

(** What the code between two waits does, seen from where the wait before it began. *)
Lemma step_from skip t s s1 s2 : rely t s s1 -> step skip t s1 s2 -> kept skip t s s2.
Proof. intros L [_ _ K]. etrans; [by eapply rely_kept|done]. Qed.

Lemma wp_get {R} t (f : Coordinator -> R) Q s :
  (forall s1 s2, rely t s s1 -> inv s1 -> rely t s1 s2 -> inv s2 -> Q (Ans (f s1)) s2) -> wpc t (get f) Q s.
Proof.
  intros H. apply wp_sync. intros n s1 L I N D. split; [by apply keeps_refl; [apply rely_preorder|]|]. intros s3 L3 I3. by apply (H s1).
Qed.

Lemma wp_modify t (f : Coordinator -> Coordinator) skip Q s :
  (forall s1, rely t s s1 -> inv s1 -> step skip t s1 (f s1)) ->
  (forall s1 s2, rely t s s1 -> inv s1 -> rely t (f s1) s2 -> inv s2 -> Q (Ans tt) s2) ->
  wpc t (modify f) Q s.
Proof.
  intros St H. apply wp_sync. intros n s1 L I N D. split; [by eapply step_keeps, St|]. intros s3 L3 I3. by apply (H s1).
Qed.

(** Attributes no other task counts on. *)
Lemma wp_modify_core t (f : Coordinator -> Coordinator) Q s :
  (forall s1, rely t s s1 -> inv s1 -> same_core s1 (f s1)) -> (forall s', rely t s s' -> inv s' -> Q (Ans tt) s') ->
  wpc t (modify f) Q s.
Proof.
  intros C H. assert (forall s1, rely t s s1 -> inv s1 -> step no_part t s1 (f s1)) as St by (intros s1 L I; apply core_step; [by apply C|done]).
  apply (wp_modify _ _ no_part); [done|].
  intros s1 s2 L I L2 I2. apply H; [|done]. etrans; [exact L|]. etrans; [|exact L2]. by apply (st_own _ _ _ _ _ (St s1 L I)).
Qed.

(** ** Locks *)

Lemma set_holder_holds t l s :
  match l with L_entry w n => exists key, uses t w key n s | _ => True end -> holds t l (set_holder l (Some t) s).
Proof.
  unfold holds. destruct l as [| |w n]; [done|done|]. intros (key & _ & e & L & _). cbn [set_holder]. rewrite holder_set_pool.
  rewrite decide_True by done. cbn. by rewrite lookup_alter_eq, L.
Qed.
Lemma unset_holder t l s : ~ holds t l (set_holder l None s).
Proof.
  unfold holds. destruct l as [| |w n]; [done|done|]. cbn [set_holder]. rewrite holder_set_pool, decide_True by done. cbn.
  rewrite lookup_alter_eq. by destruct (p_objects (pool_of w s) !! n).
Qed.

Definition acquired (t : nat) (l : Lock) (s : Coordinator) (a : answer unit) (s' : Coordinator) : Prop :=
  match a with
  | Ans _ => kept (part (lock_part l)) t s s' /\ holds t l s' /\ (forall w key n, uses t w key n s -> uses t w key n s')
  | Threw _ => rely t s s'
  end.

Lemma wp_acquire t l s :
  (lock_part l = O_hold Keys -> active s !! t = None) ->
  match l with L_entry w n => exists key, uses t w key n s | _ => True end ->
  wpc t (acquire t l) (acquired t l s) s.
Proof.
  intros A U. apply suspend_rule; [by intros s1 L I|]. intros c s1 r s2 L I R.
  destruct c; try done. destruct (holder l s1) eqn:F; [done|]. injection R as <- <-.
  assert (match l with L_entry w n => exists key, uses t w key n s1 | _ => True end) as U1.
  { destruct l; try done. destruct U as [key U]. exists key. by apply (k_uses _ _ _ _ L). }
  assert (step (part (lock_part l)) t s1 (set_holder l (Some t) s1)) as St.
  { apply set_holder_step; try done; [| |by intros u [= <-]].
    - intros E. rewrite (k_active _ _ _ _ L) by done. by apply A.
    - intros u Nu H. unfold holds in H. congruence. }
  split; [by eapply step_keeps|]. intros s3 L3 I3. split; [|split].
  - etrans; [by eapply step_from|by apply rely_kept].
  - apply (k_holds _ _ _ _ L3); [done|]. by apply set_holder_holds.
  - intros w key n Us. by apply (k_uses _ _ _ _ L3), uses_set_holder, (k_uses _ _ _ _ L).
Qed.

Lemma wp_release t l s :
  (lock_part l = O_hold Keys -> active s !! t = None) -> holds t l s ->
  wpc t (release l) (fun a s' => a = Ans tt /\ kept (part (lock_part l)) t s s' /\ ~ holds t l s'
    /\ (forall w key n, uses t w key n s -> uses t w key n s')) s.
Proof.
  intros A H. assert (forall s1, rely t s s1 -> inv s1 -> step (part (lock_part l)) t s1 (set_holder l None s1)) as St.
  { intros s1 L I. apply set_holder_step; try done.
    - intros E. rewrite (k_active _ _ _ _ L) by done. by apply A.
    - intros u Nu Hu. apply Nu. eapply holds_unique; [exact Hu|]. by apply (k_holds _ _ _ _ L). }
  apply (wp_modify _ _ (part (lock_part l))); [exact St|]. intros s1 s2 L I L2 I2. split; [done|split; [|split]].
  - etrans; [by eapply step_from; [|apply St]|by apply rely_kept].
  - intros Hh. eapply unset_holder. by apply (k_holds _ _ _ _ L2).
  - intros w key n Us. by apply (k_uses _ _ _ _ L2), uses_set_holder, (k_uses _ _ _ _ L).
Qed.

(** [async with lock: p], for the two locks of the coordinator itself. *)
Lemma wp_with_lock {A} t l (p : prog A) Q s :
  inv s -> match l with L_entry _ _ => False | _ => True end ->
  (forall s1, inv s1 -> kept (part (lock_part l)) t s s1 -> holds t l s1 ->
    wpc t p (fun a s2 => holds t l s2 /\
      forall s3, inv s3 -> kept (part (lock_part l)) t s2 s3 -> ~ holds t l s3 -> Q a s3) s1) ->
  (forall e s', inv s' -> rely t s s' -> Q (Threw e) s') ->
  wpc t (with_lock t l p) Q s.
Proof.
  intros I Nl P E. assert (lock_part l <> O_hold Keys) as Np by by destruct l.
  apply (seq_rule (acquired t l s)); [done|apply wp_acquire; [done|by destruct l]| |intros; by apply E].
  intros [] s1 I1 (K1 & H1 & _). eapply finally_any; [done|by apply P|]. intros a s2 I2 [H2 X].
  eapply wp_mono; [|by apply wp_release]. cbn. intros b s3 I3 (-> & K3 & N3 & _).
  by apply X.
Qed.

(** [async with pool.hold(key): p]. *)
Lemma wp_hold {A} t w key (p : prog A) Q s :
  inv s -> (w = Keys -> active s !! t = None) ->
  (forall s1, inv s1 -> kept (part (O_hold w)) t s s1 -> holds_key t w key s1 ->
    wpc t p (fun a s2 => kept (all_but (O_hold w)) t s1 s2 /\ (w = Keys -> active s2 !! t = None)
      /\ forall s3, inv s3 -> kept (part (O_hold w)) t s2 s3 -> Q a s3) s1) ->
  (forall e s', inv s' -> kept (part (O_hold w)) t s s' -> Q (Threw e) s') ->
  wpc t (hold t w key p) Q s.
Proof.
  intros I A0 P E.
  assert (forall s1 s2, kept (part (O_hold w)) t s1 s2 -> (w = Keys -> active s1 !! t = None) -> w = Keys -> active s2 !! t = None) as Ac.
  { intros s1 s2 K H Ew. rewrite (k_active _ _ _ _ K); [by apply H|by unfold part]. }
  apply (seq_rule (fun a s' => match a with Ans n => kept (part (O_hold w)) t s s' /\ uses t w key n s' | Threw _ => False end)); [done| | |done].
  { apply wp_sync. intros m s1 L I1 N D. destruct (join t w key s1) as [n s2] eqn:J.
    apply (join_step policy) in J as [St U]; [|done|by eapply Ac; [apply rely_kept|]].
    split; [by eapply step_keeps|]. intros s3 L3 I3. split; [|by apply (k_uses _ _ _ _ L3)].
    etrans; [by eapply step_from|by apply rely_kept]. }
  intros n s1 I1 [K1 U1].
  apply (finally_rule (fun a s' => uses t w key n s' /\ (w = Keys -> active s' !! t = None)
    /\ forall s3, inv s3 -> kept (part (O_hold w)) t s' s3 -> Q a s3)); [done| |].
  - apply (seq_rule (acquired t (L_entry w n) s1)); [done|apply wp_acquire| |].
    + intros [= ->]. by eapply Ac.
    + by exists key.
    + intros [] s2 I2 (K2 & H2 & U2). specialize (U2 _ _ _ U1).
      eapply finally_any; [done|apply P; [done|by etrans|by exists n]|]. intros a s3 I3 (K3 & A3 & X).
      assert (uses t w key n s3) as U3 by (apply (k_uses _ _ _ _ K3); [by intros []|done]).
      assert (holds t (L_entry w n) s3) as H3 by (apply (k_holds _ _ _ _ K3); [by intros []|done]).
      eapply wp_mono; [|apply wp_release; [by intros [= ->]; apply A3|done]]. cbn. intros b s4 I4 (-> & K4 & N4 & U4).
      split; [by apply U4|split; [by eapply Ac|]]. intros s5 I5 K5. apply X; [done|by etrans].
    + intros e s2 I2 L2. split; [by apply (k_uses _ _ _ _ L2)|]. split; [eapply Ac; [by apply rely_kept|by eapply Ac]|].
      intros s3 I3 K3. apply E; [done|]. etrans; [exact K1|]. etrans; [by apply rely_kept|done].
  - intros a s2 I2 (U2 & A2 & X). apply (wp_modify _ _ (part (O_hold w))).
    + intros s3 L3 I3. apply leave_step; [done|by eapply Ac; [apply rely_kept|]|by apply (k_uses _ _ _ _ L3)].
    + intros s3 s4 L3 I3 L4 I4. apply X; [done|]. etrans; [|by apply rely_kept]. eapply step_from; [done|].
      apply leave_step; [done|by eapply Ac; [apply rely_kept|]|by apply (k_uses _ _ _ _ L3)].
Qed.

(** ** The store *)

Lemma keeps_same t s : inv s -> keeps inv rely t s s.
Proof. apply keeps_refl, rely_preorder. Qed.

Lemma raised_answer {R} (e : Exc) (s s' : Coordinator) (r : answer R) : raised e s = Some (r, s') -> s' = s /\ exists e, r = Threw e.
Proof. by destruct e; intros [= <- <-]; eauto. Qed.

(** Outside code that answers and does nothing to the coordinator. *)
Lemma wp_foreign {R} t (ready : Choice -> Coordinator -> option (answer R * Coordinator)) Q s :
  (forall c s1 r s2, ready c s1 = Some (r, s2) -> s2 = s1 /\ forall s', rely t s s' -> inv s' -> Q r s') ->
  (forall e s', rely t s s' -> inv s' -> Q (Threw e) s') -> wpc t (eff (Suspend true ready) : prog R) Q s.
Proof.
  intros H E. apply suspend_rule; [by intros s1 L I; split; apply E|]. intros c s1 r s2 L I [-> X]%H.
  split; [by apply keeps_same|]. intros s3 L3 I3. apply X; [by etrans|done].
Qed.

Lemma wp_resume t Q s : (forall r s', rely t s s' -> inv s' -> Q r s') -> wpc t resume Q s.
Proof.
  intros H. apply wp_foreign; [|intros; by apply H]. intros [|e|v| |] s1 r s2 R; try done; [by injection R as <- <-; auto|].
  apply raised_answer in R as [-> _]. auto.
Qed.

(** A call of the store: from the moment of its effect on, and if it has none. *)
Lemma wp_call_store {R} t (f : Coordinator -> answer R * Coordinator) Q s :
  inv s ->
  (forall s1 r s2, rely t s s1 -> inv s1 -> f s1 = (r, s2) -> (exists skip, step skip t s1 s2) /\
    (forall s3, rely t s2 s3 -> inv s3 -> Q r s3 /\ (match r with Ans _ => forall e, Q (Threw e) s3 | Threw _ => True end))) ->
  (forall e s', rely t s s' -> inv s' -> Q (Threw e) s') ->
  wpc t (call_store f) Q s.
Proof.
  intros I F E.
  apply (seq_rule (fun r s' => Q r s' /\ (match r with Ans _ => forall e s'', rely t s' s'' -> inv s'' -> Q (Threw e) s'' | Threw _ => True end)
    /\ (forall s'', rely t s' s'' -> inv s'' -> Q r s''))); [done| | |by intros e s1 I1 (X & _)].
  - apply suspend_rule; [intros s1 L1 I1; split; (split; [by apply E|split; [done|]]); intros s2 L2 I2; apply E; (by etrans) || done|].
    intros c s1 r s2 L1 I1 Rd. destruct c as [|e|v| |]; try done.
    + injection Rd as Rd. destruct (F s1 r s2 L1 I1 Rd) as [[skip St] X]. split; [by eapply step_keeps|].
      intros s3 L3 I3. split; [by apply X|]. split.
      * destruct r; [|done]. intros e s4 L4 I4. by apply (X s4); [etrans|].
      * intros s4 L4 I4. by apply (X s4); [etrans|].
    + apply raised_answer in Rd as [-> [e' ->]]. split; [by apply keeps_same|].
      intros s3 L3 I3. split; [by apply E; [etrans|]|split; [done|]]. intros s4 L4 I4. apply E; [|done]. by etrans; [|etrans].
  - intros r s1 I1 (_ & X & Y). apply (seq_rule (fun _ s' => rely t s1 s')); [done|by apply wp_resume| |].
    + intros [] s2 I2 L2 s3 L3 I3. apply Y; [by etrans|done].
    + intros e s2 I2 L2. by apply X.
Qed.

(** A record read from the store was there at some moment of the call. *)
Definition read (t : nat) (id : pystr) (h : OperationHandle) (s s' : Coordinator) : Prop :=
  exists s1, rely t s s1 /\ inv s1 /\ store s1 !! id = Some h /\ rely t s1 s'.

Lemma read_known t id h s s' : read t id h s s' -> known id h s'.
Proof.
  intros (s1 & L1 & I1 & E1 & L2). apply (known_later no_part t _ _ _ _ L2). split; [by apply (i_store _ _ I1)|by exists h].
Qed.

Lemma wp_get_record t id s :
  inv s -> wpc t (get_record id) (fun a s' => rely t s s' /\ match a with Ans (Some h) => read t id h s s' | _ => True end) s.
Proof.
  intros I. apply wp_call_store; [done| |done]. intros s1 r s2 L I1 [= <- <-].
  split; [exists no_part; by apply no_step|].
  intros s3 L3 I3. split; [|intros _; split; [by etrans|done]]. split; [by etrans|].
  destruct (store_get id (store s1)) eqn:G; [|done]. by exists s1.
Qed.

Lemma wp_all_records t s :
  inv s -> wpc t all_records (fun a s' => rely t s s' /\ match a with
    | Ans l => forall h, h ∈ l -> exists h', store s' !! h_id h = Some h' /\ follows h h'
    | Threw _ => True end) s.
Proof.
  intros I. apply wp_call_store; [done| |done]. intros s1 r s2 L I1 [= <- <-].
  split; [exists no_part; by apply no_step|].
  intros s3 L3 I3. split; [|intros _; split; [by etrans|done]]. split; [by etrans|].
  intros h [id G]%store_records_spec. destruct (i_store _ _ I1 _ _ G) as [<- _]. by apply (k_store _ _ _ _ L3).
Qed.

(** ** Changes of a record *)

Lemma wp_publish t h Q s : (forall r s', rely t s s' -> inv s' -> Q r s') -> wpc t (_publish events event_errors h) Q s.
Proof.
  intros H. apply wp_sync. intros n s1 L I N D.
  set (s2 := s1 <| published := published s1 ++ [lifecycle_event h] |>).
  assert (step no_part t s1 s2) as St by (apply core_step; [core|done]).
  split; [by eapply (step_keeps _ no_part)|]. intros s3 L3 I3. apply H; [|done]. etrans; [exact L|]. etrans; [exact (st_own _ _ _ _ _ St)|done].
Qed.

(** The task may change the record of the operation: it holds its lock, or the coordinator has not
    started and it is the one that starts it. *)
Definition may_write (t : nat) (id : pystr) (s : Coordinator) : Prop :=
  if _started s then holds_key t Operations id s else holds t L_start s.
Lemma may_write_later t id s s' : kept (part O_store) t s s' -> may_write t id s -> may_write t id s' /\ _started s' = _started s.
Proof.
  unfold may_write. intros K. destruct (_started s) eqn:E.
  - rewrite (k_started _ _ _ _ K E). intros H. split; [|done]. by apply (kept_holds_key _ _ _ _ _ _ K).
  - intros H. rewrite (k_start_lock _ _ _ _ K) by done. rewrite E. split; [|done]. by apply (k_holds _ _ _ _ K).
Qed.

(** What [t] knows of the record of the operation: it is [h], or has gone on from it if the
    coordinator has not started. *)
Definition knows (id : pystr) (h : OperationHandle) (s : Coordinator) : Prop :=
  exists h', store s !! id = Some h' /\ follows h h' /\ (_started s = true -> h' = h).
Lemma knows_later t id h s s' : rely t s s' -> may_write t id s -> knows id h s -> knows id h s'.
Proof.
  intros L W (h' & E & F & X). destruct (may_write_later _ _ _ _ (rely_kept (part O_store) _ _ _ L) W) as [_ St].
  destruct (k_store _ _ _ _ L _ _ E) as (h2 & E2 & F2). exists h2. split; [done|]. split; [by etrans|].
  rewrite St. intros S1. rewrite <- (X S1). unfold may_write in W. rewrite S1 in W.
  pose proof (k_operation _ _ _ _ L ltac:(done) ltac:(done) S1 _ _ W E). congruence.
Qed.

(** The store has accepted [h], and it is the record still, unless the coordinator had not started. *)
Definition wrote (h : OperationHandle) (s : Coordinator) : Prop := h ∈ writes s /\ knows (h_id h) h s.
Lemma wrote_later t h s s' : rely t s s' -> may_write t (h_id h) s -> wrote h s -> wrote h s'.
Proof.
  intros L W [A B]. split; [|by eapply knows_later]. by eapply kept_writes.
Qed.
Lemma wrote_stays t h s s' :
  rely t s s' -> wrote h s -> h ∈ writes s' /\ exists h', store s' !! h_id h = Some h' /\ follows h h'.
Proof.
  intros L [A (h1 & E1 & F1 & _)]. split.
  - by eapply kept_writes.
  - destruct (k_store _ _ _ _ L _ _ E1) as (h2 & E2 & F2). exists h2. split; [done|by etrans].
Qed.
Lemma wrote_known h s : wrote h s -> known (h_id h) h s.
Proof. intros [_ (c & E & F & _)]. split; [done|by exists c]. Qed.
(** Only an admission that is open lets an operation run. *)
Definition may_become (t : nat) (state : OperationState) (s : Coordinator) : Prop :=
  state = RUNNING -> holds t L_lifecycle s /\ _admission_closed s = false.
Lemma may_become_later t state s s' : kept (part O_store) t s s' -> may_become t state s -> may_become t state s'.
Proof.
  intros K M E. destruct (M E) as [H C]. split; [by apply (k_holds _ _ _ _ K)|]. by rewrite (k_lifecycle_lock _ _ _ _ K).
Qed.

Lemma knows_exact id h s : _started s = true -> knows id h s -> store s !! id = Some h.
Proof. intros S1 (h' & E & _ & X). by rewrite <- (X S1). Qed.

Lemma wp_replace t r h s :
  inv s -> may_write t (h_id h) s -> knows (h_id h) r s -> later r h -> handle_valid h -> may_become t (h_state h) s ->
  wpc t (replace h (h_revision r)) (fun a s' => kept (part O_store) t s s' /\
    match a with Ans _ => wrote h s' | Threw _ => knows (h_id h) r s' \/ wrote h s' end) s.
Proof.
  intros I W Kn La V M. apply wp_call_store; [done| |intros e s' I' L; split; [by apply rely_kept|left; by eapply knows_later]].
  intros s1 a s2 L I1 F.
  destruct (may_write_later _ _ _ _ (rely_kept (part O_store) _ _ _ L) W) as [W1 _].
  assert (knows (h_id h) r s1) as Kn1 by by eapply knows_later.
  destruct (store_replace h (h_revision r) (store s1)) as [m|e] eqn:Rp.
  - apply store_replace_ok in Rp as (c & Ec & Rv & ->). destruct Kn1 as (c' & Ec' & Fc & _).
    rewrite Ec in Ec'. injection Ec' as <-. apply follows_revision in Fc; [|done]. subst c. injection F as <- <-.
    assert (step (part O_store) t s1 (s1 <| store := <[h_id h := h]> (store s1) |> <| writes := writes s1 ++ [h] |>)) as St.
    { eapply replace_step; try done.
      - intros E. by apply (may_become_later _ _ _ _ (rely_kept _ _ _ _ L) M).
      - unfold may_write in W1. destruct (_started s1); auto. }
    split; [by eexists|]. intros s3 L3 I3.
    assert (kept (part O_store) t s s3 /\ wrote h s3) as [A B]; [|by split; [|intros e; split; [|right]]].
    split; [etrans; [by eapply step_from|by apply rely_kept]|]. eapply wrote_later; [exact L3| |].
    + by apply (may_write_later _ _ _ _ (st_own _ _ _ _ _ St) W1).
    + split; [cbn; apply elem_of_app; right; left|]. exists h. cbn. by rewrite lookup_insert_eq.
  - injection F as <- <-. split; [exists no_part; by apply no_step|]. intros s3 L3 I3. split; [|done].
    split; [apply rely_kept; by etrans|]. left. by eapply knows_later.
Qed.

(** After the write: readers, sink and waiters are told. *)
Lemma wp_announce t updated s :
  inv s -> known (h_id updated) updated s ->
  wpc t
    (modify (fun s => s <| _latest := <[h_id updated := updated]> (_latest s) |>) ;;;
     _publish events event_errors updated ;;;
     (if h_terminal updated then
        modify (fun s =>
          let s := match _changed s !! h_id updated with
                   | Some event => s <| _changed := delete (h_id updated) (_changed s) |> <| signaled := signaled s ∪ {[event]} |>
                   | None => s
                   end in
          s <| _latest := delete (h_id updated) (_latest s) |>)
      else Ret tt) ;;;
     Ret updated)
    (fun a s' => rely t s s' /\ match a with Ans h => h = updated | Threw _ => True end) s.
Proof.
  intros I Kn. apply (seq_rule (fun _ s' => rely t s s')); [done| | |by intros].
  { apply wp_modify_core; [|done]. intros s1 L1 _. by eapply set_latest_core, known_later. }
  intros [] s1 I1 L1. apply (seq_rule (fun _ s' => rely t s s')); [done|apply wp_publish; intros; by etrans| |by intros].
  intros [] s2 I2 L2. apply (seq_rule (fun _ s' => rely t s s')); [done| | |by intros].
  - destruct (h_terminal updated); [|intros s3 L3 I3; by etrans]. apply wp_modify_core; [|intros; by etrans].
    intros s3 _ _. cbn. destruct (_changed s3 !! h_id updated); [|apply drop_latest_core].
    eexists _, _, _, _, _, _, _. split; [|reflexivity]. intros id h [_ L]%lookup_delete_Some. by left.
  - intros [] s3 I3 L3 s4 L4 I4. split; [by etrans|done].
Qed.

Lemma wp_transition t record state res present fail s :
  inv s -> may_write t (h_id record) s -> knows (h_id record) record s -> may_become t state s ->
  (forall updated, operation_handle (h_request record) state res (Some present) fail (h_revision record + 1) = Ok updated ->
     later record updated) ->
  wpc t (_transition events event_errors record state res present fail) (fun a s' => kept (part O_store) t s s' /\
    match a with
    | Ans h => _started s = true -> h ∈ writes s' /\ h_request h = h_request record /\ h_state h = state
                 /\ exists h', store s' !! h_id record = Some h' /\ follows h h'
    | Threw _ => True end) s.
Proof.
  intros I W Kn M La. unfold _transition. cbv zeta.
  destruct (operation_handle (h_request record) state res (Some present) fail (h_revision record + 1)) as [updated|e] eqn:Eh; cbn [lift];
    [|intros s1 L1 I1; by split; [apply rely_kept|]].
  specialize (La _ eq_refl). destruct (operation_handle_ok _ _ _ _ _ _ _ Eh) as [Eu V].
  assert (h_id updated = h_id record) as Eid by (rewrite Eu; done). assert (h_state updated = state) as Est by (rewrite Eu; done).
  assert (h_request updated = h_request record) as Erq by (rewrite Eu; done).
  change (cbind (Ret updated) ?k) with (k updated). cbv beta.
  apply (seq_rule (fun x s' => kept (part O_store) t s s' /\ match x with
    | Ans (Ans _) => wrote updated s' | Ans (Threw _) => knows (h_id record) record s' \/ wrote updated s' | Threw _ => True end)); [done| | |].
  - eapply captured_any; [done|apply (wp_replace t record updated); rewrite ?Eid, ?Est; done|].
    intros a s1 I1 [K1 X]. split; [done|]. destruct a; [done|]. by rewrite Eid in X.
  - intros [u|e] s1 I1 [K1 X].
    + rewrite <- Eid. eapply wp_mono; [|apply wp_announce; [done|by apply wrote_known]]. cbn. intros [h|e] s2 I2 [L2 Y].
      * split; [etrans; [exact K1|by apply rely_kept]|]. intros _. subst h. destruct (wrote_stays _ _ _ _ L2 X). auto.
      * split; [|done]. etrans; [exact K1|by apply rely_kept].
    + destruct (is_exception e); [|intros s2 L2 I2; split; [etrans; [exact K1|by apply rely_kept]|done]].
      apply (seq_rule (fun a s' => rely t s1 s' /\ match a with Ans (Some h) => read t (h_id record) h s1 s' | _ => True end));
        [done|by apply wp_get_record| |intros e' s2 I2 [L2 _]; split; [etrans; [exact K1|by apply rely_kept]|done]].
      intros [c|] s2 I2 [L2 Rd]; [|intros s3 L3 I3; split; [etrans; [exact K1|apply rely_kept; by etrans]|done]].
      destruct (h_terminal c) eqn:Tc; intros s3 L3 I3; (split; [etrans; [exact K1|apply rely_kept; by etrans]|]); [|done].
      intros S1. destruct (may_write_later _ _ _ _ K1 W) as [W1 S1']. destruct Rd as (s' & L' & I' & Ec & L'').
      destruct (may_write_later _ _ _ _ (rely_kept (part O_store) _ _ _ L') W1) as [W' S'].
      assert (_started s' = true) as Ss' by congruence. destruct X as [X|X].
      * apply (knows_later t (h_id record) record s1 s') in X; [|done|done]. apply knows_exact in X; [|done].
        rewrite Ec in X. injection X as ->. apply rank_terminal in Tc. destruct La as (_ & La & _).
        pose proof (rank_bounds (h_state updated)). lia.
      * apply (wrote_later t updated s1 s') in X; [|done|by rewrite Eid]. destruct X as [Iw Ku].
        pose proof (knows_exact _ _ _ Ss' Ku) as Eu'. rewrite Eid, Ec in Eu'. injection Eu' as ->.
        destruct (wrote_stays t updated s' s3) as [A B]; [by etrans|by split|]. rewrite <- Eid. auto.
  - intros e s1 I1 [K1 _]. by split.
Qed.

Lemma not_terminal_rank h : h_terminal h = false -> rank (h_state h) < 2.
Proof. unfold h_terminal. by destruct (h_state h). Qed.

(** ** Starting *)

Lemma wp_for_each {X} t (p : X -> prog unit) (P : Coordinator -> Prop) (K : Coordinator -> Coordinator -> Prop) `{!PreOrder K} l s :
  inv s -> P s ->
  (forall s s', rely t s s' -> K s s') ->
  (forall x s1, x ∈ l -> inv s1 -> K s s1 -> P s1 -> wpc t (p x) (fun _ s' => K s1 s' /\ P s') s1) ->
  (forall s s', rely t s s' -> inv s' -> P s -> P s') ->
  wpc t (for_each p l) (fun _ s' => K s s' /\ P s') s.
Proof.
  intros I Ps RK H St. assert (forall s1, inv s1 -> K s s1 -> P s1 -> wpc t (for_each p l) (fun _ s' => K s1 s' /\ P s') s1) as G.
  { clear Ps I. induction l as [|x l IH]; intros s1 I1 K1 P1; cbn.
    - intros s2 L2 I2. split; [by apply RK|by eapply St].
    - apply (seq_rule (fun _ s' => K s1 s' /\ P s')); [done|apply H; [left|done..]| |by intros].
      intros _ s2 I2 [K2 P2]. eapply wp_mono; [|apply IH; [|done|by etrans|done]].
      + cbn. intros a s3 I3 [K3 P3]. split; [by etrans|done].
      + intros y s3 In. apply H. by right. }
  by apply G.
Qed.

Lemma wp_orphaned t h s :
  inv s -> holds t L_start s -> _started s = false -> (exists h', store s !! h_id h = Some h' /\ follows h h') ->
  wpc t (orphaned events event_errors h) (fun _ s' => kept (part O_store) t s s') s.
Proof.
  intros I H S0 (h' & E & F). unfold orphaned. destruct (h_terminal h) eqn:T; [intros s1 L1 I1; by apply rely_kept|].
  apply (seq_rule (fun _ s' => rely t s s')); [done| | |intros; by apply rely_kept].
  { apply wp_modify_core; [|done]. intros s1 L1 _. eapply set_latest_core, known_later; [exact L1|]. by split; [|exists h']. }
  intros [] s1 I1 L1. apply (seq_rule (fun _ s' => kept (part O_store) t s1 s')); [done| | |].
  - assert (may_write t (h_id h) s) as W by (unfold may_write; by rewrite S0).
    eapply wp_mono; [|eapply wp_transition; [done| | |done|]].
    + by intros a s2 _ [K _].
    + by apply (may_write_later _ _ _ _ (rely_kept _ _ _ _ L1) W).
    + eapply knows_later; [exact L1|done|]. exists h'. split; [done|split; [done|congruence]].
    + intros u Hu. eapply later_next; [exact Hu|by apply not_terminal_rank|done].
  - intros x s2 I2 K2 s3 L3 I3. etrans; [by apply rely_kept|]. etrans; [exact K2|by apply rely_kept].
  - intros e s2 I2 K2. etrans; [by apply rely_kept|done].
Qed.

(** The start lock released again, nothing is lost. *)
Lemma regain_start t s s' :
  ~ holds t L_start s -> ~ holds t L_start s' ->
  kept (either (part O_start) (part O_store)) t s s' -> (_started s = true -> kept (part O_start) t s s') -> rely t s s'.
Proof.
  intros N N' K St. destruct K. assert (forall p, p <> O_start -> p <> O_store -> ~ either (part O_start) (part O_store) p) as Sk.
  { intros p A B [?|?]; congruence. }
  constructor; try done.
  - intros l _. destruct (decide (l = L_start)) as [->|Nl]; [done|]. apply k_holds. apply Sk; by destruct l.
  - intros w key n _. by apply k_uses, Sk.
  - intros _. by apply k_lifecycle_lock, Sk.
  - intros _ _ S1. by apply (CoordinatorLogic.k_operation _ _ _ _ (St S1)).
  - intros _. by apply k_admission, Sk.
  - intros _. by apply k_active, Sk.
  - intros _. by apply k_tasks, Sk.
  - intros _ _. apply k_not_run; by apply Sk.
  - intros _. by apply k_spawning, Sk.
Qed.

Lemma wp_interrupt_orphans t s :
  inv s -> holds t L_start s -> _started s = false ->
  wpc t (await records := all_records in
         for_each (orphaned events event_errors) records ;;;
         modify (fun s => s <| _started := true |>))
    (fun a s' => holds t L_start s' /\ kept (either (part O_start) (part O_store)) t s s'
       /\ match a with Ans _ => _started s' = true | Threw _ => True end) s.
Proof.
  intros I H S0. assert (forall s', kept (part O_store) t s s' -> holds t L_start s' /\ kept (either (part O_start) (part O_store)) t s s') as Tr.
  { intros s' K. split; [by apply (k_holds _ _ _ _ K)|]. eapply kept_weaken, K. by right. }
  apply (seq_rule (fun a s' => rely t s s' /\ match a with
    | Ans l => forall h, h ∈ l -> exists h', store s' !! h_id h = Some h' /\ follows h h' | Threw _ => True end)); [done|by apply wp_all_records| |].
  2: { intros e s1 I1 [L1 _]. destruct (Tr s1); [by apply rely_kept|done]. }
  intros l s1 I1 [L1 X].
  apply (seq_rule (fun _ s' => kept (part O_store) t s1 s' /\ True)); [done| | |].
  - eapply wp_for_each; [apply kept_preorder|done|done|intros; by apply rely_kept| |done].
    intros h s2 In I2 K2 _. eapply wp_mono; [|apply wp_orphaned]; [by intros| | | |].
    + done.
    + apply (k_holds _ _ _ _ K2); [done|]. by apply (k_holds _ _ _ _ L1).
    + rewrite (k_start_lock _ _ _ _ K2), (k_start_lock _ _ _ _ L1); try done. by apply (k_holds _ _ _ _ L1).
    + destruct (X _ In) as (h' & E & F). destruct (k_store _ _ _ _ K2 _ _ E) as (h2 & E2 & F2). exists h2. split; [done|by etrans].
  - intros [] s2 I2 [K2 _]. assert (holds t L_start s2) as H2.
    { apply (k_holds _ _ _ _ K2); [done|]. by apply (k_holds _ _ _ _ L1). }
    assert (forall s3, rely t s2 s3 -> inv s3 -> step (part O_start) t s3 (s3 <| _started := true |>)) as St.
    { intros s3 L3 I3. apply started_step; [done|]. by apply (k_holds _ _ _ _ L3). }
    apply (wp_modify _ _ (part O_start)); [done|]. intros s3 s4 L3 I3 L4 I4.
    split; [|split; [|by apply L4]].
    + apply (k_holds _ _ _ _ L4); [done|]. change (holds t L_start s3). by apply (k_holds _ _ _ _ L3).
    + apply (kept_via (part O_store) (part O_start) _ _ _ s2); [|etrans; [by eapply step_from, St|by apply rely_kept]|by right|by left].
      etrans; [by apply rely_kept|done].
  - intros e s2 I2 [K2 _]. destruct (Tr s2); [etrans; [by apply rely_kept|done]|done].
Qed.

Definition started_after (t : nat) (s : Coordinator) (a : answer unit) (s' : Coordinator) : Prop :=
  rely t s s' /\ match a with Ans _ => _started s' = true | Threw _ => True end.

Lemma wp_start t s : inv s -> ~ holds t L_start s -> wpc t (start events event_errors t) (started_after t s) s.
Proof.
  intros I N. apply wp_with_lock; [done|done| |intros e s' I' L; by split].
  intros s1 I1 K1 H1. set (K := kept (either (part O_start) (part O_store)) t).
  apply wp_mono with (Q := fun a s2 => holds t L_start s2 /\ K s s2 /\ (_started s = true -> kept (part O_start) t s s2)
    /\ match a with Ans _ => _started s2 = true | Threw _ => True end).
  { intros a s2 I2 (H2 & K2 & P2 & S2). split; [done|]. intros s3 I3 K3 N3. split.
    - apply regain_start; [done|done|eapply (kept_via _ _ _ _ _ _ _ K2 K3); [done|by left]|]. intros S1. etrans; [by apply P2|done].
    - destruct a; [|done]. by apply K3. }
  apply (seq_rule (fun a s2 => rely t s1 s2 /\ match a with
    | Ans b => (b = true -> _started s2 = true) /\ (b = false -> _started s2 = false) | Threw _ => True end)); [done| | |].
  - apply wp_get. intros s2 s3 L2 I2 L3 I3. split; [by etrans|]. split; intros E.
    + by apply L3.
    + rewrite (k_start_lock _ _ _ _ L3); [done|done|]. by apply (k_holds _ _ _ _ L2).
  - intros [|] s2 I2 [L2 [S2 S2']].
    + intros s3 L3 I3. assert (kept (part O_start) t s s3) as K3.
      { etrans; [exact K1|]. apply rely_kept. by etrans. }
      split; [by apply (k_holds _ _ _ _ (transitivity L2 L3))|]. split; [by eapply kept_weaken, K3; left|].
      split; [done|]. apply L3. by apply S2.
    + specialize (S2' eq_refl). assert (_started s = true -> False) as S0.
      { intros E. apply (k_started _ _ _ _ (transitivity K1 (rely_kept _ _ _ _ L2))) in E. congruence. }
      eapply wp_mono; [|apply wp_interrupt_orphans]; [|done|by apply (k_holds _ _ _ _ L2)|done].
      cbn. intros a s3 I3 (H3 & K3 & S3). split; [done|split; [|by split]].
      etrans; [|exact K3]. eapply (kept_via _ _ _ _ _ _ _ K1 L2); [by left|done].
  - intros e s2 I2 [L2 _]. assert (kept (part O_start) t s s2) as K2 by (etrans; [exact K1|by apply rely_kept]).
    split; [by apply (k_holds _ _ _ _ L2)|]. split; [by eapply kept_weaken, K2; left|done].
Qed.

(** [status]: a record the store had after the coordinator had started. *)
Definition seen (t : nat) (id : pystr) (h : OperationHandle) (s s' : Coordinator) : Prop :=
  exists s1, rely t s s1 /\ inv s1 /\ _started s1 = true /\ store s1 !! id = Some h /\ rely t s1 s'.
Definition status_of (t : nat) (id : pystr) (s : Coordinator) (a : answer OperationHandle) (s' : Coordinator) : Prop :=
  rely t s s' /\ match a with Ans h => seen t id h s s' | Threw _ => True end.

Lemma wp_status t id s : inv s -> ~ holds t L_start s -> wpc t (status events event_errors t id) (status_of t id s) s.
Proof.
  intros I N. apply (seq_rule (started_after t s)); [done|by apply wp_start| |intros e s1 I1 [L1 _]; by split].
  intros [] s1 I1 [L1 S1].
  apply (seq_rule (fun a s' => rely t s1 s' /\ match a with Ans (Some h) => read t id h s1 s' | _ => True end));
    [done|by apply wp_get_record| |intros e s2 I2 [L2 _]; split; [by etrans|done]].
  intros [h|] s2 I2 [L2 Rd]; [|intros s3 L3 I3; split; [by etrans; [|etrans]|done]].
  apply (seq_rule (fun _ s' => rely t s2 s')); [done| | |intros e s3 I3 L3; split; [by etrans; [|etrans]|done]].
  - apply wp_modify_core; [|done]. intros s' L' _. destruct (h_terminal h); [apply drop_latest_core|].
    eapply set_latest_core, known_later; [exact L'|]. by eapply read_known.
  - intros [] s3 I3 L3 s4 L4 I4. destruct Rd as (s' & A & B & C & D).
    split; [etrans; [exact L1|]; etrans; [exact L2|]; by etrans|]. exists s'. split; [by etrans|]. split; [done|].
    split; [by apply A|]. split; [done|]. etrans; [exact D|]. by etrans.
Qed.

(** Under the lock of the operation what was read is what is there. *)
Lemma seen_exact t id h s s' :
  holds_key t Operations id s -> seen t id h s s' -> store s' !! id = Some h /\ _started s' = true.
Proof.
  intros H (s1 & L1 & _ & S1 & E & L2). split; [|by apply L2].
  apply (k_operation _ _ _ _ L2); [done|done|done| |done]. by apply (kept_holds_key _ _ _ _ _ _ L1).
Qed.

(** [async with self._operation_locks.hold(id): current = await self.status(id); ...]. *)
Lemma wp_locked {A} t id (p : OperationHandle -> prog A) (R : A -> Coordinator -> Prop) s :
  inv s -> ~ holds t L_start s ->
  (forall x s2 s3, kept (part (O_hold Operations)) t s2 s3 -> R x s2 -> R x s3) ->
  (forall h s1, inv s1 -> kept (part (O_hold Operations)) t s s1 -> holds_key t Operations id s1 -> _started s1 = true ->
    store s1 !! id = Some h ->
    wpc t (p h) (fun a s2 => kept (part O_store) t s1 s2 /\ match a with Ans x => R x s2 | Threw _ => True end) s1) ->
  wpc t (hold t Operations id (await r := status events event_errors t id in p r))
    (fun a s' => kept on_record t s s' /\ match a with Ans x => R x s' | Threw _ => True end) s.
Proof.
  intros I N St P. apply wp_hold; [done|done| |intros e s' I' K; split; [by eapply kept_weaken, K; left|done]].
  intros s1 I1 K1 H1. assert (~ holds t L_start s1) as N1 by (intros H; by apply N, (k_holds _ _ _ _ K1)).
  apply wp_mono with (Q := fun a s2 => kept (part O_store) t s1 s2 /\ match a with Ans x => R x s2 | Threw _ => True end).
  - intros a s2 I2 [K2 Ra]. split; [eapply kept_weaken, K2; by intros p0 <-|split; [done|]]. intros s3 I3 K3. split.
    + eapply (kept_via on_record _ _ _ _ _ _ (kept_via _ _ _ _ _ _ _ K1 K2 _ _) K3). Unshelve. done. by left. by left. by right.
    + destruct a; [|done]. by eapply St.
  - apply (seq_rule (status_of t id s1)); [done|by apply wp_status| |intros e s2 I2 [L2 _]; by split; [apply rely_kept|]].
    intros h s2 I2 [L2 Sn]. destruct (seen_exact t id h s1 s2 H1 Sn) as [E S2].
    eapply wp_mono; [|apply P]; [|done| |by apply (kept_holds_key _ _ _ _ _ _ L2)|done|done].
    + intros a s3 I3 [K3 Ra]. split; [|done]. etrans; [by apply rely_kept|done].
    + etrans; [exact K1|by apply rely_kept].
Qed.

Lemma seen_known t id h s s' : seen t id h s s' -> known id h s'.
Proof.
  intros (s1 & _ & I1 & _ & E & L2). apply (known_later no_part t _ _ _ _ L2). split; [by apply (i_store _ _ I1)|by exists h].
Qed.

(** ** Execution *)

Lemma wp_end_unless_terminal t id state fail s :
  inv s -> ~ holds t L_start s -> (state = FAILED /\ (exists h, store s !! id = Some h /\ h_state h <> QUEUED)) \/ state = INTERRUPTED ->
  wpc t (_end_unless_terminal events event_errors t id state fail) (fun _ s' => kept on_record t s s') s.
Proof.
  intros I N St. unfold _end_unless_terminal. eapply wp_mono; [|apply (wp_locked t id _ (fun _ _ => True)); [done|done|done|]]; [by intros a s' _ [K _]|].
  intros h s1 I1 K1 H1 S1 E1. destruct (h_terminal h) eqn:T; [intros s2 L2 I2; by split; [apply rely_kept|]|].
  destruct (i_store _ _ I1 _ _ E1) as [Ei _]. subst id.
  apply (seq_rule (fun _ s' => kept (part O_store) t s1 s')); [done| | |].
  - eapply wp_mono; [|apply wp_transition]; [by intros a s2 _ [K _]|done| | | |].
    + unfold may_write. by rewrite S1.
    + exists h. done.
    + intros ->. by destruct St as [[? _]|?].
    + intros u Hu. eapply later_next; [exact Hu| |].
      * apply not_terminal_rank in T. by destruct St as [[-> _]| ->].
      * intros Q. destruct St as [[-> (h0 & E0 & Q0)]| ->]; [|done]. destruct (k_store _ _ _ _ K1 _ _ E0) as (h2 & E2 & F2).
        rewrite E1 in E2. injection E2 as <-. by destruct (follows_not_queued _ _ F2 Q0).
  - intros x s2 I2 K2 s3 L3 I3. split; [etrans; [exact K2|by apply rely_kept]|done].
  - intros e s2 I2 K2. by split.
Qed.

Lemma wp_begin_running t request s :
  inv s -> ~ holds t L_start s -> ~ holds t L_lifecycle s ->
  wpc t (begin_running events event_errors t request) (fun a s' =>
    kept (either (part O_lifecycle) on_record) t s s' /\
    match a with
    | Ans true => (exists h, h ∈ writes s' /\ h_id h = operation_id request /\ h_state h = RUNNING)
                  /\ exists h, store s' !! operation_id request = Some h /\ h_state h <> QUEUED
    | _ => True end) s.
Proof.
  intros I N Nl. set (Ran := fun (go : bool) s' => go = true ->
    (exists h, h ∈ writes s' /\ h_id h = operation_id request /\ h_state h = RUNNING)
    /\ exists h, store s' !! operation_id request = Some h /\ h_state h <> QUEUED).
  assert (forall skip x s2 s3, kept skip t s2 s3 -> Ran x s2 -> Ran x s3) as RanL.
  { intros skip x s2 s3 K R E. destruct (R E) as [(h & Iw & Rest) (h0 & E0 & Q0)]. split.
    - exists h. split; [|done]. by eapply kept_writes.
    - destruct (k_store _ _ _ _ K _ _ E0) as (h2 & E2 & F2). exists h2. split; [done|by eapply follows_not_queued]. }
  apply wp_mono with (Q := fun a s' => kept (either (part O_lifecycle) on_record) t s s' /\ match a with Ans x => Ran x s' | Threw _ => True end).
  { intros a s' _ [K R]. split; [done|]. destruct a as [[|]|]; [by apply R|done|done]. }
  apply wp_with_lock; [done|done| |intros e s' I' L; by split; [apply rely_kept|]].
  intros s1 I1 K1 H1. assert (~ holds t L_start s1) as N1 by (intros H; by apply N, (k_holds _ _ _ _ K1)).
  apply wp_mono with (Q := fun a s2 => kept on_record t s1 s2 /\ match a with Ans x => Ran x s2 | Threw _ => True end).
  { intros a s2 I2 [K2 R]. split; [apply (k_holds _ _ _ _ K2); [by intros [|]|done]|]. intros s3 I3 K3 N3. split.
    - eapply (kept_via _ _ _ _ _ _ _ (kept_via _ _ (either (part O_lifecycle) on_record) _ _ _ _ K1 K2 _ _) K3).
      Unshelve. all: auto; by left + by right.
    - destruct a; [|done]. by eapply RanL. }
  apply (seq_rule (fun a s2 => rely t s1 s2 /\ match a with Ans b => b = false -> _admission_closed s2 = false | Threw _ => True end)); [done| | |].
  - apply wp_get. intros s2 s3 L2 I2 L3 I3. split; [by etrans|]. intros C.
    rewrite (k_lifecycle_lock _ _ _ _ L3); [done|done|]. by apply (k_holds _ _ _ _ L2).
  - intros [|] s2 I2 [L2 C2]; [intros s3 L3 I3; by split; [apply rely_kept; etrans|]|]. specialize (C2 eq_refl).
    eapply wp_mono; [|apply (wp_locked t (operation_id request) _ Ran); [done| |by intros x; apply RanL|]].
    + intros a s3 I3 [K3 R]. split; [|done]. etrans; [by apply rely_kept|done].
    + intros H. by apply N1, (k_holds _ _ _ _ L2).
    + intros h s3 I3 K3 H3 S3 E3. destruct (decide (h_state h = QUEUED)) as [Q|Nq]; [|intros s4 L4 I4; by split; [apply rely_kept|]].
      destruct (i_store _ _ I3 _ _ E3) as [Ei _].
      assert (holds t L_lifecycle s3) as Hl by (apply (k_holds _ _ _ _ K3); [done|]; by apply (k_holds _ _ _ _ L2)).
      assert (_admission_closed s3 = false) as C3.
      { rewrite (k_lifecycle_lock _ _ _ _ K3); [done|done|]. by apply (k_holds _ _ _ _ L2). }
      eapply seq_any; [done|apply wp_transition| |].
      * done.
      * unfold may_write. by rewrite S3, Ei.
      * exists h. by rewrite Ei.
      * by intros _.
      * intros u Hu. eapply later_next; [exact Hu|by rewrite Q|done].
      * cbn. intros x s4 I4 [K4 X] s5 L5 I5. destruct (X S3) as (Iw & Rq & Rs & h4 & E4 & F4).
        split; [etrans; [exact K4|by apply rely_kept]|]. eapply RanL; [exact L5|]. intros _. split.
        -- exists x. split; [done|split; [|done]]. unfold h_id. by rewrite Rq, <- Ei.
        -- exists h4. rewrite Ei in E4. split; [done|]. eapply follows_not_queued; [done|by rewrite Rs].
      * cbn. intros e s4 I4 [K4 _]. by split.
  - intros e s2 I2 [L2 _]. by split; [apply rely_kept|].
Qed.

(** A call of the runner is over when the code goes on. *)
Lemma wp_runner_run t request s :
  inv s -> _tasks s !! operation_id request = Some t -> operation_id request ∉ runs s ->
  holds_key t Keys (concurrency_key request) s -> (is_Some (in_flight_limit policy) -> t ∈ _admission s) ->
  (exists h, h ∈ writes s /\ h_id h = operation_id request /\ h_state h = RUNNING) ->
  wpc t (runner_run t request) (fun _ s' => kept (either (part O_active) (part O_runs)) t s s' /\ active s' !! t = None) s.
Proof.
  intros I T Nr H A W.
  assert (forall s1, rely t s s1 -> inv s1 -> step (either (part O_active) (part O_runs)) t s1 (run_begins t request s1)) as St.
  { intros s1 L I1. apply run_begins_step; [done|..].
    - by apply (k_tasks _ _ _ _ L).
    - intros In. apply Nr. by apply (k_not_run _ _ _ _ L).
    - by apply (kept_holds_key _ _ _ _ _ _ L).
    - intros Li. by apply (k_admission _ _ _ _ L), A.
    - destruct W as (h & Iw & R). exists h. split; [|done]. by eapply kept_writes. }
  apply (seq_rule (fun a s' => kept (either (part O_active) (part O_runs)) t s s' /\ exists x, a = Ans x)); [done| | |by intros e s1 I1 [_ [x [=]]]].
  { apply (wp_modify _ _ (either (part O_active) (part O_runs))); [done|]. intros s1 s2 L I1 L2 I2. split; [|by eexists].
    etrans; [by eapply step_from, St|by apply rely_kept]. }
  intros [] s1 I1 [K1 _]. apply (finally_rule (fun _ s' => rely t s1 s')); [done| |].
  - apply wp_foreign; [|done]. intros [|e|v| |] s2 r s3 R; try done; [apply raised_answer in R as [-> _]; auto|by injection R as <- <-; auto].
  - intros a s2 I2 L2. apply (wp_modify _ _ (part O_active)); [intros s3 L3 I3; by apply run_ends_step|].
    intros s3 s4 L3 I3 L4 I4. assert (kept (part O_active) t s3 (s3 <| active := delete t (active s3) |>)) as K3 by by apply (run_ends_step policy).
    assert (active s4 !! t = None) as A4 by (rewrite (k_active _ _ _ _ L4) by done; apply lookup_delete_eq).
    assert (kept (either (part O_active) (part O_runs)) t s s4) as K4; [|done].
    etrans; [exact K1|]. etrans; [apply rely_kept; by etrans|]. etrans; [eapply kept_weaken, K3; by left|by apply rely_kept].
Qed.

Lemma wp_admit_one t s :
  inv s -> wpc t (admit_one policy t) (fun a s' => kept (part O_admission) t s s' /\
    match a with Ans _ => is_Some (in_flight_limit policy) -> t ∈ _admission s' | Threw _ => True end) s.
Proof.
  intros I. unfold admit_one. destruct (in_flight_limit policy) as [limit|] eqn:Li.
  - apply suspend_rule; [intros s1 L I1; by split; split; [apply rely_kept| |apply rely_kept|]|].
    intros c s1 r s2 L I1 R. destruct c; try done. destruct (Nat.ltb_spec (size (_admission s1)) limit) as [Lt|]; [|done].
    injection R as <- <-. pose proof (admit_step policy t limit s1 I1 Li Lt) as St. split; [by eapply step_keeps|].
    intros s3 L3 I3. split; [etrans; [by eapply step_from|by apply rely_kept]|]. intros _. apply (k_admission _ _ _ _ L3); [done|]. cbn. set_solver.
  - intros s1 L I1. split; [by apply rely_kept|]. by intros [? [=]].
Qed.

Lemma wp_conclude t request r s :
  inv s -> ~ holds t L_start s -> (exists h, store s !! operation_id request = Some h /\ h_state h <> QUEUED) ->
  wpc t (conclude events event_errors t request r) (fun _ s' => kept on_record t s s') s.
Proof.
  intros I N Q. destruct r as [result|e]; cbn [conclude].
  - eapply wp_mono; [|apply (wp_locked t (operation_id request) _ (fun _ _ => True)); [done|done|done|]]; [by intros a s' _ [K _]|].
    intros h s1 I1 K1 H1 S1 E1. destruct (decide (h_state h = RUNNING)) as [Ru|]; [|intros s2 L2 I2; by split; [apply rely_kept|]].
    destruct (i_store _ _ I1 _ _ E1) as [Ei _].
    eapply seq_any; [done|apply wp_transition; [done| | |done|]| |].
    + unfold may_write. by rewrite S1, Ei.
    + exists h. by rewrite Ei.
    + intros u Hu. eapply later_next; [exact Hu|by rewrite Ru|congruence].
    + cbn. intros x s2 I2 [K2 _] s3 L3 I3. split; [|done]. etrans; [exact K2|by apply rely_kept].
    + cbn. intros e s2 I2 [K2 _]. by split.
  - destruct e as [| | |name text]; [intros s1 L1 I1; by apply rely_kept|intros s1 L1 I1; by apply rely_kept| |].
    + apply (seq_rule (fun _ s' => kept on_record t s s')); [done|by apply wp_end_unless_terminal; [| |right]| |by intros].
      intros [] s1 I1 K1 s2 L2 I2. etrans; [exact K1|by apply rely_kept].
    + apply wp_end_unless_terminal; [done|done|by left].
Qed.

(** What an execution changes of what its task owns, the lock of its key and its entry apart. *)
Definition busy : parts := fun p =>
  p = O_lifecycle \/ p = O_hold Operations \/ p = O_store \/ p = O_admission \/ p = O_active \/ p = O_runs.
Lemma busy_on_record p : on_record p -> busy p.
Proof. unfold busy. intros [<-|<-]; auto. Qed.
Lemma busy_begin p : either (part O_lifecycle) on_record p -> busy p.
Proof. intros [<-|H]; [by left|by apply busy_on_record]. Qed.
Lemma busy_runs p : either (part O_active) (part O_runs) p -> busy p.
Proof. unfold busy. intros [<-|<-]; tauto. Qed.
Lemma not_busy : ~ busy O_start /\ ~ busy (O_hold Keys) /\ ~ busy O_tasks /\ ~ busy O_spawning.
Proof. unfold busy. repeat split; naive_solver. Qed.

(** The part of [_execute] under the lock of the key. *)
Lemma wp_under_key t request s :
  inv s -> ~ holds t L_start s -> ~ holds t L_lifecycle s -> holds_key t Keys (concurrency_key request) s ->
  active s !! t = None -> _tasks s !! operation_id request = Some t -> operation_id request ∉ runs s ->
  wpc t
    (admit_one policy t ;;;
     await go := begin_running events event_errors t request in
     if (go : bool) then
       await r := capture (runner_run t request) in
       conclude events event_errors t request r
     else Ret tt)
    (fun _ s' => kept busy t s s' /\ active s' !! t = None) s.
Proof.
  intros I N Nl H A T Nr. destruct not_busy as (B1 & B2 & B3 & B4).
  assert (forall s' s'', kept busy t s s' -> active s' !! t = None -> rely t s' s'' -> kept busy t s s'' /\ active s'' !! t = None) as Fin.
  { intros s' s'' K Ac L. split; [etrans; [exact K|by apply rely_kept]|]. by rewrite (k_active _ _ _ _ L). }
  apply (seq_rule (fun a s' => kept (part O_admission) t s s' /\ match a with Ans _ => is_Some (in_flight_limit policy) -> t ∈ _admission s' | Threw _ => True end));
    [done|by apply wp_admit_one| |].
  2: { intros e s1 I1 [K1 _]. split; [eapply kept_weaken, K1; intros p <-; unfold busy; tauto|]. by rewrite (k_active _ _ _ _ K1). }
  intros [] s1 I1 [K1 Ad]. assert (kept busy t s s1) as Kb1 by (eapply kept_weaken, K1; intros p <-; unfold busy; tauto).
  assert (active s1 !! t = None) as A1 by by rewrite (k_active _ _ _ _ K1).
  eapply seq_any; [done|apply wp_begin_running; [done| |]| |].
  { intros Hh. by apply N, (k_holds _ _ _ _ K1). }
  { intros Hh. by apply Nl, (k_holds _ _ _ _ K1). }
  2: { intros e s2 I2 [K2 _]. split; [etrans; [exact Kb1|eapply kept_weaken, K2; apply busy_begin]|].
       rewrite (k_active _ _ _ _ K2); [done|by intros [|[|]]]. }
  intros go s2 I2 [K2 X]. assert (active s2 !! t = None) as A2 by (rewrite (k_active _ _ _ _ K2); [done|by intros [|[|]]]).
  assert (kept busy t s s2) as Kb2 by (etrans; [exact Kb1|eapply kept_weaken, K2; apply busy_begin]).
  destruct go; [|intros s3 L3 I3; by eapply Fin]. destruct X as [Wr Nq].
  apply (seq_rule (fun a s' => kept (either (part O_active) (part O_runs)) t s2 s' /\ active s' !! t = None)); [done| | |].
  - eapply captured_any; [done|apply wp_runner_run; [done| | | | |done]|by intros a s3 I3 X3].
    + by apply (k_tasks _ _ _ _ Kb2).
    + intros In. apply Nr. apply (k_not_run _ _ _ _ K1); [done|done|done|].
      apply (k_not_run _ _ _ _ K2); [by intros [|[|]]|by intros [|[|]]|by apply (k_tasks _ _ _ _ K1)|done].
    + by apply (kept_holds_key _ _ _ _ _ _ Kb2).
    + intros Li. apply (k_admission _ _ _ _ K2); [by intros [|[|]]|by apply Ad].
  - intros r s3 I3 [K3 A3]. assert (kept busy t s s3) as Kb3 by (etrans; [exact Kb2|eapply kept_weaken, K3; apply busy_runs]).
    eapply wp_mono; [|apply wp_conclude; [done| |]].
    + cbn. intros a s4 I4 K4. split; [etrans; [exact Kb3|eapply kept_weaken, K4; apply busy_on_record]|].
      rewrite (k_active _ _ _ _ K4); [done|by intros [|]].
    + intros Hh. by apply N, (k_holds _ _ _ _ Kb3).
    + destruct Nq as (h & E & Q). destruct (k_store _ _ _ _ K3 _ _ E) as (h' & E' & F'). exists h'. split; [done|by eapply follows_not_queued].
  - intros e s3 I3 [K3 A3]. split; [|done]. etrans; [exact Kb2|eapply kept_weaken, K3; apply busy_runs].
Qed.

Lemma wp_execute t request s :
  inv s -> runner_of t request s -> wpc t (_execute policy events event_errors t request) (fun _ _ => True) s.
Proof.
  intros I [St H U Ad Ac T Nr _]. destruct not_busy as (B1 & B2 & B3 & B4).
  set (Pop := fun s' => active s' !! t = None /\ _tasks s' !! operation_id request = Some t).
  apply (finally_rule (fun _ s' => Pop s')); [done| |].
  - apply wp_hold; [done|done| |].
    + intros s1 I1 K1 H1. assert (_tasks s1 !! operation_id request = Some t) as T1 by (apply (k_tasks _ _ _ _ K1); [done|by apply T]).
      eapply wp_mono; [|apply wp_under_key; try done].
      * intros a s2 I2 [K2 A2]. split; [eapply kept_weaken, K2; by intros p B ->|split; [done|]].
        intros s3 I3 K3. split; [by rewrite (k_active _ _ _ _ K3)|]. apply (k_tasks _ _ _ _ K3); [done|]. by apply (k_tasks _ _ _ _ K2).
      * intros Hh. by apply (H L_start), (k_holds _ _ _ _ K1).
      * intros Hh. by apply (H L_lifecycle), (k_holds _ _ _ _ K1).
      * by rewrite (k_active _ _ _ _ K1).
      * intros In. apply Nr. apply (k_not_run _ _ _ _ K1); [done|done|by apply T|done].
    + intros e s1 I1 K1. split; [by rewrite (k_active _ _ _ _ K1)|]. apply (k_tasks _ _ _ _ K1); [done|by apply T].
  - intros a s1 I1 [A1 T1]. apply (wp_modify _ _ (either (part O_admission) (part O_tasks))); [|done].
    intros s2 L2 I2. apply pop_step; [done|by rewrite (k_active _ _ _ _ L2)|by apply (k_tasks _ _ _ _ L2)].
Qed.

End Tasks.
