(* ===== verification/CoordinatorCalls.v ===== *)
(** The public methods of the coordinator and the tasks it creates keep what its tasks rely on, so
    every schedule of them keeps the invariant: what a coordinator guarantees. *)
From S2P Require Import Prelude Coroutines Operations Coordinator CoordinatorLogic CoordinatorTasks.
Open Scope coro_scope.

Section Calls.
Variable policy : OperationPolicy.
Variable events : OperationLifecycleEvent -> option Exc.
Variable event_errors : Exc -> OperationLifecycleEvent -> option Exc.

Abbreviation inv := (CoordinatorLogic.inv policy).
Abbreviation step := (CoordinatorLogic.step policy).
Abbreviation wpc := (wp inv rely idle accepts owed).
Abbreviation seq_rule P := (@wp_seq _ _ _ inv rely idle accepts owed rely_preorder _ _ _ _ _ P _ _).
Abbreviation finally_rule P := (@wp_finally _ _ _ inv rely idle accepts owed rely_preorder _ _ _ _ P _ _).
Abbreviation captured_rule P := (@wp_captured _ _ _ inv rely idle accepts owed rely_preorder _ _ _ P _ _).

(** Code after which everything the task owns is as it was. *)
Definition quiet {A} (t : nat) (p : prog A) (s : Coordinator) : Prop := wpc t p (fun _ s' => rely t s s') s.

Lemma quiet_of {A} t (p : prog A) s (Q : answer A -> Coordinator -> Prop) :
  (forall a s', Q a s' -> rely t s s') -> wpc t p Q s -> quiet t p s.
Proof. intros H W. eapply wp_mono; [|exact W]. cbn. intros a s' _. apply H. Qed.
Lemma quiet_ret {A} t (x : A) s : quiet t (Ret x) s.
Proof. by intros s' L I. Qed.
Lemma quiet_raise {A} t e s : quiet t (Raise e : prog A) s.
Proof. by intros s' L I. Qed.

(** The rest of the code starts after the first part, owning what it owned. *)
Lemma quiet_seq {A B} t (p : prog A) (k : A -> prog B) s :
  inv s -> quiet t p s -> (forall x s', inv s' -> rely t s s' -> quiet t (k x) s') -> quiet t (cbind p k) s.
Proof.
  intros I P K. apply (seq_rule (fun _ s' => rely t s s')); [done|exact P| |by intros].
  intros x s' I' L. eapply wp_mono; [|by apply K]. cbn. intros a s'' _ L'. by etrans.
Qed.
Lemma quiet_capture {A} t (p : prog A) s : inv s -> quiet t p s -> quiet t (capture p) s.
Proof. intros I P. by apply (captured_rule (fun _ s' => rely t s s')). Qed.
Lemma quiet_finally {A} t (p : prog A) (q : prog unit) s :
  inv s -> quiet t p s -> (forall s', inv s' -> rely t s s' -> quiet t q s') -> quiet t (finally p q) s.
Proof.
  intros I P K. apply (finally_rule (fun _ s' => rely t s s')); [done|exact P|]. intros a s' I' L.
  eapply wp_mono; [|by apply K]. cbn. intros b s'' _ L'. by etrans.
Qed.
Lemma quiet_deadline {A} t (p : prog A) s : quiet t p s -> quiet t (within_deadline p) s.
Proof. apply wp_deadline. apply rely_preorder. Qed.
Lemma quiet_get {R} t (f : Coordinator -> R) s : quiet t (get f) s.
Proof. apply wp_get. intros. by etrans. Qed.
Lemma quiet_core t (f : Coordinator -> Coordinator) s : (forall s1, rely t s s1 -> inv s1 -> same_core s1 (f s1)) -> quiet t (modify f) s.
Proof. intros C. by apply wp_modify_core. Qed.
Lemma quiet_lift {R} t (m : result R) s : quiet t (lift m : prog R) s.
Proof. destruct m; [apply quiet_ret|apply quiet_raise]. Qed.
Lemma quiet_cancel_task t task s : quiet t (eff (Cancel task)) s.
Proof. by apply (@wp_wait _ _ _ inv rely idle accepts owed rely_preorder). Qed.
Lemma quiet_gather t task s : inv s -> quiet t (gather task) s.
Proof. intros I. by apply (@wp_gather _ _ _ inv rely idle accepts owed rely_preorder (fun a t => owed_later a t)). Qed.
Lemma quiet_finish t task s : inv s -> quiet t (finish task) s.
Proof. intros I. by apply (@wp_finish _ _ _ inv rely idle accepts owed rely_preorder (fun a t => owed_later a t)). Qed.
Lemma quiet_spawn t job s :
  (forall n s1, rely t s s1 -> inv s1 -> idle n s1 -> accepts n job s1) -> quiet t (spawn job) s.
Proof.
  intros Ac. apply wp_sync. intros n s1 L I N D. split; [split; [done|split; [by intros; reflexivity|by apply Ac]]|].
  intros s2 L2 I2. by etrans.
Qed.

(** A task that starts with nothing does not hold the start lock. *)
Definition free (t : nat) (s : Coordinator) : Prop := ~ holds t L_start s.
Lemma free_later t s s' : rely t s s' -> free t s -> free t s'.
Proof. intros L N H. by apply N, (k_holds _ _ _ _ L). Qed.
Lemma idle_free t s : idle t s -> free t s.
Proof. intros D. apply (d_holds _ _ D). Qed.

Lemma quiet_start t s : inv s -> free t s -> quiet t (start events event_errors t) s.
Proof. intros I F. eapply quiet_of; [|by apply wp_start]. by intros a s' [L _]. Qed.
Lemma quiet_status t id s : inv s -> free t s -> quiet t (status events event_errors t id) s.
Proof. intros I F. eapply quiet_of; [|by apply wp_status]. by intros a s' [L _]. Qed.
Lemma quiet_records t s : inv s -> free t s -> quiet t (records events event_errors t) s.
Proof.
  intros I F. apply quiet_seq; [done|by apply quiet_start|]. intros _ s1 I1 L1.
  eapply quiet_of; [|by apply wp_all_records]. by intros a s' [L _].
Qed.

(** ** Waiting *)

Lemma event_of_core id s : same_core s (snd (event_of id s)).
Proof. unfold event_of. destruct (_changed s !! id); [apply same_core_refl|]. core. Qed.

Lemma quiet_fresh_event t id s : quiet t (fresh_event id) s.
Proof.
  apply wp_sync. intros n s1 L I N D. unfold event_of.
  destruct (_changed s1 !! id) as [event|]; cbn.
  all: match goal with |- keeps _ _ _ _ ?s2 /\ _ => assert (step no_part t s1 s2) as St by (apply core_step; [core|done]) end.
  all: split; [by eapply (step_keeps _ no_part)|]; intros s3 L3 I3.
  all: etrans; [exact L|]; etrans; [exact (st_own _ _ _ _ _ St)|exact L3].
Qed.

Lemma quiet_wait_event t event s : quiet t (wait_event event) s.
Proof.
  apply (@wp_suspend _ _ _ inv rely idle accepts owed rely_preorder); [by intros s1 L I; split|].
  intros c s1 r s2 L I R. case_decide; [|done]. destruct c; try done. injection R as <- <-.
  split; [by apply keeps_same|]. intros. by etrans.
Qed.
Lemma quiet_waiter t event s : quiet t (waiter_wait event) s.
Proof.
  apply wp_foreign; [|by intros]. intros [|e|v| |] s1 r s2 R; try done.
  - case_decide; [|done]. by injection R as <- <-.
  - by apply raised_answer in R as [-> _].
  - by injection R as <- <-.
Qed.

(** Code that ends with a record the store has or had of the operation. *)
Definition finds (t : nat) (id : pystr) (s : Coordinator) (a : answer OperationHandle) (s' : Coordinator) : Prop :=
  rely t s s' /\ match a with Ans h => known id h s' | Threw _ => True end.
Lemma finds_later t id s s1 a s' : rely t s s1 -> finds t id s1 a s' -> finds t id s a s'.
Proof. intros L [L' X]. split; [by etrans|done]. Qed.
Lemma finds_ret t id h s : known id h s -> wpc t (Ret h) (finds t id s) s.
Proof. intros K s' L I. split; [done|]. by eapply known_later. Qed.
Lemma finds_status t id s : inv s -> free t s -> wpc t (status events event_errors t id) (finds t id s) s.
Proof.
  intros I F. eapply wp_mono; [|by apply wp_status]. intros a s' _ [L X]. split; [done|]. destruct a; [|done]. by eapply seen_known.
Qed.
Lemma finds_seq {A} t id (p : prog A) (k : A -> prog OperationHandle) s :
  inv s -> quiet t p s -> (forall x s', inv s' -> rely t s s' -> wpc t (k x) (finds t id s') s') -> wpc t (cbind p k) (finds t id s) s.
Proof.
  intros I P K. apply (seq_rule (fun _ s' => rely t s s')); [done|exact P| |by intros].
  intros x s' I' L. eapply wp_mono; [|by apply K]. intros a s'' _. by apply finds_later.
Qed.
(** Two readings in a row. *)
Lemma finds_then t id (p : prog OperationHandle) (k : OperationHandle -> prog OperationHandle) s :
  inv s -> wpc t p (finds t id s) s ->
  (forall h s', inv s' -> rely t s s' -> known id h s' -> wpc t (k h) (finds t id s') s') -> wpc t (cbind p k) (finds t id s) s.
Proof.
  intros I P K. apply (seq_rule (finds t id s)); [done|exact P| |by intros e s' _ [L _]].
  intros h s' I' [L X]. eapply wp_mono; [|by apply K]. intros a s'' _. by apply finds_later.
Qed.

Lemma wp_await_result t id timeout_s s :
  inv s -> free t s -> wpc t (await_result policy events event_errors t id timeout_s) owed s.
Proof.
  intros I F. apply (seq_rule (fun _ s' => rely t s s')); [done|apply quiet_lift| |done]. intros _ s1 I1 L1.
  assert (free t s1) as F1 by by eapply free_later.
  apply (seq_rule (fun a s' => rely t s1 s' /\ match a with Ans (Ans r) => owed (Ans r) s' | _ => True end)); [done| | |done].
  - apply (captured_rule (fun a s' => rely t s1 s' /\ owed a s')); [done| |by intros [r|e] s2 _ [L X]].
    apply wp_deadline; [apply rely_preorder|].
    apply (seq_rule (fun _ s' => rely t s1 s')); [done|by apply quiet_start| |by intros]. intros _ s2 I2 L2.
    assert (free t s2) as F2 by by eapply free_later.
    apply (seq_rule (finds t id s1)); [done| | |by intros e s3 _ [L _]].
    { eapply wp_mono; [|by apply finds_status]. intros a s3 _. by apply finds_later. }
    intros h s3 I3 [L3 K3]. assert (free t s3) as F3 by by eapply free_later.
    apply (seq_rule (finds t id s1)); [done| | |by intros e s4 _ [L _]].
    + eapply wp_mono; [intros a s4 _; by apply finds_later|]. destruct (h_terminal h); [by apply finds_ret|].
      apply finds_seq; [done|by apply quiet_fresh_event|]. intros event s4 I4 L4. assert (free t s4) as F4 by by eapply free_later.
      apply finds_then; [done|by apply finds_status|]. intros h' s5 I5 L5 K5. assert (free t s5) as F5 by by eapply free_later.
      destruct (h_terminal h'); [by apply finds_ret|]. apply finds_seq; [done|apply quiet_waiter|].
      intros _ s6 I6 L6. apply finds_status; [done|by eapply free_later].
    + intros h' s4 I4 [L4 K4] s5 L5 I5. split; [by etrans|]. apply (known_later no_part t _ _ _ _ L5) in K4. destruct (K4) as [Ei _].
      rewrite <- Ei in K4. destruct (h_terminal h') eqn:T; [by split|done].
  - intros [r|e] s2 I2 [L2 X]; [intros s3 L3 I3; by eapply owed_later|]. destruct e; try by intros s3 L3 I3.
    apply (seq_rule (fun a s' => match a with Ans (Some h) => known id h s' | _ => True end)); [done| | |done].
    + apply wp_get. intros s3 s4 L3 I3 L4 I4. destruct (_latest s3 !! id) as [h|] eqn:E; [|done].
      apply (known_later no_part t _ _ _ _ L4). by apply (i_latest _ _ I3).
    + intros [h|] s3 I3 K3; [|by intros s4 L4 I4]. intros s4 L4 I4. destruct (K3) as [Ei _]. rewrite <- Ei in K3. by eapply known_later.
Qed.

Lemma wp_wait_result t turns id s :
  inv s -> free t s -> wpc t (await h := wait_result events event_errors t turns id in Ret (R_ended h)) owed s.
Proof.
  intros I F. apply (seq_rule (fun a s' => match a with Ans h => known (h_id h) h s' /\ h_terminal h = true | Threw _ => True end)); [done| | |done].
  2: { intros h s1 I1 K1 s2 L2 I2. by apply (owed_later (Ans (R_ended h)) t s1 s2). }
  apply (seq_rule (fun _ s' => rely t s s')); [done|by apply quiet_start| |done]. intros _ s1 I1 L1.
  apply (free_later t s s1) in F; [|done]. clear L1 I s. revert s1 I1 F. induction turns as [|turns IH]; intros s I F; cbn [wait_turns].
  { by apply (@wp_suspend _ _ _ inv rely idle accepts owed rely_preorder); [intros s1 L I1; split|]. }
  apply (seq_rule (fun _ s' => rely t s s')); [done|by apply quiet_fresh_event| |done]. intros event s2 I2 L2.
  apply (seq_rule (finds t id s2)); [done|apply finds_status; [done|by eapply free_later]| |done]. intros h s3 I3 [L3 K3].
  assert (rely t s s3) as L03 by by etrans. destruct (h_terminal h) eqn:T.
  { intros s4 L4 I4. split; [|done]. destruct (K3) as [Ei _]. rewrite <- Ei in K3. by eapply known_later. }
  apply (seq_rule (fun _ s' => rely t s s')); [done| | |done].
  { eapply wp_mono; [|apply quiet_wait_event]. intros a s4 _ L4. cbn in L4. by etrans. }
  intros _ s4 I4 L4. apply IH; [done|by eapply free_later].
Qed.

(** ** Stopping *)

Lemma quiet_swallow {A B} t (p : prog A) (k : option Exc -> prog B) s :
  inv s -> quiet t p s -> (forall x s', inv s' -> rely t s s' -> quiet t (k x) s') ->
  quiet t (await r := capture p in
           await error := match r with Ans _ => Ret None | Threw e => if is_exception e then Ret (Some e) else Raise e end in
           k error) s.
Proof.
  intros I P K. apply quiet_seq; [done|by apply quiet_capture|]. intros r s1 I1 L1. apply quiet_seq; [done| |].
  - destruct r; [apply quiet_ret|]. destruct (is_exception e); [apply quiet_ret|apply quiet_raise].
  - intros x s2 I2 L2. apply K; [done|by etrans].
Qed.

Lemma quiet_stop t record task s : inv s -> quiet t (stop t record task) s.
Proof.
  intros I. apply quiet_seq; [done| |].
  - destruct (decide (h_state record = RUNNING)); [|apply quiet_ret].
    apply quiet_seq; [done|apply quiet_capture; [done|by apply wp_resume]|].
    intros [x|exc] s1 I1 L1; [apply quiet_ret|]. destruct (is_exception exc); [apply quiet_ret|apply quiet_raise].
  - intros err s1 I1 L1. apply quiet_seq; [done| |intros; destruct err; [apply quiet_raise|apply quiet_ret]].
    destruct task as [task|]; [|apply quiet_ret]. destruct (task =? t)%nat; [apply quiet_ret|].
    apply quiet_seq; [done|apply quiet_cancel_task|]. intros _ s2 I2 L2.
    apply quiet_seq; [done|by apply quiet_gather|intros; apply quiet_ret].
Qed.

Lemma quiet_stop_execution t record task s : inv s -> quiet t (_stop_execution policy t record task) s.
Proof.
  intros I. unfold _stop_execution. destruct (cancellation_timeout_s policy); [|by apply quiet_stop].
  apply quiet_seq; [done|by apply quiet_capture, quiet_deadline, quiet_stop|].
  intros [x|e] s1 I1 L1; [apply quiet_ret|]. destruct e; try apply quiet_raise.
  apply quiet_seq; [done|destruct task; [apply quiet_cancel_task|apply quiet_ret]|intros; apply quiet_raise].
Qed.

(** A record that is final. *)
Definition ended (h : OperationHandle) (s : Coordinator) : Prop := known (h_id h) h s /\ h_terminal h = true.

(** Cancelling and interrupting end an operation that has not ended. *)
Lemma wp_terminate_to_the_end t id state s :
  inv s -> free t s -> state = CANCELED \/ state = INTERRUPTED ->
  wpc t (_terminate_to_the_end policy events event_errors t id state) (fun a s' =>
    kept on_record t s s' /\ match a with Ans h => ended h s' | Threw _ => True end) s.
Proof.
  intros I F St. apply wp_locked; [done|done|intros h s2 s3 K [Kn T]; split; [by eapply known_later|done]|].
  intros h s1 I1 K1 H1 S1 E1. destruct (i_store _ _ I1 _ _ E1) as [Ei _]. subst id.
  destruct (h_terminal h) eqn:Th.
  { intros s2 L2 I2. split; [by apply rely_kept|]. split; [|done]. apply (known_later no_part t _ _ _ _ L2). split; [done|by exists h]. }
  assert (free t s1) as F1 by (intros Hh; by apply F, (k_holds _ _ _ _ K1)).
  assert (forall e s', rely t s1 s' -> kept (part O_store) t s1 s' /\ match Threw e : answer OperationHandle with Ans h => ended h s' | Threw _ => True end) as Q by (intros; by split; [apply rely_kept|]).
  apply (seq_rule (fun _ s' => rely t s1 s')); [done|apply quiet_get| |intros; by apply Q]. intros task s2 I2 L2.
  apply (seq_rule (fun _ s' => rely t s1 s')); [done| | |intros; by apply Q].
  { eapply wp_mono; [|by apply quiet_capture, quiet_stop_execution]. cbn. intros a s3 _ L3. by etrans. }
  intros r s3 I3 L3. apply (seq_rule (fun _ s' => rely t s1 s')); [done| | |intros; by apply Q].
  { destruct r; [|destruct (is_exception e)]; intros s4 L4 I4; by etrans. }
  intros err s4 I4 L4. assert (free t s4) as F4 by by eapply free_later.
  apply (seq_rule (status_of policy t (h_id h) s4)); [done|by apply wp_status| |intros e s5 I5 [L5 _]; exact (Q e s5 (transitivity L4 L5))].
  intros current s5 I5 [L5 Sn]. apply seen_exact in Sn as [E5 S5]; [|by apply (kept_holds_key _ _ _ _ _ _ L4)].
  assert (rely t s1 s5) as L15 by by etrans.
  destruct (i_store _ _ I5 _ _ E5) as [Ei _].
  apply (seq_rule (fun a s' => kept (part O_store) t s1 s' /\ match a with Ans h => ended h s' | Threw _ => True end)); [done| | |by intros].
  - destruct (h_terminal current) eqn:T.
    { intros s6 L6 I6. split; [apply rely_kept; by etrans|]. split; [|done].
      apply (known_later no_part t _ _ _ _ L6). split; [done|]. rewrite Ei. by exists current. }
    eapply wp_mono; [|apply wp_transition; [done| | | |]].
    + intros a s6 _ [K6 X]. split; [etrans; [by apply rely_kept|done]|]. destruct a as [h'|]; [|done].
      destruct (X S5) as (_ & Rq & Rs & c & Ec & Fc). assert (h_id h' = h_id current) as Eh by (unfold h_id; by rewrite Rq).
      split; [split; [done|]; rewrite Eh; by exists c|]. unfold h_terminal. rewrite Rs. by destruct St as [-> | ->].
    + unfold may_write. rewrite S5, Ei. by apply (kept_holds_key _ _ _ _ _ _ L15).
    + exists current. by rewrite Ei.
    + intros ->. by destruct St.
    + intros u Hu. eapply later_next; [exact Hu| |by destruct St as [-> | ->]].
      apply not_terminal_rank in T. by destruct St as [-> | ->].
  - intros result s6 I6 [K6 En]. destruct err; intros s7 L7 I7; (split; [etrans; [exact K6|by apply rely_kept]|]); [done|].
    destruct En as [Kn T]. split; [by eapply known_later|done].
Qed.

(** A task that is spawned and waited for: its answer is what the caller returns. *)
Definition answers (t : nat) (s : Coordinator) (a : answer Reply) (s' : Coordinator) : Prop := rely t s s' /\ owed a s'.
Lemma wp_finish_answers t task s : inv s -> wpc t (finish task) (answers t s) s.
Proof.
  intros I. apply (@wp_finish _ _ _ inv rely idle accepts owed rely_preorder (fun a t => owed_later a t)); [done|].
  intros r s' L I' O. split; [done|]. by destruct r.
Qed.

Lemma wp_terminate t id state s :
  inv s -> _started s = true -> state = CANCELED \/ state = INTERRUPTED -> wpc t (_terminate id state) (answers t s) s.
Proof.
  intros I S1 St. apply (seq_rule (fun _ s' => rely t s s')); [done| | |by intros].
  - apply quiet_spawn. intros n s1 L1 I1 D. split; [done|split; [|done]]. by apply L1.
  - intros task s1 I1 L1. eapply wp_mono; [|by apply wp_finish_answers]. intros a s2 _ [L2 O]. split; [by etrans|done].
Qed.
Lemma quiet_terminate t id state s :
  inv s -> _started s = true -> state = CANCELED \/ state = INTERRUPTED -> quiet t (_terminate id state) s.
Proof. intros I S1 St. eapply quiet_of; [|by apply wp_terminate]. by intros a s' [L _]. Qed.

Lemma wp_cancel t id s : inv s -> free t s -> wpc t (cancel events event_errors t id) owed s.
Proof.
  intros I F. apply (seq_rule (started_after t s)); [done|by apply wp_start| |done].
  intros [] s1 I1 [L1 S1]. eapply wp_mono; [|apply wp_terminate; [done|done|by left]]. by intros a s2 _ [L2 O].
Qed.

(** ** Submitting *)

Lemma wp_create t h s :
  inv s -> holds t L_lifecycle s -> _admission_closed s = false -> handle_valid h ->
  wpc t (create t h) (fun a s' => kept (part O_spawning) t s s' /\ match a with
    | Ans _ => spawning s' !! h_id h = Some t /\ exists h', store s' !! h_id h = Some h' /\ follows h h'
    | Threw _ => True end) s.
Proof.
  intros I H C V. apply wp_call_store; [done| |intros e s' I' L; by split; [apply rely_kept|]].
  intros s1 r s2 L1 I1 Fs. assert (_admission_closed s1 = false) as C1 by by rewrite (k_lifecycle_lock _ _ _ _ L1).
  destruct (store_create h (store s1)) as [m|e] eqn:Sc; cbn in Fs; injection Fs as <- <-.
  - apply store_create_ok in Sc as [N ->]. pose proof (create_step policy t h s1 I1 C1 N V) as St. split; [by eexists|].
    intros s3 L3 I3. assert (kept (part O_spawning) t s s3) as K3 by (etrans; [by eapply step_from|by apply rely_kept]).
    split; [split; [done|split]|by intros; split].
    + apply (k_spawning _ _ _ _ L3); [done|]. cbn. by rewrite lookup_insert_eq.
    + apply (k_store _ _ _ _ L3). cbn. by rewrite lookup_insert_eq.
  - split; [exists no_part; by apply no_step|]. intros s3 L3 I3. split; [|done]. by split; [apply rely_kept; etrans|].
Qed.

(** The task of the operation is created with all its task may count on. *)
Lemma wp_spawn_execution t request s :
  inv s -> holds t L_lifecycle s -> _admission_closed s = false -> _started s = true ->
  spawning s !! operation_id request = Some t -> (exists h, store s !! operation_id request = Some h /\ h_request h = request) ->
  wpc t (eff (Sync (fun n s => (Ans tt, s <| _tasks := <[operation_id request := n]> (_tasks s) |>
                                         <| spawning := delete (operation_id request) (spawning s) |>,
                            Some (J_execute request)))) : prog unit)
    (fun _ s' => kept (part O_spawning) t s s') s.
Proof.
  intros I H C S1 Sp (h & E & Rq). apply wp_sync. intros n s1 L1 I1 N D.
  assert (_admission_closed s1 = false) as C1 by by rewrite (k_lifecycle_lock _ _ _ _ L1).
  assert (spawning s1 !! operation_id request = Some t) as Sp1 by by apply (k_spawning _ _ _ _ L1).
  destruct (spawn_step policy t n (operation_id request) s1 I1 C1 Sp1 N D) as (I2 & R2 & K2).
  destruct (k_store _ _ _ _ L1 _ _ E) as (h1 & E1 & F1). destruct (i_spawning _ _ I1 _ _ Sp1) as [_ Nr].
  split; [split; [done|split; [done|]]|].
  - destruct D. split; try done; cbn.
    + by apply L1.
    + intros id. rewrite lookup_insert_Some. naive_solver.
    + exists h1. split; [done|]. apply follows_request in F1. congruence.
  - intros s3 L3 I3. etrans; [by apply rely_kept|]. etrans; [exact K2|by apply rely_kept].
Qed.

Lemma wp_accept t request s :
  inv s -> holds t L_lifecycle s -> _started s = true ->
  wpc t
    (await closed := get _admission_closed in
     if (closed : bool) then Raise OperationCoordinatorClosedError else
     await record := lift (operation_handle request QUEUED None None None 0) in
     create t record ;;;
     modify (fun s => s <| _latest := <[operation_id request := record]> (_latest s) |>) ;;;
     _publish events event_errors record ;;;
     modify (fun s => snd (event_of (operation_id request) s)) ;;;
     eff (Sync (fun n s => (Ans tt, s <| _tasks := <[operation_id request := n]> (_tasks s) |>
                                         <| spawning := delete (operation_id request) (spawning s) |>,
                            Some (J_execute request)))) ;;;
     Ret record) (fun a s' => kept (part O_spawning) t s s' /\ match a with Ans h => known (h_id h) h s' | Threw _ => True end) s.
Proof.
  intros I H S1.
  apply (seq_rule (fun a s1 => rely t s s1 /\ match a with Ans b => b = false -> _admission_closed s1 = false | Threw _ => True end));
    [done| | |intros e s1 I1 [L1 _]; by split; [apply rely_kept|]].
  { apply wp_get. intros s1 s2 L1 I1 L2 I2. split; [by etrans|]. intros C.
    rewrite (k_lifecycle_lock _ _ _ _ L2); [done|done|]. by apply (k_holds _ _ _ _ L1). }
  intros [|] s1 I1 [L1 C1]; [intros s2 L2 I2; split; [apply rely_kept; by etrans|done]|]. specialize (C1 eq_refl).
  destruct (operation_handle request QUEUED None None None 0) as [record|e] eqn:Eh; cbn [lift];
    [|intros s2 L2 I2; split; [apply rely_kept; by etrans|done]].
  apply operation_handle_ok in Eh as [Er V]. change (cbind (Ret record) ?k) with (k record). cbv beta.
  assert (operation_id request = h_id record) as Eid by (by rewrite Er). 
  assert (h_request record = request) as Erq by (by rewrite Er).
  assert (holds t L_lifecycle s1) as H1 by by apply (k_holds _ _ _ _ L1).
  apply (seq_rule (fun a s' => kept (part O_spawning) t s s' /\ match a with
    | Ans _ => spawning s' !! h_id record = Some t /\ exists h', store s' !! h_id record = Some h' /\ follows record h'
    | Threw _ => True end)); [done| | |by intros e s2 I2 [K2 _]].
  { eapply wp_mono; [|by apply wp_create]. cbn. intros a s2 _ [K2 X]. split; [|done]. etrans; [by apply rely_kept|done]. }
  intros [] s2 I2 (K2 & Sp & Kn). assert (known (h_id record) record s2) as Kr by by split.
  assert (forall s', rely t s2 s' -> kept (part O_spawning) t s s') as Go by (intros s' L; etrans; [exact K2|by apply rely_kept]).
  apply (seq_rule (fun _ s' => rely t s2 s')); [done| | |intros e s' I' L; by split; [apply Go|]].
  { apply quiet_core. intros s' L' _. rewrite Eid. by eapply set_latest_core, known_later. }
  intros [] s3 I3 L3. apply (seq_rule (fun _ s' => rely t s2 s')); [done|apply wp_publish; intros; by etrans| |intros e s' I' L; by split; [apply Go|]].
  intros [] s4 I4 L4. apply (seq_rule (fun _ s' => rely t s2 s')); [done| | |intros e s' I' L; by split; [apply Go|]].
  { apply wp_modify_core; [intros; apply event_of_core|intros; by etrans]. }
  intros [] s5 I5 L5. pose proof (Go _ L5) as K5. destruct (known_later no_part t _ _ _ _ L5 Kr) as [_ (h5 & E5 & F5)].
  apply (seq_rule (fun _ s' => kept (part O_spawning) t s5 s')); [done| | |intros e s' I' L; by split; [etrans|]].
  - apply wp_spawn_execution; [done|by apply (k_holds _ _ _ _ K5)| |by apply K5|rewrite Eid; by apply (k_spawning _ _ _ _ L5)|].
    + rewrite (k_lifecycle_lock _ _ _ _ K5); [|done|done]. by rewrite <- (k_lifecycle_lock _ _ _ _ L1).
    + rewrite Eid. exists h5. split; [done|]. apply follows_request in F5. congruence.
  - intros [] s6 I6 K6 s7 L7 I7. assert (kept (part O_spawning) t s5 s7) as K7 by (etrans; [exact K6|by apply rely_kept]).
    split; [by etrans|]. eapply known_later; [exact K7|]. split; [done|]. by exists h5.
Qed.

Lemma wp_submit t request s :
  inv s -> idle t s ->
  wpc t (submit events event_errors t request) (fun a s' => match a with Ans h => known (h_id h) h s' | Threw _ => True end) s.
Proof.
  intros I D. apply (seq_rule (started_after t s)); [done|apply wp_start; [done|by apply idle_free]| |done].
  intros [] s1 I1 [L1 S1]. apply wp_with_lock; [done|done| |done].
  intros s2 I2 K2 H2. eapply wp_mono; [|apply wp_accept; [done|done|by apply K2]].
  cbn. intros a s3 I3 [K3 X]. split; [by apply (k_holds _ _ _ _ K3)|]. intros s4 I4 K4 _. destruct a; [|done]. by eapply known_later.
Qed.

(** ** Closing *)

Lemma quiet_interrupt_all t l first_error s : inv s -> _started s = true -> quiet t (_interrupt_all first_error l) s.
Proof.
  revert first_error s. induction l as [|h l IH]; intros first_error s I S1; cbn [_interrupt_all].
  { destruct first_error; [apply quiet_raise|apply quiet_ret]. }
  destruct (h_terminal h); [by apply IH|]. apply quiet_seq; [done|apply quiet_capture; [done|by apply quiet_terminate; [| |right]]|].
  intros [x|e] s1 I1 L1; (assert (_started s1 = true) by by apply L1); [by apply IH|]. destruct (is_exception e); [by apply IH|apply quiet_raise].
Qed.

Lemma wp_show_released t s :
  _admission_closed s = true -> wpc t show_released (fun a s' => match a with Ans _ => close_released s' = true | Threw _ => True end) s.
Proof.
  intros C. apply wp_sync. intros n s1 L1 I1 N D. destruct (decide (_tasks s1 = ∅)) as [E|E].
  - pose proof (released_step policy t s1 I1 ltac:(by apply L1) E) as St. split; [by eapply step_keeps|].
    intros s2 L2 I2. by apply L2.
  - split; [by apply keeps_same|]. done.
Qed.

Lemma wp_settle t s : inv s -> _started s = true -> _admission_closed s = true -> wpc t _settle owed s.
Proof.
  intros I S1 C.
  apply (seq_rule (fun a s' => match a with Ans _ => close_released s' = true | Threw _ => True end)); [done| | |done].
  2: { intros [] s1 I1 R s2 L2 I2. by apply L2. }
  apply (finally_rule (fun a s' => match a with Ans _ => close_released s' = true | Threw _ => True end)); [done| |].
  - apply (seq_rule (fun _ s' => rely t s s')); [done| | |done].
    + apply quiet_seq; [done| |intros l s1 I1 L1; apply quiet_interrupt_all; [done|by apply L1]].
      eapply quiet_of; [|by apply wp_all_records]. by intros a s' [L _].
    + intros [] s1 I1 L1. apply wp_show_released. by apply L1.
  - intros a s1 I1 X. apply wp_modify_core; [intros; core|]. intros s2 L2 I2. destruct a; [|done]. by apply L2.
Qed.

Lemma wp_close_once t s : inv s -> _started s = true -> _admission_closed s = true -> wpc t close_once owed s.
Proof.
  intros I S1 C. apply (seq_rule (fun _ s' => rely t s s')); [done|apply quiet_core; intros; core| |done]. intros _ s1 I1 L1.
  apply (seq_rule (fun a s' => rely t s s' /\ match a with Ans b => b = true -> close_released s' = true | Threw _ => True end)); [done| | |done].
  { apply wp_get. intros s2 s3 L2 I2 L3 I3. split; [by etrans; [|etrans]|]. intros R. by apply L3. }
  intros [|] s2 I2 [L2 R2]; [intros s3 L3 I3; apply L3; by apply R2|].
  apply (seq_rule (fun _ s' => rely t s s')); [done| | |done].
  - apply wp_sync. intros n s3 L3 I3 N D. assert (rely t s s3) as L03 by by etrans. destruct (close_attempt s3) as [task|].
    + split; [by apply keeps_same|]. intros s4 L4 I4. by etrans.
    + assert (step no_part t s3 (s3 <| close_attempt := Some n |>)) as St by (apply core_step; [core|done]).
      split; [split; [apply St|split]|].
      * intros u Nu _. by apply St.
      * destruct St as [_ St _]. split; [apply (idle_later n s3); [apply St; congruence|done]|]. split; by apply L03.
      * intros s4 L4 I4. etrans; [exact L03|]. etrans; [exact (st_own _ _ _ _ _ St)|exact L4].
  - intros attempt s3 I3 L3. apply (seq_rule (fun a s' => match a with Ans a => owed a s' | Threw _ => True end)); [done| | |done].
    + by apply (@wp_await _ _ _ inv rely idle accepts owed rely_preorder (fun a t => owed_later a t)).
    + intros a s4 I4 O. apply wp_answer. intros s5 L5 _. by eapply owed_later.
Qed.

Lemma wp_close t s : inv s -> idle t s -> wpc t (close events event_errors t) (fun _ _ => True) s.
Proof.
  intros I D. apply (seq_rule (started_after t s)); [done|apply wp_start; [done|by apply idle_free]| |done].
  intros [] s1 I1 [L1 S1].
  apply (seq_rule (fun a s' => match a with Ans _ => _started s' = true /\ _admission_closed s' = true | Threw _ => True end)); [done| | |done].
  - apply wp_with_lock; [done|done| |done]. intros s2 I2 K2 H2.
    assert (forall s3, rely t s2 s3 -> inv s3 -> step (part O_lifecycle) t s3 (s3 <| _admission_closed := true |>)) as St.
    { intros s3 L3 I3. apply closed_step; [done|]. by apply (k_holds _ _ _ _ L3). }
    apply (wp_modify _ _ _ (part O_lifecycle)); [done|]. intros s3 s4 L3 I3 L4 I4.
    split.
    + apply (k_holds _ _ _ _ L4); [done|]. change (holds t L_lifecycle s3). by apply (k_holds _ _ _ _ L3).
    + intros s5 I5 K5 _. split; [apply K5, L4; cbn; by apply L3, K2|apply K5, L4; done].
  - intros [] s2 I2 [S2 C2]. eapply wp_mono; [|apply (quiet_seq t); [done| |]].
    + done.
    + apply quiet_spawn. intros n s3 L3 I3 Dn. split; [done|]. split; by apply L3.
    + intros task s3 I3 L3. apply quiet_seq; [done|by apply quiet_finish|intros; apply quiet_ret].
Qed.

(** ** Every job *)

Lemma wp_gives {A} t (p : prog A) (k : A -> Reply) s :
  inv s -> wpc t p (fun a s' => match a with Ans x => owed (Ans (k x)) s' | Threw _ => True end) s ->
  wpc t (await x := p in Ret (k x)) owed s.
Proof.
  intros I W. apply (seq_rule (fun a s' => match a with Ans x => owed (Ans (k x)) s' | Threw _ => True end)); [done|exact W| |done]. intros x s' _ X s2 L2 _. by eapply owed_later.
Qed.

Lemma body_ok t j s : inv s -> accepts t j s -> wpc t (body policy events event_errors t j) owed s.
Proof.
  intros I Ac. assert (forall A (p : prog A) (k : A -> Reply), wpc t p (fun a s' => match a with Ans x => owed (Ans (k x)) s' | Threw _ => True end) s ->
    wpc t (await x := p in Ret (k x)) owed s) as Gives by (intros; by apply wp_gives).
  destruct j; cbn in Ac; cbn [body].
  - apply (Gives _ _ (fun _ => R_none)). eapply wp_mono; [|apply wp_start; [done|by apply idle_free]]. by intros [].
  - by apply Gives, wp_submit.
  - apply Gives. eapply wp_mono; [|apply finds_status; [done|by apply idle_free]]. intros [h|] s' _ [_ K]; [|done].
    destruct (K) as [Ei _]. by rewrite <- Ei in K.
  - apply Gives. apply (seq_rule (fun _ s' => rely t s s')); [done|apply quiet_start; [done|by apply idle_free]| |done]. intros _ s1 I1 L1.
    eapply wp_mono; [|by apply wp_all_records]. intros [l|] s' _ [_ X]; [|done]. intros h In. split; [done|by apply X].
  - apply wp_await_result; [done|by apply idle_free].
  - apply wp_wait_result; [done|by apply idle_free].
  - apply wp_cancel; [done|by apply idle_free].
  - apply (Gives _ _ (fun _ => R_none)). eapply wp_mono; [|by apply wp_close]. by intros [].
  - apply (Gives _ _ (fun _ => R_none)). eapply wp_mono; [|by apply wp_execute]. by intros [].
  - destruct Ac as (D & _ & St). apply Gives. eapply wp_mono; [|apply wp_terminate_to_the_end; [done|by apply idle_free|done]].
    intros [h|] s' _ [_ X]; [exact X|done].
  - destruct Ac as (_ & S1 & C). by apply wp_close_once.
  - destruct Ac as (_ & S1 & C). by apply wp_settle.
Qed.

End Calls.
