(* ===== verification/CoordinatorRuns.v ===== *)
(** What a coordinator guarantees, whatever the order in which its tasks go on, whoever is cancelled,
    and however the store and the runner fail. *)
From S2P Require Import Prelude Coroutines Operations Coordinator CoordinatorLogic CoordinatorTasks CoordinatorCalls.

(** A process starts over the records an earlier one left; [run] follows a schedule of the calls of the
    public methods, of the tasks, and of cancellations. *)
Definition begin (records : Records) : World Coordinator Job Reply := mk_World (coordinator records) ∅ 0.
Definition stored_ok (records : Records) : Prop := forall id h, records !! id = Some h -> h_id h = id /\ handle_valid h.
Definition external (l : list (Move (J := Job))) : Prop := forall j, M_call j ∈ l -> callable j.

Definition callableb (job : Job) : bool :=
  match job with J_execute _ | J_terminate _ _ | J_close_once | J_settle => false | _ => true end.
Definition externalb (l : list (Move (J := Job))) : bool :=
  forallb (fun m => match m with M_call j => callableb j | _ => true end) l.
Lemma externalb_ok l : externalb l = true -> external l.
Proof.
  intros H j In. unfold externalb in H. rewrite forallb_forall in H. apply list_elem_of_In in In. specialize (H _ In). by destruct j.
Qed.
Lemma nothing_stored : stored_ok ∅.
Proof. by intros id h. Qed.

Section Runs.
Variable policy : OperationPolicy.
Variable events : OperationLifecycleEvent -> option Exc.
Variable event_errors : Exc -> OperationLifecycleEvent -> option Exc.

Definition run (w : World Coordinator Job Reply) (l : list Move) : option (World Coordinator Job Reply) :=
  run_moves (body policy events event_errors) w l.
Definition sound (w : World Coordinator Job Reply) : Prop := world_ok (inv policy) rely idle accepts owed w.

Lemma empty_pool_ok : pool_ok empty_pool.
Proof. split; [|split]; cbn; [by intros key n|by intros key key' n|by intros n e]. Qed.

Lemma begin_inv records : stored_ok records -> inv policy (coordinator records).
Proof.
  intros St. constructor; cbn; try done.
  - intros []; apply empty_pool_ok.
  - intros n _. rewrite size_empty. lia.
  - by intros h ?%elem_of_nil.
  - by intros id ?%elem_of_nil.
  - by apply NoDup_nil.
  - intros id _. split; [done|split; [by intros ?%elem_of_nil|done]].
Qed.

Lemma begin_sound records : stored_ok records -> sound (begin records).
Proof.
  intros St. split; [by apply begin_inv|split; [|done]]. intros t _. cbn.
  split; cbn; try done; [|by intros [] key n [? _]]. by intros [| |[] n].
Qed.

Lemma run_ok l w w' : external l -> sound w -> run w l = Some w' -> sound w' /\ leads rely w w'.
Proof.
  intros Ex Sw R. eapply (run_moves_ok (inv policy) rely idle accepts owed (body policy events event_errors) callable); try done.
  - intros t j s. apply body_ok.
  - apply accepts_later.
  - apply idle_later.
  - intros t j s C _. by apply callable_idle.
Qed.

(** What a schedule does, seen by a task that is not there yet. *)
Lemma run_kept l w w' : external l -> sound w -> run w l = Some w' -> exists t, idle t (w_state w) /\ rely t (w_state w) (w_state w').
Proof.
  intros Ex Sw R. destruct (run_ok _ _ _ Ex Sw R) as [_ [N B]]. exists (w_next w'). split; [|by apply B].
  destruct Sw as (_ & Id & _). by apply Id.
Qed.

Section Reached.
Context (records : Records) (l : list (Move (J := Job))) (w : World Coordinator Job Reply).
Hypotheses (St : stored_ok records) (Ex : external l) (R : run (begin records) l = Some w).

Lemma reached_sound : sound w.
Proof. by destruct (run_ok _ _ _ Ex (begin_sound _ St) R). Qed.
Lemma reached_inv : inv policy (w_state w).
Proof. by destruct reached_sound. Qed.

Lemma active_exclusive t u r q :
  active (w_state w) !! t = Some r -> active (w_state w) !! u = Some q -> concurrency_key r = concurrency_key q -> t = u.
Proof.
  intros A B E. destruct (i_active _ _ reached_inv _ _ A) as [Ha _], (i_active _ _ reached_inv _ _ B) as [Hb _].
  rewrite E in Ha. by eapply holds_key_unique.
Qed.
Lemma active_bounded n : in_flight_limit policy = Some n -> (size (active (w_state w)) <= n)%nat.
Proof.
  intros L. etrans; [|by apply (i_limit _ _ reached_inv)]. rewrite <- size_dom. apply subseteq_size.
  intros t [r A]%elem_of_dom. destruct (i_active _ _ reached_inv _ _ A) as (_ & Ad & _). apply Ad. by rewrite L.
Qed.
End Reached.

(** C22. However its tasks interleave, at most one call of the runner per concurrency key is under way,
    and never more calls than the policy allows in flight. *)
Theorem runs_are_serialized records l w :
  stored_ok records -> external l -> run (begin records) l = Some w ->
  (forall t u r q, active (w_state w) !! t = Some r -> active (w_state w) !! u = Some q ->
     concurrency_key r = concurrency_key q -> t = u)
  /\ (forall n, in_flight_limit policy = Some n -> (size (active (w_state w)) <= n)%nat).
Proof. intros St Ex R. split; [by eapply active_exclusive|by eapply active_bounded]. Qed.

(** C23. The record of an operation only moves on, whatever fails: queued, then running, then one final
    record, a revision per write; and the runner is called at most once for an operation, and only after
    the store has accepted that it runs. *)
Theorem records_only_move_on records l w l' w' :
  stored_ok records -> external l -> run (begin records) l = Some w -> external l' -> run w l' = Some w' ->
  (forall id h, store (w_state w) !! id = Some h -> exists h', store (w_state w') !! id = Some h' /\ follows h h')
  /\ NoDup (runs (w_state w'))
  /\ (forall id, id ∈ runs (w_state w') -> exists h, h ∈ writes (w_state w') /\ h_id h = id /\ h_state h = RUNNING).
Proof.
  intros St Ex R Ex' R'. pose proof (reached_sound _ _ _ St Ex R) as Sw.
  destruct (run_kept _ _ _ Ex' Sw R') as (t & _ & K), (run_ok _ _ _ Ex' Sw R') as [[I _] _].
  split; [apply K|split; [apply I|apply I]].
Qed.

(** C24. An operation that leaves the queue for a final record is never run: if a queued record is
    later found final one revision on, the runner is not called for it. *)
Theorem ended_in_queue_never_runs records l w l' w' id h h' :
  stored_ok records -> external l -> run (begin records) l = Some w -> external l' -> run w l' = Some w' ->
  store (w_state w) !! id = Some h -> h_state h = QUEUED ->
  store (w_state w') !! id = Some h' -> h_terminal h' = true -> h_revision h' = h_revision h + 1 ->
  id ∉ runs (w_state w').
Proof.
  intros St Ex R Ex' R' E Q E' T Rv In. pose proof (reached_sound _ _ _ St Ex R) as Sw.
  destruct (run_kept _ _ _ Ex' Sw R') as (t & _ & K), (run_ok _ _ _ Ex' Sw R') as [[I' _] _]. destruct Sw as [I _].
  destruct (i_runs _ _ I' _ In) as (r & Iw & Er & Rr). destruct (i_writes _ _ I' _ Iw) as (c & Ec & Fr).
  rewrite Er in Ec. assert (c = h') as -> by congruence.
  assert (rank (h_state r) = 1) as R1 by by rewrite Rr. apply rank_terminal in T.
  destruct Fr as [->|(_ & _ & Lr & _)]; [lia|].
  destruct (k_writes _ _ _ _ K) as (new & Ew & Later). rewrite Ew in Iw. apply elem_of_app in Iw as [Iw|Iw].
  - destruct (i_writes _ _ I _ Iw) as (c & Ec' & Fc). rewrite Er in Ec'. assert (c = h) as -> by congruence.
    destruct Fc as [->|(_ & Lt & _)]; rewrite Q in *; cbn in *; lia.
  - rewrite <- Er in E. specialize (Later _ Iw _ E). destruct Later as (_ & _ & L1 & _). lia.
Qed.

(** C25. Once the admission is closed it stays closed: no operation is created and none starts running;
    and once the coordinator is released no task of it is left and no call of the runner is under way. *)
Theorem closed_admission_is_final records l w l' w' :
  stored_ok records -> external l -> run (begin records) l = Some w -> external l' -> run w l' = Some w' ->
  _admission_closed (w_state w) = true ->
  _admission_closed (w_state w') = true
  /\ (forall id h, store (w_state w') !! id = Some h ->
        is_Some (store (w_state w) !! id) /\ (h_state h = RUNNING -> store (w_state w) !! id = Some h))
  /\ _tasks (w_state w') ⊆ _tasks (w_state w)
  /\ (close_released (w_state w) = true -> _tasks (w_state w') = ∅ /\ active (w_state w') = ∅).
Proof.
  intros St Ex R Ex' R' C. pose proof (reached_sound _ _ _ St Ex R) as Sw.
  destruct (run_kept _ _ _ Ex' Sw R') as (t & _ & K), (run_ok _ _ _ Ex' Sw R') as [[I' _] _].
  split; [by apply K|split; [by apply K|split; [by apply K|]]]. intros Rl. apply (k_released _ _ _ _ K) in Rl.
  destruct (i_released _ _ I' Rl) as [_ T]. split; [done|]. apply map_empty. intros u. apply eq_None_not_Some.
  intros [r A]. destruct (i_active _ _ I' _ _ A) as (_ & _ & Tr). by rewrite T, lookup_empty in Tr.
Qed.

(** C26. Answers are true when they are given and after: a record that a method returned is one the store
    has, or had and moved on from; the record [cancel], [wait_result] or a completed [await_result]
    returned is the final one; and a release that was reported leaves no task. *)
Theorem answers_are_true records l w t a :
  stored_ok records -> external l -> run (begin records) l = Some w -> finished w t = Some (Ans a) ->
  match a with
  | R_handle h | R_timed_out h => exists c, store (w_state w) !! h_id h = Some c /\ follows h c
  | R_ended h | R_completed h => store (w_state w) !! h_id h = Some h /\ h_terminal h = true
  | R_records l => forall h, h ∈ l -> exists c, store (w_state w) !! h_id h = Some c /\ follows h c
  | R_released => _tasks (w_state w) = ∅
  | R_none => True
  end.
Proof.
  intros St Ex R F. pose proof (reached_sound _ _ _ St Ex R) as Sw.
  assert (owed (Ans a) (w_state w)) as O.
  { eapply (finished_owed (inv policy) rely idle accepts owed None w t (Ans a)); [exact Sw|done|exact F]. }
  assert (forall h, known (h_id h) h (w_state w) -> h_terminal h = true -> store (w_state w) !! h_id h = Some h) as Final.
  { intros h [_ (c & E & Fc)] T. by rewrite E, (follows_terminal _ _ Fc T). }
  destruct a; cbn in O; [done|apply O|destruct O; auto| |destruct O; auto|apply O|].
  - intros h In. by destruct (O h In).
  - destruct Sw as [I _]. by apply (i_released _ _ I).
Qed.

End Runs.
