(* ===== verification/CoordinatorExample.v ===== *)
(** Schedules of the coordinator, computed: the guarantees at work, and what the code does when a
    store, a runner or a cancellation comes at the wrong moment. *)
From S2P Require Import Prelude Coroutines Operations Coordinator CoordinatorLogic CoordinatorRuns.

Definition no_bounds : OperationPolicy := mk_OperationPolicy None None None.
Definition one_at_a_time : OperationPolicy := mk_OperationPolicy None (Some (N_int 1)) None.
Definition bounded_cancel : OperationPolicy := mk_OperationPolicy None None (Some (N_int 3)).
Definition silent : OperationLifecycleEvent -> option Exc := fun _ => None.
Definition unreported : Exc -> OperationLifecycleEvent -> option Exc := fun _ _ => None.
Definition request (id key : string) : OperationRequest := mk_OperationRequest (py id) (py key) None.

Abbreviation coordinator_world := (World Coordinator Job Reply).
Definition from (p : OperationPolicy) (w : coordinator_world) (l : list Move) : coordinator_world :=
  default w (run p silent unreported w l).
(** [n] waits of task [t] end as they should. *)
Definition goes (t n : nat) : list (Move (J := Job)) := replicate n (M_run t C_ok).

Definition completes (p : OperationPolicy) (w : coordinator_world) (l : list Move) : bool :=
  match run p silent unreported w l with Some _ => true | None => false end.
Lemma from_run p w l : completes p w l = true -> run p silent unreported w l = Some (from p w l).
Proof. unfold completes, from. by destruct (run p silent unreported w l). Qed.

Definition state_of (w : coordinator_world) (id : string) : option OperationState := h_state <$> store (w_state w) !! py id.

(** ** The guarantees at work *)

(** Two operations with keys of their own, one at a time: the second waits for the first. *)
Definition two_submitted : list Move :=
  M_call (J_submit (request "a" "j")) :: goes 0 16 ++ goes 1 22 ++
  M_call (J_submit (request "b" "k")) :: goes 2 13 ++ goes 3 3.
Lemma runs_are_serialized_witness :
  let w := from one_at_a_time (begin ∅) two_submitted in
  state_of w "a" = Some RUNNING /\ state_of w "b" = Some QUEUED
  /\ (forall n, in_flight_limit one_at_a_time = Some n -> (size (active (w_state w)) <= n)%nat).
Proof.
  split; [by vm_compute|split; [by vm_compute|]].
  refine (proj2 (runs_are_serialized one_at_a_time silent unreported ∅ two_submitted _ nothing_stored _ _)).
  - apply externalb_ok. by vm_compute.
  - apply from_run. by vm_compute.
Defined.

(** An operation is submitted and starts running; then the runner answers. *)
Definition started_running : list Move := M_call (J_submit (request "a" "j")) :: goes 0 16 ++ goes 1 21.
Definition answered : list Move := M_run 1 (C_value None) :: goes 1 19.
Lemma records_only_move_on_witness :
  let w := from no_bounds (begin ∅) started_running in
  let w' := from no_bounds w answered in
  state_of w "a" = Some RUNNING /\ state_of w' "a" = Some SUCCEEDED
  /\ NoDup (runs (w_state w')).
Proof.
  split; [by vm_compute|split; [by vm_compute|]].
  refine (proj1 (proj2 (records_only_move_on no_bounds silent unreported ∅ started_running
    (from no_bounds (begin ∅) started_running) answered _ nothing_stored _ _ _ _))).
  - apply externalb_ok. by vm_compute.
  - apply from_run. by vm_compute.
  - apply externalb_ok. by vm_compute.
  - apply from_run. by vm_compute.
Defined.

(** An operation is cancelled before its task has begun to run it. *)
Definition queued : list Move := M_call (J_submit (request "a" "j")) :: goes 0 16 ++ goes 1 3.
Definition cancelled_in_queue : list Move :=
  M_call (J_cancel (py "a")) :: goes 2 5 ++ goes 3 11 ++ M_run 1 C_interrupted :: goes 1 3 ++ goes 3 14 ++ goes 2 1.
Definition record_of (w : coordinator_world) (id : string) : OperationHandle :=
  default (mk_OperationHandle (request "" "") QUEUED None false None 0) (store (w_state w) !! py id).
Lemma ended_in_queue_never_runs_witness :
  let w := from no_bounds (begin ∅) queued in
  let w' := from no_bounds w cancelled_in_queue in
  state_of w' "a" = Some CANCELED /\ py "a" ∉ runs (w_state w').
Proof.
  split; [by vm_compute|].
  refine (ended_in_queue_never_runs no_bounds silent unreported ∅ queued (from no_bounds (begin ∅) queued) cancelled_in_queue _
    (py "a") (record_of (from no_bounds (begin ∅) queued) "a")
    (record_of (from no_bounds (from no_bounds (begin ∅) queued) cancelled_in_queue) "a") nothing_stored _ _ _ _ _ _ _ _ _).
  - apply externalb_ok. by vm_compute.
  - apply from_run. by vm_compute.
  - apply externalb_ok. by vm_compute.
  - apply from_run. by vm_compute.
  - by vm_compute.
  - by vm_compute.
  - by vm_compute.
  - by vm_compute.
  - by vm_compute.
Defined.

(** A close interrupts the operation that runs, and releases the coordinator. *)
Definition closing : list Move := started_running ++ M_call J_close :: goes 2 8.
Definition closed : list Move :=
  goes 3 4 ++ goes 4 4 ++ goes 5 12 ++ M_run 1 C_interrupted :: goes 1 4 ++ goes 5 14 ++ goes 4 3 ++ goes 3 1 ++ goes 2 1.
Lemma closed_admission_is_final_witness :
  let w := from no_bounds (begin ∅) closing in
  let w' := from no_bounds w closed in
  state_of w' "a" = Some INTERRUPTED /\ close_released (w_state w') = true /\ _admission_closed (w_state w') = true.
Proof.
  split; [by vm_compute|split; [by vm_compute|]].
  refine (proj1 (closed_admission_is_final no_bounds silent unreported ∅ closing (from no_bounds (begin ∅) closing) closed _ nothing_stored _ _ _ _ _)).
  - apply externalb_ok. by vm_compute.
  - apply from_run. by vm_compute.
  - apply externalb_ok. by vm_compute.
  - apply from_run. by vm_compute.
  - by vm_compute.
Defined.

(** What [cancel] answered is the final record. *)
Lemma answers_are_true_witness :
  let w := from no_bounds (begin ∅) (queued ++ cancelled_in_queue) in
  store (w_state w) !! py "a" = Some (record_of w "a") /\ h_terminal (record_of w "a") = true.
Proof.
  refine (answers_are_true no_bounds silent unreported ∅ (queued ++ cancelled_in_queue) _ 2
    (R_ended (record_of (from no_bounds (begin ∅) (queued ++ cancelled_in_queue)) "a")) nothing_stored _ _ _).
  - apply externalb_ok. by vm_compute.
  - apply from_run. by vm_compute.
  - by vm_compute.
Defined.

(** ** At the wrong moment *)

(** A task that nothing but a cancellation from outside can get on. *)
Definition stuck (p : OperationPolicy) (w : coordinator_world) (t : nat) : Prop :=
  forall c, advance (body p silent unreported) t c w = None.

(** The runner answers a cancellation with an error of its own. *)
Definition deadlocked : list Move :=
  started_running ++ M_call (J_cancel (py "a")) :: goes 2 5 ++ goes 3 12 ++ M_run 1 (C_fail (Error (py "OSError") [])) :: goes 1 2.
(** Without a cancellation timeout a cancellation can stop for good: the task that terminates the
    operation holds its lock while it waits for the execution, and an execution whose runner raises an
    error when it is cancelled waits for that lock to record the failure. Then no task can go on, the
    caller of [cancel] included, and the record stays running. *)
Lemma cancellation_can_deadlock :
  exists l w, external l /\ run no_bounds silent unreported (begin ∅) l = Some w
  /\ state_of w "a" = Some RUNNING /\ finished w 2 = None
  /\ forall t, (t < w_next w)%nat -> stuck no_bounds w t.
Proof.
  exists deadlocked, (from no_bounds (begin ∅) deadlocked).
  split; [apply externalb_ok; by vm_compute|]. split; [apply from_run; by vm_compute|].
  split; [by vm_compute|]. split; [by vm_compute|]. intros t Lt.
  assert (w_next (from no_bounds (begin ∅) deadlocked) = 4%nat) as En by by vm_compute. rewrite En in Lt.
  destruct t as [|[|[|[|t]]]]; [..|lia]; intros c; destruct c; by vm_compute.
Qed.

(** A schedule that ends in a world where [P] holds. *)
Definition reachable (p : OperationPolicy) (P : coordinator_world -> Prop) : Prop :=
  exists l w, external l /\ run p silent unreported (begin ∅) l = Some w /\ P w.
Lemma reachable_by p (P : coordinator_world -> Prop) l :
  externalb l = true -> completes p (begin ∅) l = true -> P (from p (begin ∅) l) -> reachable p P.
Proof. intros E C H. exists l, (from p (begin ∅) l). split; [by apply externalb_ok|]. split; [by apply from_run|done]. Qed.

(** The final write lands, and the store raises: [_transition] finds the final record and returns it,
    without the event. A [wait_result] that was waiting goes on waiting when every other task has ended. *)
Lemma final_write_can_wake_nobody :
  reachable no_bounds (fun w => state_of w "a" = Some SUCCEEDED /\ finished w 1 = Some (Ans R_none)
    /\ finished w 2 = None /\ stuck no_bounds w 2 /\ w_next w = 3%nat).
Proof.
  apply (reachable_by _ _ (started_running ++ M_call (J_wait_result 5 (py "a")) :: goes 2 11 ++
    M_run 1 (C_value None) :: goes 1 10 ++ M_run 1 (C_fail (Error (py "OSError") [])) :: goes 1 7)); [by vm_compute|by vm_compute|].
  split; [by vm_compute|split; [by vm_compute|split; [by vm_compute|split; [|by vm_compute]]]]. intros c. destruct c; by vm_compute.
Qed.

(** [submit] is cancelled after its record was created and before it creates the task: the record stays
    queued, no task will run it, and whoever waits for it waits for good. *)
Lemma cancelled_submit_strands_its_record :
  reachable no_bounds (fun w => state_of w "a" = Some QUEUED /\ _tasks (w_state w) = ∅
    /\ finished w 0 = Some (Threw Cancelled) /\ finished w 1 = None /\ stuck no_bounds w 1 /\ w_next w = 2%nat).
Proof.
  apply (reachable_by _ _ (M_call (J_submit (request "a" "j")) :: goes 0 10 ++ [M_interrupt 0; M_run 0 C_interrupted; M_run 0 C_ok] ++
    M_call (J_wait_result 3 (py "a")) :: goes 1 11)); [by vm_compute|by vm_compute|].
  split; [by vm_compute|split; [by vm_compute|split; [by vm_compute|split; [by vm_compute|split; [|by vm_compute]]]]].
  intros c. destruct c; by vm_compute.
Qed.

(** The task of an operation is cancelled before its first step, so its [finally] never runs and its
    entry stays in [_tasks]: the close that follows finds no operation to interrupt and fails, as every
    later one will. *)
Lemma unstarted_task_blocks_every_close :
  reachable no_bounds (fun w => state_of w "a" = Some CANCELED /\ finished w 3 = Some (Threw Cancelled)
    /\ _tasks (w_state w) !! py "a" = Some 3%nat /\ finished w 4 = Some (Threw NotReleasedError)).
Proof.
  apply (reachable_by _ _ (M_call (J_submit (request "a" "j")) :: goes 0 10 ++ M_call (J_cancel (py "a")) :: goes 1 5 ++ goes 2 8 ++
    goes 0 6 ++ goes 2 3 ++ M_run 3 C_interrupted :: goes 2 14 ++ goes 1 1 ++
    M_call J_close :: goes 4 8 ++ goes 5 4 ++ goes 6 5 ++ goes 5 1 ++ goes 4 1)); [by vm_compute|by vm_compute|].
  repeat split; by vm_compute.
Qed.

(** The deadline of a cancellation expires while the execution is awaited: [asyncio.gather] cancels the
    execution once more and waits for it, so a runner that ignores the cancellation keeps [cancel], and
    the record running, past the deadline. *)
Lemma deadline_waits_for_the_execution :
  reachable bounded_cancel (fun w => state_of w "a" = Some RUNNING /\ finished w 3 = None /\ stuck bounded_cancel w 3).
Proof.
  apply (reachable_by _ _ (started_running ++ M_call (J_cancel (py "a")) :: goes 2 5 ++ goes 3 12 ++ [M_run 3 C_expired; M_run 3 C_ok]));
    [by vm_compute|by vm_compute|].
  split; [by vm_compute|split; [by vm_compute|]]. intros c. destruct c; by vm_compute.
Qed.
