(* ===== verification/Processes.v ===== *)
(** Processes that share nothing but what is outside of them: calls of outside code that may fail before
    their effect or on the way back, and the rules by which such programs are reasoned about. *)
From S2P Require Import Prelude Coroutines.
Open Scope coro_scope.

Section Programs.
Context {S J O : Type}.
Abbreviation prog := (coro S J O).

(** The exception of a call that is modelled as a function. *)
Definition exc_of (e : exn) : Exc :=
  match e with
  | OtherError name (AStr text :: _) => Error (py name) text
  | OtherError name _ => Error (py name) []
  | ValidationError text => Error (py "ValidationError") (py text)
  | ValueError text _ => Error (py "ValueError") (py text)
  | KeyError key => Error (py "KeyError") key
  | _ => Error (py "Exception") []
  end.
Definition lift {R} (m : result R) : prog R := match m with Ok r => Ret r | Err e => Raise (exc_of e) end.
Definition get {R} (f : S -> R) : prog R := eff (Sync (fun _ s => (Ans (f s), s, None))).
Definition modify (f : S -> S) : prog unit := eff (Sync (fun _ s => (Ans tt, f s, None))).

(** A step of outside code: it has its effect and answers, or raises what [threw] makes of the failure. *)
Definition outside {R} (threw : Exc -> Exc) (f : S -> R * S) : prog R :=
  eff (Suspend true (fun c s =>
    match c with
    | C_ok => let '(r, s) := f s in Some (Ans r, s)
    | C_fail e => Some (Threw (threw e), s)
    | _ => None
    end)).
(** A step and the way back to its caller, which may be lost. *)
Definition outside_and_back {R} (threw : Exc -> Exc) (f : S -> R * S) : prog R :=
  await r := outside threw f in
  outside threw (fun s => (r, s)).

(** [try: p except <caught>: k]. *)
Definition except {A} (caught : Exc -> bool) (p : prog A) (k : Exc -> prog A) : prog A :=
  after p (fun r => match r with Threw e => if caught e then k e else Raise e | Ans a => Ret a end).
End Programs.

(** ** Rules

    [does t p P E s]: from [s], whatever the other processes do at its steps, [p] keeps what the others
    rely on; its own steps amount to [own t]; its answer satisfies [P], what it raises [E]. *)
Section Rules.
Context {S J O : Type}.
Variable inv : S -> Prop.
Variable rely : nat -> S -> S -> Prop.
Variable idle : nat -> S -> Prop.
Variable accepts : nat -> J -> S -> Prop.
Variable owed : answer O -> S -> Prop.
Context {rely_preorder : forall t, PreOrder (rely t)}.
Variable own : nat -> S -> S -> Prop.
Context {own_preorder : forall t, PreOrder (own t)}.
Hypothesis rely_own : forall t s s', rely t s s' -> own t s s'.

Definition outcome_of {A} (P : A -> S -> Prop) (E : Exc -> S -> Prop) (a : answer A) (s : S) : Prop :=
  match a with Ans x => P x s | Threw e => E e s end.
Definition does (t : nat) {A} (p : coro S J O A) (P : A -> S -> Prop) (E : Exc -> S -> Prop) (s : S) : Prop :=
  wp inv rely idle accepts owed t p (fun a s' => own t s s' /\ outcome_of P E a s') s.
Definition moves (t : nat) (s s' : S) : Prop := keeps inv rely t s s' /\ own t s s'.

Lemma does_from t A (p : coro S J O A) P E s s' : own t s s' -> does t p P E s' ->
  wp inv rely idle accepts owed t p (fun a s'' => own t s s'' /\ outcome_of P E a s'') s'.
Proof. intros G. apply wp_mono. intros a s'' _ [G' X]. split; [by etrans|done]. Qed.
Lemma does_weaken t A (p : coro S J O A) (P P' : A -> S -> Prop) (E E' : Exc -> S -> Prop) s :
  (forall x s', inv s' -> own t s s' -> P x s' -> P' x s') -> (forall e s', inv s' -> own t s s' -> E e s' -> E' e s') ->
  does t p P E s -> does t p P' E' s.
Proof. intros Hp He. apply wp_mono. intros [x|e] s' I [G X]; split; cbn in *; auto. Qed.
Lemma does_ret t A (x : A) P E s : (forall s', rely t s s' -> inv s' -> P x s') -> does t (Ret x) P E s.
Proof. intros H s' G I. split; [by apply rely_own|by apply H]. Qed.
Lemma does_raise t A e (P : A -> S -> Prop) E s : (forall s', rely t s s' -> inv s' -> E e s') -> does t (Raise e) P E s.
Proof. intros H s' G I. split; [by apply rely_own|by apply H]. Qed.
Lemma does_bind t A B (p : coro S J O A) (k : A -> coro S J O B) P Q E s :
  inv s -> does t p P E s -> (forall x s', inv s' -> own t s s' -> P x s' -> does t (k x) Q E s') -> does t (cbind p k) Q E s.
Proof.
  intros I W K. eapply wp_seq; [exact rely_preorder|done|exact W|..]; cbn.
  - intros x s' I' [G X]. eapply does_from; [done|by apply K].
  - by intros e s' _ [G X].
Qed.
Lemma does_lift t A (m : result A) (P : A -> S -> Prop) (E : Exc -> S -> Prop) s :
  (forall x s', m = Ok x -> rely t s s' -> inv s' -> P x s') ->
  (forall e s', m = Err e -> rely t s s' -> inv s' -> E (exc_of e) s') -> does t (lift m) P E s.
Proof. intros Hp He. destruct m; [apply does_ret|apply does_raise]; auto. Qed.
Lemma does_except t A caught (p : coro S J O A) (k : Exc -> coro S J O A) P E E' s :
  inv s -> does t p P E s ->
  (forall e s', caught e = true -> inv s' -> own t s s' -> E e s' -> does t (k e) P E' s') ->
  (forall e s', caught e = false -> inv s' -> own t s s' -> E e s' -> E' e s') -> does t (except caught p k) P E' s.
Proof.
  intros I W K N. eapply wp_try; [exact rely_preorder|done|eapply wp_closed; [exact rely_preorder|exact W]|].
  intros [x|e] s' I' X; cbn in X.
  - intros s'' G I''. by apply X.
  - destruct (caught e) eqn:C.
    + destruct (X s' ltac:(reflexivity) I') as [G Y]. eapply does_from; [done|by apply K].
    + intros s'' G I''. destruct (X s'' G I'') as [G' Y]. split; [done|by apply N].
Qed.
Lemma does_finally t A (p : coro S J O A) (q : coro S J O unit) P P' E E' s :
  inv s -> does t p P E s ->
  (forall r s', inv s' -> own t s s' -> outcome_of P E r s' -> does t q (fun _ s'' => outcome_of P' E' r s'') E' s') ->
  does t (finally p q) P' E' s.
Proof.
  intros I W H. eapply wp_finally; [exact rely_preorder|done|exact W|]. intros r s' I' [G X].
  eapply wp_mono; [|by eapply H]. intros [[]|e] s1 I1 [G1 Y]; (split; [by etrans|done]).
Qed.
(** What a step of outside code can raise: its own failure, or an interruption of the process. *)
Definition thrown (threw : Exc -> Exc) (e : Exc) : Prop := e = Cancelled \/ e = Expired \/ exists e', e = threw e'.
Lemma does_outside t R threw (f : S -> R * S) (P : R -> S -> Prop) (E : Exc -> S -> Prop) s :
  (forall s1 r s2, rely t s s1 -> inv s1 -> f s1 = (r, s2) -> moves t s1 s2 /\ forall s3, rely t s2 s3 -> inv s3 -> P r s3) ->
  (forall e s1, thrown threw e -> rely t s s1 -> inv s1 -> E e s1) -> does t (outside threw f) P E s.
Proof.
  intros F Fe. apply wp_suspend; [exact rely_preorder| |].
  { intros s1 G I. split; (split; [by apply rely_own|apply Fe; [|done..]]); [by left|right; by left]. }
  intros c s1 r s2 G I. destruct c; try done.
  - destruct (f s1) as [r' s2'] eqn:Ef. intros [= <- <-]. destruct (F _ _ _ G I Ef) as ([K O'] & X).
    split; [done|]. intros s3 G3 I3. split; [|by apply X]. etrans; [by apply rely_own|etrans; [done|by apply rely_own]].
  - intros [= <- <-]. split; [by apply keeps_refl|]. intros s3 G3 I3. split; [by apply rely_own; etrans|]. apply Fe; [|by etrans|done]. right; right; eauto.
Qed.
Lemma does_and_back t R threw (f : S -> R * S) (P : R -> S -> Prop) (E : Exc -> S -> Prop) s :
  inv s ->
  (forall s1 r s2, rely t s s1 -> inv s1 -> f s1 = (r, s2) ->
     moves t s1 s2 /\ forall s3, rely t s2 s3 -> inv s3 -> P r s3 /\ forall e, thrown threw e -> E e s3) ->
  (forall e s1, thrown threw e -> rely t s s1 -> inv s1 -> E e s1) -> does t (outside_and_back threw f) P E s.
Proof.
  intros I F Fe.
  eapply (does_bind _ _ _ _ _ (fun r s1 => forall s2, rely t s1 s2 -> inv s2 -> P r s2 /\ forall e, thrown threw e -> E e s2)); [done| |].
  - apply does_outside; [|done]. intros s1 r s2 G1 I1 Ef. destruct (F _ _ _ G1 I1 Ef) as (M & X). split; [done|].
    intros s3 G3 _ s4 G4 I4. apply X; [by etrans|done].
  - intros r s' I' _ X. apply does_outside.
    + intros s1 r' s2 G1 I1 [= <- <-]. split; [split; [by apply keeps_refl|reflexivity]|]. intros s3 G3 I3. apply X; [by etrans|done].
    + intros e s1 Th G1 I1. by apply X.
Qed.
Lemma does_sync t R (f : nat -> S -> answer R * S * option J) (P : R -> S -> Prop) E s :
  (forall n s1, rely t s s1 -> inv s1 -> exists r s2, f n s1 = (Ans r, s2, None) /\ moves t s1 s2
     /\ forall s3, rely t s2 s3 -> inv s3 -> P r s3) -> does t (eff (Sync f)) P E s.
Proof.
  intros F. apply wp_sync. intros n s1 G I _ _. destruct (F n s1 G I) as (r & s2 & -> & [K O'] & X).
  split; [done|]. intros s3 G3 I3. split; [|by apply X]. etrans; [by apply rely_own|etrans; [done|by apply rely_own]].
Qed.
End Rules.
