(* ===== verification/SlurmStates.v ===== *)
(** The Slurm lifecycle translator (vs_slurm/scheduler_states.py): raw scheduler text to a job's life,
    with the framed reads of vs_slurm/scheduler_read.py and the reading of a job by
    vs_slurm/runner.py ([inspect_job]) that rest on it. *)
From S2P Require Import Prelude Plan.

(** ** Lives *)

Inductive SlurmJobStatus := S_UNKNOWN | S_PENDING | S_RUNNING | S_COMPLETED | S_FAILED | S_CANCELLED.
#[export] Instance SlurmJobStatus_eq_dec : EqDecision SlurmJobStatus.
Proof. solve_decision. Defined.
Definition s_terminal (s : SlurmJobStatus) : bool :=
  match s with S_COMPLETED | S_FAILED | S_CANCELLED => true | _ => false end.
Definition s_active (s : SlurmJobStatus) : bool := match s with S_PENDING | S_RUNNING => true | _ => false end.
Definition status_value (s : SlurmJobStatus) : pystr :=
  match s with
  | S_UNKNOWN => py "unknown" | S_PENDING => py "pending" | S_RUNNING => py "running"
  | S_COMPLETED => py "completed" | S_FAILED => py "failed" | S_CANCELLED => py "cancelled"
  end.

Inductive SlurmPhase := P_PENDING | P_RUNNING | P_COMPLETING | P_ENDED | P_UNKNOWN.
#[export] Instance SlurmPhase_eq_dec : EqDecision SlurmPhase.
Proof. solve_decision. Defined.

Inductive SlurmRawState :=
| BOOT_FAIL | CANCELLED | COMPLETED | COMPLETING | CONFIGURING | DEADLINE | FAILED | NODE_FAIL
| OUT_OF_MEMORY | PENDING | PREEMPTED | REQUEUE_FED | REQUEUE_HOLD | REQUEUED | RESIZING | RESV_DEL_HOLD
| REVOKED | RUNNING | SIGNALING | SPECIAL_EXIT | STAGE_OUT | STOPPED | SUSPENDED | TIMEOUT.
#[export] Instance SlurmRawState_eq_dec : EqDecision SlurmRawState.
Proof. solve_decision. Defined.
(** The members of the enumeration, in its order, with their values. *)
Definition raw_states : list (pystr * SlurmRawState) :=
  [(py "BOOT_FAIL", BOOT_FAIL); (py "CANCELLED", CANCELLED); (py "COMPLETED", COMPLETED);
   (py "COMPLETING", COMPLETING); (py "CONFIGURING", CONFIGURING); (py "DEADLINE", DEADLINE);
   (py "FAILED", FAILED); (py "NODE_FAIL", NODE_FAIL); (py "OUT_OF_MEMORY", OUT_OF_MEMORY);
   (py "PENDING", PENDING); (py "PREEMPTED", PREEMPTED); (py "REQUEUE_FED", REQUEUE_FED);
   (py "REQUEUE_HOLD", REQUEUE_HOLD); (py "REQUEUED", REQUEUED); (py "RESIZING", RESIZING);
   (py "RESV_DEL_HOLD", RESV_DEL_HOLD); (py "REVOKED", REVOKED); (py "RUNNING", RUNNING);
   (py "SIGNALING", SIGNALING); (py "SPECIAL_EXIT", SPECIAL_EXIT); (py "STAGE_OUT", STAGE_OUT);
   (py "STOPPED", STOPPED); (py "SUSPENDED", SUSPENDED); (py "TIMEOUT", TIMEOUT)].

Inductive EndOutcome :=
| O_OK | O_NONZERO_EXIT | O_FAILED | O_CANCELLED | O_TIMED_OUT | O_DEADLINE_MISSED | O_OUT_OF_MEMORY
| O_NODE_LOST | O_BOOT_FAILED | O_PREEMPTED | O_REVOKED | O_SPECIAL_EXIT.
#[export] Instance EndOutcome_eq_dec : EqDecision EndOutcome.
Proof. solve_decision. Defined.

(** [JobLife]. *)
Inductive JobLife :=
| Queued (attempt : Z)
| Running (attempt : Z)
| Completing (attempt : Z)
| Ended (outcome : EndOutcome) (attempt : Z)
| Unknown (raw : option pystr).
#[export] Instance JobLife_eq_dec : EqDecision JobLife.
Proof. solve_decision. Defined.
Definition INITIAL_LIFE : JobLife := Unknown None.
Definition life_attempt (l : JobLife) : Z :=
  match l with Queued a | Running a | Completing a | Ended _ a => a | Unknown _ => 0 end.

(** ** Readings *)

Record QueueRow := mk_QueueRow {
  q_state : pystr;
  q_reason : option pystr;
  q_estimated_start : option pystr;
  q_attempt : Z }.
#[export] Instance QueueRow_eq_dec : EqDecision QueueRow.
Proof. solve_decision. Defined.
Record AccountingRow := mk_AccountingRow { a_state : pystr; a_exit_code : pystr; a_attempt : Z }.
#[export] Instance AccountingRow_eq_dec : EqDecision AccountingRow.
Proof. solve_decision. Defined.
(** [SlurmStatus]. *)
Inductive SlurmStatus :=
| InQueue (row : QueueRow)
| InAccounting (row : AccountingRow)
| NotInQueue
| NoAccountingRow.

Inductive Notice := REGRESSION | STALE_ATTEMPT | AFTER_END.
Record Step := mk_Step { s_life : JobLife; s_notice : option Notice; s_requeued : bool }.

(** [s.partition(sep)] for one character, without the separator. *)
Fixpoint partition_on (sep : N) (s : pystr) : pystr * pystr :=
  match s with
  | [] => ([], [])
  | c :: s' => if N.eqb c sep then ([], s') else let '(a, b) := partition_on sep s' in (c :: a, b)
  end.

Fixpoint first_accounting_row (lines : list pystr) : SlurmStatus :=
  match lines with
  | [] => NoAccountingRow
  | line :: lines =>
    let '(state, exit_code) := partition_on 124 (strip line) in
    match split_words state [] with
    | word :: _ =>
      if str_truthy (strip exit_code) then InAccounting (mk_AccountingRow word (strip exit_code) 0)
      else first_accounting_row lines
    | [] => first_accounting_row lines
    end
  end.
Definition parse_accounting_row (output : pystr) : SlurmStatus := first_accounting_row (splitlines [] output).

Definition _EMPTY_FIELDS : list pystr := [[]; py "N/A"; py "Unknown"].
Definition parse_queue_row (output : pystr) : SlurmStatus :=
  match splitlines [] (strip output) with
  | [] => NotInQueue
  | line :: _ =>
    if negb (str_truthy (strip line)) then NotInQueue else
    let fields := map strip (split_on 124 line) in
    let reason := nth 1 fields [] in
    let start := nth 2 fields [] in
    InQueue (mk_QueueRow (nth 0 fields []) (if str_truthy reason then Some reason else None)
      (if bool_decide (start ∈ _EMPTY_FIELDS) then None else Some start) 0)
  end.

Definition _parse_state (raw_state : pystr) : option SlurmRawState :=
  snd <$> find (fun '(value, _) => pystr_eqb value raw_state) raw_states.

(** [re.fullmatch("([0-9]+):([0-9]+)", exit_code)] and its groups. *)
Definition is_digit (c : N) : bool := ((48 <=? c) && (c <=? 57))%N.
Definition digits_text (s : pystr) : bool := str_truthy s && forallb is_digit s.
Definition exit_groups (exit_code : pystr) : option (pystr * pystr) :=
  match split_on 58 exit_code with
  | [code; signal] => if digits_text code && digits_text signal then Some (code, signal) else None
  | _ => None
  end.
Definition _exit_is_clean (exit_code : option pystr) : option bool :=
  match exit_code with
  | None => Some true
  | Some text =>
    match exit_groups text with
    | None => None
    | Some (code, signal) => Some (pystr_eqb code (py "0") && pystr_eqb signal (py "0"))
    end
  end.

Definition _QUEUED_STATES : list SlurmRawState :=
  [PENDING; CONFIGURING; REQUEUED; REQUEUE_HOLD; REQUEUE_FED; RESV_DEL_HOLD].
Definition _RUNNING_STATES : list SlurmRawState :=
  [RUNNING; SUSPENDED; STOPPED; SIGNALING; STAGE_OUT; RESIZING].
(** The dict [_END_OF_STATE]; a state it lacks is a [KeyError]. *)
Definition _END_OF_STATE (s : SlurmRawState) : option EndOutcome :=
  match s with
  | FAILED => Some O_FAILED
  | CANCELLED => Some O_CANCELLED
  | TIMEOUT => Some O_TIMED_OUT
  | DEADLINE => Some O_DEADLINE_MISSED
  | OUT_OF_MEMORY => Some O_OUT_OF_MEMORY
  | NODE_FAIL => Some O_NODE_LOST
  | BOOT_FAIL => Some O_BOOT_FAILED
  | PREEMPTED => Some O_PREEMPTED
  | REVOKED => Some O_REVOKED
  | SPECIAL_EXIT => Some O_SPECIAL_EXIT
  | _ => None
  end.

Definition _life_of_state (state : SlurmRawState) (exit_code : option pystr) (attempt : Z) (raw : pystr) : result JobLife :=
  if bool_decide (state ∈ _QUEUED_STATES) then Ok (Queued attempt) else
  if bool_decide (state ∈ _RUNNING_STATES) then Ok (Running attempt) else
  if bool_decide (state = COMPLETING) then Ok (Completing attempt) else
  if bool_decide (state = COMPLETED) then
    Ok match _exit_is_clean exit_code with
       | None => Unknown (Some (raw ++ [32%N] ++ default (py "None") exit_code))
       | Some clean => Ended (if clean : bool then O_OK else O_NONZERO_EXIT) attempt
       end
  else
    match _END_OF_STATE state with Some outcome => Ok (Ended outcome attempt) | None => Err (KeyError raw) end.

Definition _reading_life (raw : SlurmStatus) : result (option JobLife) :=
  let reading text exit_code attempt :=
    match _parse_state text with
    | None => Ok (Some (Unknown (Some text)))
    | Some state => let* l := _life_of_state state exit_code attempt text in Ok (Some l)
    end in
  match raw with
  | InQueue row => reading (q_state row) None (q_attempt row)
  | InAccounting row => reading (a_state row) (Some (a_exit_code row)) (a_attempt row)
  | NotInQueue | NoAccountingRow => Ok None
  end.

(** ** The order of lives *)

Definition _rank (l : JobLife) : Z :=
  match l with Unknown _ => -1 | Queued _ => 0 | Running _ => 1 | Completing _ => 2 | Ended _ _ => 3 end.
Definition is_unknown (l : JobLife) : bool := match l with Unknown _ => true | _ => false end.
Definition is_ended (l : JobLife) : bool := match l with Ended _ _ => true | _ => false end.

Definition _join_live (prev seen : JobLife) : Step :=
  if negb (life_attempt seen =? life_attempt prev) then
    if life_attempt seen <? life_attempt prev then mk_Step prev (Some STALE_ATTEMPT) false
    else mk_Step seen None true
  else if _rank seen <? _rank prev then mk_Step prev (Some REGRESSION) false
  else mk_Step seen None false.
Definition advance_with_notice (prev seen : JobLife) : Step :=
  if is_unknown seen then mk_Step (if is_unknown prev then seen else prev) None false else
  if is_unknown prev then mk_Step seen None false else
  if is_ended prev then mk_Step prev (if bool_decide (seen = prev) then None else Some AFTER_END) false else
  _join_live prev seen.
Definition advance (prev seen : JobLife) : JobLife := s_life (advance_with_notice prev seen).

Definition observe_with_notice (prev : JobLife) (raw : SlurmStatus) : result Step :=
  let* seen := _reading_life raw in
  Ok match seen with None => mk_Step prev None false | Some seen => advance_with_notice prev seen end.
Definition observe (prev : JobLife) (raw : SlurmStatus) : result JobLife :=
  let* step := observe_with_notice prev raw in Ok (s_life step).
Definition needs_accounting (l : JobLife) : bool := match l with Completing _ | Unknown _ => true | _ => false end.

(** ** Projections *)

Definition phase_of (l : JobLife) : SlurmPhase :=
  match l with
  | Queued _ => P_PENDING | Running _ => P_RUNNING | Completing _ => P_COMPLETING
  | Ended _ _ => P_ENDED | Unknown _ => P_UNKNOWN
  end.
Definition status_of (l : JobLife) : SlurmJobStatus :=
  match l with
  | Queued _ => S_PENDING
  | Running _ | Completing _ => S_RUNNING
  | Ended O_OK _ => S_COMPLETED
  | Ended O_CANCELLED _ => S_CANCELLED
  | Ended _ _ => S_FAILED
  | Unknown _ => S_UNKNOWN
  end.
Definition life_for_status (s : SlurmJobStatus) (attempt : Z) : JobLife :=
  match s with
  | S_PENDING => Queued attempt
  | S_RUNNING => Running attempt
  | S_COMPLETED => Ended O_OK attempt
  | S_FAILED => Ended O_FAILED attempt
  | S_CANCELLED => Ended O_CANCELLED attempt
  | S_UNKNOWN => Unknown None
  end.

(** ** Framed reads (scheduler_read.py) *)

Definition READ_END : pystr := py "__VS_SCHEDULER_READ_END__".
Definition _SUFFIX : pystr := py " && echo " ++ READ_END.
Definition framed (command : pystr) : pystr := command ++ _SUFFIX.

(** [s] after the prefix [p]. *)
Fixpoint after_prefix (p s : pystr) : option pystr :=
  match p, s with
  | [], _ => Some s
  | a :: p, b :: s => if N.eqb a b then after_prefix p s else None
  | _, [] => None
  end.
(** [s.rpartition(sep)]: the text before and after the last [sep]. *)
Fixpoint rpartition (sep s : pystr) : option (pystr * pystr) :=
  match s with
  | [] => match after_prefix sep [] with Some rest => Some ([], rest) | None => None end
  | c :: s' =>
    match rpartition sep s' with
    | Some (body, rest) => Some (c :: body, rest)
    | None => match after_prefix sep s with Some rest => Some ([], rest) | None => None end
    end
  end.
Definition ends_line (s : pystr) : bool := match last s with Some c => N.eqb c 10 | None => false end.
Definition unframed (stdout end_ : pystr) : option pystr :=
  match rpartition end_ stdout with
  | None => None
  | Some (body, rest) =>
    if negb (pystr_eqb rest [10%N]) || (str_truthy body && negb (ends_line body)) then None else Some body
  end.
(** [command.endswith(_SUFFIX)]. *)
Definition split_framed (command : pystr) : pystr * pystr :=
  let n := (length command - length _SUFFIX)%nat in
  if pystr_eqb (drop n command) _SUFFIX then (take n command, READ_END ++ [10%N]) else (command, []).

(** ** Reading a job (runner.py)

    The transport answers each command with its standard output, or raises. [t_answers] are the
    answers to come and [t_commands] what was sent. *)

Record Transport := mk_Transport { t_answers : list (result pystr); t_commands : list pystr }.
Record SchedulerReading := mk_SchedulerReading {
  r_life : JobLife;
  r_reason : option pystr;
  r_estimated_start : option pystr }.

Definition SlurmError (text : string) : exn := OtherError "SlurmError" [AStr (py text)].
Definition is_slurm_error (e : exn) : bool :=
  match e with OtherError c _ => String.eqb c "SlurmError" | _ => false end.
Definition try_slurm {S A} (m : SE S A) (handler : exn -> SE S A) : SE S A := fun s =>
  match m s with
  | (Err e, s') => if is_slurm_error e then handler e s' else (Err e, s')
  | r => r
  end.

Definition transport_exec (command : pystr) : SE Transport pystr := fun t =>
  let sent := t_commands t ++ [command] in
  match t_answers t with
  | a :: answers => (a, mk_Transport answers sent)
  | [] => (Err (SlurmError "no answer"), mk_Transport [] sent)
  end.
Definition _whole_reading (command : pystr) : SE Transport pystr :=
  let! stdout := transport_exec (framed command) in
  match unframed stdout READ_END with
  | None => se_raise (SlurmError "truncated output")
  | Some body => se_ret (strip body)
  end.
Definition _read_scheduler (command : pystr) : SE Transport pystr :=
  try_slurm (_whole_reading command) (fun _ => _whole_reading command).

Definition job_id_ok (job_id : pystr) : bool := digits_text job_id && (length job_id <=? 32)%nat.
Definition _queue_state (job_id : pystr) : SE Transport pystr :=
  _read_scheduler (py "squeue -h -j " ++ job_id ++ py " -o '%T|%r|%S'").
Definition _queue_reading (life : JobLife) (queue : SlurmStatus) : SchedulerReading :=
  match queue with
  | InQueue row => mk_SchedulerReading life (q_reason row) (q_estimated_start row)
  | _ => mk_SchedulerReading life None None
  end.
Definition inspect_job (job_id : pystr) : SE Transport SchedulerReading :=
  if negb (job_id_ok job_id) then se_raise (SlurmError "invalid job id") else
  let! (queue_failure, queue) :=
    try_slurm (let! text := _queue_state job_id in se_ret (None, parse_queue_row text))
      (fun e => se_ret (Some e, NotInQueue)) in
  let! life := se_lift (observe INITIAL_LIFE queue) in
  if negb (needs_accounting life) then se_ret (_queue_reading life queue) else
  let! accounting :=
    try_slurm
      (let! text := _read_scheduler (py "sacct -n -P -X -j " ++ job_id ++ py " --format=State,ExitCode") in
       se_ret (Some text))
      (fun e => if bool_decide (life = Unknown None) then se_raise e else se_ret None) in
  match accounting with
  | None => se_ret (_queue_reading life queue)
  | Some text =>
    let! refined := se_lift (observe life (parse_accounting_row text)) in
    match queue_failure with
    | Some e => if bool_decide (refined = INITIAL_LIFE) then se_raise e else se_ret (_queue_reading refined queue)
    | None => se_ret (_queue_reading refined queue)
    end
  end.

(** ** What a sequence of readings amounts to

    [reference]: the first ending that no earlier reading has overtaken; without one, the reading
    furthest along, later attempts first; without a known one, the last text. *)

Definition life_leb (a b : JobLife) : bool :=
  (life_attempt a <? life_attempt b) || ((life_attempt a =? life_attempt b) && (_rank a <=? _rank b)).
Fixpoint first_end (before ls : list JobLife) : option JobLife :=
  match ls with
  | [] => None
  | l :: ls =>
    if is_ended l && forallb (fun b => is_unknown b || (life_attempt b <=? life_attempt l)) before then Some l
    else first_end (l :: before) ls
  end.
Definition newest (ls : list JobLife) : option JobLife :=
  find (fun l => negb (is_unknown l) && forallb (fun b => is_unknown b || life_leb b l) ls) ls.
Definition reference (ls : list JobLife) : JobLife :=
  match first_end [] ls with
  | Some l => l
  | None => match newest ls with Some l => l | None => default INITIAL_LIFE (last ls) end
  end.
(** What the readings say, one by one. *)
Definition reading (raw : SlurmStatus) : option JobLife := match _reading_life raw with Ok l => l | Err _ => None end.

Lemma reading_total raw : _reading_life raw = Ok (reading raw).
Proof.
  unfold reading. enough (is_ok (_reading_life raw) = true) as H by by destruct (_reading_life raw).
  destruct raw as [row|row| |]; cbn; try done; case_match; try done; by match goal with s : SlurmRawState |- _ => destruct s end.
Qed.
Lemma observe_reading prev raw : observe prev raw = Ok (match reading raw with None => prev | Some l => advance prev l end).
Proof. unfold observe, observe_with_notice. rewrite reading_total. cbn. by destruct (reading raw). Qed.
Lemma observe_all prev raws : foldM_result observe prev raws = Ok (fold_left advance (omap reading raws) prev).
Proof.
  revert prev. induction raws as [|raw raws IH]; intros prev; [done|]. cbn [foldM_result omap]. rewrite observe_reading. cbn.
  by destruct (reading raw); rewrite IH.
Qed.

Lemma elem_of_rev {A} (l : list A) x : x ∈ rev l <-> x ∈ l.
Proof. by rewrite !list_elem_of_In, <- in_rev. Qed.
Lemma first_end_snoc before ls x :
  first_end before (ls ++ [x]) =
  match first_end before ls with
  | Some l => Some l
  | None => if is_ended x && forallb (fun b => is_unknown b || (life_attempt b <=? life_attempt x)) (rev ls ++ before)
            then Some x else None
  end.
Proof.
  revert before. induction ls as [|l ls IH]; intros before; cbn [first_end app rev]; [by destruct (is_ended x && _)|].
  destruct (is_ended l && _); [done|]. rewrite IH. by rewrite <- app_assoc.
Qed.
Lemma first_end_ended before ls l : first_end before ls = Some l -> is_ended l = true.
Proof.
  revert before. induction ls as [|x ls IH]; intros before; cbn; [done|].
  destruct (is_ended x) eqn:E; cbn; [|apply IH]. destruct (forallb _ before); [by intros [= <-]|apply IH].
Qed.
(** Nothing in [before] is ahead of [l] in its attempt. *)
Lemma not_overtaken before l :
  forallb (fun b => is_unknown b || (life_attempt b <=? life_attempt l)) before = true
  <-> forall b, b ∈ before -> is_unknown b = false -> life_attempt b <= life_attempt l.
Proof.
  rewrite forallb_forall. split.
  - intros H b In U. specialize (H b). rewrite U in H. apply Z.leb_le, H. by apply list_elem_of_In.
  - intros H b In%list_elem_of_In. destruct (is_unknown b) eqn:U; [done|]. apply Z.leb_le. by apply H.
Qed.
Lemma life_leb_spec a b :
  life_leb a b = true <-> life_attempt a < life_attempt b \/ (life_attempt a = life_attempt b /\ _rank a <= _rank b).
Proof. unfold life_leb. rewrite orb_true_iff, andb_true_iff, Z.ltb_lt, Z.eqb_eq, Z.leb_le. done. Qed.

(** A life that is furthest along, and not an ending, is the newest. *)
Definition live (l : JobLife) : bool := negb (is_unknown l) && negb (is_ended l).
Definition furthest (l : JobLife) (ls : list JobLife) : Prop := forall b, b ∈ ls -> is_unknown b = false -> life_leb b l = true.
Lemma furthest_forallb l ls : forallb (fun b => is_unknown b || life_leb b l) ls = true <-> furthest l ls.
Proof.
  rewrite forallb_forall. split.
  - intros H b In U. specialize (H b). rewrite U in H. apply H. by apply list_elem_of_In.
  - intros H b In%list_elem_of_In. destruct (is_unknown b) eqn:U; [done|]. by apply H.
Qed.
Lemma live_same a b : live a = true -> life_attempt a = life_attempt b -> _rank a = _rank b -> a = b.
Proof. destruct a, b; cbn; intros; subst; done. Qed.
Lemma newest_furthest ls l : live l = true -> l ∈ ls -> furthest l ls -> newest ls = Some l.
Proof.
  intros Lv In F. unfold newest. assert (is_unknown l = false) as U by (unfold live in Lv; by destruct (is_unknown l)).
  destruct (find _ ls) as [m|] eqn:E.
  - apply find_Some_elem in E as [Im [Um Fm]%andb_true_iff]. apply furthest_forallb in Fm.
    f_equal. symmetry. apply live_same; [done|..];
      (pose proof (F m Im ltac:(by destruct (is_unknown m))) as A%life_leb_spec);
      (pose proof (Fm l In U) as B%life_leb_spec); lia.
  - pose proof (proj1 (find_None_elem _ _) E l In) as N. cbn beta in N. rewrite U in N.
    apply furthest_forallb in F. cbn [negb andb] in N. congruence.
Qed.

Lemma furthest_snoc ls r x : furthest r ls -> (is_unknown x = false -> life_leb x r = true) -> furthest r (ls ++ [x]).
Proof. intros F H b [In| ->%list_elem_of_singleton]%elem_of_app U; auto. Qed.

(** The held life, after any lives: an ending that counted, a live one, or only unknown ones. *)
Definition held (ls : list JobLife) (r : JobLife) : Prop :=
  match first_end [] ls with
  | Some l => r = l
  | None => (live r = true /\ r ∈ ls /\ furthest r ls)
            \/ ((forall b, b ∈ ls -> is_unknown b = true) /\ r = default INITIAL_LIFE (last ls))
  end.

Lemma held_reference ls r : held ls r -> r = reference ls.
Proof.
  unfold held, reference. destruct (first_end [] ls); [done|]. intros [(Lv & In & F)|[U ->]].
  - by rewrite (newest_furthest _ _ Lv In F).
  - unfold newest. assert (find (fun l => negb (is_unknown l) && forallb (fun b => is_unknown b || life_leb b l) ls) ls = None) as ->; [|done].
    apply find_None_elem. intros x In. by rewrite (U x In).
Qed.

Lemma live_rank r : live r = true -> is_unknown r = false /\ is_ended r = false /\ _rank r <= 2.
Proof. by destruct r; cbn; repeat split. Qed.
Lemma known_rank x : is_unknown x = false -> is_ended x = false -> live x = true.
Proof. by destruct x. Qed.
Lemma ended_rank x : is_ended x = true -> _rank x = 3 /\ is_unknown x = false.
Proof. by destruct x. Qed.

(** A known life that replaces a live one, or the unknown. *)
Lemma held_replaced ls x :
  first_end [] ls = None -> is_unknown x = false ->
  (forall b, b ∈ ls -> is_unknown b = false -> life_attempt b <= life_attempt x) ->
  (is_ended x = false -> furthest x ls) -> held (ls ++ [x]) x.
Proof.
  intros N U At F. unfold held. rewrite first_end_snoc, N, app_nil_r. destruct (is_ended x) eqn:E; cbn [andb].
  - replace (forallb _ (rev ls)) with true; [done|]. symmetry. apply not_overtaken. intros b In. apply At. by apply (proj1 (elem_of_rev _ _)).
  - left. split; [by apply known_rank|]. split; [apply elem_of_app; right; by apply list_elem_of_singleton|].
    apply furthest_snoc; [by apply F|]. intros _. apply life_leb_spec. lia.
Qed.
(** A known life that leaves the live one in place. *)
Lemma held_ignored ls r x :
  first_end [] ls = None -> live r = true -> r ∈ ls -> furthest r ls ->
  (is_unknown x = false -> life_leb x r = true /\ (is_ended x = true -> life_attempt x < life_attempt r)) -> held (ls ++ [x]) r.
Proof.
  intros N Lv In F H. unfold held. rewrite first_end_snoc, N, app_nil_r.
  replace (is_ended x && _) with false.
  - left. split; [done|]. split; [apply elem_of_app; by left|]. apply furthest_snoc; [done|]. intros U. by apply H.
  - symmetry. apply andb_false_iff. destruct (is_ended x) eqn:E; [right|by left]. destruct (ended_rank _ E) as [_ U].
    destruct (forallb _ (rev ls)) eqn:Fa; [|done]. pose proof (proj1 (not_overtaken _ _) Fa r) as A. clear Fa.
    destruct (live_rank _ Lv) as (Ur & _). apply H in U as [_ U]. specialize (U eq_refl). assert (r ∈ rev ls) as Ir by by apply elem_of_rev. specialize (A Ir Ur). lia.
Qed.

Lemma held_advance ls r x : held ls r -> held (ls ++ [x]) (advance r x).
Proof.
  intros H. unfold held in H. destruct (first_end [] ls) as [l|] eqn:N.
  { subst r. pose proof (first_end_ended _ _ _ N) as E. unfold held. rewrite first_end_snoc, N.
    destruct (ended_rank _ E) as [_ U]. unfold advance, advance_with_notice. rewrite U, E. by destruct (is_unknown x). }
  unfold advance, advance_with_notice. destruct H as [(Lv & In & F)|[U ->]].
  - destruct (live_rank _ Lv) as (Ur & Er & Rk). rewrite Ur, Er. destruct (is_unknown x) eqn:Ux; cbn [s_life].
    { apply held_ignored; try done. congruence. }
    unfold _join_live. destruct (Z.eqb_spec (life_attempt x) (life_attempt r)) as [Ea|Na]; cbn [negb].
    + destruct (Z.ltb_spec (_rank x) (_rank r)); cbn [s_life].
      * apply held_ignored; try done. intros _. split; [apply life_leb_spec; lia|]. intros [? _]%ended_rank. lia.
      * apply held_replaced; try done.
        -- intros b Ib Ub. specialize (F b Ib Ub). apply life_leb_spec in F. lia.
        -- intros _ b Ib Ub. specialize (F b Ib Ub). apply life_leb_spec in F. apply life_leb_spec. lia.
    + destruct (Z.ltb_spec (life_attempt x) (life_attempt r)); cbn [s_life].
      * apply held_ignored; try done. intros _. split; [apply life_leb_spec; lia|done].
      * apply held_replaced; try done.
        -- intros b Ib Ub. specialize (F b Ib Ub). apply life_leb_spec in F. lia.
        -- intros _ b Ib Ub. specialize (F b Ib Ub). apply life_leb_spec in F. apply life_leb_spec. lia.
  - assert (is_unknown (default INITIAL_LIFE (last ls)) = true) as ->.
    { destruct (last ls) eqn:L; [|done]. apply U. by apply last_Some_elem_of. }
    destruct (is_unknown x) eqn:Ux; cbn [s_life].
    + unfold held. rewrite first_end_snoc, N. replace (is_ended x) with false by by destruct x. cbn [andb]. right.
      split; [|by rewrite last_snoc]. intros b [Ib| ->%list_elem_of_singleton]%elem_of_app; auto.
    + apply held_replaced; try done; [|intros _]; intros b Ib Ub; rewrite (U b Ib) in Ub; done.
Qed.

(** C35. Whatever the readings of a job are and in whatever order they come, folding them with [observe]
    never raises and holds the life [reference] computes from all of them at once: the first ending no
    newer attempt has overtaken, which is final, or else the reading furthest along. *)
Theorem observe_computes_reference raws :
  foldM_result observe INITIAL_LIFE raws = Ok (reference (omap reading raws)).
Proof.
  rewrite observe_all. f_equal. apply held_reference. induction (omap reading raws) as [|x ls IH] using rev_ind.
  - right. split; [by intros b ?%elem_of_nil|done].
  - rewrite fold_left_app. by apply held_advance.
Qed.

(** ** Whole answers *)

Lemma after_prefix_Some p s rest : after_prefix p s = Some rest <-> s = p ++ rest.
Proof.
  revert s. induction p as [|a p IH]; intros s; cbn; [split; congruence|]. destruct s as [|b s]; [done|].
  destruct (N.eqb_spec a b) as [->|N]; [rewrite IH; split; congruence|]. split; [done|]. congruence.
Qed.
(** [rpartition] finds an occurrence, and the last one. *)
Lemma rpartition_app sep b r : rpartition sep (b ++ sep ++ r) <> None.
Proof.
  induction b as [|x b IH]; cbn.
  - pose proof (proj2 (after_prefix_Some sep _ r) eq_refl) as A.
    destruct (sep ++ r) as [|c s]; cbn; [by rewrite A|]. destruct (rpartition sep s) as [[]|]; [done|by rewrite A].
  - by destruct (rpartition sep (b ++ sep ++ r)) as [[]|].
Qed.
Lemma rpartition_Some sep s b r :
  rpartition sep s = Some (b, r) ->
  s = b ++ sep ++ r /\ forall b' r', s = b' ++ sep ++ r' -> (length b' <= length b)%nat.
Proof.
  revert b. induction s as [|c s IH]; intros b; cbn [rpartition].
  - destruct (after_prefix sep []) as [rest|] eqn:E; [|done]. intros [= <- <-]. apply after_prefix_Some in E.
    split; [done|]. intros b' r' E'. destruct b'; [cbn; lia|done].
  - destruct (rpartition sep s) as [[b1 r1]|] eqn:E.
    + intros [= <- <-]. destruct (IH _ eq_refl) as [-> H]. split; [done|]. intros [|c' b'] r' E'; [cbn; lia|].
      injection E' as <- E'. cbn. apply le_n_S. by eapply H.
    + destruct (after_prefix sep (c :: s)) as [rest|] eqn:A; [|done]. intros [= <- <-]. apply after_prefix_Some in A.
      split; [done|]. intros [|c' b'] r' E'; [cbn; lia|]. injection E' as <- ->. by apply rpartition_app in E.
Qed.

Definition whole (body : pystr) : pystr := body ++ READ_END ++ [10%N].
(** A body that holds whole lines, and nowhere the end line's text. *)
Definition clean_body (body : pystr) : bool :=
  (negb (str_truthy body) || ends_line body) && match rpartition READ_END body with None => true | Some _ => false end.

Lemma unframed_Some stdout end_ body : unframed stdout end_ = Some body -> stdout = body ++ end_ ++ [10%N].
Proof.
  unfold unframed. destruct (rpartition end_ stdout) as [[b r]|] eqn:E; [|done].
  destruct (pystr_eqb r [10%N]) eqn:R; [|done]. apply pystr_eqb_true in R as ->. cbn [negb orb].
  destruct (_ && _); [done|]. intros [= <-]. by apply rpartition_Some in E as [-> _].
Qed.

Lemma unframed_whole body : clean_body body = true -> unframed (whole body) READ_END = Some body.
Proof.
  intros [L N]%andb_true_iff. unfold unframed, whole.
  destruct (rpartition READ_END (body ++ READ_END ++ [10%N])) as [[b r]|] eqn:E; [|by apply rpartition_app in E].
  apply rpartition_Some in E as [E Last]. pose proof (Last _ _ eq_refl) as Le.
  assert (length b = length body) as Lb.
  { apply (f_equal length) in E as Len. rewrite !length_app in Len. cbn in Len.
    destruct (decide (length b = length body)) as [?|N1]; [done|]. exfalso.
    assert (length b = S (length body)) as L1 by lia. assert (r = []) as -> by (destruct r; cbn in Len; [done|lia]).
    apply (f_equal (drop (S (length body)))) in E. rewrite <- L1 in E at 2. rewrite drop_app_length in E.
    rewrite drop_app_ge in E by lia. replace (S (length body) - length body)%nat with 1%nat in E by lia. done. }
  apply app_inj_1 in E as [<- E]; [|done]. apply app_inj_1 in E as [_ <-]; [|done].
  cbn [pystr_eqb negb orb]. rewrite (proj2 (pystr_eqb_true _ _) eq_refl). cbn [negb orb].
  apply orb_true_iff in L as [L|L]; [by destruct body|]. rewrite L. by rewrite andb_false_r.
Qed.

Lemma no_newline_in_end i : READ_END !! i <> Some 10%N.
Proof. intros H. apply list_elem_of_lookup_2 in H. revert H. apply (bool_decide_eq_false (10%N ∈ READ_END)). by vm_compute. Qed.

Lemma unframed_cut body n : clean_body body = true -> (n < length (whole body))%nat -> unframed (take n (whole body)) READ_END = None.
Proof.
  intros [_ N]%andb_true_iff L. destruct (unframed _ _) as [b|] eqn:U; [|done]. exfalso. apply unframed_Some in U.
  apply (f_equal length) in U as Len. rewrite length_take, !length_app in Len. unfold whole in L. rewrite !length_app in L. cbn in L, Len.
  assert (whole body !! (length b + length READ_END)%nat = Some 10%N) as At.
  { rewrite <- (take_drop n (whole body)), U, lookup_app_l, lookup_app_r, lookup_app_r by (rewrite ?length_app; cbn; lia).
    replace (length b + length READ_END - length b - length READ_END)%nat with 0%nat by lia. done. }
  unfold whole in At. destruct (decide (length body <= length b + length READ_END)%nat) as [Ge|Lt].
  - rewrite lookup_app_r in At by lia. rewrite lookup_app_l in At by (cbn in *; lia). by apply no_newline_in_end in At.
  - assert (body = b ++ READ_END ++ drop (length b + length READ_END) body) as E.
    { rewrite <- (take_drop (length b + length READ_END) body) at 1. rewrite app_assoc. f_equal.
      apply (f_equal (take (length b + length READ_END))) in U. rewrite take_take in U.
      unfold whole in U. rewrite take_app_le in U by (cbn in *; lia).
      rewrite app_assoc, take_app_le in U by (rewrite length_app; lia).
      rewrite (take_ge (b ++ READ_END)) in U by (rewrite length_app; lia). rewrite <- U. f_equal. cbn in *; lia. }
    rewrite E in N. pose proof (rpartition_app READ_END b (drop (length b + length READ_END) body)) as Ne.
    by destruct (rpartition READ_END (b ++ _)).
Qed.

(** C36. A scheduler's answer that arrived whole is read as it was printed, and one that was cut off
    anywhere, even at the end of a line, is refused. *)
Theorem cut_answers_refused body :
  clean_body body = true ->
  unframed (whole body) READ_END = Some body
  /\ forall n, (n < length (whole body))%nat -> unframed (take n (whole body)) READ_END = None.
Proof. intros C. split; [by apply unframed_whole|]. intros n. by apply unframed_cut. Qed.
Lemma cut_answers_refused_witness :
  let body := py "RUNNING|None|N/A" ++ [10%N] in
  clean_body body = true /\ unframed (whole body) READ_END = Some body.
Proof. split; [by vm_compute|]. refine (proj1 (cut_answers_refused _ _)). by vm_compute. Defined.

(** ** The reading of a job *)

Arguments READ_END : simpl never.
(** The transport gave an answer that arrived whole, and [text] is what it says. *)
Definition told (t : Transport) (text : pystr) : Prop :=
  exists stdout body, Ok stdout ∈ t_answers t /\ unframed stdout READ_END = Some body /\ text = strip body.
Definition later_answers (t t' : Transport) : Prop := exists l, t_answers t = l ++ t_answers t'.
#[export] Instance later_answers_preorder : PreOrder later_answers.
Proof.
  split; [by intros t; exists []|]. intros t1 t2 t3 [l E] [l' E']. exists (l ++ l'). by rewrite E, E', app_assoc.
Qed.
Lemma told_earlier t t' text : later_answers t t' -> told t' text -> told t text.
Proof. intros [l E] (o & b & In & H). exists o, b. split; [|done]. rewrite E. apply elem_of_app. by right. Qed.

Lemma whole_reading_told command t r t' :
  _whole_reading command t = (r, t') -> later_answers t t' /\ forall text, r = Ok text -> told t text.
Proof.
  unfold _whole_reading, se_bind, transport_exec. destruct t as [[|a answers] sent]; cbn.
  { intros [= <- <-]. split; [by exists []|done]. }
  destruct a as [stdout|e]; cbn; [|intros [= <- <-]; split; [by exists [Err e]|done]].
  unfold se_ret, se_raise. destruct (unframed stdout READ_END) as [body|] eqn:U; intros [= <- <-]; (split; [by exists [Ok stdout]|]); [|done].
  intros text [= <-]. exists stdout, body. split; [by left|done].
Qed.
Lemma read_scheduler_told command t r t' :
  _read_scheduler command t = (r, t') -> later_answers t t' /\ forall text, r = Ok text -> told t text.
Proof.
  unfold _read_scheduler, try_slurm. destruct (_whole_reading command t) as [r1 t1] eqn:E.
  apply whole_reading_told in E as [L H]. destruct r1 as [text1|e]; [by intros [= <- <-]|].
  destruct (is_slurm_error e); [|intros [= <- <-]; by split].
  intros E. apply whole_reading_told in E as [L' H']. split; [by etrans|]. intros text Er. eapply told_earlier; eauto.
Qed.

(** What a text says of a job, as a line of the queue or as a row of the accounts. *)
Definition says (text : pystr) (l : JobLife) : Prop :=
  reading (parse_queue_row text) = Some l \/ reading (parse_accounting_row text) = Some l.
Lemma advance_either prev seen : advance prev seen = prev \/ advance prev seen = seen.
Proof. unfold advance, advance_with_notice, _join_live. repeat (case_match; cbn); auto. Qed.

(** The queue's part of [inspect_job]: what was parsed, or that nothing was. *)
Definition queue_seen (t : Transport) (queue : SlurmStatus) : Prop :=
  queue = NotInQueue \/ exists text, told t text /\ queue = parse_queue_row text.
Lemma queue_part job_id t r t' :
  try_slurm (let! text := _queue_state job_id in se_ret (None, parse_queue_row text))
    (fun e => se_ret (Some e, NotInQueue)) t = (r, t') ->
  later_answers t t' /\ forall failure queue, r = Ok (failure, queue) -> queue_seen t queue.
Proof.
  unfold try_slurm, se_bind, se_ret. destruct (_queue_state job_id t) as [r1 t1] eqn:E.
  apply read_scheduler_told in E as [L H]. destruct r1 as [text|e]; cbn.
  - intros [= <- <-]. split; [done|]. intros ? ? [= <- <-]. right. exists text. split; [by apply H|done].
  - destruct (is_slurm_error e); intros [= <- <-]; (split; [done|]); [|done]. intros ? ? [= <- <-]. by left.
Qed.
Lemma queue_seen_says t queue l :
  queue_seen t queue -> observe INITIAL_LIFE queue = Ok l -> l = INITIAL_LIFE \/ exists text, told t text /\ says text l.
Proof.
  rewrite observe_reading. intros Q [= E]. destruct Q as [->|(text & T & ->)]; [by left|].
  destruct (reading (parse_queue_row text)) as [x|] eqn:R; [|by left]. right. exists text. split; [done|]. left.
  rewrite R. f_equal. rewrite <- E. unfold advance, advance_with_notice. cbn. by destruct (is_unknown x).
Qed.

(** A reading of a job never guesses: what it says of the job is what one whole answer of the
    scheduler said, as a line of the queue or a row of the accounts; an answer that was lost or cut off
    leaves the job unknown or fails the reading. *)
Lemma inspect_says_what_was_read job_id t r t' :
  inspect_job job_id t = (Ok r, t') ->
  r_life r = INITIAL_LIFE \/ exists text, told t text /\ says text (r_life r).
Proof.
  unfold inspect_job, se_ret. destruct (job_id_ok job_id); cbn [negb]; [|done]. unfold se_bind at 1.
  destruct (try_slurm _ _ t) as [[[failure queue]|e] t1] eqn:Q; [|done]. apply queue_part in Q as [L1 Q].
  specialize (Q _ _ eq_refl). unfold se_bind at 1, se_lift at 1.
  destruct (observe INITIAL_LIFE queue) as [life|e] eqn:O; [|done]. pose proof (queue_seen_says _ _ _ Q O) as Sl.
  assert (forall queue', r_life (_queue_reading life queue') = life) as Rl by by intros [].
  destruct (needs_accounting life); cbn [negb]; [|unfold se_ret; intros [= <- <-]; by rewrite Rl].
  unfold se_bind at 1, try_slurm, se_bind at 1. destruct (_read_scheduler _ t1) as [ra t2] eqn:A.
  apply read_scheduler_told in A as [L2 A]. destruct ra as [text|e]; cbn.
  - rewrite observe_reading. cbn. specialize (A _ eq_refl).
    set (refined := match reading (parse_accounting_row text) with Some l => advance life l | None => life end).
    assert (refined = INITIAL_LIFE \/ exists text, told t text /\ says text refined) as Sr.
    { subst refined. destruct (reading (parse_accounting_row text)) as [l|] eqn:R; [|done].
      destruct (advance_either life l) as [->| ->]; [done|]. right. exists text. split; [by eapply told_earlier|by right]. }
    assert (forall queue', r_life (_queue_reading refined queue') = refined) as Rr by by intros [].
    destruct failure as [e|]; [case_bool_decide|]; [done|..]; (intros [= <- <-]; by rewrite Rr).
  - destruct (is_slurm_error e); [|done]. case_bool_decide; [done|]. intros [= <- <-]. by rewrite Rl.
Qed.
Definition two_answers : Transport :=
  mk_Transport [Ok (whole (py "COMPLETING|None|N/A" ++ [10%N])); Ok (whole (py "TIMEOUT|0:15" ++ [10%N]))] [].
Lemma inspect_says_what_was_read_witness :
  Ended O_TIMED_OUT 0 = INITIAL_LIFE \/ exists text, told two_answers text /\ says text (Ended O_TIMED_OUT 0).
Proof.
  refine (inspect_says_what_was_read (py "7") two_answers
    (mk_SchedulerReading (Ended O_TIMED_OUT 0) (Some (py "None")) None) (snd (inspect_job (py "7") two_answers)) _).
  by vm_compute.
Defined.
