(* ===== verification/SlurmTypes.v ===== *)
(** The values of the Slurm backend (vs_slurm/runner.py, cluster_types.py): batch requests, the handles
    by which a submitted job is reached, its collected results, and what a cluster answers. *)
From S2P Require Import Prelude Plan Floats SlurmStates.

(** ** Names and paths *)

Definition is_alnum (c : N) : bool :=
  ((48 <=? c) && (c <=? 57) || (65 <=? c) && (c <=? 90) || (97 <=? c) && (c <=? 122))%N.
Definition is_name_char (c : N) : bool := is_alnum c || bool_decide (c ∈ py "_.-").
(** [re.fullmatch("[A-Za-z0-9][A-Za-z0-9_.-]{0,n}", s)]. *)
Definition safe_name (n : nat) (s : pystr) : bool :=
  match s with c :: rest => is_alnum c && forallb is_name_char rest && (length rest <=? n)%nat | [] => false end.
Definition is_hex (c : N) : bool := ((48 <=? c) && (c <=? 57) || (97 <=? c) && (c <=? 102))%N.
(** [re.fullmatch("[0-9a-f]{64}", s)]. *)
Definition hex64 (s : pystr) : bool := forallb is_hex s && (length s =? 64)%nat.

(** A [PurePosixPath]: its root ("", "/", or "//" when exactly two slashes lead) and its parts after it. *)
Record PosixPath := mk_PosixPath { pp_root : pystr; pp_parts : list pystr }.
#[export] Instance PosixPath_eq_dec : EqDecision PosixPath.
Proof. solve_decision. Defined.
Definition path_root (s : pystr) : pystr :=
  match s with
  | 47%N :: 47%N :: 47%N :: _ => [47%N]
  | 47%N :: 47%N :: _ => [47%N; 47%N]
  | 47%N :: _ => [47%N]
  | _ => []
  end.
Definition posix_path (s : pystr) : PosixPath :=
  mk_PosixPath (path_root s)
    (List.filter (fun part => str_truthy part && negb (pystr_eqb part (py "."))) (split_on 47 s)).
Fixpoint join_on (sep : N) (parts : list pystr) : pystr :=
  match parts with
  | [] => []
  | [p] => p
  | p :: ps => p ++ sep :: join_on sep ps
  end.
Definition as_posix (p : PosixPath) : pystr :=
  match pp_root p, pp_parts p with [], [] => py "." | root, parts => root ++ join_on 47 parts end.
Definition is_absolute (p : PosixPath) : bool := str_truthy (pp_root p).
Definition path_name (p : PosixPath) : pystr := default [] (last (pp_parts p)).
Definition path_parent (p : PosixPath) : PosixPath := mk_PosixPath (pp_root p) (removelast (pp_parts p)).
Definition has_dots (parts : list pystr) : bool := existsb (fun p => bool_decide (p ∈ [py "."; py ".."])) parts.

Definition _safe_relative_path (value : pystr) (error : exn) : result PosixPath :=
  let path := posix_path value in
  if (bool_decide (pp_parts path = []) && negb (is_absolute path)) || is_absolute path
     || negb (pystr_eqb (as_posix path) value) || has_dots (pp_parts path)
  then Err error else Ok path.
Definition _normalized_remote_path (value : pystr) : result PosixPath :=
  let path := posix_path value in
  if negb (is_absolute path) || negb (pystr_eqb (as_posix path) value) || has_dots (pp_parts path)
  then Err (ValueError "" []) else Ok path.

(** [Model(...)]: the [ValueError] of a validator is a [ValidationError]. *)
Definition validated {A} (m : result A) : result A :=
  match m with Err e => if is_value_error e then Err (ValidationError "") else Err e | r => r end.

(** ** Requests *)

Definition _BATCH_RESULT_ROOT : pystr := py ".vibesys-slurm-results".

Record SlurmFileArtifact := mk_SlurmFileArtifact {
  f_remote_path : pystr; f_local_path : pystr; f_collect_on_failure : bool }.
Record SlurmTreeArtifact := mk_SlurmTreeArtifact { t_remote_path : pystr; t_local_path : pystr }.
Record SlurmBatchStage := mk_SlurmBatchStage {
  g_name : pystr;
  g_command : list pystr;
  g_timeout_seconds : option Z;
  g_file_artifacts : list SlurmFileArtifact;
  g_tree_artifacts : list SlurmTreeArtifact }.
(** [support_trees] is a mapping of relative paths to local ones; the service and the cancel event are
    for the job script and the caller, and no model here reads them. *)
Record SlurmBatchRequest := mk_SlurmBatchRequest {
  b_workspace : pystr;
  b_stages : list SlurmBatchStage;
  b_stop_on_failure : bool;
  b_setup_script : option pystr;
  b_support_trees : list (pystr * pystr) }.

(** Whether a path of this machine resolves to a directory. *)
Section Requests.
Variable is_dir : pystr -> bool.

Fixpoint for_all {A} (f : A -> result unit) (l : list A) : result unit :=
  match l with [] => Ok tt | x :: l => let* _ := f x in for_all f l end.

Definition invalid_artifact_path : exn := SlurmError "artifact path must be a safe relative path".
Definition artifact_path_ok (remote_path : pystr) : result unit :=
  let* path := _safe_relative_path remote_path invalid_artifact_path in
  raise invalid_artifact_path when bool_decide (head (pp_parts path) = Some _BATCH_RESULT_ROOT) in
  Ok tt.
Definition stage_artifacts (stage : SlurmBatchStage) : list pystr :=
  map f_remote_path (g_file_artifacts stage) ++ map t_remote_path (g_tree_artifacts stage).
Definition stage_ok (stage : SlurmBatchStage) : result unit :=
  raise (SlurmError "invalid command") when
    (match g_command stage with [] => true | parts => existsb (fun p => negb (str_truthy p)) parts end) in
  raise (SlurmError "invalid stage timeout") when (match g_timeout_seconds stage with Some t => t <=? 0 | None => false end) in
  for_all artifact_path_ok (stage_artifacts stage).
Fixpoint stages_ok (names : list pystr) (stages : list SlurmBatchStage) : result unit :=
  match stages with
  | [] => Ok tt
  | stage :: stages =>
    raise (SlurmError "invalid batch request") when
      (negb (safe_name 62 (g_name stage)) || bool_decide (g_name stage ∈ names)) in
    let* _ := stage_ok stage in
    stages_ok (g_name stage :: names) stages
  end.
(** [_validate_support], over the sorted items. *)
Definition support_le (a b : pystr * pystr) : bool := pystr_leb (fst a) (fst b).
Definition support_ok (item : pystr * pystr) : result unit :=
  let '(relative, local) := item in
  let* _ := _safe_relative_path relative (SlurmError "invalid support path") in
  raise (SlurmError "invalid support path") when (negb (is_dir local)) in
  Ok tt.
(** The part of [_validate_request] that a batch reaches: its command is fixed and it has no artifacts. *)
Definition request_ok (request : SlurmBatchRequest) : result unit :=
  raise (SlurmError "workspace is not a directory") when (negb (is_dir (b_workspace request))) in
  raise (SlurmError "invalid setup script") when
    (match b_setup_script request with
     | Some s => let p := posix_path s in negb (is_absolute p) || negb (pystr_eqb (as_posix p) s)
     | None => false
     end) in
  for_all support_ok (sort_by support_le (b_support_trees request)).
Definition _validate_batch_request (request : SlurmBatchRequest) : result (list SlurmBatchStage) :=
  raise (SlurmError "invalid batch request") when (bool_decide (b_stages request = [])) in
  let* _ := stages_ok [] (b_stages request) in
  let* _ := request_ok request in
  Ok (b_stages request).
End Requests.

(** ** Handles *)

Inductive ArtifactKind := K_file | K_tree.
#[export] Instance ArtifactKind_eq_dec : EqDecision ArtifactKind.
Proof. solve_decision. Defined.
Record SlurmArtifactTarget := mk_SlurmArtifactTarget {
  x_remote_path : pystr; x_local_path : pystr; x_kind : ArtifactKind; x_collect_on_failure : bool }.
#[export] Instance SlurmArtifactTarget_eq_dec : EqDecision SlurmArtifactTarget.
Proof. solve_decision. Defined.
Record SlurmJobHandle := mk_SlurmJobHandle {
  j_job_id : pystr;
  j_invocation_id : pystr;
  j_config_identity : pystr;
  j_remote_workspace : pystr;
  j_remote_status_path : pystr;
  j_remote_log_path : pystr;
  j_artifacts : list SlurmArtifactTarget;
  j_staging_seconds : float;
  j_content_cache_hits : Z }.
#[export] Instance SlurmJobHandle_eq_dec : EqDecision SlurmJobHandle.
Proof. solve_decision. Defined.
Record SlurmBatchStageHandle := mk_SlurmBatchStageHandle {
  k_name : pystr;
  k_file_artifacts : list SlurmArtifactTarget;
  k_tree_artifacts : list SlurmArtifactTarget }.
#[export] Instance SlurmBatchStageHandle_eq_dec : EqDecision SlurmBatchStageHandle.
Proof. solve_decision. Defined.
Record SlurmBatchHandle := mk_SlurmBatchHandle {
  h_job : SlurmJobHandle;
  h_stages : list SlurmBatchStageHandle;
  h_stop_on_failure : bool;
  h_submission_seconds : float;
  h_waited_seconds : float }.
#[export] Instance SlurmBatchHandle_eq_dec : EqDecision SlurmBatchHandle.
Proof. solve_decision. Defined.
Inductive ClusterHandle := JobHandle (h : SlurmJobHandle) | BatchHandle (h : SlurmBatchHandle).
#[export] Instance ClusterHandle_eq_dec : EqDecision ClusterHandle.
Proof. solve_decision. Defined.

(** The seconds a handle records are finite and not negative. *)
Definition seconds_ok (s : float) : bool := f_finite s && negb (f_lt s f_zero).
Definition validate_job_handle (h : SlurmJobHandle) : result SlurmJobHandle :=
  validated (
    raise (ValueError "" []) when (negb (job_id_ok (j_job_id h))) in
    raise (ValueError "" []) when (negb (safe_name 127 (j_invocation_id h))) in
    raise (ValueError "" []) when (negb (hex64 (j_config_identity h))) in
    let* workspace := _normalized_remote_path (j_remote_workspace h) in
    let* status := _normalized_remote_path (j_remote_status_path h) in
    let* log := _normalized_remote_path (j_remote_log_path h) in
    raise (ValueError "" []) when
      (negb (pystr_eqb (path_name workspace) (py "workspace"))
       || bool_decide (path_parent status <> path_parent workspace)
       || bool_decide (path_parent log <> path_parent workspace)
       || bool_decide (status = log)) in
    let* _ := for_all (fun a => let* _ := _safe_relative_path (x_remote_path a) invalid_artifact_path in Ok tt) (j_artifacts h) in
    raise (ValueError "" []) when (negb (seconds_ok (j_staging_seconds h))) in
    raise (ValueError "" []) when (j_content_cache_hits h <? 0) in
    Ok h).
Definition validate_stage_handle (h : SlurmBatchStageHandle) : result SlurmBatchStageHandle :=
  validated (
    raise (ValueError "" []) when (negb (safe_name 62 (k_name h))) in
    let* _ := for_all (fun a =>
      let* path := _safe_relative_path (x_remote_path a) invalid_artifact_path in
      raise (ValueError "" []) when (bool_decide (head (pp_parts path) = Some _BATCH_RESULT_ROOT)) in
      Ok tt) (k_file_artifacts h ++ k_tree_artifacts h) in
    Ok h).
Definition validate_batch_handle (h : SlurmBatchHandle) : result SlurmBatchHandle :=
  validated (
    raise (ValueError "" []) when (bool_decide (h_stages h = []) || negb (nodupb (map k_name (h_stages h)))) in
    raise (ValueError "" []) when (negb (seconds_ok (h_submission_seconds h)) || negb (seconds_ok (h_waited_seconds h))) in
    Ok h).

Definition stage_handle (stage : SlurmBatchStage) : SlurmBatchStageHandle :=
  mk_SlurmBatchStageHandle (g_name stage)
    (map (fun a => mk_SlurmArtifactTarget (f_remote_path a) (f_local_path a) K_file (f_collect_on_failure a)) (g_file_artifacts stage))
    (map (fun a => mk_SlurmArtifactTarget (t_remote_path a) (t_local_path a) K_tree false) (g_tree_artifacts stage)).
Definition batch_stage_handles (is_dir : pystr -> bool) (request : SlurmBatchRequest) : result (list SlurmBatchStageHandle) :=
  let* stages := _validate_batch_request is_dir request in
  mapM_result (fun stage => validate_stage_handle (stage_handle stage)) stages.

(** [job_handle] of cluster.py. *)
Definition job_handle (h : ClusterHandle) : SlurmJobHandle :=
  match h with JobHandle j => j | BatchHandle b => h_job b end.

(** ** Results *)

Record SlurmJobResult := mk_SlurmJobResult {
  jr_job_id : pystr; jr_exit_code : option Z; jr_output : pystr; jr_collection_failure : option pystr }.
Record SlurmBatchStageResult := mk_SlurmBatchStageResult {
  sr_name : pystr;
  sr_exit_code : option Z;
  sr_stdout : pystr;
  sr_stderr : pystr;
  sr_elapsed_seconds : option float;
  sr_skipped : bool;
  sr_artifacts : list SlurmArtifactTarget;
  sr_collection_failure : option pystr }.
Record SlurmBatchResult := mk_SlurmBatchResult {
  br_job_id : pystr;
  br_job_exit_code : option Z;
  br_job_output : pystr;
  br_stages : list SlurmBatchStageResult;
  br_phase_timings_seconds : list (pystr * float);
  br_content_cache_hits : Z;
  br_service_log_tail : pystr;
  br_collection_failure : option pystr }.
Inductive ClusterResult := JobResult (r : SlurmJobResult) | BatchResult (r : SlurmBatchResult).

Definition _MAX_PROCESS_EXIT_CODE : Z := 255.
Definition _valid_exit_status (value : option Z) : bool :=
  match value with Some v => (0 <=? v) && (v <=? _MAX_PROCESS_EXIT_CODE) | None => false end.
Definition result_stage_problem (stage : SlurmBatchStageResult) : option pystr :=
  match sr_collection_failure stage with
  | Some failure => Some failure
  | None =>
    if sr_skipped stage then
      match sr_exit_code stage with Some _ => Some (py "skipped stage has a contradictory exit status") | None => None end
    else if _valid_exit_status (sr_exit_code stage) then None
    else Some (py "missing or malformed stage exit status")
  end.
Fixpoint first_some {A B} (f : A -> option B) (l : list A) : option B :=
  match l with [] => None | x :: l => match f x with Some y => Some y | None => first_some f l end end.
Definition collection_problem (result : ClusterResult) : option pystr :=
  let '(code, failure) :=
    match result with
    | BatchResult r => (br_job_exit_code r, br_collection_failure r)
    | JobResult r => (jr_exit_code r, jr_collection_failure r)
    end in
  if negb (_valid_exit_status code) then Some (py "missing or malformed allocation exit status") else
  match failure with
  | Some failure => Some failure
  | None =>
    match result with
    | BatchResult r =>
      match br_stages r with [] => Some (py "missing stage evidence") | stages => first_some result_stage_problem stages end
    | JobResult _ => None
    end
  end.

(** ** What a cluster answers *)

Inductive ClusterSubmitOutcome :=
| ClusterSubmitted (operation_id : pystr) (handle : ClusterHandle)
| ClusterConflict (operation_id reason : pystr)
| ClusterRejected (operation_id reason : pystr)
| SubmitUnknown (reason : pystr).
Record ClusterObservation := mk_ClusterObservation {
  o_job_id : pystr;
  o_life : JobLife;
  o_pending_reason : option pystr;
  o_estimated_start : option pystr;
  o_handle : option ClusterHandle;
  o_completed_stages : option Z }.
Definition o_status (o : ClusterObservation) : SlurmJobStatus := status_of (o_life o).
Definition o_phase (o : ClusterObservation) : SlurmPhase := phase_of (o_life o).
(** The validator [_known_life]. *)
Definition observation_ok (o : ClusterObservation) : bool := negb (is_unknown (o_life o)).
Inductive ClusterInspectOutcome :=
| Observed (o : ClusterObservation)
| InspectUnknown (reason : pystr).
Inductive ClusterCancelOutcome :=
| CancelRequested (job_id : option pystr)
| CancelUnknown (reason : pystr).
Inductive ClusterCollectOutcome :=
| ClusterCollected (result : ClusterResult)
| CollectUnknown (reason : pystr) (result : option ClusterResult).
(** The validator [_complete_evidence]. *)
Definition collected_ok (c : ClusterCollectOutcome) : bool :=
  match c with
  | ClusterCollected r => match collection_problem r with Some _ => false | None => true end
  | CollectUnknown _ _ => true
  end.
