(* ===== verification/EvalLedger.v ===== *)
(** The evaluation ledger of a project (vs_slurm/ledger.py): its documents and their validation, the
    state machine of an attempt, how an attempt settles, the lease policy, and what a submission of a
    request does given what the ledger holds. *)
From S2P Require Import Prelude Plan Floats SlurmStates SlurmTypes.

(** ** Names *)

Definition LedgerError (text : pystr) : exn := OtherError "LedgerError" [AStr text].
Definition is_ledger_error (e : exn) : bool :=
  match e with OtherError c _ => String.eqb c "LedgerError" | _ => false end.
Definition validate_key (value : pystr) : result unit :=
  if hex64 value then Ok tt else Err (LedgerError (py "invalid evaluation ledger key")).
Definition validate_project (value : pystr) : result unit :=
  if safe_name 127 value then Ok tt else Err (LedgerError (py "invalid evaluation ledger project")).
Definition validate_holder (value : pystr) : result unit :=
  if safe_name 127 value then Ok tt else Err (LedgerError (py "invalid evaluation ledger holder")).

(** The identity under which the cluster runs an attempt. *)
Definition operation_of (key : pystr) (attempt : Z) : pystr :=
  py "ev-" ++ take 48 key ++ py "-" ++ int_str attempt.
Definition ledger_operation_id (key : pystr) (attempt : Z) : result pystr :=
  let* _ := validate_key key in Ok (operation_of key attempt).

(** ** Documents *)

Definition BATCH_RESULT_LAYOUT : Z := 1.
Record LedgerArtifact := mk_LedgerArtifact { la_remote_path : pystr; la_kind : ArtifactKind; la_collect_on_failure : bool }.
#[export] Instance LedgerArtifact_eq_dec : EqDecision LedgerArtifact.
Proof. solve_decision. Defined.
Record LedgerStage := mk_LedgerStage { ls_name : pystr; ls_artifacts : list LedgerArtifact }.
#[export] Instance LedgerStage_eq_dec : EqDecision LedgerStage.
Proof. solve_decision. Defined.
Record SubmitBoundJob := mk_SubmitBoundJob {
  sb_job_id : pystr;
  sb_config_identity : pystr;
  sb_remote_workspace : pystr;
  sb_remote_status_path : pystr;
  sb_remote_log_path : pystr;
  sb_stop_on_failure : bool;
  sb_stages : list LedgerStage;
  sb_result_layout : Z }.
#[export] Instance SubmitBoundJob_eq_dec : EqDecision SubmitBoundJob.
Proof. solve_decision. Defined.
(** The fields' constraints: a numeric job id of at most 32 digits and at least one stage. *)
Definition job_fields (j : SubmitBoundJob) : bool := job_id_ok (sb_job_id j) && negb (bool_decide (sb_stages j = [])).

Inductive LedgerState := SUBMITTING | SUBMITTED | L_COMPLETED | L_FAILED | WITHDRAWN.
#[export] Instance LedgerState_eq_dec : EqDecision LedgerState.
Proof. solve_decision. Defined.
Definition state_value (s : LedgerState) : pystr :=
  match s with
  | SUBMITTING => py "submitting" | SUBMITTED => py "submitted" | L_COMPLETED => py "completed"
  | L_FAILED => py "failed" | WITHDRAWN => py "withdrawn"
  end.
Definition _NEXT_STATES (s : LedgerState) : list LedgerState :=
  match s with
  | SUBMITTING => [SUBMITTED; L_FAILED; WITHDRAWN]
  | SUBMITTED => [L_COMPLETED; L_FAILED; WITHDRAWN]
  | L_COMPLETED => [WITHDRAWN]
  | L_FAILED | WITHDRAWN => []
  end.
Definition state_final (s : LedgerState) : bool := bool_decide (_NEXT_STATES s = []).
Definition state_settled (s : LedgerState) : bool :=
  match s with L_COMPLETED | L_FAILED | WITHDRAWN => true | _ => false end.
Definition _ENDED_WITH_REASON : list LedgerState := [L_FAILED; WITHDRAWN].
Definition _NAMES_A_JOB : list LedgerState := [SUBMITTED; L_COMPLETED].

Record LedgerLabels := mk_LedgerLabels { lb_candidate : option pystr; lb_workstream : option pystr }.
#[export] Instance LedgerLabels_eq_dec : EqDecision LedgerLabels.
Proof. solve_decision. Defined.
Record LedgerRecord := mk_LedgerRecord {
  l_key : pystr;
  l_project : pystr;
  l_attempt : Z;
  l_operation_id : pystr;
  l_owner : pystr;
  l_created_at : float;
  l_claim_expires_at : float;
  l_labels : LedgerLabels;
  l_state : LedgerState;
  l_job : option SubmitBoundJob;
  l_reason : option pystr }.
#[export] Instance eta_LedgerRecord : Eta LedgerRecord := fun x =>
  mk_LedgerRecord (l_key x) (l_project x) (l_attempt x) (l_operation_id x) (l_owner x) (l_created_at x)
    (l_claim_expires_at x) (l_labels x) (l_state x) (l_job x) (l_reason x).

(** The validator [_consistent]. *)
Definition record_consistent (r : LedgerRecord) : result unit :=
  let* _ := validate_key (l_key r) in
  let* _ := validate_project (l_project r) in
  let* _ := validate_holder (l_owner r) in
  let* operation_id := ledger_operation_id (l_key r) (l_attempt r) in
  raise (ValueError "operation_id must derive from the key and attempt" []) when
    (negb (pystr_eqb (l_operation_id r) operation_id)) in
  raise (ValueError "a submitting record names no job yet" []) when
    (bool_decide (l_state r = SUBMITTING) && match l_job r with Some _ => true | None => false end) in
  raise (ValueError "a submitted or completed record must name its job" []) when
    (bool_decide (l_state r ∈ _NAMES_A_JOB) && match l_job r with Some _ => false | None => true end) in
  raise (ValueError "a failed or withdrawn record, and only one, states why" []) when
    (negb (Bool.eqb (bool_decide (l_state r ∈ _ENDED_WITH_REASON)) (match l_reason r with Some _ => true | None => false end))) in
  Ok tt.
(** [LedgerRecord(...)]: the fields' constraints, then the validator. *)
Definition validate_record (r : LedgerRecord) : result LedgerRecord :=
  validated (
    raise (ValidationError "") when
      ((l_attempt r <? 0) || negb (opt_all job_fields (l_job r))) in
    let* _ := record_consistent r in
    Ok r).
Definition record_valid (r : LedgerRecord) : Prop := validate_record r = Ok r.

Record LedgerLease := mk_LedgerLease { le_holder : pystr; le_renewed_at : float; le_expires_at : float }.
Definition validate_lease (l : LedgerLease) : result LedgerLease :=
  let* _ := validate_holder (le_holder l) in Ok l.
Record UnreadableLease := mk_UnreadableLease { ul_holder : pystr; ul_written_at : float }.
Record LedgerEntry := mk_LedgerEntry {
  en_record : LedgerRecord;
  en_leases : list LedgerLease;
  en_revision : Z;
  en_unreadable_leases : list UnreadableLease;
  en_earlier : list LedgerRecord }.
Definition claim_window (e : LedgerEntry) : float :=
  f_sub (l_claim_expires_at (en_record e)) (l_created_at (en_record e)).

(** ** The state machine of an attempt *)

Definition illegal_transition (why : string) : exn := LedgerError (py why).
Definition same_identity (before after : LedgerRecord) : bool :=
  pystr_eqb (l_key before) (l_key after) && pystr_eqb (l_project before) (l_project after)
  && (l_attempt before =? l_attempt after) && pystr_eqb (l_operation_id before) (l_operation_id after)
  && pystr_eqb (l_owner before) (l_owner after) && f_eq (l_created_at before) (l_created_at after)
  && bool_decide (l_labels before = l_labels after).
Definition check_transition (before after : LedgerRecord) : result unit :=
  raise (illegal_transition "it changes the attempt's identity") when (negb (same_identity before after)) in
  raise (illegal_transition "the state machine does not allow it") when
    (negb (f_eq (l_claim_expires_at before) (l_claim_expires_at after))
     || bool_decide (l_state after ∉ _NEXT_STATES (l_state before))) in
  raise (illegal_transition "it changes the attempt's job") when
    (match l_job before with Some _ => bool_decide (l_job after <> l_job before) | None => false end) in
  Ok tt.
Definition transitioned (record : LedgerRecord) (state : LedgerState) (job : option SubmitBoundJob) (reason : option pystr) :
    result LedgerRecord :=
  let* after := validate_record (record <| l_state := state |>
                                        <| l_job := match job with Some _ => job | None => l_job record end |>
                                        <| l_reason := reason |>) in
  let* _ := check_transition record after in
  Ok after.

(** ** How an attempt settles *)

Definition SERVICE_NOT_READY_EXIT_CODE : Z := 70.
Definition STAGE_TIMEOUT_EXIT_CODES : list Z := [124; 137].
Definition _INTERRUPTED_EXIT_CODES : list Z := STAGE_TIMEOUT_EXIT_CODES ++ [143; SERVICE_NOT_READY_EXIT_CODE].
Record Settlement := mk_Settlement { st_state : LedgerState; st_reason : option pystr }.

Section Settlement.
(** [repr] of a stage's name. *)
Variable repr : pystr -> pystr.

Definition _stage_problem (name : pystr) (item : option SlurmBatchStageResult) : option pystr :=
  let left_none := Some (py "stage " ++ repr name ++ py " left no result") in
  match item with
  | None => left_none
  | Some item =>
    match sr_collection_failure item, sr_exit_code item with
    | Some _, _ => left_none
    | None, None => if sr_skipped item then None else left_none
    | None, Some code =>
      if bool_decide (code ∈ _INTERRUPTED_EXIT_CODES)
      then Some (py "stage " ++ repr name ++ py " timed out or was killed (exit code " ++ int_str code ++ py ")")
      else None
    end
  end.
(** [{stage.name: stage for stage in stages}.get(name)]: the last of a name. *)
Definition by_name (stages : list SlurmBatchStageResult) (name : pystr) : option SlurmBatchStageResult :=
  find_last (fun s => pystr_eqb (sr_name s) name) stages.
Definition stages_problem (result : SlurmBatchResult) (job : SubmitBoundJob) : option pystr :=
  first_some (fun stage => _stage_problem (ls_name stage) (by_name (br_stages result) (ls_name stage))) (sb_stages job).
Definition _unreusable (collected : ClusterCollectOutcome) (job : SubmitBoundJob) : option pystr :=
  let failed detail := Some (py "its results could not be collected: " ++ detail) in
  match collected with
  | CollectUnknown reason _ => failed reason
  | ClusterCollected (JobResult _) => failed (py "they are not a batch's")
  | ClusterCollected (BatchResult result) =>
    match br_collection_failure result with
    | Some failure => failed failure
    | None =>
      if bool_decide (br_job_exit_code result = Some 0) then stages_problem result job
      else Some (py "its batch exited with code " ++
                 match br_job_exit_code result with Some code => int_str code | None => py "None" end)
    end
  end.
Definition settlement (status : SlurmJobStatus) (collected : option ClusterCollectOutcome) (job : SubmitBoundJob) :
    option Settlement :=
  if negb (s_terminal status) then None else
  if negb (bool_decide (status = S_COMPLETED)) then
    Some (mk_Settlement L_FAILED (Some (py "job " ++ sb_job_id job ++ py " ended " ++ status_value status)))
  else
    match collected with
    | None | Some (CollectUnknown _ None) => None
    | Some collected =>
      match _unreusable collected job with
      | None => Some (mk_Settlement L_COMPLETED None)
      | Some problem => Some (mk_Settlement L_FAILED (Some (py "job " ++ sb_job_id job ++ py " finished, but " ++ problem)))
      end
    end.
End Settlement.

(** ** Stored documents

    A document is a line of JSON. Its decoding as an object, the comparison of its format version, and
    the fields pydantic reads from it are parameters; the version is checked before the fields, and the
    validators run on them. *)

Class LedgerCodec := {
  Document : Type;
  decode_object : pystr -> option Document;
  version_is : Document -> Z -> bool;
  record_fields : Document -> result LedgerRecord;
  lease_fields : Document -> result LedgerLease;
  dump_record : LedgerRecord -> pystr;
  dump_lease : LedgerLease -> pystr }.

Section Documents.
Context `{LedgerCodec}.

Definition LEDGER_FORMAT_VERSION : Z := 1.
Definition _decode {A} (text : pystr) (fields : Document -> result A) (validate : A -> result A) : result A :=
  match decode_object text with
  | None => Err (LedgerError (py "not a JSON object"))
  | Some document =>
    if negb (version_is document LEDGER_FORMAT_VERSION) then Err (LedgerError (py "unsupported format_version")) else
    match (let* x := fields document in validate x) with
    | Err e => Err (if is_value_error e then LedgerError (py "invalid fields") else e)
    | r => r
    end
  end.
Definition decode_record (text : pystr) : result LedgerRecord := _decode text record_fields validate_record.
Definition decode_lease (text : pystr) : result LedgerLease := _decode text lease_fields validate_lease.
Definition encode_record (r : LedgerRecord) : pystr := dump_record r ++ [10%N].
Definition encode_lease (l : LedgerLease) : pystr := dump_lease l ++ [10%N].
End Documents.

(** What is relied on of pydantic: the fields it reads from a record's own document are the record's.
    (A record it cannot read back, as one with an infinite time, is no exception.) *)
Class LedgerCodecLaws `{LedgerCodec} :=
  fields_of_dump : forall r d r', decode_object (encode_record r) = Some d -> record_fields d = Ok r' -> r' = r.

Lemma validate_record_same r r' : validate_record r = Ok r' -> r' = r.
Proof.
  unfold validate_record, validated. destruct (_ || _); [done|]. destruct (record_consistent r) as [[]|e]; cbn; [congruence|].
  by destruct (is_value_error e).
Qed.
Lemma decode_encoded `{LedgerCodecLaws} r r' : decode_record (encode_record r) = Ok r' -> r' = r /\ record_valid r.
Proof.
  unfold decode_record, _decode. destruct (decode_object _) as [d|] eqn:D; [|done]. destruct (negb _); [done|].
  destruct (record_fields d) as [x|e] eqn:F; cbn; [|done]. destruct (validate_record x) as [y|e] eqn:V; [|done].
  intros [= <-]. pose proof (validate_record_same _ _ V) as ->. assert (x = r) as -> by by eapply fields_of_dump.
  split; [done|exact V].
Qed.

(** ** The job of a record and its handle *)

Definition artifact_of (item : SlurmArtifactTarget) : LedgerArtifact :=
  mk_LedgerArtifact (x_remote_path item) (x_kind item) (x_collect_on_failure item).
Definition ledger_stage (stage : SlurmBatchStageHandle) : LedgerStage :=
  mk_LedgerStage (k_name stage) (map artifact_of (k_file_artifacts stage ++ k_tree_artifacts stage)).
Definition job_of_handle (handle : SlurmBatchHandle) : result SubmitBoundJob :=
  let job := mk_SubmitBoundJob (j_job_id (h_job handle)) (j_config_identity (h_job handle)) (j_remote_workspace (h_job handle))
    (j_remote_status_path (h_job handle)) (j_remote_log_path (h_job handle)) (h_stop_on_failure handle)
    (map ledger_stage (h_stages handle)) BATCH_RESULT_LAYOUT in
  raise (ValidationError "") when (negb (job_fields job)) in
  Ok job.
Definition handle_of_job (is_dir : pystr -> bool) (job : SubmitBoundJob) (operation_id : pystr) (request : SlurmBatchRequest) :
    result SlurmBatchHandle :=
  let* stages := batch_stage_handles is_dir request in
  raise (LedgerError (py "its stages differ from the request's")) when
    (bool_decide (map ledger_stage stages <> sb_stages job)) in
  let* locator := validate_job_handle (mk_SlurmJobHandle (sb_job_id job) operation_id (sb_config_identity job)
    (sb_remote_workspace job) (sb_remote_status_path job) (sb_remote_log_path job) [] f_zero 0) in
  validate_batch_handle (mk_SlurmBatchHandle locator stages (sb_stop_on_failure job) f_zero f_zero).

(** ** Leases *)

Record LedgerPolicy := mk_LedgerPolicy {
  lp_lease_seconds : float; lp_grace_seconds : float; lp_claim_seconds : float; lp_run_while_detached : bool }.
Definition policy_valid (p : LedgerPolicy) : bool :=
  f_gt (lp_lease_seconds p) f_zero && f_ge (lp_grace_seconds p) f_zero && f_gt (lp_claim_seconds p) f_zero.

Inductive LeaseVerdict := Leased (until : float) | Unleased (since : float).
Definition expiries (e : LedgerEntry) : list float :=
  map le_expires_at (en_leases e) ++ map (fun l => f_add (ul_written_at l) (claim_window e)) (en_unreadable_leases e).
Definition lease_verdict (e : LedgerEntry) (now grace_seconds : float) : LeaseVerdict :=
  let expired_at := match expiries e with [] => l_created_at (en_record e) | x :: l => f_max x l end in
  let until := f_add expired_at grace_seconds in
  if f_le now until then Leased until else Unleased expired_at.

Definition renewals (e : LedgerEntry) : list float :=
  let owner := l_owner (en_record e) in
  map le_renewed_at (List.filter (fun l => pystr_eqb (le_holder l) owner) (en_leases e))
  ++ map ul_written_at (List.filter (fun l => pystr_eqb (ul_holder l) owner) (en_unreadable_leases e)).
Definition claim_expired (e : LedgerEntry) (now : float) : bool :=
  let renewed := f_max (l_created_at (en_record e)) (renewals e) in
  f_gt now (f_max (l_claim_expires_at (en_record e)) [f_add renewed (claim_window e)]).

(** ** What a submission does *)

Inductive SubmitStep :=
| AttachJob (record : LedgerRecord)
| CheckJob (entry : LedgerEntry)
| ResolveSubmission (entry : LedgerEntry) (expired : bool)
| ClaimAttempt (attempt : Z).
Definition submit_step (entry : option LedgerEntry) (now : float) : SubmitStep :=
  match entry with
  | None => ClaimAttempt 0
  | Some entry =>
    let record := en_record entry in
    match l_state record with
    | L_COMPLETED => AttachJob record
    | SUBMITTED => CheckJob entry
    | SUBMITTING => ResolveSubmission entry (claim_expired entry now)
    | L_FAILED | WITHDRAWN => ClaimAttempt (l_attempt record + 1)
    end
  end.
