(* ===== verification/EvalStore.v ===== *)
(** The stored evaluation ledger (vs_slurm/fake_ledger.py; vs_slurm/ledger_store.py keeps the same
    documents as files): every process of a project reads and writes it. A revision of a record is
    created at most once and never changed; a call of the ledger may fail before or after its effect. *)
From S2P Require Import Prelude Plan Floats Coroutines Processes SlurmStates SlurmTypes EvalLedger.
Open Scope coro_scope.

(** ** State *)

(** What a [SlurmLedgerAttachment] keeps, its [OrphanChecks] included. *)
Record Attachment := mk_Attachment {
  at_renewed : gmap pystr float;
  at_swept_at : option float;
  at_first_seen : gmap pystr float;
  at_done : gset pystr }.
#[export] Instance eta_Attachment : Eta Attachment := fun x =>
  mk_Attachment (at_renewed x) (at_swept_at x) (at_first_seen x) (at_done x).

(** What the cluster was asked, and its answer: a submission with the record of the attempt it submits,
    a cancellation with whether it withdraws the attempt. *)
Inductive ClusterCall :=
| Submitted (task : nat) (record : LedgerRecord) (outcome : ClusterSubmitOutcome)
| Inspected (operation_id : pystr) (outcome : ClusterInspectOutcome)
| CancelAsked (withdrawing : bool) (operation_id : pystr) (outcome : ClusterCancelOutcome).

(** The documents of the project, what its runs keep, and what was seen: the calls of the cluster, what
    the calls of [settle] were given, and how often the clock was read. A document is named by the model
    it encodes; a reader decodes its text. *)
Record Ledger := mk_Ledger {
  lg_records : gmap pystr (gmap (Z * Z) LedgerRecord);
  lg_leases : gmap pystr (gmap pystr (LedgerLease * float));
  lg_attachments : gmap nat Attachment;
  lg_calls : list ClusterCall;
  lg_settling : list (pystr * SlurmJobStatus * option ClusterCollectOutcome);
  lg_readings : nat }.
#[export] Instance eta_Ledger : Eta Ledger := fun x =>
  mk_Ledger (lg_records x) (lg_leases x) (lg_attachments x) (lg_calls x) (lg_settling x) (lg_readings x).
Definition empty_ledger : Ledger := mk_Ledger ∅ ∅ ∅ [] [] 0.

(** ** Calls of a process *)

Inductive WithdrawOutcome :=
| Withdrawn (key operation_id : pystr) (cancelled_job : option pystr) (already : bool)
| Kept (key operation_id : pystr)
| NotInLedger (key : pystr)
| WithdrawUnknown (key reason : pystr).
Inductive Reply :=
| R_none
| R_attached (key operation_id : pystr) (handle : SlurmBatchHandle)
| R_pending (key reason : pystr)
| R_withdraw (outcome : WithdrawOutcome)
| R_swept (outcomes : list WithdrawOutcome).
(** [run] is the run whose attachment is used. *)
Inductive Job :=
| J_attach (run : nat) (request : SlurmBatchRequest) (labels : LedgerLabels) (key : pystr)
| J_renew (run : nat) (key : pystr)
| J_release (run : nat) (key : pystr)
| J_heartbeat (run : nat) (key operation_id : pystr)
| J_settle (key operation_id : pystr) (status : SlurmJobStatus) (collected : option ClusterCollectOutcome)
| J_sweep (run : nat)
| J_withdraw (key reason : pystr).

Abbreviation prog := (coro Ledger Job Reply).

Definition is_ledger_exc (e : Exc) : bool := match e with Error name _ => pystr_eqb name (py "LedgerError") | _ => false end.
Definition ledger_exc (text : pystr) : Exc := exc_of (LedgerError text).

(** A step of outside code. A transport that fails raises [LedgerError]. *)
Definition transport_failed (_ : Exc) : Exc := ledger_exc (py "evaluation ledger operation failed").
Definition step {R} (f : Ledger -> R * Ledger) : prog R := outside transport_failed f.
(** A write and the way back to its caller, which may be lost. *)
Definition write {R} (f : Ledger -> R * Ledger) : prog R := outside_and_back transport_failed f.

(** ** Reading *)

Section Store.
Context `{LedgerCodec}.

Definition unreadable (why : string) : exn := LedgerError (py why).
Definition decode_revision (key : pystr) (x : Z * Z * LedgerRecord) : result (Z * (Z * LedgerRecord)) :=
  let '((attempt, revision), document) := x in
  let* record := decode_record (encode_record document) in
  raise (unreadable "the record names another key or attempt") when
    (negb (pystr_eqb (l_key record) key) || negb (l_attempt record =? attempt)) in
  Ok (attempt, (revision, record)).
(** The latest revision of each attempt. *)
Definition newer (latest : gmap Z (Z * LedgerRecord)) (x : Z * (Z * LedgerRecord)) : gmap Z (Z * LedgerRecord) :=
  let '(attempt, (revision, record)) := x in
  match latest !! attempt with
  | Some (held, _) => if held <? revision then <[attempt := (revision, record)]> latest else latest
  | None => <[attempt := (revision, record)]> latest
  end.
Definition by_attempt (a b : Z * (Z * LedgerRecord)) : bool := fst a <=? fst b.
Definition read_records (key : pystr) (revisions : gmap (Z * Z) LedgerRecord) : result (option (LedgerRecord * Z * list LedgerRecord)) :=
  let* decoded := mapM_result (decode_revision key) (map_to_list revisions) in
  let attempts := sort_by by_attempt (map_to_list (fold_left newer decoded ∅)) in
  Ok match last attempts with
     | None => None
     | Some (_, (revision, current)) => Some (current, revision, map (fun x => snd (snd x)) (removelast attempts))
     end.
Definition by_holder (a b : pystr * (LedgerLease * float)) : bool := pystr_leb (fst a) (fst b).
Fixpoint read_leases (leases : list (pystr * (LedgerLease * float))) : result (list LedgerLease * list UnreadableLease) :=
  match leases with
  | [] => Ok ([], [])
  | (holder, (document, written_at)) :: leases =>
    let* (readable, unreadable) := read_leases leases in
    match decode_lease (encode_lease document) with
    | Ok lease => Ok (lease :: readable, unreadable)
    | Err e => if is_ledger_error e then Ok (readable, mk_UnreadableLease holder written_at :: unreadable) else Err e
    end
  end.
Definition read_entry (key : pystr) (revisions : gmap (Z * Z) LedgerRecord) (leases : gmap pystr (LedgerLease * float)) : result (option LedgerEntry) :=
  if bool_decide (revisions = ∅) then Ok None else
  let* found := read_records key revisions in
  match found with
  | None => Ok None
  | Some (current, revision, earlier) =>
    let* (readable, unreadable) := read_leases (sort_by by_holder (map_to_list leases)) in
    Ok (Some (mk_LedgerEntry current readable revision unreadable earlier))
  end.

Definition revisions_of (key : pystr) (s : Ledger) : gmap (Z * Z) LedgerRecord := default ∅ (lg_records s !! key).
Definition leases_of (key : pystr) (s : Ledger) : gmap pystr (LedgerLease * float) := default ∅ (lg_leases s !! key).
Definition ledger_read (key : pystr) : prog (option LedgerEntry) :=
  lift (validate_key key) ;;;
  await revisions := step (fun s => (revisions_of key s, s)) in
  await leases := step (fun s => (leases_of key s, s)) in
  lift (read_entry key revisions leases).

(** ** Writing *)

(** [_create]: a revision is stored unless it exists. *)
Definition create_revision (record : LedgerRecord) (revision : Z) (s : Ledger) : bool * Ledger :=
  let revisions := revisions_of (l_key record) s in
  match revisions !! (l_attempt record, revision) with
  | Some _ => (false, s)
  | None =>
    (true, s <| lg_records :=
      <[l_key record := <[(l_attempt record, revision) := record]> revisions]> (lg_records s) |>)
  end.
Definition _create (record : LedgerRecord) (revision : Z) : prog bool :=
  lift (validate_key (l_key record)) ;;;
  write (create_revision record revision).
Definition ledger_claim (record : LedgerRecord) : prog LedgerRecord :=
  await created := _create record 0 in
  if (created : bool) then Ret record else
  await entry := ledger_read (l_key record) in
  match entry with
  | Some entry =>
    if l_attempt (en_record entry) <? l_attempt record
    then Raise (ledger_exc (py "the request was claimed but cannot be read")) else Ret (en_record entry)
  | None => Raise (ledger_exc (py "the request was claimed but cannot be read"))
  end.
Definition ledger_replace (current : LedgerEntry) (record : LedgerRecord) : prog bool :=
  lift (check_transition (en_record current) record) ;;;
  _create record (en_revision current + 1).
Definition ledger_renew (key : pystr) (lease : LedgerLease) : prog unit :=
  lift (validate_key key) ;;;
  lift (validate_holder (le_holder lease)) ;;;
  write (fun s => (tt, s <| lg_leases :=
    <[key := <[le_holder lease := (lease, le_renewed_at lease)]> (leases_of key s)]> (lg_leases s) |>)).
Definition ledger_release (key holder : pystr) : prog unit :=
  lift (validate_key key) ;;;
  lift (validate_holder holder) ;;;
  write (fun s => (tt, s <| lg_leases := alter (delete holder) key (lg_leases s) |>)).
(** Keys in order; the ledger of a project. *)
Definition list_keys : prog (list pystr) :=
  step (fun s => (sort_by pystr_leb (map fst (map_to_list (lg_records s))), s)).
End Store.
