(* ===== verification/EvalProcs.v ===== *)
(** What runs and operators do with the evaluation ledger: withdrawing, settling and sweeping requests
    (vs_slurm/ledger_actions.py) and a run's attachment to its project's ledger
    (vs_sandbox/slurm_ledger.py). The cluster is a port: what it answers is arbitrary, and recorded. The texts of
    some errors are abbreviated: no step depends on them. *)
From Stdlib Require Import SpecFloat.
From S2P Require Import Prelude Plan Floats Coroutines Processes SlurmStates SlurmTypes EvalLedger EvalStore.
Open Scope coro_scope.

Section Procs.
Context `{LedgerCodec}.
(** The clock and the cluster, by how often they were asked before. *)
Variable clock : nat -> float.
Variable inspected : nat -> pystr -> ClusterInspectOutcome.
Variable cancelled : nat -> pystr -> ClusterCancelOutcome.
Variable submitted : nat -> SlurmBatchRequest -> pystr -> ClusterSubmitOutcome.
(** The project, each run's name and policy, [repr], and the directories of this machine. *)
Variable project : pystr.
Variable holder : nat -> pystr.
Variable policy : nat -> LedgerPolicy.
Variable repr : pystr -> pystr.
Variable is_dir : pystr -> bool.

Definition clock_now : prog float :=
  eff (Sync (fun _ s => (Ans (clock (lg_readings s)), s <| lg_readings := S (lg_readings s) |>, None))).

(** The cluster answers in its own time, and never raises. *)
Definition cluster_step {R} (answer_of : nat -> R) (call : R -> ClusterCall) : prog R :=
  eff (Suspend true (fun c s =>
    match c with
    | C_ok => let r := answer_of (length (lg_calls s)) in Some (Ans r, s <| lg_calls := lg_calls s ++ [call r] |>)
    | _ => None
    end)).
Definition cluster_inspect (operation_id : pystr) : prog ClusterInspectOutcome :=
  cluster_step (fun n => inspected n operation_id) (Inspected operation_id).
Definition cluster_cancel (withdrawing : bool) (operation_id : pystr) : prog ClusterCancelOutcome :=
  cluster_step (fun n => cancelled n operation_id) (CancelAsked withdrawing operation_id).
Definition cluster_submit (me : nat) (request : SlurmBatchRequest) (record : LedgerRecord) : prog ClusterSubmitOutcome :=
  cluster_step (fun n => submitted n request (l_operation_id record)) (Submitted me record).

(** [try: p except LedgerError]. *)
Definition except_ledger {A} (p : prog A) (k : Exc -> prog A) : prog A := except is_ledger_exc p k.
Definition text_of (e : Exc) : pystr := match e with Error _ text => text | _ => [] end.

(** [f"{x:.0f}"] of a period. *)
Definition format_0f (x : float) : pystr :=
  match x with
  | S754_nan => py "nan"
  | S754_infinity s => if s then py "-inf" else py "inf"
  | S754_zero s => (if s then py "-" else []) ++ py "0"
  | S754_finite s m e =>
    let units :=
      if 0 <=? e then Zpos m * 2 ^ e else
      let d := 2 ^ (- e) in
      let q := Zpos m / d in
      match 2 * (Zpos m mod d) ?= d with Lt => q | Gt => q + 1 | Eq => if Z.even q then q else q + 1 end in
    (if s then py "-" else []) ++ int_str units
  end.

(** ** Withdrawing (ledger_actions.py) *)

Definition _ROUNDS : nat := 8.
(** [inl] is the job cancelled, if known; [inr] the reason why nothing was established. *)
Definition ask_cancel (operation_id : pystr) (known : option pystr) : prog (option pystr + pystr) :=
  await asked := cluster_cancel true operation_id in
  Ret (match asked with
       | CancelUnknown reason => inr reason
       | CancelRequested job => inl (str_or job known)
       end).
Definition _cancel_live (record : LedgerRecord) : prog (option pystr + pystr) :=
  if state_settled (l_state record) then Ret (inl None) else
  let operation_id := l_operation_id record in
  await observed := cluster_inspect operation_id in
  match observed with
  | Observed o => if s_terminal (o_status o) then Ret (inl None) else ask_cancel operation_id (Some (o_job_id o))
  | InspectUnknown reason =>
    if bool_decide (l_state record = SUBMITTING) then ask_cancel operation_id None else Ret (inr reason)
  end.
Definition withdraw_entry (key reason : pystr) (still : LedgerEntry -> bool) (entry : LedgerEntry) : prog (option WithdrawOutcome) :=
  let record := en_record entry in
  if negb (still entry) then Ret (Some (Kept key (l_operation_id record))) else
  if state_final (l_state record) then Ret (Some (Withdrawn key (l_operation_id record) None true)) else
  await live := _cancel_live record in
  match live with
  | inr why => Ret (Some (WithdrawUnknown key why))
  | inl job =>
    await after := lift (transitioned record WITHDRAWN None (Some reason)) in
    await won := ledger_replace entry after in
    Ret (if (won : bool) then Some (Withdrawn key (l_operation_id record) job false) else None)
  end.
Definition _withdraw_once (key reason : pystr) (still : LedgerEntry -> bool) : prog (option WithdrawOutcome) :=
  except_ledger
    (await entry := ledger_read key in
     match entry with
     | None => Ret (Some (NotInLedger key))
     | Some entry => withdraw_entry key reason still entry
     end)
    (fun e => Ret (Some (WithdrawUnknown key (text_of e)))).
Fixpoint withdraw_rounds (n : nat) (key reason : pystr) (still : LedgerEntry -> bool) : prog WithdrawOutcome :=
  match n with
  | O => Ret (WithdrawUnknown key (py "the request kept changing while it was withdrawn"))
  | S n =>
    await outcome := _withdraw_once key reason still in
    match outcome with Some outcome => Ret outcome | None => withdraw_rounds n key reason still end
  end.
Definition withdraw (key reason : pystr) (still : LedgerEntry -> bool) : prog WithdrawOutcome :=
  withdraw_rounds _ROUNDS key reason still.

(** ** Settling *)

Definition settle (entry : LedgerEntry) (status : SlurmJobStatus) (collected : option ClusterCollectOutcome) : prog bool :=
  let record := en_record entry in
  match l_state record, l_job record with
  | SUBMITTED, Some job =>
    match settlement repr status collected job with
    | None => Ret false
    | Some settled =>
      await after := lift (transitioned record (st_state settled) None (st_reason settled)) in
      ledger_replace entry after
    end
  | _, _ => Ret false
  end.

(** ** Sweeping *)

(** [OrphanChecks], of run [run]. *)
Definition new_attachment : Attachment := mk_Attachment ∅ None ∅ ∅.
Definition attachment (run : nat) (s : Ledger) : Attachment := default new_attachment (lg_attachments s !! run).
Definition set_attachment (run : nat) (a : Attachment) (s : Ledger) : Ledger :=
  s <| lg_attachments := <[run := a]> (lg_attachments s) |>.
Definition checks_ended (operation_id : pystr) (a : Attachment) : Attachment :=
  a <| at_first_seen := delete operation_id (at_first_seen a) |> <| at_done := {[operation_id]} ∪ at_done a |>.
Definition checks_due (window : float) (operation_id : pystr) (now : float) (a : Attachment) : bool * Attachment :=
  if decide (operation_id ∈ at_done a) then (false, a) else
  let first := default now (at_first_seen a !! operation_id) in
  let a := a <| at_first_seen := <[operation_id := first]> (at_first_seen a) |> in
  if f_le (f_sub now first) window then (true, a) else (false, checks_ended operation_id a).

Definition orphan_check (run : nat) (now : float) (record : LedgerRecord) : prog (list WithdrawOutcome) :=
  let operation_id := l_operation_id record in
  if negb (bool_decide (l_state record ∈ [L_FAILED; WITHDRAWN])) || match l_job record with Some _ => true | None => false end
  then Ret [] else
  await due := eff (Sync (fun _ s =>
    let '(due, a) := checks_due (lp_claim_seconds (policy run)) operation_id now (attachment run s) in
    (Ans due, set_attachment run a s, None))) in
  if negb due then Ret [] else
  await observed := cluster_inspect operation_id in
  match observed with
  | InspectUnknown _ => Ret []
  | Observed o =>
    if s_terminal (o_status o) then
      modify (fun s => set_attachment run (checks_ended operation_id (attachment run s)) s) ;;;
      Ret []
    else
      await asked := cluster_cancel false operation_id in
      Ret (match asked with
           | CancelUnknown reason => [WithdrawUnknown (l_key record) reason]
           | CancelRequested job => [Withdrawn (l_key record) operation_id (str_or job (Some (o_job_id o))) true]
           end)
  end.
Fixpoint _cancel_orphans (run : nat) (now : float) (records : list LedgerRecord) : prog (list WithdrawOutcome) :=
  match records with
  | [] => Ret []
  | record :: records =>
    await some := orphan_check run now record in
    await others := _cancel_orphans run now records in
    Ret (some ++ others)
  end.

Definition sweepable (now grace_seconds : float) (entry : LedgerEntry) : bool :=
  negb (state_settled (l_state (en_record entry)))
  && match lease_verdict entry now grace_seconds with Unleased _ => true | Leased _ => false end.
Definition _sweep_one (key reason : pystr) (entry : LedgerEntry) (still : LedgerEntry -> bool) : prog (option WithdrawOutcome) :=
  let go :=
    await outcome := withdraw key reason still in
    Ret (match outcome with Kept _ _ => None | outcome => Some outcome end) in
  if negb (bool_decide (l_state (en_record entry) = SUBMITTED)) then go else
  await observed := cluster_inspect (l_operation_id (en_record entry)) in
  match observed with
  | Observed o =>
    if s_terminal (o_status o) then
      except_ledger (await _ := settle entry (o_status o) None in Ret None)
        (fun e => Ret (Some (WithdrawUnknown key (text_of e))))
    else go
  | InspectUnknown _ => go
  end.
Definition sweep_key (run : nat) (now : float) (key : pystr) : prog (list WithdrawOutcome) :=
  let grace_seconds := lp_grace_seconds (policy run) in
  await entry :=
    except_ledger (await entry := ledger_read key in Ret (inl entry)) (fun e => Ret (inr (WithdrawUnknown key (text_of e)))) in
  match entry with
  | inr outcome => Ret [outcome]
  | inl None => Ret []
  | inl (Some entry) =>
    await orphans := _cancel_orphans run now (en_earlier entry ++ [en_record entry]) in
    if sweepable now grace_seconds entry then
      await outcome := _sweep_one key (py "no run leased it for " ++ format_0f grace_seconds ++ py " s") entry (sweepable now grace_seconds) in
      Ret (orphans ++ match outcome with Some o => [o] | None => [] end)
    else Ret orphans
  end.
Fixpoint sweep_keys (run : nat) (now : float) (keys : list pystr) : prog (list WithdrawOutcome) :=
  match keys with
  | [] => Ret []
  | key :: keys =>
    await some := sweep_key run now key in
    await others := sweep_keys run now keys in
    Ret (some ++ others)
  end.
Definition sweep_unleased (run : nat) (now : float) : prog (list WithdrawOutcome) :=
  await keys := list_keys in
  sweep_keys run now keys.

(** ** A run's attachment (vs_sandbox/slurm_ledger.py) *)

Definition _ATTACH_ROUNDS : nat := 8.
Definition LedgerWithdrawnError (key : pystr) (reason : option pystr) : Exc :=
  Error (py "LedgerWithdrawnError") (py "evaluation ledger request " ++ take 12 key ++ py " was withdrawn: "
    ++ default [] (str_or reason (Some (py "no reason")))).
Definition unknown_layout (layout : Z) : Exc := Error (py "LedgerAttachError") (int_str layout).
Definition SlurmSubmissionRejectedError (reason : pystr) : Exc := Error (py "SlurmSubmissionRejectedError") reason.

Definition renew (run : nat) (key : pystr) : prog unit :=
  await now := clock_now in
  await lease := lift (validate_lease (mk_LedgerLease (holder run) now (f_add now (lp_lease_seconds (policy run))))) in
  ledger_renew key lease ;;;
  modify (fun s => let a := attachment run s in set_attachment run (a <| at_renewed := <[key := now]> (at_renewed a) |>) s).
Definition release (run : nat) (key : pystr) : prog unit :=
  ledger_release key (holder run) ;;;
  modify (fun s => let a := attachment run s in set_attachment run (a <| at_renewed := delete key (at_renewed a) |>) s).

Definition sweep_if_due (run : nat) : prog (list WithdrawOutcome) :=
  await now := clock_now in
  await due := eff (Sync (fun _ s =>
    let a := attachment run s in
    match at_swept_at a with
    | Some swept_at =>
      if f_lt (f_sub now swept_at) (lp_lease_seconds (policy run)) then (Ans false, s, None)
      else (Ans true, set_attachment run (a <| at_swept_at := Some now |>) s, None)
    | None => (Ans true, set_attachment run (a <| at_swept_at := Some now |>) s, None)
    end)) in
  if (due : bool) then sweep_unleased run now else Ret [].
Definition heartbeat (run : nat) (key operation_id : pystr) : prog unit :=
  await now := clock_now in
  await last := get (fun s => at_renewed (attachment run s) !! key) in
  (if match last with Some last => f_ge (f_sub now last) (f_div (lp_lease_seconds (policy run)) (f_of_Z 3)) | None => true end then
     await entry := ledger_read key in
     match entry with
     | None => Raise (LedgerWithdrawnError key (Some (py "the request left the ledger")))
     | Some entry =>
       let record := en_record entry in
       if negb (pystr_eqb (l_operation_id record) operation_id) then Raise (LedgerWithdrawnError key (Some (py "a newer attempt replaced it"))) else
       if bool_decide (l_state record = WITHDRAWN) then Raise (LedgerWithdrawnError key (l_reason record)) else
       renew run key
     end
   else Ret tt) ;;;
  await _ := sweep_if_due run in
  Ret tt.

Definition _attached (run : nat) (record : LedgerRecord) (request : SlurmBatchRequest) : prog Reply :=
  match l_job record with
  | None => Raise (ledger_exc (py "submitted record without a job"))
  | Some job =>
    if negb (sb_result_layout job =? BATCH_RESULT_LAYOUT) then Raise (unknown_layout (sb_result_layout job)) else
    renew run (l_key record) ;;;
    await handle := lift (handle_of_job is_dir job (l_operation_id record) request) in
    Ret (R_attached (l_key record) (l_operation_id record) handle)
  end.
Definition _check (run : nat) (entry : LedgerEntry) (request : SlurmBatchRequest) : prog (option Reply) :=
  let record := en_record entry in
  let attach := await attached := _attached run record request in Ret (Some attached) in
  await observed := cluster_inspect (l_operation_id record) in
  match l_job record, observed with
  | Some job, Observed o =>
    match settlement repr (o_status o) None job with
    | Some _ => await _ := settle entry (o_status o) None in Ret None
    | None => attach
    end
  | _, _ => attach
  end.

Definition _record_job (run : nat) (entry : LedgerEntry) (request : SlurmBatchRequest) (handle : SlurmBatchHandle) : prog (option Reply) :=
  let record := en_record entry in
  await job := lift (job_of_handle handle) in
  await after := lift (transitioned record SUBMITTED (Some job) None) in
  await won := ledger_replace entry after in
  if (won : bool) then
    renew run (l_key record) ;;;
    await rebased := lift (handle_of_job is_dir job (l_operation_id record) request) in
    Ret (Some (R_attached (l_key record) (l_operation_id record) rebased))
  else
    await current := ledger_read (l_key record) in
    let cancel := cluster_cancel false (l_operation_id record) in
    match current with
    | None => await _ := cancel in Ret None
    | Some current =>
      if negb (pystr_eqb (l_operation_id (en_record current)) (l_operation_id record)) then await _ := cancel in Ret None else
      if bool_decide (l_state (en_record current) ∈ [L_FAILED; WITHDRAWN]) then
        await _ := cancel in
        if bool_decide (l_state (en_record current) = WITHDRAWN)
        then Raise (LedgerWithdrawnError (l_key record) (l_reason (en_record current))) else Ret None
      else Ret None
    end.
Definition _resolve (run : nat) (entry : LedgerEntry) (request : SlurmBatchRequest) (expired : bool) : prog (option Reply) :=
  let record := en_record entry in
  await observed := cluster_inspect (l_operation_id record) in
  match observed with
  | Observed (mk_ClusterObservation _ _ _ _ (Some (BatchHandle handle)) _) => _record_job run entry request handle
  | _ =>
    if negb expired then Ret (Some (R_pending (l_key record) (py "another process is submitting the request's job"))) else
    await failed := lift (transitioned record L_FAILED None (Some (py "its submitter's claim expired before it recorded a job"))) in
    await won := ledger_replace entry failed in
    (if (won : bool) then await _ := cluster_cancel false (l_operation_id record) in Ret tt else Ret tt) ;;;
    Ret None
  end.
Definition _submit (me run : nat) (request : SlurmBatchRequest) (entry : LedgerEntry) : prog (option Reply) :=
  let record := en_record entry in
  await outcome := cluster_submit me request record in
  match outcome with
  | ClusterSubmitted _ (BatchHandle handle) => _record_job run entry request handle
  | ClusterSubmitted _ (JobHandle _) => Ret (Some (R_pending (l_key record) (py "the submission returned no batch handle")))
  | ClusterRejected _ reason =>
    await failed := lift (transitioned record L_FAILED None (Some (py "rejected: " ++ reason))) in
    await _ := ledger_replace entry failed in
    Raise (SlurmSubmissionRejectedError reason)
  | ClusterConflict _ reason | SubmitUnknown reason => Ret (Some (R_pending (l_key record) reason))
  end.
(** [==] of records, whose times compare as floats. *)
Definition record_eqb (a b : LedgerRecord) : bool :=
  pystr_eqb (l_key a) (l_key b) && pystr_eqb (l_project a) (l_project b) && (l_attempt a =? l_attempt b)
  && pystr_eqb (l_operation_id a) (l_operation_id b) && pystr_eqb (l_owner a) (l_owner b)
  && f_same (l_created_at a) (l_created_at b) && f_same (l_claim_expires_at a) (l_claim_expires_at b)
  && bool_decide (l_labels a = l_labels b)
  && bool_decide (l_state a = l_state b) && bool_decide (l_job a = l_job b) && bool_decide (l_reason a = l_reason b).
Definition _claim (me run : nat) (request : SlurmBatchRequest) (key : pystr) (attempt : Z) (labels : LedgerLabels) : prog (option Reply) :=
  await now := clock_now in
  await operation_id := lift (ledger_operation_id key attempt) in
  await claimed := lift (validate_record (mk_LedgerRecord key project attempt operation_id (holder run) now
    (f_add now (lp_claim_seconds (policy run))) labels SUBMITTING None None)) in
  await stored := ledger_claim claimed in
  if negb (record_eqb stored claimed) then Ret None else
  renew run key ;;;
  _submit me run request (mk_LedgerEntry claimed [] 0 [] []).

Definition attach_step (me run : nat) (request : SlurmBatchRequest) (labels : LedgerLabels) (key : pystr) (s : SubmitStep) : prog (option Reply) :=
  match s with
  | AttachJob record => await attached := _attached run record request in Ret (Some attached)
  | CheckJob entry => _check run entry request
  | ResolveSubmission entry expired => _resolve run entry request expired
  | ClaimAttempt attempt => _claim me run request key attempt labels
  end.
Fixpoint attach_rounds (n : nat) (me run : nat) (request : SlurmBatchRequest) (labels : LedgerLabels) (key : pystr) : prog Reply :=
  match n with
  | O => Ret (R_pending key (py "the request's attempts kept changing"))
  | S n =>
    await entry := ledger_read key in
    await now := clock_now in
    await outcome := attach_step me run request labels key (submit_step entry now) in
    match outcome with Some outcome => Ret outcome | None => attach_rounds n me run request labels key end
  end.
Definition attach (me run : nat) (request : SlurmBatchRequest) (labels : LedgerLabels) (key : pystr) : prog Reply :=
  attach_rounds _ATTACH_ROUNDS me run request labels key.

(** [SlurmLedgerAttachment.settle]. *)
Fixpoint settle_rounds (n : nat) (key operation_id : pystr) (status : SlurmJobStatus) (collected : option ClusterCollectOutcome) : prog unit :=
  match n with
  | O => Ret tt
  | S n =>
    await entry := ledger_read key in
    match entry with
    | None => Ret tt
    | Some entry =>
      let record := en_record entry in
      if negb (pystr_eqb (l_operation_id record) operation_id) then Ret tt else
      await done :=
        (if bool_decide (l_state record = SUBMITTED) then settle entry status collected else Ret true) in
      if (done : bool) then Ret tt else
      match l_job record with
      | None => Ret tt
      | Some job =>
        match settlement repr status collected job with
        | None => Ret tt
        | Some _ => settle_rounds n key operation_id status collected
        end
      end
    end
  end.
Definition settle_attached (key operation_id : pystr) (status : SlurmJobStatus) (collected : option ClusterCollectOutcome) : prog unit :=
  modify (fun s => s <| lg_settling := lg_settling s ++ [(operation_id, status, collected)] |>) ;;;
  settle_rounds _ATTACH_ROUNDS key operation_id status collected.

(** ** Processes *)

Definition body (me : nat) (job : Job) : prog Reply :=
  match job with
  | J_attach run request labels key => attach me run request labels key
  | J_renew run key => renew run key ;;; Ret R_none
  | J_release run key => release run key ;;; Ret R_none
  | J_heartbeat run key operation_id => heartbeat run key operation_id ;;; Ret R_none
  | J_settle key operation_id status collected => settle_attached key operation_id status collected ;;; Ret R_none
  | J_sweep run => await outcomes := sweep_if_due run in Ret (R_swept outcomes)
  | J_withdraw key reason => await outcome := withdraw key reason (fun _ => true) in Ret (R_withdraw outcome)
  end.
End Procs.
