(* ===== verification/EvalLogic.v ===== *)
(** What holds of the stored ledger at every moment, and the steps of a process that keep it so: an
    attempt is a chain of legal revisions that only grows, and every change has its reason on record. *)
From S2P Require Import Prelude Plan Floats Coroutines Processes SlurmStates SlurmTypes EvalLedger EvalStore EvalProcs.

(** ** What a read finds *)

Lemma mapM_result_elem {A B} (f : A -> result B) l l' :
  mapM_result f l = Ok l' ->
  (forall x, x ∈ l -> exists y, y ∈ l' /\ f x = Ok y) /\ (forall y, y ∈ l' -> exists x, x ∈ l /\ f x = Ok y).
Proof.
  intros F%mapM_result_inv. induction F as [|x y l l' E _ [IH IH']]; [by split; intros ? ?%elem_of_nil|]. split.
  - intros z [->|In]%elem_of_cons; [exists y; split; [by left|done]|]. destruct (IH z In) as (w & ? & ?). exists w. split; [by right|done].
  - intros z [->|In]%elem_of_cons; [exists x; split; [by left|done]|]. destruct (IH' z In) as (w & ? & ?). exists w. split; [by right|done].
Qed.

Section Reading.
Context `{LedgerCodecLaws}.

Definition newest_at (decoded : list (Z * (Z * LedgerRecord))) (latest : gmap Z (Z * LedgerRecord)) : Prop :=
  (forall a r x, latest !! a = Some (r, x) -> (a, (r, x)) ∈ decoded)
  /\ (forall a r x, (a, (r, x)) ∈ decoded -> exists r' x', latest !! a = Some (r', x') /\ r <= r').
Lemma fold_newer decoded : newest_at decoded (fold_left newer decoded ∅).
Proof.
  induction decoded as [|[a [r x]] decoded IH] using rev_ind; [by split; [|intros ? ? ? ?%elem_of_nil]|].
  rewrite fold_left_app. cbn. destruct IH as [I J]. set (latest := fold_left newer decoded ∅) in *.
  assert (newest_at (decoded ++ [(a, (r, x))]) (<[a := (r, x)]> latest)
          \/ exists r' x', latest !! a = Some (r', x') /\ r <= r') as Cases.
  { destruct (latest !! a) as [[r' x']|] eqn:L; [destruct (decide (r <= r')); [right; eauto|]|]; left; split.
    - intros b q y [[<- [= <- <-]]|[N Lb]]%lookup_insert_Some; apply elem_of_app; [right; by left|left; by apply I].
    - intros b q y [In|[= -> -> ->]%list_elem_of_singleton]%elem_of_app.
      + destruct (decide (a = b)) as [<-|N]; [|rewrite lookup_insert_ne by done; by eapply J].
        destruct (J _ _ _ In) as (r2 & x2 & L2 & Le). rewrite L in L2. injection L2 as <- <-.
        rewrite lookup_insert_eq. exists r, x. split; [done|lia].
      + rewrite lookup_insert_eq. eauto with lia.
    - intros b q y [[<- [= <- <-]]|[N Lb]]%lookup_insert_Some; apply elem_of_app; [right; by left|left; by apply I].
    - intros b q y [In|[= -> -> ->]%list_elem_of_singleton]%elem_of_app.
      + destruct (decide (a = b)) as [<-|N]; [|rewrite lookup_insert_ne by done; by eapply J].
        destruct (J _ _ _ In) as (r2 & x2 & L2 & Le). congruence.
      + rewrite lookup_insert_eq. eauto with lia. }
  assert (forall r' x', latest !! a = Some (r', x') -> r <= r' -> newest_at (decoded ++ [(a, (r, x))]) latest) as Stay.
  { intros r' x' L Le. split.
    - intros b q y Lb. apply elem_of_app. left. by apply I.
    - intros b q y [In|[= -> -> ->]%list_elem_of_singleton]%elem_of_app; [by eapply J|eauto]. }
  destruct (latest !! a) as [[r' x']|] eqn:L.
  - destruct (Z.ltb_spec r' r); [|by eapply Stay]. destruct Cases as [?|(r2 & x2 & [= <- <-] & ?)]; [done|lia].
  - destruct Cases as [?|(r2 & x2 & ? & ?)]; done.
Qed.

Lemma by_attempt_total x y : by_attempt x y = true \/ by_attempt y x = true.
Proof. unfold by_attempt. rewrite !Z.leb_le. lia. Qed.
Lemma by_attempt_trans x y z : by_attempt x y = true -> by_attempt y z = true -> by_attempt x z = true.
Proof. unfold by_attempt. rewrite !Z.leb_le. lia. Qed.

Lemma decode_revisions key revisions decoded a r x :
  mapM_result (decode_revision key) (map_to_list revisions) = Ok decoded ->
  (a, (r, x)) ∈ decoded <-> revisions !! (a, r) = Some x.
Proof.
  intros M%mapM_result_elem. destruct M as [Ml Mr].
  assert (forall d y, decode_revision key d = Ok y -> y = (fst (fst d), (snd (fst d), snd d))) as Dec.
  { intros [[b q] d] y. cbn. destruct (decode_record (encode_record d)) as [d'|] eqn:E; [|done].
    apply decode_encoded in E as [-> _]. cbn. destruct (_ || _); congruence. }
  rewrite <- elem_of_map_to_list. split.
  - intros In. destruct (Mr _ In) as ([[b q] d] & Id & E). apply Dec in E. cbn in E. by injection E as <- <- <-.
  - intros In. destruct (Ml _ In) as (y & Iy & E). by apply Dec in E as ->.
Qed.
(** A decoded record names its key and its attempt, and is valid. *)
Lemma decode_revision_names key revisions decoded a r x :
  mapM_result (decode_revision key) (map_to_list revisions) = Ok decoded ->
  revisions !! (a, r) = Some x -> l_key x = key /\ l_attempt x = a /\ record_valid x.
Proof.
  intros [Ml _]%mapM_result_elem L%elem_of_map_to_list. destruct (Ml _ L) as (y & _ & E). cbn in E.
  destruct (decode_record (encode_record x)) as [x'|] eqn:D; [|done]. apply decode_encoded in D as [-> V]. cbn in E.
  destruct (pystr_eqb (l_key x) key) eqn:K; [|done]. apply pystr_eqb_true in K. cbn in E.
  destruct (Z.eqb_spec (l_attempt x) a); [done|done].
Qed.

(** The current revision of the latest attempt, and the current ones of the attempts before it. *)
Lemma read_records_spec key revisions x r earlier :
  read_records key revisions = Ok (Some (x, r, earlier)) ->
  revisions !! (l_attempt x, r) = Some x /\ l_key x = key /\ record_valid x
  /\ (forall a q y, revisions !! (a, q) = Some y -> a <= l_attempt x /\ (a = l_attempt x -> q <= r))
  /\ (forall y, y ∈ earlier -> exists q, revisions !! (l_attempt y, q) = Some y /\ l_key y = key).
Proof.
  unfold read_records. destruct (mapM_result _ _) as [decoded|] eqn:M; [|done]. cbn [bind].
  pose proof (fold_newer decoded) as [I J]. set (latest := fold_left newer decoded ∅) in *.
  set (attempts := sort_by by_attempt (map_to_list latest)).
  assert (forall a q y, (a, (q, y)) ∈ attempts <-> latest !! a = Some (q, y)) as At.
  { intros a q y. unfold attempts. by rewrite elem_of_sort_by, elem_of_map_to_list. }
  assert (forall a q y, latest !! a = Some (q, y) -> revisions !! (a, q) = Some y) as Rv.
  { intros a q y L. apply (decode_revisions _ _ _ _ _ _ M). by apply I. }
  destruct (last attempts) as [[a [q y]]|] eqn:La; [|done]. intros [= <- <- <-].
  apply last_Some in La as [before Eb].
  assert (latest !! a = Some (q, y)) as L by (apply At; rewrite Eb; apply elem_of_app; right; by left).
  pose proof (Rv _ _ _ L) as R. destruct (decode_revision_names _ _ _ _ _ _ M R) as (K & A & V). subst a.
  split; [done|split; [done|split; [done|split]]].
  - intros b p z Lz. destruct (J b p z) as (p' & z' & Lb & Le); [by apply (decode_revisions _ _ _ _ _ _ M)|].
    split; [|intros ->; congruence]. apply At in Lb. rewrite Eb in Lb.
    pose proof (sort_by_sorted by_attempt by_attempt_total by_attempt_trans (map_to_list latest)) as S. fold attempts in S. rewrite Eb in S.
    apply elem_of_app in Lb as [Lb|[= -> _ _]%list_elem_of_singleton]; [|done].
    apply StronglySorted_app_1_elem_of with (x1 := (b, (p', z'))) (x2 := (l_attempt y, (q, y))) in S; [|done|by left].
    unfold by_attempt in S. cbn in S. lia.
  - intros z. rewrite Eb, removelast_last. intros ([b [p z']] & -> & Ib)%elem_of_map. cbn.
    assert (latest !! b = Some (p, z')) as Lb by (apply At; rewrite Eb; apply elem_of_app; by left).
    pose proof (Rv _ _ _ Lb) as Rb. destruct (decode_revision_names _ _ _ _ _ _ M Rb) as (Kb & Ab & _). subst b. by exists p.
Qed.
Lemma read_records_none key revisions : read_records key revisions = Ok None -> revisions = ∅.
Proof.
  unfold read_records. destruct (mapM_result _ _) as [decoded|] eqn:M; [|done]. cbn [bind].
  pose proof (fold_newer decoded) as [_ J]. destruct (last _) as [[a [q y]]|] eqn:La; [done|]. intros _.
  apply last_None in La. apply map_empty. intros [a r]. apply eq_None_not_Some. intros [x L].
  destruct (J a r x) as (r' & x' & E & _); [by apply (decode_revisions _ _ _ _ _ _ M)|].
  assert ((a, (r', x')) ∈ sort_by by_attempt (map_to_list (fold_left newer decoded ∅))) as In
    by by rewrite elem_of_sort_by, elem_of_map_to_list.
  rewrite La in In. by apply elem_of_nil in In.
Qed.
End Reading.

(** ** What always holds *)

Definition rec_at (key : pystr) (attempt revision : Z) (s : Ledger) : option LedgerRecord := revisions_of key s !! (attempt, revision).
Definition ended (x : LedgerRecord) : Prop := l_state x = L_FAILED \/ l_state x = WITHDRAWN.

Section Logic.
Context `{LedgerCodecLaws}.
Variable repr : pystr -> pystr.
Variable is_dir : pystr -> bool.

(** The scheduler was seen to have ended the attempt's job; its cancellation was acknowledged. *)
Definition seen_ended (operation_id : pystr) (s : Ledger) : Prop :=
  exists o, Inspected operation_id (Observed o) ∈ lg_calls s /\ s_terminal (o_status o) = true.
Definition cancel_acknowledged (operation_id : pystr) (s : Ledger) : Prop :=
  exists job, CancelAsked true operation_id (CancelRequested job) ∈ lg_calls s.
(** What the scheduler said of the attempt's job, or what a run collected from it, settles it so. *)
Definition settled_by (x : LedgerRecord) (to : LedgerState) (s : Ledger) : Prop :=
  exists job status collected reason,
    l_job x = Some job /\ settlement repr status collected job = Some (mk_Settlement to reason)
    /\ ((collected = None /\ exists o, Inspected (l_operation_id x) (Observed o) ∈ lg_calls s /\ o_status o = status)
        \/ (l_operation_id x, status, collected) ∈ lg_settling s).
(** The reason on record for the step from [x] to [y]. *)
Definition justified (x y : LedgerRecord) (s : Ledger) : Prop :=
  match l_state y with
  | WITHDRAWN => l_state x = L_COMPLETED \/ seen_ended (l_operation_id x) s \/ cancel_acknowledged (l_operation_id x) s
  | L_COMPLETED => settled_by x L_COMPLETED s
  | L_FAILED => l_state x = SUBMITTED -> settled_by x L_FAILED s
  | SUBMITTING | SUBMITTED => True
  end.

Record inv (s : Ledger) : Prop := mk_inv {
  v_doc : forall key a r x, rec_at key a r s = Some x -> 0 <= r /\ record_valid x /\ l_key x = key /\ l_attempt x = a;
  v_first : forall key a x, rec_at key a 0 s = Some x -> l_state x = SUBMITTING;
  v_next : forall key a r y, rec_at key a r s = Some y -> r <> 0 ->
    exists x, rec_at key a (r - 1) s = Some x /\ check_transition x y = Ok tt /\ justified x y s;
  v_before : forall key a r y, rec_at key a r s = Some y -> a <> 0 -> exists q x, rec_at key (a - 1) q s = Some x /\ ended x;
  v_submitted : forall t x o, Submitted t x o ∈ lg_calls s ->
    exists y, rec_at (l_key x) (l_attempt x) 0 s = Some y /\ record_eqb y x = true;
  v_cancelled : forall op o, CancelAsked false op o ∈ lg_calls s ->
    exists key a r x, rec_at key a r s = Some x /\ l_operation_id x = op /\ ended x }.

(** What every process relies on: records and what was seen only grow. *)
Record grows (s s' : Ledger) : Prop := mk_grows {
  g_rec : forall key a r x, rec_at key a r s = Some x -> rec_at key a r s' = Some x;
  g_calls : forall c, c ∈ lg_calls s -> c ∈ lg_calls s';
  g_settling : forall c, c ∈ lg_settling s -> c ∈ lg_settling s' }.
#[export] Instance grows_preorder : PreOrder grows.
Proof. split; [by split|]. intros s1 s2 s3 [A B C] [A' B' C']. split; auto. Qed.
Definition rely (_ : nat) : Ledger -> Ledger -> Prop := grows.
#[export] Instance rely_preorder t : PreOrder (rely t) := grows_preorder.

Lemma settled_by_later x to s s' : grows s s' -> settled_by x to s -> settled_by x to s'.
Proof.
  intros G (job & status & collected & reason & J & S & W). exists job, status, collected, reason. split; [done|split; [done|]].
  destruct W as [(N & o & In & E)|In]; [left; split; [done|]; exists o; split; [by apply G|done]|right; by apply G].
Qed.
Lemma justified_later x y s s' : grows s s' -> justified x y s -> justified x y s'.
Proof.
  intros G. unfold justified. destruct (l_state y); try done.
  - by apply settled_by_later.
  - intros J N. by eapply settled_by_later, J.
  - intros [E|[(o & In & T)|(job & In)]]; [by left|right; left; exists o|right; right; exists job]; try split; try done; by apply G.
Qed.

(** A step that leaves the records alone, and adds [calls] and [given] to what was seen. *)
Definition call_ok (s : Ledger) (c : ClusterCall) : Prop :=
  match c with
  | Submitted _ x _ => exists y, rec_at (l_key x) (l_attempt x) 0 s = Some y /\ record_eqb y x = true
  | CancelAsked false op _ => exists key a r x, rec_at key a r s = Some x /\ l_operation_id x = op /\ ended x
  | _ => True
  end.
Lemma inv_seen s s' calls given :
  inv s -> lg_records s' = lg_records s -> lg_calls s' = lg_calls s ++ calls -> lg_settling s' = lg_settling s ++ given ->
  (forall c, c ∈ calls -> call_ok s c) -> inv s' /\ grows s s'.
Proof.
  intros I E Ec Es Ok.
  assert (forall key a r, rec_at key a r s' = rec_at key a r s) as Er by (intros; unfold rec_at, revisions_of; by rewrite E).
  assert (grows s s') as G.
  { split; [intros; by rewrite Er|rewrite Ec|rewrite Es]; intros c In; apply elem_of_app; by left. }
  split; [|done]. constructor; setoid_rewrite Er.
  - apply I.
  - apply I.
  - intros key a r y L N. destruct (v_next _ I _ _ _ _ L N) as (x & ? & ? & ?). exists x. split; [done|split; [done|]]. by eapply justified_later.
  - apply I.
  - intros t x o. rewrite Ec. intros [In|In]%elem_of_app; [by eapply (v_submitted _ I)|exact (Ok _ In)].
  - intros op o. rewrite Ec. intros [In|In]%elem_of_app; [by eapply (v_cancelled _ I)|exact (Ok _ In)].
Qed.
Lemma inv_quiet s s' :
  inv s -> lg_records s' = lg_records s -> lg_calls s' = lg_calls s -> lg_settling s' = lg_settling s -> inv s' /\ grows s s'.
Proof.
  intros I E Ec Es. apply (inv_seen s s' [] []); [done|done|by rewrite app_nil_r|by rewrite app_nil_r|by intros c ?%elem_of_nil].
Qed.

(** ** Writing a revision *)

Definition may_create (x : LedgerRecord) (r : Z) (s : Ledger) : Prop :=
  record_valid x /\ 0 <= r
  /\ (r = 0 -> l_state x = SUBMITTING
      /\ (l_attempt x = 0 \/ exists q y, rec_at (l_key x) (l_attempt x - 1) q s = Some y /\ ended y))
  /\ (r <> 0 -> exists y, rec_at (l_key x) (l_attempt x) (r - 1) s = Some y /\ check_transition y x = Ok tt /\ justified y x s).
Lemma may_create_later x r s s' : grows s s' -> may_create x r s -> may_create x r s'.
Proof.
  intros G (V & P & F & N). split; [done|split; [done|split]].
  - intros E. destruct (F E) as [? [?|(q & y & L & En)]]; (split; [done|]); [by left|right]. exists q, y. split; [by apply G|done].
  - intros E. destruct (N E) as (y & L & C & J). exists y. split; [by apply G|split; [done|by eapply justified_later]].
Qed.

Lemma rec_at_created x r s b s' key a q :
  create_revision x r s = (b, s') -> rec_at (l_key x) (l_attempt x) r s = None ->
  rec_at key a q s' = if decide (key = l_key x /\ a = l_attempt x /\ q = r) then Some x else rec_at key a q s.
Proof.
  unfold create_revision. intros C N. unfold rec_at in N. rewrite N in C. injection C as <- <-. unfold rec_at, revisions_of. cbn.
  destruct (decide (l_key x = key)) as [<-|Nk].
  - rewrite lookup_insert_eq. cbn. destruct (decide _) as [(_ & -> & ->)|Nd]; [by rewrite lookup_insert_eq|].
    rewrite lookup_insert_ne; [done|]. intros [= <- <-]. by apply Nd.
  - rewrite lookup_insert_ne by done. by destruct (decide _) as [(-> & _)|Nd].
Qed.

Lemma create_revision_ok x r s b s' :
  inv s -> may_create x r s -> create_revision x r s = (b, s') ->
  inv s' /\ grows s s' /\ (b = true -> rec_at (l_key x) (l_attempt x) r s' = Some x).
Proof.
  intros I (V & P & F & N) C. destruct (rec_at (l_key x) (l_attempt x) r s) as [old|] eqn:L.
  { unfold create_revision in C. unfold rec_at in L. rewrite L in C. injection C as <- <-. by split; [|split]. }
  assert (forall key a q, rec_at key a q s' = if decide (key = l_key x /\ a = l_attempt x /\ q = r) then Some x else rec_at key a q s) as Er
    by (intros; by eapply rec_at_created).
  assert (lg_calls s' = lg_calls s /\ lg_settling s' = lg_settling s) as [Ec Es].
  { unfold create_revision in C. destruct (_ !! _); by injection C as <- <-. }
  assert (grows s s') as G.
  { split; [|by rewrite Ec|by rewrite Es]. intros key a q y Ly. rewrite Er. destruct (decide _) as [(-> & -> & ->)|]; congruence. }
  assert (forall key a q y, rec_at key a q s' = Some y ->
    (key = l_key x /\ a = l_attempt x /\ q = r /\ y = x) \/ rec_at key a q s = Some y) as Cases.
  { intros key a q y. rewrite Er. destruct (decide _) as [(-> & -> & ->)|]; [intros [= <-]; by left|by right]. }
  split; [|split; [done|]].
  2: { intros _. rewrite Er. by rewrite decide_True. }
  constructor.
  - intros key a q y [(-> & -> & -> & ->)|Ly]%Cases; [done|by eapply (v_doc _ I)].
  - intros key a y [(-> & -> & E & ->)|Ly]%Cases; [by apply F|by eapply (v_first _ I)].
  - intros key a q y [(-> & -> & -> & ->)|Ly]%Cases Nz.
    + destruct (N Nz) as (z & Lz & Cz & Jz). exists z. split; [by apply G|split; [done|by eapply justified_later]].
    + destruct (v_next _ I _ _ _ _ Ly Nz) as (z & Lz & Cz & Jz). exists z. split; [by apply G|split; [done|by eapply justified_later]].
  - intros key a q y Ly Na.
    assert (exists p z, rec_at key (a - 1) p s = Some z /\ ended z) as (p & z & Lz & En).
    { apply Cases in Ly as [(-> & -> & -> & ->)|Ly]; [|by eapply (v_before _ I)]. destruct (decide (r = 0)) as [->|Nz].
      - destruct (F eq_refl) as [_ [?|?]]; [done|done].
      - destruct (N Nz) as (z & Lz & _). by eapply (v_before _ I). }
    exists p, z. split; [by apply G|done].
  - intros t y o. rewrite Ec. intros In. destruct (v_submitted _ I _ _ _ In) as (z & Lz & E). exists z. split; [by apply G|done].
  - intros op o. rewrite Ec. intros In. destruct (v_cancelled _ I _ _ In) as (key & a & q & z & Lz & E). exists key, a, q, z. split; [by apply G|done].
Qed.

(** ** Chains of revisions *)

Lemma transition_identity x y : check_transition x y = Ok tt ->
  l_key y = l_key x /\ l_attempt y = l_attempt x /\ l_operation_id y = l_operation_id x /\ l_owner y = l_owner x.
Proof.
  unfold check_transition, same_identity. intros C. apply guard_Ok in C as [C _]. apply negb_false_iff in C.
  rewrite !andb_true_iff, !pystr_eqb_true, Z.eqb_eq in C. destruct C as ((((((? & _) & ?) & ?) & ?) & _) & _). done.
Qed.
Lemma transition_state x y : check_transition x y = Ok tt -> l_state y ∈ _NEXT_STATES (l_state x).
Proof.
  unfold check_transition. intros C. apply guard_Ok in C as [_ C]. apply guard_Ok in C as [C _]. apply orb_false_iff in C as [_ C].
  apply bool_decide_eq_false in C. by apply dec_stable.
Qed.
Lemma transition_job x y j : check_transition x y = Ok tt -> l_job x = Some j -> l_job y = Some j.
Proof.
  unfold check_transition. intros C J. apply guard_Ok in C as [_ C]. apply guard_Ok in C as [_ C]. apply guard_Ok in C as [C _].
  rewrite J in C. apply bool_decide_eq_false in C. by apply dec_stable in C as ->.
Qed.
Lemma ended_final x y : ended x -> check_transition x y <> Ok tt.
Proof. intros [E|E] C%transition_state; rewrite E in C; by apply elem_of_nil in C. Qed.

Lemma operation_id_of x : record_valid x -> l_operation_id x = operation_of (l_key x) (l_attempt x) /\ 0 <= l_attempt x.
Proof.
  unfold record_valid, validate_record, validated. destruct (_ || _) eqn:B; [done|]. apply orb_false_iff in B as [B _].
  apply Z.ltb_ge in B. unfold record_consistent, ledger_operation_id.
  destruct (validate_key (l_key x)); cbn; [|by destruct (is_value_error e)].
  destruct (validate_project (l_project x)); cbn; [|by destruct (is_value_error e)].
  destruct (validate_holder (l_owner x)); cbn; [|by destruct (is_value_error e)].
  destruct (pystr_eqb (l_operation_id x) _) eqn:E; [|done]. apply pystr_eqb_true in E. done.
Qed.

Lemma chain_below s key a r x q : inv s -> rec_at key a r s = Some x -> 0 <= q <= r -> exists y, rec_at key a q s = Some y.
Proof.
  intros I L [Q Le]. remember (Z.to_nat (r - q)) as n eqn:En. revert r x L Le En. induction n as [|n IH]; intros r x L Le En.
  - assert (q = r) as -> by lia. eauto.
  - destruct (v_next _ I _ _ _ _ L) as (y & Ly & _); [lia|]. eapply (IH (r - 1)); [done|lia|lia].
Qed.
(** An ended attempt has no further revision. *)
Lemma ended_last s key a r x q y : inv s -> rec_at key a r s = Some x -> ended x -> rec_at key a q s = Some y -> q <= r.
Proof.
  intros I L E Ly. destruct (decide (q <= r)) as [?|N]; [done|]. destruct (v_doc _ I _ _ _ _ L) as (R & _).
  destruct (chain_below _ _ _ _ _ (r + 1) I Ly) as (z & Lz); [lia|]. destruct (v_next _ I _ _ _ _ Lz) as (x' & L' & C & _); [lia|].
  replace (r + 1 - 1) with r in L' by lia. assert (x' = x) as -> by congruence. by apply ended_final in C.
Qed.
(** Every attempt before one that exists has ended. *)
Lemma earlier_ended s key a r y b : inv s -> rec_at key a r s = Some y -> 0 <= b < a -> exists q x, rec_at key b q s = Some x /\ ended x.
Proof.
  intros I L [B Lt]. remember (Z.to_nat (a - b)) as n eqn:En. revert a r y L Lt En. induction n as [|n IH]; intros a r y L Lt En; [lia|].
  destruct (v_before _ I _ _ _ _ L) as (q & x & Lx & E); [lia|]. destruct (decide (b = a - 1)) as [->|N]; [eauto|].
  eapply (IH (a - 1)); [done|lia|lia].
Qed.
Lemma same_operation s key a r q x y : inv s -> rec_at key a r s = Some x -> rec_at key a q s = Some y -> l_operation_id x = l_operation_id y.
Proof.
  intros I Lx Ly. destruct (v_doc _ I _ _ _ _ Lx) as (_ & Vx & Kx & Ax), (v_doc _ I _ _ _ _ Ly) as (_ & Vy & Ky & Ay).
  destruct (operation_id_of _ Vx) as [-> _], (operation_id_of _ Vy) as [-> _]. by rewrite Kx, Ky, Ax, Ay.
Qed.

(** ** Reasoning about a process

    [ok t p P s]: from [s], whatever other processes do, [p] keeps the invariant, and if it answers,
    its answer and the state satisfy [P]. *)

Definition idle (_ : nat) (_ : Ledger) : Prop := True.
Definition accepts (_ : nat) (_ : Job) (_ : Ledger) : Prop := True.
Variable owed : answer Reply -> Ledger -> Prop.
Definition ok (t : nat) {A} (p : prog A) (P : A -> Ledger -> Prop) (s : Ledger) : Prop :=
  does inv rely idle accepts owed (fun _ => grows) t p P (fun _ _ => True) s.

(** What holds from a state on. *)
Definition lasting (F : Ledger -> Prop) : Prop := forall s s', grows s s' -> F s -> F s'.

Tactic Notation "rule" uconstr(l) := unfold ok; eapply l; try exact rely_preorder; try (intros _; exact grows_preorder); try done.
Lemma ok_weaken t A (p : prog A) (P Q : A -> Ledger -> Prop) s :
  (forall x s', inv s' -> grows s s' -> P x s' -> Q x s') -> ok t p P s -> ok t p Q s.
Proof. intros Hm. rule does_weaken. Qed.
Lemma ok_ret t A (x : A) P s : (forall s', grows s s' -> inv s' -> P x s') -> ok t (Ret x) P s.
Proof. intros Hp. rule does_ret. Qed.
Lemma ok_raise t A e (P : A -> Ledger -> Prop) s : ok t (Raise e) P s.
Proof. rule does_raise. Qed.
Lemma ok_bind t A B (p : prog A) (k : A -> prog B) P Q s :
  inv s -> ok t p P s -> (forall x s', inv s' -> grows s s' -> P x s' -> ok t (k x) Q s') -> ok t (cbind p k) Q s.
Proof. intros I W K. rule does_bind. Qed.
Lemma ok_lift t A (m : result A) (P : A -> Ledger -> Prop) s :
  (forall x s', m = Ok x -> grows s s' -> inv s' -> P x s') -> ok t (lift m) P s.
Proof. intros Hp. rule does_lift. Qed.
Lemma ok_except t A (p : prog A) (k : Exc -> prog A) P s :
  inv s -> ok t p P s -> (forall e s', inv s' -> grows s s' -> ok t (k e) P s') -> ok t (except_ledger p k) P s.
Proof. intros I W K. rule does_except. intros e s' _ I' G _. by apply K. Qed.

(** A step that keeps the invariant and only adds is what the others rely on. *)
Lemma moves_of t s s' : inv s' -> grows s s' -> moves inv rely (fun _ => grows) t s s'.
Proof. by split. Qed.
Lemma ok_step t R (f : Ledger -> R * Ledger) (P : R -> Ledger -> Prop) s :
  (forall s1 r s2, grows s s1 -> inv s1 -> f s1 = (r, s2) ->
     inv s2 /\ grows s1 s2 /\ forall s3, grows s2 s3 -> inv s3 -> P r s3) -> ok t (step f) P s.
Proof.
  intros F. rule does_outside. intros s1 r s2 G I Ef. destruct (F _ _ _ G I Ef) as (? & ? & X).
  split; [by apply moves_of|done].
Qed.
Lemma ok_write t R (f : Ledger -> R * Ledger) (P : R -> Ledger -> Prop) s :
  inv s -> (forall s1 r s2, grows s s1 -> inv s1 -> f s1 = (r, s2) ->
     inv s2 /\ grows s1 s2 /\ forall s3, grows s2 s3 -> inv s3 -> P r s3) -> ok t (write f) P s.
Proof.
  intros I F. rule does_and_back. intros s1 r s2 G I1 Ef. destruct (F _ _ _ G I1 Ef) as (? & ? & X).
  split; [by apply moves_of|]. intros s3 G3 I3. split; [by apply X|done].
Qed.
Lemma ok_sync_of t R (f : nat -> Ledger -> answer R * Ledger * option Job) (P : R -> Ledger -> Prop) s :
  (forall n s1, grows s s1 -> inv s1 -> exists r s2, f n s1 = (Ans r, s2, None) /\
     inv s2 /\ grows s1 s2 /\ forall s3, grows s2 s3 -> inv s3 -> P r s3) ->
  ok t (eff (Sync f)) P s.
Proof.
  intros F. rule does_sync. intros n s1 G I. destruct (F n s1 G I) as (r & s2 & Ef & ? & ? & X).
  exists r, s2. split; [done|]. split; [by apply moves_of|done].
Qed.
Lemma ok_sync t R (f : Ledger -> R * Ledger) (P : R -> Ledger -> Prop) s :
  (forall s1 r s2, grows s s1 -> inv s1 -> f s1 = (r, s2) ->
     inv s2 /\ grows s1 s2 /\ forall s3, grows s2 s3 -> inv s3 -> P r s3) ->
  ok t (eff (Sync (fun _ s => let '(r, s) := f s in (Ans r, s, None)))) P s.
Proof.
  intros F. apply ok_sync_of. intros n s1 G I. destruct (f s1) as [r s2] eqn:E. exists r, s2. split; [done|by apply F].
Qed.
End Logic.
