(* ===== verification/EvalTriples.v ===== *)
(** A triple for every operation on the ledger and every call of a process: whatever the others do,
    each keeps the invariant, and what it answers is on record. *)
From Stdlib Require Import SpecFloat.
From S2P Require Import Prelude Plan Floats Coroutines Processes SlurmStates SlurmTypes EvalLedger EvalStore EvalProcs EvalLogic.
Open Scope coro_scope.

(** ** Equal records *)

Lemma f_eq_key x y : f_eq x y = true <-> exists k, f_key x = Some k /\ f_key y = Some k.
Proof.
  unfold f_eq, SFeqb. rewrite SFcompare_key. destruct (f_key x) as [a|], (f_key y) as [b|]; (split; [|try by intros (? & ? & ?)]); try done.
  - destruct (key_compare a b) eqn:E; try done. apply key_compare_eq in E as ->. eauto.
  - intros (k & [= ->] & [= ->]). destruct k as [[k1 k2] k3]. cbn. by rewrite !Z.compare_refl.
Qed.
Lemma f_eq_of_same x y z : f_same x y = true -> f_eq y z = true -> f_eq x z = true.
Proof.
  unfold f_same. intros [E|[_ Ny]%andb_true_iff]%orb_true_iff Z.
  - apply f_eq_key in E as (k & Kx & Ky), Z as (k' & Ky' & Kz). apply f_eq_key. exists k. split; [done|]. congruence.
  - by destruct y.
Qed.

Lemma record_eqb_refl x : record_eqb x x = true.
Proof.
  unfold record_eqb. rewrite !andb_true_iff, !pystr_eqb_true, !bool_decide_eq_true, Z.eqb_eq, !f_same_refl. done.
Qed.
Record alike (x y : LedgerRecord) : Prop := mk_alike {
  al_key : l_key x = l_key y;
  al_attempt : l_attempt x = l_attempt y;
  al_operation : l_operation_id x = l_operation_id y;
  al_owner : l_owner x = l_owner y;
  al_created : f_same (l_created_at x) (l_created_at y) = true;
  al_state : l_state x = l_state y;
  al_job : l_job x = l_job y }.
Lemma record_eqb_alike x y : record_eqb x y = true -> alike x y.
Proof.
  unfold record_eqb. rewrite !andb_true_iff, !pystr_eqb_true, !bool_decide_eq_true, Z.eqb_eq.
  intros ((((((((((? & ?) & ?) & ?) & ?) & ?) & ?) & ?) & ?) & ?) & ?). by constructor.
Qed.
Lemma check_transition_alike x y z : record_eqb x y = true -> check_transition y z = Ok tt -> check_transition x z = Ok tt.
Proof.
  unfold record_eqb. rewrite !andb_true_iff, !pystr_eqb_true, !bool_decide_eq_true, Z.eqb_eq.
  intros ((((((((((Ek & Ep) & Ea) & Eo) & Ew) & Ec) & Ex) & El) & Es) & Ej) & _).
  unfold check_transition, same_identity. rewrite Ek, Ep, Ea, Eo, Ew, El, Es, Ej. intros C.
  apply guard_Ok in C as [Id C]. apply guard_Ok in C as [St C].
  apply negb_false_iff in Id. rewrite !andb_true_iff in Id. destruct Id as [[[[[[-> ->] ->] ->] ->] Ic] ->].
  apply orb_false_iff in St as [Sx ->]. apply negb_false_iff in Sx.
  rewrite (f_eq_of_same _ _ _ Ec Ic), (f_eq_of_same _ _ _ Ex Sx). done.
Qed.

Section Triples.
Context `{LedgerCodecLaws}.
Variable clock : nat -> float.
Variable inspected : nat -> pystr -> ClusterInspectOutcome.
Variable cancelled : nat -> pystr -> ClusterCancelOutcome.
Variable submitted : nat -> SlurmBatchRequest -> pystr -> ClusterSubmitOutcome.
Variable project : pystr.
Variable holder : nat -> pystr.
Variable policy : nat -> LedgerPolicy.
Variable repr : pystr -> pystr.
Variable is_dir : pystr -> bool.

(** ** What an answer says *)

(** Withdrawn: the attempt is recorded as withdrawn, or, if it had ended already, as ended. *)
Definition outcome_true (o : WithdrawOutcome) (s : Ledger) : Prop :=
  match o with
  | Withdrawn key operation_id _ already =>
    exists a r x, rec_at key a r s = Some x /\ l_operation_id x = operation_id
                  /\ (if already then ended x else l_state x = WITHDRAWN)
  | _ => True
  end.
(** Attached: the attempt is recorded with its job, and the handle is that job's. *)
Definition said (reply : Reply) (s : Ledger) : Prop :=
  match reply with
  | R_attached key operation_id handle =>
    exists a r x job request, rec_at key a r s = Some x /\ l_operation_id x = operation_id
      /\ (l_state x = SUBMITTED \/ l_state x = L_COMPLETED) /\ l_job x = Some job
      /\ handle_of_job is_dir job operation_id request = Ok handle
  | R_withdraw o => outcome_true o s
  | R_swept l => forall o, o ∈ l -> outcome_true o s
  | R_none | R_pending _ _ => True
  end.
Definition owed (a : answer Reply) (s : Ledger) : Prop := match a with Ans r => said r s | Threw _ => True end.

Lemma outcome_true_later o : lasting (outcome_true o).
Proof. intros s s' G. destruct o; try done. intros (a & r & x & L & E). exists a, r, x. split; [by apply G|done]. Qed.
Lemma said_later r : lasting (said r).
Proof.
  intros s s' G. destruct r as [|key op h|key reason|o|l]; try done.
  - intros (a & r & x & job & request & L & E). exists a, r, x, job, request. split; [by apply G|done].
  - by apply outcome_true_later.
  - intros W o In. by eapply outcome_true_later, W.
Qed.

Abbreviation inv := (EvalLogic.inv repr).
Abbreviation ok := (EvalLogic.ok repr owed).
Definition nothing {A} (_ : A) (_ : Ledger) : Prop := True.
Abbreviation bind_rule P := (ok_bind _ _ _ _ _ _ _ P _ _).
Abbreviation bind_any := (ok_bind _ _ _ _ _ _ _ _ _ _).
(** A part whose answer says nothing that is needed. *)
Abbreviation quiet_rule := (ok_bind _ _ _ _ _ _ _ nothing _ _).

(** ** Entries *)

(** An entry names a revision as it is stored, but for the times of a record that compares equal. *)
Definition entry_at (e : LedgerEntry) (s : Ledger) : Prop :=
  0 <= en_revision e /\ exists y, rec_at (l_key (en_record e)) (l_attempt (en_record e)) (en_revision e) s = Some y
                                  /\ record_eqb y (en_record e) = true.
Lemma entry_at_later e : lasting (entry_at e).
Proof. intros s s' G (P & y & L & E). split; [done|]. exists y. split; [by apply G|done]. Qed.

(** What a read that began in [s0] found. *)
Definition read_of (key : pystr) (s0 : Ledger) (entry : option LedgerEntry) (s : Ledger) : Prop :=
  match entry with
  | None => forall a r, rec_at key a r s0 = None
  | Some e =>
    let x := en_record e in
    l_key x = key /\ record_valid x /\ 0 <= en_revision e /\ rec_at key (l_attempt x) (en_revision e) s = Some x
    /\ (forall a r y, rec_at key a r s0 = Some y -> a <= l_attempt x)
    /\ (forall y, y ∈ en_earlier e -> exists q, rec_at (l_key y) (l_attempt y) q s = Some y /\ l_key y = key)
  end.
Lemma read_of_later key s0 entry : lasting (read_of key s0 entry).
Proof.
  intros s s' G. destruct entry as [e|]; [|done]. intros (K & V & P & L & M & E).
  split; [done|split; [done|split; [done|split; [by apply G|split; [done|]]]]].
  intros y In. destruct (E y In) as (q & Ly & Ky). exists q. split; [by apply G|done].
Qed.
Lemma read_of_entry key s0 e s : read_of key s0 (Some e) s -> entry_at e s.
Proof. intros (K & V & P & L & _). split; [done|]. exists (en_record e). rewrite K. split; [done|apply record_eqb_refl]. Qed.

Lemma ok_read t key s : inv s -> ok t (ledger_read key) (read_of key s) s.
Proof.
  intros I. unfold ledger_read. eapply quiet_rule; [done|by apply ok_lift|]. intros _ s1 I1 G1 _.
  eapply (bind_rule (fun revisions s' => exists s0, grows s s0 /\ grows s0 s' /\ revisions = revisions_of key s0 /\ inv s0)); [done| |].
  { apply ok_step. intros s2 r s3 G2 I2 [= <- <-]. split; [done|split; [done|]]. intros s4 G4 _. exists s2. split; [by etrans|done]. }
  intros revisions s2 I2 G2 (s0 & Ga & Gb & -> & I0).
  eapply quiet_rule; [done| |].
  { apply ok_step. intros s3 r s4 G3 I3 [= <- <-]. by split. }
  intros leases s3 I3 G3 _. apply ok_lift. intros entry s4 E G4 I4.
  assert (grows s0 s4) as G by by etrans; [|etrans; [|exact G4]].
  unfold read_entry in E. case_bool_decide as Emp.
  { injection E as <-. intros a r. destruct (rec_at key a r s) as [y|] eqn:L; [|done]. apply Ga in L. unfold rec_at in L. by rewrite Emp in L. }
  destruct (read_records key _) as [[[[x r] earlier]|]|] eqn:R; [|by injection E as <-; apply read_records_none in R|done].
  cbn [bind] in E. destruct (read_leases _) as [[readable unreadable]|]; [|done]. injection E as <-.
  apply read_records_spec in R as (L & K & V & M & Er). cbn. subst key.
  split; [done|split; [done|]]. split; [by eapply (v_doc _ _ I0)|]. split; [by apply G|]. split.
  - intros a q y Ly. apply Ga in Ly. by eapply M.
  - intros y In. destruct (Er y In) as (q & Ly & Ky). exists q. rewrite Ky. split; [by apply G|done].
Qed.

(** ** Writes *)

Lemma ok_write_quiet t (f : Ledger -> Ledger) s :
  inv s -> (forall s, lg_records (f s) = lg_records s /\ lg_calls (f s) = lg_calls s /\ lg_settling (f s) = lg_settling s) ->
  ok t (write (fun s => (tt, f s))) nothing s.
Proof.
  intros I Q. apply ok_write; [done|]. intros s1 r s2 G1 I1 [= <- <-]. destruct (Q s1) as (Er & Ec & Es).
  destruct (inv_quiet repr s1 (f s1)) as [I2 G2]; [done..|]. by split.
Qed.
Lemma ok_modify t (f : Ledger -> Ledger) s :
  (forall s, lg_records (f s) = lg_records s /\ lg_calls (f s) = lg_calls s /\ lg_settling (f s) = lg_settling s) ->
  ok t (modify f) nothing s.
Proof.
  intros Q. apply (ok_sync _ _ _ _ (fun s => (tt, f s))). intros s1 r s2 G1 I1 [= <- <-]. destruct (Q s1) as (Er & Ec & Es).
  destruct (inv_quiet repr s1 (f s1)) as [I2 G2]; [done..|]. by split.
Qed.
Lemma ok_read_state t R (f : Ledger -> R) s : ok t (get f) nothing s.
Proof. apply (ok_sync _ _ _ _ (fun s => (f s, s))). intros s1 r s2 G1 I1 [= <- <-]. by split. Qed.
Lemma ok_clock t s : ok t (clock_now clock) nothing s.
Proof.
  apply (ok_sync _ _ _ _ (fun s => (clock (lg_readings s), s <| lg_readings := S (lg_readings s) |>))).
  intros s1 r s2 G1 I1 [= <- <-]. destruct (inv_quiet repr s1 (s1 <| lg_readings := S (lg_readings s1) |>)) as [I2 G2]; [done..|]. by split.
Qed.

Lemma ok_create t x r s :
  inv s -> may_create repr x r s ->
  ok t (_create x r) (fun won s' => won = true -> rec_at (l_key x) (l_attempt x) r s' = Some x) s.
Proof.
  intros I M. unfold _create. eapply quiet_rule; [done|by apply ok_lift|]. intros _ s1 I1 G1 _. apply ok_write; [done|].
  intros s2 b s3 G2 I2 E. destruct (create_revision_ok repr x r s2 b s3) as (I3 & G3 & W); [done| |done|].
  { eapply may_create_later; [|exact M]. by etrans. }
  split; [done|split; [done|]]. intros s4 G4 _ B. by apply G4, W.
Qed.
Lemma ok_claim t x s :
  inv s -> may_create repr x 0 s ->
  ok t (ledger_claim x) (fun stored s' => exists r, rec_at (l_key x) (l_attempt stored) r s' = Some stored
                                                   /\ (l_state stored = SUBMITTING -> r = 0)) s.
Proof.
  intros I M. unfold ledger_claim. eapply bind_any; [done|by apply ok_create|]. cbn beta. intros won s1 I1 G1 W. destruct won.
  { apply ok_ret. intros s2 G2 _. exists 0. split; [by apply G2, W|done]. }
  eapply bind_any; [done|by apply ok_read|]. intros [e|] s2 I2 G2 Re; [|by apply ok_raise].
  destruct (_ <? _); [by apply ok_raise|]. apply ok_ret. intros s3 G3 I3. pose proof (read_of_later _ _ _ _ _ G3 Re) as (K & V & P & L & _).
  exists (en_revision e). split; [done|]. intros Sub. destruct (decide (en_revision e = 0)) as [?|N]; [done|].
  destruct (v_next _ _ I3 _ _ _ _ L N) as (y & _ & C%transition_state & _). rewrite Sub in C. exfalso. by destruct (l_state y); repeat (apply elem_of_cons in C as [?|C]; [done|]); apply elem_of_nil in C.
Qed.
Lemma ok_replace t e x s :
  inv s -> entry_at e s -> record_valid x -> (forall s', grows s s' -> justified repr (en_record e) x s') ->
  ok t (ledger_replace e x) (fun won s' => won = true ->
    l_key x = l_key (en_record e) /\ l_operation_id x = l_operation_id (en_record e)
    /\ rec_at (l_key x) (l_attempt x) (en_revision e + 1) s' = Some x) s.
Proof.
  intros I En V J. unfold ledger_replace.
  eapply (bind_rule (fun _ _ => check_transition (en_record e) x = Ok tt)); [done|apply ok_lift; by intros [] s' C|].
  intros _ s1 I1 G1 C. destruct (transition_identity _ _ C) as (K & A & O & _). eapply ok_weaken; [|apply ok_create; [done|]].
  { intros won s2 _ _ W Won. split; [done|split; [done|by apply W]]. }
  destruct En as (P & y & L & Eq). split; [done|split; [lia|split; [lia|]]]. intros _.
  replace (en_revision e + 1 - 1) with (en_revision e) by lia. exists y. rewrite K, A.
  split; [by apply G1|]. split; [by eapply check_transition_alike|].
  apply record_eqb_alike in Eq. specialize (J _ G1). unfold justified, settled_by in *.
  rewrite (al_operation _ _ Eq), (al_state _ _ Eq), (al_job _ _ Eq). done.
Qed.

(** ** The cluster *)

Lemma ok_cluster t R (answer_of : nat -> R) (call : R -> ClusterCall) s :
  (forall r s', grows s s' -> inv s' -> call_ok s' (call r)) ->
  ok t (cluster_step answer_of call) (fun r s' => call r ∈ lg_calls s') s.
Proof.
  intros C. apply wp_suspend; [exact rely_preorder|intros s1 G I; split; (split; [exact G|done])|].
  intros c s1 r s2 G I. destruct c; try done. intros [= <- <-]. set (r := answer_of (length (lg_calls s1))).
  destruct (inv_seen repr s1 (s1 <| lg_calls := lg_calls s1 ++ [call r] |>) [call r] []) as [I2 G2]; [done|done|done|by rewrite app_nil_r| |].
  { intros c ->%list_elem_of_singleton. by apply C. }
  split; [by split|]. intros s3 G3 I3. split; [by etrans; [|etrans]|]. apply G3. cbn. apply elem_of_app. right. by left.
Qed.
Lemma ok_inspect t op s : ok t (cluster_inspect inspected op) (fun o s' => Inspected op o ∈ lg_calls s') s.
Proof. by apply ok_cluster. Qed.
(** A cancellation that withdraws nothing is for an attempt that has ended. *)
Lemma ok_cancel t (withdrawing : bool) op s :
  (withdrawing = false -> exists key a r x, rec_at key a r s = Some x /\ l_operation_id x = op /\ ended x) ->
  ok t (cluster_cancel cancelled withdrawing op) (fun o s' => CancelAsked withdrawing op o ∈ lg_calls s') s.
Proof.
  intros E. apply ok_cluster. intros o s' G I. destruct withdrawing; [done|]. destruct (E eq_refl) as (key & a & r & x & L & Ex).
  exists key, a, r, x. split; [by apply G|done].
Qed.
Lemma ok_submit t me request x s :
  (exists y, rec_at (l_key x) (l_attempt x) 0 s = Some y /\ record_eqb y x = true) ->
  ok t (cluster_submit submitted me request x) nothing s.
Proof.
  intros (y & L & E). eapply ok_weaken; [|apply ok_cluster]; [done|]. intros o s' G I. exists y. split; [by apply G|done].
Qed.

(** ** Withdrawing and settling *)

Lemma transitioned_spec x to job reason y :
  transitioned x to job reason = Ok y ->
  record_valid y /\ check_transition x y = Ok tt /\ l_state y = to /\ l_key y = l_key x /\ l_attempt y = l_attempt x
  /\ l_operation_id y = l_operation_id x /\ l_job y = match job with Some _ => job | None => l_job x end.
Proof.
  unfold transitioned. destruct (validate_record _) as [z|] eqn:V; [|done]. cbn [bind]. pose proof (validate_record_same _ _ V) as ->.
  destruct (check_transition _ _) as [[]|] eqn:C; [|done]. cbn [bind]. intros [= <-]. done.
Qed.

(** [lift (transitioned x to job reason)] ends with the next record. *)
Record moved (x : LedgerRecord) (to : LedgerState) (job : option SubmitBoundJob) (y : LedgerRecord) : Prop := mk_moved {
  m_valid : record_valid y;
  m_state : l_state y = to;
  m_key : l_key y = l_key x;
  m_operation : l_operation_id y = l_operation_id x;
  m_job : l_job y = match job with Some _ => job | None => l_job x end }.
Lemma ok_transitioned t x to job reason s :
  ok t (lift (transitioned x to job reason)) (fun y _ => moved x to job y) s.
Proof. apply ok_lift. intros y s' (V & _ & S & K & _ & O & J)%transitioned_spec _ _. by constructor. Qed.

Lemma ok_cancel_live t x s :
  inv s -> state_final (l_state x) = false ->
  ok t (_cancel_live inspected cancelled x) (fun r s' =>
    match r with
    | inl _ => l_state x = L_COMPLETED \/ seen_ended (l_operation_id x) s' \/ cancel_acknowledged (l_operation_id x) s'
    | inr _ => True
    end) s.
Proof.
  intros I Nf. unfold _cancel_live. destruct (state_settled (l_state x)) eqn:St.
  { apply ok_ret. intros s' _ _. left. by destruct (l_state x). }
  assert (forall s1 known, inv s1 -> ok t (ask_cancel cancelled (l_operation_id x) known) (fun r s' =>
    match r with
    | inl _ => l_state x = L_COMPLETED \/ seen_ended (l_operation_id x) s' \/ cancel_acknowledged (l_operation_id x) s'
    | inr _ => True
    end) s1) as Ask.
  { intros s1 known I1. unfold ask_cancel. eapply bind_any; [done|by apply ok_cancel|]. intros o s2 I2 G2 In. apply ok_ret. intros s3 G3 _.
    destruct o as [job|reason]; [|done]. right. right. exists job. by apply G3. }
  eapply bind_any; [done|apply ok_inspect|]. intros o s1 I1 G1 In. destruct o as [o|reason].
  - destruct (s_terminal (o_status o)) eqn:T; [|by apply Ask]. apply ok_ret. intros s2 G2 _. right. left. exists o. split; [by apply G2|done].
  - case_bool_decide; [by apply Ask|by apply ok_ret].
Qed.

Lemma ended_of_final x : state_final (l_state x) = true -> ended x.
Proof. unfold state_final, ended. intros F. apply bool_decide_eq_true in F. destruct (l_state x); try done; auto. Qed.

Definition outcomes_true (o : option WithdrawOutcome) (s : Ledger) : Prop := match o with Some o => outcome_true o s | None => True end.
Lemma ok_withdraw_entry t key reason still e s0 s :
  inv s -> read_of key s0 (Some e) s -> ok t (withdraw_entry inspected cancelled key reason still e) outcomes_true s.
Proof.
  intros I Re. pose proof Re as (K & V & P & L & _). unfold withdraw_entry. destruct (negb (still e)); [by apply ok_ret|].
  destruct (state_final _) eqn:F.
  { apply ok_ret. intros s' G _. exists (l_attempt (en_record e)), (en_revision e), (en_record e). split; [by apply G|].
    split; [done|by apply ended_of_final]. }
  eapply bind_any; [done|by apply ok_cancel_live|]. intros [job|why] s1 I1 G1 C; [|by apply ok_ret].
  eapply bind_any; [done|apply ok_transitioned|].
  intros y s2 I2 G2 [Vy Sy Ky Oy Jy].
  eapply bind_any; [done|apply ok_replace; [done|eapply entry_at_later; [|by eapply read_of_entry]; by etrans|done|]|].
  - intros s' G. unfold justified. rewrite Sy. destruct C as [?|[(o & In & T)|(j & In)]]; [by left|right; left; exists o|right; right; exists j];
      try split; try done; (apply G, G2, In).
  - cbn beta. intros won s3 I3 G3 W. apply ok_ret. intros s4 G4 _. destruct won; [|done]. destruct (W eq_refl) as (_ & O & Ly).
    cbn. exists (l_attempt y), (en_revision e + 1), y. rewrite <- K, <- Ky. split; [by apply G4|done].
Qed.
Lemma ok_withdraw_once t key reason still s : inv s -> ok t (_withdraw_once inspected cancelled key reason still) outcomes_true s.
Proof.
  intros I. unfold _withdraw_once. apply ok_except; [done| |by intros; apply ok_ret].
  eapply bind_any; [done|by apply ok_read|]. intros [e|] s1 I1 G1 Re; [by eapply ok_withdraw_entry|by apply ok_ret].
Qed.
Lemma ok_withdraw t key reason still s : inv s -> ok t (withdraw inspected cancelled key reason still) outcome_true s.
Proof.
  unfold withdraw. generalize _ROUNDS as n. intros n. revert s. induction n as [|n IH]; intros s I; [by apply ok_ret|].
  cbn [withdraw_rounds]. eapply bind_any; [done|by apply ok_withdraw_once|]. intros [o|] s1 I1 G1 O; [|by apply IH].
  apply ok_ret. intros s2 G2 _. by eapply outcome_true_later.
Qed.

(** The entry of a job that ended: [seen] by the scheduler, or given to [settle]. *)
Lemma ok_settle t e status collected s :
  inv s -> entry_at e s ->
  ((collected = None /\ exists o, Inspected (l_operation_id (en_record e)) (Observed o) ∈ lg_calls s /\ o_status o = status)
   \/ (l_operation_id (en_record e), status, collected) ∈ lg_settling s) ->
  ok t (settle repr e status collected) nothing s.
Proof.
  intros I En Why. unfold settle. destruct (l_state (en_record e)) eqn:St; try by apply ok_ret.
  destruct (l_job (en_record e)) as [job|] eqn:J; [|by apply ok_ret].
  destruct (settlement repr status collected job) as [[to reason]|] eqn:Se; [|by apply ok_ret].
  eapply bind_any; [done|apply ok_transitioned|].
  intros y s1 I1 G1 [Vy Sy Ky Oy Jy]. eapply ok_weaken; [|apply ok_replace; [done|by eapply entry_at_later|done|]]; [done|].
  intros s' G. assert (settled_by repr (en_record e) to s') as By.
  { eapply settled_by_later; [by etrans; [exact G1|exact G]|]. exists job, status, collected, reason. done. }
  assert (to = L_COMPLETED \/ to = L_FAILED) as [-> | ->].
  { revert Se. unfold settlement. repeat (case_match; try done); intros [= <- _]; auto. }
  - unfold justified. rewrite Sy. by cbn.
  - unfold justified. rewrite Sy. by cbn.
Qed.

(** ** Sweeping *)

Definition all_true (l : list WithdrawOutcome) (s : Ledger) : Prop := forall o, o ∈ l -> outcome_true o s.
Lemma all_true_later l : lasting (all_true l).
Proof. intros s s' G W o In. by eapply outcome_true_later, W. Qed.
Lemma all_true_app l l' s : all_true l s -> all_true l' s -> all_true (l ++ l') s.
Proof. intros A B o [In|In]%elem_of_app; auto. Qed.
Lemma all_true_nil s : all_true [] s.
Proof. by intros o ?%elem_of_nil. Qed.
#[local] Hint Resolve all_true_nil : core.
Lemma all_true_one o s : outcome_true o s -> all_true [o] s.
Proof. by intros W o' ->%list_elem_of_singleton. Qed.

Definition stored (x : LedgerRecord) (s : Ledger) : Prop := exists q, rec_at (l_key x) (l_attempt x) q s = Some x.
Lemma stored_later x : lasting (stored x).
Proof. intros s s' G [q L]. exists q. by apply G. Qed.

Lemma ok_orphan_check t run now x s :
  inv s -> stored x s -> ok t (orphan_check inspected cancelled policy run now x) all_true s.
Proof.
  intros I [q L]. unfold orphan_check. destruct (negb _ || _) eqn:B; [by apply ok_ret|]. apply orb_false_iff in B as [B _].
  apply negb_false_iff, bool_decide_eq_true in B. assert (ended x) as E.
  { unfold ended. by apply elem_of_cons in B as [?|?%list_elem_of_singleton]; auto. }
  eapply quiet_rule; [done| |].
  { apply ok_sync_of. intros n s1 G1 I1. destruct (checks_due _ _ _ _) as [due a]. exists due, (set_attachment run a s1). split; [done|].
    destruct (inv_quiet repr s1 (set_attachment run a s1)) as [I2 G2]; [done..|]. by split. }
  intros due s1 I1 G1 _. destruct due; cbn [negb]; [|by apply ok_ret].
  eapply bind_any; [done|apply ok_inspect|]. intros [o|reason] s2 I2 G2 _; [|by apply ok_ret].
  destruct (s_terminal _).
  - eapply quiet_rule; [done|by apply ok_modify|]. intros _ s3 I3 G3 _. by apply ok_ret.
  - eapply bind_any; [done|apply ok_cancel|].
    { intros _. exists (l_key x), (l_attempt x), q, x. split; [by apply G2, G1|done]. }
    intros asked s3 I3 G3 _. apply ok_ret. intros s4 G4 _. destruct asked as [job|reason]; apply all_true_one; [|done].
    exists (l_attempt x), q, x. split; [by apply G4, G3, G2, G1|done].
Qed.
Lemma ok_cancel_orphans t run now l s :
  inv s -> (forall x, x ∈ l -> stored x s) -> ok t (_cancel_orphans inspected cancelled policy run now l) all_true s.
Proof.
  revert s. induction l as [|x l IH]; intros s I St; [by apply ok_ret|]. cbn [_cancel_orphans].
  eapply bind_any; [done|apply ok_orphan_check; [done|apply St; by left]|]. intros some s1 I1 G1 A.
  eapply bind_any; [done|apply IH; [done|]|].
  { intros y In. eapply stored_later, St; [done|by right]. }
  intros others s2 I2 G2 B. apply ok_ret. intros s3 G3 _. apply all_true_app; [|by eapply all_true_later].
  eapply all_true_later; [|exact A]. by etrans.
Qed.
Lemma ok_sweep_one t key reason e still s :
  inv s -> entry_at e s -> ok t (_sweep_one inspected cancelled repr key reason e still) outcomes_true s.
Proof.
  intros I En. unfold _sweep_one.
  assert (forall s1, inv s1 -> ok t (cbind (withdraw inspected cancelled key reason still) (fun outcome =>
    Ret (match outcome with Kept _ _ => None | outcome => Some outcome end))) outcomes_true s1) as Go.
  { intros s1 I1. eapply bind_any; [done|by apply ok_withdraw|]. intros o s2 I2 G2 W. apply ok_ret. intros s3 G3 _.
    pose proof (outcome_true_later _ _ _ G3 W). by destruct o. }
  destruct (negb _); [by apply Go|]. eapply bind_any; [done|apply ok_inspect|]. intros [o|why] s1 I1 G1 In; [|by apply Go].
  destruct (s_terminal _); [|by apply Go]. apply ok_except; [done| |by intros; apply ok_ret].
  eapply quiet_rule; [done|apply ok_settle; [done|by eapply entry_at_later|]|intros; by apply ok_ret]. left. split; [done|]. eauto.
Qed.
Lemma ok_sweep_key t run now key s :
  inv s -> ok t (sweep_key inspected cancelled policy repr run now key) all_true s.
Proof.
  intros I. unfold sweep_key.
  eapply (bind_rule (fun e s' => match e with inl (Some e) => read_of key s (Some e) s' | inl None => True | inr o => outcome_true o s' end)); [done| |].
  { apply ok_except; [done| |by intros; apply ok_ret]. eapply bind_any; [done|by apply ok_read|]. intros e s1 I1 G1 Re.
    apply ok_ret. intros s2 G2 _. destruct e; [|done]. by eapply read_of_later. }
  intros [[e|]|o] s1 I1 G1 Re; [|by apply ok_ret|].
  2: { apply ok_ret. intros s2 G2 _. apply all_true_one. by eapply outcome_true_later. }
  pose proof (read_of_entry _ _ _ _ Re) as En. destruct Re as (K & V & P & L & _ & Er).
  eapply bind_any; [done|apply ok_cancel_orphans; [done|]|].
  { intros x [In| ->%list_elem_of_singleton]%elem_of_app.
    - destruct (Er x In) as (q & Lx & Kx). by exists q.
    - exists (en_revision e). by rewrite K. }
  intros orphans s2 I2 G2 A. destruct (sweepable _ _ _).
  - eapply bind_any; [done|apply ok_sweep_one; [done|by eapply entry_at_later]|]. intros o s3 I3 G3 W. apply ok_ret. intros s4 G4 _.
    apply all_true_app; [eapply all_true_later; [|exact A]; by etrans|]. destruct o; [|done]. apply all_true_one. by eapply outcome_true_later.
  - apply ok_ret. intros s3 G3 _. by eapply all_true_later.
Qed.
Lemma ok_sweep_keys t run now keys s : inv s -> ok t (sweep_keys inspected cancelled policy repr run now keys) all_true s.
Proof.
  revert s. induction keys as [|key keys IH]; intros s I; [by apply ok_ret|]. cbn [sweep_keys].
  eapply bind_any; [done|by apply ok_sweep_key|]. intros some s1 I1 G1 A. eapply bind_any; [done|by apply IH|].
  intros others s2 I2 G2 B. apply ok_ret. intros s3 G3 _. apply all_true_app; [|by eapply all_true_later].
  eapply all_true_later; [|exact A]. by etrans.
Qed.

(** ** A run's attachment *)

Lemma ok_renew t run key s : inv s -> ok t (renew clock holder policy run key) nothing s.
Proof.
  intros I. unfold renew, ledger_renew. eapply quiet_rule; [done|by apply ok_clock|]. intros now s1 I1 _ _.
  eapply quiet_rule; [done|by apply ok_lift|]. intros lease s2 I2 _ _.
  eapply quiet_rule; [done| |intros _ s3 I3 _ _; by apply ok_modify].
  eapply quiet_rule; [done|by apply ok_lift|]. intros _ s3 I3 _ _. eapply quiet_rule; [done|by apply ok_lift|]. intros _ s4 I4 _ _.
  by apply ok_write_quiet.
Qed.
Lemma ok_release t run key s : inv s -> ok t (release holder run key) nothing s.
Proof.
  intros I. unfold release, ledger_release. eapply quiet_rule; [done| |intros _ s1 I1 _ _; by apply ok_modify].
  eapply quiet_rule; [done|by apply ok_lift|]. intros _ s1 I1 _ _. eapply quiet_rule; [done|by apply ok_lift|]. intros _ s2 I2 _ _.
  by apply ok_write_quiet.
Qed.
Lemma ok_sweep_if_due t run s : inv s -> ok t (sweep_if_due clock inspected cancelled policy repr run) all_true s.
Proof.
  intros I. unfold sweep_if_due, sweep_unleased. eapply quiet_rule; [done|by apply ok_clock|]. intros now s1 I1 _ _.
  eapply quiet_rule; [done| |].
  - apply ok_sync_of. intros n s2 G2 I2.
    assert (forall a, inv (set_attachment run a s2) /\ grows s2 (set_attachment run a s2)) as Set_ by (intros a; by apply inv_quiet).
    destruct (at_swept_at (attachment run s2)) as [swept|]; [destruct (f_lt _ _)|];
      [exists false, s2|exists true, (set_attachment run ((attachment run s2) <| at_swept_at := Some now |>) s2)..];
      (split; [done|]); [by split|split; [apply Set_|split; [apply Set_|done]]..].
  - intros due s2 I2 _ _. destruct due; [|by apply ok_ret]. eapply quiet_rule; [done| |intros keys s3 I3 _ _; by apply ok_sweep_keys].
    apply ok_step. intros s3 r s4 G3 I3 [= <- <-]. by split.
Qed.
Lemma ok_heartbeat t run key op s :
  inv s -> ok t (heartbeat clock inspected cancelled holder policy repr run key op) nothing s.
Proof.
  intros I. unfold heartbeat. eapply quiet_rule; [done|by apply ok_clock|]. intros now s1 I1 _ _.
  eapply quiet_rule; [done|by apply ok_read_state|]. intros last s2 I2 _ _. eapply quiet_rule; [done| |].
  - destruct (match last with Some _ => _ | None => _ end); [|by apply ok_ret].
    eapply bind_any; [done|by apply ok_read|]. intros [e|] s3 I3 _ _; [|by apply ok_raise].
    destruct (negb _); [by apply ok_raise|]. destruct (bool_decide _); [by apply ok_raise|by apply ok_renew].
  - intros _ s3 I3 _ _. eapply bind_any; [done|by apply ok_sweep_if_due|]. intros l s4 I4 _ _. by apply ok_ret.
Qed.

Definition attached_true (r : option Reply) (s : Ledger) : Prop := match r with Some r => said r s | None => True end.
Lemma said_attached a r x job request handle s :
  rec_at (l_key x) a r s = Some x -> l_state x = SUBMITTED \/ l_state x = L_COMPLETED -> l_job x = Some job ->
  handle_of_job is_dir job (l_operation_id x) request = Ok handle -> said (R_attached (l_key x) (l_operation_id x) handle) s.
Proof. intros L St J E. exists a, r, x, job, request. done. Qed.
Lemma ok_attached t run x request a r s :
  inv s -> rec_at (l_key x) a r s = Some x -> l_state x = SUBMITTED \/ l_state x = L_COMPLETED ->
  ok t (_attached clock holder policy is_dir run x request) said s.
Proof.
  intros I L St. unfold _attached. destruct (l_job x) as [job|] eqn:J; [|by apply ok_raise]. destruct (negb _); [by apply ok_raise|].
  eapply quiet_rule; [done|by apply ok_renew|]. intros _ s1 I1 G1 _.
  eapply (bind_rule (fun handle _ => handle_of_job is_dir job (l_operation_id x) request = Ok handle)); [done|by apply ok_lift|].
  intros handle s2 I2 G2 E. apply ok_ret. intros s3 G3 _. eapply said_attached; [|done..]. by apply G3, G2, G1.
Qed.
Lemma ok_attached_some t run x request a r s :
  inv s -> rec_at (l_key x) a r s = Some x -> l_state x = SUBMITTED \/ l_state x = L_COMPLETED ->
  ok t (cbind (_attached clock holder policy is_dir run x request) (fun attached => Ret (Some attached))) attached_true s.
Proof.
  intros I L St. eapply bind_any; [done|by eapply ok_attached|]. intros reply s1 I1 G1 Sd. apply ok_ret. intros s2 G2 _. by eapply said_later.
Qed.

Lemma ok_check t run e request key s0 s :
  inv s -> read_of key s0 (Some e) s -> l_state (en_record e) = SUBMITTED ->
  ok t (_check clock inspected holder policy repr is_dir run e request) attached_true s.
Proof.
  intros I Re St. pose proof (read_of_entry _ _ _ _ Re) as En. destruct Re as (K & V & P & L & _). unfold _check.
  eapply bind_any; [done|apply ok_inspect|]. intros observed s1 I1 G1 In. rewrite <- K in L.
  assert (ok t (cbind (_attached clock holder policy is_dir run (en_record e) request) (fun attached => Ret (Some attached))) attached_true s1) as Att.
  { eapply ok_attached_some; [done|by apply G1|by left]. }
  destruct (l_job (en_record e)) as [job|] eqn:J; [|done]. destruct observed as [o|reason]; [|done].
  destruct (settlement _ _ _ _); [|done]. eapply quiet_rule; [done|apply ok_settle; [done|by eapply entry_at_later|]|intros; by apply ok_ret].
  left. split; [done|]. eauto.
Qed.

(** An attempt whose record was replaced by one under another identity has ended. *)
Lemma superseded e s0 s key current :
  inv s0 -> inv s -> grows s0 s -> entry_at e s0 -> key = l_key (en_record e) -> read_of key s0 (Some current) s ->
  l_operation_id (en_record current) <> l_operation_id (en_record e) ->
  exists key a r x, rec_at key a r s = Some x /\ l_operation_id x = l_operation_id (en_record e) /\ ended x.
Proof.
  intros I0 I G (P & y & L & Eq) -> (K & V & Pc & Lc & M & _) N. apply record_eqb_alike in Eq.
  pose proof (M _ _ _ L) as Le. destruct (v_doc _ _ I0 _ _ _ _ L) as (_ & Vy & _ & Ay).
  assert (l_attempt (en_record e) <> l_attempt (en_record current)) as Na.
  { intros Ea. apply N. rewrite <- (al_operation _ _ Eq). apply G in L. rewrite Ea in L. by eapply same_operation. }
  destruct (operation_id_of _ Vy) as [_ Py].
  destruct (earlier_ended _ s (l_key (en_record e)) _ _ _ (l_attempt (en_record e)) I Lc) as (q & x & Lx & Ex); [lia|].
  exists (l_key (en_record e)), (l_attempt (en_record e)), q, x. split; [done|split; [|done]].
  rewrite <- (al_operation _ _ Eq). apply G in L. by eapply same_operation.
Qed.

Lemma ok_cancel_then t op s :
  inv s -> (exists key a r x, rec_at key a r s = Some x /\ l_operation_id x = op /\ ended x) ->
  ok t (cbind (cluster_cancel cancelled false op) (fun _ => Ret None)) attached_true s.
Proof. intros I E. eapply bind_any; [done|by apply ok_cancel|]. intros o s1 I1 _ _. by apply ok_ret. Qed.

Lemma ok_record_job t run e request handle s :
  inv s -> entry_at e s ->
  ok t (_record_job clock cancelled holder policy is_dir run e request handle) attached_true s.
Proof.
  intros I En. unfold _record_job. eapply quiet_rule; [done|by apply ok_lift|]. intros job s1 I1 G1 _.
  eapply bind_any; [done|apply ok_transitioned|].
  intros y s2 I2 G2 [Vy Sy Ky Oy Jy].
  assert (entry_at e s2) as En2 by (eapply entry_at_later; [|exact En]; by etrans).
  eapply bind_any; [done|apply ok_replace; [done|done|done|]|].
  { intros s' G. unfold justified. by rewrite Sy. }
  cbn beta. intros won s3 I3 G3 W. destruct won.
  - destruct (W eq_refl) as (_ & _ & Ly). eapply quiet_rule; [done|by apply ok_renew|]. intros _ s4 I4 G4 _.
    eapply (bind_rule (fun handle _ => handle_of_job is_dir job (l_operation_id (en_record e)) request = Ok handle)); [done|by apply ok_lift|].
    intros rebased s5 I5 G5 E. apply ok_ret. intros s6 G6 _. rewrite <- Ky, <- Oy.
    apply (said_attached (l_attempt y) (en_revision e + 1) y job request); [by apply G6, G5, G4|by left|done|by rewrite Oy].
  - pose proof (entry_at_later _ _ _ G3 En2) as En3. eapply bind_any; [done|by apply ok_read|]. intros [current|] s4 I4 G4 Re.
    + destruct (negb (pystr_eqb _ _)) eqn:No.
      { apply ok_cancel_then; [done|]. apply (superseded e s3 s4 (l_key (en_record e)) current); [exact I3|exact I4|exact G4|exact En3|reflexivity|exact Re|]. intros Eo. rewrite Eo, pystr_eqb_refl in No. done. }
      apply negb_false_iff, pystr_eqb_true in No. case_bool_decide as Ec; [|by apply ok_ret].
      eapply bind_any; [done|apply ok_cancel|].
      { intros _. destruct Re as (K & V & P & L & _). do 4 eexists. split; [exact L|split; [done|]].
        unfold ended. by apply elem_of_cons in Ec as [?|?%list_elem_of_singleton]; auto. }
      intros o s5 I5 _ _. case_bool_decide; [by apply ok_raise|by apply ok_ret].
    + exfalso. destruct En3 as (_ & z & L & _). cbn in Re. by rewrite Re in L.
Qed.

Lemma ok_resolve t run e request expired key s0 s :
  inv s -> read_of key s0 (Some e) s -> l_state (en_record e) = SUBMITTING ->
  ok t (_resolve clock inspected cancelled holder policy is_dir run e request expired) attached_true s.
Proof.
  intros I Re St. pose proof (read_of_entry _ _ _ _ Re) as En. unfold _resolve.
  eapply bind_any; [done|apply ok_inspect|]. intros observed s1 I1 G1 _. pose proof (entry_at_later _ _ _ G1 En) as En1.
  assert (ok t (if negb expired then Ret (Some (R_pending (l_key (en_record e)) (py "another process is submitting the request's job"))) else
    cbind (lift (transitioned (en_record e) L_FAILED None (Some (py "its submitter's claim expired before it recorded a job")))) (fun failed =>
    cbind (ledger_replace e failed) (fun won =>
    cbind (if (won : bool) then cbind (cluster_cancel cancelled false (l_operation_id (en_record e))) (fun _ => Ret tt) else Ret tt)
      (fun _ => Ret None)))) attached_true s1) as Over.
  { destruct (negb expired); [by apply ok_ret|].
    eapply bind_any; [done|apply ok_transitioned|].
    intros y s2 I2 G2 [Vy Sy Ky Oy Jy].
    eapply bind_any; [done|apply ok_replace; [done|by eapply entry_at_later|done|]|].
    { intros s' G. unfold justified. rewrite Sy, St. done. }
    cbn beta. intros won s3 I3 G3 W. eapply quiet_rule; [done| |intros; by apply ok_ret]. destruct won; [|by apply ok_ret].
    destruct (W eq_refl) as (_ & _ & Ly). eapply bind_any; [done|apply ok_cancel|intros; by apply ok_ret].
    intros _. do 4 eexists. split; [exact Ly|split; [done|by left]]. }
  destruct observed as [[j l p q [[h|h]|] n]|reason]; try exact Over. by apply ok_record_job.
Qed.

Lemma ok_submit_job t me run request e s :
  inv s -> entry_at e s -> en_revision e = 0 -> l_state (en_record e) = SUBMITTING ->
  ok t (_submit clock cancelled submitted holder policy is_dir me run request e) attached_true s.
Proof.
  intros I En Rv St. unfold _submit. eapply quiet_rule; [done|apply ok_submit|].
  { destruct En as (_ & y & L & E). rewrite Rv in L. by exists y. }
  intros o s1 I1 G1 _. pose proof (entry_at_later _ _ _ G1 En) as En1. destruct o as [op [h|h]|op reason|op reason|reason]; try by apply ok_ret.
  - by apply ok_record_job.
  - eapply bind_any; [done|apply ok_transitioned|].
    intros y s2 I2 G2 [Vy Sy Ky Oy Jy]. eapply bind_any; [done| |intros; by apply ok_raise].
    apply ok_replace; [done|by eapply entry_at_later|done|]. intros s' G. unfold justified. rewrite Sy, St. done.
Qed.

Lemma ok_claim_attempt t me run request key attempt labels s :
  inv s -> (attempt = 0 \/ exists q y, rec_at key (attempt - 1) q s = Some y /\ ended y) ->
  ok t (_claim clock cancelled submitted project holder policy is_dir me run request key attempt labels) attached_true s.
Proof.
  intros I Before. unfold _claim. eapply quiet_rule; [done|by apply ok_clock|]. intros now s1 I1 G1 _.
  eapply quiet_rule; [done|by apply ok_lift|]. intros op s2 I2 G2 _.
  set (x := mk_LedgerRecord key project attempt op _ _ _ _ SUBMITTING None None).
  eapply (bind_rule (fun y _ => validate_record x = Ok y)); [done|by apply ok_lift|]. intros y s3 I3 G3 V.
  pose proof (validate_record_same _ _ V) as ->.
  eapply bind_any; [done|apply ok_claim; [done|]|].
  { split; [done|split; [done|split; [|done]]]. intros _. split; [done|]. destruct Before as [?|(q & y & L & E)]; [by left|right].
    exists q, y. split; [by apply G3, G2, G1|done]. }
  cbn beta. intros stored_ s4 I4 G4 (r & L & Rz). destruct (record_eqb stored_ x) eqn:Eq; cbn [negb]; [|by apply ok_ret].
  pose proof (record_eqb_alike _ _ Eq) as Al.
  eapply quiet_rule; [done|by apply ok_renew|]. intros _ s5 I5 G5 _. apply ok_submit_job; [done| |done|done].
  split; [done|]. exists stored_. cbn. split; [|done]. apply G5. rewrite (al_attempt _ _ Al) in L.
  rewrite Rz in L; [done|]. by rewrite (al_state _ _ Al).
Qed.

Lemma ok_attach_step t me run request labels key entry now s0 s :
  inv s -> read_of key s0 entry s ->
  ok t (attach_step clock inspected cancelled submitted project holder policy repr is_dir me run request labels key (submit_step entry now)) attached_true s.
Proof.
  intros I Re. destruct entry as [e|]; cbn [submit_step].
  - pose proof Re as (K & V & P & L & _). destruct (l_state (en_record e)) eqn:St; cbn [attach_step].
    + by eapply ok_resolve.
    + by eapply ok_check.
    + rewrite <- K in L. eapply ok_attached_some; [done|exact L|by right].
    + apply ok_claim_attempt; [done|]. right. do 2 eexists. replace (l_attempt (en_record e) + 1 - 1) with (l_attempt (en_record e)) by lia.
      split; [exact L|by left].
    + apply ok_claim_attempt; [done|]. right. do 2 eexists. replace (l_attempt (en_record e) + 1 - 1) with (l_attempt (en_record e)) by lia.
      split; [exact L|by right].
  - apply ok_claim_attempt; [done|by left].
Qed.
Lemma ok_attach t me run request labels key s :
  inv s -> ok t (attach clock inspected cancelled submitted project holder policy repr is_dir me run request labels key) said s.
Proof.
  unfold attach. generalize _ATTACH_ROUNDS as n. intros n. revert s. induction n as [|n IH]; intros s I; [by apply ok_ret|].
  cbn [attach_rounds]. eapply bind_any; [done|by apply ok_read|]. intros entry s1 I1 G1 Re.
  eapply quiet_rule; [done|by apply ok_clock|]. intros now s2 I2 G2 _.
  eapply bind_any; [done|eapply ok_attach_step; [done|by eapply read_of_later]|]. intros [reply|] s3 I3 G3 Sd; [|by apply IH].
  apply ok_ret. intros s4 G4 _. by eapply said_later.
Qed.

Lemma ok_settle_rounds t n key op status collected s :
  inv s -> (op, status, collected) ∈ lg_settling s -> ok t (settle_rounds repr n key op status collected) nothing s.
Proof.
  revert s. induction n as [|n IH]; intros s I In; [by apply ok_ret|]. cbn [settle_rounds].
  eapply bind_any; [done|by apply ok_read|]. intros [e|] s1 I1 G1 Re; [|by apply ok_ret].
  destruct (pystr_eqb _ op) eqn:Eo; cbn [negb]; [|by apply ok_ret]. apply pystr_eqb_true in Eo.
  eapply quiet_rule; [done| |].
  - case_bool_decide; [|by apply ok_ret]. apply ok_settle; [done|by eapply read_of_entry|]. right. rewrite Eo. by apply G1.
  - intros done_ s2 I2 G2 _. destruct done_; [by apply ok_ret|]. destruct (l_job _); [|by apply ok_ret].
    destruct (settlement _ _ _ _); [|by apply ok_ret]. apply IH; [done|]. by apply G2, G1.
Qed.
Lemma ok_settle_attached t key op status collected s : inv s -> ok t (settle_attached repr key op status collected) nothing s.
Proof.
  intros I. unfold settle_attached. eapply (bind_rule (fun _ s' => (op, status, collected) ∈ lg_settling s')); [done| |].
  - apply ok_sync_of. intros n s1 G1 I1. do 2 eexists. split; [reflexivity|].
    destruct (inv_seen repr s1 (s1 <| lg_settling := lg_settling s1 ++ [(op, status, collected)] |>) [] [(op, status, collected)]) as [I2 G2];
      [done|done|by rewrite app_nil_r|done|by intros c ?%elem_of_nil|].
    split; [done|split; [done|]]. intros s3 G3 _. apply G3. cbn. apply elem_of_app. right. by left.
  - intros _ s1 I1 G1 In. by apply ok_settle_rounds.
Qed.

(** Every call of a process. *)
Lemma process_ok t job s :
  inv s -> wp inv rely idle accepts owed t (body clock inspected cancelled submitted project holder policy repr is_dir t job) owed s.
Proof.
  intros I. enough (ok t (body clock inspected cancelled submitted project holder policy repr is_dir t job) said s) as W.
  { eapply wp_mono; [|exact W]. by intros [r|e] s' _ [_ X]. }
  destruct job as [run request labels key|run key|run key|run key op|key op status collected|run|key reason]; cbn [body].
  - by apply ok_attach.
  - eapply quiet_rule; [done|by apply ok_renew|intros; by apply ok_ret].
  - eapply quiet_rule; [done|by apply ok_release|intros; by apply ok_ret].
  - eapply quiet_rule; [done|by apply ok_heartbeat|intros; by apply ok_ret].
  - eapply quiet_rule; [done|by apply ok_settle_attached|intros; by apply ok_ret].
  - eapply bind_any; [done|by apply ok_sweep_if_due|]. intros l s1 I1 G1 A. apply ok_ret. intros s2 G2 _. by eapply all_true_later.
  - eapply bind_any; [done|by apply ok_withdraw|]. intros o s1 I1 G1 A. apply ok_ret. intros s2 G2 _. by eapply outcome_true_later.
Qed.
End Triples.
