(* ===== verification/EvalRuns.v ===== *)
(** What the evaluation ledger guarantees, whatever processes of the project do with it, in whatever
    order their steps come, whichever of them stop, whatever the cluster answers, and however calls of
    the ledger fail. *)
From S2P Require Import Prelude Plan Floats Coroutines Processes SlurmStates SlurmTypes EvalLedger EvalStore EvalProcs EvalLogic EvalTriples.

(** ** How an attempt settles *)

(** A stage of the job has a result of its own: it ran to an exit code that is not one of an
    interruption, or was skipped. *)
Definition stage_finished (stages : list SlurmBatchStageResult) (stage : LedgerStage) : Prop :=
  exists item, latest_such (fun s => pystr_eqb (sr_name s) (ls_name stage)) stages item
    /\ sr_collection_failure item = None
    /\ match sr_exit_code item with Some code => code ∉ _INTERRUPTED_EXIT_CODES | None => sr_skipped item = true end.
(** What a run collected is an evaluation's result. *)
Definition reusable (collected : ClusterCollectOutcome) (job : SubmitBoundJob) : Prop :=
  exists result, collected = ClusterCollected (BatchResult result) /\ br_collection_failure result = None
    /\ br_job_exit_code result = Some 0 /\ forall stage, stage ∈ sb_stages job -> stage_finished (br_stages result) stage.

Lemma first_some_none {A B} (f : A -> option B) l : first_some f l = None <-> forall x, x ∈ l -> f x = None.
Proof.
  induction l as [|x l IH]; cbn; [split; [by intros _ ? ?%elem_of_nil|done]|].
  destruct (f x) eqn:E; [split; [done|intros H; by rewrite H in E by left]|]. rewrite IH. split.
  - by intros H y [->|In]%elem_of_cons; auto.
  - intros H y In. apply H. by right.
Qed.
Lemma stage_problem_None repr stages stage :
  _stage_problem repr (ls_name stage) (by_name stages (ls_name stage)) = None <-> stage_finished stages stage.
Proof.
  unfold stage_finished, _stage_problem, by_name. destruct (find_last _ stages) as [item|] eqn:F.
  - split.
    + intros P. exists item. split; [by apply find_last_Some|]. destruct (sr_collection_failure item); [done|]. split; [done|].
      destruct (sr_exit_code item); [by case_bool_decide|by destruct (sr_skipped item)].
    + intros (item' & F' & Cn & C). apply find_last_Some in F'. assert (item' = item) as -> by congruence.
      rewrite Cn. destruct (sr_exit_code item); [by rewrite bool_decide_false|by rewrite C].
  - split; [done|]. intros (item & L%find_last_Some & _). congruence.
Qed.
Lemma unreusable_None repr collected job : _unreusable repr collected job = None <-> reusable collected job.
Proof.
  unfold reusable, _unreusable. destruct collected as [[r|r]|reason result]; [by split; [|intros (? & [= ] & _)]| |by split; [|intros (? & [= ] & _)]].
  destruct (br_collection_failure r) eqn:Cf; [split; [done|intros (? & [= <-] & E & _); congruence]|].
  case_bool_decide as Ec; [|split; [done|intros (? & [= <-] & _ & E & _); congruence]].
  unfold stages_problem. rewrite first_some_none. split.
  - intros P. exists r. split; [done|split; [done|split; [done|]]]. intros stage In. by eapply stage_problem_None, P.
  - intros (? & [= <-] & _ & _ & P) stage In. by apply stage_problem_None, P.
Qed.

(** An attempt is settled as completed exactly when its job ended as completed and a run collected a
    batch that exited zero in which every stage of the job has a result of its own; a job that ended
    otherwise settles it as failed, and one that has not ended, or whose results were not read, leaves it
    unsettled. *)
Lemma settlement_exact repr status collected job :
  (forall reason, settlement repr status collected job = Some (mk_Settlement L_COMPLETED reason) <->
     reason = None /\ status = S_COMPLETED /\ exists c, collected = Some c /\ reusable c job)
  /\ (settlement repr status collected job = None <->
     s_terminal status = false \/ (status = S_COMPLETED /\ (collected = None \/ exists reason, collected = Some (CollectUnknown reason None)))).
Proof.
  unfold settlement. destruct (s_terminal status) eqn:T; cbn [negb].
  2: { split; [|by split; [left|]]. intros reason. split; [done|]. intros (_ & -> & _). done. }
  case_bool_decide as C; cbn [negb].
  2: { split; [intros reason; split; [done|by intros (_ & ? & _)]|]. split; [done|]. by intros [?|(? & _)]. }
  split.
  - intros reason. split.
    + destruct collected as [c|]; [|done]. intros E.
      assert (_unreusable repr c job = None /\ reason = None) as [U ->].
      { destruct c as [r|why [r|]]; [..|done]; (destruct (_unreusable repr _ job); [done|]); by injection E as <-. }
      split; [done|split; [done|]]. exists c. split; [done|by eapply unreusable_None].
    + intros (-> & _ & c & -> & R). pose proof R as (r & -> & _). by rewrite (proj2 (unreusable_None repr _ _) R).
  - split.
    + intros E. right. split; [done|]. destruct collected as [[r|why [r|]]|]; [| |by right; exists why|by left]; by destruct (_unreusable repr _ job).
    + intros [?|(_ & [->|(why & ->)])]; done.
Qed.

Lemma settled_terminal repr status collected job settled : settlement repr status collected job = Some settled -> s_terminal status = true.
Proof. unfold settlement. by destruct (s_terminal status). Qed.
Lemma settled_completed repr status collected job reason :
  settlement repr status collected job = Some (mk_Settlement L_COMPLETED reason) ->
  status = S_COMPLETED /\ exists c, collected = Some c /\ reusable c job.
Proof.
  intros E. pose proof (settled_terminal _ _ _ _ _ E) as T. unfold settlement in E. rewrite T in E. cbn [negb] in E.
  case_bool_decide; cbn [negb] in E; [|done]. split; [done|]. destruct collected as [c|]; [|done]. exists c. split; [done|].
  apply (unreusable_None repr). destruct c as [r|why [r|]]; [..|done]; (destruct (_unreusable repr _ job); [done|done]).
Qed.

Lemma settled_failed repr collected job reason :
  settlement repr S_COMPLETED collected job = Some (mk_Settlement L_FAILED reason) -> exists c, collected = Some c /\ ~ reusable c job.
Proof.
  unfold settlement. cbn [s_terminal negb]. rewrite bool_decide_true by done. cbn [negb]. destruct collected as [c|]; [|done].
  intros E. exists c. split; [done|]. intros Re. pose proof Re as (r & -> & _). apply (unreusable_None repr) in Re. by rewrite Re in E.
Qed.

(** ** Schedules *)

(** The ledger of a project starts empty; [run] follows a schedule of the calls its runs and operators
    make, of the steps of their processes, and of interruptions. *)
Definition begin : World Ledger Job Reply := mk_World empty_ledger ∅ 0.

Section Runs.
Context `{LedgerCodecLaws}.
Variable clock : nat -> float.
Variable inspected : nat -> pystr -> ClusterInspectOutcome.
Variable cancelled : nat -> pystr -> ClusterCancelOutcome.
Variable submitted : nat -> SlurmBatchRequest -> pystr -> ClusterSubmitOutcome.
Variable project : pystr.
Variable holder : nat -> pystr.
Variable policy : nat -> LedgerPolicy.
Variable repr : pystr -> pystr.
Variable is_dir : pystr -> bool.

Definition run (w : World Ledger Job Reply) (l : list Move) : option (World Ledger Job Reply) :=
  run_moves (body clock inspected cancelled submitted project holder policy repr is_dir) w l.
Definition sound (w : World Ledger Job Reply) : Prop := world_ok (inv repr) rely idle accepts (owed is_dir) w.

Lemma rec_at_begin key a r : rec_at key a r empty_ledger = None.
Proof. unfold rec_at, revisions_of. cbn. by rewrite lookup_empty. Qed.
Lemma ledger_begin_inv : inv repr empty_ledger.
Proof.
  constructor; try (intros *; by rewrite rec_at_begin).
  - by intros t x o ?%elem_of_nil.
  - by intros op o ?%elem_of_nil.
Qed.
Lemma ledger_begin_sound : sound begin.
Proof. split; [apply ledger_begin_inv|by split]. Qed.
Lemma ledger_run_ok l w w' : sound w -> run w l = Some w' -> sound w' /\ grows (w_state w) (w_state w').
Proof.
  intros Sw R. destruct (run_moves_ok (inv repr) rely idle accepts (owed is_dir)
    (body clock inspected cancelled submitted project holder policy repr is_dir) (fun _ => True)) with (l := l) (w := w) (w' := w')
    as [Sw' [_ B]]; try done.
  - intros t j s I _. by apply process_ok.
  - split; [done|]. by apply (B (w_next w')).
Qed.

Section Reached.
Context (l : list (Move (J := Job))) (w : World Ledger Job Reply).
Hypothesis R : run begin l = Some w.
Lemma ledger_reached_sound : sound w.
Proof. by destruct (ledger_run_ok _ _ _ ledger_begin_sound R). Qed.
Lemma ledger_reached_inv : inv repr (w_state w).
Proof. by destruct ledger_reached_sound. Qed.
End Reached.

(** C32. An attempt's record is a history that only grows: a stored revision never changes; an attempt
    begins as being submitted, each further revision is a legal transition of the one before, and none
    follows a failed or a withdrawn one; and an attempt exists only once every earlier one has ended so. *)
Theorem attempts_are_histories l w l' w' :
  run begin l = Some w -> run w l' = Some w' ->
  (forall key a r x, rec_at key a r (w_state w) = Some x -> rec_at key a r (w_state w') = Some x)
  /\ (forall key a r y, rec_at key a r (w_state w') = Some y ->
        0 <= r /\ (r = 0 -> l_state y = SUBMITTING)
        /\ (r <> 0 -> exists x, rec_at key a (r - 1) (w_state w') = Some x /\ check_transition x y = Ok tt)
        /\ (forall b, 0 <= b < a -> exists q x, rec_at key b q (w_state w') = Some x /\ ended x))
  /\ (forall key a r x, rec_at key a r (w_state w) = Some x -> ended x ->
        forall q y, rec_at key a q (w_state w') = Some y -> q <= r).
Proof.
  intros R R'. destruct (ledger_run_ok _ _ _ (ledger_reached_sound _ _ R) R') as [[I' _] G]. split; [apply G|split].
  - intros key a r y L. split; [by apply (v_doc _ _ I' _ _ _ _ L)|]. split; [intros ->; by eapply (v_first _ _ I')|]. split.
    + intros N. destruct (v_next _ _ I' _ _ _ _ L N) as (x & ? & ? & _). eauto.
    + intros b. by eapply earlier_ended.
  - intros key a r x L%G E q y L'. by eapply ended_last.
Qed.

Lemma f_same_common x y z : f_same x y = true -> f_same x z = true -> f_same y z = true.
Proof.
  unfold f_same. rewrite !orb_true_iff, !andb_true_iff, !f_eq_key.
  intros [(k & Kx & Ky)|[Nx Ny]] [(k' & Kx' & Kz)|[Nx' Nz]]; [left; exists k; split; congruence| | |by right];
    by destruct x.
Qed.

(** C33. Two submissions of one attempt are of one run: whatever processes claim the attempt at the same
    moment, those that go on to submit its job have the owner its stored claim names, and claimed it when
    the clock read the same. *)
Theorem one_run_submits l w t x o u y p :
  run begin l = Some w ->
  Submitted t x o ∈ lg_calls (w_state w) -> Submitted u y p ∈ lg_calls (w_state w) ->
  l_key x = l_key y -> l_attempt x = l_attempt y ->
  l_owner x = l_owner y /\ f_same (l_created_at x) (l_created_at y) = true
  /\ exists z, rec_at (l_key x) (l_attempt x) 0 (w_state w) = Some z /\ l_owner z = l_owner x.
Proof.
  intros R A B K E. pose proof (ledger_reached_inv _ _ R) as I.
  destruct (v_submitted _ _ I _ _ _ A) as (z & Lz & Ez%record_eqb_alike), (v_submitted _ _ I _ _ _ B) as (z' & Lz' & Ez'%record_eqb_alike).
  rewrite K, E in Lz. assert (z' = z) as -> by congruence. pose proof (al_owner _ _ Ez). pose proof (al_owner _ _ Ez').
  split; [congruence|split]; [|exists z; by rewrite K, E].
  eapply f_same_common; [apply (al_created _ _ Ez)|apply (al_created _ _ Ez')].
Qed.

(** C30. A request is withdrawn on the scheduler's word. An attempt is recorded as withdrawn only
    from completed, or once an inspection had reported its job ended, or once a cancel of its job
    had been acknowledged; and a cancel asked for outside a withdrawal (a sweep's, of an orphan) is
    always for an attempt already recorded as failed or withdrawn. This is what the ledger was told
    before it wrote, and no more: as the cancel comes first, a crash leaves a cancelled job under a
    live record; a run that leases the request too late loses its job ([late_lease_is_withdrawn]); and
    whether an acknowledged cancel stopped the job is the port's part ([tombstone_hides_job]). *)
Theorem withdrawn_on_the_schedulers_word l w :
  run begin l = Some w ->
  (forall key a r y, rec_at key a r (w_state w) = Some y -> l_state y = WITHDRAWN ->
     exists x, rec_at key a (r - 1) (w_state w) = Some x
       /\ (l_state x = L_COMPLETED \/ seen_ended (l_operation_id y) (w_state w) \/ cancel_acknowledged (l_operation_id y) (w_state w)))
  /\ (forall op o, CancelAsked false op o ∈ lg_calls (w_state w) ->
     exists key a r x, rec_at key a r (w_state w) = Some x /\ l_operation_id x = op /\ ended x).
Proof.
  intros R. pose proof (ledger_reached_inv _ _ R) as I. split; [|apply (v_cancelled _ _ I)]. intros key a r y L W.
  destruct (decide (r = 0)) as [->|N]; [by rewrite (v_first _ _ I _ _ _ L) in W|].
  destruct (v_next _ _ I _ _ _ _ L N) as (x & Lx & C & J). exists x. split; [done|].
  destruct (transition_identity _ _ C) as (_ & _ & -> & _). unfold justified in J. by rewrite W in J.
Qed.

(** C31. An attempt settles on evidence only: it is recorded as completed only if its job was reported as
    completed with collected results that are an evaluation's; and a job that had started fails its
    attempt only if it was seen, or reported, to have ended otherwise, or left results that are not. *)
Theorem settled_on_evidence l w key a r x y :
  run begin l = Some w ->
  rec_at key a r (w_state w) = Some y -> rec_at key a (r - 1) (w_state w) = Some x -> l_state x = SUBMITTED ->
  (l_state y = L_COMPLETED -> exists job c,
     l_job y = Some job /\ reusable c job /\ (l_operation_id y, S_COMPLETED, Some c) ∈ lg_settling (w_state w))
  /\ (l_state y = L_FAILED -> exists job status, l_job y = Some job /\ s_terminal status = true
     /\ ((status <> S_COMPLETED /\
           ((exists o, Inspected (l_operation_id y) (Observed o) ∈ lg_calls (w_state w) /\ o_status o = status)
            \/ exists c, (l_operation_id y, status, c) ∈ lg_settling (w_state w)))
         \/ exists c, (l_operation_id y, S_COMPLETED, Some c) ∈ lg_settling (w_state w) /\ ~ reusable c job)).
Proof.
  intros R L Lx Sx. pose proof (ledger_reached_inv _ _ R) as I.
  assert (r <> 0) as N. { intros ->. destruct (v_doc _ _ I _ _ _ _ Lx). lia. }
  destruct (v_next _ _ I _ _ _ _ L N) as (x' & Lx' & C & J). assert (x' = x) as -> by congruence.
  destruct (transition_identity _ _ C) as (_ & _ & -> & _). unfold justified in J. split; intros Sy; rewrite Sy in J.
  - destruct J as (job & status & collected & reason & Jx & S & W). destruct (settled_completed _ _ _ _ _ S) as (-> & c & -> & Re).
    exists job, c. split; [by eapply transition_job|split; [done|]]. by destruct W as [[? _]|W].
  - destruct (J Sx) as (job & status & collected & reason & Jx & S & W). exists job, status.
    split; [by eapply transition_job|split; [by eapply settled_terminal|]].
    destruct (decide (status = S_COMPLETED)) as [->|Ns].
    + right. apply settled_failed in S as (c & -> & Nr). exists c. split; [by destruct W as [[? _]|W]|done].
    + left. split; [done|]. destruct W as [[_ W]|W]; [by left|right; eauto].
Qed.

(** C34. What a process answers is on record: an attached request's attempt is stored with a job, not
    ended, and the handle is that job's; a withdrawn one's is stored as withdrawn, or had ended before. *)
Theorem replies_are_recorded l w t reply :
  run begin l = Some w -> finished w t = Some (Ans reply) -> said is_dir reply (w_state w).
Proof.
  intros R F. pose proof (ledger_reached_sound _ _ R) as Sw.
  exact (finished_owed (inv repr) rely idle accepts (owed is_dir) None w t (Ans reply) Sw ltac:(done) F).
Qed.
End Runs.
