(* ===== verification/Formats.v ===== *)
(** Text forms whose reading gives the value back: the codecs of the examples are made of them. *)
From Stdlib Require Import SpecFloat.
From S2P Require Import Prelude Floats.

(** A text form whose reading gives the value back, whatever follows it. *)
Class Format (A : Type) := mk_Format {
  put : A -> pystr;
  scan : pystr -> option (A * pystr);
  scan_put : forall x rest, scan (put x ++ rest) = Some (x, rest) }.
#[export] Instance format_N : Format N.
Proof. refine (mk_Format _ (fun n => [n]) (fun t => match t with n :: t => Some (n, t) | [] => None end) _). done. Defined.
Definition format_via {A B} `{Format B} (f : A -> B) (g : B -> A) (gf : forall x, g (f x) = x) : Format A.
Proof.
  refine (mk_Format _ (fun x => put (f x)) (fun t => match scan t with Some (y, t) => Some (g y, t) | None => None end) _).
  intros x rest. by rewrite scan_put, gf.
Defined.
#[export] Instance format_pair {A B} `{Format A, Format B} : Format (A * B).
Proof.
  refine (mk_Format _ (fun x => put (fst x) ++ put (snd x))
    (fun t => match scan t with
              | Some (x, t) => match scan t with Some (y, t) => Some ((x, y), t) | None => None end
              | None => None
              end) _).
  intros [x y] rest. cbn. by rewrite <- app_assoc, !scan_put.
Defined.
Fixpoint scan_list {A} `{Format A} (n : nat) (t : pystr) : option (list A * pystr) :=
  match n with
  | O => Some ([], t)
  | S n =>
    match scan t with
    | Some (x, t) => match scan_list n t with Some (l, t) => Some (x :: l, t) | None => None end
    | None => None
    end
  end.
Lemma scan_list_put {A} `{Format A} (l : list A) rest : scan_list (length l) (concat (map put l) ++ rest) = Some (l, rest).
Proof. induction l as [|x l IH]; cbn; [done|]. by rewrite <- app_assoc, scan_put, IH. Qed.
#[export] Instance format_list {A} `{Format A} : Format (list A).
Proof.
  refine (mk_Format _ (fun l => N.of_nat (length l) :: concat (map put l))
    (fun t => match t with n :: t => scan_list (N.to_nat n) t | [] => None end) _).
  intros l rest. cbn. rewrite Nat2N.id. apply scan_list_put.
Defined.
#[export] Instance format_option {A} `{Format A} : Format (option A).
Proof.
  refine (format_via (fun x => match x with Some x => [x] | None => [] end) (fun l => head l) _). by intros [].
Defined.
#[export] Instance format_Z : Format Z.
Proof.
  refine (format_via (fun z => (if z <? 0 then 1%N else 0%N, Z.abs_N z))
    (fun x => if (fst x =? 1)%N then - Z.of_N (snd x) else Z.of_N (snd x)) _).
  intros z. destruct (Z.ltb_spec z 0); cbn; rewrite N2Z.inj_abs_N; lia.
Defined.
#[export] Instance format_bool : Format bool.
Proof. refine (format_via (fun b : bool => if b then 1%N else 0%N) (fun n => (n =? 1)%N) _). by intros []. Defined.
#[export] Instance format_float : Format float.
Proof.
  refine (format_via
    (fun x => match x with
              | S754_zero s => (0, (s, (0, 0))) | S754_infinity s => (1, (s, (0, 0))) | S754_nan => (2, (false, (0, 0)))
              | S754_finite s m e => (3, (s, (Zpos m, e)))
              end : Z * (bool * (Z * Z)))
    (fun x => let '(tag, (s, (m, e))) := x in
      if tag =? 0 then S754_zero s else if tag =? 1 then S754_infinity s else if tag =? 2 then S754_nan
      else S754_finite s (Z.to_pos m) e) _).
  by intros [].
Defined.
Definition read_fields {A} `{Format A} (t : pystr) : result A :=
  match scan t with Some (x, _) => Ok x | None => Err (ValueError "" []) end.
Lemma read_put {A} `{Format A} (x : A) rest : read_fields (put x ++ rest) = Ok x.
Proof. unfold read_fields. by rewrite scan_put. Qed.
