(* ===== verification/EvalExample.v ===== *)
(** Schedules of the evaluation ledger, computed over a codec that reads back what it writes: the
    guarantees at work, and a lease that comes too late. *)
From S2P Require Import Prelude Plan Floats Coroutines Processes SlurmStates SlurmTypes EvalLedger EvalStore EvalProcs EvalLogic EvalTriples EvalRuns Formats.

(** ** A codec *)

#[export] Instance format_LedgerArtifact : Format LedgerArtifact.
Proof.
  refine (format_via (fun a => (la_remote_path a, (match la_kind a with K_file => true | K_tree => false end, la_collect_on_failure a)))
    (fun x => mk_LedgerArtifact (fst x) (if fst (snd x) then K_file else K_tree) (snd (snd x))) _).
  by intros [p [] c].
Defined.
#[export] Instance format_LedgerStage : Format LedgerStage.
Proof. refine (format_via (fun s => (ls_name s, ls_artifacts s)) (fun x => mk_LedgerStage (fst x) (snd x)) _). by intros []. Defined.
#[export] Instance format_SubmitBoundJob : Format SubmitBoundJob.
Proof.
  refine (format_via
    (fun j => (sb_job_id j, sb_config_identity j, sb_remote_workspace j, sb_remote_status_path j, sb_remote_log_path j,
               sb_stop_on_failure j, sb_stages j, sb_result_layout j))
    (fun '(a, b, c, d, e, f, g, h) => mk_SubmitBoundJob a b c d e f g h) _).
  by intros [].
Defined.
#[export] Instance format_LedgerState : Format LedgerState.
Proof.
  refine (format_via
    (fun s => match s with SUBMITTING => 0 | SUBMITTED => 1 | L_COMPLETED => 2 | L_FAILED => 3 | WITHDRAWN => 4 end)
    (fun n => if n =? 0 then SUBMITTING else if n =? 1 then SUBMITTED else if n =? 2 then L_COMPLETED
              else if n =? 3 then L_FAILED else WITHDRAWN) _).
  by intros [].
Defined.
#[export] Instance format_LedgerRecord : Format LedgerRecord.
Proof.
  refine (format_via
    (fun r => (l_key r, l_project r, l_attempt r, l_operation_id r, l_owner r, l_created_at r, l_claim_expires_at r,
               (lb_candidate (l_labels r), lb_workstream (l_labels r)), l_state r, l_job r, l_reason r))
    (fun '(a, b, c, d, e, f, g, (p, q), i, j, k) => mk_LedgerRecord a b c d e f g (mk_LedgerLabels p q) i j k) _).
  by intros [? ? ? ? ? ? ? [] ? ? ?].
Defined.
#[export] Instance format_LedgerLease : Format LedgerLease.
Proof.
  refine (format_via (fun l => (le_holder l, le_renewed_at l, le_expires_at l)) (fun '(a, b, c) => mk_LedgerLease a b c) _).
  by intros [].
Defined.

#[export] Instance text_codec : LedgerCodec := {|
  Document := N * pystr;
  decode_object t := match t with v :: t => Some (v, t) | [] => None end;
  version_is d v := Z.of_N (fst d) =? v;
  record_fields d := read_fields (snd d);
  lease_fields d := read_fields (snd d);
  dump_record r := 1%N :: put r;
  dump_lease l := 1%N :: put l |}.
#[export] Instance text_codec_laws : LedgerCodecLaws.
Proof.
  intros r d r' D F. change (Some (1%N, put r ++ [10%N]) = Some d) in D. injection D as <-.
  change (read_fields (put r ++ [10%N]) = Ok r') in F. rewrite read_put in F. congruence.
Qed.

(** ** A project *)

Definition key_a : pystr := py "aaaaaaaaaaaaaaaaaaaaaaaaaaaaaaaaaaaaaaaaaaaaaaaaaaaaaaaaaaaaaaaa".
Definition bench : SlurmBatchStage := mk_SlurmBatchStage (py "bench") [py "run"] None [] [].
Definition request_a : SlurmBatchRequest := mk_SlurmBatchRequest (py "/w") [bench] true None [].
Definition no_labels : LedgerLabels := mk_LedgerLabels None None.
Definition batch_of (operation_id : pystr) : SlurmBatchHandle :=
  mk_SlurmBatchHandle
    (mk_SlurmJobHandle (py "7") operation_id key_a (py "/r/x/workspace") (py "/r/x/status") (py "/r/x/log") [] f_zero 0)
    [stage_handle bench] true f_zero f_zero.
(** The stage that ran [code]. *)
Definition bench_result (code : Z) : SlurmBatchStageResult :=
  mk_SlurmBatchStageResult (py "bench") (Some code) [] [] None false [] None.
Definition results (code : Z) : ClusterCollectOutcome :=
  ClusterCollected (BatchResult (mk_SlurmBatchResult (py "7") (Some 0) [] [bench_result code] [] 0 [] None)).

(** Two runs; a cluster whose job runs until it is cancelled; and a clock. *)
Definition holder_of (run : nat) : pystr := if (run =? 0)%nat then py "run-a" else py "run-b".
Definition policy_of (run : nat) : LedgerPolicy := mk_LedgerPolicy (f_of_Z 60) (f_of_Z 30) (f_of_Z 60) false.
Definition is_running (n : nat) (operation_id : pystr) : ClusterInspectOutcome :=
  Observed (mk_ClusterObservation (py "7") (Running 0) None None None None).
Definition cancels (n : nat) (operation_id : pystr) : ClusterCancelOutcome := CancelRequested (Some (py "7")).
Definition submits (n : nat) (request : SlurmBatchRequest) (operation_id : pystr) : ClusterSubmitOutcome :=
  ClusterSubmitted operation_id (BatchHandle (batch_of operation_id)).
(** The readings of the clock, in turn. *)
Definition reads (times : list Z) (n : nat) : float := f_of_Z (nth n times 1000).

Abbreviation ledger_world := (World Ledger Job Reply).
Definition run_at (times : list Z) : ledger_world -> list Move -> option ledger_world :=
  run (reads times) is_running cancels submits (py "project") holder_of policy_of id (fun _ => true).
Definition from (times : list Z) (w : ledger_world) (l : list Move) : ledger_world := default w (run_at times w l).
Definition goes (t n : nat) : list (Move (J := Job)) := replicate n (M_run t C_ok).
Definition completes (times : list Z) (w : ledger_world) (l : list Move) : bool :=
  match run_at times w l with Some _ => true | None => false end.
Lemma run_from times w l : completes times w l = true -> run_at times w l = Some (from times w l).
Proof. unfold completes, from. by destruct (run_at times w l). Qed.
Definition state_at (w : ledger_world) (attempt revision : Z) : option LedgerState :=
  l_state <$> rec_at key_a attempt revision (w_state w).

Definition attach_a (run : nat) : Job := J_attach run request_a no_labels key_a.

(** ** The guarantees at work *)

(** A run's request is attached; an operator withdraws it; another run asks for it again. *)
Definition still_clock : list Z := [0; 0; 0; 0].
Definition attaching : list Move := M_call (attach_a 0) :: goes 0 18.
Definition withdrawing : list Move := M_call (J_withdraw key_a (py "unwanted")) :: goes 1 7.
Definition attaching_again : list Move := M_call (attach_a 1) :: goes 2 18.
Definition withdrawn : ledger_world := from still_clock begin (attaching ++ withdrawing).
Definition attached_again : ledger_world := from still_clock withdrawn attaching_again.

Lemma attempts_are_histories_witness :
  state_at withdrawn 0 2 = Some WITHDRAWN /\ state_at attached_again 1 1 = Some SUBMITTED
  /\ forall key a r y, rec_at key a r (w_state attached_again) = Some y ->
       0 <= r /\ (r = 0 -> l_state y = SUBMITTING)
       /\ (r <> 0 -> exists x, rec_at key a (r - 1) (w_state attached_again) = Some x /\ check_transition x y = Ok tt)
       /\ (forall b, 0 <= b < a -> exists q x, rec_at key b q (w_state attached_again) = Some x /\ ended x).
Proof.
  split; [by vm_compute|split; [by vm_compute|]].
  refine (proj1 (proj2 (attempts_are_histories (reads still_clock) is_running cancels submits (py "project") holder_of policy_of id
    (fun _ => true) (attaching ++ withdrawing) withdrawn attaching_again attached_again _ _))).
  - apply run_from. by vm_compute.
  - apply run_from. by vm_compute.
Defined.

Lemma withdrawn_on_the_schedulers_word_witness :
  state_at withdrawn 0 2 = Some WITHDRAWN
  /\ forall op o, CancelAsked false op o ∈ lg_calls (w_state withdrawn) ->
       exists key a r x, rec_at key a r (w_state withdrawn) = Some x /\ l_operation_id x = op /\ ended x.
Proof.
  split; [by vm_compute|].
  refine (proj2 (withdrawn_on_the_schedulers_word (reads still_clock) is_running cancels submits (py "project") holder_of policy_of id
    (fun _ => true) (attaching ++ withdrawing) withdrawn _)).
  apply run_from. by vm_compute.
Defined.

Definition record_at (w : ledger_world) (attempt revision : Z) : LedgerRecord :=
  default (mk_LedgerRecord [] [] 0 [] [] f_zero f_zero no_labels SUBMITTING None None) (rec_at key_a attempt revision (w_state w)).
Definition reported (code : Z) : ledger_world :=
  from still_clock begin (attaching ++ M_call (J_settle key_a (operation_of key_a 0) S_COMPLETED (Some (results code))) :: goes 1 6).
Lemma settled_on_evidence_witness :
  state_at (reported 0) 0 2 = Some L_COMPLETED /\ state_at (reported 137) 0 2 = Some L_FAILED
  /\ exists job c, l_job (record_at (reported 0) 0 2) = Some job /\ reusable c job
       /\ (l_operation_id (record_at (reported 0) 0 2), S_COMPLETED, Some c) ∈ lg_settling (w_state (reported 0)).
Proof.
  split; [by vm_compute|split; [by vm_compute|]].
  refine (proj1 (settled_on_evidence (reads still_clock) is_running cancels submits (py "project") holder_of policy_of id
    (fun _ => true) (attaching ++ M_call (J_settle key_a (operation_of key_a 0) S_COMPLETED (Some (results 0))) :: goes 1 6)
    (reported 0) key_a 0 2 (record_at (reported 0) 0 1) (record_at (reported 0) 0 2) _ _ _ _) _).
  - apply run_from. by vm_compute.
  - by vm_compute.
  - by vm_compute.
  - by vm_compute.
  - by vm_compute.
Defined.

Definition attached_reply (w : ledger_world) : Reply :=
  match finished w 0 with Some (Ans reply) => reply | _ => R_none end.
Definition attached : ledger_world := from still_clock begin attaching.
Lemma replies_are_recorded_witness :
  state_at attached 0 1 = Some SUBMITTED /\ attached_reply attached <> R_none
  /\ said (fun _ => true) (attached_reply attached) (w_state attached).
Proof.
  split; [by vm_compute|split; [by vm_compute|]].
  refine (replies_are_recorded (reads still_clock) is_running cancels submits (py "project") holder_of policy_of id
    (fun _ => true) attaching attached 0 (attached_reply attached) _ _).
  - apply run_from. by vm_compute.
  - by vm_compute.
Defined.

(** Two processes of one run claim the attempt when the clock reads the same: both submit it. *)
Definition claiming_twice : list Move :=
  M_call (attach_a 0) :: goes 0 3 ++ M_call (attach_a 0) :: goes 1 3 ++ goes 0 3 ++ goes 1 17 ++ goes 0 18.
Definition claimed_twice : ledger_world := from still_clock begin claiming_twice.
Definition submissions (w : ledger_world) : list (nat * LedgerRecord * ClusterSubmitOutcome) :=
  omap (fun c => match c with Submitted t x o => Some (t, x, o) | _ => None end) (lg_calls (w_state w)).
Lemma equal_claims_both_submit :
  exists l w, run_at still_clock begin l = Some w
  /\ exists t u x y o p, t <> u /\ Submitted t x o ∈ lg_calls (w_state w) /\ Submitted u y p ∈ lg_calls (w_state w)
     /\ l_operation_id x = l_operation_id y.
Proof.
  exists claiming_twice, claimed_twice. split; [apply run_from; by vm_compute|].
  exists 1%nat, 0%nat, (record_at claimed_twice 0 0), (record_at claimed_twice 0 0), (submits 0 request_a (operation_of key_a 0)),
    (submits 0 request_a (operation_of key_a 0)).
  split; [done|split; [|split; [|done]]]; apply list_elem_of_In;
    [apply (nth_error_In _ 0)|apply (nth_error_In _ 1)]; by vm_compute.
Qed.
Lemma one_run_submits_witness :
  map (fun s => fst (fst s)) (submissions claimed_twice) = [1%nat; 0%nat]
  /\ l_owner (record_at claimed_twice 0 0) = l_owner (record_at claimed_twice 0 0)
     /\ f_same (l_created_at (record_at claimed_twice 0 0)) (l_created_at (record_at claimed_twice 0 0)) = true
     /\ exists z, rec_at (l_key (record_at claimed_twice 0 0)) (l_attempt (record_at claimed_twice 0 0)) 0 (w_state claimed_twice) = Some z
                  /\ l_owner z = l_owner (record_at claimed_twice 0 0).
Proof.
  split; [by vm_compute|].
  set (o := submits 0 request_a (operation_of key_a 0)).
  refine (one_run_submits (reads still_clock) is_running cancels submits (py "project") holder_of policy_of id
    (fun _ => true) claiming_twice claimed_twice 1 (record_at claimed_twice 0 0) o 0 (record_at claimed_twice 0 0) o _ _ _ _ _).
  - apply run_from. by vm_compute.
  - apply list_elem_of_In. apply (nth_error_In _ 0). by vm_compute.
  - apply list_elem_of_In. apply (nth_error_In _ 1). by vm_compute.
  - done.
  - done.
Defined.

(** ** A lease that comes too late *)

(** The sweep of run b has read the request as unleased and is about to cancel its job when run a renews
    its lease. *)
Definition sweeping : list Move := M_call (J_sweep 1) :: goes 1 9 ++ M_call (J_renew 0 key_a) :: goes 2 5.
(** A lease does not keep a request that a sweep has already read: a run that renews its lease after
    that reading, and before anything was cancelled, loses its running job and its request all the same,
    since the compare-and-swap guards the record and not its leases. *)
Lemma late_lease_is_withdrawn :
  exists l l' w w', run_at still_clock begin l = Some w /\ run_at still_clock w l' = Some w'
  /\ state_at w 0 1 = Some SUBMITTED /\ state_at w 0 2 = None
  /\ (forall withdraws op o, CancelAsked withdraws op o ∉ lg_calls (w_state w))
  /\ (exists lease, fst <$> leases_of key_a (w_state w) !! holder_of 0 = Some lease
        /\ lease_verdict (mk_LedgerEntry (record_at w 0 1) [lease] 1 [] []) (reads still_clock (lg_readings (w_state w))) (f_of_Z 30)
           = Leased (f_of_Z 1090))
  /\ state_at w' 0 2 = Some WITHDRAWN
  /\ CancelAsked true (operation_of key_a 0) (CancelRequested (Some (py "7"))) ∈ lg_calls (w_state w').
Proof.
  exists (attaching ++ sweeping), (goes 1 4), (from still_clock begin (attaching ++ sweeping)),
    (from still_clock (from still_clock begin (attaching ++ sweeping)) (goes 1 4)).
  split; [apply run_from; by vm_compute|]. split; [apply run_from; by vm_compute|].
  split; [by vm_compute|]. split; [by vm_compute|]. split; [|split; [|split; [by vm_compute|]]].
  - intros b op o In. apply list_elem_of_In in In.
    assert (forallb (fun c => match c with CancelAsked _ _ _ => false | _ => true end)
      (lg_calls (w_state (from still_clock begin (attaching ++ sweeping)))) = true) as F by by vm_compute.
    rewrite forallb_forall in F. by specialize (F _ In).
  - eexists. split; by vm_compute.
  - apply list_elem_of_In. apply (nth_error_In _ 3). by vm_compute.
Qed.
