(* ===== verification/ClusterPort.v ===== *)
(** The cluster port (vs_slurm/cluster.py, cluster_store.py, remote_operations.py and the calls of
    runner.py it makes): jobs submitted once under an identity of the caller's, looked up, and cancelled,
    by processes that share the cluster and, those of one state root, a local cache. *)
From S2P Require Import Prelude Plan Floats Coroutines Processes SlurmStates SlurmTypes.
Open Scope coro_scope.

(** ** Operations *)

Record Operation := mk_Operation {
  op_id : pystr;
  op_digest : option pystr;
  op_handle : option ClusterHandle;
  op_dispatched : bool;
  op_cancelled : bool;
  op_rejected : option pystr }.
#[export] Instance eta_Operation : Eta Operation := fun x =>
  mk_Operation (op_id x) (op_digest x) (op_handle x) (op_dispatched x) (op_cancelled x) (op_rejected x).

Definition validate_operation_id (value : pystr) : result unit :=
  if safe_name 127 value then Ok tt else Err (SlurmError "operation_id must contain 1 to 128 safe identifier characters").
Definition validate_handle_model (h : ClusterHandle) : result unit :=
  match h with
  | JobHandle j => let* _ := validate_job_handle j in Ok tt
  | BatchHandle b =>
    let* _ := validate_job_handle (h_job b) in
    let* _ := mapM_result validate_stage_handle (h_stages b) in
    let* _ := validate_batch_handle b in Ok tt
  end.
Definition no_job : pystr := py "0".
Definition handle_job_id (h : ClusterHandle) : pystr := j_job_id (job_handle h).
Definition _legal_intent (o : Operation) : result unit :=
  match op_handle o with
  | Some h =>
    raise (ValueError "handle identity must match its dispatched operation_id" []) when
      (negb (pystr_eqb (j_invocation_id (job_handle h)) (op_id o))
       || (negb (pystr_eqb (handle_job_id h) no_job) && negb (op_dispatched o))) in
    Ok tt
  | None =>
    raise (ValueError "an operation without a handle must be a cancellation tombstone" []) when
      (op_dispatched o || negb (op_cancelled o) || match op_digest o with Some _ => true | None => false end) in
    Ok tt
  end.
(** [Operation(...)]: the validators of its fields, then of the whole. A [SlurmError] of a validator is
    raised at once, a [ValueError] after the other fields. *)
Definition validate_operation (o : Operation) : result Operation :=
  validated (
    let* _ := validate_operation_id (op_id o) in
    let* _ := match op_handle o with Some h => validate_handle_model h | None => Ok tt end in
    raise (ValueError "payload_digest must be a SHA256 hexadecimal digest" []) when
      (match op_digest o with Some d => negb (hex64 d) | None => false end) in
    let* _ := _legal_intent o in
    Ok o).
(** [Operation(operation_id=..., cancelled=True)]. *)
Definition tombstone (operation_id : pystr) : Operation := mk_Operation operation_id None None false true None.

Definition replace_job_id (h : ClusterHandle) (job_id : pystr) : ClusterHandle :=
  let job j := mk_SlurmJobHandle job_id (j_invocation_id j) (j_config_identity j) (j_remote_workspace j)
    (j_remote_status_path j) (j_remote_log_path j) (j_artifacts j) (j_staging_seconds j) (j_content_cache_hits j) in
  match h with
  | BatchHandle b => BatchHandle (mk_SlurmBatchHandle (job (h_job b)) (h_stages b) (h_stop_on_failure b)
                                    (h_submission_seconds b) (h_waited_seconds b))
  | JobHandle j => JobHandle (job j)
  end.
(** [==] of records: the seconds of their handles compare as floats. *)
Definition job_handle_eqb (a b : SlurmJobHandle) : bool :=
  pystr_eqb (j_job_id a) (j_job_id b) && pystr_eqb (j_invocation_id a) (j_invocation_id b)
  && pystr_eqb (j_config_identity a) (j_config_identity b) && pystr_eqb (j_remote_workspace a) (j_remote_workspace b)
  && pystr_eqb (j_remote_status_path a) (j_remote_status_path b) && pystr_eqb (j_remote_log_path a) (j_remote_log_path b)
  && bool_decide (j_artifacts a = j_artifacts b) && f_eq (j_staging_seconds a) (j_staging_seconds b)
  && (j_content_cache_hits a =? j_content_cache_hits b).
Definition handle_eqb (a b : ClusterHandle) : bool :=
  match a, b with
  | JobHandle a, JobHandle b => job_handle_eqb a b
  | BatchHandle a, BatchHandle b =>
    job_handle_eqb (h_job a) (h_job b) && bool_decide (h_stages a = h_stages b)
    && Bool.eqb (h_stop_on_failure a) (h_stop_on_failure b) && f_eq (h_submission_seconds a) (h_submission_seconds b)
    && f_eq (h_waited_seconds a) (h_waited_seconds b)
  | _, _ => false
  end.
Definition operation_eqb (a b : Operation) : bool :=
  pystr_eqb (op_id a) (op_id b) && bool_decide (op_digest a = op_digest b)
  && match op_handle a, op_handle b with Some a, Some b => handle_eqb a b | None, None => true | _, _ => false end
  && Bool.eqb (op_dispatched a) (op_dispatched b) && Bool.eqb (op_cancelled a) (op_cancelled b)
  && bool_decide (op_rejected a = op_rejected b).

(** ** State *)

(** [RemoteOperationEvidence]: the files of an operation on the cluster. A document is named by the model
    it encodes; a reader decodes its text. *)
Record Evidence := mk_Evidence {
  ev_intent : option Operation;
  ev_accepted : option Operation;
  ev_rejected : option pystr;
  ev_cancelled : bool }.
#[export] Instance eta_Evidence : Eta Evidence := fun x =>
  mk_Evidence (ev_intent x) (ev_accepted x) (ev_rejected x) (ev_cancelled x).
Definition no_evidence : Evidence := mk_Evidence None None None false.

(** A job the scheduler accepted: for which operation, and by the [sbatch] of which process. *)
Record SchedulerJob := mk_SchedulerJob { sj_id : pystr; sj_name : pystr; sj_operation : pystr; sj_task : nat }.

(** The records of each state root and the process that holds its lock, the operations' files on the
    cluster, its jobs, the jobs that were scancelled, and how often the world outside was asked. The rest
    says what happened: which process published an operation's intent, with whether it was marked as
    cancelled by then, and the operations whose submission was given up before [sbatch]. *)
Record Cluster := mk_Cluster {
  cl_records : gmap nat (gmap pystr Operation);
  cl_locks : gmap nat nat;
  cl_remote : gmap pystr Evidence;
  cl_jobs : list SchedulerJob;
  cl_scancels : list pystr;
  cl_asked : nat;
  cl_claims : gmap pystr (nat * bool);
  cl_refused : gset pystr }.
#[export] Instance eta_Cluster : Eta Cluster := fun x =>
  mk_Cluster (cl_records x) (cl_locks x) (cl_remote x) (cl_jobs x) (cl_scancels x) (cl_asked x) (cl_claims x) (cl_refused x).
Definition empty_cluster : Cluster := mk_Cluster ∅ ∅ ∅ [] [] 0 ∅ ∅.

(** ** Calls *)

Inductive Target := T_id (name : pystr) | T_handle (h : ClusterHandle).
(** [store] is the state root of the [SlurmCluster] that is called. *)
Inductive ClusterJob :=
| J_submit (store : nat) (request : SlurmBatchRequest) (operation_id : pystr)
| J_inspect (store : nat) (target : Target) (by_job_id : bool)
| J_cancel (store : nat) (target : Target) (by_job_id : bool)
| J_collect (store : nat) (target : Target) (by_job_id : bool) (observed : option ClusterInspectOutcome)
| J_recorded (store : nat).
Inductive ClusterReply :=
| R_submit (operation_id : pystr) (outcome : ClusterSubmitOutcome)
| R_inspect (target : Target) (by_job_id : bool) (outcome : ClusterInspectOutcome)
| R_cancel (target : Target) (by_job_id : bool) (outcome : ClusterCancelOutcome)
| R_collect (outcome : ClusterCollectOutcome)
| R_recorded (ids : gset pystr).
Abbreviation prog := (coro Cluster ClusterJob ClusterReply).

(** An exception is named by the class it is caught as: a [FileNotFoundError] is an [OSError]. *)
Definition slurm_errors : list pystr :=
  [py "SlurmError"; py "SlurmTransferInterruptedError"; py "SlurmTransportFailedError"; py "SlurmSbatchFailedError";
   py "SlurmSubmissionRejectedError"; py "SlurmWorkspaceRootProbeError"].
Definition transport_errors : list pystr := slurm_errors ++ [py "OSError"; py "UnicodeError"; py "ProcessTimeoutError"].
Definition port_errors : list pystr := transport_errors ++ [py "RemoteOperationError"; py "ValidationError"].
Definition input_errors : list pystr :=
  slurm_errors ++ [py "OSError"; py "ValueError"; py "ValidationError"; py "UnicodeError"; py "_ContentStageError"].
Definition is_one_of (names : list pystr) (e : Exc) : bool :=
  match e with Error name _ => bool_decide (name ∈ names) | _ => false end.
Definition reason_of (e : Exc) : pystr := match e with Error _ text => text | _ => [] end.
Definition slurm_exc (text : string) : Exc := exc_of (SlurmError text).

(** A command on the cluster, or a file of this machine: it may fail, with its effect or without. Outside
    code raises no [SlurmSubmissionRejectedError], which is this code's own. *)
Definition submission_rejected : pystr := py "SlurmSubmissionRejectedError".
Definition raised_outside (e : Exc) : Exc :=
  match e with Error name text => if pystr_eqb name submission_rejected then slurm_exc "" else e | e => e end.
Definition exec {R} (f : Cluster -> R * Cluster) : prog R := outside_and_back raised_outside f.
Definition noted (f : Cluster -> Cluster) : prog unit := exec (fun s => (tt, f s)).
(** The how-manieth question to the world outside this is. *)
Definition asked_once (s : Cluster) : Cluster := s <| cl_asked := S (cl_asked s) |>.
Definition ask : prog nat := eff (Sync (fun _ s => (Ans (cl_asked s), asked_once s, None))).

(** ** Documents *)

(** pydantic's and json's part in reading an operation back. *)
Class OperationCodec := {
  dump_operation : Operation -> pystr;
  operation_fields : pystr -> result Operation }.
(** What was dumped reads back as it was, if it can be read. *)
Class OperationCodecLaws `{OperationCodec} := {
  fields_dump : forall o o', operation_fields (dump_operation o) = Ok o' -> o' = o }.

Section Documents.
Context `{OperationCodec}.
(** [Operation.model_validate_json] of a stored document. *)
Definition read_operation (document : Operation) : result Operation :=
  let* o := validated (operation_fields (dump_operation document)) in validate_operation o.

(** ** The records of a state root (cluster_store.py) *)

(** [flock]: a process that dies lets the lock go, and so another may take it over. *)
Definition acquire (me store : nat) : prog unit :=
  eff (Suspend true (fun c s =>
    let taken := s <| cl_locks := <[store := me]> (cl_locks s) |> in
    match c with
    | C_ok => match cl_locks s !! store with None => Some (Ans tt, taken) | Some _ => None end
    | C_value _ => Some (Ans tt, taken)
    | C_fail e => Some (Threw e, s)
    | _ => None
    end)).
Definition unlocked (me store : nat) (s : Cluster) : Cluster :=
  if bool_decide (cl_locks s !! store = Some me) then s <| cl_locks := delete store (cl_locks s) |> else s.
Definition locked {A} (me store : nat) (p : prog A) : prog A :=
  acquire me store ;;; finally p (noted (unlocked me store)).

Definition records_of (store : nat) (s : Cluster) : gmap pystr Operation := default ∅ (cl_records s !! store).
Definition store_read (store : nat) (identity : pystr) : prog (option Operation) :=
  exec (fun s => (records_of store s !! identity, s)).
Definition put_record (store : nat) (record : Operation) (s : Cluster) : Cluster :=
  s <| cl_records := <[store := <[op_id record := record]> (records_of store s)]> (cl_records s) |>.
Definition by_filename (a b : pystr * Operation) : bool := pystr_leb (fst a ++ py ".json") (fst b ++ py ".json").
Definition store_records (store : nat) : prog (list Operation) :=
  exec (fun s => (map snd (sort_by by_filename (map_to_list (records_of store s))), s)).

Definition invalid_record : Exc := slurm_exc "operation record identity mismatch".
Definition _load (store : nat) (operation_id : pystr) : prog (option Operation) :=
  await raw := store_read store operation_id in
  match raw with
  | None => Ret None
  | Some document =>
    await record := lift (read_operation document) in
    if negb (pystr_eqb (op_id record) operation_id) then Raise invalid_record else Ret (Some record)
  end.
Definition _save (store : nat) (record : Operation) : prog unit := noted (put_record store record).

(** [recorded_job_ids]: the ids are digits, and not all zeros. *)
Definition recorded_id (document : Operation) : result (list pystr) :=
  match read_operation document with
  | Ok record =>
    Ok match op_handle record with
       | Some h =>
         let job_id := handle_job_id h in
         if digits_text job_id && existsb (fun c => negb (N.eqb c 48)) job_id then [job_id] else []
       | None => []
       end
  | Err (ValidationError _) => Ok []
  | Err e => Err e
  end.
Definition recorded_job_ids (store : nat) : prog (gset pystr) :=
  await documents := store_records store in
  await ids := lift (mapM_result recorded_id documents) in
  Ret (list_to_set (concat ids)).

(** ** An operation's files on the cluster (remote_operations.py) *)

Definition evidence_of (operation_id : pystr) (s : Cluster) : Evidence := default no_evidence (cl_remote s !! operation_id).
Definition put_evidence (operation_id : pystr) (ev : Evidence) (s : Cluster) : Cluster :=
  s <| cl_remote := <[operation_id := ev]> (cl_remote s) |>.
Definition safe_component (value : pystr) : result unit :=
  if safe_name 127 value then Ok tt else Err (ValueError "invalid invocation id" []).
(** [mkdir], and the upload of a file under a name no reader looks at. *)
Definition unseen : prog unit := noted id.

(** One command prints the files one after the other. *)
Definition inspect_operation (operation_id : pystr) : prog Evidence :=
  lift (safe_component operation_id) ;;;
  let file {R} (f : Evidence -> R) : prog R := exec (fun s => (f (evidence_of operation_id s), s)) in
  await intent := file ev_intent in
  await accepted := file ev_accepted in
  await rejected := file ev_rejected in
  await marker := file ev_cancelled in
  Ret (mk_Evidence intent accepted rejected marker).

Inductive ClaimKind := CLAIM_created | CLAIM_existing | CLAIM_unknown.
(** [ln]: the intent is published unless there is one. *)
Definition publish (me : nat) (record : Operation) (s : Cluster) : bool * Cluster :=
  let operation_id := op_id record in
  let ev := evidence_of operation_id s in
  match ev_intent ev with
  | Some _ => (false, s)
  | None =>
    (true, put_evidence operation_id (ev <| ev_intent := Some record |>) s
             <| cl_claims := <[operation_id := (me, ev_cancelled ev)]> (cl_claims s) |>)
  end.
Definition claim_operation (me : nat) (record : Operation) : prog (ClaimKind * Evidence) :=
  lift (safe_component (op_id record)) ;;;
  unseen ;;;
  unseen ;;;
  await created := exec (publish me record) in
  await evidence := inspect_operation (op_id record) in
  Ret (match ev_intent evidence with
       | None => CLAIM_unknown
       | Some _ => if (created : bool) then CLAIM_created else CLAIM_existing
       end, evidence).
Definition accept_as (record : Operation) (s : Cluster) : Cluster :=
  let ev := evidence_of (op_id record) s in
  match ev_accepted ev with
  | Some _ => s
  | None => put_evidence (op_id record) (ev <| ev_accepted := Some record |>) s
  end.
Definition record_operation_acceptance (record : Operation) : prog unit :=
  lift (safe_component (op_id record)) ;;; unseen ;;; noted (accept_as record).
Definition record_operation_rejection (operation_id reason : pystr) : prog unit :=
  lift (safe_component operation_id) ;;; unseen ;;;
  noted (fun s => put_evidence operation_id ((evidence_of operation_id s) <| ev_rejected := Some reason |>) s).
Definition cancel_operation (operation_id : pystr) : prog unit :=
  lift (safe_component operation_id) ;;; unseen ;;; unseen ;;;
  noted (fun s => put_evidence operation_id ((evidence_of operation_id s) <| ev_cancelled := true |>) s) ;;;
  unseen.
End Documents.

(** ** The runner (runner.py) *)

Section Port.
Context `{OperationCodec}.
(** The configured cluster: its directory, its identity, and the scheduler's name for an operation. *)
Variable cluster_root : PosixPath.
Variable config_identity : pystr.
Variable job_name : pystr -> pystr.
(** What the world answers when it is asked for the [n]th time: is a path a directory, what time is it, is
    the request's cancel event set, what is the digest of the request and of its trees, how many of its
    trees were cached when they are staged; the id [sbatch] gives a job and what it prints; what [squeue]
    and [sacct] print of the jobs of a name; what they answer of one job; how many stages of a batch have
    a result; and what is collected of a job. *)
Variable is_dir : nat -> pystr -> bool.
Variable clock : nat -> float.
Variable cancel_is_set : nat -> bool.
Variable content_digest : nat -> SlurmBatchRequest -> result pystr.
Variable staged : nat -> SlurmBatchRequest -> result Z.
Variable sbatch : nat -> pystr * pystr.
Variable listing : nat -> pystr -> list SchedulerJob -> pystr.
Variable answers : nat -> list (result pystr).
Variable progress : nat -> pystr.
Variable collected : nat -> ClusterHandle -> SlurmJobStatus -> result ClusterResult.

Definition clock_now : prog float := await n := ask in Ret (clock n).
(** A call outside of this that raises or answers. *)
Definition outcome_of_call {R} (f : nat -> result R) : prog R :=
  await r := exec (fun s => (f (cl_asked s), asked_once s)) in lift r.

(** [_whole_reading], [_read_scheduler]. *)
Definition whole_reading (stdout : Cluster -> pystr) : prog pystr :=
  await out := exec (fun s => (stdout s, asked_once s)) in
  match unframed out READ_END with
  | None => Raise (slurm_exc "Slurm scheduler output did not arrive whole")
  | Some body => Ret (strip body)
  end.
Definition read_scheduler (stdout : Cluster -> pystr) : prog pystr :=
  except (is_one_of slurm_errors) (whole_reading stdout) (fun _ => whole_reading stdout).

Definition operation_path (operation_id leaf : pystr) : pystr :=
  as_posix (mk_PosixPath (pp_root cluster_root) (pp_parts cluster_root ++ [operation_id; leaf])).
Definition workspace_path (operation_id : pystr) : pystr := operation_path operation_id (py "workspace").
Definition status_path (operation_id : pystr) : pystr := operation_path operation_id (py "exit-code.txt").
Definition log_path (operation_id : pystr) : pystr := operation_path operation_id (py "job.log").

(** [validate_handle]. *)
Definition _validate_handle (h : SlurmJobHandle) : result unit :=
  raise (SlurmError "handle belongs to another configured cluster") when
    (negb (pystr_eqb (j_config_identity h) config_identity)) in
  let operation_id := j_invocation_id h in
  raise (SlurmError "invalid handle") when
    (negb (pystr_eqb (j_remote_workspace h) (workspace_path operation_id))
     || negb (pystr_eqb (j_remote_status_path h) (status_path operation_id))
     || negb (pystr_eqb (j_remote_log_path h) (log_path operation_id))) in
  Ok tt.
Fixpoint stage_handles_ok (names : list pystr) (stages : list SlurmBatchStageHandle) : result unit :=
  match stages with
  | [] => Ok tt
  | stage :: stages =>
    raise (SlurmError "invalid batch request") when
      (negb (safe_name 62 (k_name stage)) || bool_decide (k_name stage ∈ names)) in
    let* _ := for_all artifact_path_ok (map x_remote_path (k_file_artifacts stage ++ k_tree_artifacts stage)) in
    stage_handles_ok (k_name stage :: names) stages
  end.
Definition validate_handle (h : ClusterHandle) : result unit :=
  match h with
  | JobHandle j => _validate_handle j
  | BatchHandle b =>
    let* _ := _validate_handle (h_job b) in
    raise (SlurmError "invalid batch request") when bool_decide (h_stages b = []) in
    stage_handles_ok [] (h_stages b)
  end.

(** [recover_handle] of a batch. *)
Definition recover_handle (n : nat) (request : SlurmBatchRequest) (operation_id job_id : pystr) : result ClusterHandle :=
  let* _ := safe_component operation_id in
  let* _ := _validate_batch_request (is_dir n) request in
  let* _ := request_ok (is_dir n) request in
  let* job := validate_job_handle (mk_SlurmJobHandle job_id operation_id config_identity
    (workspace_path operation_id) (status_path operation_id) (log_path operation_id) [] f_zero 0) in
  let* stages := batch_stage_handles (is_dir n) request in
  let* batch := validate_batch_handle (mk_SlurmBatchHandle job stages (b_stop_on_failure request) f_zero f_zero) in
  Ok (BatchHandle batch).

(** [find_operation]: the ids [squeue] and [sacct] list under the operation's name. *)
Definition listed_ids (text : pystr) : list pystr :=
  remove_dups (List.filter job_id_ok (map strip (splitlines [] text))).
Definition find_operation (operation_id : pystr) : prog (option pystr) :=
  lift (safe_component operation_id) ;;;
  let named s := listing (cl_asked s) (job_name operation_id) (cl_jobs s) in
  await active := read_scheduler named in
  await historical := read_scheduler named in
  match listed_ids (active ++ [10%N] ++ historical) with
  | [] => Ret None
  | [job_id] => Ret (Some job_id)
  | _ => Raise (slurm_exc "stable operation ID matched multiple scheduler jobs")
  end.

Definition read_job (job_id : pystr) (n : nat) : result SchedulerReading :=
  fst (SlurmStates.inspect_job job_id (mk_Transport (answers n) [])).
Definition inspect_job (job_id : pystr) : prog SchedulerReading := outcome_of_call (read_job job_id).
Definition scancelled (job_id : pystr) (s : Cluster) : Cluster := s <| cl_scancels := job_id :: cl_scancels s |>.
Definition cancel_job (job_id : pystr) : prog unit :=
  lift (if job_id_ok job_id then Ok tt else Err (SlurmError "job_id must contain 1 to 32 decimal digits")) ;;;
  noted (scancelled job_id).
Definition cancel_handle (h : SlurmJobHandle) : prog unit :=
  lift (_validate_handle h) ;;; noted (scancelled (j_job_id h)).

(** [int(text)] of ASCII text that is stripped. *)
Fixpoint int_digits (acc : Z) (s : pystr) : option Z :=
  match s with
  | [] => Some acc
  | 95%N :: c :: s => if is_digit c then int_digits (10 * acc + (Z.of_N c - 48)) s else None
  | c :: s => if is_digit c then int_digits (10 * acc + (Z.of_N c - 48)) s else None
  end.
Definition int_of_text (s : pystr) : option Z :=
  let unsigned s := match s with c :: _ => if is_digit c then int_digits 0 s else None | [] => None end in
  match s with
  | 43%N :: s => unsigned s
  | 45%N :: s => option_map Z.opp (unsigned s)
  | s => unsigned s
  end.
Definition completed_stages : prog Z :=
  await output := whole_reading (fun s => progress (cl_asked s)) in
  match int_of_text output with
  | Some n => Ret (Z.max 0 n)
  | None => Raise (slurm_exc "Slurm job returned a missing or malformed status artifact")
  end.

(** *** Submitting a batch *)

(** [_JOB_ID.search(stdout)]: at the start of a line, "Submitted batch job ", 1 to 32 digits, and the end of
    the line. *)
Fixpoint leading_digits (s : pystr) : pystr * pystr :=
  match s with
  | c :: s' => if is_digit c then let '(digits, rest) := leading_digits s' in (c :: digits, rest) else ([], s)
  | [] => ([], [])
  end.
Definition job_id_here (s : pystr) : option pystr :=
  match after_prefix (py "Submitted batch job ") s with
  | Some s =>
    let '(digits, rest) := leading_digits s in
    match rest with
    | 10%N :: _ | 13%N :: 10%N :: _ => if job_id_ok digits then Some digits else None
    | _ => None
    end
  | None => None
  end.
Fixpoint search_job_id (line_start : bool) (s : pystr) : option pystr :=
  match (if line_start then job_id_here s else None), s with
  | Some digits, _ => Some digits
  | None, c :: s => search_job_id (N.eqb c 10) s
  | None, [] => None
  end.

(** [sbatch]: the scheduler accepts a job. *)
Definition accept (me : nat) (operation_id : pystr) (s : Cluster) : pystr * Cluster :=
  let '(job_id, stdout) := sbatch (cl_asked s) in
  (stdout, asked_once s <| cl_jobs := mk_SchedulerJob job_id (job_name operation_id) operation_id me :: cl_jobs s |>).
Definition run_sbatch (me : nat) (operation_id : pystr) : prog pystr :=
  await stdout :=
    except (is_one_of [py "SlurmTransportFailedError"]) (exec (accept me operation_id))
      (fun e => Raise (Error (py "SlurmSbatchFailedError") (reason_of e))) in
  match search_job_id true stdout with
  | None => Raise (slurm_exc "sbatch did not return a Slurm job id")
  | Some job_id => Ret job_id
  end.
(** What precedes [boundary.started = True]. *)
Definition stage_before_boundary (request : SlurmBatchRequest) (operation_id : pystr) : prog (float * Z) :=
  await n := ask in
  lift (request_ok (is_dir n) request) ;;;
  await n := ask in
  if cancel_is_set n then Raise (slurm_exc "Slurm job was cancelled before submission") else
  lift (safe_component operation_id) ;;;
  await started := clock_now in
  unseen ;;;
  await hits := outcome_of_call (fun n => staged n request) in
  await ended := clock_now in
  unseen ;;;
  Ret (f_max f_zero [f_sub ended started], hits).
Definition rejecting {A} (p : prog A) : prog A :=
  except (is_one_of transport_errors) p (fun e => Raise (Error submission_rejected (reason_of e))).
Definition _stage_and_submit (me : nat) (request : SlurmBatchRequest) (operation_id : pystr) : prog SlurmJobHandle :=
  await (staging_seconds, hits) := rejecting (stage_before_boundary request operation_id) in
  await job_id := run_sbatch me operation_id in
  lift (validate_job_handle (mk_SlurmJobHandle job_id operation_id config_identity
    (workspace_path operation_id) (status_path operation_id) (log_path operation_id) [] staging_seconds hits)).
Definition submit_batch (me : nat) (request : SlurmBatchRequest) (operation_id : pystr) : prog ClusterHandle :=
  await n := ask in
  rejecting (lift (_validate_batch_request (is_dir n) request)) ;;;
  await started := clock_now in
  await job := _stage_and_submit me request operation_id in
  await n := ask in
  await stages := lift (batch_stage_handles (is_dir n) request) in
  await ended := clock_now in
  await batch := lift (validate_batch_handle (mk_SlurmBatchHandle job stages (b_stop_on_failure request)
    (f_max f_zero [f_sub ended started]) f_zero)) in
  Ret (BatchHandle batch).

(** ** The cluster (cluster.py), called by process [me] on the state root [store] *)

Section Calls.
Variable me store : nat.
Abbreviation locked := (locked me store).
Abbreviation _load := (_load store).
Abbreviation _save := (_save store).

Definition known_job (h : ClusterHandle) : bool := negb (pystr_eqb (handle_job_id h) no_job).
Definition _from_remote (operation_id : pystr) (evidence : Evidence) : result (option Operation) :=
  match ev_intent evidence with
  | None =>
    if ev_cancelled evidence then let* o := validate_operation (tombstone operation_id) in Ok (Some o) else Ok None
  | Some document =>
    let* intent := read_operation document in
    let* record := match ev_accepted evidence with Some document => read_operation document | None => Ok intent end in
    raise (SlurmError "operation record identity mismatch") when
      (match ev_accepted evidence, op_handle record with
       | None, _ => false
       | Some _, Some h => negb (known_job h)
       | Some _, None => true
       end) in
    raise (SlurmError "operation record identity mismatch") when
      (negb (pystr_eqb (op_id record) operation_id) || negb (pystr_eqb (op_id intent) operation_id)
       || bool_decide (op_digest record <> op_digest intent)) in
    Ok (Some (record <| op_cancelled := op_cancelled record || ev_cancelled evidence |>
                     <| op_rejected := ev_rejected evidence |>))
  end.

(** [_remote_evidence]. *)
Definition _remote_evidence (record : Operation) (job_id : pystr) (evidence : option Evidence) : prog (option Evidence) :=
  match evidence with
  | Some evidence => Ret (Some evidence)
  | None =>
    if op_cancelled record && negb (pystr_eqb job_id no_job) then Ret None else
    except (is_one_of (transport_errors ++ [py "RemoteOperationError"]))
      (await found := inspect_operation (op_id record) in Ret (Some found))
      (fun e => if pystr_eqb job_id no_job then Raise e else Ret None)
  end.

Definition _observation (job_id : pystr) (reading : SchedulerReading) (handle : option ClusterHandle) : ClusterInspectOutcome :=
  match status_of (r_life reading) with
  | S_UNKNOWN => InspectUnknown (py "scheduler state unknown")
  | status =>
    let pending := bool_decide (status = S_PENDING) in
    Observed (mk_ClusterObservation job_id (r_life reading) (if pending then r_reason reading else None)
      (if pending then r_estimated_start reading else None) handle None)
  end.
Definition _completed_stages : prog (option Z) :=
  except (is_one_of transport_errors) (await n := completed_stages in Ret (Some n)) (fun _ => Ret None).
Definition _with_progress (observed : ClusterInspectOutcome) (reading : SchedulerReading) (handle : ClusterHandle) :
    prog ClusterInspectOutcome :=
  match observed, handle with
  | Observed o, BatchHandle b =>
    if bool_decide (phase_of (r_life reading) = P_RUNNING) && (1 <? length (h_stages b))%nat then
      await n := _completed_stages in
      Ret (Observed (mk_ClusterObservation (o_job_id o) (o_life o) (o_pending_reason o) (o_estimated_start o) (o_handle o) n))
    else Ret observed
  | _, _ => Ret observed
  end.

(** *** Reconciling

    The body of the [try] of [_reconcile_record] ends with an answer, or with the handle and the reading
    of the job. No answer stands for [_SubmissionAbsent]. *)
Definition _is_live (reading : SchedulerReading) : bool := bool_decide (phase_of (r_life reading) ∈ [P_PENDING; P_RUNNING]).
Definition refreshed (record : Operation) (handle : ClusterHandle) (remote : option Evidence) (original : option Operation) :
    prog (Operation * ClusterHandle) :=
  await (record, handle) :=
    (match original with
     | Some original =>
       match op_handle original with
       | Some accepted =>
         if negb (known_job handle) && known_job accepted then
           lift (validate_handle accepted) ;;;
           let record := original <| op_cancelled := op_cancelled record || op_cancelled original |> in
           _save record ;;;
           Ret (record, accepted)
         else Ret (record, handle)
       | None => Ret (record, handle)
       end
     | None => Ret (record, handle)
     end) in
  if match remote with Some remote => ev_cancelled remote | None => false end && negb (op_cancelled record) then
    let record := record <| op_cancelled := true |> in
    _save record ;;;
    Ret (record, handle)
  else Ret (record, handle).
(** The job the operation has, or [None] when the scheduler lists none. *)
Definition resolved (record : Operation) (handle : ClusterHandle) : prog (option (Operation * ClusterHandle)) :=
  if known_job handle then Ret (Some (record, handle)) else
  await identity := find_operation (op_id record) in
  match identity with
  | None => Ret None
  | Some identity =>
    let handle := replace_job_id handle identity in
    let record := record <| op_handle := Some handle |> in
    _save record ;;;
    record_operation_acceptance record ;;;
    Ret (Some (record, handle))
  end.
Definition digests_conflict (original : option Operation) (record : Operation) : bool :=
  match original with
  | Some original =>
    match op_digest original, op_digest record with Some a, Some b => negb (pystr_eqb a b) | _, _ => false end
  | None => false
  end.
Definition reconcile_job (record : Operation) (handle : ClusterHandle) (evidence : option Evidence) :
    prog (option ClusterInspectOutcome + ClusterHandle * SchedulerReading) :=
  lift (validate_handle handle) ;;;
  await remote := _remote_evidence record (handle_job_id handle) evidence in
  await original := lift (match remote with None => Ok None | Some remote => _from_remote (op_id record) remote end) in
  if digests_conflict original record
  then Ret (inl (Some (InspectUnknown (py "remote operation payload conflicts with local intent")))) else
  await (record, handle) := refreshed record handle remote original in
  await found := resolved record handle in
  match found with
  | None => Ret (inl None)
  | Some (record, handle) =>
    await reading := inspect_job (handle_job_id handle) in
    (if op_cancelled record && _is_live reading then cancel_handle (job_handle handle) else Ret tt) ;;;
    Ret (inr (handle, reading))
  end.
Definition _reconcile_record (record : Operation) (evidence : option Evidence) : prog (option ClusterInspectOutcome) :=
  match op_handle record with
  | Some handle =>
    if negb (op_dispatched record)
    then Ret (Some (InspectUnknown (py "operation has no accepted scheduler job"))) else
    await ended := except (is_one_of port_errors) (reconcile_job record handle evidence)
                     (fun e => Ret (inl (Some (InspectUnknown (reason_of e))))) in
    match ended with
    | inl answer => Ret answer
    | inr (handle, reading) =>
      await observed := _with_progress (_observation (handle_job_id handle) reading (Some handle)) reading handle in
      Ret (Some observed)
    end
  | None => Ret (Some (InspectUnknown (py "operation has no accepted scheduler job")))
  end.
Definition _reconcile (record : Operation) (evidence : option Evidence) : prog ClusterInspectOutcome :=
  await observed := _reconcile_record record evidence in
  Ret (match observed with Some observed => observed | None => InspectUnknown (py "submission acceptance unresolved") end).

(** *** Finding a record *)

Definition record_job_id (record : option Operation) : option pystr :=
  match record with
  | Some record => option_map handle_job_id (op_handle record)
  | None => None
  end.
Definition unresolved (job_id : option pystr) : bool :=
  match job_id with None => true | Some job_id => pystr_eqb job_id no_job end.
Definition invalid_handle : Exc := slurm_exc "invalid handle".
Definition _handle_record (target : ClusterHandle) : prog (Operation * option Evidence) :=
  let job := job_handle target in
  let operation_id := j_invocation_id job in
  lift (validate_handle target) ;;;
  await local := _load operation_id in
  await (record, evidence) :=
    (if unresolved (record_job_id local) then
       await evidence := inspect_operation operation_id in
       await remote := lift (_from_remote operation_id evidence) in
       let cancelled := match local with Some local => op_cancelled local | None => false end in
       Ret (match remote with
            | Some remote => Some (remote <| op_cancelled := op_cancelled remote || cancelled |>)
            | None => local
            end, Some evidence)
     else Ret (local, None)) in
  await identity := (if unresolved (record_job_id record) then find_operation operation_id else Ret (record_job_id record)) in
  if bool_decide (identity <> Some (j_job_id job)) then Raise invalid_handle else
  await record :=
    match record with
    | Some record => Ret record
    | None => lift (validate_operation (mk_Operation operation_id None (Some target) true false None))
    end in
  match op_handle record with
  | None => Raise invalid_handle
  | Some handle =>
    let record := if known_job handle then record else record <| op_handle := Some (replace_job_id handle (j_job_id job)) |> in
    (if match local with Some local => operation_eqb record local | None => false end then Ret tt else _save record) ;;;
    Ret (record, evidence)
  end.
Fixpoint record_of_job (job_id : pystr) (documents : list Operation) : result (option Operation) :=
  match documents with
  | [] => Ok None
  | document :: documents =>
    let* record := read_operation document in
    if bool_decide (record_job_id (Some record) = Some job_id) then Ok (Some record) else record_of_job job_id documents
  end.
Definition _record (target : Target) (by_job_id : bool) : prog (option Operation * option Evidence) :=
  match target with
  | T_handle h => await (record, evidence) := _handle_record h in Ret (Some record, evidence)
  | T_id name =>
    if negb by_job_id then
      lift (validate_operation_id name) ;;;
      await local := _load name in
      match local with
      | Some local => Ret (Some local, None)
      | None =>
        await evidence := inspect_operation name in
        await remote := lift (_from_remote name evidence) in
        match remote with Some remote => _save remote | None => Ret tt end ;;;
        Ret (remote, Some evidence)
      end
    else
      await documents := store_records store in
      await record := lift (record_of_job name documents) in
      Ret (record, None)
  end.

(** *** Submitting *)

Definition as_submit (observed : ClusterInspectOutcome) (operation_id : pystr) : ClusterSubmitOutcome :=
  match observed with
  | InspectUnknown reason => SubmitUnknown reason
  | Observed o =>
    match o_handle o with
    | Some handle => ClusterSubmitted operation_id handle
    | None => SubmitUnknown (py "collection locator unavailable")
    end
  end.
Definition _recover_submission (record : Operation) : prog ClusterSubmitOutcome :=
  await observed := _reconcile record None in
  Ret (as_submit observed (op_id record)).
Definition _known_submission (operation_id : pystr) (handle : ClusterHandle) : prog ClusterSubmitOutcome :=
  except (is_one_of slurm_errors)
    (lift (validate_handle handle) ;;; Ret (ClusterSubmitted operation_id handle))
    (fun e => Ret (SubmitUnknown (reason_of e))).
Definition _with_remote_cancel (record : Operation) (job_id : pystr) : prog Operation :=
  if op_cancelled record then Ret record else
  await evidence := _remote_evidence record job_id None in
  if match evidence with Some evidence => ev_cancelled evidence | None => false end then
    let cancelled := record <| op_cancelled := true |> in
    _save cancelled ;;;
    Ret cancelled
  else Ret record.
Definition cancelled_before_submission : pystr := py "operation cancelled before submission".
Definition _existing_confirmed (record : Operation) (digest : pystr) : prog ClusterSubmitOutcome :=
  let operation_id := op_id record in
  if match op_digest record with Some d => negb (pystr_eqb d digest) | None => false end
  then Ret (ClusterConflict operation_id (py "operation_id already names another payload")) else
  _save record ;;;
  if op_cancelled record && negb (op_dispatched record) then Ret (ClusterRejected operation_id cancelled_before_submission) else
  match op_rejected record with
  | Some reason => Ret (ClusterRejected operation_id reason)
  | None =>
    if op_dispatched record && match op_digest record with None => true | Some _ => false end
    then Ret (SubmitUnknown (py "original payload unavailable")) else
    match op_handle record with
    | Some handle =>
      if known_job handle then
        await record := _with_remote_cancel record (handle_job_id handle) in
        if negb (op_cancelled record) then _known_submission (op_id record) handle else _recover_submission record
      else _recover_submission record
    | None => _recover_submission record
    end
  end.
Definition _existing (record : Operation) (digest : pystr) : prog ClusterSubmitOutcome :=
  if match op_rejected record with Some _ => true | None => false end || (op_cancelled record && negb (op_dispatched record))
  then _existing_confirmed record digest else
  match op_handle record with
  | Some handle =>
    if negb (known_job handle) then
      lift (validate_handle handle) ;;;
      await evidence := inspect_operation (op_id record) in
      await remote := lift (_from_remote (op_id record) evidence) in
      match remote with
      | None => Ret (SubmitUnknown (py "remote identity manifest unavailable"))
      | Some remote => _existing_confirmed (remote <| op_cancelled := op_cancelled record || op_cancelled remote |>) digest
      end
    else _existing_confirmed record digest
  | None => _existing_confirmed record digest
  end.

Definition current_or (record : Operation) : prog Operation :=
  await current := _load (op_id record) in Ret (default record current).
(** The submission is given up: noted here, stored, then published. *)
Definition refuse (operation_id : pystr) : prog unit := modify (fun s => s <| cl_refused := {[operation_id]} ∪ cl_refused s |>).
Definition rejected (record : prog Operation) (operation_id reason : pystr) : prog ClusterSubmitOutcome :=
  refuse operation_id ;;;
  locked (await record := record in _save (record <| op_rejected := Some reason |>)) ;;;
  record_operation_rejection operation_id reason ;;;
  Ret (ClusterRejected operation_id reason).
Definition _dispatch_claimed (request : SlurmBatchRequest) (record : Operation) : prog ClusterSubmitOutcome :=
  let operation_id := op_id record in
  await handle := capture (submit_batch me request operation_id) in
  match handle with
  | Threw e =>
    if is_one_of [submission_rejected] e then rejected (current_or record) operation_id (reason_of e)
    else if is_one_of port_errors e then Ret (SubmitUnknown (reason_of e))
    else Raise e
  | Ans handle =>
    await unknown := locked (
      await current := current_or record in
      let current := current <| op_handle := Some handle |> in
      _save current ;;;
      record_operation_acceptance current ;;;
      await remote := inspect_operation operation_id in
      await current :=
        (if ev_cancelled remote then
           let current := current <| op_cancelled := true |> in
           _save current ;;; Ret current
         else Ret current) in
      if op_cancelled current then
        await observed := _reconcile current None in
        Ret (match observed with InspectUnknown reason => Some reason | Observed _ => None end)
      else Ret None) in
    Ret (match unknown with Some reason => SubmitUnknown reason | None => ClusterSubmitted operation_id handle end)
  end.
(** [None]: the claim is new, and the operation not cancelled. *)
Definition claimed (record : Operation) : prog (option ClusterSubmitOutcome) :=
  let operation_id := op_id record in
  await (kind, evidence) := claim_operation me record in
  match kind with
  | CLAIM_unknown => Ret (Some (SubmitUnknown (py "remote identity claim unresolved")))
  | _ =>
    await remote := lift (_from_remote operation_id evidence) in
    match remote, kind with
    | None, _ => Ret (Some (SubmitUnknown (py "remote identity manifest unavailable")))
    | Some remote, CLAIM_existing =>
      locked (
        await local := current_or record in
        let remote := remote <| op_cancelled := op_cancelled remote || op_cancelled local |> in
        _save remote ;;;
        await outcome := _existing remote (default [] (op_digest record)) in
        Ret (Some outcome))
    | Some remote, _ =>
      if op_cancelled remote then
        await outcome := rejected (Ret remote) operation_id cancelled_before_submission in Ret (Some outcome)
      else Ret None
    end
  end.
Definition _dispatch (request : SlurmBatchRequest) (record : Operation) : prog ClusterSubmitOutcome :=
  await early := except (is_one_of port_errors) (claimed record) (fun e => Ret (Some (SubmitUnknown (reason_of e)))) in
  match early with
  | Some outcome => Ret outcome
  | None => _dispatch_claimed request record
  end.

Definition payload_digest (request : SlurmBatchRequest) : prog pystr :=
  await n := ask in
  lift (_validate_batch_request (is_dir n) request) ;;;
  outcome_of_call (fun n => content_digest n request).
(** The request's digest and its prepared locator, or why the request is rejected. *)
Definition prepared (request : SlurmBatchRequest) (operation_id : pystr) : prog (pystr * ClusterHandle + pystr) :=
  except (is_one_of input_errors)
    (lift (validate_operation_id operation_id) ;;;
     await digest := payload_digest request in
     await n := ask in
     await handle := lift (recover_handle n request operation_id no_job) in
     Ret (inl (digest, handle)))
    (fun e => Ret (inr (reason_of e))).
Definition _submit (request : SlurmBatchRequest) (operation_id : pystr) : prog ClusterSubmitOutcome :=
  await ready := prepared request operation_id in
  match ready with
  | inr reason => Ret (ClusterRejected operation_id reason)
  | inl (digest, handle) =>
    await next := locked (
      await record := _load operation_id in
      match record with
      | Some record => await outcome := _existing record digest in Ret (inl outcome)
      | None =>
        await record := lift (validate_operation (mk_Operation operation_id (Some digest) (Some handle) false false None)) in
        _save record ;;;
        await n := ask in
        if cancel_is_set n then
          _save (record <| op_cancelled := true |>) ;;;
          Ret (inl (ClusterRejected operation_id cancelled_before_submission))
        else
          let record := record <| op_dispatched := true |> in
          _save record ;;;
          Ret (inr record)
      end) in
    match next with
    | inl outcome => Ret outcome
    | inr record => _dispatch request record
    end
  end.
Definition submit (request : SlurmBatchRequest) (operation_id : pystr) : prog ClusterSubmitOutcome :=
  except (is_one_of port_errors) (_submit request operation_id) (fun e => Ret (SubmitUnknown (reason_of e))).

(** *** Inspecting, cancelling and collecting *)

Definition _inspect (target : Target) (by_job_id : bool) : prog ClusterInspectOutcome :=
  locked (
    await (record, evidence) := _record target by_job_id in
    match record, target with
    | Some record, _ => _reconcile record evidence
    | None, T_id job_id =>
      if by_job_id then
        except (is_one_of port_errors)
          (await reading := inspect_job job_id in Ret (_observation job_id reading None))
          (fun e => Ret (InspectUnknown (reason_of e)))
      else Ret (InspectUnknown (py "operation not found"))
    | None, T_handle _ => Ret (InspectUnknown (py "operation not found"))
    end).
Definition inspect (target : Target) (by_job_id : bool) : prog ClusterInspectOutcome :=
  except (is_one_of port_errors) (_inspect target by_job_id) (fun e => Ret (InspectUnknown (reason_of e))).

Definition _cancel_job (job_id : pystr) : prog ClusterCancelOutcome :=
  await reading := inspect_job job_id in
  let status := status_of (r_life reading) in
  if bool_decide (status = S_UNKNOWN) then Ret (CancelUnknown (py "scheduler state unknown")) else
  (if s_active status then cancel_job job_id else Ret tt) ;;;
  Ret (CancelRequested (Some job_id)).
Definition _cancel (target : Target) (by_job_id : bool) : prog ClusterCancelOutcome :=
  locked (
    await (record, evidence) := _record target by_job_id in
    match record with
    | None =>
      match target with
      | T_id name =>
        if by_job_id then _cancel_job name else
        lift (validate_operation_id name) ;;;
        await record := lift (validate_operation (tombstone name)) in
        _save record ;;;
        cancel_operation name ;;;
        Ret (CancelRequested None)
      | T_handle _ => Ret (CancelUnknown (py "operation not found"))
      end
    | Some record =>
      let record := record <| op_cancelled := true |> in
      _save record ;;;
      if negb (op_dispatched record) then
        cancel_operation (op_id record) ;;;
        Ret (CancelRequested None)
      else
        await observation := finally (_reconcile_record record evidence) (cancel_operation (op_id record)) in
        Ret (match observation with
             | Some (InspectUnknown reason) => CancelUnknown reason
             | Some (Observed o) => CancelRequested (Some (o_job_id o))
             | None => CancelRequested None
             end)
    end).
Definition cancel (target : Target) (by_job_id : bool) : prog ClusterCancelOutcome :=
  except (is_one_of port_errors) (_cancel target by_job_id) (fun e => Ret (CancelUnknown (reason_of e))).

(** [collection_locator]. *)
Definition _remote_layout (h : SlurmBatchHandle) : list (pystr * list (pystr * ArtifactKind * bool)) :=
  map (fun stage => (k_name stage,
         map (fun a => (x_remote_path a, x_kind a, x_collect_on_failure a)) (k_file_artifacts stage ++ k_tree_artifacts stage)))
    (h_stages h).
Definition collection_locator (target : Target) (recorded : option ClusterHandle) : option ClusterHandle :=
  match target, recorded with
  | T_handle (BatchHandle target), Some (BatchHandle held) =>
    if bool_decide (_remote_layout target <> _remote_layout held) then recorded
    else Some (BatchHandle (mk_SlurmBatchHandle (h_job held) (h_stages target) (h_stop_on_failure held)
                              (h_submission_seconds held) (h_waited_seconds held)))
  | _, _ => recorded
  end.
Definition missing_stage (handle : ClusterHandle) (result : ClusterResult) : bool :=
  match result with
  | BatchResult r =>
    match handle with
    | BatchHandle h => negb (length (br_stages r) =? length (h_stages h))%nat
    | JobHandle _ => true
    end
    || existsb (fun stage =>
         match sr_exit_code stage with None => negb (sr_skipped stage) | Some _ => false end
         || match sr_collection_failure stage with Some _ => true | None => false end) (br_stages r)
  | JobResult _ => false
  end.
Definition exit_code_of (result : ClusterResult) : option Z :=
  match result with BatchResult r => br_job_exit_code r | JobResult r => jr_exit_code r end.
Definition _collect_terminal (observed : ClusterObservation) (handle : ClusterHandle) : prog ClusterCollectOutcome :=
  let status := o_status observed in
  await result := except (is_one_of port_errors)
    (await result := outcome_of_call (fun n => collected n handle status) in Ret (inl result))
    (fun e => Ret (inr (reason_of e))) in
  Ret match result with
      | inr reason => CollectUnknown reason None
      | inl result =>
        if bool_decide (exit_code_of result = Some 0) && bool_decide (status ∈ [S_FAILED; S_CANCELLED])
        then CollectUnknown (py "scheduler terminal state contradicts zero allocation exit status") (Some result) else
        match collection_problem result with
        | Some problem => CollectUnknown (if str_truthy problem then problem else py "missing stage evidence") (Some result)
        | None =>
          if missing_stage handle result then CollectUnknown (py "missing stage evidence") (Some result)
          else ClusterCollected result
        end
      end.
Definition collect (target : Target) (by_job_id : bool) (observed : option ClusterInspectOutcome) : prog ClusterCollectOutcome :=
  await observed := match observed with Some observed => Ret observed | None => inspect target by_job_id end in
  match observed with
  | InspectUnknown reason => Ret (CollectUnknown reason None)
  | Observed o =>
    if s_active (o_status o) then Ret (CollectUnknown (py "job is not terminal") None) else
    match collection_locator target (o_handle o) with
    | None => Ret (CollectUnknown (py "collection locator unavailable") None)
    | Some locator => _collect_terminal o locator
    end
  end.
End Calls.

(** A call, by a process of its own. *)
Definition body (me : nat) (job : ClusterJob) : prog ClusterReply :=
  match job with
  | J_submit store request operation_id =>
    await outcome := submit me store request operation_id in Ret (R_submit operation_id outcome)
  | J_inspect store target by_job_id =>
    await outcome := inspect me store target by_job_id in Ret (R_inspect target by_job_id outcome)
  | J_cancel store target by_job_id =>
    await outcome := cancel me store target by_job_id in Ret (R_cancel target by_job_id outcome)
  | J_collect store target by_job_id observed =>
    await outcome := collect me store target by_job_id observed in Ret (R_collect outcome)
  | J_recorded store => await ids := recorded_job_ids store in Ret (R_recorded ids)
  end.
End Port.
