(* ===== verification/ClusterLogic.v ===== *)
(** What the cluster port keeps true, and what each of its processes may do to the state: an operation has
    at most one job, that of the process that published its intent; what the caches and the files of an
    operation say of its job is so. *)
From S2P Require Import Prelude Plan Floats Coroutines Processes SlurmStates SlurmTypes ClusterPort.
Open Scope coro_scope.

Section Logic.
Context `{OperationCodecLaws}.
Variable job_name : pystr -> pystr.

(** ** Facts *)

Definition has_job (operation_id job_id : pystr) (s : Cluster) : Prop :=
  exists j, j ∈ cl_jobs s /\ sj_id j = job_id /\ sj_name j = job_name operation_id.
(** What a record says is so: the job it names is the operation's, and a rejection was decided. *)
Record record_true (o : Operation) (s : Cluster) : Prop := mk_record_true {
  rt_job : forall h, op_handle o = Some h -> known_job h = true -> has_job (op_id o) (handle_job_id h) s;
  rt_rejected : op_rejected o <> None -> op_id o ∈ cl_refused s }.
Record evidence_true (operation_id : pystr) (ev : Evidence) (s : Cluster) : Prop := mk_evidence_true {
  et_intent : forall o, ev_intent ev = Some o -> record_true o s;
  et_accepted : forall o, ev_accepted ev = Some o -> record_true o s;
  et_rejected : ev_rejected ev <> None -> operation_id ∈ cl_refused s;
  et_cancelled : ev_cancelled ev = true -> ev_cancelled (evidence_of operation_id s) = true }.

Record inv (s : Cluster) : Prop := mk_inv {
  v_records : forall store name o, records_of store s !! name = Some o -> record_true o s;
  v_remote : forall op, evidence_true op (evidence_of op s) s;
  v_claims : forall op, cl_claims s !! op = None <-> ev_intent (evidence_of op s) = None;
  v_jobs : forall j, j ∈ cl_jobs s -> sj_name j = job_name (sj_operation j)
    /\ cl_claims s !! sj_operation j = Some (sj_task j, false) /\ sj_operation j ∉ cl_refused s;
  v_once : NoDup (map sj_operation (cl_jobs s));
  v_refused : forall op, op ∈ cl_refused s -> cl_claims s !! op <> None }.

(** ** What the others do *)

Definition marked (op : pystr) (s : Cluster) : Prop := ev_cancelled (evidence_of op s) = true.
(** Nothing is undone; and an operation that is marked as cancelled before its intent is published is
    published as cancelled. *)
Record grows (s s' : Cluster) : Prop := mk_grows {
  g_jobs : forall j, j ∈ cl_jobs s -> j ∈ cl_jobs s';
  g_scancels : forall x, x ∈ cl_scancels s -> x ∈ cl_scancels s';
  g_refused : forall op, op ∈ cl_refused s -> op ∈ cl_refused s';
  g_marked : forall op, marked op s -> marked op s';
  g_claims : forall op c, cl_claims s !! op = Some c -> cl_claims s' !! op = Some c;
  g_late : forall op c, cl_claims s !! op = None -> marked op s -> cl_claims s' !! op = Some c -> snd c = true }.
#[export] Instance grows_preorder : PreOrder grows.
Proof.
  split; [by split; intros; simplify_eq|]. intros s1 s2 s3 G G'. split; intros; try (apply G', G; done).
  destruct (cl_claims s2 !! op) as [c'|] eqn:C.
  - assert (c' = c) as <- by (apply (g_claims _ _ G') in C; congruence). by eapply (g_late _ _ G).
  - eapply (g_late _ _ G'); [done|by apply (g_marked _ _ G)|done].
Qed.
(** A process has no job; an operation's submission is this process's, and not given up. *)
Definition free (t : nat) (s : Cluster) : Prop := forall j, j ∈ cl_jobs s -> sj_task j <> t.
Definition holds (t : nat) (op : pystr) (s : Cluster) : Prop :=
  exists c, cl_claims s !! op = Some (t, c) /\ op ∉ cl_refused s.
Record rely (t : nat) (s s' : Cluster) : Prop := mk_rely {
  l_grows : grows s s';
  l_free : free t s -> free t s';
  l_holds : forall op, holds t op s -> op ∉ cl_refused s' }.
#[export] Instance rely_preorder t : PreOrder (rely t).
Proof.
  split; [by split; [reflexivity|auto|intros op (c & _ & N)]|]. intros s1 s2 s3 [G F Hl] [G' F' Hl'].
  split; [by etrans|auto|]. intros op (c & C & N). apply Hl'. exists c. split; [by apply G|]. apply Hl. by exists c.
Qed.
(** A process that may submit the job of an operation. *)
Definition ready (t : nat) (op : pystr) (s : Cluster) : Prop :=
  cl_claims s !! op = Some (t, false) /\ (op ∉ cl_refused s) /\ free t s.
Lemma ready_later t op s s' : rely t s s' -> ready t op s -> ready t op s'.
Proof. intros [G F Hl] (C & N & Fr). split; [by apply G|]. split; [|auto]. apply Hl. by exists false. Qed.

Lemma has_job_later op i s s' : grows s s' -> has_job op i s -> has_job op i s'.
Proof. intros G (j & In & E). exists j. split; [by apply G|done]. Qed.
Lemma record_true_later o s s' : grows s s' -> record_true o s -> record_true o s'.
Proof. intros G [J R]. split; [intros h Eh K; eapply has_job_later; [done|auto]|intros N; apply G; auto]. Qed.
Lemma evidence_true_later op ev s s' : grows s s' -> evidence_true op ev s -> evidence_true op ev s'.
Proof.
  intros G [I A R C]. split.
  - intros o E. eapply record_true_later; [done|auto].
  - intros o E. eapply record_true_later; [done|auto].
  - intros N. apply G. auto.
  - intros E. by apply (g_marked _ _ G), C.
Qed.
Lemma inv_evidence s op : inv s -> evidence_true op (evidence_of op s) s.
Proof. intros I. by apply v_remote. Qed.

(** ** Steps *)

(** A step that submits, claims and gives up nothing, and takes no mark away. *)
Record steady (s s' : Cluster) : Prop := mk_steady {
  sd_jobs : cl_jobs s' = cl_jobs s;
  sd_claims : cl_claims s' = cl_claims s;
  sd_refused : cl_refused s' = cl_refused s;
  sd_scancels : forall x, x ∈ cl_scancels s -> x ∈ cl_scancels s';
  sd_marked : forall op, marked op s -> marked op s' }.
Lemma steady_rely t s s' : steady s s' -> rely t s s'.
Proof.
  intros [Ej Ec Er Es Em]. split; [split|intros F j; rewrite Ej; apply F|].
  - intros j. by rewrite Ej.
  - done.
  - intros op. by rewrite Er.
  - done.
  - intros op c. by rewrite Ec.
  - intros op c N _. rewrite Ec. congruence.
  - intros op (c & _ & N). by rewrite Er.
Qed.
Lemma steady_grows s s' : steady s s' -> grows s s'.
Proof. intros S. by destruct (steady_rely 0 _ _ S). Qed.
Lemma steady_inv s s' :
  inv s -> steady s s' ->
  (forall store name o, records_of store s' !! name = Some o -> records_of store s !! name = Some o \/ record_true o s') ->
  (forall op, ev_intent (evidence_of op s') = ev_intent (evidence_of op s)
     /\ (forall o, ev_accepted (evidence_of op s') = Some o -> ev_accepted (evidence_of op s) = Some o \/ record_true o s')
     /\ (ev_rejected (evidence_of op s') <> None -> op ∈ cl_refused s')) ->
  inv s'.
Proof.
  intros I S R E. pose proof (steady_grows _ _ S) as G. destruct S as [Ej Ec Er Es Em]. constructor.
  - intros store name o [L|T]%R; [|done]. eapply record_true_later; [done|by eapply v_records].
  - intros op. destruct (E op) as (Ei & Ea & Ex), (v_remote _ I op) as [I1 I2 I3 I4]. split; [..|done|done].
    + intros o. rewrite Ei. intros L. eapply record_true_later; [done|auto].
    + intros o [L|T]%Ea; [|done]. eapply record_true_later; [done|auto].
  - intros op. destruct (E op) as (-> & _). rewrite Ec. apply (v_claims _ I).
  - intros j. rewrite Ej, Ec, Er. apply (v_jobs _ I).
  - rewrite Ej. apply I.
  - intros op. rewrite Er, Ec. apply (v_refused _ I).
Qed.

Lemma records_of_put store r s store' name :
  records_of store' (put_record store r s) !! name =
    if decide (store' = store /\ name = op_id r) then Some r else records_of store' s !! name.
Proof.
  unfold records_of, put_record. cbn. destruct (decide (store' = store)) as [->|N].
  - rewrite lookup_insert_eq. cbn. destruct (decide _) as [[_ ->]|M]; [by rewrite lookup_insert_eq|].
    rewrite lookup_insert_ne; [done|]. intros <-. by apply M.
  - rewrite lookup_insert_ne by done. by destruct (decide _) as [[? _]|].
Qed.
Lemma evidence_of_put op ev s op' : evidence_of op' (put_evidence op ev s) = if decide (op' = op) then ev else evidence_of op' s.
Proof.
  unfold evidence_of, put_evidence. cbn. destruct (decide _) as [->|N]; [by rewrite lookup_insert_eq|by rewrite lookup_insert_ne].
Qed.

(** A file of an operation is added: an acceptance, a rejection, the mark. *)
Lemma put_evidence_step op ev s :
  inv s -> ev_intent ev = ev_intent (evidence_of op s) ->
  (forall o, ev_accepted ev = Some o -> ev_accepted (evidence_of op s) = Some o \/ record_true o s) ->
  (ev_rejected ev <> None -> op ∈ cl_refused s) -> (marked op s -> ev_cancelled ev = true) ->
  inv (put_evidence op ev s) /\ steady s (put_evidence op ev s).
Proof.
  intros I Ei Ea Er Ec.
  assert (steady s (put_evidence op ev s)) as S.
  { split; try done. intros op' M. unfold marked. rewrite evidence_of_put. destruct (decide _) as [->|]; auto. }
  split; [|done]. eapply steady_inv; [done|done|by left|]. intros op'. rewrite evidence_of_put.
  destruct (decide _) as [->|N]; [|split; [done|split; [by left|apply (v_remote _ I)]]].
  split; [done|split; [|done]]. intros o [?|T]%Ea; [by left|right]. eapply record_true_later; [by apply steady_grows|done].
Qed.
Lemma put_record_step store r s : inv s -> record_true r s -> inv (put_record store r s) /\ steady s (put_record store r s).
Proof.
  intros I T. assert (steady s (put_record store r s)) as S by by split. split; [|done].
  eapply steady_inv; [done|done| |intros op; split; [done|split; [by left|apply (v_remote _ I)]]].
  intros store' name o. rewrite records_of_put. destruct (decide _) as [_|_]; [|by left]. intros [= <-]. right.
  eapply record_true_later; [by apply steady_grows|done].
Qed.
(** A step that leaves records, files, jobs and claims alone. *)
Lemma same_step s s' :
  inv s -> cl_records s' = cl_records s -> cl_remote s' = cl_remote s -> cl_jobs s' = cl_jobs s -> cl_claims s' = cl_claims s ->
  cl_refused s' = cl_refused s -> (forall x, x ∈ cl_scancels s -> x ∈ cl_scancels s') -> inv s' /\ steady s s'.
Proof.
  intros I E1 E2 E3 E4 E5 E6.
  assert (forall op, evidence_of op s' = evidence_of op s) as Ev by (intros; unfold evidence_of; by rewrite E2).
  assert (steady s s') as S by (split; [done..|intros op; unfold marked; by rewrite Ev]). split; [|done].
  eapply steady_inv; [done|done|intros store name o; unfold records_of; rewrite E1; by left|].
  intros op. rewrite Ev, E5. split; [done|split; [by left|apply (v_remote _ I)]].
Qed.

(** Publishing an intent. *)
Lemma publish_step me r s b s' :
  inv s -> record_true r s -> publish me r s = (b, s') ->
  inv s' /\ (forall u, rely u s s')
  /\ (b = true -> (exists c, cl_claims s' !! op_id r = Some (me, c) /\ (c = true -> marked (op_id r) s')) /\ op_id r ∉ cl_refused s').
Proof.
  intros I T P. unfold publish in P. destruct (ev_intent (evidence_of (op_id r) s)) as [o|] eqn:E.
  { injection P as <- <-. split; [done|split; [done|done]]. }
  injection P as <- <-. set (ev := evidence_of (op_id r) s) in *. 
  set (s' := put_evidence (op_id r) (ev <| ev_intent := Some r |>) s <| cl_claims := <[op_id r := (me, ev_cancelled ev)]> (cl_claims s) |>).
  assert (cl_claims s !! op_id r = None) as Nc by by apply (v_claims _ I).
  assert (op_id r ∉ cl_refused s) as Nr by by intros ?%(v_refused _ I).
  assert (forall op, evidence_of op s' = if decide (op = op_id r) then ev <| ev_intent := Some r |> else evidence_of op s) as Ev
    by (intros; exact (evidence_of_put (op_id r) (ev <| ev_intent := Some r |>) s op)).
  assert (forall op, marked op s' <-> marked op s) as Em.
  { intros op. unfold marked. rewrite Ev. by destruct (decide _) as [->|]. }
  assert (grows s s') as G.
  { split; [done|done|done|intros op; by rewrite Em|..]; cbn.
    - intros op c C. rewrite lookup_insert_ne; [done|]. intros <-. congruence.
    - intros op c C M. destruct (decide (op = op_id r)) as [->|N]; [|rewrite lookup_insert_ne by done; congruence].
      rewrite lookup_insert_eq. by intros [= <-]. }
  split; [|split].
  - constructor.
    + intros store name o L. eapply record_true_later; [done|by eapply (v_records _ I)].
    + intros op. pose proof (evidence_true_later _ _ _ _ G (v_remote _ I op)) as Et. rewrite Ev.
      destruct (decide (op = op_id r)) as [->|]; [|done]. destruct Et as [E1 E2 E3 E4]. split; cbn; [|done|done|done].
      intros o [= <-]. by eapply record_true_later.
    + intros op. rewrite Ev. cbn. destruct (decide (op = op_id r)) as [->|N]; [by rewrite lookup_insert_eq|].
      rewrite lookup_insert_ne by done. apply (v_claims _ I).
    + intros j In. destruct (v_jobs _ I j In) as (A & B & C). split; [done|split; [|done]]. by apply (g_claims _ _ G).
    + apply (v_once _ I).
    + intros op In. cbn. destruct (decide (op = op_id r)) as [->|N]; [by rewrite lookup_insert_eq|].
      rewrite lookup_insert_ne by done. by apply (v_refused _ I).
  - intros u. split; [done|done|]. intros op (c & _ & N). exact N.
  - intros _. split; [|done]. exists (ev_cancelled ev). split; [apply lookup_insert_eq|]. intros Ec. by apply Em.
Qed.

(** No process but the publisher has a job of the operation. *)
Lemma no_job_yet t op s j : inv s -> ready t op s -> j ∈ cl_jobs s -> sj_operation j <> op.
Proof. intros I (C & _ & F) In <-. destruct (v_jobs _ I j In) as (_ & C' & _). rewrite C in C'. injection C' as E. by apply (F j In). Qed.
(** The publisher gives up. *)
Lemma refuse_step t op s :
  inv s -> (exists c, cl_claims s !! op = Some (t, c)) -> free t s ->
  let s' := s <| cl_refused := {[op]} ∪ cl_refused s |> in
  inv s' /\ grows s s' /\ forall u, u <> t -> rely u s s'.
Proof.
  intros I [c C] F s'. assert (grows s s') as G.
  { split; [done|done|intros ? ?; cbn; set_solver|done|done|intros ? ? ? ?; cbn; congruence]. }
  split; [|split; [done|]].
  - constructor.
    + intros store name o L. eapply record_true_later; [done|by eapply (v_records _ I)].
    + intros o. eapply evidence_true_later; [done|]. apply (v_remote _ I).
    + apply (v_claims _ I).
    + intros j In. destruct (v_jobs _ I j In) as (A & B & R). split; [done|split; [done|]]. cbn.
      intros [E|?]%elem_of_union; [|done]. apply elem_of_singleton in E. rewrite E in B. rewrite C in B. injection B as Et _. by apply (F j In).
    + apply (v_once _ I).
    + intros o [->%elem_of_singleton|In]%elem_of_union; [cbn; congruence|by apply (v_refused _ I)].
  - intros u N. split; [done|done|]. intros o (c' & C' & R). cbn. intros [->%elem_of_singleton|?]%elem_of_union; [congruence|done].
Qed.
(** The scheduler accepts the job of the publisher. *)
Lemma accept_step sbatch t op s out s' :
  inv s -> ready t op s -> accept job_name sbatch t op s = (out, s') ->
  inv s' /\ grows s s' /\ (forall u, u <> t -> rely u s s') /\ has_job op (fst (sbatch (cl_asked s))) s' /\ out = snd (sbatch (cl_asked s)).
Proof.
  intros I R A. unfold accept in A. destruct (sbatch (cl_asked s)) as [i stdout]. injection A as <- <-. cbn [fst snd].
  set (j := mk_SchedulerJob i (job_name op) op t). set (s' := asked_once s <| cl_jobs := j :: cl_jobs s |>).
  assert (grows s s') as G.
  { split; [intros; by right|done..|intros ? ? ? ?; cbn; congruence]. }
  pose proof (fun j => no_job_yet t op s j I R) as Ny. destruct R as (C & N & F). split; [|split; [done|split; [|split; [|done]]]].
  - constructor.
    + intros store name o L. eapply record_true_later; [done|by eapply (v_records _ I)].
    + intros o. eapply evidence_true_later; [done|]. apply (v_remote _ I).
    + apply (v_claims _ I).
    + intros k [->|In]%elem_of_cons; [done|]. by apply (v_jobs _ I).
    + cbn. apply NoDup_cons. split; [|apply (v_once _ I)]. intros (k & E & In)%list_elem_of_fmap. by apply (Ny k).
    + apply (v_refused _ I).
  - intros u Nu. split; [done|..]; [|intros o (c & _ & R'); exact R']. intros Fu k [->|In]%elem_of_cons; [done|by apply Fu].
  - exists j. split; [by left|done].
Qed.

(** ** Triples

    [ok b t p P s]: from [s], whatever other processes do, [p] keeps the invariant, and if it answers its
    answer satisfies [P]; a calm program ([b]) does nothing its own process does not rely on either. *)

Definition idle (t : nat) (s : Cluster) : Prop := free t s.
Definition accepts (t : nat) (_ : ClusterJob) (s : Cluster) : Prop := free t s.
Variable owed : answer ClusterReply -> Cluster -> Prop.
Definition own_of (calm : bool) (t : nat) : Cluster -> Cluster -> Prop := if calm then rely t else grows.
#[export] Instance own_of_preorder b t : PreOrder (own_of b t).
Proof. destruct b; exact _. Qed.
Lemma own_of_rely b t s s' : rely t s s' -> own_of b t s s'.
Proof. destruct b; [done|by intros []]. Qed.
Lemma own_of_grows b t s s' : own_of b t s s' -> grows s s'.
Proof. destruct b; [by intros []|done]. Qed.

Definition ok (b : bool) (t : nat) {A} (p : prog A) (P : A -> Cluster -> Prop) (s : Cluster) : Prop :=
  does inv rely idle accepts owed (own_of b) t p P (fun _ _ => True) s.
Definition lasting (F : Cluster -> Prop) : Prop := forall s s', grows s s' -> F s -> F s'.

Tactic Notation "rule" uconstr(l) :=
  unfold ok; eapply l; try exact rely_preorder; try (intros; apply own_of_preorder); try (intros *; apply own_of_rely); try done.
Lemma port_weaken b t A (p : prog A) (P Q : A -> Cluster -> Prop) s :
  (forall x s', inv s' -> own_of b t s s' -> P x s' -> Q x s') -> ok b t p P s -> ok b t p Q s.
Proof. intros Hm. rule does_weaken. Qed.
Lemma port_ret b t A (x : A) P s : (forall s', rely t s s' -> inv s' -> P x s') -> ok b t (Ret x) P s.
Proof. intros Hp. rule does_ret. Qed.
Lemma port_raise b t A e (P : A -> Cluster -> Prop) s : ok b t (Raise e) P s.
Proof. rule does_raise. Qed.
Lemma port_bind b t A B (p : prog A) (k : A -> prog B) P Q s :
  inv s -> ok b t p P s -> (forall x s', inv s' -> own_of b t s s' -> P x s' -> ok b t (k x) Q s') -> ok b t (cbind p k) Q s.
Proof. intros I W K. rule does_bind. Qed.
Lemma port_lift b t A (m : result A) (P : A -> Cluster -> Prop) s :
  (forall x s', m = Ok x -> rely t s s' -> inv s' -> P x s') -> ok b t (lift m) P s.
Proof. intros Hp. rule does_lift. Qed.
Lemma port_except b t A caught (p : prog A) (k : Exc -> prog A) P s :
  inv s -> ok b t p P s -> (forall e s', inv s' -> own_of b t s s' -> ok b t (k e) P s') -> ok b t (except caught p k) P s.
Proof. intros I W K. rule does_except. intros e s' _ I' G _. by apply K. Qed.
Lemma port_finally b t A (p : prog A) (q : prog unit) P P' s :
  inv s -> ok b t p P s ->
  (forall a s', inv s' -> own_of b t s s' -> P a s' -> ok b t q (fun _ => P' a) s') ->
  (forall s', inv s' -> own_of b t s s' -> ok b t q (fun _ _ => True) s') -> ok b t (finally p q) P' s.
Proof.
  intros I W K Kf. rule does_finally. intros [x|e] s' I' G X; cbn in *.
  - by apply K.
  - eapply wp_mono; [|by apply Kf]. intros [[]|e'] s'' _ [G'' _]; by split.
Qed.
(** A calm program, in front of one that need not be. *)
Lemma port_calm b t A (p : prog A) P s : ok true t p P s -> ok b t p (fun x s' => rely t s s' /\ P x s') s.
Proof. apply wp_mono. intros [x|e] s' _ [G X]; cbn in *; (split; [by apply own_of_rely|]); by try split. Qed.
Lemma port_always t A (p : prog A) P s : ok true t p P s -> forall b, ok b t p P s.
Proof. intros W b. eapply wp_mono; [|exact W]. intros [x|e] s' _ [G X]; (split; [by apply own_of_rely|done]). Qed.

(** A calm step: it keeps the invariant, and every process can rely on it. *)
Lemma calm_moves b t s s' : inv s' -> (forall u, rely u s s') -> moves inv rely (own_of b) t s s'.
Proof. intros I R. split; [by split|]. by apply own_of_rely. Qed.
Lemma port_exec b t R (f : Cluster -> R * Cluster) (P : R -> Cluster -> Prop) s :
  inv s -> (forall s1 r s2, rely t s s1 -> inv s1 -> f s1 = (r, s2) ->
     inv s2 /\ (forall u, rely u s1 s2) /\ forall s3, rely t s2 s3 -> inv s3 -> P r s3) -> ok b t (exec f) P s.
Proof.
  intros I F. rule does_and_back. intros s1 r s2 G I1 Ef. destruct (F _ _ _ G I1 Ef) as (? & ? & X).
  split; [by apply calm_moves|]. intros s3 G3 I3. split; [by apply X|done].
Qed.
Lemma port_note b t (f : Cluster -> Cluster) (P : unit -> Cluster -> Prop) s :
  inv s -> (forall s1, rely t s s1 -> inv s1 -> inv (f s1) /\ steady s1 (f s1)
              /\ forall s3, rely t (f s1) s3 -> inv s3 -> P tt s3) -> ok b t (noted f) P s.
Proof.
  intros I F. apply port_exec; [done|]. intros s1 r s2 G I1 [= <- <-]. destruct (F _ G I1) as (? & ? & X).
  split; [done|split; [intros u; by apply steady_rely|done]].
Qed.
Lemma port_ask b t (P : nat -> Cluster -> Prop) s : (forall n s', rely t s s' -> inv s' -> P n s') -> ok b t ask P s.
Proof.
  intros Hp. rule does_sync. intros n s1 G I.
  destruct (same_step s1 (asked_once s1)) as [I2 S2]; [done..|]. exists (cl_asked s1), (asked_once s1). split; [done|].
  split; [apply calm_moves; [done|intros u; by apply steady_rely]|]. intros s3 G3 I3. apply Hp; [|done].
  etrans; [exact G|etrans; [by apply steady_rely|done]].
Qed.

(** *** Giving up and submitting

    [rejecting] exceptions are those of a submission that was given up before [sbatch]. *)
Definition is_rejection (e : Exc) : bool := is_one_of [submission_rejected] e.
Lemma thrown_plain e : thrown raised_outside e -> is_rejection e = false.
Proof.
  intros [->|[->|([| | |name text] & ->)]]; try done. unfold raised_outside. destruct (pystr_eqb name submission_rejected) eqn:E; [by vm_compute|].
  unfold is_rejection, is_one_of. apply bool_decide_eq_false. intros ->%list_elem_of_singleton. by rewrite pystr_eqb_refl in E.
Qed.
Definition may_submit (t : nat) (op : pystr) (s : Cluster) : Prop := (exists c, cl_claims s !! op = Some (t, c)) /\ free t s.
Lemma may_submit_later t op s s' : rely t s s' -> may_submit t op s -> may_submit t op s'.
Proof. intros [G F _] [[c C] Fr]. split; [exists c; by apply G|auto]. Qed.
Lemma port_refuse t op s : may_submit t op s -> ok false t (refuse op) (fun _ s' => op ∈ cl_refused s') s.
Proof.
  intros M. rule does_sync. intros n s1 G I. destruct (may_submit_later _ _ _ _ G M) as [C F].
  destruct (refuse_step t op s1 I C F) as (I2 & G2 & R2). eexists _, _. split; [done|]. split; [by split; [split|]|].
  intros s3 [G3 _ _] _. apply G3. cbn. set_solver.
Qed.
(** What [p] raises matters, too. *)
Definition raising (t : nat) {A} (p : prog A) (P : A -> Cluster -> Prop) (E : Exc -> Cluster -> Prop) (s : Cluster) : Prop :=
  does inv rely idle accepts owed (own_of false) t p P E s.
Lemma raising_calm t A (p : prog A) P s :
  ok true t p P s -> raising t p (fun x s' => rely t s s' /\ P x s') (fun _ s' => rely t s s') s.
Proof. apply wp_mono. intros [x|e] s' _ [G X]; cbn in *; (split; [by destruct G|done]). Qed.
Lemma raising_weaken t A (p : prog A) (P P' : A -> Cluster -> Prop) (E E' : Exc -> Cluster -> Prop) s :
  (forall x s', P x s' -> P' x s') -> (forall e s', E e s' -> E' e s') -> raising t p P E s -> raising t p P' E' s.
Proof. intros Hp He. unfold raising. rule does_weaken; auto. Qed.
Lemma raising_bind t A B (p : prog A) (k : A -> prog B) P Q E s :
  inv s -> raising t p P E s -> (forall x s', inv s' -> grows s s' -> P x s' -> raising t (k x) Q E s') -> raising t (cbind p k) Q E s.
Proof. intros I W K. unfold raising. rule does_bind. Qed.
Lemma raising_ret t A (x : A) (P : A -> Cluster -> Prop) E s : (forall s', grows s s' -> P x s') -> raising t (Ret x) P E s.
Proof. intros Hp. unfold raising. rule does_ret. intros s' [G _ _] _. auto. Qed.
Lemma raising_raise t A e (P : A -> Cluster -> Prop) (E : Exc -> Cluster -> Prop) s :
  (forall s', E e s') -> raising t (Raise e) P E s.
Proof. intros Hp. unfold raising. rule does_raise. Qed.
Lemma raising_lift t A (m : result A) (P : A -> Cluster -> Prop) (E : Exc -> Cluster -> Prop) s :
  (forall x s', m = Ok x -> grows s s' -> P x s') -> (forall e s', m = Err e -> E (exc_of e) s') -> raising t (lift m) P E s.
Proof. intros Hp He. unfold raising. rule does_lift; [intros x s' Ex [G _ _] _|intros e s' Ee _ _]; auto. Qed.
Lemma raising_ask t (P : nat -> Cluster -> Prop) E s : (forall n s', grows s s' -> P n s') -> raising t ask P E s.
Proof.
  intros Hp. unfold raising. rule does_sync. intros n s1 G I.
  destruct (same_step s1 (asked_once s1)) as [I2 S2]; [done..|]. exists (cl_asked s1), (asked_once s1). split; [done|].
  split; [apply calm_moves; [done|intros u; by apply steady_rely]|]. intros s3 [G3 _ _] I3. apply Hp.
  etrans; [exact (l_grows _ _ _ G)|etrans; [by apply steady_grows|done]].
Qed.
Lemma raising_except t A caught (p : prog A) (k : Exc -> prog A) P E E' s :
  inv s -> raising t p P E s ->
  (forall e s', inv s' -> grows s s' -> E e s' -> raising t (k e) P E' s') ->
  (forall e s', caught e = false -> E e s' -> E' e s') -> raising t (except caught p k) P E' s.
Proof. intros I W K N. unfold raising. rule does_except; [intros e s' _ I' G X; by apply K|intros e s' C _ _ X; by apply N]. Qed.
Lemma port_capture t A (p : prog A) P E s :
  inv s -> raising t p P E s -> ok false t (capture p) (fun r s' => outcome_of P E r s') s.
Proof. intros I W. eapply wp_captured; [exact rely_preorder|done|exact W|]. by intros r s' _ [G X]. Qed.
Lemma raising_accept sbatch t op s :
  inv s -> ready t op s ->
  raising t (exec (accept job_name sbatch t op))
    (fun out s' => exists n, out = snd (sbatch n) /\ has_job op (fst (sbatch n)) s') (fun e _ => is_rejection e = false) s.
Proof.
  intros I R. unfold raising. rule does_and_back; [|intros e s1 Th _ _; by apply thrown_plain].
  intros s1 out s2 G I1 Ea. destruct (accept_step sbatch t op s1 out s2) as (I2 & G2 & R2 & J & ->); [done|by eapply ready_later|done|].
  split; [by split; [split|]|]. intros s3 [G3 _ _] I3. split; [|intros e Th; by apply thrown_plain].
  exists (cl_asked s1). split; [done|by eapply has_job_later].
Qed.
End Logic.
