(* ===== verification/ClusterTriples.v ===== *)
(** A triple for every operation of the cluster port: whatever other processes do, each keeps the
    invariant, and what it answers of an operation's job is so. *)
From S2P Require Import Prelude Plan Floats Coroutines Processes SlurmStates SlurmTypes ClusterPort ClusterLogic.
Open Scope coro_scope.

(** ** Reading and records *)

Lemma handle_job_id_replaced h i : handle_job_id (replace_job_id h i) = i.
Proof. by destruct h. Qed.
Lemma known_job_true h : known_job h = true <-> handle_job_id h <> no_job.
Proof. unfold known_job. rewrite negb_true_iff. split; [intros E Eh; by rewrite Eh in E|intros N]. destruct (pystr_eqb _ _) eqn:E; [|done]. by apply pystr_eqb_true in E. Qed.

Lemma validated_Ok {A} (m : result A) x : validated m = Ok x -> m = Ok x.
Proof. unfold validated. destruct m as [y|e]; [done|]. by destruct (is_value_error e). Qed.
Lemma validate_operation_same o o' : validate_operation o = Ok o' -> o' = o.
Proof.
  unfold validate_operation. intros V%validated_Ok. destruct (validate_operation_id _); [|done]. cbn in V.
  destruct (match op_handle o with Some h => _ | None => _ end); [|done]. cbn in V. apply guard_Ok in V as [_ V].
  destruct (_legal_intent o); [|done]. cbn in V. by injection V as <-.
Qed.

(** The lines of two texts, one under the other. *)
Lemma splitlines_under x line a b :
  x ∈ splitlines line (a ++ [10%N] ++ b) -> x = [] \/ x ∈ splitlines line a \/ x ∈ splitlines [] b.
Proof.
  remember (length a) as n eqn:En. revert a line En. induction n as [n IH] using lt_wf_ind. intros a line En.
  destruct a as [|c a]; cbn [app splitlines].
  - replace (is_line_break 10) with true by done. intros H. replace (match b with [] => splitlines [] b | _ => _ end) with (splitlines [] b) in H by by destruct b.
    apply elem_of_cons in H as [->|H]; [|auto]. destruct line as [|d line]; [by left|right; left; by left].
  - destruct (is_line_break c) eqn:Br.
    2: { intros H. refine (IH (length a) _ a (c :: line) eq_refl H). cbn in En. lia. }
    intros [->|H]%elem_of_cons; [right; left; by left|].
    assert (forall rest, (length rest < n)%nat -> x ∈ splitlines [] (rest ++ [10%N] ++ b) ->
      x = [] \/ x ∈ splitlines [] rest \/ x ∈ splitlines [] b) as Next.
    { intros rest L Hr. exact (IH _ L rest [] eq_refl Hr). }
    destruct a as [|d a]; cbn [app] in H.
    + replace ((c =? 13) && (10 =? 10))%N with (c =? 13)%N in H by by rewrite andb_true_r. destruct (c =? 13)%N; [auto|].
      apply (Next []) in H as [?|[?|?]]; [auto|by apply elem_of_nil in H|auto|cbn in *; lia].
    + cbn in En. destruct ((c =? 13) && (d =? 10))%N.
      * apply Next in H as [?|[?|?]]; [auto|right; left; by right|auto|lia].
      * apply (Next (d :: a)) in H as [?|[?|?]]; [auto|right; left; by right|auto|cbn; lia].
Qed.
Lemma listed_ids_elem x text : x ∈ listed_ids text <-> exists line, line ∈ splitlines [] text /\ x = strip line /\ job_id_ok x = true.
Proof.
  unfold listed_ids. rewrite elem_of_remove_dups, list_elem_of_In, filter_In, in_map_iff. split.
  - intros [(line & <- & In) J]. exists line. by rewrite list_elem_of_In.
  - intros (line & In & -> & J). split; [|done]. exists line. by rewrite list_elem_of_In in In.
Qed.
Lemma listed_ids_under x a b : x ∈ listed_ids (a ++ [10%N] ++ b) -> x ∈ listed_ids a \/ x ∈ listed_ids b.
Proof.
  rewrite !listed_ids_elem. intros (line & In & -> & J). apply splitlines_under in In as [->|[In|In]]; [done|left|right]; eauto.
Qed.

(** What the scheduler tells of its jobs is so: the id [sbatch] prints is the job's, and the jobs [squeue]
    and [sacct] list under a name have that name. *)
Class SbatchLaw (sbatch : nat -> pystr * pystr) : Prop :=
  sbatch_prints : forall n job_id, search_job_id true (snd (sbatch n)) = Some job_id -> job_id = fst (sbatch n).
Class ListingLaw (listing : nat -> pystr -> list SchedulerJob -> pystr) : Prop :=
  listing_lists : forall n name jobs body job_id,
    unframed (listing n name jobs) READ_END = Some body -> job_id ∈ listed_ids (strip body) ->
    exists j, j ∈ jobs /\ sj_id j = job_id /\ sj_name j = name.

Section Triples.
Context `{OperationCodecLaws}.
Variable cluster_root : PosixPath.
Variable config_identity : pystr.
Variable job_name : pystr -> pystr.
Variable clock : nat -> float.
Variable listing : nat -> pystr -> list SchedulerJob -> pystr.
Variable answers : nat -> list (result pystr).
Variable progress : nat -> pystr.
Context `{!ListingLaw listing}.

(** ** What an answer says *)

(** A reading of a job said this. *)
Definition saw (job_id : pystr) (l : JobLife) : Prop := exists n r, read_job answers job_id n = Ok r /\ r_life r = l.
(** A job was scancelled, or read as ending or ended. *)
Definition stopped (job_id : pystr) (s : Cluster) : Prop :=
  job_id ∈ cl_scancels s \/ exists l, saw job_id l /\ phase_of l ∉ [P_PENDING; P_RUNNING].
Definition target_operation (target : Target) (by_job_id : bool) : option pystr :=
  match target with
  | T_handle h => Some (j_invocation_id (job_handle h))
  | T_id name => if by_job_id then None else Some name
  end.
Definition read_true (o : ClusterObservation) : Prop := saw (o_job_id o) (o_life o) /\ is_unknown (o_life o) = false.
Definition job_true (op : pystr) (o : ClusterObservation) (s : Cluster) : Prop :=
  has_job job_name op (o_job_id o) s /\ exists h, o_handle o = Some h /\ handle_job_id h = o_job_id o.
Definition said (reply : ClusterReply) (s : Cluster) : Prop :=
  match reply with
  | R_submit op (ClusterSubmitted op' h) => op' = op /\ has_job job_name op (handle_job_id h) s
  | R_inspect target by_job_id (Observed o) =>
    read_true o /\ forall op, target_operation target by_job_id = Some op -> job_true op o s
  | R_cancel target by_job_id (CancelRequested job_id) =>
    (forall op, target_operation target by_job_id = Some op -> marked op s) /\ forall i, job_id = Some i -> stopped i s
  | R_collect (ClusterCollected r) => collection_problem r = None
  | R_recorded ids => forall i, i ∈ ids -> exists j, j ∈ cl_jobs s /\ sj_id j = i
  | _ => True
  end.
Definition owed (a : answer ClusterReply) (s : Cluster) : Prop := match a with Ans r => said r s | Threw _ => True end.

Lemma stopped_later i : lasting (stopped i).
Proof. intros s s' G [?|?]; [left; by apply G|by right]. Qed.
Lemma job_true_later op o : lasting (job_true op o).
Proof. intros s s' G [J E]. split; [by eapply has_job_later|done]. Qed.
Lemma port_said_later r : lasting (said r).
Proof.
  intros s s' G. destruct r as [op []|target by_job []|target by_job []|[]|ids]; try done; cbn.
  - intros [? J]. split; [done|by eapply has_job_later].
  - intros [R J]. split; [done|]. intros op E. eapply job_true_later; [done|auto].
  - intros [M St]. split; [intros op E; apply (g_marked _ _ G); auto|]. intros i E. eapply stopped_later; [done|auto].
  - intros J i In. destruct (J i In) as (j & Hj & E). exists j. split; [by apply G|done].
Qed.

Abbreviation inv := (ClusterLogic.inv job_name).
Abbreviation ok := (ClusterLogic.ok job_name owed).
Abbreviation record_true := (ClusterLogic.record_true job_name).
Abbreviation evidence_true := (ClusterLogic.evidence_true job_name).
Abbreviation has_job := (ClusterLogic.has_job job_name).
Definition nothing {A} (_ : A) (_ : Cluster) : Prop := True.
Abbreviation bind_rule P := (port_bind _ _ _ _ _ _ _ _ P _ _).
Abbreviation bind_any := (port_bind _ _ _ _ _ _ _ _ _ _ _).
(** A part whose answer says nothing that is needed. *)
Abbreviation quiet_rule := (port_bind _ _ _ _ _ _ _ _ nothing _ _).

Lemma record_true_same o o' s : op_id o' = op_id o -> op_handle o' = op_handle o -> op_rejected o' = op_rejected o -> record_true o s -> record_true o' s.
Proof. intros Ei Eh Er [J R]. split; [intros h; rewrite Eh, Ei; apply J|by rewrite Er, Ei]. Qed.
Lemma read_operation_same o o' : read_operation o = Ok o' -> o' = o.
Proof.
  unfold read_operation. destruct (validated _) as [x|] eqn:V; [|done]. cbn. intros E%validate_operation_same. subst x.
  by apply validated_Ok, fields_dump in V.
Qed.

(** ** Steps *)

Section Steps.
Variable b : bool.
Variable t : nat.

Lemma port_unseen s : inv s -> ok b t unseen nothing s.
Proof. intros I. apply port_note; [done|]. intros s1 G I1. split; [done|split; [by split|done]]. Qed.
Lemma port_clock s : inv s -> ok b t (clock_now clock) nothing s.
Proof. intros I. eapply quiet_rule; [done|by apply port_ask|]. intros n s1 I1 _ _. by apply port_ret. Qed.
Lemma port_outcome R (f : nat -> result R) (P : R -> Cluster -> Prop) s :
  inv s -> (forall n r s', f n = Ok r -> P r s') -> ok b t (outcome_of_call f) P s.
Proof.
  intros I Hp. unfold outcome_of_call. eapply (bind_rule (fun r _ => exists n, r = f n)); [done| |].
  - apply port_exec; [done|]. intros s1 r s2 G I1 [= <- <-]. destruct (same_step job_name s1 (asked_once s1)) as [I2 S2]; [done..|].
    split; [done|split; [intros u; by apply steady_rely|]]. eauto.
  - intros r s1 I1 _ (n & ->). apply port_lift. intros x s2 E _ _. by eapply Hp.
Qed.
Lemma port_whole_reading (out : Cluster -> pystr) (P : pystr -> Cluster -> Prop) s :
  inv s -> (forall s1 body s2, grows s1 s2 -> unframed (out s1) READ_END = Some body -> P (strip body) s2) ->
  ok b t (whole_reading out) P s.
Proof.
  intros I Hp. unfold whole_reading. eapply (bind_rule (fun text s' => exists s1, grows s1 s' /\ text = out s1)); [done| |].
  - apply port_exec; [done|]. intros s1 r s2 G I1 [= <- <-]. destruct (same_step job_name s1 (asked_once s1)) as [I2 S2]; [done..|].
    split; [done|split; [intros u; by apply steady_rely|]]. intros s3 [G3 _ _] _. exists s1. split; [|done].
    etrans; [by apply steady_grows|done].
  - intros text s1 I1 _ (s0 & G0 & ->). destruct (unframed (out s0) READ_END) as [body|] eqn:U; [|by apply port_raise].
    apply port_ret. intros s2 [G2 _ _] _. eapply Hp; [|done]. by etrans.
Qed.
Lemma port_read_scheduler (out : Cluster -> pystr) (P : pystr -> Cluster -> Prop) s :
  inv s -> (forall s1 body s2, grows s1 s2 -> unframed (out s1) READ_END = Some body -> P (strip body) s2) ->
  ok b t (read_scheduler out) P s.
Proof. intros I Hp. apply port_except; [done|by apply port_whole_reading|]. intros e s1 I1 _. by apply port_whole_reading. Qed.

Lemma port_find_operation op s :
  inv s -> ok b t (find_operation job_name listing op) (fun found s' => forall i, found = Some i -> has_job op i s') s.
Proof.
  intros I. unfold find_operation. eapply quiet_rule; [done|by apply port_lift|]. intros _ s1 I1 _ _.
  pose (Q := fun text s' => forall i, i ∈ listed_ids text -> has_job op i s').
  assert (forall s1 body s2, grows s1 s2 ->
    unframed (listing (cl_asked s1) (job_name op) (cl_jobs s1)) READ_END = Some body -> Q (strip body) s2) as Hq.
  { intros sa body sb G U i In. destruct (listing_lists _ _ _ _ _ U In) as (j & Hj & E). exists j. split; [by apply G|done]. }
  eapply (bind_rule Q); [done|by apply port_read_scheduler|]. intros active s2 I2 _ Qa.
  eapply (bind_rule Q); [done|by apply port_read_scheduler|]. intros historical s3 I3 G3 Qh.
  destruct (listed_ids _) as [|i [|]] eqn:E; [by apply port_ret| |by apply port_raise]. apply port_ret. intros s4 [G4 _ _] _ i' [= <-].
  assert (i ∈ listed_ids (active ++ [10%N] ++ historical)) as [In|In]%listed_ids_under by (rewrite E; by left).
  - eapply has_job_later; [exact G4|]. eapply has_job_later; [by eapply own_of_grows|by apply Qa].
  - eapply has_job_later; [exact G4|by apply Qh].
Qed.
Lemma port_inspect_job i s : inv s -> ok b t (inspect_job answers i) (fun r _ => saw i (r_life r)) s.
Proof. intros I. apply port_outcome; [done|]. intros n r _ E. by exists n, r. Qed.
Lemma port_scancel i s : inv s -> ok b t (noted (scancelled i)) (fun _ s' => i ∈ cl_scancels s') s.
Proof.
  intros I. apply port_note; [done|]. intros s1 G I1. destruct (same_step job_name s1 (scancelled i s1)) as [I2 S2]; [done..|by right|].
  split; [done|split; [done|]]. intros s3 [G3 _ _] _. apply G3. by left.
Qed.
Lemma port_cancel_handle h s :
  inv s -> ok b t (cancel_handle cluster_root config_identity h) (fun _ s' => j_job_id h ∈ cl_scancels s') s.
Proof. intros I. eapply quiet_rule; [done|by apply port_lift|]. intros _ s1 I1 _ _. by apply port_scancel. Qed.
Lemma port_cancel_job i s : inv s -> ok b t (cancel_job i) (fun _ s' => i ∈ cl_scancels s') s.
Proof. intros I. eapply quiet_rule; [done|by apply port_lift|]. intros _ s1 I1 _ _. by apply port_scancel. Qed.

(** The lock only delays. *)
Lemma port_locked store A (p : prog A) P s :
  inv s -> (forall s', inv s' -> rely t s s' -> ok b t p P s') ->
  (forall x, lasting (P x)) -> ok b t (locked t store p) P s.
Proof.
  intros I W L. unfold locked. eapply (bind_rule (fun _ s' => rely t s s')); [done| |].
  - assert (forall s1, inv s1 -> let s2 := s1 <| cl_locks := <[store := t]> (cl_locks s1) |> in inv s2 /\ steady s1 s2) as St.
    { intros s1 I1. by apply (same_step job_name s1). }
    apply wp_suspend; [exact (rely_preorder)|intros s1 G I1; split; (split; [by apply own_of_rely|done])|].
    intros c s1 r s2 G I1 E. destruct (St s1 I1) as [I2 S2].
    assert (r = Threw (match c with C_fail e => e | _ => Cancelled end) /\ s2 = s1
            \/ r = Ans tt /\ s2 = s1 <| cl_locks := <[store := t]> (cl_locks s1) |>) as [[-> ->]|[-> ->]].
    { destruct c; cbn in E; try done; [destruct (cl_locks s1 !! store); [done|]|..]; injection E as <- <-; auto. }
    + split; [split; [done|intros u _; reflexivity]|]. intros s3 G3 I3. split; [apply own_of_rely; by etrans|done].
    + split; [by split; [|intros u _; apply steady_rely]|]. intros s3 G3 I3.
      assert (rely t s s3) as G' by (etrans; [exact G|etrans; [by apply steady_rely|done]]). split; [by apply own_of_rely|done].
  - intros _ s1 I1 _ G1.
    assert (forall s, inv s -> ok b t (noted (unlocked t store)) (fun _ s' => grows s s') s) as Unlock.
    { intros s0 I0. apply port_note; [done|]. intros s2 G2 I2.
      assert (inv (unlocked t store s2) /\ steady s2 (unlocked t store s2)) as [I3 S3].
      { unfold unlocked. case_bool_decide; [by apply (same_step job_name s2)|by split; [|split]]. }
      split; [done|split; [done|]]. intros s3 [G3 _ _] _. destruct G2 as [G2 _ _]. etrans; [exact G2|]. etrans; [by apply steady_grows|done]. }
    eapply port_finally; [done|by apply W|..].
    + intros a s2 I2 _ X. eapply port_weaken; [|by apply Unlock]. intros [] s3 _ _ G3. by eapply L.
    + intros s2 I2 _. eapply port_weaken; [|by apply Unlock]. done.
Qed.

(** ** Records and evidence *)

(** [o] is a true record of [op]. *)
Definition record_for (op : pystr) (o : Operation) (s : Cluster) : Prop := op_id o = op /\ record_true o s.
Lemma record_for_later op o : lasting (record_for op o).
Proof. intros s s' G [E T]. split; [done|by eapply record_true_later]. Qed.
Lemma record_for_cancelled op o c s : record_for op o s -> record_for op (o <| op_cancelled := c |>) s.
Proof. intros [E T]. split; [done|by apply (record_true_same o)]. Qed.
(** A record whose job is not known yet, or is [op]'s. *)
Lemma record_for_handle op o h s :
  record_for op o s -> (known_job h = true -> has_job op (handle_job_id h) s) -> record_for op (o <| op_handle := Some h |>) s.
Proof. intros [<- [J R]] K. split; [done|]. split; [|done]. by intros ? [= <-]. Qed.
Lemma record_for_fresh op d h (c x : bool) s :
  (forall h', h = Some h' -> known_job h' = true -> has_job op (handle_job_id h') s) -> record_for op (mk_Operation op d h c x None) s.
Proof. intros J. split; [done|]. by split. Qed.

Variable store : nat.
Definition loaded (op : pystr) (r : option Operation) (s : Cluster) : Prop := forall o, r = Some o -> record_for op o s.
Lemma port_load op s : inv s -> ok b t (_load store op) (loaded op) s.
Proof.
  intros I. unfold _load. eapply (bind_rule (fun r s' => forall o, r = Some o -> record_true o s')); [done| |].
  - apply port_exec; [done|]. intros s1 r s2 G I1 [= <- <-]. split; [done|split; [intros u; reflexivity|]].
    intros s3 [G3 _ _] _ o E. eapply record_true_later; [done|]. by eapply (v_records _ _ I1).
  - intros [d|] s1 I1 _ T; [|by apply port_ret].
    eapply (bind_rule (fun o s' => record_true o s')); [done| |].
    { apply port_lift. intros o s2 E [G2 _ _] _. apply read_operation_same in E as ->. eapply record_true_later; [done|auto]. }
    intros o s2 I2 _ To. destruct (negb _) eqn:N; [by apply port_raise|]. apply negb_false_iff, pystr_eqb_true in N.
    apply port_ret. intros s3 [G3 _ _] _ o' [= <-]. split; [done|by eapply record_true_later].
Qed.
Lemma port_save o s : inv s -> record_true o s -> ok b t (_save store o) nothing s.
Proof.
  intros I T. apply port_note; [done|]. intros s1 [G1 _ _] I1. destruct (put_record_step job_name store o s1) as [I2 S2]; [done| |done].
  by eapply record_true_later.
Qed.

Definition evidence_for (op : pystr) (ev : Evidence) (s : Cluster) : Prop := evidence_true op ev s.
Lemma evidence_for_later op ev : lasting (evidence_for op ev).
Proof. intros s s' G. by apply evidence_true_later. Qed.
Lemma port_file R op (f : Evidence -> R) (P : R -> Cluster -> Prop) s :
  inv s -> (forall s1 s2, inv s1 -> grows s s1 -> grows s1 s2 -> P (f (evidence_of op s1)) s2) ->
  ok b t (exec (fun s => (f (evidence_of op s), s))) P s.
Proof.
  intros I Hp. apply port_exec; [done|]. intros s1 r s2 [G1 _ _] I1 [= <- <-]. split; [done|split; [intros u; reflexivity|]].
  intros s3 [G3 _ _] _. by apply Hp.
Qed.
Lemma port_inspect_operation op s :
  inv s -> ok b t (inspect_operation op) (fun ev s' => evidence_for op ev s' /\ (marked op s -> ev_cancelled ev = true)) s.
Proof.
  intros I. unfold inspect_operation. eapply quiet_rule; [done|by apply port_lift|]. intros _ s1 I1 G1%own_of_grows _.
  eapply (bind_rule (fun x s' => forall o, x = Some o -> record_true o s')); [done|apply port_file; [done|]|].
  { intros sa sb Ia _ G o E. eapply record_true_later; [done|]. by eapply (et_intent _ _ _ _ (v_remote _ _ Ia op)). }
  intros intent s2 I2 G2%own_of_grows Ti.
  eapply (bind_rule (fun x s' => forall o, x = Some o -> record_true o s')); [done|apply port_file; [done|]|].
  { intros sa sb Ia _ G o E. eapply record_true_later; [done|]. by eapply (et_accepted _ _ _ _ (v_remote _ _ Ia op)). }
  intros accepted s3 I3 G3%own_of_grows Ta.
  eapply (bind_rule (fun x s' => x <> None -> op ∈ cl_refused s')); [done|apply port_file; [done|]|].
  { intros sa sb Ia _ G E. apply G. by eapply (et_rejected _ _ _ _ (v_remote _ _ Ia op)). }
  intros rejected s4 I4 G4%own_of_grows Tr.
  eapply (bind_rule (fun x s' => (x = true -> marked op s') /\ (marked op s -> x = true))); [done|apply port_file; [done|]|].
  { intros sa sb Ia Ga G. split; [by apply (g_marked _ _ G)|]. intros M. apply (g_marked _ _ Ga), (g_marked _ _ G4), (g_marked _ _ G3), (g_marked _ _ G2), (g_marked _ _ G1), M. }
  intros marker s5 I5 G5%own_of_grows [Tm Tm']. apply port_ret. intros s6 [G6 _ _] _. split; [|done]. split; cbn.
  - intros o E. apply (record_true_later _ _ s2); [by etrans; [|etrans; [|etrans]]|auto].
  - intros o E. apply (record_true_later _ _ s3); [by etrans; [|etrans]|auto].
  - intros N. apply G6, G5. auto.
  - intros E. by apply (g_marked _ _ G6), Tm.
Qed.
Lemma from_remote_true op ev r s :
  _from_remote op ev = Ok r -> evidence_for op ev s ->
  forall o, r = Some o -> record_for op o s /\ (ev_cancelled ev = true -> op_cancelled o = true).
Proof.
  unfold _from_remote. intros F [Ti Ta Tr _] o ->. destruct (ev_intent ev) as [d|].
  2: { destruct (ev_cancelled ev); [|done]. destruct (validate_operation _) as [x|] eqn:V; [|done]. apply validate_operation_same in V as ->.
       injection F as <-. split; [by apply record_for_fresh|done]. }
  destruct (read_operation d) as [intent|] eqn:Ei; [|done]. apply read_operation_same in Ei as ->. cbn in F.
  destruct (match ev_accepted ev with Some _ => _ | None => _ end) as [rec|] eqn:Er; [|done]. cbn in F.
  assert (record_true rec s) as Trec.
  { destruct (ev_accepted ev) as [a|]; [|injection Er as <-; by apply Ti]. apply read_operation_same in Er as ->. by apply Ta. }
  apply guard_Ok in F as [_ F]. apply guard_Ok in F as [Id F]. rewrite !orb_false_iff, !negb_false_iff, !pystr_eqb_true in Id.
  destruct Id as [[Id _] _]. injection F as <-. split; [|intros ->; cbn; by rewrite orb_true_r]. split; [done|].
  destruct Trec as [J _]. split; [exact J|]. cbn. rewrite Id. exact Tr.
Qed.
Lemma port_from_remote op ev s :
  evidence_for op ev s -> ok b t (lift (_from_remote op ev)) (fun r s' => loaded op r s'
    /\ (forall o, r = Some o -> ev_cancelled ev = true -> op_cancelled o = true)) s.
Proof.
  intros Ev. apply port_lift. intros r s1 E [G1 _ _] _. split; intros o Eo.
  - eapply from_remote_true; [done|by eapply evidence_for_later|done].
  - by eapply from_remote_true.
Qed.

Lemma port_record_acceptance o s : inv s -> record_true o s -> ok b t (record_operation_acceptance o) nothing s.
Proof.
  intros I T. eapply quiet_rule; [done|by apply port_lift|]. intros _ s1 I1 G1%own_of_grows _.
  eapply quiet_rule; [done|by apply port_unseen|]. intros _ s2 I2 G2%own_of_grows _. apply port_note; [done|].
  intros s3 [G3 _ _] I3. assert (record_true o s3) as T3 by (apply (record_true_later _ _ s); [by etrans; [|etrans]|done]).
  enough (inv (accept_as o s3) /\ steady s3 (accept_as o s3)) as [? ?] by done. unfold accept_as.
  destruct (ev_accepted (evidence_of (op_id o) s3)) eqn:E; [by split; [|split]|].
  pose proof (v_remote _ _ I3 (op_id o)) as [Ei Ea Er Em].
  apply put_evidence_step; [done|done| |exact Er|done]. cbn. intros o' [= <-]. by right.
Qed.
Lemma port_record_rejection op reason s : inv s -> op ∈ cl_refused s -> ok b t (record_operation_rejection op reason) nothing s.
Proof.
  intros I T. eapply quiet_rule; [done|by apply port_lift|]. intros _ s1 I1 G1%own_of_grows _.
  eapply quiet_rule; [done|by apply port_unseen|]. intros _ s2 I2 G2%own_of_grows _. apply port_note; [done|].
  intros s3 [G3 _ _] I3. enough (inv (put_evidence op ((evidence_of op s3) <| ev_rejected := Some reason |>) s3)
    /\ steady s3 (put_evidence op ((evidence_of op s3) <| ev_rejected := Some reason |>) s3)) as [? ?] by done.
  apply put_evidence_step; [done|done|by left| |done]. intros _. by apply G3, G2, G1.
Qed.
Lemma port_cancel_operation op s : inv s -> ok b t (cancel_operation op) (fun _ s' => marked op s') s.
Proof.
  intros I. eapply quiet_rule; [done|by apply port_lift|]. intros _ s1 I1 _ _.
  eapply quiet_rule; [done|by apply port_unseen|]. intros _ s2 I2 _ _.
  eapply quiet_rule; [done|by apply port_unseen|]. intros _ s3 I3 _ _.
  eapply (bind_rule (fun _ s' => marked op s')); [done| |].
  - apply port_note; [done|]. intros s4 G4 I4.
    destruct (put_evidence_step job_name op ((evidence_of op s4) <| ev_cancelled := true |>) s4) as [I5 S5];
      [done|done|by left|apply (v_remote _ _ I4)|done|].
    split; [done|split; [done|]]. intros s5 [G5 _ _] _. apply (g_marked _ _ G5). unfold marked. rewrite evidence_of_put. by rewrite decide_True.
  - intros _ s4 I4 _ M. eapply port_weaken; [|by apply port_unseen]. intros _ s5 _ G5%own_of_grows _. by apply (g_marked _ _ G5).
Qed.

(** ** Reconciling *)

Lemma port_remote_evidence op o i ev s :
  inv s -> op_id o = op -> (forall e, ev = Some e -> evidence_for op e s) ->
  ok b t (_remote_evidence o i ev) (fun r s' => forall e, r = Some e -> evidence_for op e s') s.
Proof.
  intros I <- Ev. unfold _remote_evidence. destruct ev as [e|].
  { apply port_ret. intros s1 [G1 _ _] _ e' [= <-]. eapply evidence_for_later; [done|auto]. }
  destruct (op_cancelled o && _); [by apply port_ret|]. apply port_except; [done| |].
  - eapply bind_any; [done|by apply port_inspect_operation|]. cbn beta. intros e s1 I1 _ [Te _]. apply port_ret.
    intros s2 [G2 _ _] _ e' [= <-]. by eapply evidence_for_later.
  - intros e s1 I1 _. destruct (pystr_eqb _ _); [by apply port_raise|by apply port_ret].
Qed.

(** A true record of [op] with its handle, cancelled if [c]. *)
Definition holding (op : pystr) (c : bool) (x : Operation * ClusterHandle) (s : Cluster) : Prop :=
  record_for op (fst x) s /\ op_handle (fst x) = Some (snd x) /\ (c = true -> op_cancelled (fst x) = true).
Lemma holding_later op c x : lasting (holding op c x).
Proof. intros s s' G [R E]. split; [by eapply record_for_later|done]. Qed.
Lemma holding_job op c x s : holding op c x s -> known_job (snd x) = true -> has_job op (handle_job_id (snd x)) s.
Proof. intros ([<- [J _]] & E & _) K. by apply J. Qed.

Lemma port_refreshed op o h remote original s :
  inv s -> holding op (op_cancelled o) (o, h) s -> loaded op original s ->
  ok b t (refreshed cluster_root config_identity store o h remote original) (holding op (op_cancelled o)) s.
Proof.
  intros I Ho Or. unfold refreshed. eapply (bind_rule (holding op (op_cancelled o))); [done| |].
  - assert (ok b t (Ret (o, h)) (holding op (op_cancelled o)) s) as Keep.
    { apply port_ret. intros s1 [G1 _ _] _. by eapply holding_later. }
    destruct original as [o'|]; [|done]. destruct (op_handle o') as [h'|] eqn:Eh; [|done].
    destruct (_ && _); [|done]. specialize (Or _ eq_refl).
    eapply quiet_rule; [done|by apply port_lift|]. intros _ s1 I1 G1%own_of_grows _.
    pose proof (record_for_cancelled op o' (op_cancelled o || op_cancelled o') _ (record_for_later _ _ _ _ G1 Or)) as R1.
    eapply quiet_rule; [done|apply port_save; [done|apply R1]|]. intros _ s2 I2 G2%own_of_grows _. apply port_ret. intros s3 [G3 _ _] _.
    split; [|split; [exact Eh|cbn; by intros ->]]. eapply record_for_later; [exact G3|]. by eapply record_for_later.
  - intros [o1 h1] s1 I1 _ H1. destruct (_ && _) eqn:C.
    + destruct H1 as (R1 & E1 & _). apply (record_for_cancelled _ _ true) in R1.
      eapply quiet_rule; [done|apply port_save; [done|apply R1]|]. intros _ s2 I2 G2%own_of_grows _. apply port_ret. intros s3 [G3 _ _] _.
      split; [|done]. eapply record_for_later; [exact G3|]. by eapply record_for_later.
    + apply port_ret. intros s2 [G2 _ _] _. by eapply holding_later.
Qed.
Lemma port_resolved op c o h s :
  inv s -> holding op c (o, h) s ->
  ok b t (resolved job_name listing store o h) (fun r s' => forall x, r = Some x -> holding op c x s' /\ has_job op (handle_job_id (snd x)) s') s.
Proof.
  intros I Ho. unfold resolved. destruct (known_job h) eqn:K.
  { apply port_ret. intros s1 [G1 _ _] _ x [= <-]. apply (holding_later _ _ _ _ _ G1) in Ho. split; [done|by eapply holding_job]. }
  pose proof (proj1 (proj1 Ho)) as Eo. cbn in Eo. rewrite Eo. eapply bind_any; [done|by apply port_find_operation|]. cbn beta.
  intros [i|] s1 I1 G1%own_of_grows J; [|by apply port_ret]. specialize (J _ eq_refl).
  assert (holding op c (o <| op_handle := Some (replace_job_id h i) |>, replace_job_id h i) s1) as H1.
  { destruct (holding_later _ _ _ _ _ G1 Ho) as (R & _ & C). split; [|done]. apply record_for_handle; [done|]. by rewrite handle_job_id_replaced. }
  eapply quiet_rule; [done|apply port_save; [done|apply H1]|]. intros _ s2 I2 G2%own_of_grows _.
  apply (holding_later _ _ _ _ _ G2) in H1. eapply quiet_rule; [done|apply port_record_acceptance; [done|apply H1]|].
  intros _ s3 I3 G3%own_of_grows _. apply port_ret. intros s4 [G4 _ _] _ x [= <-]. cbn. rewrite handle_job_id_replaced.
  split; [eapply holding_later; [exact G4|]; by eapply holding_later|]. eapply has_job_later; [|exact J].
  etrans; [exact G2|]. by etrans.
Qed.

(** What an observation of [op]'s job says; the job of a cancelled operation is stopped. *)
Definition observation_true (op : pystr) (c : bool) (o : ClusterObservation) (s : Cluster) : Prop :=
  read_true o /\ job_true op o s /\ (c = true -> stopped (o_job_id o) s).
Lemma observation_true_later op c o : lasting (observation_true op c o).
Proof. intros s s' G (R & J & C). split; [done|split; [by eapply job_true_later|]]. intros E. eapply stopped_later; [done|auto]. Qed.

Definition reconciled (op : pystr) (c : bool) (r : option ClusterInspectOutcome + ClusterHandle * SchedulerReading) (s : Cluster) : Prop :=
  match r with
  | inl r => forall o, r <> Some (Observed o)
  | inr (h, reading) => has_job op (handle_job_id h) s /\ saw (handle_job_id h) (r_life reading)
                        /\ (c = true -> stopped (handle_job_id h) s)
  end.
Lemma port_reconcile_job op o h ev s :
  inv s -> holding op (op_cancelled o) (o, h) s -> (forall e, ev = Some e -> evidence_for op e s) ->
  ok b t (reconcile_job cluster_root config_identity job_name listing answers store o h ev) (reconciled op (op_cancelled o)) s.
Proof.
  intros I Ho Ev. unfold reconcile_job. pose proof (proj1 (proj1 Ho)) as Eo. cbn in Eo. rewrite Eo.
  eapply quiet_rule; [done|by apply port_lift|]. intros _ s1 I1 G1%own_of_grows _. apply (holding_later _ _ _ _ _ G1) in Ho.
  eapply bind_any; [done|apply (port_remote_evidence op); [done..|]; intros e E; eapply evidence_for_later; [done|auto]|].
  cbn beta. intros remote s2 I2 G2%own_of_grows Er. apply (holding_later _ _ _ _ _ G2) in Ho.
  eapply (bind_rule (loaded op)); [done| |].
  { destruct remote as [e|]; [|apply port_lift; intros x s3 [= <-]; by intros _ _ o']. eapply port_weaken; [|apply port_from_remote; by apply Er].
    by intros r s3 _ _ []. }
  intros original s3 I3 G3%own_of_grows Or. apply (holding_later _ _ _ _ _ G3) in Ho.
  destruct (digests_conflict _ _); [by apply port_ret|].
  eapply bind_any; [done|by apply port_refreshed|]. intros [o1 h1] s4 I4 G4%own_of_grows H1.
  eapply bind_any; [done|by apply port_resolved|]. cbn beta. intros [[o2 h2]|] s5 I5 G5%own_of_grows H2; [|by apply port_ret].
  destruct (H2 _ eq_refl) as [Ho2 J2]. cbn in J2.
  eapply bind_any; [done|by apply port_inspect_job|]. cbn beta. intros reading s6 I6 G6%own_of_grows Sw.
  eapply (bind_rule (fun _ s' => op_cancelled o = true -> stopped (handle_job_id h2) s')); [done| |].
  - destruct (op_cancelled o2 && _is_live reading) eqn:Live.
    + eapply port_weaken; [|by apply port_cancel_handle]. intros [] s7 _ _ In _. by left.
    + apply port_ret. intros s7 _ _ C. right. exists (r_life reading). split; [done|].
      destruct Ho2 as (_ & _ & C2). cbn in C2. rewrite (C2 C) in Live. cbn in Live. unfold _is_live in Live. by apply bool_decide_eq_false in Live.
  - intros _ s7 I7 G7%own_of_grows St. apply port_ret. intros s8 [G8 _ _] _. split; [|split; [done|]].
    + eapply has_job_later; [|exact J2]. by etrans; [|etrans].
    + intros C. eapply stopped_later; [done|auto].
Qed.

Lemma observation_Observed i reading h o :
  _observation i reading h = Observed o ->
  o_job_id o = i /\ o_life o = r_life reading /\ o_handle o = h /\ is_unknown (r_life reading) = false.
Proof.
  unfold _observation. destruct (r_life reading) as [| | | |] eqn:L; cbn; try done;
    repeat case_match; try done; intros [= <-]; cbn; rewrite ?L; done.
Qed.
Lemma port_with_progress observed reading h (P : ClusterObservation -> Cluster -> Prop) s :
  inv s -> (forall o, lasting (P o)) -> (forall o n, observed = Observed o ->
    P (mk_ClusterObservation (o_job_id o) (o_life o) (o_pending_reason o) (o_estimated_start o) (o_handle o) n) s) ->
  ok b t (_with_progress progress observed reading h) (fun r s' => forall o, r = Observed o -> P o s') s.
Proof.
  intros I L Hp.
  assert (ok b t (Ret observed) (fun r s' => forall o, r = Observed o -> P o s') s) as Keep.
  { apply port_ret. intros s1 [G1 _ _] _ o E. eapply L; [exact G1|]. specialize (Hp o (o_completed_stages o) E). by destruct o. }
  unfold _with_progress. destruct observed as [o|]; [|done]. destruct h as [|h]; [done|]. destruct (_ && _); [|done].
  eapply (bind_rule (fun _ s' => grows s s')); [done| |].
  - apply port_except; [done| |intros e s1 I1 G1%own_of_grows; apply port_ret; intros s2 [G2 _ _] _; by etrans].
    eapply (bind_rule (fun _ s' => grows s s')); [done| |intros n s1 I1 _ G1; apply port_ret; intros s2 [G2 _ _] _; by etrans].
    eapply (bind_rule nothing); [done|by apply port_whole_reading|]. intros text s1 I1 G1%own_of_grows _.
    destruct (int_of_text text); [|by apply port_raise]. apply port_ret. intros s2 [G2 _ _] _. by etrans.
  - intros n s1 I1 _ G1. apply port_ret. intros s2 [G2 _ _] _ o' [= <-]. eapply L; [|by apply Hp]. by etrans.
Qed.

Abbreviation reconcile_record := (_reconcile_record cluster_root config_identity job_name listing answers progress store).
Abbreviation reconcile := (_reconcile cluster_root config_identity job_name listing answers progress store).
Lemma port_reconcile_record op o ev s :
  inv s -> record_for op o s -> (forall e, ev = Some e -> evidence_for op e s) ->
  ok b t (reconcile_record o ev)
    (fun r s' => forall x, r = Some (Observed x) -> observation_true op (op_cancelled o) x s') s.
Proof.
  intros I R Ev. unfold _reconcile_record. destruct (op_handle o) as [h|] eqn:Eh; [|by apply port_ret].
  destruct (negb _); [by apply port_ret|]. eapply (bind_rule (reconciled op (op_cancelled o))); [done| |].
  - apply port_except; [done|by apply port_reconcile_job|]. intros e s1 I1 _. by apply port_ret.
  - intros [r|[h1 reading]] s1 I1 G1%own_of_grows X; cbn in X.
    { apply port_ret. intros s2 _ _ x ->. by destruct (X x). }
    destruct X as (J & Sw & St).
    eapply (bind_rule (fun r s' => forall x, r = Observed x -> observation_true op (op_cancelled o) x s')); [done| |].
    + apply port_with_progress; [done|apply observation_true_later|]. intros x n (Ei & El & Ehd & Un)%observation_Observed.
      unfold observation_true, read_true, job_true. cbn. rewrite Ei, El, Ehd. split; [done|split; [split; [done|by exists h1]|done]].
    + intros r s2 I2 _ Y. apply port_ret. intros s3 [G3 _ _] _ x [= ->]. eapply observation_true_later; [done|auto].
Qed.
Lemma port_reconcile op o ev s :
  inv s -> record_for op o s -> (forall e, ev = Some e -> evidence_for op e s) ->
  ok b t (reconcile o ev) (fun r s' => forall x, r = Observed x -> observation_true op (op_cancelled o) x s') s.
Proof.
  intros I R Ev. eapply bind_any; [done|by apply port_reconcile_record|]. cbn beta. intros r s1 I1 _ X. apply port_ret.
  intros s2 [G2 _ _] _ x E. destruct r as [r|]; [|done]. subst r. eapply observation_true_later; [done|auto].
Qed.
End Steps.
End Triples.
