(* ===== verification/ClusterCalls.v ===== *)
(** The calls of the cluster port as a whole: a submission reaches the scheduler only for the process that
    published the intent, and every answer is as [ClusterTriples.said] says. *)
From S2P Require Import Prelude Plan Floats Coroutines Processes SlurmStates SlurmTypes ClusterPort ClusterLogic ClusterTriples.
Open Scope coro_scope.

(** ** Errors that are no rejection *)

(** What the model of a validator raises is not a rejection of the submission. *)
Definition plain {A} (m : result A) : Prop := forall e, m = Err e -> is_rejection (exc_of e) = false.
Lemma plain_Ok A (x : A) : plain (Ok x).
Proof. done. Qed.
Lemma plain_Err A e : is_rejection (exc_of e) = false -> plain (Err e : result A).
Proof. by intros P e' [= <-]. Qed.
Lemma plain_bind A B (m : result A) (k : A -> result B) : plain m -> (forall x, plain (k x)) -> plain (bind m k).
Proof. intros Pm Pk e. destruct m as [x|e']; cbn; [apply Pk|intros [= ->]; by apply Pm]. Qed.
Lemma plain_guard A (c : bool) e (k : result A) : is_rejection (exc_of e) = false -> plain k -> plain (if c then Err e else k).
Proof. destruct c; [intros; by apply plain_Err|done]. Qed.
Lemma plain_validated A (m : result A) : plain m -> plain (validated m).
Proof. intros P e. unfold validated. destruct m as [x|e']; [done|]. destruct (is_value_error e'); intros [= <-]; [done|by apply P]. Qed.
Lemma plain_for_all A (f : A -> result unit) l : (forall x, plain (f x)) -> plain (for_all f l).
Proof. intros P. induction l as [|x l IH]; cbn; [done|]. by apply plain_bind. Qed.
Lemma plain_mapM A B (f : A -> result B) l : (forall x, plain (f x)) -> plain (mapM_result f l).
Proof. intros P. induction l as [|x l IH]; cbn; [done|]. apply plain_bind; [done|]. intros y. by apply plain_bind. Qed.
Lemma plain_relative_path v e : is_rejection (exc_of e) = false -> plain (_safe_relative_path v e).
Proof. intros P. unfold _safe_relative_path. destruct (_ || _); [by apply plain_Err|done]. Qed.
Lemma plain_remote_path v : plain (_normalized_remote_path v).
Proof. unfold _normalized_remote_path. destruct (_ || _); [by apply plain_Err|done]. Qed.
Ltac plain := repeat first [exact eq_refl | apply plain_Ok | apply plain_validated | apply plain_for_all | apply plain_mapM
  | apply plain_relative_path | apply plain_remote_path | apply plain_guard | apply plain_bind
  | match goal with |- forall _, plain _ => intros ? end].
Lemma plain_job_handle h : plain (validate_job_handle h).
Proof. unfold validate_job_handle. plain. Qed.
Lemma plain_stage_handle h : plain (validate_stage_handle h).
Proof. unfold validate_stage_handle. plain. Qed.
Lemma plain_batch_handle h : plain (validate_batch_handle h).
Proof. unfold validate_batch_handle. plain. Qed.
Lemma plain_stages_ok names stages : plain (stages_ok names stages).
Proof.
  revert names. induction stages as [|g l IH]; intros names; cbn [stages_ok]; [done|]. unfold stage_ok, artifact_path_ok. plain. apply IH.
Qed.
Lemma plain_batch_stages is_dir request : plain (batch_stage_handles is_dir request).
Proof.
  unfold batch_stage_handles, _validate_batch_request, request_ok, support_ok. plain.
  - apply plain_stages_ok.
  - destruct x0. plain.
Qed.

Section Calls.
Context `{OperationCodecLaws}.
Variable cluster_root : PosixPath.
Variable config_identity : pystr.
Variable job_name : pystr -> pystr.
Variable is_dir : nat -> pystr -> bool.
Variable clock : nat -> float.
Variable cancel_is_set : nat -> bool.
Variable content_digest : nat -> SlurmBatchRequest -> result pystr.
Variable staged : nat -> SlurmBatchRequest -> result Z.
Variable sbatch : nat -> pystr * pystr.
Variable listing : nat -> pystr -> list SchedulerJob -> pystr.
Variable answers : nat -> list (result pystr).
Variable progress : nat -> pystr.
Variable collected : nat -> ClusterHandle -> SlurmJobStatus -> result ClusterResult.
Context `{!SbatchLaw sbatch} `{!ListingLaw listing}.

Abbreviation owed := (ClusterTriples.owed job_name answers).
Abbreviation inv := (ClusterLogic.inv job_name).
Abbreviation ok := (ClusterLogic.ok job_name owed).
Abbreviation raising := (ClusterLogic.raising job_name owed).
Abbreviation evidence_for := (ClusterTriples.evidence_for job_name).
Abbreviation record_for := (ClusterTriples.record_for job_name).
Abbreviation loaded := (ClusterTriples.loaded job_name).
Abbreviation has_job := (ClusterLogic.has_job job_name).
Abbreviation observation_true := (ClusterTriples.observation_true job_name answers).
Abbreviation bind_rule P := (port_bind _ _ _ _ _ _ _ _ P _ _).
Abbreviation bind_any := (port_bind _ _ _ _ _ _ _ _ _ _ _).
Abbreviation quiet_rule := (port_bind _ _ _ _ _ _ _ _ nothing _ _).

(** ** Finding a record *)

Section Records.
Variable b : bool.
Variable t store : nat.
Abbreviation reconcile_record := (_reconcile_record cluster_root config_identity job_name listing answers progress store).
Abbreviation reconcile := (_reconcile cluster_root config_identity job_name listing answers progress store).

Definition evidence_if (op : pystr) (e : option Evidence) (s : Cluster) : Prop := forall ev, e = Some ev -> evidence_for op ev s.
Lemma evidence_if_later op e : lasting (evidence_if op e).
Proof. intros s s' G E ev Ee. eapply evidence_for_later; [done|by apply E]. Qed.
Lemma loaded_later op r : lasting (loaded op r).
Proof. intros s s' G L o E. eapply record_for_later; [done|by apply L]. Qed.
Lemma loaded_job op r i s : loaded op r s -> record_job_id r = Some i -> i <> no_job -> has_job op i s.
Proof.
  intros L E N. destruct r as [o|]; [|done]. cbn in E. destruct (L _ eq_refl) as [<- [J _]].
  destruct (op_handle o) as [h|] eqn:Eh; [|done]. injection E as <-. apply J; [done|]. by apply known_job_true.
Qed.

Lemma port_handle_record target s :
  inv s -> let op := j_invocation_id (job_handle target) in
  ok b t (_handle_record cluster_root config_identity job_name listing store target)
    (fun x s' => record_for op (fst x) s' /\ evidence_if op (snd x) s') s.
Proof.
  intros I op. unfold _handle_record. fold op. eapply quiet_rule; [done|by apply port_lift|]. intros _ s1 I1 _ _.
  eapply bind_any; [done|by apply port_load|]. intros local s2 I2 _ Lo.
  eapply (bind_rule (fun x s' => loaded op (fst x) s' /\ evidence_if op (snd x) s')); [done| |].
  - destruct (unresolved _).
    2: { apply port_ret. intros s3 [G3 _ _] _. split; [by eapply loaded_later|by intros ev]. }
    eapply bind_any; [done|by apply port_inspect_operation|]. cbn beta. intros ev s3 I3 G3%own_of_grows [Te _].
    apply (loaded_later _ _ _ _ G3) in Lo.
    eapply bind_any; [done|by apply port_from_remote|]. cbn beta. intros remote s4 I4 G4%own_of_grows [Lr _].
    apply port_ret. intros s5 [G5 _ _] _. split; [|intros ? [= <-]; eapply evidence_for_later; [|exact Te]; by etrans].
    apply (loaded_later _ _ _ _ G5) in Lr. destruct remote as [o|]; [|cbn; eapply loaded_later; [|exact Lo]; by etrans].
    intros o' [= <-]. apply record_for_cancelled. by apply Lr.
  - intros [record e] s3 I3 _ [Lr Ev]. cbn in Lr, Ev.
    eapply (bind_rule (fun i s' => forall j, i = Some j -> has_job op j s')); [done| |].
    { destruct (unresolved (record_job_id record)) eqn:Un; [by eapply port_find_operation|]. apply port_ret. intros s4 [G4 _ _] _ j Ej.
      eapply has_job_later; [exact G4|]. eapply loaded_job; [done|exact Ej|]. intros ->. rewrite Ej in Un. by vm_compute in Un. }
    intros i s4 I4 G4%own_of_grows J. case_bool_decide as Ei; [by apply port_raise|]. specialize (J _ Ei).
    eapply (bind_rule (record_for op)); [done| |].
    { destruct record as [o|].
      - apply port_ret. intros s5 [G5 _ _] _. eapply record_for_later; [|by apply Lr]. by etrans.
      - apply port_lift. intros o s5 V [G5 _ _] _. apply validate_operation_same in V as ->. apply record_for_fresh.
        intros h [= <-] _. by eapply has_job_later. }
    intros o s5 I5 G5%own_of_grows Ro. destruct (op_handle o) as [h|] eqn:Eh; [|by apply port_raise].
    set (o' := if known_job h then o else _).
    assert (record_for op o' s5) as Ro'.
    { subst o'. destruct (known_job h); [done|]. apply record_for_handle; [done|]. rewrite handle_job_id_replaced.
      intros _. by eapply has_job_later. }
    eapply quiet_rule; [done| |].
    { destruct (match local with Some _ => _ | None => _ end); [by apply port_ret|]. apply port_save; [done|]. apply Ro'. }
    intros _ s6 I6 G6%own_of_grows _. apply port_ret. intros s7 [G7 _ _] _. split; [eapply record_for_later; [|exact Ro']; by etrans|].
    eapply evidence_if_later; [|exact Ev]. etrans; [exact G4|]. etrans; [exact G5|]. by etrans.
Qed.

(** What [_record] finds for a target. *)
Definition found (target : Target) (by_job_id : bool) (x : option Operation * option Evidence) (s : Cluster) : Prop :=
  forall o, fst x = Some o -> record_for (op_id o) o s /\ evidence_if (op_id o) (snd x) s
    /\ forall op, target_operation target by_job_id = Some op -> op_id o = op.
Lemma found_for target by_job op o e s :
  record_for op o s -> evidence_if op e s -> (forall op', target_operation target by_job = Some op' -> op = op') ->
  found target by_job (Some o, e) s.
Proof. intros [<- T] E Ho o' [= <-]. split; [by split|split; done]. Qed.
Lemma port_record target by_job s :
  inv s -> ok b t (_record cluster_root config_identity job_name listing store target by_job) (found target by_job) s.
Proof.
  intros I. destruct target as [name|h]; cbn [_record].
  2: { eapply bind_any; [done|by apply port_handle_record|]. cbn beta. intros [o e] s1 I1 _ [R E]. apply port_ret. intros s2 [G2 _ _] _.
       eapply found_for; [by eapply record_for_later|by eapply evidence_if_later|]. by intros op' [= <-]. }
  destruct by_job; cbn [negb].
  - eapply (bind_rule (fun l s' => forall o, o ∈ l -> ClusterLogic.record_true job_name o s')); [done| |].
    { apply port_exec; [done|]. intros s1 r s2 G I1 [= <- <-]. split; [done|split; [intros u; reflexivity|]].
      intros s3 [G3 _ _] _ o ([name' o'] & -> & In)%list_elem_of_fmap. rewrite sort_by_perm in In. apply elem_of_map_to_list in In.
      eapply record_true_later; [done|]. by eapply (v_records _ _ I1). }
    intros l s1 I1 _ Tl. eapply (bind_rule (fun r s' => forall o, r = Some o -> ClusterLogic.record_true job_name o s')); [done| |].
    { apply port_lift. intros r s2 E [G2 _ _] _ o ->. eapply record_true_later; [done|]. clear -E Tl H0. revert E. induction l as [|d l IH]; cbn; [done|].
      destruct (read_operation d) as [x|] eqn:Er; [|done]. apply read_operation_same in Er as ->. cbn. case_bool_decide; [intros [= ->]; apply Tl; by left|].
      apply IH. intros o' In. apply Tl. by right. }
    intros r s2 I2 _ Tr. apply port_ret. intros s3 [G3 _ _] _ o E. cbn in E. subst r. split; [split; [done|]|split; [by intros ev|done]].
    eapply record_true_later; [done|by apply Tr].
  - eapply quiet_rule; [done|by apply port_lift|]. intros _ s1 I1 _ _.
    eapply bind_any; [done|by apply port_load|]. intros [o|] s2 I2 _ Lo.
    { apply port_ret. intros s3 [G3 _ _] _. eapply (found_for _ _ name); [eapply record_for_later; [done|by apply Lo]|by intros ev|]. by intros op' [= <-]. }
    eapply bind_any; [done|by apply port_inspect_operation|]. cbn beta. intros ev s3 I3 _ [Te _].
    eapply bind_any; [done|by apply port_from_remote|]. cbn beta. intros remote s4 I4 G4%own_of_grows [Lr _].
    eapply quiet_rule; [done| |].
    { destruct remote as [o|]; [|by apply port_ret]. apply port_save; [done|]. by apply Lr. }
    intros _ s5 I5 G5%own_of_grows _. apply port_ret. intros s6 [G6 _ _] _. destruct remote as [o|]; [|done].
    eapply (found_for _ _ name); [eapply record_for_later; [|by apply Lr]; by etrans| |by intros op' [= <-]].
    intros ? [= <-]. eapply evidence_for_later; [|exact Te]. etrans; [exact G4|]. by etrans.
Qed.

(** ** Inspecting and cancelling *)

Definition inspect_true (target : Target) (by_job_id : bool) (r : ClusterInspectOutcome) (s : Cluster) : Prop :=
  forall o, r = Observed o -> read_true answers o
    /\ forall op, target_operation target by_job_id = Some op -> job_true job_name op o s.
Lemma inspect_true_later target by_job r : lasting (inspect_true target by_job r).
Proof. intros s s' G Hr o E. destruct (Hr o E) as [? J]. split; [done|]. intros op Eo. eapply job_true_later; [done|auto]. Qed.
Lemma port_inspect target by_job s :
  inv s ->
  ok b t (inspect cluster_root config_identity job_name listing answers progress t store target by_job) (inspect_true target by_job) s.
Proof.
  intros I. apply port_except; [done| |intros e s1 I1 _; by apply port_ret].
  apply port_locked; [done| |apply inspect_true_later]. intros s1 I1 _.
  eapply bind_any; [done|by apply port_record|]. intros [[o|] e] s2 I2 _ F.
  - destruct (F _ eq_refl) as (R & E & Ho). eapply port_weaken; [|by apply port_reconcile].
    cbn beta. intros r s3 _ _ X x Ex. destruct (X x Ex) as (Rd & J & _). split; [done|]. intros op Eo. by rewrite <- (Ho _ Eo).
  - destruct target as [name|h]; [|by apply port_ret]. destruct by_job; [|by apply port_ret].
    apply port_except; [done| |intros ex s3 I3 _; by apply port_ret].
    eapply bind_any; [done|by apply port_inspect_job|]. cbn beta. intros reading s3 I3 _ Sw. apply port_ret. intros s4 _ _ o Eo.
    apply observation_Observed in Eo as (-> & -> & _ & Un) || (apply observation_Observed in Eo as (Ei & El & _ & Un)).
    split; [|done]. split; [by rewrite Ei, El|by rewrite El].
Qed.

Definition cancel_true (target : Target) (by_job_id : bool) (r : ClusterCancelOutcome) (s : Cluster) : Prop :=
  forall i, r = CancelRequested i ->
    (forall op, target_operation target by_job_id = Some op -> marked op s) /\ forall j, i = Some j -> stopped answers j s.
Lemma cancel_true_later target by_job r : lasting (cancel_true target by_job r).
Proof.
  intros s s' G Hr i E. destruct (Hr i E) as [M St]. split; [intros op Eo; apply (g_marked _ _ G); by apply M|].
  intros j Ej. eapply stopped_later; [done|by apply St].
Qed.
Lemma port_cancel_job_by_id i s : inv s -> ok b t (_cancel_job answers i) (cancel_true (T_id i) true) s.
Proof.
  intros I. eapply bind_any; [done|by apply port_inspect_job|]. cbn beta. intros reading s1 I1 _ Sw.
  cbv zeta. case_bool_decide as Un; [by apply port_ret|]. eapply (bind_rule (fun _ s' => stopped answers i s')); [done| |].
  - destruct (s_active _) eqn:Ac.
    + eapply port_weaken; [|by apply port_cancel_job]. intros [] s2 _ _ In. by left.
    + apply port_ret. intros s2 _ _. right. exists (r_life reading). split; [done|]. intros In. destruct (r_life reading) as [[]| | | |]; cbn in *;
        try done; repeat (apply elem_of_cons in In as [?|In]; [done|]); by apply elem_of_nil in In.
  - intros _ s2 I2 _ St. apply port_ret. intros s3 [G3 _ _] _ j [= <-]. split; [done|]. intros ? [= <-]. by eapply stopped_later.
Qed.
Lemma port_cancel target by_job s :
  inv s ->
  ok b t (cancel cluster_root config_identity job_name listing answers progress t store target by_job) (cancel_true target by_job) s.
Proof.
  intros I. apply port_except; [done| |intros e s1 I1 _; by apply port_ret].
  apply port_locked; [done| |apply cancel_true_later]. intros s1 I1 _.
  eapply bind_any; [done|by apply port_record|]. intros [[o|] e] s2 I2 _ F.
  - destruct (F _ eq_refl) as (R & E & Ho). apply (record_for_cancelled _ _ _ true) in R.
    eapply quiet_rule; [done|apply port_save; [done|apply R]|]. intros _ s3 I3 G3%own_of_grows _.
    apply (record_for_later _ _ _ _ _ G3) in R. apply (evidence_if_later _ _ _ _ G3) in E.
    destruct (negb _).
    + eapply bind_any; [done|by apply port_cancel_operation|]. cbn beta. intros _ s4 I4 _ M. apply port_ret. intros s5 [G5 _ _] _ i [= <-].
      split; [|done]. intros op Eo. rewrite <- (Ho _ Eo). by apply (g_marked _ _ G5).
    + eapply (bind_rule (fun r s' => marked (op_id o) s' /\ forall x, r = Some (Observed x) -> stopped answers (o_job_id x) s')); [done| |].
      * eapply port_finally; [done|by apply port_reconcile_record|..].
        -- cbn beta. intros r s4 I4 _ X. eapply port_weaken; [|by apply port_cancel_operation]. intros [] s5 _ G5%own_of_grows M.
           split; [done|]. intros x Ex. eapply stopped_later; [done|]. by apply (X x Ex).
        -- intros s4 I4 _. eapply port_weaken; [|by apply port_cancel_operation]. done.
      * intros r s4 I4 _ [M St]. apply port_ret. intros s5 [G5 _ _] _ i Ei.
        split; [intros op Eo; rewrite <- (Ho _ Eo); by apply (g_marked _ _ G5)|]. intros j ->. eapply stopped_later; [done|].
        destruct r as [[x|]|]; try done. injection Ei as <-. by apply St.
  - destruct target as [name|h]; [|by apply port_ret]. destruct by_job; [by apply port_cancel_job_by_id|].
    eapply quiet_rule; [done|by apply port_lift|]. intros _ s3 I3 _ _.
    eapply (bind_rule (fun o s' => record_for name o s')); [done| |].
    { apply port_lift. intros o s4 V _ _. apply validate_operation_same in V as ->. by apply record_for_fresh. }
    intros o s4 I4 _ R. eapply quiet_rule; [done|apply port_save; [done|apply R]|]. intros _ s5 I5 _ _.
    eapply bind_any; [done|by apply port_cancel_operation|]. cbn beta. intros _ s6 I6 _ M. apply port_ret. intros s7 [G7 _ _] _ i [= <-].
    split; [|done]. intros op [= <-]. by apply (g_marked _ _ G7).
Qed.

(** ** An operation that exists *)

Definition submit_true (op : pystr) (r : ClusterSubmitOutcome) (s : Cluster) : Prop :=
  forall op' h, r = ClusterSubmitted op' h -> op' = op /\ has_job op (handle_job_id h) s.
Lemma submit_true_later op r : lasting (submit_true op r).
Proof. intros s s' G Hr op' h E. destruct (Hr _ _ E). split; [done|by eapply has_job_later]. Qed.
Lemma submit_true_job op h s : has_job op (handle_job_id h) s -> submit_true op (ClusterSubmitted op h) s.
Proof. by intros J ? ? [= <- <-]. Qed.
Abbreviation existing_confirmed := (_existing_confirmed cluster_root config_identity job_name listing answers progress store).
Abbreviation existing := (_existing cluster_root config_identity job_name listing answers progress store).

Lemma port_recover_submission op o s :
  inv s -> record_for op o s ->
  ok b t (_recover_submission cluster_root config_identity job_name listing answers progress store o) (submit_true op) s.
Proof.
  intros I R. eapply bind_any; [done|by apply port_reconcile|]. cbn beta. intros r s1 I1 _ X. apply port_ret. intros s2 [G2 _ _] _.
  destruct R as [Eo _]. unfold as_submit. destruct r as [x|]; [|done]. destruct (o_handle x) as [h|] eqn:Eh; [|done].
  intros op' h' [= <- <-]. split; [done|]. destruct (X x eq_refl) as (_ & (J & h0 & E0 & Ei) & _).
  rewrite Eh in E0. injection E0 as <-. rewrite Ei. by eapply has_job_later.
Qed.
Lemma port_with_remote_cancel op o i s : inv s -> record_for op o s -> ok b t (_with_remote_cancel store o i) (fun o' s' => record_for op o' s') s.
Proof.
  intros I R. unfold _with_remote_cancel.
  destruct (op_cancelled o); [apply port_ret; intros s1 [G1 _ _] _; by eapply record_for_later|].
  eapply bind_any; [done|by apply (port_remote_evidence job_name answers b t op); [done|apply R|]|]. cbn beta. intros ev s1 I1 G1%own_of_grows _.
  apply (record_for_later _ _ _ _ _ G1) in R. destruct (match ev with Some _ => _ | None => _ end).
  - apply (record_for_cancelled _ _ _ true) in R. eapply quiet_rule; [done|apply port_save; [done|apply R]|].
    intros _ s2 I2 G2%own_of_grows _. apply port_ret. intros s3 [G3 _ _] _. eapply record_for_later; [|exact R]. by etrans.
  - apply port_ret. intros s2 [G2 _ _] _. by eapply record_for_later.
Qed.
Lemma port_existing_confirmed op o digest s : inv s -> record_for op o s -> ok b t (existing_confirmed o digest) (submit_true op) s.
Proof.
  intros I R. unfold _existing_confirmed. destruct (match op_digest o with Some _ => _ | None => _ end); [by apply port_ret|].
  eapply quiet_rule; [done|apply port_save; [done|apply R]|]. intros _ s1 I1 G1%own_of_grows _. apply (record_for_later _ _ _ _ _ G1) in R.
  destruct (op_cancelled o && _); [by apply port_ret|]. destruct (op_rejected o); [by apply port_ret|].
  destruct (op_dispatched o && _); [by apply port_ret|]. destruct (op_handle o) as [h|] eqn:Eh; [|by apply port_recover_submission].
  destruct (known_job h) eqn:K; [|by apply port_recover_submission].
  assert (has_job op (handle_job_id h) s1) as J by (destruct R as [<- [J _]]; by apply J).
  eapply bind_any; [done|by apply port_with_remote_cancel|]. cbn beta. intros o' s2 I2 G2%own_of_grows R2.
  destruct (negb _); [|by apply port_recover_submission]. destruct R2 as [-> _]. apply port_except; [done| |intros e s3 I3 _; by apply port_ret].
  eapply quiet_rule; [done|by apply port_lift|]. intros _ s3 I3 G3%own_of_grows _. apply port_ret. intros s4 [G4 _ _] _. apply submit_true_job.
  eapply has_job_later; [|exact J]. etrans; [exact G2|]. by etrans.
Qed.
Lemma port_existing op o digest s : inv s -> record_for op o s -> ok b t (existing o digest) (submit_true op) s.
Proof.
  intros I R. unfold _existing. destruct (_ || _); [by apply port_existing_confirmed|].
  destruct (op_handle o) as [h|]; [|by apply port_existing_confirmed]. destruct (negb _); [|by apply port_existing_confirmed].
  eapply quiet_rule; [done|by apply port_lift|]. intros _ s1 I1 _ _. pose proof (proj1 R) as ->.
  eapply bind_any; [done|by apply port_inspect_operation|]. cbn beta. intros ev s2 I2 _ [Te _].
  eapply bind_any; [done|by apply port_from_remote|]. cbn beta. intros [r|] s3 I3 _ [Lr _]; [|by apply port_ret].
  apply port_existing_confirmed; [done|]. apply record_for_cancelled. by apply Lr.
Qed.
Lemma port_current_or op o s : inv s -> record_for op o s -> ok b t (current_or store o) (fun o' s' => record_for op o' s') s.
Proof.
  intros I R. unfold current_or. pose proof (proj1 R) as ->. eapply bind_any; [done|by apply port_load|]. intros r s1 I1 G1%own_of_grows L.
  apply port_ret. intros s2 [G2 _ _] _. destruct r as [o'|]; [eapply record_for_later; [done|by apply L]|]. eapply record_for_later; [|exact R]. by etrans.
Qed.
End Records.

(** ** A new operation *)

Section Submit.
Variable t store : nat.

(** Giving up, by the process that may submit. *)
Lemma port_rejected op p reason s :
  inv s -> may_submit t op s -> (forall s', inv s' -> grows s s' -> ok false t p (fun o s'' => record_for op o s'') s') ->
  ok false t (rejected t store p op reason) (submit_true op) s.
Proof.
  intros I M Wp. eapply bind_any; [done|by apply port_refuse|]. cbn beta. intros _ s1 I1 G1%own_of_grows Rf.
  eapply (bind_rule (fun _ s' => op ∈ cl_refused s')); [done| |].
  - apply port_locked; [done| |intros _ s2 s3 G; apply G]. intros s2 I2 [G2 _ _].
    eapply bind_any; [done|apply Wp; [done|by etrans]|]. cbn beta. intros o s3 I3 G3%own_of_grows [Eo [J _]].
    assert (op ∈ cl_refused s3) as Rf3 by by apply G3, G2.
    eapply port_weaken; [|apply port_save; [done|]].
    + intros [] s4 _ G4%own_of_grows _. by apply G4.
    + split; [exact J|]. intros _. cbn. by rewrite Eo.
  - intros _ s2 I2 _ Rf2. eapply quiet_rule; [done|by apply port_record_rejection|]. intros _ s3 _ _ _. by apply port_ret.
Qed.

Lemma port_unless_boundary request op s :
  inv s -> ok true t (stage_before_boundary is_dir clock cancel_is_set staged request op) nothing s.
Proof.
  intros I. eapply quiet_rule; [done|by apply port_ask|]. intros n s1 I1 _ _.
  eapply quiet_rule; [done|by apply port_lift|]. intros _ s2 I2 _ _.
  eapply quiet_rule; [done|by apply port_ask|]. intros n' s3 I3 _ _. destruct (cancel_is_set n'); [by apply port_raise|].
  eapply quiet_rule; [done|by apply port_lift|]. intros _ s4 I4 _ _.
  eapply quiet_rule; [done|by apply port_clock|]. intros started s5 I5 _ _.
  eapply quiet_rule; [done|by apply port_unseen|]. intros _ s6 I6 _ _.
  eapply quiet_rule; [done|by apply port_outcome|]. intros hits s7 I7 _ _.
  eapply quiet_rule; [done|by apply port_clock|]. intros ended s8 I8 _ _.
  eapply quiet_rule; [done|by apply port_unseen|]. intros _ s9 I9 _ _. by apply port_ret.
Qed.
(** What is raised as a rejection is raised before the boundary. *)
Definition before_boundary (op : pystr) (e : Exc) (s : Cluster) : Prop := is_rejection e = true -> ready t op s.
Lemma raising_before A (p : prog A) op s :
  inv s -> ready t op s -> ok true t p nothing s -> raising t p (fun _ s' => ready t op s') (before_boundary op) s.
Proof.
  intros I R W. eapply raising_weaken; [| |by apply raising_calm].
  - intros x s' [G _]. by eapply ready_later.
  - intros e s' G _. exact (ready_later _ _ _ _ G R).
Qed.
Lemma raising_rejecting A (p : prog A) op s :
  inv s -> ready t op s -> ok true t p nothing s -> raising t (rejecting p) (fun _ s' => ready t op s') (before_boundary op) s.
Proof.
  intros I R W. eapply (raising_except _ _ _ _ _ _ _ _ (fun _ s' => ready t op s')); [done| |..].
  - eapply raising_weaken; [| |by apply raising_calm]; [intros x s' [G _]; by eapply ready_later|intros e s' G; exact (ready_later _ _ _ _ G R)].
  - intros e s' I' _ R'. unfold raising, ClusterLogic.raising. apply wp_raise. intros s'' G I''. split; [by destruct G|].
    intros _. by eapply ready_later.
  - by intros e s' _ R' _.
Qed.
(** After it, nothing is. *)
Definition after_boundary (e : Exc) (_ : Cluster) : Prop := is_rejection e = false.
Lemma raising_plain A (m : result A) (P : A -> Cluster -> Prop) s :
  plain m -> (forall x s', m = Ok x -> grows s s' -> P x s') -> raising t (lift m) P after_boundary s.
Proof. intros Pm Hp. apply raising_lift; [done|]. intros e s' E. by apply Pm. Qed.
Lemma raising_run_sbatch op s :
  inv s -> ready t op s -> raising t (run_sbatch job_name sbatch t op) (fun i s' => has_job op i s') after_boundary s.
Proof.
  intros I R. eapply raising_bind; [done| |].
  - eapply raising_except; [done|by apply raising_accept|..].
    + intros e s1 I1 _ _. by apply raising_raise.
    + done.
  - cbn beta. intros out s1 I1 _ (n & -> & J). destruct (search_job_id _ _) as [i|] eqn:E; [|by apply raising_raise].
    apply sbatch_prints in E as ->. apply raising_ret. intros s2 G2. by eapply has_job_later.
Qed.
Lemma validate_job_handle_same h h' : validate_job_handle h = Ok h' -> h' = h.
Proof.
  unfold validate_job_handle. intros V%validated_Ok. repeat (apply guard_Ok in V as [_ V]).
  repeat match type of V with
  | bind ?m _ = _ => destruct m; [cbn [bind] in V|done]
  | (if _ then Err _ else _) = _ => apply guard_Ok in V as [_ V]
  end. by injection V as <-.
Qed.
Lemma validate_batch_handle_same h h' : validate_batch_handle h = Ok h' -> h' = h.
Proof. unfold validate_batch_handle. intros V%validated_Ok. repeat (apply guard_Ok in V as [_ V]). by injection V as <-. Qed.
Abbreviation stage_and_submit := (_stage_and_submit cluster_root config_identity job_name is_dir clock cancel_is_set staged sbatch t).
Abbreviation submit_job := (submit_batch cluster_root config_identity job_name is_dir clock cancel_is_set staged sbatch t).
Lemma after_before op e s : after_boundary e s -> before_boundary op e s.
Proof. unfold after_boundary, before_boundary. by intros ->. Qed.
Lemma raising_after A (p : prog A) (P : A -> Cluster -> Prop) op s :
  raising t p P after_boundary s -> raising t p P (before_boundary op) s.
Proof. apply raising_weaken; [done|]. intros e s'. apply after_before. Qed.
Lemma raising_stage_and_submit request op s :
  inv s -> ready t op s ->
  raising t (stage_and_submit request op) (fun h s' => has_job op (j_job_id h) s') (before_boundary op) s.
Proof.
  intros I R. eapply raising_bind; [done|apply raising_rejecting; [done|done|by apply port_unless_boundary]|]. cbn beta.
  intros [seconds hits] s1 I1 _ R1. eapply raising_bind; [done|by apply raising_after, raising_run_sbatch|]. cbn beta.
  intros i s2 I2 _ J. apply raising_after, raising_plain; [apply plain_job_handle|].
  intros h s3 V G3. apply validate_job_handle_same in V as ->. by eapply has_job_later.
Qed.
Lemma raising_submit_batch request op s :
  inv s -> ready t op s ->
  raising t (submit_job request op) (fun h s' => has_job op (handle_job_id h) s') (before_boundary op) s.
Proof.
  intros I R. eapply raising_bind; [done|apply raising_before; [done|done|by apply port_ask]|]. cbn beta. intros n s1 I1 _ R1.
  eapply raising_bind; [done|apply raising_rejecting; [done|done|by apply port_lift]|]. cbn beta. intros _ s2 I2 _ R2.
  eapply raising_bind; [done|apply raising_before; [done|done|by apply port_clock]|]. cbn beta. intros started s3 I3 _ R3.
  eapply raising_bind; [done|by apply raising_stage_and_submit|]. cbn beta. intros job s4 I4 _ J.
  eapply (raising_bind _ _ _ _ _ _ _ (fun _ s' => has_job op (j_job_id job) s')); [done| |].
  { apply raising_ask. intros m s5 G5. by eapply has_job_later. }
  intros m s5 I5 _ J5. eapply (raising_bind _ _ _ _ _ _ _ (fun _ s' => has_job op (j_job_id job) s')); [done| |].
  { apply raising_after, raising_plain; [apply plain_batch_stages|]. intros x s6 _ G6. by eapply has_job_later. }
  intros stages s6 I6 _ J6. eapply (raising_bind _ _ _ _ _ _ _ (fun _ s' => has_job op (j_job_id job) s')); [done| |].
  { eapply (raising_bind _ _ _ _ _ _ _ (fun _ s' => has_job op (j_job_id job) s')); [done|apply raising_ask; intros k s7 G7; by eapply has_job_later|].
    intros k s7 _ _ J7. apply raising_ret. intros s8 G8. by eapply has_job_later. }
  intros ended s7 I7 _ J7. eapply (raising_bind _ _ _ _ _ _ _ (fun h s' => h_job h = job /\ has_job op (j_job_id job) s')); [done| |].
  { apply raising_after, raising_plain; [apply plain_batch_handle|]. intros h s8 V G8. apply validate_batch_handle_same in V as ->.
    split; [done|by eapply has_job_later]. }
  intros h s8 _ _ [Eh J8]. apply raising_ret. intros s9 G9. unfold handle_job_id. cbn. rewrite Eh. by eapply has_job_later.
Qed.

(** ** Submitting *)

Abbreviation dispatch_claimed :=
  (_dispatch_claimed cluster_root config_identity job_name is_dir clock cancel_is_set staged sbatch listing answers progress t store).
Lemma port_dispatch_claimed request op o s :
  inv s -> record_for op o s -> ready t op s -> ok false t (dispatch_claimed request o) (submit_true op) s.
Proof.
  intros I R Rd. unfold _dispatch_claimed. pose proof (proj1 R) as ->.
  eapply bind_any; [done|by apply port_capture, raising_submit_batch|]. cbn beta. intros [h|e] s1 I1 G1%own_of_grows X; cbn in X.
  - apply (record_for_later _ _ _ _ _ G1) in R.
    eapply (bind_rule (fun _ s' => has_job op (handle_job_id h) s')); [done| |].
    2: { intros [reason|] s2 _ _ J; apply port_ret; [done|]. intros s3 [G3 _ _] _. apply submit_true_job. by eapply has_job_later. }
    apply port_locked; [done| |intros _ s2 s3 G J; by eapply has_job_later]. intros s2 I2 [G2 _ _].
    apply (record_for_later _ _ _ _ _ G2) in R. apply (has_job_later _ _ _ _ _ G2) in X.
    eapply bind_any; [done|by apply port_current_or|]. cbn beta. intros o1 s3 I3 G3%own_of_grows R1. apply (has_job_later _ _ _ _ _ G3) in X.
    assert (record_for op (o1 <| op_handle := Some h |>) s3) as R1' by by apply record_for_handle.
    eapply quiet_rule; [done|apply port_save; [done|apply R1']|]. intros _ s4 I4 G4%own_of_grows _. apply (record_for_later _ _ _ _ _ G4) in R1'.
    eapply quiet_rule; [done|apply port_record_acceptance; [done|apply R1']|]. intros _ s5 I5 G5%own_of_grows _. apply (record_for_later _ _ _ _ _ G5) in R1'.
    eapply bind_any; [done|by apply port_inspect_operation|]. cbn beta. intros ev s6 I6 G6%own_of_grows _. apply (record_for_later _ _ _ _ _ G6) in R1'.
    assert (has_job op (handle_job_id h) s6) as X6 by (eapply has_job_later; [|exact X]; by etrans; [|etrans]).
    eapply (bind_rule (fun o' s' => record_for op o' s')); [done| |].
    { destruct (ev_cancelled ev); [|apply port_ret; intros s7 [G7 _ _] _; by eapply record_for_later].
      apply (record_for_cancelled _ _ _ true) in R1'. eapply quiet_rule; [done|apply port_save; [done|apply R1']|].
      intros _ s7 I7 G7%own_of_grows _. apply port_ret. intros s8 [G8 _ _] _. eapply record_for_later; [|exact R1']. by etrans. }
    intros o2 s7 I7 G7%own_of_grows R2. apply (has_job_later _ _ _ _ _ G7) in X6. destruct (op_cancelled o2).
    + eapply bind_any; [done|by apply port_reconcile|]. cbn beta. intros r s8 _ G8%own_of_grows _. apply port_ret. intros s9 [G9 _ _] _.
      eapply has_job_later; [|exact X6]. by etrans.
    + apply port_ret. intros s8 [G8 _ _] _. by eapply has_job_later.
  - destruct (is_one_of [submission_rejected] e) eqn:Rj.
    + destruct (X Rj) as (C & _ & F). apply port_rejected; [done|by split; [eauto|]|]. intros s2 I2 G2. apply port_current_or; [done|].
      eapply record_for_later; [|exact R]. by etrans.
    + destruct (is_one_of port_errors e); [by apply port_ret|by apply port_raise].
Qed.

(** What a claim that is new ends with. *)
Definition new_claim (op : pystr) (x : ClaimKind * Evidence) (s : Cluster) : Prop :=
  evidence_for op (snd x) s
  /\ (fst x = CLAIM_created -> exists c, cl_claims s !! op = Some (t, c) /\ (op ∉ cl_refused s) /\ (c = true -> ev_cancelled (snd x) = true)).
Lemma port_claim_operation o s : inv s -> ClusterLogic.record_true job_name o s -> ok true t (claim_operation t o) (new_claim (op_id o)) s.
Proof.
  intros I T. eapply quiet_rule; [done|by apply port_lift|]. intros _ s1 I1 G1%own_of_grows _.
  eapply quiet_rule; [done|by apply port_unseen|]. intros _ s2 I2 G2%own_of_grows _.
  eapply quiet_rule; [done|by apply port_unseen|]. intros _ s3 I3 G3%own_of_grows _.
  eapply (bind_rule (fun created s' => created = true ->
    exists c, cl_claims s' !! op_id o = Some (t, c) /\ (op_id o ∉ cl_refused s') /\ (c = true -> marked (op_id o) s'))); [done| |].
  - apply port_exec; [done|]. intros s4 created s5 [G4 _ _] I4 P.
    destruct (publish_step job_name t o s4 created s5 I4) as (I5 & R5 & C5); [|done|].
    { eapply record_true_later; [|exact T]. etrans; [exact G1|]. by etrans; [|etrans]. }
    split; [done|split; [done|]]. intros s6 [G6 _ Hl] _ E. destruct (C5 E) as ((c & C & M) & N). exists c.
    split; [by apply G6|split; [apply Hl; by exists c|]]. intros Ec. by apply (g_marked _ _ G6), M.
  - intros created s4 I4 _ C4. eapply bind_any; [done|by apply port_inspect_operation|]. cbn beta. intros ev s5 I5 G5 [Te Mk].
    apply port_ret. intros s6 G6 _. split; [eapply evidence_for_later; [apply G6|exact Te]|]. cbn. intros K.
    destruct (ev_intent ev); [|done]. destruct created; [|done]. destruct (C4 eq_refl) as (c & C & N & M). exists c.
    assert (rely t s4 s6) as [G _ Hl] by by etrans. split; [by apply G|split; [apply Hl; by exists c|]]. auto.
Qed.
Abbreviation claim := (claimed cluster_root config_identity job_name listing answers progress t store).
Lemma port_claimed o s :
  inv s -> record_for (op_id o) o s -> free t s ->
  ok false t (claim o) (fun r s' => match r with Some outcome => submit_true (op_id o) outcome s' | None => ready t (op_id o) s' end) s.
Proof.
  intros I R F. eapply bind_any; [done|by apply port_calm, port_claim_operation; [|apply R]|]. cbn beta.
  intros [kind ev] s1 I1 G1%own_of_grows [Rl [Te C]]. cbn in Te, C. apply (record_for_later _ _ _ _ _ G1) in R.
  apply (l_free _ _ _ Rl) in F.
  destruct kind; [| |by apply port_ret].
  - destruct (C eq_refl) as (c & Ec & N & M).
    eapply bind_any; [done|by apply port_calm, port_from_remote|]. cbn beta. intros [o'|] s2 I2 _ [Rl2 [Lr Mr]]; [|by apply port_ret].
    assert (cl_claims s2 !! op_id o = Some (t, c)) as Ec2 by by apply Rl2.
    assert (op_id o ∉ cl_refused s2) as N2 by (apply Rl2; by exists c). apply (l_free _ _ _ Rl2) in F.
    destruct (op_cancelled o') eqn:Cn.
    + eapply bind_any; [done|apply port_rejected; [done|by split; [eauto|]|]|].
      * intros s3 I3 G3. apply port_ret. intros s4 [G4 _ _] _. eapply record_for_later; [|by apply Lr]. by etrans.
      * cbn beta. intros r s3 _ _ X. apply port_ret. intros s4 [G4 _ _] _. by eapply submit_true_later.
    + apply port_ret. intros s3 Rl3 _. eapply ready_later; [exact Rl3|]. destruct c; [|done]. by rewrite (Mr _ eq_refl (M eq_refl)) in Cn.
  - eapply bind_any; [done|by apply port_from_remote|]. cbn beta. intros [o'|] s2 I2 G2%own_of_grows [Lr _]; [|by apply port_ret].
    apply (record_for_later _ _ _ _ _ G2) in R. specialize (Lr _ eq_refl).
    eapply (port_weaken _ _ _ _ _ _ (fun r s' => exists outcome, r = Some outcome /\ submit_true (op_id o) outcome s')).
    { by intros r s3 _ _ (outcome & -> & X). }
    apply port_locked; [done| |intros r s3 s4 G (outcome & E & X); exists outcome; split; [done|by eapply submit_true_later]].
    intros s3 I3 [G3 _ _]. eapply bind_any; [done|apply port_current_or; [done|by eapply record_for_later]|]. cbn beta.
    intros local s4 I4 G4%own_of_grows _. set (o2 := o' <| op_cancelled := _ |>).
    assert (record_for (op_id o) o2 s4) as R2 by (apply record_for_cancelled; eapply record_for_later; [|exact Lr]; by etrans).
    eapply quiet_rule; [done|apply port_save; [done|apply R2]|]. intros _ s5 I5 G5%own_of_grows _. apply (record_for_later _ _ _ _ _ G5) in R2.
    eapply bind_any; [done|by apply port_existing|]. cbn beta. intros r s6 _ _ X. apply port_ret. intros s7 [G7 _ _] _. exists r.
    split; [done|by eapply submit_true_later].
Qed.
Lemma port_dispatch request o s :
  inv s -> record_for (op_id o) o s -> free t s ->
  ok false t (_dispatch cluster_root config_identity job_name is_dir clock cancel_is_set staged sbatch listing answers progress t store request o)
    (submit_true (op_id o)) s.
Proof.
  intros I R F.
  eapply (bind_rule (fun r s' => match r with Some outcome => submit_true (op_id o) outcome s' | None => ready t (op_id o) s' end)); [done| |].
  - apply port_except; [done|by apply port_claimed|]. intros e s1 I1 _. by apply port_ret.
  - intros [r|] s1 I1 G1%own_of_grows X.
    + apply port_ret. intros s2 [G2 _ _] _. by eapply submit_true_later.
    + apply port_dispatch_claimed; [done|by eapply record_for_later|done].
Qed.

Lemma port_prepared request op s :
  inv s -> ok true t (prepared cluster_root config_identity is_dir content_digest request op)
    (fun r _ => forall d h, r = inl (d, h) -> known_job h = false) s.
Proof.
  intros I. apply port_except; [done| |intros e s1 I1 _; by apply port_ret].
  eapply quiet_rule; [done|by apply port_lift|]. intros _ s1 I1 _ _. eapply quiet_rule; [done| |].
  { eapply quiet_rule; [done|by apply port_ask|]. intros n s2 I2 _ _. eapply quiet_rule; [done|by apply port_lift|].
    intros _ s3 I3 _ _. by apply port_outcome. }
  intros digest s2 I2 _ _. eapply quiet_rule; [done|by apply port_ask|]. intros n s3 I3 _ _.
  eapply (bind_rule (fun h _ => known_job h = false)); [done| |].
  - apply port_lift. intros h s4 E _ _. unfold recover_handle in E. destruct (safe_component op); [|done]. cbn [bind] in E.
    destruct (_validate_batch_request _ _); [|done]. cbn [bind] in E. destruct (request_ok _ _); [|done]. cbn [bind] in E.
    destruct (validate_job_handle _) as [j|] eqn:Ej; [|done]. apply validate_job_handle_same in Ej as ->. cbn [bind] in E.
    destruct (batch_stage_handles _ _); [|done]. cbn [bind] in E. destruct (validate_batch_handle _) as [h'|] eqn:Eh; [|done].
    apply validate_batch_handle_same in Eh as ->. by injection E as <-.
  - intros h s4 I4 _ K. apply port_ret. by intros s5 _ _ d h' [= <- <-].
Qed.
Lemma port_submit request op s :
  inv s -> free t s ->
  ok false t (submit cluster_root config_identity job_name is_dir clock cancel_is_set content_digest staged sbatch listing answers progress t store request op)
    (submit_true op) s.
Proof.
  intros I F. apply port_except; [done| |intros e s1 I1 _; by apply port_ret].
  eapply bind_any; [done|by apply port_calm, port_prepared|]. cbn beta. intros [[digest h]|reason] s1 I1 _ [Rl K]; [|by apply port_ret].
  apply (l_free _ _ _ Rl) in F. specialize (K _ _ eq_refl).
  eapply (bind_rule (fun x s' => rely t s1 s' /\ match x with inl r => submit_true op r s' | inr o => record_for op o s' end)); [done| |].
  - apply port_calm, port_locked; [done| |intros [r|o]; [apply submit_true_later|apply record_for_later]].
    intros s2 I2 _. eapply bind_any; [done|by apply port_load|]. intros [o|] s3 I3 _ Lo.
    + eapply bind_any; [done|by apply port_existing; [|apply Lo]|]. cbn beta. intros r s4 _ _ X. apply port_ret.
      intros s5 [G5 _ _] _. by eapply submit_true_later.
    + eapply (bind_rule (record_for op)); [done| |].
      { apply port_lift. intros o s4 V _ _. apply validate_operation_same in V as ->. apply record_for_fresh. intros h' [= <-]. by rewrite K. }
      intros o s4 I4 _ R. eapply (bind_rule (fun _ s' => record_for op o s')); [done| |].
      { eapply port_weaken; [|apply port_save; [done|apply R]]. intros [] s5 _ G5%own_of_grows _. by eapply record_for_later. }
      intros _ s5 I5 _ R5. eapply (bind_rule (fun _ s' => record_for op o s')); [done|apply port_ask; intros n s6 [G6 _ _] _; by eapply record_for_later|].
      intros n s6 I6 _ R6. destruct (cancel_is_set n).
      * eapply quiet_rule; [done|apply port_save; [done|by apply (record_for_cancelled _ _ _ true) in R6; apply R6]|].
        intros _ s7 _ _ _. by apply port_ret.
      * assert (record_for op (o <| op_dispatched := true |>) s6) as R7.
        { destruct R6 as [E T]. split; [done|by apply (record_true_same _ o)]. }
        eapply (bind_rule (fun _ s' => record_for op (o <| op_dispatched := true |>) s')); [done| |].
        { eapply port_weaken; [|apply port_save; [done|apply R7]]. intros [] s7 _ G7%own_of_grows _. by eapply record_for_later. }
        intros _ s7 I7 _ R8. apply port_ret. intros s8 [G8 _ _] _. by eapply record_for_later.
  - intros [r|o] s2 I2 _ [Rl2 X].
    + apply port_ret. intros s3 [G3 _ _] _. by eapply submit_true_later.
    + pose proof (proj1 X) as <-. apply port_dispatch; [done|done|]. by apply (l_free _ _ _ Rl2).
Qed.
End Submit.

(** ** Every call *)

Lemma port_collect b t store target by_job observed s :
  inv s ->
  ok b t (collect cluster_root config_identity job_name listing answers progress collected t store target by_job observed)
    (fun r _ => forall result, r = ClusterCollected result -> collection_problem result = None) s.
Proof.
  intros I. eapply (bind_rule nothing); [done| |].
  - destruct observed as [o|]; [by apply port_ret|]. eapply port_weaken; [|by apply port_inspect]. done.
  - intros [o|reason] s1 I1 _ _; [|by apply port_ret]. destruct (s_active _); [by apply port_ret|].
    destruct (collection_locator _ _) as [h|]; [|by apply port_ret]. eapply (bind_rule nothing); [done| |].
    + apply port_except; [done| |intros e s2 I2 _; by apply port_ret].
      eapply quiet_rule; [done|by apply port_outcome|]. intros r s2 I2 _ _. by apply port_ret.
    + intros [r|reason] s2 I2 _ _; apply port_ret; intros s3 _ _ result; [|done]. destruct (_ && _); [done|].
      destruct (collection_problem r) eqn:E; [done|]. destruct (missing_stage _ _); [done|]. by intros [= <-].
Qed.
Lemma recorded_id_job o l i s :
  recorded_id o = Ok l -> i ∈ l -> ClusterLogic.record_true job_name o s -> exists j, j ∈ cl_jobs s /\ sj_id j = i.
Proof.
  unfold recorded_id. destruct (read_operation o) as [x|[| | | | | |]] eqn:E; try done; [|intros [= <-] In; by apply elem_of_nil in In].
  apply read_operation_same in E as ->. intros [= <-] In [J _]. destruct (op_handle o) as [h|]; [|by apply elem_of_nil in In].
  destruct (digits_text _ && _) eqn:D; [|by apply elem_of_nil in In]. apply list_elem_of_singleton in In as ->.
  destruct (J h eq_refl) as (j & Hj & Ej & _); [|eauto]. apply known_job_true. intros Eh. by rewrite Eh in D.
Qed.
Lemma port_recorded b t store s :
  inv s -> ok b t (recorded_job_ids store) (fun ids s' => forall i, i ∈ ids -> exists j, j ∈ cl_jobs s' /\ sj_id j = i) s.
Proof.
  intros I. eapply (bind_rule (fun l s' => forall o, o ∈ l -> ClusterLogic.record_true job_name o s')); [done| |].
  - apply port_exec; [done|]. intros s1 r s2 G I1 [= <- <-]. split; [done|split; [intros u; reflexivity|]].
    intros s3 [G3 _ _] _ o ([name' o'] & -> & In)%list_elem_of_fmap. rewrite sort_by_perm in In. apply elem_of_map_to_list in In.
    eapply record_true_later; [done|]. by eapply (v_records _ _ I1).
  - intros l s1 I1 _ Tl. eapply (bind_rule (fun ids s' => forall i, i ∈ concat ids -> exists j, j ∈ cl_jobs s' /\ sj_id j = i)); [done| |].
    + apply port_lift. intros ids s2 E [G2 _ _] _ i In.
      assert (exists o x, o ∈ l /\ recorded_id o = Ok x /\ i ∈ x) as (o & x & Ho & Ex & Hi).
      { clear Tl. revert ids E In. induction l as [|d l IH]; cbn; intros ids E In; [injection E as <-; by apply elem_of_nil in In|].
        destruct (recorded_id d) as [x|] eqn:Ex; [|done]. cbn in E. destruct (mapM_result recorded_id l) as [y|]; [|done]. cbn in E.
        injection E as <-. cbn in In. apply elem_of_app in In as [In|In].
        - exists d, x. split; [by left|done].
        - destruct (IH y eq_refl In) as (o & x' & Ho & ? & ?). exists o, x'. split; [by right|done]. }
      destruct (recorded_id_job o x i s1 Ex Hi (Tl _ Ho)) as (j & Hj & Ej). exists j. split; [by apply G2|done].
    + intros ids s2 I2 _ J. apply port_ret. intros s3 [G3 _ _] _ i In%elem_of_list_to_set. destruct (J i In) as (j & Hj & E).
      exists j. split; [by apply G3|done].
Qed.

Lemma call_ok t job s :
  inv s -> free t s ->
  wp inv rely idle accepts owed t
    (body cluster_root config_identity job_name is_dir clock cancel_is_set content_digest staged sbatch listing answers progress collected t job)
    owed s.
Proof.
  intros I F.
  enough (ok false t (body cluster_root config_identity job_name is_dir clock cancel_is_set content_digest staged sbatch listing answers progress
    collected t job) (fun r s' => said job_name answers r s') s) as W.
  { eapply wp_mono; [|exact W]. by intros [r|e] s' _ [_ X]. }
  destruct job as [store request op|store target by_job|store target by_job|store target by_job observed|store]; cbn [body].
  - eapply bind_any; [done|by apply port_submit|]. cbn beta. intros r s1 _ _ X. apply port_ret. intros s2 [G2 _ _] _.
    eapply port_said_later; [exact G2|]. destruct r; try done. by apply X.
  - eapply bind_any; [done|by apply port_inspect|]. cbn beta. intros r s1 _ _ X. apply port_ret. intros s2 [G2 _ _] _.
    eapply port_said_later; [exact G2|]. destruct r; try done. by apply X.
  - eapply bind_any; [done|by apply port_cancel|]. cbn beta. intros r s1 _ _ X. apply port_ret. intros s2 [G2 _ _] _.
    eapply port_said_later; [exact G2|]. destruct r; try done. by apply X.
  - eapply bind_any; [done|by apply port_collect|]. cbn beta. intros r s1 _ _ X. apply port_ret. intros s2 _ _.
    destruct r; try done. by apply X.
  - eapply bind_any; [done|by apply port_recorded|]. cbn beta. intros r s1 _ _ X. apply port_ret. intros s2 [G2 _ _] _.
    by eapply port_said_later.
Qed.
End Calls.
