(* ===== verification/ClusterRuns.v ===== *)
(** What holds of a cluster after any schedule of the calls of any processes, on any state roots, of the
    steps of their commands, and of the moments at which they fail or die. *)
From S2P Require Import Prelude Plan Floats Coroutines Processes SlurmStates SlurmTypes ClusterPort ClusterLogic ClusterTriples ClusterCalls.
Definition begin : World Cluster ClusterJob ClusterReply := mk_World empty_cluster ∅ 0.

Section Runs.
Context `{OperationCodecLaws}.
Variable cluster_root : PosixPath.
Variable config_identity : pystr.
Variable job_name : pystr -> pystr.
Variable is_dir : nat -> pystr -> bool.
Variable clock : nat -> float.
Variable cancel_is_set : nat -> bool.
Variable content_digest : nat -> SlurmBatchRequest -> result pystr.
Variable staged : nat -> SlurmBatchRequest -> result Z.
Variable sbatch : nat -> pystr * pystr.
Variable listing : nat -> pystr -> list SchedulerJob -> pystr.
Variable answers : nat -> list (result pystr).
Variable progress : nat -> pystr.
Variable collected : nat -> ClusterHandle -> SlurmJobStatus -> result ClusterResult.

Definition run (w : World Cluster ClusterJob ClusterReply) (l : list Move) : option (World Cluster ClusterJob ClusterReply) :=
  run_moves (body cluster_root config_identity job_name is_dir clock cancel_is_set content_digest staged sbatch listing answers
               progress collected) w l.

Section Laws.
Context `{!SbatchLaw sbatch} `{!ListingLaw listing}.
Abbreviation inv := (ClusterLogic.inv job_name).
Definition sound (w : World Cluster ClusterJob ClusterReply) : Prop := world_ok inv rely idle accepts (owed job_name answers) w.

Lemma empty_cluster_inv : inv empty_cluster.
Proof.
  constructor; cbn.
  - intros store name o. unfold records_of. cbn. by rewrite lookup_empty.
  - intros op. unfold evidence_of. cbn. by rewrite lookup_empty.
  - intros op. unfold evidence_of. cbn. by rewrite !lookup_empty.
  - by intros j ?%elem_of_nil.
  - apply NoDup_nil_2.
  - set_solver.
Qed.
Lemma cluster_begin_sound : sound begin.
Proof. split; [apply empty_cluster_inv|split; [intros t _ j ?%elem_of_nil; done|done]]. Qed.
Lemma cluster_run_ok l w w' : sound w -> run w l = Some w' -> sound w' /\ grows (w_state w) (w_state w').
Proof.
  intros Sw R. destruct (run_moves_ok inv rely idle accepts (owed job_name answers)
    (body cluster_root config_identity job_name is_dir clock cancel_is_set content_digest staged sbatch listing answers progress collected)
    (fun _ => True)) with (l := l) (w := w) (w' := w') as [Sw' [_ B]]; try done.
  - intros t j s I F. by apply call_ok.
  - intros t j s s' G F. by apply G.
  - intros t s s' G F. by apply G.
  - split; [done|]. by apply (B (w_next w')).
Qed.
Section Reached.
Context (l : list (Move (J := ClusterJob))) (w : World Cluster ClusterJob ClusterReply).
Hypothesis R : run begin l = Some w.
Lemma cluster_reached_sound : sound w.
Proof. by destruct (cluster_run_ok _ _ _ cluster_begin_sound R). Qed.
Lemma cluster_reached_inv : inv (w_state w).
Proof. by destruct cluster_reached_sound. Qed.
End Reached.

(** C27. An operation is submitted at most once, whatever processes submit it, die and retry: the scheduler
    accepts at most one job for it, and none unless its intent is published on the cluster; and once a
    rejection of it is recorded, in any cache or on the cluster, it has no job and never gets one. *)
Theorem submitted_once l w l' w' :
  run begin l = Some w -> run w l' = Some w' ->
  (forall i k a b, cl_jobs (w_state w') !! i = Some a -> cl_jobs (w_state w') !! k = Some b ->
     sj_operation a = sj_operation b -> i = k)
  /\ (forall j, j ∈ cl_jobs (w_state w') -> ev_intent (evidence_of (sj_operation j) (w_state w')) <> None)
  /\ (forall op, (exists store name o, records_of store (w_state w) !! name = Some o /\ op_id o = op /\ op_rejected o <> None)
        \/ ev_rejected (evidence_of op (w_state w)) <> None ->
      forall j, j ∈ cl_jobs (w_state w') -> sj_operation j <> op).
Proof.
  intros R R'. pose proof (cluster_reached_inv _ _ R) as I. destruct (cluster_run_ok _ _ _ (cluster_reached_sound _ _ R) R') as [[I' _] G]. split; [|split].
  - intros i k a b La Lb E. eapply (NoDup_lookup (map sj_operation (cl_jobs (w_state w')))); [apply (v_once _ _ I')|..].
    + by rewrite list_lookup_fmap, La.
    + rewrite list_lookup_fmap, Lb. cbn. by rewrite E.
  - intros j In N. apply (v_claims _ _ I') in N. destruct (v_jobs _ _ I' j In) as (_ & C & _). congruence.
  - intros op Rj j In <-. destruct (v_jobs _ _ I' j In) as (_ & _ & N). apply N, G.
    destruct Rj as [(store & name & o & L & <- & X)|X]; [by apply (v_records _ _ I _ _ _ L)|by apply (v_remote _ _ I)].
Qed.

(** C28. A cancellation that comes first stands: once an operation is marked as cancelled on the cluster and
    nobody has published its intent, no process ever gets a job for it. *)
Theorem tombstone_stands l w l' w' op :
  run begin l = Some w -> run w l' = Some w' ->
  ev_cancelled (evidence_of op (w_state w)) = true -> ev_intent (evidence_of op (w_state w)) = None ->
  forall j, j ∈ cl_jobs (w_state w') -> sj_operation j <> op.
Proof.
  intros R R' M N j In <-. pose proof (cluster_reached_inv _ _ R) as I. apply (v_claims _ _ I) in N.
  destruct (cluster_run_ok _ _ _ (cluster_reached_sound _ _ R) R') as [[I' _] G].
  destruct (v_jobs _ _ I' j In) as (_ & C & _). by apply (g_late _ _ G _ _ N M) in C.
Qed.

Lemma cluster_reply_true l w t reply :
  run begin l = Some w -> finished w t = Some (Ans reply) -> said job_name answers reply (w_state w).
Proof.
  intros R F. pose proof (cluster_reached_sound _ _ R) as Sw.
  exact (finished_owed inv rely idle accepts (owed job_name answers) None w t (Ans reply) Sw ltac:(done) F).
Qed.
(** C29. What the cluster port answers is so: a submitted operation has the job the handle names; an
    observation is what a reading of the scheduler said, of the operation's job; a cancellation that is
    acknowledged is marked on the cluster, and the job it names was scancelled or read as ending; a
    collection that succeeds is complete; and the jobs a state root lists are jobs. *)
Theorem cluster_answers_are_so l w t reply :
  run begin l = Some w -> finished w t = Some (Ans reply) ->
  match reply with
  | R_submit op (ClusterSubmitted op' h) =>
    op' = op /\ exists j, j ∈ cl_jobs (w_state w) /\ sj_id j = handle_job_id h /\ sj_name j = job_name op
  | R_inspect target by_job_id (Observed o) =>
    (exists n r, read_job answers (o_job_id o) n = Ok r /\ r_life r = o_life o) /\ is_unknown (o_life o) = false
    /\ forall op, target_operation target by_job_id = Some op ->
       exists j, j ∈ cl_jobs (w_state w) /\ sj_id j = o_job_id o /\ sj_name j = job_name op
  | R_cancel target by_job_id (CancelRequested job_id) =>
    (forall op, target_operation target by_job_id = Some op -> ev_cancelled (evidence_of op (w_state w)) = true)
    /\ forall i, job_id = Some i -> stopped answers i (w_state w)
  | R_collect (ClusterCollected result) => collection_problem result = None
  | R_recorded ids => forall i, i ∈ ids -> exists j, j ∈ cl_jobs (w_state w) /\ sj_id j = i
  | _ => True
  end.
Proof.
  intros R F. pose proof (cluster_reply_true _ _ _ _ R F) as Sd. destruct reply as [op []|target by_job []|target by_job []|[]|ids]; try done.
  destruct Sd as [[Rd U] J]. split; [done|split; [done|]]. intros op E. by destruct (J op E).
Qed.

(** Every answer names the same job: two submissions of one operation that are answered as submitted,
    by any processes and from any state roots, name one job. *)
Lemma submissions_agree l w t u op h h' :
  Inj (=) (=) job_name ->
  run begin l = Some w ->
  finished w t = Some (Ans (R_submit op (ClusterSubmitted op h))) ->
  finished w u = Some (Ans (R_submit op (ClusterSubmitted op h'))) -> handle_job_id h = handle_job_id h'.
Proof.
  intros Ij R Ft Fu. pose proof (cluster_reached_inv _ _ R) as I.
  destruct (cluster_reply_true _ _ _ _ R Ft) as (_ & a & Ia & <- & Na), (cluster_reply_true _ _ _ _ R Fu) as (_ & b & Ib & <- & Nb).
  destruct (v_jobs _ _ I a Ia) as (Ea & _), (v_jobs _ _ I b Ib) as (Eb & _).
  assert (sj_operation a = sj_operation b) as E by (apply (inj job_name); congruence).
  apply list_elem_of_lookup in Ia as [i Li], Ib as [k Lk].
  assert (i = k) as <-; [|congruence].
  eapply (NoDup_lookup (map sj_operation (cl_jobs (w_state w)))); [apply (v_once _ _ I)|by rewrite list_lookup_fmap, Li|].
  rewrite list_lookup_fmap, Lk. cbn. by rewrite E.
Qed.
End Laws.
End Runs.
