(* ===== verification/ClusterExample.v ===== *)
(** Schedules of the cluster port, computed over a codec that reads back what it writes: a submission whose
    answer is lost and that is submitted again, from its own state root and from another; a cancellation
    that comes first; and two that show what the port does not do. *)
From S2P Require Import Prelude Plan Floats Coroutines Processes SlurmStates SlurmTypes ClusterPort ClusterLogic ClusterTriples ClusterCalls ClusterRuns Formats.

(** ** A codec *)

#[export] Instance format_SlurmArtifactTarget : Format SlurmArtifactTarget.
Proof.
  refine (format_via (fun a => (x_remote_path a, x_local_path a, (match x_kind a with K_file => true | K_tree => false end, x_collect_on_failure a)))
    (fun '(p, q, (k, c)) => mk_SlurmArtifactTarget p q (if k : bool then K_file else K_tree) c) _).
  by intros [? ? [] ?].
Defined.
#[export] Instance format_SlurmJobHandle : Format SlurmJobHandle.
Proof.
  refine (format_via
    (fun h => (j_job_id h, j_invocation_id h, j_config_identity h, j_remote_workspace h, j_remote_status_path h, j_remote_log_path h,
               j_artifacts h, j_staging_seconds h, j_content_cache_hits h))
    (fun '(a, b, c, d, e, f, g, h, i) => mk_SlurmJobHandle a b c d e f g h i) _).
  by intros [].
Defined.
#[export] Instance format_SlurmBatchStageHandle : Format SlurmBatchStageHandle.
Proof.
  refine (format_via (fun h => (k_name h, k_file_artifacts h, k_tree_artifacts h)) (fun '(a, b, c) => mk_SlurmBatchStageHandle a b c) _).
  by intros [].
Defined.
#[export] Instance format_SlurmBatchHandle : Format SlurmBatchHandle.
Proof.
  refine (format_via (fun h => (h_job h, h_stages h, h_stop_on_failure h, h_submission_seconds h, h_waited_seconds h))
    (fun '(a, b, c, d, e) => mk_SlurmBatchHandle a b c d e) _).
  by intros [].
Defined.
#[export] Instance format_ClusterHandle : Format ClusterHandle.
Proof.
  refine (format_via (fun h => match h with JobHandle j => (Some j, None) | BatchHandle b => (None, Some b) end)
    (fun '(j, b) => match (j : option SlurmJobHandle), (b : option SlurmBatchHandle) with
                    | Some j, _ => JobHandle j
                    | None, Some b => BatchHandle b
                    | None, None => JobHandle (mk_SlurmJobHandle [] [] [] [] [] [] [] f_zero 0)
                    end) _).
  by intros [].
Defined.
#[export] Instance format_Operation : Format Operation.
Proof.
  refine (format_via (fun o => (op_id o, op_digest o, op_handle o, op_dispatched o, op_cancelled o, op_rejected o))
    (fun '(a, b, c, d, e, f) => mk_Operation a b c d e f) _).
  by intros [].
Defined.
#[export] Instance operation_codec : OperationCodec := {| dump_operation := put; operation_fields := read_fields |}.
#[export] Instance operation_codec_laws : OperationCodecLaws.
Proof.
  constructor. intros o o' F. change (read_fields (put o) = Ok o') in F. rewrite <- (app_nil_r (put o)), read_put in F. congruence.
Qed.

(** ** A cluster *)

Definition digest_a : pystr := py "aaaaaaaaaaaaaaaaaaaaaaaaaaaaaaaaaaaaaaaaaaaaaaaaaaaaaaaaaaaaaaaa".
Definition bench : SlurmBatchStage := mk_SlurmBatchStage (py "bench") [py "run"] None [] [].
Definition batch : SlurmBatchRequest := mk_SlurmBatchRequest (py "/w") [bench] true None [].
Definition op_a : pystr := py "op-a".
Definition vs_name (operation_id : pystr) : pystr := py "vs-" ++ operation_id.
Definition root : PosixPath := mk_PosixPath [47%N] [py "c"].
(** The scheduler gives the ids 7 and 8, and lists the jobs that have them. *)
Definition given (n : nat) : pystr * pystr :=
  if (n <? 100)%nat then (py "7", py "Submitted batch job 7" ++ [10%N]) else (py "8", py "Submitted batch job 8" ++ [10%N]).
Definition lists (n : nat) (name : pystr) (jobs : list SchedulerJob) : pystr :=
  let has i := existsb (fun j => pystr_eqb (sj_name j) name && pystr_eqb (sj_id j) i) jobs in
  whole (if has (py "7") then py "7" ++ [10%N] else if has (py "8") then py "8" ++ [10%N] else []).
Definition runs (n : nat) : list (result pystr) := [Ok (whole (py "RUNNING|None|N/A" ++ [10%N]))].
#[export] Instance given_law : SbatchLaw given.
Proof. intros n i. unfold given. destruct (n <? 100)%nat; vm_compute; by intros [= <-]. Qed.
#[export] Instance lists_law : ListingLaw lists.
Proof.
  intros n name jobs body i. unfold lists.
  assert (forall x, existsb (fun j => pystr_eqb (sj_name j) name && pystr_eqb (sj_id j) x) jobs = true ->
    exists j, j ∈ jobs /\ sj_id j = x /\ sj_name j = name) as Found.
  { intros x (j & In & E)%existsb_exists. apply andb_true_iff in E as [En Ei]. apply pystr_eqb_true in En, Ei.
    exists j. by rewrite list_elem_of_In. }
  destruct (existsb _ jobs) eqn:E7; [|destruct (existsb (fun j => _ && pystr_eqb _ (py "8")) jobs) eqn:E8].
  - intros U In. apply Found in E7. vm_compute in U. injection U as <-. vm_compute in In.
    apply elem_of_cons in In as [->|In]; [done|by apply elem_of_nil in In].
  - intros U In. apply Found in E8. vm_compute in U. injection U as <-. vm_compute in In.
    apply elem_of_cons in In as [->|In]; [done|by apply elem_of_nil in In].
  - intros U In. vm_compute in U. injection U as <-. vm_compute in In. by apply elem_of_nil in In.
Qed.

Abbreviation cluster_world := (World Cluster ClusterJob ClusterReply).
(** The digest is read, or not, by how often the world was asked before. *)
Definition digest_unless (unreadable_at n : nat) (request : SlurmBatchRequest) : result pystr :=
  if (n =? unreadable_at)%nat then Err (OtherError "OSError" [AStr (py "no such file")]) else Ok digest_a.
Definition run_with (unreadable_at : nat) : cluster_world -> list Move -> option cluster_world :=
  run root digest_a vs_name (fun _ _ => true) (fun _ => f_zero) (fun _ => false) (digest_unless unreadable_at)
    (fun _ _ => Ok 0) given lists runs (fun _ => []) (fun _ _ _ => Err (SlurmError "")).
Definition from (unreadable_at : nat) (w : cluster_world) (l : list Move) : cluster_world := default w (run_with unreadable_at w l).
Definition completes (unreadable_at : nat) (w : cluster_world) (l : list Move) : bool :=
  match run_with unreadable_at w l with Some _ => true | None => false end.
Lemma port_run_from n w l : completes n w l = true -> run_with n w l = Some (from n w l).
Proof. unfold completes, from. by destruct (run_with n w l). Qed.
Definition goes (t n : nat) : list (Move (J := ClusterJob)) := replicate n (M_run t C_ok).
Definition submit_from (store : nat) : Move := M_call (J_submit store batch op_a).
Definition says (w : cluster_world) (t : nat) : ClusterReply :=
  match finished w t with Some (Ans reply) => reply | _ => R_recorded ∅ end.
Definition job_ids (w : cluster_world) : list pystr := map sj_id (cl_jobs (w_state w)).
Definition submitted_job (r : ClusterReply) : option pystr :=
  match r with R_submit _ (ClusterSubmitted _ h) => Some (handle_job_id h) | _ => None end.
Definition is_rejected (r : ClusterReply) : bool := match r with R_submit _ (ClusterRejected _ _) => true | _ => false end.
(** A number of questions the examples never get to. *)
Definition never : nat := 1000.

(** ** Submitted once *)

(** A process dies once [sbatch] has accepted its job; the operation is submitted again, from the same
    state root and from another. *)
Definition dying : list Move := submit_from 0 :: goes 0 42.
Definition died : cluster_world := from never begin dying.
Definition retrying : list Move := submit_from 0 :: goes 1 40 ++ submit_from 1 :: goes 2 46.
Definition retried : cluster_world := from never died retrying.
Lemma submitted_once_witness :
  job_ids died = [py "7"] /\ job_ids retried = [py "7"]
  /\ forall i k a b, cl_jobs (w_state retried) !! i = Some a -> cl_jobs (w_state retried) !! k = Some b ->
       sj_operation a = sj_operation b -> i = k.
Proof.
  split; [by vm_compute|split; [by vm_compute|]].
  refine (proj1 (submitted_once root digest_a vs_name (fun _ _ => true) (fun _ => f_zero) (fun _ => false)
    (digest_unless never) (fun _ _ => Ok 0) given lists runs (fun _ => []) (fun _ _ _ => Err (SlurmError ""))
    dying died retrying retried _ _)).
  - apply (port_run_from never). by vm_compute.
  - apply (port_run_from never). by vm_compute.
Defined.
#[export] Instance vs_name_inj : Inj (=) (=) vs_name.
Proof. intros a b E. by apply app_inv_head in E. Qed.
Definition handle_of (r : ClusterReply) : ClusterHandle :=
  match r with R_submit _ (ClusterSubmitted _ h) => h | _ => JobHandle (mk_SlurmJobHandle [] [] [] [] [] [] [] f_zero 0) end.
Definition tried_thrice : cluster_world := from never begin (dying ++ retrying).
Lemma submissions_agree_witness :
  submitted_job (says tried_thrice 1) = Some (py "7")
  /\ handle_job_id (handle_of (says tried_thrice 1)) = handle_job_id (handle_of (says tried_thrice 2)).
Proof.
  split; [by vm_compute|].
  refine (submissions_agree root digest_a vs_name (fun _ _ => true) (fun _ => f_zero) (fun _ => false)
    (digest_unless never) (fun _ _ => Ok 0) given lists runs (fun _ => []) (fun _ _ _ => Err (SlurmError ""))
    (dying ++ retrying) tried_thrice 1 2 op_a _ _ _ _ _ _).
  - exact (port_run_from never begin (dying ++ retrying) ltac:(by vm_compute)).
  - by vm_compute.
  - by vm_compute.
Defined.

(** ** Cancelled first *)

Definition cancelling : list Move := M_call (J_cancel 1 (T_id op_a) false) :: goes 0 24.
Definition cancelled_first : cluster_world := from never begin cancelling.
Definition submitting_late : list Move := submit_from 0 :: goes 1 39.
Definition submitted_late : cluster_world := from never cancelled_first submitting_late.
Lemma tombstone_stands_witness :
  is_rejected (says submitted_late 1) = true /\ forall j, j ∈ cl_jobs (w_state submitted_late) -> sj_operation j <> op_a.
Proof.
  split; [by vm_compute|].
  refine (tombstone_stands root digest_a vs_name (fun _ _ => true) (fun _ => f_zero) (fun _ => false)
    (digest_unless never) (fun _ _ => Ok 0) given lists runs (fun _ => []) (fun _ _ _ => Err (SlurmError ""))
    cancelling cancelled_first submitting_late submitted_late op_a _ _ _ _).
  - apply (port_run_from never). by vm_compute.
  - apply (port_run_from never). by vm_compute.
  - by vm_compute.
  - by vm_compute.
Defined.
Lemma cluster_answers_are_so_witness :
  says cancelled_first 0 = R_cancel (T_id op_a) false (CancelRequested None)
  /\ forall op, target_operation (T_id op_a) false = Some op -> ev_cancelled (evidence_of op (w_state cancelled_first)) = true.
Proof.
  split; [by vm_compute|].
  refine (proj1 (cluster_answers_are_so root digest_a vs_name (fun _ _ => true) (fun _ => f_zero) (fun _ => false)
    (digest_unless never) (fun _ _ => Ok 0) given lists runs (fun _ => []) (fun _ _ _ => Err (SlurmError ""))
    cancelling cancelled_first 0
    (R_cancel (T_id op_a) false (CancelRequested None)) _ _)).
  - apply (port_run_from never). by vm_compute.
  - by vm_compute.
Defined.

(** ** A cancellation that overtakes a submission

    The cancelling process has read that the operation is unknown; another publishes it, is not yet
    cancelled, has its job accepted and dies; then the cancellation is stored and acknowledged. *)
Definition overtaking : list Move := M_call (J_cancel 1 (T_id op_a) false) :: goes 0 11 ++ submit_from 0 :: goes 1 42 ++ goes 0 13.
Definition overtaken : cluster_world := from never begin overtaking.
Definition asking_again : list Move :=
  M_call (J_cancel 1 (T_id op_a) false) :: goes 2 16 ++ M_call (J_inspect 1 (T_id op_a) false) :: goes 3 6 ++ submit_from 1 :: goes 4 12.
Definition asked_again : cluster_world := from never overtaken asking_again.
(** The tombstone in the cache of the state root that cancelled hides the job for good: cancelling again is
    acknowledged without a [scancel], inspecting finds no job, and a submission is answered as rejected,
    while the job runs. *)
Lemma tombstone_hides_job :
  exists l w, run_with never begin l = Some w /\ job_ids w = [py "7"] /\ cl_scancels (w_state w) = []
  /\ says w 0 = R_cancel (T_id op_a) false (CancelRequested None)
  /\ says w 2 = R_cancel (T_id op_a) false (CancelRequested None)
  /\ says w 3 = R_inspect (T_id op_a) false (InspectUnknown (py "operation has no accepted scheduler job"))
  /\ is_rejected (says w 4) = true.
Proof.
  exists (overtaking ++ asking_again), (from never begin (overtaking ++ asking_again)). split; [apply port_run_from|split_and!]; by vm_compute.
Qed.

(** ** A rejection that is none

    The operation's job runs; its workspace cannot be read when it is submitted again. *)
Definition submitting_unreadable : list Move := submit_from 0 :: goes 0 64 ++ submit_from 0 :: goes 1 4.
Lemma rejected_although_submitted :
  exists l w, run_with 15 begin l = Some w /\ submitted_job (says w 0) = Some (py "7") /\ job_ids w = [py "7"]
  /\ is_rejected (says w 1) = true.
Proof.
  exists submitting_unreadable, (from 15 begin submitting_unreadable). split; [apply port_run_from|split_and!]; by vm_compute.
Qed.
